(* ===== verification/_CoqProject ===== *)
-Q . S2P
Prelude.v
Memory.v
Printf.v
PrintfProofs.v
Harts.v
HartsProofs.v
HelloProofs.v
Syscall.v
Heap.v
MemTest.v
MemSuites.v
MemVerdict.v
ClkWzrd.v
Dtb.v
DtbTree.v
DtbQuery.v
MemTree.v
DtbCompat.v
DtbWrite.v
DtbWriteProofs.v
Mmio.v
Kprintf.v
Console.v
ConsoleProofs.v
Xhci.v
XhciProofs.v
XhciInit.v
XhciMain.v
Files.v
FilesProofs.v
SdcMount.v
Sdc.v
SdcProofs.v
BootRom.v
BootProofs.v
Htif.v
HtifProofs.v
Start.v
StartProofs.v
AxiSdc.v
AxiSdcProofs.v
AxiProbe.v
DpMode.v
DpFb.v
DpFbProofs.v
DpFbModes.v
DpProbe.v
DpProbeProofs.v
FbMode.v
FbModeProofs.v
FbImg.v
FbImgProofs.v
Doom.v
DoomProofs.v
DoomKeys.v
DoomInit.v
SoctFb.v
SoctFbProofs.v
SoctInit.v
Teapot.v
TeapotProofs.v
DpTest.v
DpTestProofs.v
