(* ===== verification/Prelude.v ===== *)
(** * SoCeteer: runtime, drivers and display software

    SoCeteer generates RISC-V SoCs from Scala.  The C in the repository is the software that
    runs on them; this library models that C and proves what it is for.  Paths are relative
    to src/.

    ** The system and its parts

    A board comes up in the boot ROM (binaries/bootroms/sd-boot), which reads an ELF file off
    the SD card and jumps to it with the device tree in a1, reporting through [Kprintf].  The file is either a bare-metal
    program linked against the runtime (shared/soctglue) or a Linux image whose out-of-tree
    modules (binaries/linux/drivers) drive the same hardware.
    - The runtime starts in [_soct_start_main] ([Start]): it parses the device tree ([Dtb]) into
      an arena ([Heap.Arena]), finds the UART, mounts the SD cards ([SdcMount]), looks for the
      simulator's host ([Htif]), registers the handlers, prints its log, lets the other harts
      out of their boot barrier and calls main; hello-hart is the program that runs on all of
      them ([Harts]).
    - From the tree it also learns where RAM ends and how many harts there are ([DtbQuery]), and
      from those two answers where the heap may grow ([Heap.Sbrk]).
    - POSIX calls go through a table of handlers ([Syscall]); printf formats ([Printf]) into a
      line buffer that is written through that table to the UART ([Console]), or through the
      mailbox to the host.  fopen on a card's path goes to FatFs ([Files]).
    - The SD driver exists three times: in the boot ROM and in the runtime ([Sdc], one engine
      and two command tables), and for Linux ([AxiSdc]).
    - Under Linux the DisplayPort module finds its parts in the device tree and brings them up
      ([DpProbe]), programs the pixel clock ([ClkWzrd]), switches the pipeline between modes
      ([DpMode]) and gives the console a framebuffer ([DpFb]) whose scanout does not snoop the
      CPU's caches.  Three programs use it: fbmode asks for modes ([FbMode]), fbimg shows a
      picture ([FbImg]), and the game sets itself up ([DoomInit]), draws on it with workers and
      two frames ([Doom]) and reads the keyboards ([DoomKeys]).
    - Bare-metal programs drive the display themselves ([SoctInit], [SoctFb]) or test the board:
      DRAM ([MemTest], [MemSuites], [MemVerdict]), the USB controller ([XhciMain], [Xhci]) and
      the screen, with a rasterizer ([DpTest], [Teapot]).

    ** How the code is embedded

    - Integers are [Z]; an operation that can leave its C type is followed by the reduction of
      that type ([u8] ... [u64], [s32], [s64], below).  [fits w x] says that [x] is a value of
      an unsigned [w]-bit type.
    - Memory is a function of the address ([Memory]); where the code's own objects matter they
      are lists ([Dtb]: the blob and the two buffers of nodes and properties).
    - A device is anything that can be read and written ([Mmio.Mmio], a class with an arbitrary
      state), so a theorem over it holds for a device that answers anything; the log of writes
      is what the driver did.  Linux handlers and the display run in the state monad of that
      file; the device-tree code in an error monad with [Undef] (the C has undefined
      behaviour), [Fuel] (below) and the code's own error.
    - Concurrency is a step relation: drawers, flush worker, scanout and panning of the
      framebuffer ([DpFbProofs.step]), the driver and the controller around the event ring
      ([Xhci.Ring.step]), the requests and interrupts of the SD host
      ([AxiSdcProofs.requests_once], over every sequence of events), harts and host around the
      mailbox ([Htif.run], over every schedule), harts around a lock and a barrier ([Harts.run],
      and [Barrier.step] for any program around the barrier), the game's workers
      ([Doom.frame_step]).

    ** Files

    - Prelude: machine integers, notations ([soct_scope]), tactics, lemmas on lists and bits.
    - Memory: stores and loads of byte runs.   Mmio: devices, the driver monad, its [wp].
    - Printf, PrintfProofs: soctglue/src/stdio/vxprintf.c.  [Vx.vxprintf] is the scanner with
      one definition per conversion; [Spec] is the grammar of formats and what each prints.
    - Harts: baremetal/hello-hart and the boot barrier of soctglue.c ([Barrier], [Harts]).
      HartsProofs: the barrier.  HelloProofs: the program.
    - Syscall: soctglue/src/syscall-handler.c.
    - Console, ConsoleProofs: stdio.c, printbuf.h, posix/write.c, read.c, exit.c and
      syscall-uart.c, composed over [Printf] and [Syscall].
    - Htif, HtifProofs: syscall-htif.c and spinlock.h, with the server's loop of
      risc-v-isa-sim/fesvr/htif.hpp.   Start, StartProofs: _soct_start_main of soctglue.c,
      composed over Dtb, SdcMount, Syscall and Console.
    - Heap: posix/sbrk.c ([Sbrk]); the bump allocator and set-up log of soctglue.c ([Arena]).
    - Dtb: smoldtb.c, parser and queries.  DtbTree: trees, their encoding and the parser's
      proofs.  DtbQuery: the queries' proofs, and soctglue.c's two questions.  DtbCompat: the
      search by compatible string.  DtbWrite, DtbWriteProofs: smoldtb.c's write API.
    - Files, FilesProofs: soct_ff/soct_ff.c.   SdcMount: the mounting loop of soct_ff/sdc.c.
    - Sdc, SdcProofs: soct_ff/sdc.c ([Ff]) and the driver inside bootrom.c ([Rom]).
    - BootRom, BootProofs: bootrom.c, the ELF loader.   Kprintf: kprintf.c beside it.
    - AxiSdc, AxiSdcProofs: linux/drivers/sdc/fpga-axi-sdc.c under the host lock.  AxiProbe: its
      probe and removal.
    - ClkWzrd: linux/drivers/clk-wzrd.  DpMode: linux/drivers/dp/dp-main.c and dp.h.
    - DpFb, DpFbProofs, DpFbModes: linux/drivers/dp/fb.c.   DpProbe, DpProbeProofs: the life of
      the module, soct_dp_work to soct_dp_exit, with fb.c's registration and tear-down.
    - FbMode, FbModeProofs: linux/userspace/fbmode.  FbImg, FbImgProofs: linux/userspace/fbimg.
    - Doom, DoomProofs: the screen half of linux/userspace/doom/doomgeneric_soct.c.  DoomKeys:
      its keyboard (soct_evdev.c), the search for the game data and the way out.  DoomInit: its
      set-up and every way it ends.
    - SoctFb, SoctFbProofs: baremetal/soctfb.   SoctInit: soctfb_init from the tree on, and
      soctfb/dp.c.
    - Teapot, TeapotProofs: baremetal/dp-test/render.c, the test picture and the teapot.
      DpTest, DpTestProofs: main.c and diag.c beside it.
    - MemTest, MemSuites, MemVerdict, MemTree: baremetal/mem-test/main.c, its suites, the
      program's verdict, and the ranges it reads from the tree.
    - Xhci, XhciProofs, XhciInit: baremetal/usb-test/xhci.c, the event ring, the round trip and
      the bring-up.   XhciMain: the port watch, the host mode and main.c.

    ** What is proved

    - Boot.  A blob that encodes a tree is parsed to that tree ([DtbTree.init_roundtrip]), and
      [DtbTree.init_diverges] is the shape of tree on which the parser never returns.  Paths
      and names are looked up as the format means them ([DtbQuery.dtb_find_walks],
      [dtb_find_prop_finds]); harts and RAM end follow.  A well-formed ELF on a card without
      errors is in memory, byte for byte, when the loader jumps ([BootProofs.download_loads]).
      The ROM's own messages are on the wire as their formats say ([Kprintf.kprintf_renders]).
    - Harts.  The barrier separates its rounds under every interleaving, whatever runs around
      it ([HartsProofs.barrier_separates]); on every schedule the terminal shows whole lines, the
      first hart's around the others' ([HelloProofs.hello_prints]), and every fair one ends
      ([hello_finishes]).
    - Storage.  A block transfer issues commands that move exactly the blocks asked for
      ([SdcProofs.sdc_read_covers], [sdc_write_covers]), initialisation reports success only
      after the whole identification ([sdc_initialize_sequence]), the two copies agree
      ([drivers_agree]).  The Linux driver completes each request exactly once, with balanced
      DMA mappings, and every handler returns ([AxiSdcProofs.requests_once]); its watchdogs and
      its transfer limits are exact ([command_watchdog], [setup_exact]).  Its probe either
      leaves a started host or gives back all it took ([AxiProbe.probe_balanced]).
    - Console.  The formatter prints what the format says ([PrintfProofs.vxprintf_renders]) and
      ends on every format ([vxprintf_ends]); what is printed is on the wire in order
      ([ConsoleProofs.console_prints]); [snprintf] stays in its buffer ([snprintf_truncates]);
      the handler table refines two lists ([Syscall.soct_syscall_dispatches]).
    - Start-up.  The table main finds holds the UART and then the host, each exactly when the
      tree names it and it answers ([StartProofs.handlers_registered]); with a UART the set-up
      log is on the wire, whole, before main ([boot_log_sent]); [null_blob_silences] is the case
      in which nothing is registered.  Cards are mounted in the tree's order
      ([SdcMount.sdc_mounts_in_order]).
    - The host.  Under every schedule of harts and server a call is executed once and gets its
      own result ([HtifProofs.calls_served_once]) and a posted call returns ([call_returns]), as
      long as no probe gave up; [late_write] and [late_reply] are what one leaves behind.
    - Files.  A program of opens, reads, writes, seeks and closes keeps one FIL per stream
      ([FilesProofs.handles_balanced]); [fopen_outcome] lists every path and error.
    - The tree written back: a parsed tree written out and parsed again is the same tree with
      its lists reversed ([DtbWriteProofs.rewrite_roundtrip]), and [finalise_exact] says what
      happens for every buffer size.
    - Memory.  No history of sbrk calls grants memory twice, or on the stacks
      ([Heap.Sbrk.sbrk_run_safe]).  The DRAM test reports success exactly when some memory is
      testable and no two tested words share a cell ([MemVerdict.mem_test_verdict]).
    - Display.  The clock solver answers a legal setting no other beats ([ClkWzrd.solve_sound],
      [solve_optimal]) that the wizard reads back from its registers ([retune_solved]); the
      cached mode never claims more than the registers hold ([DpMode.switch_mode_honest],
      [DpFbModes.set_par_in_step]); under every interleaving a byte that is stale in DRAM is
      covered by pending damage ([DpFbProofs.screen_coherent]) and each drawing operation is a
      run of that machine ([drawing_refines], [imageblit_draws]).  fbmode's computed modes are
      decoded by the driver to the same timing ([FbModeProofs.driver_decodes_request]) and a mode
      stays only when confirmed ([switch_is_confirmed]).
    - The module's life.  Whatever the device tree, the kernel and the hardware answer, what
      the module holds at any moment is what its exit gives back, each once
      ([DpProbeProofs.module_releases]), and a bring-up that succeeds leaves the registers, the
      clock and the streams in the mode it reports ([bring_up_in_step]).
    - Pictures.  After every frame of the game the visible frame is its picture, scaled and
      centred, whatever the order of the workers ([DoomProofs.game_on_screen]), and no byte of it
      changes until the pan ([game_never_tears]).  The bare-metal library's drawing is the
      pictures laid over each other ([SoctFbProofs.drawing_paints]) and never shows a
      half-drawn frame ([frames_alternate]); its bring-up refuses before the first register or
      leaves the exact log of writes ([bring_up_starts]), and from the tree on there is a
      frame only when everything on the way answered ([SoctInit.soctfb_comes_up]). The
      rasterizer's stepped edges and planes draw the nearest face in every pixel
      ([TeapotProofs.teapot_pixels]) and are exact to two units ([shading_accurate]). The
      viewer's picture is on the console's framebuffer, letterboxed, with its channels in the
      screen's order ([FbImgProofs.image_reaches_screen]). The keys of every keyboard reach
      the game once and in order ([DoomKeys.keys_delivered]), and every way out of the game
      gives the console and the keyboard back ([DoomInit.console_given_back]).
    - USB.  The event ring is a queue under every interleaving ([XhciProofs.event_ring_fifo]);
      the round trip accepts only its own command's completion ([noop_roundtrip_sound]).  A test
      that passes has done all of it in the window the tree gives, and nothing else
      ([XhciMain.usb_test_passes]).

    ** Fuel and bounds

    - Dtb: each loop over the blob takes fuel and [init_roundtrip] gives a bound (from the
      length of the blob) from which on the result is the tree; the tree walks have their own
      in [dtb_find_walks].
    - Printf: [vxprintf] takes fuel, and [vxprintf_ends] proves that one more than the length of
      the format never runs out.
    - Console: [put_tx] polls the UART's full flag; its fuel bounds the polls for which the
      device stays full, a hypothesis on the device ([fifo] in the witnesses).
    - Start: the parser's and the console's fuel are arguments; the formats of the log need
      less than 200.
    - Harts: no fuel; a schedule is a list of harts, and [hello_finishes] counts the fair rounds
      that end the program.
    - SoctInit: the monitor's detection and the reset of the timing generator poll with a number
      of polls as an argument, as every deadline below.
    - Sdc, AxiSdc, Xhci: a deadline of the code is a number of polls, an argument; a wait is
      then a total function and every outcome of the deadline is covered.
    - Teapot: no fuel; the loops run over the bounding box.  DpTest: the endless animation is run for
      as many frames as a list has, and the list says what time adds to each.
    - ClkWzrd: the loops are folds over the dividers (106 by 1017); the search is reasoned
      about, never evaluated.
    - MemTest: windows and ranges are lists; addresses stay below 2^64 by the theorems'
      hypotheses on the ranges, which the device tree's 64-bit cells give.

    ** Not modelled

    - Vendored: FatFs (ff.c, ffunicode.c: [BootRom.Fs] and [Files.FatFs] are the interfaces its
      callers use), vendor/xilinx-dp (its answers and the log of streams it was asked for), the
      image decoder, the ISA simulator with softfloat, encoding.h and elf.h; of its front-end
      server only the mailbox loop.
    - Data: scene.h, teapot_mesh.h (an argument of [Teapot]), shared/mnist.  Other languages: the Scala generators and the HDL, and the
      start-up and trap assembly.
    - The link training and AUX channel behind soctfb/dp.c and dp-main.c, which are the vendored
      driver's.
    - The outer retry loop of the boot ROM's main, the host's answers to system calls, and
      the reports programs print for a person.
    - Programs whose output is a picture, a log or a table: shell, echo, sd-test, heap-test,
      syscall-test, msip-boot, fb-template, the gemmini demonstrations.
 *)
From Stdlib Require Export ZArith Lia Bool.
From stdpp Require Export base tactics numbers option list.

#[export] Set Default Goal Selector "!".

Global Open Scope Z_scope.

(** ** Machine integers *)

(** A [w]-bit unsigned integer is a [Z]; every C operation that can leave the
    range is followed by the reduction the hardware does. *)
Definition wrap (w x : Z) : Z := x mod 2 ^ w.

Abbreviation u8 := (wrap 8).
Abbreviation u16 := (wrap 16).
Abbreviation u32 := (wrap 32).
Abbreviation u64 := (wrap 64).

(** Two's complement reading of the low [w] bits. *)
Definition sgn (w x : Z) : Z :=
  let y := wrap w x in if y <? 2 ^ (w - 1) then y else y - 2 ^ w.

Abbreviation s32 := (sgn 32).
Abbreviation s64 := (sgn 64).

(** [fits w x]: [x] is a value of an unsigned [w]-bit type. *)
Definition fits (w x : Z) : Prop := 0 <= x < 2 ^ w.

(** C's [if (x & m)]. *)
Definition tst (x m : Z) : bool := negb (Z.land x m =? 0).

(** [~m] on a [w]-bit operand. *)
Definition cnot (w m : Z) : Z := wrap w (Z.lnot m).

(** C's [b ? 1 : 0]. *)
Definition b2z (b : bool) : Z := if b then 1 else 0.

Declare Scope soct_scope.
Delimit Scope soct_scope with soct.
Infix ".&" := Z.land (at level 45, left associativity) : soct_scope.
Infix ".|" := Z.lor (at level 48, left associativity) : soct_scope.
Infix ".^" := Z.lxor (at level 47, left associativity) : soct_scope.
Infix ".<<" := Z.shiftl (at level 42, left associativity) : soct_scope.
Infix ".>>" := Z.shiftr (at level 42, left associativity) : soct_scope.
Global Open Scope soct_scope.

Lemma wrap_range w x : 0 <= w -> 0 <= wrap w x < 2 ^ w.
Proof. intros. unfold wrap. apply Z.mod_pos_bound. lia. Qed.

Lemma wrap_small w x : fits w x -> wrap w x = x.
Proof. intros. unfold wrap. by apply Z.mod_small. Qed.

Lemma wrap_fits w x : 0 <= w -> fits w (wrap w x).
Proof. apply wrap_range. Qed.

Lemma wrap_wrap w x : wrap w (wrap w x) = wrap w x.
Proof. unfold wrap. apply Z.mod_mod_divide, Z.divide_refl. Qed.

(** Moving one reduction in or out of a sum, a difference or a product. *)
Lemma wrap_add_l w x y : wrap w (wrap w x + y) = wrap w (x + y).
Proof. unfold wrap. apply Zplus_mod_idemp_l. Qed.

Lemma wrap_add_r w x y : wrap w (x + wrap w y) = wrap w (x + y).
Proof. unfold wrap. apply Zplus_mod_idemp_r. Qed.

Lemma wrap_mul_l w x y : wrap w (wrap w x * y) = wrap w (x * y).
Proof. unfold wrap. apply Zmult_mod_idemp_l. Qed.

Lemma wrap_mul_r w x y : wrap w (x * wrap w y) = wrap w (x * y).
Proof. unfold wrap. apply Zmult_mod_idemp_r. Qed.

Lemma wrap_land_ones w x : 0 <= w -> wrap w x = x .& Z.ones w.
Proof. intros. unfold wrap. by rewrite Z.land_ones. Qed.

Lemma wrap_testbit w x i :
  0 <= w -> Z.testbit (wrap w x) i = (i <? w) && Z.testbit x i.
Proof.
  intros Hw. unfold wrap. destruct (Z.ltb_spec i w).
  - destruct (Z.le_gt_cases 0 i).
    + by rewrite Z.mod_pow2_bits_low.
    + by rewrite !Z.testbit_neg_r by lia.
  - by rewrite Z.mod_pow2_bits_high by lia.
Qed.

Lemma fits_testbit w x i : 0 <= w -> fits w x -> w <= i -> Z.testbit x i = false.
Proof.
  intros Hw Hx Hi. rewrite <-(wrap_small w x Hx), wrap_testbit by done.
  destruct (Z.ltb_spec i w); [lia|done].
Qed.

Lemma testbit_fits w x :
  0 <= w -> 0 <= x -> (forall i, w <= i -> Z.testbit x i = false) -> fits w x.
Proof.
  intros Hw Hx Hb. assert (x = wrap w x) as ->; [|by apply wrap_fits].
  apply Z.bits_inj'. intros i Hi. rewrite wrap_testbit by done.
  destruct (Z.ltb_spec i w); [done|]. by rewrite Hb by lia.
Qed.

Lemma fits_lor w x y : 0 <= w -> fits w x -> fits w y -> fits w (x .| y).
Proof.
  intros Hw Hx Hy. apply testbit_fits; [done| |].
  - apply Z.lor_nonneg. unfold fits in *. lia.
  - intros i Hi. rewrite Z.lor_spec, (fits_testbit w x), (fits_testbit w y) by done. done.
Qed.

Lemma fits_lxor w x y : 0 <= w -> fits w x -> fits w y -> fits w (x .^ y).
Proof.
  intros Hw Hx Hy. apply testbit_fits; [done| |].
  - apply Z.lxor_nonneg. unfold fits in *. lia.
  - intros i Hi. rewrite Z.lxor_spec, (fits_testbit w x), (fits_testbit w y) by done. done.
Qed.

Lemma fits_shiftr w x n : 0 <= w -> 0 <= n -> fits w x -> fits w (x .>> n).
Proof.
  intros Hw Hn Hx. rewrite Z.shiftr_div_pow2 by done. unfold fits in *.
  assert (0 < 2 ^ n) by (apply Z.pow_pos_nonneg; lia).
  split; [apply Z.div_pos; lia|].
  apply Z.le_lt_trans with x; [|lia]. apply Z.div_le_upper_bound; nia.
Qed.

(** A product of two bounded factors stays in range. *)
Lemma fits_mul w a b A B : 0 <= a <= A -> 0 <= b <= B -> A * B < 2 ^ w -> fits w (a * b).
Proof.
  intros. unfold fits. split; [nia|]. apply Z.le_lt_trans with (A * B); [|done].
  apply Z.mul_le_mono_nonneg; lia.
Qed.

Lemma land_ones_mod x n : 0 <= n -> x .& Z.ones n = x mod 2 ^ n.
Proof. apply Z.land_ones. Qed.

(** Masking out the low [n] bits is rounding down to a multiple of [2^n]. *)
Lemma ldiff_ones x n : 0 <= n -> Z.land x (Z.lnot (Z.ones n)) = x - x mod 2 ^ n.
Proof.
  intros Hn. rewrite <-Z.ldiff_land, Z.ldiff_ones_r, Z.shiftl_mul_pow2, Z.shiftr_div_pow2 by done.
  pose proof (Z.div_mod x (2 ^ n)). assert (2 ^ n <> 0) by (apply Z.pow_nonzero; lia). lia.
Qed.

(** The same as C writes it, with a mask of 64 bits. *)
Lemma align_down x n : 0 <= n <= 64 -> fits 64 x -> x .& cnot 64 (Z.ones n) = x - x mod 2 ^ n.
Proof.
  intros Hn Hx. unfold cnot. rewrite wrap_land_ones by lia. rewrite Z.land_comm, <-Z.land_assoc.
  rewrite (Z.land_comm _ x), <-(wrap_land_ones 64 x), wrap_small by (done || lia). rewrite Z.land_comm. apply ldiff_ones. lia.
Qed.

(** Disjoint fields: [or] of a value below [2^n] with one shifted by [n] is a sum. *)
Lemma lor_shiftl_add a b n : 0 <= n -> fits n a -> a .| (b .<< n) = a + b * 2 ^ n.
Proof.
  intros Hn Ha. rewrite <-Z.shiftl_mul_pow2 by done. symmetry. apply Z.add_nocarry_lor.
  apply Z.bits_inj'. intros i Hi. rewrite Z.land_spec, Z.bits_0.
  destruct (Z.lt_ge_cases i n) as [Hin|Hin].
  - rewrite Z.shiftl_spec_low by done. apply andb_false_r.
  - by rewrite (fits_testbit n a i) by done.
Qed.

(** The same with the high part first. *)
Lemma lor_hi_lo x l n : 0 <= n -> x mod 2 ^ n = 0 -> fits n l -> x .| l = x + l.
Proof.
  intros Hn Hx Hl. rewrite Z.lor_comm. pose proof (Z.div_mod x (2 ^ n)) as E.
  assert (2 ^ n <> 0) by (apply Z.pow_nonzero; lia).
  replace x with ((x / 2 ^ n) .<< n) by (rewrite Z.shiftl_mul_pow2 by done; lia).
  rewrite lor_shiftl_add, Z.shiftl_mul_pow2 by done. lia.
Qed.

(** A sum of two in-range operands wraps at most once. *)
Lemma wrap_add_cases w x y :
  0 <= w -> 0 <= x < 2 ^ w -> 0 <= y < 2 ^ w ->
  (x + y < 2 ^ w /\ wrap w (x + y) = x + y) \/
  (2 ^ w <= x + y /\ wrap w (x + y) = x + y - 2 ^ w).
Proof.
  intros Hw Hx Hy. destruct (Z.lt_ge_cases (x + y) (2 ^ w)).
  - left. split; [done|]. apply wrap_small. unfold fits. lia.
  - right. split; [done|]. unfold wrap. symmetry. apply Z.mod_unique_pos with 1; lia.
Qed.

(** The length of a list as the C code counts it. *)
Definition zlen {A} (l : list A) : Z := Z.of_nat (length l).
Lemma zlen_app {A} (a b : list A) : zlen (a ++ b) = zlen a + zlen b.
Proof. unfold zlen. rewrite length_app. lia. Qed.
Lemma zlen_map {A B} (f : A -> B) l : zlen (map f l) = zlen l.
Proof. unfold zlen. by rewrite length_map. Qed.
Lemma zlen_rev {A} (l : list A) : zlen (rev l) = zlen l.
Proof. unfold zlen. by rewrite length_rev. Qed.
Lemma zlen_take {A} n (l : list A) : 0 <= n -> zlen (take (Z.to_nat n) l) = Z.min n (zlen l).
Proof. intros. unfold zlen. rewrite length_take. lia. Qed.
Lemma zlen1 {A} (x : A) : zlen [x] = 1.
Proof. done. Qed.
Lemma zlen_nonneg {A} (l : list A) : 0 <= zlen l.
Proof. unfold zlen. lia. Qed.

(** What holds before a loop over [a], ..., [a + n - 1] and is kept by every round holds after it. *)
Lemma foldl_seqZ_ind {S} (body : S -> Z -> S) (P : Z -> S -> Prop) s a n : 0 <= n ->
  P a s -> (forall k s', a <= k < a + n -> P k s' -> P (k + 1) (body s' k)) -> P (a + n) (foldl body s (seqZ a n)).
Proof.
  intros Hn H0 Hs. revert Hs. pattern n. apply natlike_ind; [by rewrite Z.add_0_r| |done].
  intros k Hk IH Hs. unfold Z.succ. rewrite seqZ_app, foldl_app, Z.add_assoc by lia. cbn. apply Hs; [lia|]. apply IH. intros j s' Hj. apply Hs. lia.
Qed.

(** ** Results *)

(** What a run of C code comes to. *)

Inductive res (A : Type) : Type :=
| Ret (a : A)
| Undef (** a load or store outside its object, or another operation C leaves undefined *)
| Fuel. (** the loop bound ran out *)
Arguments Ret {A} a.
Arguments Undef {A}.
Arguments Fuel {A}.

#[export] Instance res_ret : MRet res := fun A a => Ret a.
#[export] Instance res_bind : MBind res :=
  fun A B f m => match m with Ret a => f a | Undef => Undef | Fuel => Fuel end.
#[export] Instance res_fmap : FMap res :=
  fun A B f m => match m with Ret a => Ret (f a) | Undef => Undef | Fuel => Fuel end.

Lemma bind_ret_inv {A B} (m : res A) (f : A -> res B) b : (x ← m; f x) = Ret b -> exists a, m = Ret a /\ f a = Ret b.
Proof. destruct m; cbn; eauto; done. Qed.

Definition of_opt {A} (o : option A) : res A := match o with Some a => Ret a | None => Undef end.

(** Stateful code: a state transformer over [res]. *)
Definition prog (S A : Type) : Type := S -> res (A * S).

#[export] Instance prog_ret {S} : MRet (prog S) := fun A a s => Ret (a, s).
#[export] Instance prog_bind {S} : MBind (prog S) :=
  fun A B f m s => match m s with Ret (a, s) => f a s | Undef => Undef | Fuel => Fuel end.

Definition gets {S A} (f : S -> A) : prog S A := fun s => Ret (f s, s).
Definition modify {S} (f : S -> S) : prog S unit := fun s => Ret (tt, f s).
Definition lift {S A} (m : res A) : prog S A :=
  fun s => match m with Ret a => Ret (a, s) | Undef => Undef | Fuel => Fuel end.
Definition fuel_out {S A} : prog S A := fun _ => Fuel.
Definition undef {S A} : prog S A := fun _ => Undef.

Lemma prog_bind_inv {S A B} (m : prog S A) (f : A -> prog S B) s b s' :
  (x ← m; f x) s = Ret (b, s') -> exists a s1, m s = Ret (a, s1) /\ f a s1 = Ret (b, s').
Proof. unfold mbind, prog_bind. destruct (m s) as [[a s1]| |]; [eauto|done|done]. Qed.

(** Peel the first command off a run that returned. *)
Ltac prog_step H x s E :=
  apply prog_bind_inv in H as (x & s & E & H).

(** Total correctness of a run: it returns, and what it returns satisfies [Q]. *)
Definition wp {S A} (m : prog S A) (Q : A -> S -> Prop) (s : S) : Prop :=
  match m s with Ret (a, s') => Q a s' | _ => False end.

Lemma wp_ret {S A} (a : A) (Q : A -> S -> Prop) s : Q a s -> wp (mret a) Q s.
Proof. done. Qed.

Lemma wp_mono {S A} (m : prog S A) (Q Q' : A -> S -> Prop) s :
  wp m Q s -> (forall a s', Q a s' -> Q' a s') -> wp m Q' s.
Proof. unfold wp. destruct (m s) as [[a s']| |]; auto. Qed.

Lemma wp_bind {S A B} (m : prog S A) (f : A -> prog S B) (Q : B -> S -> Prop) s :
  wp m (fun a => wp (f a) Q) s -> wp (x ← m; f x) Q s.
Proof. unfold wp, mbind, prog_bind. by destruct (m s) as [[a s']| |]. Qed.

Lemma wp_run {S A} (m : prog S A) (Q : A -> S -> Prop) s : wp m Q s -> exists a s', m s = Ret (a, s') /\ Q a s'.
Proof. unfold wp. destruct (m s) as [[a s']| |]; [eauto|done|done]. Qed.

Lemma wp_lift {S A B} (m : res A) a (k : A -> prog S B) (Q : B -> S -> Prop) s :
  m = Ret a -> wp (k a) Q s -> wp (x ← lift m; k x) Q s.
Proof. intros -> H. by apply wp_bind. Qed.

(** A run that returns and leaves the observation [f] of the state as it was. *)
Definition still {S V A} (f : S -> V) (m : prog S A) : Prop := forall s, wp m (fun _ s' => f s' = f s) s.

Lemma still_ret {S V A} (f : S -> V) (a : A) : still f (mret a).
Proof. intros s. done. Qed.

Lemma still_bind {S V A B} (f : S -> V) (m : prog S A) (k : A -> prog S B) :
  still f m -> (forall a, still f (k a)) -> still f (x ← m; k x).
Proof.
  intros Hm Hk s. apply wp_bind. eapply wp_mono; [apply Hm|]. cbn. intros a s1 E.
  eapply wp_mono; [apply Hk|]. cbn. intros ? s2 ->. done.
Qed.

Lemma still_if {S V A} (f : S -> V) (b : bool) (m n : prog S A) : still f m -> still f n -> still f (if b then m else n).
Proof. by destruct b. Qed.

(** A step that leaves [f] alone, then the rest. *)
Lemma wp_still {S V A B} (f : S -> V) (m : prog S A) (k : A -> prog S B) (Q : B -> S -> Prop) s : still f m ->
  (forall a s1, f s1 = f s -> wp (k a) Q s1) -> wp (x ← m; k x) Q s.
Proof. intros Hm Hk. apply wp_bind. eapply wp_mono; [apply Hm|]. cbn. auto. Qed.

Create HintDb still.
#[export] Hint Resolve still_ret still_if : still.
Ltac still := repeat (lazymatch goal with
  | |- still _ (mbind _ _) => apply still_bind | |- still _ (if _ then _ else _) => apply still_if | |- forall _, _ => intro
  end); auto with still.

(** Run the next command by the specification [H]. *)
Ltac wp_next H := apply wp_bind; eapply wp_mono; [apply H|].

(** ** Automation *)

(** Case analysis on one comparison the goal branches on. *)
Ltac zcase :=
  match goal with
  | |- context [Z.ltb ?x ?y] => destruct (Z.ltb_spec x y)
  | |- context [Z.leb ?x ?y] => destruct (Z.leb_spec x y)
  | |- context [Z.gtb ?x ?y] => destruct (Z.gtb_spec x y)
  | |- context [Z.geb ?x ?y] => rewrite (Z.geb_leb x y)
  | |- context [Z.eqb ?x ?y] => destruct (Z.eqb_spec x y)
  end.

(** All of them, closing the branches that arithmetic refutes. *)
Ltac zcases := repeat (zcase; cbn [andb orb negb]; try lia).

(** The same for comparisons in a hypothesis. *)
Ltac zcase_in H :=
  match type of H with
  | context [Z.ltb ?x ?y] => destruct (Z.ltb_spec x y)
  | context [Z.leb ?x ?y] => destruct (Z.leb_spec x y)
  | context [Z.gtb ?x ?y] => destruct (Z.gtb_spec x y)
  | context [Z.geb ?x ?y] => rewrite (Z.geb_leb x y) in H
  | context [Z.eqb ?x ?y] => destruct (Z.eqb_spec x y)
  end.
Ltac zcases_in H := repeat (zcase_in H; cbn [andb orb negb] in H; try lia).

Create HintDb soct.
Create Rewrite HintDb soct.
#[export] Hint Resolve wrap_range wrap_fits wrap_small fits_lor fits_lxor fits_shiftr : soct.
#[export] Hint Rewrite wrap_wrap wrap_add_l wrap_add_r wrap_mul_l wrap_mul_r : soct.
#[export] Hint Extern 1 (Z.le _ _) => lia : soct.
#[export] Hint Extern 1 (Z.lt _ _) => lia : soct.

(** ** Loops as folds *)

Section loops.
Context {S X : Type}.
Implicit Types (f : S -> X -> S) (l : list X) (s : S).

Lemma foldl_inv f l (I : S -> Prop) : forall s,
  (forall s x, In x l -> I s -> I (f s x)) -> I s -> I (foldl f s l).
Proof. induction l as [|x l IH]; cbn; intros s Hf Hs; [done|]. apply IH; auto. Qed.

(** A measure that no iteration increases ... *)
Lemma foldl_mono f (m : S -> Z) l : forall s,
  (forall s x, m (f s x) <= m s) -> m (foldl f s l) <= m s.
Proof.
  induction l as [|x l IH]; cbn; intros s Hf; [lia|]. specialize (IH (f s x) Hf). specialize (Hf s x). lia.
Qed.

(** ... ends below whatever some iteration brings it below. *)
Lemma foldl_hit f (m : S -> Z) l x e : forall s,
  (forall s x, m (f s x) <= m s) -> In x l -> (forall s, m (f s x) <= e) -> m (foldl f s l) <= e.
Proof.
  induction l as [|y l IH]; cbn; intros s Hf Hin He; [done|]. destruct Hin as [->|Hin].
  - specialize (He s). pose proof (foldl_mono f m l (f s x) Hf). lia.
  - by apply IH.
Qed.
End loops.
