(* ===== verification/Memory.v ===== *)
(** * Byte-addressed memory

    Memory as a function of the 64-bit address, bytes as Z, with the stores and loads of a run
    of bytes that the boot loader and the console share. *)
From S2P Require Import Prelude.

Definition memory : Type := Z -> Z.

(** Storing [l] from [a] up; addresses wrap at 2^64. *)
Definition store (a : Z) (l : list Z) (m : memory) : memory :=
  fun x => let i := u64 (x - a) in if i <? zlen l then nth (Z.to_nat i) l 0 else m x.
Definition load (n : nat) (a : Z) (m : memory) : list Z := map (fun i => m (u64 (a + i))) (seqZ 0 (Z.of_nat n)).

Lemma store_in a l m x : 0 <= a -> a + zlen l < 2 ^ 64 -> fits 64 x ->
  store a l m x = if (a <=? x) && (x <? a + zlen l) then nth (Z.to_nat (x - a)) l 0 else m x.
Proof.
  intros Ha Hl Hx. unfold store. pose proof (zlen_nonneg l). unfold fits in Hx.
  destruct (Z.leb_spec a x).
  - rewrite wrap_small by (unfold fits; lia). cbn [andb]. zcases; done.
  - cbn [andb]. assert (u64 (x - a) = x - a + 2 ^ 64) as ->.
    { unfold wrap. symmetry. apply Z.mod_unique_pos with (-1); lia. }
    destruct (Z.ltb_spec (x - a + 2 ^ 64) (zlen l)); [lia|done].
Qed.

Lemma store_out a l m x : 0 <= a -> a + zlen l < 2 ^ 64 -> fits 64 x -> ~ a <= x < a + zlen l -> store a l m x = m x.
Proof. intros Ha Hl Hx H. rewrite store_in by done. zcases. Qed.

Lemma load_length n a m : length (load n a m) = n.
Proof. unfold load. rewrite length_map, length_seqZ. lia. Qed.

(** Loads see only the bytes they read. *)
Lemma load_ext n a m m' : (forall i, 0 <= i < Z.of_nat n -> m (u64 (a + i)) = m' (u64 (a + i))) -> load n a m = load n a m'.
Proof. intros H. unfold load. apply map_ext_in. intros i Hi. apply list_elem_of_In, elem_of_seqZ in Hi. apply H. lia. Qed.

Lemma load_snoc n a m : load (S n) a m = load n a m ++ [m (u64 (a + Z.of_nat n))].
Proof. unfold load. rewrite Nat2Z.inj_succ, <-Z.add_1_r, seqZ_app by lia. by rewrite map_app. Qed.
