(* ===== verification/Printf.v ===== *)
(** * Formatted output

    The runtime's [__vxprintf] (soctglue/src/stdio/vxprintf.c): [Vx] is the code, [Spec] the
    formats it is meant to take, as data, and what each of them prints.  A format is the list
    of its bytes before the terminator.  The callback is called once per character, in order,
    and is handed nothing but the character, so a run is the list of what it was handed;
    Stdio.v feeds it to the callers' buffers. *)
From Stdlib Require Import String Ascii SpecFloat.
From S2P Require Import Prelude.
#[local] Abbreviation length := List.length.

(** A character constant, and the bytes of a string literal. *)
Definition ch (a : ascii) : Z := Z.of_N (N_of_ascii a).
Definition bytes (s : string) : list Z := map ch (list_ascii_of_string s).

Definition INT_MAX : Z := 2 ^ 31 - 1.
Definition INT_MIN : Z := - 2 ^ 31.

(** What a caller passes: an int, a long or a pointer (the bit pattern), a string ([None] is
    NULL, otherwise the bytes before its terminator) or a double. *)
Inductive varg := AInt (v : Z) | ALong (v : Z) | AStr (s : option (list Z)) | ADouble (d : spec_float).

Module Vx.
(** The arguments not yet fetched, and the characters handed to the callback. *)
Record st := St { ap : list varg; sent : list Z }.
Abbreviation vx := (prog st).

Definition emit (c : Z) : vx unit := fun s => Ret (tt, St (ap s) (sent s ++ [c])).
Definition emits (l : list Z) : vx unit := fun s => Ret (tt, St (ap s) (sent s ++ l)).
(** [n] times the same character; nothing for a negative [n]. *)
Definition pad (n c : Z) : vx unit := emits (replicate (Z.to_nat n) c).

(** [va_arg]: an argument of another type is undefined. *)
Definition va_next {A} (f : varg -> option A) : vx A := fun s =>
  match ap s with
  | a :: r => match f a with Some v => Ret (v, St r (sent s)) | None => Undef end
  | [] => Undef
  end.
Definition va_int : vx Z := va_next (fun a => match a with AInt v => Some (u32 v) | _ => None end).
Definition va_long : vx Z := va_next (fun a => match a with ALong v => Some (u64 v) | _ => None end).
Definition va_str : vx (option (list Z)) := va_next (fun a => match a with AStr s => Some s | _ => None end).
Definition va_double : vx spec_float := va_next (fun a => match a with ADouble d => Some d | _ => None end).

(** long and long long are both 64 bits wide. *)
Definition getuint (lflag : Z) : vx Z := if lflag >=? 1 then va_long else va_int.
Definition getint (lflag : Z) : vx Z :=
  if lflag >=? 1 then v ← va_long; mret (s64 v) else v ← va_int; mret (s32 v).

(** The digits, least significant first; the array has 64 places. *)
Fixpoint collect (room : nat) (num base : Z) : res (list Z) :=
  match room with
  | O => Undef
  | S room => if num <? base then Ret [num mod base] else ds ← collect room (num / base) base; Ret (num mod base :: ds)
  end.
Definition digit (d : Z) : Z := d + (if d >=? 10 then ch "a" - 10 else ch "0").

Definition printnum (num base width padc : Z) : vx unit :=
  ds ← lift (collect 64 num base);
  if width =? INT_MIN then undef (* [width--] *) else
  pad (width - zlen ds) padc;;
  emits (map digit (rev ds)).

(** The variables a directive sets. *)
Record spec := Spec_ { padc : Z; width : Z; prec : Z; lflag : Z }.
Definition spec0 : spec := Spec_ (ch " ") (-1) (-1) 0.
Definition set_padc c f := Spec_ c (width f) (prec f) (lflag f).
Definition set_width w f := Spec_ (padc f) w (prec f) (lflag f).
Definition set_lflag l f := Spec_ (padc f) (width f) (prec f) l.

Definition process_precision (p : Z) (f : spec) : spec :=
  if width f <? 0 then Spec_ (padc f) p (-1) (lflag f) else Spec_ (padc f) (width f) p (lflag f).

Definition is_digit (c : Z) : bool := negb ((c <? ch "0") || (c >? ch "9")).

(** The width loop, [c] the digit just read: the number and the rest of the format. *)
Fixpoint scan (prec c : Z) (fmt : list Z) : res (Z * list Z) :=
  if prec * 10 + c >? INT_MAX then Undef else
  let prec := prec * 10 + c - ch "0" in
  match fmt with
  | d :: fmt' => if is_digit d then scan prec d fmt' else Ret (prec, fmt)
  | [] => Ret (prec, [])
  end.

Definition strnlen (p : list Z) (maxlen : Z) : Z := Z.min (zlen p) (u64 maxlen).

(** The character loop of [%s]; what is left of the width. *)
Fixpoint str_loop (p : list Z) (prec width : Z) : vx Z :=
  match p with
  | [] => mret width
  | c :: p =>
      if (prec <? 0) || (prec - 1 >=? 0) then
        emit c;;
        if width =? INT_MIN then undef else
        str_loop p (if prec <? 0 then prec else prec - 1) (width - 1)
      else mret width
  end.

Definition print_str (f : spec) : vx unit :=
  p ← va_str;
  let p := default (bytes "(null)") p in
  let lead := (width f >? 0) && negb (padc f =? ch "-") in
  let w := if lead then s32 (width f - strnlen p (prec f)) else width f in
  (if lead then pad w (padc f) else mret tt);;
  w ← str_loop p (prec f) (if lead then Z.min w 0 else w);
  pad w (ch " ").

Definition print_signed (f : spec) : vx unit :=
  num ← getint (lflag f);
  if num <? 0 then
    emit (ch "-");;
    if num =? - 2 ^ 63 then undef else printnum (- num) 10 (width f) (padc f)
  else printnum num 10 (width f) (padc f).

Definition print_unsigned (base : Z) (f : spec) : vx unit :=
  num ← getuint (lflag f); printnum num base (width f) (padc f).

(** IEEE double arithmetic, rounding to nearest; the value truncated to an integer. *)
Definition of_int (z : Z) : spec_float := binary_normalize 53 1024 z 0 false.
Definition trunc (d : spec_float) : option Z :=
  match d with
  | S754_zero _ => Some 0
  | S754_finite s m e => let z := Z.pos m .<< e in Some (if s then - z else z)
  | _ => None
  end.
(** A conversion to an integer type from [lo] to [hi]; undefined out of range. *)
Definition convert_to (lo hi : Z) (d : spec_float) : res Z :=
  match trunc d with Some z => if (lo <=? z) && (z <=? hi) then Ret z else Undef | None => Undef end.

Definition print_double (f : spec) : vx unit :=
  fval ← va_double;
  let frac_width := if prec f <? 0 then 6 else prec f in
  int_part ← lift (convert_to (- 2 ^ 63) (2 ^ 63 - 1) fval);
  let frac_part := SFsub 53 1024 fval (of_int int_part) in
  let neg := SFltb fval (S754_zero false) in
  (if neg then emit (ch "-") else mret tt);;
  if neg && (int_part =? - 2 ^ 63) then undef else
  let int_part := if neg then - int_part else int_part in
  let frac_part := if neg then SFopp frac_part else frac_part in
  printnum int_part 10 (width f) (padc f);;
  if frac_width >? 0 then
    emit (ch ".");;
    let scale := u64 (10 ^ frac_width) in
    frac_int ← lift (convert_to 0 (2 ^ 64 - 1)
      (SFadd 53 1024 (SFmul 53 1024 frac_part (of_int scale)) (S754_finite false (2 ^ 52) (-53))));
    printnum frac_int 10 frac_width (ch "0")
  else mret tt.

(** The conversion characters; [None] is the switch's default. *)
Definition convert (c : Z) (f : spec) : option (vx unit) :=
  if c =? ch "c" then Some (v ← va_int; emit (s32 v))
  else if c =? ch "s" then Some (print_str f)
  else if c =? ch "d" then Some (print_signed f)
  else if c =? ch "f" then Some (print_double f)
  else if c =? ch "u" then Some (print_unsigned 10 f)
  else if c =? ch "o" then Some (print_unsigned 8 f)
  else if c =? ch "p" then Some (emits (bytes "0x");; print_unsigned 16 (set_lflag 1 f))
  else if c =? ch "x" then Some (print_unsigned 16 f)
  else if c =? ch "%" then Some (emit c)
  else None.

(** From [reswitch] to the end of the switch: the format to go on with.  Reading the
    terminator takes the default case, which does not go past it. *)
Fixpoint directive (fuel : nat) (fmt last_fmt : list Z) (f : spec) : vx (list Z) :=
  match fuel with
  | O => fuel_out
  | S fuel =>
      let c := hd 0 fmt in
      let fmt := tl fmt in
      if (c =? ch "-") || (c =? ch "0") then directive fuel fmt last_fmt (set_padc c f)
      else if is_digit c then
        '(p, fmt) ← lift (scan 0 c fmt);
        directive fuel fmt last_fmt (process_precision p f)
      else if c =? ch "*" then
        p ← va_int;
        directive fuel fmt last_fmt (process_precision (s32 p) f)
      else if c =? ch "." then directive fuel fmt last_fmt (if width f <? 0 then set_width 0 f else f)
      else if c =? ch "#" then directive fuel fmt last_fmt f
      else if c =? ch "z" then directive fuel fmt last_fmt (set_lflag 2 f)
      else if c =? ch "l" then directive fuel fmt last_fmt (set_lflag (lflag f + 1) f)
      else match convert c f with
      | Some m => m;; mret fmt
      | None => emit (ch "%");; mret last_fmt
      end
  end.

Fixpoint vxprintf (fuel : nat) (fmt : list Z) : vx unit :=
  match fuel with
  | O => fuel_out
  | S fuel =>
      match fmt with
      | [] => mret tt
      | c :: fmt =>
          if c =? ch "%" then fmt ← directive fuel fmt fmt spec0; vxprintf fuel fmt
          else emit c;; vxprintf fuel fmt
      end
  end.
End Vx.

(** ** What a format says *)
Module Spec.
Import Vx.

Inductive flag := FMinus | FZero | FSharp.
(** A number in a directive: absent, written out (its digits) or taken from the arguments. *)
Inductive num := NNone | NLit (ds : list Z) | NStar (v : Z).
Inductive lmod := ML | MZ.
Inductive radix := Decimal | Octal | Hexadecimal.
(** A conversion with its argument; [CBad] is a character the switch does not know. *)
Inductive conv :=
| CInt (n : Z) | CUint (b : radix) (n : Z) | CPtr (p : Z) | CStr (s : option (list Z)) | CChr (v : Z)
| CPercent | CBad (c : Z).
(** [dprec] is [Some] when there is a dot. *)
Record dir := Dir { flags : list flag; dwidth : num; dprec : option num; lmods : list lmod; dconv : conv }.
Inductive piece := Lit (c : Z) | Fmt (d : dir).

Definition base (b : radix) : Z := match b with Decimal => 10 | Octal => 8 | Hexadecimal => 16 end.

(** ** Its text *)

Definition flag_char f := match f with FMinus => ch "-" | FZero => ch "0" | FSharp => ch "#" end.
Definition num_text n := match n with NNone => [] | NLit ds => map digit ds | NStar _ => [ch "*"] end.
Definition prec_text p := match p with None => [] | Some n => ch "." :: num_text n end.
Definition lmod_char m := match m with ML => ch "l" | MZ => ch "z" end.
Definition conv_char c :=
  match c with
  | CInt _ => ch "d" | CUint Decimal _ => ch "u" | CUint Octal _ => ch "o" | CUint Hexadecimal _ => ch "x"
  | CPtr _ => ch "p" | CStr _ => ch "s" | CChr _ => ch "c" | CPercent => ch "%" | CBad c => c
  end.
(** The text between the percent sign and the conversion character. *)
Definition options d := map flag_char (flags d) ++ num_text (dwidth d) ++ prec_text (dprec d) ++ map lmod_char (lmods d).
Definition body d := options d ++ [conv_char (dconv d)].
Definition text p := match p with Lit c => [c] | Fmt d => ch "%" :: body d end.
Definition fmt_of (ps : list piece) : list Z := flat_map text ps.

(** ** Its arguments *)

Definition wide d : bool := match lmods d with [] => false | _ => true end.
Definition num_args n := match n with NStar v => [AInt v] | _ => [] end.
Definition conv_args d :=
  match dconv d with
  | CInt n | CUint _ n => [if wide d then ALong n else AInt n]
  | CPtr p => [ALong p] | CStr s => [AStr s] | CChr v => [AInt v] | _ => []
  end.
Definition args d := num_args (dwidth d) ++ (match dprec d with Some n => num_args n | None => [] end) ++ conv_args d.
Definition args_of (ps : list piece) : list varg := flat_map (fun p => match p with Lit _ => [] | Fmt d => args d end) ps.

(** ** Its meaning *)

(** The number a digit list denotes, most significant digit first. *)
Definition value (b : Z) (ds : list Z) : Z := foldl (fun n d => n * b + d) 0 ds.
(** [ds] is the numeral of [n]: digits of the base, no superfluous leading zero. *)
Definition numeral (b n : Z) (ds : list Z) : Prop :=
  ds <> [] /\ Forall (fun d => 0 <= d < b) ds /\ value b ds = n /\ (hd 0 ds = 0 -> ds = [0]).

Definition pad_char d : Z :=
  foldl (fun c f => match f with FMinus => ch "-" | FZero => ch "0" | FSharp => c end) (ch " ") (flags d).
Definition num_val n := match n with NLit ds => value 10 ds | NStar v => v | NNone => -1 end.
Definition eff_width d := match dprec d with Some _ => Z.max 0 (num_val (dwidth d)) | None => num_val (dwidth d) end.
Definition eff_prec d := match dprec d with Some n => num_val n | None => -1 end.

Definition padded (w c : Z) (l : list Z) : list Z := replicate (Z.to_nat (w - zlen l)) c ++ l.
(** The digits of [n], padded; a sign or prefix before them is not part of the width. *)
Definition shows d (b n : Z) (pre out : list Z) : Prop :=
  exists ds, numeral b n ds /\ out = pre ++ padded (eff_width d) (pad_char d) (map digit ds).
Definition str_body d s : list Z :=
  let p := default (bytes "(null)") s in if eff_prec d <? 0 then p else take (Z.to_nat (eff_prec d)) p.
Definition justified (w c : Z) (l : list Z) : list Z :=
  if c =? ch "-" then l ++ replicate (Z.to_nat (w - zlen l)) (ch " ") else padded w c l.

Definition renders d (out : list Z) : Prop :=
  match dconv d with
  | CInt n => shows d 10 (Z.abs n) (if n <? 0 then [ch "-"] else []) out
  | CUint r n => shows d (base r) n [] out
  | CPtr p => shows d 16 p (bytes "0x") out
  | CStr s => out = justified (eff_width d) (pad_char d) (str_body d s)
  | CChr v => out = [v]
  | CPercent => out = [ch "%"]
  | CBad _ => out = ch "%" :: body d
  end.

Inductive prints : list piece -> list Z -> Prop :=
| prints_nil : prints [] []
| prints_lit c ps out : prints ps out -> prints (Lit c :: ps) (c :: out)
| prints_fmt d ps o out : renders d o -> prints ps out -> prints (Fmt d :: ps) (o ++ out).

(** ** Formats in the grammar *)

(** A written number has no leading zero (a zero is a flag, also after a dot) and fits an
    int with the slack the loop needs; a given one is above the least int.  The width of [%s] is
    counted down twice by the length. *)
Definition num_ok n : Prop :=
  match n with
  | NNone => True
  | NLit ds => Forall (fun d => 0 <= d < 10) ds /\ 0 < hd 0 ds /\ value 10 ds <= INT_MAX - ch "0"
  | NStar v => INT_MIN < v <= INT_MAX
  end.
Definition known (c : Z) : bool :=
  (c =? 0) || (c =? ch "-") || is_digit c || (c =? ch "*") || (c =? ch ".") || (c =? ch "#") || (c =? ch "z")
  || (c =? ch "l") || match convert c spec0 with Some _ => true | None => false end.
Definition conv_ok d : Prop :=
  match dconv d with
  | CInt n => if wide d then - 2 ^ 63 < n < 2 ^ 63 else INT_MIN <= n <= INT_MAX
  | CUint _ n => fits (if wide d then 64 else 32) n
  | CPtr p => fits 64 p
  | CStr s => 2 * zlen (default (bytes "(null)") s) + Z.abs (eff_width d) <= INT_MAX
  | CChr v => INT_MIN <= v <= INT_MAX
  | CPercent => True
  | CBad c => known c = false
  end.
Definition dir_ok d : Prop :=
  num_ok (dwidth d) /\ match dprec d with Some n => num_ok n | None => True end /\ conv_ok d.
Definition piece_ok p : Prop := match p with Lit c => c <> ch "%" | Fmt d => dir_ok d end.
End Spec.
