(* ===== verification/PrintfProofs.v ===== *)
(** * The formatter prints what the format says

    Every well-formed format is rendered as [Printf.Spec] states ([vxprintf_renders]), and a
    run on any format ends ([vxprintf_ends]). *)
From Stdlib Require Import String Ascii SpecFloat.
From S2P Require Import Prelude Printf.
Import Vx Spec.
#[local] Abbreviation length := List.length.

#[local] Arguments INT_MAX : simpl never.
#[local] Arguments INT_MIN : simpl never.

(** ** Numerals *)

Lemma value_app b l d : value b (l ++ [d]) = value b l * b + d.
Proof. unfold value. by rewrite foldl_app. Qed.

Lemma hd_app {A} (x : A) l r : l <> [] -> hd x (l ++ r) = hd x l.
Proof. by destruct l. Qed.

Lemma numeral_single b n : 0 <= n < b -> numeral b n [n].
Proof. intros. split; [done|]. split; [by constructor|]. split; [done|]. cbn. congruence. Qed.

Lemma numeral_snoc b n ds : 2 <= b -> b <= n -> numeral b (n / b) ds -> numeral b n (ds ++ [n mod b]).
Proof.
  intros Hb Hn (H1 & H2 & H3 & H4). pose proof (Z.mod_pos_bound n b). unfold numeral. split_and!.
  - by destruct ds.
  - apply Forall_app. split; [done|]. constructor; [lia|done].
  - rewrite value_app, H3. pose proof (Z.div_mod n b). lia.
  - rewrite hd_app by done. intros E. rewrite (H4 E) in H3. cbn in H3.
    assert (1 <= n / b) by (apply Z.div_le_lower_bound; lia). lia.
Qed.

Lemma collect_spec b : 2 <= b -> forall room n, 0 <= n < b ^ (1 + Z.of_nat room) ->
  exists ds, collect (S room) n b = Ret ds /\ numeral b n (rev ds).
Proof.
  intros Hb. induction room as [|room IH]; intros n Hn; cbn [collect]; destruct (Z.ltb_spec n b) as [|Hge].
  1,3: by exists [n mod b]; rewrite Z.mod_small by lia; split; [|apply numeral_single; lia].
  - rewrite Z.pow_1_r in Hn. lia.
  - replace (1 + Z.of_nat (S room)) with (Z.succ (1 + Z.of_nat room)) in Hn by lia. rewrite Z.pow_succ_r in Hn by lia.
    destruct (IH (n / b)) as (ds & E & Hds).
    { split; [apply Z.div_pos|apply Z.div_lt_upper_bound]; lia. }
    exists (n mod b :: ds). cbn [collect] in E. rewrite E. split; [done|]. cbn. by apply numeral_snoc.
Qed.

Lemma printnum_spec n b w c s : 2 <= b -> fits 64 n -> INT_MIN < w -> exists ds, numeral b n ds /\
  printnum n b w c s = Ret (tt, St (ap s) (sent s ++ padded w c (map digit ds))).
Proof.
  intros Hb Hn Hw. destruct (collect_spec b Hb 63 n) as (ds & E & Hds).
  { change (1 + Z.of_nat 63) with 64. unfold fits in Hn. pose proof (Z.pow_le_mono_l 2 b 64). lia. }
  exists (rev ds). split; [done|]. unfold printnum, mbind, prog_bind, lift. rewrite E.
  destruct (Z.eqb_spec w INT_MIN); [lia|]. unfold pad, emits, padded. cbn.
  by rewrite <-app_assoc, zlen_map, zlen_rev.
Qed.

(** ** Strings *)

Definition cut (prec : Z) (p : list Z) : list Z := if prec <? 0 then p else take (Z.to_nat prec) p.

Lemma str_loop_spec p : forall prec w s, INT_MIN + zlen p < w ->
  str_loop p prec w s = Ret (w - zlen (cut prec p), St (ap s) (sent s ++ cut prec p)).
Proof.
  unfold cut. induction p as [|c p IH]; intros prec w [a se] Hw; cbn [str_loop].
  - rewrite take_nil. destruct (prec <? 0); cbn; by rewrite app_nil_r, Z.sub_0_r.
  - change (c :: p) with ([c] ++ p) in *. rewrite zlen_app in Hw. change (zlen [c]) with 1 in Hw.
    pose proof (zlen_nonneg p). unfold mbind, prog_bind, emit. cbn [ap sent].
    assert ((w =? INT_MIN) = false) as -> by lia.
    destruct (Z.ltb_spec prec 0) as [Hp|Hp]; cbn [orb].
    + rewrite IH by lia. cbn [ap sent]. destruct (Z.ltb_spec prec 0); [|lia].
      rewrite zlen_app, <-app_assoc. do 2 f_equal. change (zlen [c]) with 1. lia.
    + rewrite Z.geb_leb. destruct (Z.leb_spec 0 (prec - 1)) as [Hp1|Hp1].
      * rewrite IH by lia. cbn [ap sent]. destruct (Z.ltb_spec (prec - 1) 0); [lia|].
        replace (Z.to_nat prec) with (S (Z.to_nat (prec - 1))) by lia. cbn [app firstn take].
        change (c :: take (Z.to_nat (prec - 1)) p) with ([c] ++ take (Z.to_nat (prec - 1)) p).
        rewrite zlen_app, <-app_assoc. do 2 f_equal. change (zlen [c]) with 1. lia.
      * replace prec with 0 by lia. cbn. by rewrite app_nil_r, Z.sub_0_r.
Qed.

Lemma strnlen_cut p prec : INT_MIN <= prec <= INT_MAX -> zlen p < 2 ^ 32 -> strnlen p prec = zlen (cut prec p).
Proof.
  unfold INT_MIN, INT_MAX. intros H Hp. unfold strnlen, cut. destruct (Z.ltb_spec prec 0).
  - unfold wrap. rewrite <-(Z.mod_add prec 1), Z.mod_small by lia. lia.
  - rewrite wrap_small, zlen_take by (unfold fits; lia). lia.
Qed.

Lemma s32_small x : INT_MIN <= x <= INT_MAX -> s32 x = x.
Proof.
  unfold INT_MIN, INT_MAX, sgn. intros H. destruct (Z.le_gt_cases 0 x).
  - rewrite wrap_small by (unfold fits; lia). zcases.
  - assert (u32 x = x + 2 ^ 32) as ->; [|zcases].
    unfold wrap. symmetry. apply Z.mod_unique_pos with (-1); lia.
Qed.

Lemma replicate_neg {A} n (x : A) : n <= 0 -> replicate (Z.to_nat n) x = [].
Proof. intros. by replace (Z.to_nat n) with O by lia. Qed.

Lemma print_str_spec f p0 r se : let p := default (bytes "(null)") p0 in
  INT_MIN < prec f <= INT_MAX -> 2 * zlen p + Z.abs (width f) <= INT_MAX ->
  print_str f (St (AStr p0 :: r) se) = Ret (tt, St r (se ++ justified (width f) (padc f) (cut (prec f) p))).
Proof.
  intros p Hprec Hw. pose proof (zlen_nonneg p). assert (INT_MAX < 2 ^ 32) by done. assert (INT_MIN = - INT_MAX - 1) by done.
  assert (0 <= zlen (cut (prec f) p) <= zlen p) as Hc.
  { unfold cut. destruct (Z.ltb_spec (prec f) 0); [lia|]. rewrite zlen_take by lia. lia. }
  unfold print_str, mbind, prog_bind, va_str, va_next. cbn [ap sent]. fold p.
  unfold justified, padded. destruct (Z.gtb_spec (width f) 0); cbn [andb].
  - destruct (padc f =? ch "-"); cbn [negb].
    + cbn [mret prog_ret]. rewrite str_loop_spec by lia. cbn [ap sent]. unfold pad, emits. cbn [ap sent]. by rewrite app_assoc.
    + rewrite strnlen_cut, s32_small by lia. unfold pad, emits. cbn [ap sent]. rewrite str_loop_spec by lia. cbn [ap sent].
      rewrite (replicate_neg (Z.min _ _ - _)) by lia. by rewrite app_nil_r, app_assoc.
  - cbn [mret prog_ret]. rewrite str_loop_spec by lia. cbn [ap sent]. unfold pad, emits. cbn [ap sent].
    rewrite !replicate_neg by lia. rewrite !app_nil_r. by destruct (padc f =? ch "-").
Qed.

(** ** Scanning a directive *)

Lemma digit_dec d : 0 <= d < 10 -> digit d = d + ch "0".
Proof. intros. unfold digit. destruct (Z.geb_spec d 10); [lia|done]. Qed.

Lemma is_digit_digit d : 0 <= d < 10 -> is_digit (digit d) = true.
Proof. intros. rewrite digit_dec by done. unfold is_digit. change (ch "0") with 48. change (ch "9") with 57. zcases. Qed.

Lemma value_mono ds : forall n, 0 <= n -> Forall (fun d => 0 <= d < 10) ds -> n <= foldl (fun n d => n * 10 + d) n ds.
Proof.
  induction ds as [|d ds IH]; intros n Hn H; cbn; [lia|]. apply Forall_cons_1 in H as [Hd H].
  specialize (IH (n * 10 + d) ltac:(lia) H). lia.
Qed.

(** The width loop reads the whole number and stops where it ends. *)
Lemma scan_spec r ds : is_digit (hd 0 r) = false -> forall p d, 0 <= p -> 0 <= d < 10 -> Forall (fun d => 0 <= d < 10) ds ->
  foldl (fun n d => n * 10 + d) (p * 10 + d) ds <= INT_MAX - ch "0" ->
  scan p (digit d) (map digit ds ++ r) = Ret (foldl (fun n d => n * 10 + d) (p * 10 + d) ds, r).
Proof.
  intros Hr. induction ds as [|e ds IH]; intros p d Hp Hd H Hm; cbn [map app foldl].
  - cbn [foldl] in Hm. destruct r as [|c r]; cbn [scan hd] in *; rewrite digit_dec by done;
      (destruct (Z.gtb_spec (p * 10 + (d + ch "0")) INT_MAX); [lia|]); [|rewrite Hr]; do 2 f_equal; lia.
  - apply Forall_cons_1 in H as [He H]. cbn [foldl] in Hm. cbn [scan]. rewrite (is_digit_digit e), (digit_dec d) by done.
    pose proof (value_mono ds ((p * 10 + d) * 10 + e) ltac:(lia) H).
    destruct (Z.gtb_spec (p * 10 + (d + ch "0")) INT_MAX); [lia|].
    replace (p * 10 + (d + ch "0") - ch "0") with (p * 10 + d) by lia. apply IH; [lia|done..].
Qed.

(** What the options of a directive leave in its variables, part by part: each takes at most
    one round of the switch per character. *)
Definition with_flag (f : spec) (x : flag) : spec :=
  match x with FMinus => set_padc (ch "-") f | FZero => set_padc (ch "0") f | FSharp => f end.
Definition with_num (n : num) (f : spec) : spec :=
  match n with NNone => f | _ => process_precision (num_val n) f end.
Definition with_prec (p : option num) (f : spec) : spec :=
  match p with Some n => with_num n (if width f <? 0 then set_width 0 f else f) | None => f end.
Definition with_lmod (f : spec) (m : lmod) : spec :=
  match m with ML => set_lflag (lflag f + 1) f | MZ => set_lflag 2 f end.

Lemma scan_flags last n r fl : forall f s,
  directive (length fl + n) (map flag_char fl ++ r) last f s = directive n r last (foldl with_flag f fl) s.
Proof. induction fl as [|x fl IH]; intros f s; [done|]. destruct x; cbn; apply IH. Qed.

Lemma scan_lmods last n r ms : forall f s,
  directive (length ms + n) (map lmod_char ms ++ r) last f s = directive n r last (foldl with_lmod f ms) s.
Proof. induction ms as [|x ms IH]; intros f s; [done|]. destruct x; cbn; apply IH. Qed.

(** Decide the comparisons of character constants. *)
Ltac chars := repeat (match goal with
  | |- context [ch ?a =? ch ?b] => let v := eval vm_compute in (ch a =? ch b) in change (ch a =? ch b) with v
  | |- context [is_digit (ch ?a)] => let v := eval vm_compute in (is_digit (ch a)) in change (is_digit (ch a)) with v
  end; cbn [andb orb negb]).

Lemma s32_u32 x : INT_MIN <= x <= INT_MAX -> s32 (u32 x) = x.
Proof. intros. unfold sgn. rewrite wrap_wrap. by apply s32_small. Qed.

(** Rounds a number takes: one, unless it is absent. *)
Definition rounds (n : num) : nat := match n with NNone => 0 | _ => 1 end.

Lemma scan_num last n r nm f a se : num_ok nm -> is_digit (hd 0 r) = false ->
  directive (rounds nm + n) (num_text nm ++ r) last f (St (num_args nm ++ a) se) =
  directive n r last (with_num nm f) (St a se).
Proof.
  intros Hok Hr. destruct nm as [|ds|v]; [done| |].
  - destruct Hok as (Hd & Hh & Hv). destruct ds as [|d ds]; [done|]. apply Forall_cons_1 in Hd as [Hd0 Hd].
    cbn [hd] in Hh. cbn [rounds Nat.add num_text map app directive hd tl num_args].
    rewrite is_digit_digit by done.
    assert ((digit d =? ch "-") || (digit d =? ch "0") = false) as ->.
    { rewrite digit_dec by done. change (ch "0") with 48. change (ch "-") with 45. zcases. }
    unfold mbind, prog_bind, lift. rewrite (scan_spec r ds Hr 0 d) by (done || lia). done.
  - cbn [rounds Nat.add num_text app directive hd tl num_args with_num num_val]. chars.
    unfold mbind, prog_bind, va_int, va_next. cbn [ap]. cbn [num_ok] in Hok. rewrite s32_u32 by lia. done.
Qed.

Definition spec_of (d : dir) : spec :=
  foldl with_lmod (with_prec (dprec d) (with_num (dwidth d) (foldl with_flag spec0 (flags d)))) (lmods d).
Definition prec_rounds (p : option num) : nat := match p with Some n => S (rounds n) | None => 0 end.
Definition rounds_of (d : dir) : nat := length (flags d) + (rounds (dwidth d) + (prec_rounds (dprec d) + length (lmods d))).
Definition opt_args (d : dir) : list varg :=
  num_args (dwidth d) ++ match dprec d with Some n => num_args n | None => [] end.

Lemma scan_prec last n r p f a se : match p with Some m => num_ok m | None => True end -> is_digit (hd 0 r) = false ->
  directive (prec_rounds p + n) (prec_text p ++ r) last f (St (match p with Some m => num_args m | None => [] end ++ a) se) =
  directive n r last (with_prec p f) (St a se).
Proof.
  intros Hp Hr. destruct p as [m|]; [|done].
  cbn [prec_rounds Nat.add prec_text app directive hd tl with_prec]. chars. by apply scan_num.
Qed.

Lemma scan_options d last n r a se : dir_ok d -> is_digit (hd 0 r) = false ->
  directive (rounds_of d + n) (options d ++ r) last spec0 (St (opt_args d ++ a) se) =
  directive n r last (spec_of d) (St a se).
Proof.
  intros (Hw & Hp & _) Hr. unfold rounds_of, options, opt_args, spec_of. rewrite <-!Nat.add_assoc, <-!app_assoc, scan_flags.
  assert (is_digit (hd 0 (map lmod_char (lmods d) ++ r)) = false) as Hm by (by destruct (lmods d) as [|[] ?]).
  rewrite scan_num by (done || by destruct (dprec d)). by rewrite scan_prec, scan_lmods by done.
Qed.

Lemma rounds_le d : num_ok (dwidth d) -> match dprec d with Some n => num_ok n | None => True end ->
  (rounds_of d <= length (options d))%nat.
Proof.
  intros Hw Hp. assert (forall n, num_ok n -> (rounds n <= length (num_text n))%nat) as Hn.
  { intros [|ds|v] H; cbn [rounds num_text List.length]; [lia| |lia]. destruct ds; [|cbn; lia]. destruct H as (_ & H & _). cbn in H. lia. }
  unfold rounds_of, options. rewrite !length_app, !length_map. pose proof (Hn _ Hw).
  destruct (dprec d) as [m|]; cbn [prec_rounds prec_text List.length]; [pose proof (Hn _ Hp)|]; lia.
Qed.

(** The variables are what the format says. *)
Lemma flags_padc fl : forall f, width (foldl with_flag f fl) = width f /\ prec (foldl with_flag f fl) = prec f /\
  lflag (foldl with_flag f fl) = lflag f /\ padc (foldl with_flag f fl) =
  foldl (fun c x => match x with FMinus => ch "-" | FZero => ch "0" | FSharp => c end) (padc f) fl.
Proof.
  induction fl as [|x fl IH]; intros f; cbn [foldl]; [done|]. destruct (IH (with_flag f x)) as (-> & -> & -> & ->). by destruct x.
Qed.

Lemma lmods_lflag ms : forall f, 0 <= lflag f -> let g := foldl with_lmod f ms in
  padc g = padc f /\ width g = width f /\ prec g = prec f /\
  (lflag g >=? 1) = match ms with [] => lflag f >=? 1 | _ => true end /\ 0 <= lflag g.
Proof.
  induction ms as [|m ms IH]; intros f Hf; cbn [foldl]; [done|]. destruct (IH (with_lmod f m)) as (E1 & E2 & E3 & E4 & E5).
  { destruct m; cbn; lia. }
  rewrite E1, E2, E3, E4. destruct m; cbn [with_lmod set_lflag padc width prec]; (split_and!; [done..| |done]);
    destruct ms; try done; cbn [with_lmod set_lflag lflag]; rewrite Z.geb_leb; destruct (Z.leb_spec 1 (lflag f + 1)); done || lia.
Qed.

Lemma spec_of_eq d : dir_ok d -> padc (spec_of d) = pad_char d /\ width (spec_of d) = eff_width d /\
  prec (spec_of d) = eff_prec d /\ (lflag (spec_of d) >=? 1) = wide d.
Proof.
  intros (Hw & Hp & _). unfold spec_of, eff_width, eff_prec, wide, pad_char.
  destruct (flags_padc (flags d) spec0) as (W & P & L & C). set (f := foldl with_flag spec0 (flags d)) in *.
  set (g := with_prec (dprec d) (with_num (dwidth d) f)).
  assert (padc g = padc f /\ lflag g = 0 /\ width g = match dprec d with Some _ => Z.max 0 (num_val (dwidth d)) | None => num_val (dwidth d) end
          /\ prec g = match dprec d with Some n => num_val n | None => -1 end) as (G1 & G2 & G3 & G4).
  { unfold g. destruct f as [c w p l]. cbn in W, P, L. subst w p l. destruct (dprec d) as [m|]; cbn [with_prec].
    - destruct (dwidth d); cbn; zcases; destruct m; cbn [with_num]; unfold process_precision; cbn; zcases; split_and!; cbn [width]; done || lia.
    - destruct (dwidth d); cbn; split_and!; done. }
  destruct (lmods_lflag (lmods d) g) as (E1 & E2 & E3 & E4 & _); [lia|]. rewrite E1, E2, E3, E4, G1, G3, G4, C.
  split_and!; [done..|]. rewrite G2. by destruct (lmods d).
Qed.

(** ** Conversions *)

Lemma num_val_range n : num_ok n -> INT_MIN < num_val n <= INT_MAX.
Proof.
  assert (INT_MIN = - INT_MAX - 1) by done. assert (0 < INT_MAX) by done.
  destruct n as [|ds|v]; cbn [num_ok num_val]; [lia| |done]. intros (Hd & _ & Hv).
  pose proof (value_mono ds 0 ltac:(lia) Hd). change (ch "0") with 48 in Hv. unfold value in *. lia.
Qed.

Lemma eff_range d : dir_ok d -> INT_MIN < eff_width d <= INT_MAX /\ INT_MIN < eff_prec d <= INT_MAX.
Proof.
  intros (Hw & Hp & _). apply num_val_range in Hw. assert (INT_MIN < -1 < INT_MAX) by done. unfold eff_width, eff_prec.
  destruct (dprec d) as [m|]; [apply num_val_range in Hp|]; lia.
Qed.

Lemma s64_u64 x : - 2 ^ 63 <= x < 2 ^ 63 -> s64 (u64 x) = x.
Proof.
  intros H. unfold sgn. rewrite wrap_wrap. destruct (Z.le_gt_cases 0 x).
  - rewrite wrap_small by (unfold fits; lia). zcases.
  - assert (u64 x = x + 2 ^ 64) as ->; [|zcases]. unfold wrap. symmetry. apply Z.mod_unique_pos with (-1); lia.
Qed.

Lemma getint_spec d n a se : dir_ok d -> dconv d = CInt n ->
  getint (lflag (spec_of d)) (St (conv_args d ++ a) se) = Ret (n, St a se).
Proof.
  intros Hd E. destruct (spec_of_eq d Hd) as (_ & _ & _ & L). destruct Hd as (_ & _ & Hc). unfold conv_ok in Hc.
  unfold getint, conv_args. rewrite E in *. rewrite L. unfold mbind, prog_bind, va_long, va_int, va_next.
  destruct (wide d); cbn [ap sent app]; [rewrite s64_u64 by lia|rewrite s32_u32 by lia]; done.
Qed.

Lemma getuint_spec d r n a se : dir_ok d -> dconv d = CUint r n ->
  getuint (lflag (spec_of d)) (St (conv_args d ++ a) se) = Ret (n, St a se).
Proof.
  intros Hd E. destruct (spec_of_eq d Hd) as (_ & _ & _ & L). destruct Hd as (_ & _ & Hc). unfold conv_ok in Hc.
  unfold getuint, conv_args. rewrite E in *. rewrite L. unfold va_long, va_int, va_next.
  destruct (wide d); cbn [ap sent app]; by rewrite wrap_small.
Qed.

(** [printnum] with a directive's padding prints what [shows] says. *)
Lemma printnum_shows d b n pre a se : dir_ok d -> 2 <= b -> fits 64 n -> exists out, shows d b n pre out /\
  printnum n b (width (spec_of d)) (padc (spec_of d)) (St a (se ++ pre)) = Ret (tt, St a (se ++ out)).
Proof.
  intros Hd Hb Hn. destruct (spec_of_eq d Hd) as (-> & -> & _). pose proof (eff_range d Hd).
  destruct (printnum_spec n b (eff_width d) (pad_char d) (St a (se ++ pre)) Hb Hn) as (ds & Hds & ->); [lia|].
  eexists. split; [by exists ds|]. cbn [ap sent]. by rewrite app_assoc.
Qed.

Lemma convert_spec d a se : dir_ok d -> (forall c, dconv d <> CBad c) -> exists m out,
  convert (conv_char (dconv d)) (spec_of d) = Some m /\ renders d out /\
  m (St (conv_args d ++ a) se) = Ret (tt, St a (se ++ out)).
Proof.
  intros Hd Hb. pose proof Hd as (_ & _ & Hc). unfold conv_ok in Hc. unfold renders.
  assert (2 ^ 31 = INT_MAX + 1 /\ INT_MIN = - 2 ^ 31) as [Hmax Hmin] by done.
  destruct (dconv d) as [n|r n|p|s|v| |c] eqn:E; [| | | | | |by destruct (Hb c)].
  - destruct (printnum_shows d 10 (Z.abs n) (if n <? 0 then [ch "-"] else []) a se Hd) as (out & Ho & H); [lia| |].
    { unfold fits. destruct (wide d); lia. }
    exists (print_signed (spec_of d)), out. split_and!; [done..|]. rewrite <-H.
    unfold print_signed, mbind at 1, prog_bind at 1. rewrite (getint_spec d n) by done.
    destruct (Z.ltb_spec n 0); [|by rewrite app_nil_r, Z.abs_eq by done].
    unfold emit, mbind, prog_bind. cbn [ap sent]. destruct (Z.eqb_spec n (- 2 ^ 63)); [destruct (wide d); lia|].
    by rewrite Z.abs_neq by lia.
  - destruct (printnum_shows d (base r) n [] a se Hd) as (out & Ho & H); [by destruct r| |].
    { unfold fits in *. destruct (wide d); lia. }
    exists (print_unsigned (base r) (spec_of d)), out. split_and!; [by destruct r|done|]. rewrite <-H, app_nil_r.
    unfold print_unsigned, mbind, prog_bind. by rewrite (getuint_spec d r n) by done.
  - destruct (printnum_shows d 16 p (bytes "0x") a se Hd) as (out & Ho & H); [lia|done|].
    eexists _, out. split_and!; [done..|]. rewrite <-H.
    unfold conv_args. rewrite E. unfold print_unsigned, emits, mbind, prog_bind, getuint, va_long, va_next.
    cbn [ap sent app width padc lflag set_lflag]. change (1 >=? 1) with true. cbn [ap sent app]. by rewrite wrap_small.
  - destruct (spec_of_eq d Hd) as (P & W & R & _). pose proof (eff_range d Hd). eexists _, _. split_and!; [done..|].
    unfold conv_args. rewrite E. cbn [app]. rewrite print_str_spec by (rewrite ?R, ?W; done || lia). by rewrite P, W, R.
  - exists (v ← va_int; emit (s32 v)), [v]. split_and!; [done..|]. unfold conv_args. rewrite E.
    unfold mbind, prog_bind, va_int, va_next, emit. cbn [ap sent app]. by rewrite s32_u32.
  - exists (emit (ch "%")), [ch "%"]. unfold conv_args. by rewrite E.
Qed.

Lemma options_plain d : dir_ok d -> Forall (fun c => c <> ch "%") (options d).
Proof.
  intros (Hw & Hp & _). assert (forall n, num_ok n -> Forall (fun c => c <> ch "%") (num_text n)) as Hn.
  { intros [|ds|v] H; cbn [num_text]; [done| |by constructor]. destruct H as (H & _). apply Forall_map.
    eapply Forall_impl; [exact H|]. cbn. intros x Hx. rewrite digit_dec by done. change (ch "0") with 48. change (ch "%") with 37. lia. }
  unfold options. rewrite !Forall_app. split_and!.
  - apply Forall_map, Forall_forall. by intros [] _.
  - by apply Hn.
  - destruct (dprec d); constructor; [done|by apply Hn].
  - apply Forall_map, Forall_forall. by intros [] _.
Qed.

Lemma unknown_default c f : known c = false -> convert c f = None /\ is_digit c = false /\ c <> ch "%" /\
  (c =? ch "-") || (c =? ch "0") = false /\ (c =? ch "*") = false /\ (c =? ch ".") = false /\ (c =? ch "#") = false /\
  (c =? ch "z") = false /\ (c =? ch "l") = false.
Proof.
  unfold known. rewrite !orb_false_iff. intros ((((((((_ & H1) & H2) & H3) & H4) & H5) & H6) & H7) & H8).
  assert (c <> ch "0") as H0 by (by intros ->). rewrite H1, H2, H3, H4, H5, H6, H7. apply Z.eqb_neq in H0 as ->.
  assert (c <> ch "%") by (by intros ->). split_and!; try done.
  unfold convert in *. by repeat (case_match; try done).
Qed.

(** One directive, from after its percent sign: at its conversion character ... *)
Lemma directive_body d last r n a se : dir_ok d -> (length (body d) <= n)%nat -> exists n',
  directive n (body d ++ r) last spec0 (St (args d ++ a) se) =
  directive (S n') (conv_char (dconv d) :: r) last (spec_of d) (St (conv_args d ++ a) se).
Proof.
  intros Hd Hn. pose proof Hd as (Hw & Hp & Hc). unfold args, body in *. rewrite length_app in Hn. cbn [List.length] in Hn.
  pose proof (rounds_le d Hw Hp). exists (n - rounds_of d - 1)%nat.
  replace n with (rounds_of d + S (n - rounds_of d - 1))%nat at 1 by lia. rewrite <-!app_assoc. cbn [app].
  rewrite (app_assoc (num_args _)). fold (opt_args d). rewrite scan_options; [done|done|]. cbn [hd].
  unfold conv_ok in Hc. destruct (dconv d) as [|[]| | | | |c]; try done. by apply (unknown_default c spec0).
Qed.

(** ... it converts, or gives up and has the text read again. *)
Lemma directive_converts d last r n a se : dir_ok d -> (forall c, dconv d <> CBad c) -> (length (body d) <= n)%nat ->
  exists out, renders d out /\
  directive n (body d ++ r) last spec0 (St (args d ++ a) se) = Ret (r, St a (se ++ out)).
Proof.
  intros Hd Hb Hn. destruct (directive_body d last r n a se Hd Hn) as [n' ->].
  destruct (convert_spec d a se Hd Hb) as (m & out & Hm & Ho & H). exists out. split; [done|].
  destruct (dconv d) as [|[]| | | | |c]; cbn [conv_char directive hd tl] in *; [chars; rewrite Hm; unfold mbind, prog_bind; by rewrite H..|].
  by destruct (Hb c).
Qed.

Lemma directive_unknown d c last r n a se : dir_ok d -> dconv d = CBad c -> (length (body d) <= n)%nat ->
  directive n (body d ++ r) last spec0 (St (args d ++ a) se) = Ret (last, St a (se ++ [ch "%"])).
Proof.
  intros Hd E Hn. destruct (directive_body d last r n a se Hd Hn) as [n' ->]. destruct Hd as (_ & _ & Hc).
  unfold conv_ok, conv_args in *. rewrite E in *. cbn [conv_char app directive hd tl].
  destruct (unknown_default c (spec_of d) Hc) as (-> & -> & _ & -> & -> & -> & -> & -> & ->). done.
Qed.

Lemma vx_plain l : Forall (fun c => c <> ch "%") l -> forall n r a se,
  vxprintf (length l + n) (l ++ r) (St a se) = vxprintf n r (St a (se ++ l)).
Proof.
  induction l as [|c l IH]; intros H n r a se; [by rewrite app_nil_r|]. apply Forall_cons_1 in H as [Hc H].
  cbn [List.length Nat.add app vxprintf]. apply Z.eqb_neq in Hc as ->. unfold mbind, prog_bind, emit. cbn [ap sent].
  rewrite IH by done. by rewrite <-app_assoc.
Qed.

Lemma vx_renders fuel ps rest sent0 : Forall piece_ok ps -> (length (fmt_of ps) < fuel)%nat ->
  exists out, prints ps out /\
  vxprintf fuel (fmt_of ps) (St (args_of ps ++ rest) sent0) = Ret (tt, St rest (sent0 ++ out)).
Proof.
  intros H. revert fuel sent0. induction H as [|[c|d] ps Hp H IH]; intros fuel se Hf.
  - destruct fuel; [cbn in Hf; lia|]. exists []. split; [constructor|]. cbn. by rewrite app_nil_r.
  - cbn [fmt_of flat_map text app args_of] in *. destruct fuel as [|fuel]; [cbn in Hf; lia|].
    destruct (IH fuel (se ++ [c])) as (out & Ho & E); [cbn in Hf; unfold fmt_of; lia|].
    exists (c :: out). split; [by constructor|]. cbn [vxprintf]. apply Z.eqb_neq in Hp as ->.
    unfold mbind, prog_bind, emit. cbn [ap sent]. unfold fmt_of, args_of in E. rewrite E. by rewrite <-app_assoc.
  - cbn [fmt_of flat_map text app args_of] in *. fold (fmt_of ps) (args_of ps) in *. rewrite <-app_assoc.
    destruct fuel as [|fuel]; [cbn in Hf; lia|]. cbn [List.length] in Hf. rewrite length_app in Hf.
    cbn [vxprintf]. chars. unfold mbind, prog_bind.
    destruct (dconv d) eqn:Ec.
    7: { destruct (IH (fuel - length (body d))%nat (se ++ ch "%" :: body d)) as (out & Ho & E); [lia|].
      exists ((ch "%" :: body d) ++ out). split; [constructor; [unfold renders; by rewrite Ec|done]|].
      rewrite (directive_unknown d c) by (done || lia).
      replace fuel with (length (body d) + (fuel - length (body d)))%nat at 1 by lia.
      rewrite vx_plain, <-!app_assoc; [by rewrite <-app_assoc in E|].
      unfold body. rewrite Ec. apply Forall_app. split; [by apply options_plain|]. constructor; [|done].
      destruct Hp as (_ & _ & Hc). unfold conv_ok in Hc. rewrite Ec in Hc. by apply (unknown_default c spec0). }
    all: destruct (directive_converts d (body d ++ fmt_of ps) (fmt_of ps) fuel (args_of ps ++ rest) se Hp) as (o & Ho & E);
      [congruence|lia|]; destruct (IH fuel (se ++ o)) as (out & Hout & E'); [lia|];
      exists (o ++ out); (split; [by constructor|]); rewrite E, E'; by rewrite <-app_assoc.
Qed.


(** ** Every run ends *)

(** The run does not need more fuel, and what it returns satisfies [Q]. *)
Definition ends {A} (m : prog st A) (Q : A -> Prop) : Prop :=
  forall s, match m s with Ret (a, _) => Q a | Undef => True | Fuel => False end.

Lemma ends_ret {A} (a : A) (Q : A -> Prop) : Q a -> ends (mret a) Q.
Proof. intros H s. done. Qed.
Lemma ends_undef {A} (Q : A -> Prop) : ends undef Q.
Proof. intros s. done. Qed.
Lemma ends_bind {A B} (m : prog st A) (f : A -> prog st B) P Q :
  ends m P -> (forall a, P a -> ends (f a) Q) -> ends (x ← m; f x) Q.
Proof.
  intros Hm Hf s. unfold mbind, prog_bind. specialize (Hm s). destruct (m s) as [[a s1]| |]; [by apply Hf|done..].
Qed.
Lemma ends_if {A} (b : bool) (m n : prog st A) Q : ends m Q -> ends n Q -> ends (if b then m else n) Q.
Proof. by destruct b. Qed.
Lemma ends_seq {A B} (m : prog st A) (f : A -> prog st B) Q :
  ends m (fun _ => True) -> (forall a, ends (f a) Q) -> ends (x ← m; f x) Q.
Proof. intros Hm Hf. eapply ends_bind; [exact Hm|]. auto. Qed.

Lemma emits_ends l : ends (emits l) (fun _ => True).
Proof. intros s. done. Qed.
Lemma emit_ends c : ends (emit c) (fun _ => True).
Proof. intros s. done. Qed.
Lemma va_next_ends {A} (f : varg -> option A) : ends (va_next f) (fun _ => True).
Proof. intros s. unfold va_next. by repeat case_match. Qed.
Lemma lift_ends {A} (r : res A) (Q : A -> Prop) : match r with Ret a => Q a | Undef => True | Fuel => False end -> ends (lift r) Q.
Proof. intros H s. unfold lift. by destruct r. Qed.
Lemma collect_ends room : forall n b, collect room n b <> Fuel.
Proof.
  induction room as [|room IH]; intros n b; cbn; [done|]. case_match; [done|]. specialize (IH (n / b) b). by destruct (collect _ _ _).
Qed.
Lemma convert_to_ends lo hi d : ends (lift (convert_to lo hi d)) (fun _ => True).
Proof. apply lift_ends. unfold convert_to. by repeat case_match. Qed.
Lemma str_loop_ends p : forall k w, ends (str_loop p k w) (fun _ => True).
Proof.
  induction p as [|c p IH]; intros k w; cbn [str_loop]; [by apply ends_ret|].
  apply ends_if; [|by apply ends_ret]. apply ends_seq; [done|]. intros _. apply ends_if; [apply ends_undef|apply IH].
Qed.

Create HintDb ends.
Hint Resolve ends_undef ends_if emit_ends emits_ends va_next_ends convert_to_ends str_loop_ends : ends.
Ltac ends := repeat (lazymatch goal with
  | |- ends (mbind _ _) _ => apply ends_seq | |- ends (mret _) _ => apply ends_ret
  | |- ends (if _ then _ else _) _ => apply ends_if | |- forall _, _ => intro
  end); auto with ends.

Lemma printnum_ends n b w c : ends (printnum n b w c) (fun _ => True).
Proof.
  unfold printnum, pad. ends. apply lift_ends. pose proof (collect_ends 64 n b). by destruct (collect _ _ _).
Qed.
Hint Resolve printnum_ends : ends.

Lemma convert_ends c f m : convert c f = Some m -> ends m (fun _ => True).
Proof.
  unfold convert, print_str, pad, print_signed, print_unsigned, print_double, getint, getuint, va_int, va_str, va_long, va_double.
  intros H. repeat (case_match; simplify_eq); ends; done.
Qed.

Lemma scan_ends fmt : forall p c, ends (lift (scan p c fmt)) (fun x => length x.2 <= length fmt)%nat.
Proof.
  intros p c. apply lift_ends. revert p c. induction fmt as [|d fmt IH]; intros p c; cbn [scan].
  { destruct (Z.gtb _ _); cbn; done || lia. }
  destruct (Z.gtb _ _); [done|]. destruct (is_digit d); [|cbn; lia]. specialize (IH (p * 10 + c - ch "0") d). destruct (scan _ d fmt) as [x| |]; [cbn in *; lia|done..].
Qed.

Lemma directive_ends last : forall n fmt f, (length fmt < n)%nat ->
  ends (directive n fmt last f) (fun r => length r <= length fmt \/ r = last)%nat.
Proof.
  induction n as [|n IH]; intros fmt f Hn; [lia|].
  assert (hd 0 fmt = 0 \/ length fmt = S (length (tl fmt))) as Hc by (destruct fmt; cbn; [by left|by right]).
  assert (forall f', length fmt = S (length (tl fmt)) -> ends (directive n (tl fmt) last f') (fun r => length r <= length fmt \/ r = last)%nat) as Hgo.
  { intros f' E s. pose proof (IH (tl fmt) f' ltac:(lia) s). destruct (directive _ _ _ _ _) as [[a ?]| |]; [|done..]. destruct H; [left; lia|by right]. }
  cbn [directive]. destruct Hc as [Hc|Hc].
  { rewrite Hc. cbn. intros s. cbn. by right. }
  repeat (case_match; [by apply Hgo|]). case_match.
  { eapply ends_bind; [apply scan_ends|]. intros [p r] Hr s. cbn [snd] in Hr.
    pose proof (IH r (process_precision p f) ltac:(lia) s). destruct (directive _ _ _ _ _) as [[a ?]| |]; [|done..].
    destruct H1; [left; lia|by right]. }
  case_match; [apply ends_seq; [apply va_next_ends|intros; by apply Hgo]|].
  repeat (case_match; [by apply Hgo|]). case_match.
  - apply ends_seq; [by eapply convert_ends|]. intros _. apply ends_ret. left. lia.
  - intros s. cbn. by right.
Qed.

(** C35. The formatter ends on every format, whatever the arguments are, even when they do not
    match it: fuel for one round per character of the format is enough, also when a directive
    is given up and its text read again. *)
Theorem vxprintf_ends fuel fmt s : (length fmt < fuel)%nat -> vxprintf fuel fmt s <> Fuel.
Proof.
  assert (forall n fmt, (length fmt < n)%nat -> ends (vxprintf n fmt) (fun _ => True)) as H.
  { induction n as [|n IH]; intros l Hl; [lia|]. cbn [vxprintf]. destruct l as [|c l]; [by apply ends_ret|]. cbn in Hl. case_match.
    - eapply ends_bind; [apply directive_ends; lia|]. intros r [Hr| ->]; apply IH; lia.
    - apply ends_seq; [done|]. intros _. apply IH. lia. }
  intros Hf E. specialize (H fuel fmt Hf s). by rewrite E in H.
Qed.

(** ** Examples *)

Definition shown (fmt : string) (a : list varg) : option (list Z) :=
  match vxprintf 64 (bytes fmt) (St a []) with Ret (_, s) => Some (sent s) | _ => None end.

(** A sign is printed before the padding and is not part of the width, and a left-aligned
    number is padded with minus signs on its left. *)
Example signed_width : shown "%5d|%-5d" [AInt (-42); AInt 7] = Some (bytes "-   42|----7").
Proof. vm_compute. reflexivity. Qed.

(** The rounded fraction does not carry into the integer part: this is 0.9999999. *)
Example fraction_carry : shown "%f" [ADouble (SFdiv 53 1024 (of_int 9999999) (of_int 10000000))] = Some (bytes "0.1000000").
Proof. vm_compute. reflexivity. Qed.

(** The zero after the dot is taken for the padding flag, not for a precision. *)
Example zero_precision : shown "%.0f" [ADouble (of_int 1)] = Some (bytes "1.000000").
Proof. vm_compute. reflexivity. Qed.

Definition ex_format : list piece :=
  [Lit (ch "n"); Lit (ch "="); Fmt (Dir [FZero] (NStar 6) None [ML] (CInt (-12345678901))); Lit (ch " ");
   Fmt (Dir [] (NLit [4]) (Some (NLit [2])) [] (CStr (Some (bytes "abc")))); Lit (ch " "); Fmt (Dir [] NNone None [] (CPtr 4096))].


Lemma vxprintf_ends_witness : vxprintf 8 (bytes "%5*-.%q") (St [] []) <> Fuel.
Proof. apply vxprintf_ends. cbn. lia. Defined.
