(* ===== verification/Harts.v ===== *)
(** * Many harts (baremetal/hello-hart/main.c and the boot barrier of soctglue.c)

    The one program of the repository that runs on every hart.  Hart 0 comes out of
    [_soct_start_main], lets the others out of [_soct_start_secondary], and enters main; the
    others enter [__main], where they wait for a software interrupt, print under a lock that
    all share, meet at a sense-reversing barrier and sleep.

    [Barrier] is the barrier with any program around it; the rest is this program.  A step is
    one access to a shared word, by any hart; the fences of the code order them, so the words
    are sequentially consistent.  What printf prints is its rendering (Printf), a character at
    a time. *)
From Stdlib Require Import String.
From S2P Require Import Prelude Printf.

#[local] Open Scope list_scope.
#[local] Abbreviation length := List.length.

Definition SOCT_MAX_HARTS : Z := 64.

(** One place of a function changed. *)
Definition upd {A} (f : nat -> A) (h : nat) (a : A) : nat -> A := fun i => if (i =? h)%nat then a else f i.

Module Barrier.
(** Before which access of [barrier] a hart is. *)
Inductive bpc := Toggle | Arrive | Reset | Flip | Spin | Through.
#[export] Instance bpc_eq_dec : EqDecision bpc.
Proof. solve_decision. Defined.

(** barrier_count, barrier_sense and local_sense. *)
Record bar := Bar { count : Z; sense : Z; local : nat -> Z }.
Definition bar0 : bar := Bar 0 0 (fun _ => 0).

Definition bar_step (n_harts : Z) (h : nat) (p : bpc) (b : bar) : bpc * bar :=
  match p with
  | Toggle => (Arrive, Bar (count b) (sense b) (upd (local b) h (local b h .^ 1)))
  | Arrive =>
      let c := u32 (count b + 1) in
      (if c =? u32 n_harts then Reset else Spin, Bar c (sense b) (local b))
  | Reset => (Flip, Bar 0 (sense b) (local b))
  | Flip => (Through, Bar (count b) (local b h) (local b))
  | Spin => (if sense b =? local b h then Through else Spin, b)
  | Through => (Through, b)
  end.

(** Any program around it: a hart outside may enter, one that is through may leave.  [rounds]
    counts the barriers a hart has begun, [opened] how often the barrier let its harts go. *)
Record world := World { shared : bar; place : nat -> option bpc; rounds : nat -> nat; opened : nat }.
Definition start : world := World bar0 (fun _ => None) (fun _ => O) O.

Definition begins (p : bpc) : nat := match p with Toggle => 1 | _ => 0 end.
Definition opens (p : bpc) : nat := match p with Flip => 1 | _ => 0 end.

Inductive event := Enter (h : nat) | Move (h : nat) | Leave (h : nat).
Definition hart_of (e : event) : nat := match e with Enter h | Move h | Leave h => h end.
Definition step (n_harts : Z) (e : event) (w : world) : world :=
  match e, place w (hart_of e) with
  | Enter h, None => World (shared w) (upd (place w) h (Some Toggle)) (rounds w) (opened w)
  | Leave h, Some Through => World (shared w) (upd (place w) h None) (rounds w) (opened w)
  | Move h, Some p =>
      let '(q, b) := bar_step n_harts h p (shared w) in
      World b (upd (place w) h (Some q)) (upd (rounds w) h (rounds w h + begins p)%nat) (opened w + opens p)
  | _, _ => w
  end.
Definition run (n_harts : Z) (es : list event) (w : world) : world := foldl (fun w e => step n_harts e w) w es.
End Barrier.
Import Barrier.

(** ** What is printed *)

Inductive msg := NoHarts | Detected (n : Z) | Hello (h : nat) | Exiting (h : nat) (code : Z).

Definition vtext (fmt : string) (args : list varg) : list Z :=
  match Vx.vxprintf 60 (bytes fmt ++ [10]) (Vx.St args []) with Ret (_, o) => Vx.sent o | _ => [] end.
Definition text (m : msg) : list Z :=
  match m with
  | NoHarts => vtext "Failed to get number of harts from Soctglue" []
  | Detected n => vtext "Detected %zu harts" [ALong n]
  | Hello h => vtext "Hello from hart %u" [AInt (Z.of_nat h)]
  | Exiting h code => vtext "Hart %u exiting with code %u" [AInt (Z.of_nat h); AInt code]
  end.

(** ** Where a hart is *)

(** In [mprintf]: at the swap, with characters to come, before the release. *)
Inductive say := Lock | Emit (rest : list Z) | Unlock.

Inductive pc :=
| Held | Release
| Ask | Handler | Wake (hart : nat)
| AwaitMsip | ClearMsip
| Say (m : msg) (p : say)
| At (p : bpc)
| Exit (code : Z) | Gone
| Park.

(** The shared words, what was printed, where everyone is; then a record of what happened: the
    messages begun, in order, and the barrier's two counts. *)
Record world := World {
  boot_sync : Z; n_harts : Z; msip : nat -> Z; print_lock : Z; bars : bar; handler : bool;
  out : list Z; hart : nat -> pc;
  said : list msg; rounds : nat -> nat; opened : nat }.

Definition at_ (h : nat) (p : pc) (w : world) : world :=
  World (boot_sync w) (n_harts w) (msip w) (print_lock w) (bars w) (handler w) (out w) (upd (hart w) h p) (said w) (rounds w) (opened w).
Definition set_boot b w := World b (n_harts w) (msip w) (print_lock w) (bars w) (handler w) (out w) (hart w) (said w) (rounds w) (opened w).
Definition set_n n w := World (boot_sync w) n (msip w) (print_lock w) (bars w) (handler w) (out w) (hart w) (said w) (rounds w) (opened w).
Definition set_msip h v w := World (boot_sync w) (n_harts w) (upd (msip w) h v) (print_lock w) (bars w) (handler w) (out w) (hart w) (said w) (rounds w) (opened w).
Definition set_lock l w := World (boot_sync w) (n_harts w) (msip w) l (bars w) (handler w) (out w) (hart w) (said w) (rounds w) (opened w).
Definition set_handler w := World (boot_sync w) (n_harts w) (msip w) (print_lock w) (bars w) true (out w) (hart w) (said w) (rounds w) (opened w).
Definition put_char c w := World (boot_sync w) (n_harts w) (msip w) (print_lock w) (bars w) (handler w) (out w ++ [c]) (hart w) (said w) (rounds w) (opened w).
Definition begin_msg m w := World (boot_sync w) (n_harts w) (msip w) (print_lock w) (bars w) (handler w) (out w) (hart w) (said w ++ [m]) (rounds w) (opened w).
Definition set_bar h p b w := World (boot_sync w) (n_harts w) (msip w) (print_lock w) b (handler w) (out w) (hart w) (said w)
  (upd (rounds w) h (rounds w h + begins p)%nat) (opened w + opens p).

(** ** One hart *)

(** Where a hart goes when it has printed [m]. *)
Definition after (m : msg) : pc :=
  match m with
  | NoHarts => Exit (-1)
  | Detected _ => Handler
  | Hello O => Wake 1
  | Hello (S _) => At Toggle
  | Exiting _ _ => Gone
  end.

(** [mprintf] and what follows it. *)
Definition mprintf (h : nat) (m : msg) (p : say) (w : world) : world :=
  match p with
  | Lock => let w' := set_lock 1 w in
            if print_lock w =? 0 then at_ h (Say m (Emit (text m))) (begin_msg m w') else w'
  | Emit (c :: l) => at_ h (Say m (Emit l)) (put_char c w)
  | Emit [] => at_ h (Say m Unlock) w
  | Unlock => at_ h (after m) (set_lock 0 w)
  end.

(** [n_opt] is the answer of [soct_n_harts]. *)
Definition hart_step (n_opt : Z) (h : nat) (w : world) : world :=
  match hart w h with
  | Held => if boot_sync w =? 0 then w else at_ h AwaitMsip w
  | Release => at_ h Ask (set_boot (-1) w)
  | Ask => if n_opt <? 0 then at_ h (Say NoHarts Lock) w
           else at_ h (Say (Detected (u64 n_opt)) Lock) (set_n (u64 n_opt) w)
  | Handler => at_ h (Say (Hello 0) Lock) (set_handler w)
  | Wake i => if Z.of_nat i <? n_harts w then at_ h (Wake (S i)) (set_msip i 1 w) else at_ h (At Toggle) w
  | AwaitMsip => if msip w h =? 0 then w else at_ h ClearMsip w
  | ClearMsip => at_ h (Say (Hello h) Lock) (set_msip h 0 w)
  | Say m p => mprintf h m p w
  | At Through => at_ h (if (h =? 0)%nat then Exit 0 else Park) w
  | At p =>
      let '(q, b) := bar_step (n_harts w) h p (bars w) in
      match p, q with Spin, Spin => w | _, _ => at_ h (At q) (set_bar h p b w) end
  | Exit code => if handler w then at_ h (Say (Exiting h code) Lock) w else at_ h Gone w
  | Gone | Park => w
  end.

Definition run (n_opt : Z) (hs : list nat) (w : world) : world := foldl (fun w h => hart_step n_opt h w) w hs.

(** Hart 0 at the end of start-up, the others behind the boot barrier. *)
Definition boot : world :=
  World 0 0 (fun _ => 0) 0 bar0 false [] (fun h => if (h =? 0)%nat then Release else Held) [] (fun _ => O) O.

(** The program is over: hart 0 has left it, the other harts sleep. *)
Definition finished (n : nat) (w : world) : Prop :=
  hart w 0 = Gone /\ forall h, (0 < h < n)%nat -> hart w h = Park.
