(* ===== verification/HartsProofs.v ===== *)
(** * Many harts: the barrier separates its rounds, and the program prints what it should

    [barrier_separates] is the barrier under every interleaving and any number of rounds;
    [hello_prints] what is on the terminal at any moment; [hello_finishes] that every fair
    schedule ends the program. *)
From Stdlib Require Import String Permutation.
From S2P Require Import Prelude Printf Harts.
Import Barrier.

#[local] Open Scope list_scope.
#[local] Abbreviation length := List.length.

Lemma upd_eq {A} (f : nat -> A) h a : upd f h a h = a.
Proof. unfold upd. by rewrite Nat.eqb_refl. Qed.

Lemma upd_ne {A} (f : nat -> A) h a i : i <> h -> upd f h a i = f i.
Proof. unfold upd. by intros H%Nat.eqb_neq; rewrite H. Qed.

(** ** Counting harts *)

Fixpoint sum (f : nat -> nat) (n : nat) : nat :=
  match n with O => O | S n => sum f n + f n end.
Definition cnt (P : nat -> bool) (n : nat) : nat := sum (fun h => Nat.b2n (P h)) n.

Lemma sum_ext f g n : (forall i, (i < n)%nat -> f i = g i) -> sum f n = sum g n.
Proof. induction n as [|n IH]; intros H; cbn; [done|]. rewrite IH, H by auto with lia. done. Qed.

Lemma sum_change f g h n : (h < n)%nat -> (forall i, i <> h -> g i = f i) -> (sum g n + f h = sum f n + g h)%nat.
Proof.
  induction n as [|n IH]; [lia|]. intros H Hg. cbn. destruct (Nat.eq_dec h n) as [->|Hn].
  - rewrite (sum_ext g f) by (intros; apply Hg; lia). lia.
  - rewrite (Hg n) by done. specialize (IH ltac:(lia) Hg). lia.
Qed.

Lemma cnt_ext P Q n : (forall i, (i < n)%nat -> P i = Q i) -> cnt P n = cnt Q n.
Proof. intros H. apply sum_ext. intros i Hi. by rewrite H. Qed.

Lemma cnt_upd P h b n : (h < n)%nat -> (cnt (upd P h b) n + Nat.b2n (P h) = cnt P n + Nat.b2n b)%nat.
Proof.
  intros H. pose proof (sum_change (fun i => Nat.b2n (P i)) (fun i => Nat.b2n (upd P h b i)) h n H) as E.
  cbn beta in E. rewrite upd_eq in E. apply E. intros i Hi. by rewrite upd_ne.
Qed.

Lemma cnt_le P n : (cnt P n <= n)%nat.
Proof. unfold cnt. induction n; cbn; [done|]. destruct (P n); cbn; lia. Qed.

Lemma cnt_all P n : cnt P n = n -> forall h, (h < n)%nat -> P h = true.
Proof.
  induction n as [|n IH]; [lia|]. pose proof (cnt_le P n). unfold cnt in *. cbn. intros E h Hh. destruct (P n) eqn:EP; cbn in E; [|lia].
  destruct (Nat.eq_dec h n) as [->|]; [done|]. apply IH; lia.
Qed.

Lemma cnt_but_one P n h : (h < n)%nat -> P h = false -> S (cnt P n) = n -> forall i, (i < n)%nat -> i <> h -> P i = true.
Proof.
  intros Hh HP E i Hi Hne. rewrite <-(upd_ne P h true i) by done. apply (cnt_all _ n); [|done].
  pose proof (cnt_upd P h true n Hh) as H. rewrite HP in H. cbn in H. lia.
Qed.

Lemma cnt_none P n : (forall i, (i < n)%nat -> P i = false) -> cnt P n = 0%nat.
Proof. intros H. rewrite (cnt_ext _ (fun _ => false)) by done. unfold cnt. clear H. cbn [Nat.b2n]. induction n; cbn; lia. Qed.

Lemma cnt_some P n : (cnt P n < n)%nat -> exists h, (h < n)%nat /\ P h = false.
Proof.
  unfold cnt. induction n as [|n IH]; cbn; [lia|]. destruct (P n) eqn:E; cbn; [|eauto].
  intros H. destruct IH as (h & Hh & Ph); [lia|]. exists h. split; [lia|done].
Qed.

(** ** The barrier *)

Definition par (r : nat) : Z := Z.b2z (Nat.odd r).

Lemma par_S r : par (S r) = par r .^ 1.
Proof. unfold par. rewrite Nat.odd_succ, <-Nat.negb_odd. by destruct (Nat.odd r). Qed.

Lemma par_next r : par (S r) <> par r.
Proof. unfold par. rewrite Nat.odd_succ, <-Nat.negb_odd. by destruct (Nat.odd r). Qed.

Section barrier.
Context (n : nat) (Hn : (0 < n)%nat) (H32 : Z.of_nat n < 2 ^ 32).

(** How many barriers a hart at [p] has begun when the barrier has opened [o] times. *)
Definition round_ok (p : option bpc) (r o : nat) : Prop :=
  match p with
  | None | Some Toggle | Some Through => r = o
  | Some Arrive | Some Reset | Some Flip => r = S o
  | Some Spin => r = S o \/ r = o
  end.
Definition leading (p : option bpc) : bool := match p with Some Reset | Some Flip => true | _ => false end.
Definition waiting (place : nat -> option bpc) (rounds : nat -> nat) (o : nat) (h : nat) : bool :=
  match place h with Some Spin => (rounds h =? S o)%nat | _ => false end.

(** Either no hart leads, and the count is of those waiting, not all; or one does, and all
    others wait. *)
Record binv (b : bar) (place : nat -> option bpc) (rounds : nat -> nat) (o : nat) : Prop := Binv {
  b_sense : sense b = par o;
  b_local h : (h < n)%nat -> local b h = par (rounds h);
  b_round h : (h < n)%nat -> round_ok (place h) (rounds h) o;
  b_lead h : (h < n)%nat -> leading (place h) = true ->
    (place h = Some Flip -> count b = 0) /\ forall i, (i < n)%nat -> i <> h -> waiting place rounds o i = true;
  b_count : (forall h, (h < n)%nat -> leading (place h) = false) ->
    count b = Z.of_nat (cnt (waiting place rounds o) n) /\ (cnt (waiting place rounds o) n < n)%nat }.

Lemma binv_start : binv bar0 (fun _ => None) (fun _ => O) O.
Proof.
  split; try done. intros _. unfold waiting. rewrite cnt_none by done. done.
Qed.

Lemma waiting_ext place place' rounds rounds' o h :
  place h = place' h -> rounds h = rounds' h -> waiting place rounds o h = waiting place' rounds' o h.
Proof. unfold waiting. by intros -> ->. Qed.

(** A hart that neither leads nor waits goes to another such place: nothing counted changes. *)
Lemma binv_same b b' place rounds o h q r : (h < n)%nat -> binv b place rounds o ->
  sense b' = sense b -> count b' = count b -> local b' h = par r -> (forall i, i <> h -> local b' i = local b i) ->
  leading (place h) = false -> waiting place rounds o h = false ->
  leading q = false -> waiting (upd place h q) (upd rounds h r) o h = false -> round_ok q r o ->
  binv b' (upd place h q) (upd rounds h r) o.
Proof.
  intros Hh [Hs Hl Hr Hd Hc] Es Ec El Eo L1 W1 L2 W2 Hq.
  assert (forall i, waiting (upd place h q) (upd rounds h r) o i = waiting place rounds o i) as Hw.
  { intros i. destruct (Nat.eq_dec i h) as [->|Hne]; [congruence|]. apply waiting_ext; by rewrite upd_ne. }
  assert (forall i, i <> h -> upd place h q i = place i) as Hp by (intros; by apply upd_ne).
  split; [congruence|..].
  - intros i Hi. destruct (Nat.eq_dec i h) as [->|Hne]; [by rewrite upd_eq|]. rewrite Eo, upd_ne by done. by apply Hl.
  - intros i Hi. destruct (Nat.eq_dec i h) as [->|Hne]; [by rewrite !upd_eq|]. rewrite !upd_ne by done. by apply Hr.
  - intros i Hi. destruct (Nat.eq_dec i h) as [->|Hne]; [rewrite upd_eq; congruence|]. rewrite Hp by done.
    intros E. destruct (Hd i Hi E) as [_ G]. rewrite (G h Hh ltac:(done)) in W1. done.
  - intros G. rewrite (cnt_ext _ (waiting place rounds o)), Ec by done. apply Hc. intros i Hi. destruct (Nat.eq_dec i h) as [->|Hne]; [done|].
    rewrite <-(G i Hi). by rewrite Hp.
Qed.

Lemma no_leader b place rounds o h : (h < n)%nat -> binv b place rounds o -> leading (place h) = false -> waiting place rounds o h = false ->
  forall i, (i < n)%nat -> leading (place i) = false.
Proof.
  intros Hh H L W i Hi. destruct (leading (place i)) eqn:E; [|done]. destruct (Nat.eq_dec h i) as [->|Hne]; [congruence|].
  destruct (b_lead _ _ _ _ H i Hi E) as [_ G]. rewrite (G h Hh Hne) in W. done.
Qed.

Lemma binv_arrive b place rounds o h : (h < n)%nat -> place h = Some Arrive -> binv b place rounds o ->
  let '(q, b') := bar_step (Z.of_nat n) h Arrive b in
  binv b' (upd place h (Some q)) (upd rounds h (rounds h)) o.
Proof.
  intros Hh Hp H. assert (waiting place rounds o h = false) as W by (unfold waiting; by rewrite Hp).
  assert (leading (place h) = false) as L by (by rewrite Hp).
  pose proof (no_leader _ _ _ _ h Hh H L W) as HL. destruct H as [Hs Hl Hr Hd Hc]. destruct (Hc HL) as [Ec Hlt]. cbn.
  rewrite Ec, !wrap_small by (unfold fits; lia). pose proof (Hr h Hh) as R. rewrite Hp in R. cbn in R.
  assert (forall i q, i <> h -> waiting (upd place h q) (upd rounds h (rounds h)) o i = waiting place rounds o i) as Hw.
  { intros i q Hne. apply waiting_ext; by rewrite upd_ne. }
  assert (forall i q, (i < n)%nat -> leading q = false -> leading (upd place h q i) = false) as Hq.
  { intros i q Hi Eq. destruct (Nat.eq_dec i h) as [->|Hne]; [by rewrite upd_eq|]. rewrite upd_ne by done. by apply HL. }
  assert (forall i, upd rounds h (rounds h) i = rounds i) as Hu.
  { intros i. unfold upd. by destruct (Nat.eqb_spec i h) as [->|]. }
  destruct (Z.eqb_spec (Z.of_nat (cnt (waiting place rounds o) n) + 1) (Z.of_nat n)) as [En|En];
    (split; cbn [sense local count]; [done|intros i Hi; rewrite Hu; by apply Hl|intros i Hi; rewrite Hu;
       destruct (Nat.eq_dec i h) as [->|Hne]; [rewrite upd_eq; cbn; auto|rewrite upd_ne by done; by apply Hr]|..]).
  - intros i Hi. destruct (Nat.eq_dec i h) as [->|Hne]; [|rewrite upd_ne by done; by rewrite HL].
    rewrite upd_eq. intros _. split; [done|]. intros k Hk Hne. rewrite Hw by done.
    apply (cnt_but_one _ n h); [done|done|lia|done|done].
  - intros G. specialize (G h Hh). rewrite upd_eq in G. done.
  - intros i Hi E. rewrite Hq in E by done. done.
  - intros _. assert (cnt (waiting (upd place h (Some Spin)) (upd rounds h (rounds h)) o) n = S (cnt (waiting place rounds o) n)) as ->; [|lia].
    rewrite (cnt_ext _ (upd (waiting place rounds o) h true)).
    + pose proof (cnt_upd (waiting place rounds o) h true n Hh) as E. rewrite W in E. cbn in E. lia.
    + intros i Hi. destruct (Nat.eq_dec i h) as [->|Hne]; [|rewrite upd_ne by done; by apply Hw].
      rewrite upd_eq. unfold waiting. rewrite !upd_eq. apply Nat.eqb_eq. done.
Qed.

Lemma binv_lead b place rounds o h p : (h < n)%nat -> place h = Some p -> leading (place h) = true -> binv b place rounds o ->
  let '(q, b') := bar_step (Z.of_nat n) h p b in
  binv b' (upd place h (Some q)) (upd rounds h (rounds h)) (o + opens p)%nat.
Proof.
  intros Hh Hp L [Hs Hl Hr Hd Hc]. destruct (Hd h Hh L) as [Hz Hw].
  assert (forall i, upd rounds h (rounds h) i = rounds i) as Hu.
  { intros i. unfold upd. by destruct (Nat.eqb_spec i h) as [->|]. }
  assert (forall i, (i < n)%nat -> i <> h -> place i = Some Spin /\ rounds i = S o) as Hw'.
  { intros i Hi Hne. specialize (Hw i Hi Hne). unfold waiting in Hw. destruct (place i) as [[]|]; try done.
    by apply Nat.eqb_eq in Hw. }
  pose proof (Hr h Hh) as R. rewrite Hp in R, L, Hz.
  destruct p; try done; cbn in R |- *; rewrite ?Nat.add_0_r, ?Nat.add_1_r;
    (split; cbn [sense local count]; [|intros i Hi; rewrite Hu; by apply Hl|..]).
  - done.
  - intros i Hi. rewrite Hu. destruct (Nat.eq_dec i h) as [->|Hne]; [by rewrite upd_eq|]. rewrite upd_ne by done. by apply Hr.
  - intros i Hi. destruct (Nat.eq_dec i h) as [->|Hne]; [|rewrite upd_ne by done; by destruct (Hw' i Hi Hne) as [-> _]].
    intros _. split; [done|]. intros k Hk Hne. rewrite (waiting_ext _ place _ rounds) by (rewrite ?upd_ne by done; done).
    by apply Hw.
  - intros G. specialize (G h Hh). rewrite upd_eq in G. done.
  - rewrite Hl by done. by rewrite R.
  - intros i Hi. rewrite Hu. destruct (Nat.eq_dec i h) as [->|Hne]; [by rewrite upd_eq|]. rewrite upd_ne by done.
    destruct (Hw' i Hi Hne) as [-> ->]. cbn. auto.
  - intros i Hi. destruct (Nat.eq_dec i h) as [->|Hne]; [by rewrite upd_eq|]. rewrite upd_ne by done. by destruct (Hw' i Hi Hne) as [-> _].
  - intros _. rewrite Hz by done. rewrite cnt_none; [split; [done|lia]|]. intros i Hi. unfold waiting.
    destruct (Nat.eq_dec i h) as [->|Hne]; [by rewrite upd_eq|]. rewrite !upd_ne by done. destruct (Hw' i Hi Hne) as [-> ->].
    apply Nat.eqb_neq. lia.
Qed.

Lemma binv_move b place rounds o h p : (h < n)%nat -> place h = Some p -> binv b place rounds o ->
  let '(q, b') := bar_step (Z.of_nat n) h p b in
  binv b' (upd place h (Some q)) (upd rounds h (rounds h + begins p)%nat) (o + opens p)%nat.
Proof.
  intros Hh Hp H. pose proof (b_round _ _ _ _ H h Hh) as R. rewrite Hp in R.
  pose proof (b_local _ _ _ _ H h Hh) as L. pose proof (b_sense _ _ _ _ H) as S_.
  destruct p; cbn [begins opens]; rewrite ?Nat.add_0_r.
  - cbn in R |- *. apply (binv_same b); try done; [cbn|intros i Hi; cbn; by apply upd_ne|by rewrite Hp|by unfold waiting; rewrite Hp|
      by unfold waiting; rewrite upd_eq|cbn; lia].
    rewrite upd_eq, L, Nat.add_1_r. by rewrite par_S.
  - by apply binv_arrive.
  - pose proof (binv_lead b place rounds o h Reset Hh Hp) as G. cbn in G. rewrite Nat.add_0_r in G. apply G; [by rewrite Hp|done].
  - pose proof (binv_lead b place rounds o h Flip Hh Hp) as G. cbn in G. apply G; [by rewrite Hp|done].
  - cbn. rewrite S_, L. destruct (Z.eqb_spec (par o) (par (rounds h))) as [E|E].
    + assert (rounds h = o) as R' by (destruct R as [R|R]; [|done]; rewrite R in E; by destruct (par_next o)).
      apply (binv_same b); try done; [by rewrite Hp| | by unfold waiting; rewrite upd_eq].
      unfold waiting. rewrite Hp, R'. apply Nat.eqb_neq. lia.
    + assert (rounds h = S o) as R' by (destruct R as [R|R]; [done|]; by rewrite R in E).
      destruct H as [Hs Hl Hr Hd Hc].
      assert (forall i, upd rounds h (rounds h) i = rounds i) as Hu by (intros i; unfold upd; by destruct (Nat.eqb_spec i h) as [->|]).
      assert (forall i, upd place h (Some Spin) i = place i) as Hv by (intros i; unfold upd; by destruct (Nat.eqb_spec i h) as [->|]).
      assert (forall i, waiting (upd place h (Some Spin)) (upd rounds h (rounds h)) o i = waiting place rounds o i) as Hw by (intros; by apply waiting_ext).
      split; [done|intros i; rewrite Hu; apply Hl|intros i; rewrite Hu, Hv; apply Hr|..].
      * intros i Hi. rewrite Hv. intros G. destruct (Hd i Hi G) as [G1 G2]. split; [done|]. intros k Hk Hne. rewrite Hw. by apply G2.
      * intros G. rewrite (cnt_ext _ (waiting place rounds o)) by done. apply Hc. intros i Hi. rewrite <-Hv. by apply G.
  - cbn. apply (binv_same b); try done; [by rewrite Hp|by unfold waiting; rewrite Hp|by unfold waiting; rewrite upd_eq].
Qed.
End barrier.

(** The machine of [Barrier.step]. *)
Definition barrier_inv (n : nat) (w : Barrier.world) : Prop := binv n (shared w) (place w) (Barrier.rounds w) (Barrier.opened w).

Lemma upd_same {A} (f : nat -> A) h i : upd f h (f h) i = f i.
Proof. unfold upd. by destruct (Nat.eqb_spec i h) as [->|]. Qed.

Lemma binv_ext n b place place' rounds rounds' o : (forall i, place i = place' i) -> (forall i, rounds i = rounds' i) ->
  binv n b place rounds o -> binv n b place' rounds' o.
Proof.
  intros Ep Er [Hs Hl Hr Hd Hc].
  assert (forall i, waiting place' rounds' o i = waiting place rounds o i) as Hw by (intros; by apply waiting_ext).
  split; [done|intros i; rewrite <-Er; apply Hl|intros i; rewrite <-Ep, <-Er; apply Hr|..].
  - intros h Hh. rewrite <-Ep. intros G. destruct (Hd h Hh G) as [G1 G2]. split; [done|]. intros i Hi Hne. rewrite Hw. by apply G2.
  - intros G. rewrite (cnt_ext _ (waiting place rounds o)) by done. apply Hc. intros h Hh. rewrite Ep. by apply G.
Qed.

(** Entering and leaving. *)
Lemma binv_outside n b place rounds o h q : (h < n)%nat -> binv n b place rounds o ->
  place h = None \/ place h = Some Through -> q = None \/ q = Some Toggle -> binv n b (upd place h q) rounds o.
Proof.
  intros Hh H Hp Hq. eapply (binv_ext n b (upd place h q) _ (upd rounds h (rounds h))); [done|apply upd_same|].
  pose proof (b_local _ _ _ _ _ H h Hh) as L. pose proof (b_round _ _ _ _ _ H h Hh) as R. unfold waiting.
  apply (binv_same n b b); try done; unfold waiting; rewrite ?upd_eq; destruct Hp as [Hp|Hp]; rewrite ?Hp in *; destruct Hq as [->| ->]; done.
Qed.

Lemma barrier_step n e w : (0 < n)%nat -> Z.of_nat n < 2 ^ 32 -> (hart_of e < n)%nat ->
  barrier_inv n w -> barrier_inv n (Barrier.step (Z.of_nat n) e w).
Proof.
  intros Hn H32 Hh H. unfold barrier_inv, Barrier.step in *. destruct e as [h|h|h]; cbn [hart_of] in *.
  - destruct (place w h) eqn:E; [done|]. cbn. apply binv_outside; auto.
  - destruct (place w h) as [p|] eqn:E; [|done]. pose proof (binv_move n Hn H32 _ _ _ _ h p Hh E H) as G.
    destruct (bar_step _ _ _ _) as [q b]. exact G.
  - destruct (place w h) as [[]|] eqn:E; try done. cbn. apply binv_outside; auto.
Qed.

Lemma barrier_runs n es : (0 < n)%nat -> Z.of_nat n < 2 ^ 32 -> Forall (fun e => (hart_of e < n)%nat) es ->
  forall w, barrier_inv n w -> barrier_inv n (Barrier.run (Z.of_nat n) es w).
Proof. intros Hn H32. induction 1 as [|e es He _ IH]; intros w H; cbn; [done|]. by apply IH, barrier_step. Qed.

(** C10. Under every interleaving, for any number of harts and of rounds: a hart outside the
    barrier has begun as many rounds as the barrier has opened, and every other hart has begun
    at least as many: nobody leaves its k-th barrier before all have come to their k-th, though
    count and sense are used again; nobody is more than one round ahead.  And the barrier does not
    deadlock: when all harts are waiting in it, one of them sees it open at its next look. *)
Theorem barrier_separates n es : (0 < n)%nat -> Z.of_nat n < 2 ^ 32 -> Forall (fun e => (hart_of e < n)%nat) es ->
  let w := Barrier.run (Z.of_nat n) es Barrier.start in
  (forall h i, (h < n)%nat -> (i < n)%nat -> (Barrier.rounds w h <= S (Barrier.rounds w i))%nat /\
     (place w h = None \/ place w h = Some Through -> Barrier.rounds w h = Barrier.opened w /\ (Barrier.rounds w h <= Barrier.rounds w i)%nat)) /\
  ((forall h, (h < n)%nat -> place w h = Some Spin) ->
     exists h, (h < n)%nat /\ place (Barrier.step (Z.of_nat n) (Move h) w) h = Some Through).
Proof.
  intros Hn H32 Hes w. assert (barrier_inv n w) as H by (apply barrier_runs; [done..|apply binv_start, Hn]).
  assert (forall h, (h < n)%nat -> (Barrier.opened w <= Barrier.rounds w h <= S (Barrier.opened w))%nat) as Hr.
  { intros h Hh. pose proof (b_round _ _ _ _ _ H h Hh) as R. destruct (place w h) as [[]|]; cbn in R; lia. }
  split.
  - intros h i Hh Hi. pose proof (Hr h Hh). pose proof (Hr i Hi). split; [lia|]. intros Hp.
    pose proof (b_round _ _ _ _ _ H h Hh) as R. destruct Hp as [->| ->] in R; cbn in R; lia.
  - intros Hp. destruct (b_count _ _ _ _ _ H) as [_ Hc]; [intros h Hh; by rewrite Hp|].
    destruct (cnt_some _ _ Hc) as (h & Hh & W). exists h. split; [done|].
    unfold waiting in W. rewrite Hp in W by done. apply Nat.eqb_neq in W. pose proof (Hr h Hh).
    unfold Barrier.step. cbn [hart_of]. rewrite Hp by done. cbn. rewrite upd_eq.
    rewrite (b_sense _ _ _ _ _ H), (b_local _ _ _ _ _ H h Hh). by replace (Barrier.rounds w h) with (Barrier.opened w) by lia; rewrite Z.eqb_refl.
Qed.

(** Three harts, two rounds. *)
Definition ex_round : list event :=
  map Enter [0; 1; 2]%nat ++ map Move [1; 0; 1; 2; 2; 0; 1; 0; 0; 0; 1; 2]%nat ++ map Leave [2; 0; 1]%nat.
Definition ex_events : list event := ex_round ++ ex_round.
Definition ex_barrier : Barrier.world := Barrier.run 3 ex_events Barrier.start.

Lemma barrier_separates_witness :
  (map (Barrier.rounds ex_barrier) [0; 1; 2]%nat, Barrier.opened ex_barrier) = ([2; 2; 2]%nat, 2%nat) /\
  (forall h i, (h < 3)%nat -> (i < 3)%nat -> (Barrier.rounds ex_barrier h <= S (Barrier.rounds ex_barrier i))%nat /\
     (place ex_barrier h = None \/ place ex_barrier h = Some Through ->
        Barrier.rounds ex_barrier h = Barrier.opened ex_barrier /\ (Barrier.rounds ex_barrier h <= Barrier.rounds ex_barrier i)%nat)) /\
  ((forall h, (h < 3)%nat -> place ex_barrier h = Some Spin) ->
     exists h, (h < 3)%nat /\ place (Barrier.step 3 (Move h) ex_barrier) h = Some Through).
Proof.
  split; [vm_compute; reflexivity|]. refine (barrier_separates 3 ex_events _ _ _); [lia|lia|].
  unfold ex_events, ex_round. cbn. repeat constructor.
Defined.
