(* ===== verification/HelloProofs.v ===== *)
(** * Many harts: what the program prints, and that it ends

    [inv] is the invariant of every schedule of [Harts.run]; [hello_prints] and
    [hello_finishes] are its consequences. *)
From Stdlib Require Import String Permutation.
From S2P Require Import Prelude Printf Harts HartsProofs.
Import Barrier Harts.

#[local] Open Scope list_scope.
#[local] Abbreviation length := List.length.

(** What is printed when nobody is cut short: the lines of hart 0 around those of the others,
    which come in any order. *)
Definition transcript (n : nat) (l : list nat) : list Z :=
  concat (map text (Detected (Z.of_nat n) :: Hello 0 :: map Hello l ++ [Exiting 0 0])).

Section hello.
Context (n : nat) (Hn : (0 < n)%nat) (H64 : Z.of_nat n <= SOCT_MAX_HARTS).
Implicit Types (w : Harts.world) (h i : nat).

(** ** The invariant *)

Definition place_of (p : pc) : option bpc := match p with At q => Some q | _ => None end.

(** Past the first step of the barrier. *)
Definition begun (p : pc) : bool :=
  match p with At Toggle => false | At _ | Exit _ | Gone | Park | Say (Exiting _ _) _ => true | _ => false end.

(** In the critical section of [mprintf]: what is still to be printed. *)
Definition printing (p : pc) : option (list Z) :=
  match p with Say _ (Emit l) => Some l | Say _ Unlock => Some [] | _ => None end.

(** Where hart 0 and the others can be. *)
Definition allowed (h : nat) (p : pc) : Prop :=
  if (h =? 0)%nat then
    match p with
    | Release | Ask | Handler | At _ | Exit 0 | Gone | Say (Hello O) _ | Say (Exiting O 0) _ => True
    | Say (Detected k) _ => k = Z.of_nat n
    | Wake i => (1 <= i <= n)%nat
    | _ => False
    end
  else
    match p with
    | Held | AwaitMsip | ClearMsip | At _ | Park => True
    | Say (Hello i) _ => i = h
    | _ => False
    end.

(** What hart 0 at [p] has done: raised the interrupt of [h], set n_harts, registered its
    handler, begun its first and its last messages. *)
Definition woken (h : nat) (p : pc) : bool :=
  match p with Wake i => (h <? i)%nat | At _ | Exit _ | Gone | Say (Exiting _ _) _ => true | _ => false end.
Definition asked (p : pc) : bool := match p with Release | Ask => false | _ => true end.
Definition registered (p : pc) : bool := match p with Release | Ask | Handler | Say (Detected _) _ => false | _ => true end.
Definition first_said (p : pc) : list msg :=
  match p with
  | Release | Ask | Say (Detected _) Lock => []
  | Say (Detected _) _ | Handler | Say (Hello _) Lock => [Detected (Z.of_nat n)]
  | _ => [Detected (Z.of_nat n); Hello 0]
  end.
Definition last_said (p : pc) : list msg :=
  match p with Gone | Say (Exiting _ _) (Emit _) | Say (Exiting _ _) Unlock => [Exiting 0 0] | _ => [] end.

(** Another hart has begun its line. *)
Definition spoke (p : pc) : bool :=
  match p with Say _ (Emit _) | Say _ Unlock | At _ | Park => true | _ => false end.

(** The interrupt of another hart, given where hart 0 is. *)
Definition called (w : Harts.world) (h : nat) : Prop :=
  match hart w h with
  | Held | AwaitMsip => (msip w h =? 0) = negb (woken h (hart w 0))
  | _ => woken h (hart w 0) = true
  end.

Definition lock_ok (w : Harts.world) : Prop :=
  (print_lock w = 0 /\ (forall i, (i < n)%nat -> printing (hart w i) = None) /\ out w = concat (map text (said w))) \/
  (print_lock w = 1 /\ exists h rest, (h < n)%nat /\ printing (hart w h) = Some rest /\
     (forall i, (i < n)%nat -> i <> h -> printing (hart w i) = None) /\ out w ++ rest = concat (map text (said w))).

Definition said_ok (w : Harts.world) : Prop :=
  exists l, said w = first_said (hart w 0) ++ map Hello l ++ last_said (hart w 0) /\
    NoDup l /\ forall h, h ∈ l <-> (0 < h < n)%nat /\ spoke (hart w h) = true.

(** Where everybody is, and what that says of the shared words. *)
Record stat (w : Harts.world) : Prop := Stat {
  i_allowed h : (h < n)%nat -> allowed h (hart w h);
  i_boot : hart w 0 <> Release -> boot_sync w <> 0;
  i_asked : asked (hart w 0) = true -> n_harts w = Z.of_nat n;
  i_handler : registered (hart w 0) = true -> handler w = true;
  i_called h : (0 < h < n)%nat -> called w h;
  i_bar : binv n (bars w) (fun h => place_of (hart w h)) (rounds w) (opened w);
  i_rounds h : (h < n)%nat -> rounds w h = Nat.b2n (begun (hart w h)) }.

Definition inv (w : Harts.world) : Prop := stat w /\ lock_ok w /\ said_ok w.

Lemma hello_boot : inv boot.
Proof.
  split; [|split].
  - split; cbn; try done.
    + intros [|h] _; done.
    + intros [|h] Hh; [lia|]. done.
    + eapply (binv_ext n bar0 (fun _ => None) _ (fun _ => O)); [by intros [|]|done|by apply binv_start].
    + intros [|h] _; done.
  - left. split; [done|]. split; [by intros [|]|done].
  - exists []. split; [done|]. split; [constructor|]. intros h. split; [by intros ?%not_elem_of_nil|]. intros [Hh Hs]. by destruct h.
Qed.

(** ** One hart moves *)

Section move.
Context (w w' : Harts.world) (h : nat) (p : pc) (Hh : (h < n)%nat) (Hm : hart w' = upd (hart w) h p).

Lemma moved : hart w' h = p.
Proof using Hn Hh Hm. by rewrite Hm, upd_eq. Qed.

Lemma stays i : i <> h -> hart w' i = hart w i.
Proof using Hn Hh Hm. intros H. by rewrite Hm, upd_ne. Qed.

Lemma called_move : (forall i, i <> h -> msip w' i = msip w i) ->
  (h = 0%nat -> forall i, (0 < i < n)%nat -> woken i p = woken i (hart w 0)) -> (h <> 0%nat -> called w' h) ->
  (forall i, (0 < i < n)%nat -> called w i) -> forall i, (0 < i < n)%nat -> called w' i.
Proof using Hn Hh Hm.
  intros E1 E2 E3 H i Hi. destruct (Nat.eq_dec i h) as [->|Hne]; [apply E3; lia|]. specialize (H i Hi). unfold called in *.
  rewrite stays, E1 by done. destruct (Nat.eq_dec h 0%nat) as [E0|Hz].
  - rewrite <-E0, moved, E2 by done. done.
  - rewrite (stays 0%nat) by done. done.
Qed.

Lemma place_move : (forall i, upd (fun i => place_of (hart w i)) h (place_of p) i = place_of (hart w' i)).
Proof using Hn Hh Hm. intros i. rewrite Hm. unfold upd. by destruct (i =? h)%nat. Qed.

Lemma stat_move : stat w -> allowed h p ->
  (h = 0%nat \/ boot_sync w' = boot_sync w /\ n_harts w' = n_harts w /\ handler w' = handler w) ->
  (h = 0%nat -> (p <> Release -> boot_sync w' <> 0) /\ (asked p = true -> n_harts w' = Z.of_nat n) /\ (registered p = true -> handler w' = true)) ->
  (forall i, (0 < i < n)%nat -> called w' i) ->
  binv n (bars w') (upd (fun i => place_of (hart w i)) h (place_of p)) (rounds w') (opened w') ->
  rounds w' h = Nat.b2n (begun p) -> (forall i, i <> h -> rounds w' i = rounds w i) -> stat w'.
Proof using Hn Hh Hm.
  intros [Ha Hb Hk Hr Hc Hbar Hro] Hal Hoth Hzero Hcall Hbin Hr1 Hr2.
  assert (hart w' 0 = hart w 0 /\ h <> 0%nat \/ hart w' 0 = p /\ h = 0%nat) as Hz.
  { destruct (Nat.eq_dec h 0%nat) as [E0|Hz]; [right; rewrite <-E0 at 1; by rewrite moved|left; by rewrite stays]. }
  split; [| | | |done| |].
  - intros i Hi. destruct (Nat.eq_dec i h) as [->|]; [by rewrite moved|]. rewrite stays by done. by apply Ha.
  - destruct Hz as [[-> Hz]|[-> Hz]]; [|by apply Hzero]. destruct Hoth as [|(-> & _)]; [done|apply Hb].
  - destruct Hz as [[-> Hz]|[-> Hz]]; [|by apply Hzero]. destruct Hoth as [|(_ & -> & _)]; [done|apply Hk].
  - destruct Hz as [[-> Hz]|[-> Hz]]; [|by apply Hzero]. destruct Hoth as [|(_ & _ & ->)]; [done|apply Hr].
  - eapply binv_ext; [apply place_move|done|exact Hbin].
  - intros i Hi. destruct (Nat.eq_dec i h) as [->|]; [by rewrite moved|]. rewrite stays, Hr2 by done. by apply Hro.
Qed.

(** Outside the barrier, or entering or leaving it. *)
Lemma bar_out : stat w -> bars w' = bars w -> rounds w' = rounds w -> opened w' = opened w ->
  place_of (hart w h) = None \/ hart w h = At Through -> place_of p = None \/ p = At Toggle ->
  binv n (bars w') (upd (fun i => place_of (hart w i)) h (place_of p)) (rounds w') (opened w').
Proof using Hn Hh Hm.
  intros H -> -> -> Hp Hq. apply binv_outside; [done|apply i_bar; done| |].
  - destruct Hp as [->| ->]; auto.
  - destruct Hq as [->| ->]; auto.
Qed.

Lemma lock_same : lock_ok w -> print_lock w' = print_lock w -> out w' = out w -> said w' = said w ->
  printing (hart w h) = None -> printing p = None -> lock_ok w'.
Proof using Hn Hh Hm.
  intros H El Eo Es P1 P2. unfold lock_ok in *. rewrite El, Eo, Es.
  assert (forall i, printing (hart w' i) = printing (hart w i)) as Hp.
  { intros i. destruct (Nat.eq_dec i h) as [->|]; [by rewrite moved, P1|by rewrite stays]. }
  destruct H as [(L & H & E)|(L & k & rest & Hk & Hr & H & E)]; [left|right].
  - split_and!; [done| |done]. intros i Hi. rewrite Hp. by apply H.
  - split; [done|]. exists k, rest. split_and!; [done|by rewrite Hp| |done]. intros i Hi Hne. rewrite Hp. by apply H.
Qed.

Lemma said_same : said_ok w -> said w' = said w ->
  (if (h =? 0)%nat then first_said p = first_said (hart w 0) /\ last_said p = last_said (hart w 0) else spoke p = spoke (hart w h)) ->
  said_ok w'.
Proof using Hn Hh Hm.
  intros (l & E & Hl & Hs) Es H. exists l. rewrite Es.
  destruct (Nat.eqb_spec h 0%nat) as [E0|Hz].
  - destruct H as [H1 H2]. split; [rewrite <-E0, moved, H1, H2; done|]. split; [done|]. intros i. rewrite Hs.
    destruct (Nat.eq_dec i 0%nat) as [->|]; [split; intros [? _]; lia|]. rewrite stays by lia. done.
  - split; [by rewrite stays by done|]. split; [done|]. intros i. rewrite Hs.
    destruct (Nat.eq_dec i h) as [->|]; [by rewrite moved, H|]. by rewrite stays.
Qed.
End move.

(** A step that leaves the lock, the output and what was said alone. *)
Lemma inv_quiet w w' h p : inv w -> (h < n)%nat -> hart w' = upd (hart w) h p ->
  print_lock w' = print_lock w -> out w' = out w -> said w' = said w ->
  printing (hart w h) = None -> printing p = None ->
  (if (h =? 0)%nat then first_said p = first_said (hart w 0) /\ last_said p = last_said (hart w 0) else spoke p = spoke (hart w h)) ->
  (stat w -> stat w') -> inv w'.
Proof.
  intros (Hs & Hl & Hd) Hh Hm El Eo Es P1 P2 Hsaid Hst. split; [by apply Hst|]. split.
  - by eapply (lock_same w w' h p).
  - by eapply (said_same w w' h p).
Qed.

(** In [mprintf], and when it leaves. *)
Lemma stat_say w w' h m q p : stat w -> (h < n)%nat -> hart w h = Say m q -> hart w' = upd (hart w) h p ->
  p = after m \/ (exists q, p = Say m q) ->
  boot_sync w' = boot_sync w -> n_harts w' = n_harts w -> msip w' = msip w -> handler w' = handler w ->
  bars w' = bars w -> rounds w' = rounds w -> opened w' = opened w -> stat w'.
Proof.
  intros H Hh E Hm Hp Eb En Em Eh Er1 Er2 Er3. pose proof (i_allowed _ H h Hh) as Ha. rewrite E in Ha. unfold allowed in Ha.
  apply (stat_move w w' h p); try done.
  - unfold allowed. destruct Hp as [->|[? ->]]; [|done]. destruct (Nat.eqb_spec h 0) as [->|].
    + destruct m as [| |[|]|[|] []]; try done; cbn; try lia.
    + destruct m as [| |[|]|[|] []]; try done.
  - auto.
  - intros ->. cbn in Ha. pose proof (i_boot _ H) as B. pose proof (i_asked _ H) as K. pose proof (i_handler _ H) as R. rewrite E in *.
    rewrite Eb, En, Eh. split; [intros _; by apply B|]. split; [intros _; by apply K|].
    intros Hr. apply R. destruct Hp as [->|[? ->]]; [|done]. by destruct m as [| |[|]|[|] []].
  - apply (called_move w w' h p); try done; [by rewrite Em| | |intros i Hi; by apply i_called].
    + intros ->. rewrite E. cbn in Ha. intros i Hi. destruct Hp as [->|[? ->]]; [|by destruct m].
      destruct m as [| |[|]|[|] []]; try done. by destruct i; [lia|].
    + intros Hz. pose proof (i_called _ H h ltac:(lia)) as C. unfold called in *. rewrite E in C. rewrite (moved w w' h p), (stays w w' h p Hh Hm 0%nat) by done.
      destruct Hp as [->|[? ->]]; [|done]. apply Nat.eqb_neq in Hz. rewrite Hz in Ha. by destruct m as [| |[|]|].
  - apply (bar_out w w' h p); try done; [by rewrite E; left|].
    destruct Hp as [->|[? ->]]; [|by left]. destruct m as [| |[|]|]; cbn; auto.
  - rewrite Er2, (i_rounds _ H), E by done. destruct Hp as [->|[? ->]]; [|by destruct m].
    destruct (h =? 0)%nat; destruct m as [| |[|]|[|] []]; done.
  - intros i _. by rewrite Er2.
Qed.

(** While hart 0 has woken nobody, nobody has spoken. *)
Lemma silent w l : stat w -> (forall i, i ∈ l <-> (0 < i < n)%nat /\ spoke (hart w i) = true) ->
  (forall i, (0 < i < n)%nat -> woken i (hart w 0) = false) -> l = [].
Proof.
  intros H Hl Hw. destruct l as [|i l]; [done|]. destruct (proj1 (Hl i)) as [Hi Hs]; [left|].
  pose proof (i_called _ H i Hi) as C. unfold called in C. rewrite (Hw i Hi) in C. destruct (hart w i) as [| | | | | | |m []| | | |]; done.
Qed.

(** When hart 0 has left the barrier everybody has been in it. *)
Lemma all_begun w h : stat w -> (h < n)%nat -> place_of (hart w 0) = None -> begun (hart w 0) = true ->
  opened w = 1%nat /\ begun (hart w h) = true.
Proof.
  intros H Hh Hp Hb. pose proof (b_round _ _ _ _ _ (i_bar _ H) 0 Hn) as R0. cbn beta in R0. rewrite Hp, (i_rounds _ H), Hb in R0 by done.
  cbn in R0. split; [done|]. pose proof (b_round _ _ _ _ _ (i_bar _ H) h Hh) as R. cbn beta in R. rewrite (i_rounds _ H), <-R0 in R by done.
  destruct (place_of (hart w h)) as [[]|] eqn:E; destruct (hart w h) as [| | | | | | | |[]| | |]; try done; cbn in *; try lia.
  all: by destruct m.
Qed.

Lemma holder w h rest : lock_ok w -> (h < n)%nat -> printing (hart w h) = Some rest ->
  (forall i, (i < n)%nat -> i <> h -> printing (hart w i) = None) /\ print_lock w = 1 /\ out w ++ rest = concat (map text (said w)).
Proof.
  intros [(_ & H & _)|(L & k & r & Hk & Hr & H & E)] Hh Hp; [by rewrite H in Hp|].
  destruct (Nat.eq_dec h k) as [->|Hne]; [|by rewrite H in Hp]. rewrite Hp in Hr. by injection Hr as ->.
Qed.

Lemma free_lock w : lock_ok w -> print_lock w = 0 -> (forall i, (i < n)%nat -> printing (hart w i) = None) /\ out w = concat (map text (said w)).
Proof. intros [(_ & H & E)|(L & _)] E0; [done|congruence]. Qed.

(** A hart takes the lock. *)
Lemma inv_lock w h m : inv w -> (h < n)%nat -> hart w h = Say m Lock -> print_lock w = 0 ->
  inv (at_ h (Say m (Emit (text m))) (begin_msg m (set_lock 1 w))).
Proof.
  intros (Hs & Hl & Hd) Hh E E0. set (w' := at_ _ _ _). destruct (free_lock w Hl E0) as [Hfree Hout].
  pose proof (i_allowed _ Hs h Hh) as Ha. rewrite E in Ha. unfold allowed in Ha. split; [|split].
  - eapply (stat_say w w' h m Lock); eauto.
  - right. split; [done|]. exists h, (text m). split; [done|]. split; [cbn; by rewrite upd_eq|]. split.
    + intros i Hi Hne. cbn. rewrite upd_ne by done. by apply Hfree.
    + cbn. by rewrite Hout, map_app, concat_app; cbn; rewrite app_nil_r.
  - destruct Hd as (l & Es & Hnd & Hsp). unfold said_ok. cbn [said w' at_ begin_msg set_lock hart].
    destruct (Nat.eqb_spec h 0) as [->|Hz].
    + rewrite E in Es. assert (forall i, (0 < i)%nat -> upd (hart w) 0 (Say m (Emit (text m))) i = hart w i) as Hu by (intros; apply upd_ne; lia).
      exists l. rewrite upd_eq, Es. split; [|split; [done|]].
      * assert ((forall i, (0 < i < n)%nat -> woken i (hart w 0) = false) -> l = []) as Hnil by (by apply silent).
        rewrite E in Hnil. destruct m as [|k|[|]|[|] []]; try done; cbn in Ha |- *.
        -- by rewrite Hnil, Ha.
        -- by rewrite Hnil.
        -- by rewrite app_nil_r.
      * intros i. rewrite Hsp. split; intros [Hi G]; [by rewrite Hu by lia|by rewrite Hu in G by lia].
    + destruct m as [| |i|]; try done. subst i. exists (l ++ [h]). rewrite upd_ne by done. split; [|split].
      * assert (last_said (hart w 0) = []) as El0; [|by rewrite Es, El0, !app_nil_r, map_app, <-app_assoc].
        destruct (last_said (hart w 0)) as [|x r] eqn:El; [done|].
        assert (place_of (hart w 0) = None /\ begun (hart w 0) = true) as [H1 H2] by (destruct (hart w 0) as [| | | | | | |[] []| | | |]; done).
        destruct (all_begun w h Hs Hh H1 H2) as [_ G]. by rewrite E in G.
      * apply NoDup_app. split; [done|]. split; [|apply NoDup_singleton]. intros i Hi ->%list_elem_of_singleton.
        apply Hsp in Hi as [_ G]. by rewrite E in G.
      * intros i. rewrite elem_of_app, list_elem_of_singleton, Hsp. destruct (Nat.eq_dec i h) as [->|Hne].
        -- rewrite upd_eq. split; [by split; [lia|]|auto].
        -- rewrite upd_ne by done. split; [by intros [|]|auto].
Qed.

Lemma set_lock_same w : print_lock w = 1 -> set_lock 1 w = w.
Proof. destruct w. cbn. by intros ->. Qed.

Lemma inv_say w h m q : inv w -> (h < n)%nat -> hart w h = Say m q -> inv (mprintf h m q w).
Proof.
  intros Hi Hh E. destruct (Hi) as (Hs & Hl & Hd). pose proof (i_allowed _ Hs h Hh) as Ha. rewrite E in Ha. unfold allowed in Ha.
  destruct q as [|[|c rest]|]; cbn [mprintf].
  - destruct (Z.eqb_spec (print_lock w) 0) as [E0|E0]; [by apply inv_lock|].
    destruct Hl as [(L & _)|(L & _)]; [done|]. by rewrite set_lock_same.
  - set (w' := at_ _ _ _). split; [eapply (stat_say w w' h m _ (Say m Unlock)); eauto|]. split.
    + destruct (holder w h []) as (Hn' & L & Eo); [done|done|by rewrite E|]. right. split; [done|]. exists h, [].
      split_and!; [done|cbn; by rewrite upd_eq| |done]. intros i Hi' Hne. cbn. rewrite upd_ne by done. by apply Hn'.
    + eapply (said_same w w' h (Say m Unlock)); [done|done|done|done|]. destruct (Nat.eqb_spec h 0) as [->|].
      * rewrite E. by destruct m as [| |[|]|].
      * by rewrite E.
  - set (w' := at_ _ _ _). split; [eapply (stat_say w w' h m _ (Say m (Emit rest))); eauto|]. split.
    + destruct (holder w h (c :: rest)) as (Hn' & L & Eo); [done|done|by rewrite E|]. right. split; [done|]. exists h, rest.
      split_and!; [done|cbn; by rewrite upd_eq| |cbn; by rewrite <-app_assoc]. intros i Hi' Hne. cbn. rewrite upd_ne by done. by apply Hn'.
    + eapply (said_same w w' h (Say m (Emit rest))); [done|done|done|done|]. destruct (Nat.eqb_spec h 0) as [->|].
      * rewrite E. by destruct m as [| |[|]|].
      * by rewrite E.
  - set (w' := at_ _ _ _). split; [eapply (stat_say w w' h m _ (after m)); eauto|]. split.
    + destruct (holder w h []) as (Hn' & L & Eo); [done|done|by rewrite E|]. left. rewrite app_nil_r in Eo. split_and!; [done| |done].
      intros i Hi'. cbn. destruct (Nat.eq_dec i h) as [->|Hne]; [|rewrite upd_ne by done; by apply Hn'].
      rewrite upd_eq. by destruct m as [| |[|]|].
    + eapply (said_same w w' h (after m)); [done|done|done|done|]. destruct (Nat.eqb_spec h 0) as [->|].
      * rewrite E. by destruct m as [| |[|]|[|] []].
      * rewrite E. by destruct m as [| |[|]|].
Qed.

(** What hart 0 knows of the shared words before its step it knows after it. *)
Ltac zero_words :=
  first [by left|by right|intros _; cbn; split_and!; intros; first [done|match goal with H : _ -> ?g |- ?g => by apply H end]].

(** A step of hart 0 outside [mprintf], the barrier and the wake-ups. *)
Lemma inv_zero w w' p : inv w -> hart w' = upd (hart w) 0 p -> allowed 0 p ->
  print_lock w' = print_lock w -> out w' = out w -> said w' = said w -> msip w' = msip w ->
  bars w' = bars w -> rounds w' = rounds w -> opened w' = opened w ->
  printing (hart w 0) = None -> printing p = None ->
  first_said p = first_said (hart w 0) -> last_said p = last_said (hart w 0) ->
  place_of (hart w 0) = None \/ hart w 0 = At Through -> place_of p = None \/ p = At Toggle -> begun p = begun (hart w 0) ->
  (forall i, (0 < i < n)%nat -> woken i p = woken i (hart w 0)) ->
  (stat w -> (p <> Release -> boot_sync w' <> 0) /\ (asked p = true -> n_harts w' = Z.of_nat n) /\ (registered p = true -> handler w' = true)) ->
  inv w'.
Proof.
  intros H Hm Ha El Eo Es Em B1 B2 B3 P1 P2 F1 F2 Q1 Q2 Hb Hw Hst. apply (inv_quiet w w' 0 p); try done.
  intros Hs. apply (stat_move w w' 0 p); try done; [by left|auto| | | |].
  - apply (called_move w w' 0 p); try done; [by rewrite Em|intros i Hi; by apply i_called].
  - by apply (bar_out w w' 0 p).
  - by rewrite B2, (i_rounds _ Hs), Hb.
  - intros i _. by rewrite B2.
Qed.

(** The same for another hart. *)
Lemma inv_other w w' h p : inv w -> (0 < h < n)%nat -> hart w' = upd (hart w) h p -> allowed h p ->
  print_lock w' = print_lock w -> out w' = out w -> said w' = said w -> (forall i, i <> h -> msip w' i = msip w i) ->
  boot_sync w' = boot_sync w -> n_harts w' = n_harts w -> handler w' = handler w ->
  bars w' = bars w -> rounds w' = rounds w -> opened w' = opened w ->
  printing (hart w h) = None -> printing p = None -> spoke p = spoke (hart w h) ->
  place_of (hart w h) = None \/ hart w h = At Through -> place_of p = None -> begun p = begun (hart w h) ->
  (stat w -> called w' h) -> inv w'.
Proof.
  intros H Hh Hm Ha El Eo Es Em Eb En Eh B1 B2 B3 P1 P2 Sp Q1 Q2 Hb Hc.
  assert ((h =? 0)%nat = false) as Hz by (apply Nat.eqb_neq; lia).
  apply (inv_quiet w w' h p); try done; [lia|by rewrite Hz|].
  intros Hs. apply (stat_move w w' h p); try done; [lia|by right|lia| | | |].
  - apply (called_move w w' h p); try done; [lia|lia|intros _; by apply Hc|intros i Hi; by apply i_called].
  - apply (bar_out w w' h p); try done; [lia|by left].
  - by rewrite B2, (i_rounds _ Hs), Hb by lia.
  - intros i _. by rewrite B2.
Qed.

Lemma inv_wake w i : inv w -> hart w 0 = Wake i -> inv (hart_step (Z.of_nat n) 0 w).
Proof.
  intros H E. destruct (H) as (Hs & _ & _). pose proof (i_allowed _ Hs 0 Hn) as Ha. rewrite E in Ha. cbn in Ha.
  pose proof (i_boot _ Hs) as Hb. pose proof (i_asked _ Hs) as Hk. pose proof (i_handler _ Hs) as Hr. rewrite E in Hb, Hk, Hr.
  unfold hart_step. rewrite E, Hk by done. destruct (Z.ltb_spec (Z.of_nat i) (Z.of_nat n)).
  - set (w' := at_ _ _ _). apply (inv_quiet w w' 0 (Wake (S i))); try done; [by rewrite E|by rewrite E|].
    intros _. apply (stat_move w w' 0 (Wake (S i))); try done; [cbn; lia|by left|intros _; auto| | |change (rounds w' 0) with (rounds w 0); by rewrite (i_rounds _ Hs), E].
    + intros k Hk'. pose proof (i_called _ Hs k Hk') as C. unfold called in *. change (hart w') with (upd (hart w) 0 (Wake (S i))). change (msip w') with (upd (msip w) i 1).
      rewrite (upd_ne _ 0 _ k), upd_eq by lia.
      rewrite E in C. assert (woken k (Wake (S i)) = (k =? i)%nat || woken k (Wake i)) as ->.
      { unfold woken. destruct (Nat.ltb_spec k (S i)), (Nat.eqb_spec k i), (Nat.ltb_spec k i); try done; lia. }
      unfold upd. destruct (Nat.eqb_spec k i); cbn [orb negb]; [|exact C]. by destruct (hart w k).
    + apply (bar_out w w' 0 (Wake (S i))); try done; [by rewrite E; left|by left].
  - assert (i = n) as -> by lia. apply (inv_zero w _ (At Toggle)); try done; rewrite ?E; try done; [by left|by right| |by auto].
    intros k Hk'. symmetry. apply Nat.ltb_lt. lia.
Qed.

(** A step in the barrier. *)
Lemma inv_bar w h p : inv w -> (h < n)%nat -> hart w h = At p -> p <> Through -> inv (hart_step (Z.of_nat n) h w).
Proof.
  intros H Hh E Hp. destruct (H) as (Hs & _ & _).
  assert (n_harts w = Z.of_nat n) as En.
  { apply (i_asked _ Hs). destruct (Nat.eq_dec h 0%nat) as [->|Hz]; [by rewrite E|].
    pose proof (i_called _ Hs h ltac:(lia)) as C. unfold called in C. rewrite E in C. by destruct (hart w 0). }
  pose proof (binv_move n Hn ltac:(unfold SOCT_MAX_HARTS in H64; lia) _ _ _ _ h p Hh (f_equal place_of E) (i_bar _ Hs)) as G.
  unfold hart_step. rewrite E, En. destruct (bar_step (Z.of_nat n) h p (bars w)) as [q b] eqn:Eb.
  assert (p <> Through -> begun (At p) = negb (bool_decide (p = Toggle)) /\ begun (At q) = true) as Hbeg.
  { intros _. destruct p; try done; cbn in Eb; injection Eb as <- _; try done; [by destruct (_ =? _)|by destruct (_ =? _)]. }
  set (w' := at_ h (At q) (set_bar h p b w)). assert (inv w') as Hw; [|destruct p, q; first [done|exact Hw]].
  apply (inv_quiet w w' h (At q)); try done; [by rewrite E|destruct (Nat.eqb_spec h 0) as [->|]; by rewrite E|].
  intros _. destruct (Hbeg Hp) as [B1 B2]. apply (stat_move w w' h (At q)); try done.
  - unfold allowed. by destruct (h =? 0)%nat.
  - by right.
  - intros ->. cbn. pose proof (i_boot _ Hs) as X. pose proof (i_handler _ Hs) as Y. rewrite E in X, Y. split; [intros _; by apply X|]. split; [done|intros _; by apply Y].
  - apply (called_move w w' h (At q)); try done; [intros -> i Hi; by rewrite E| |intros i Hi; by apply i_called].
    intros Hz. pose proof (i_called _ Hs h ltac:(lia)) as C. unfold called in *. rewrite E in C. cbn. by rewrite upd_eq, upd_ne by done.
  - change (rounds w') with (upd (rounds w) h (rounds w h + begins p)%nat). rewrite upd_eq, (i_rounds _ Hs), E, B1, B2 by done. by destruct p.
  - intros i Hne. cbn. by rewrite upd_ne.
Qed.

Lemma hello_step w h : inv w -> (h < n)%nat -> inv (hart_step (Z.of_nat n) h w).
Proof.
  intros H Hh. destruct (H) as (Hs & _ & _). pose proof (i_allowed _ Hs h Hh) as Ha. unfold allowed in Ha.
  pose proof (i_boot _ Hs) as Hb. pose proof (i_asked _ Hs) as Hk. pose proof (i_handler _ Hs) as Hr.
  assert (h <> 0%nat -> called w h) as Hc by (intros; apply i_called; [done|lia]).
  destruct (hart w h) as [| | | |i| | |m q|p|code| |] eqn:E; destruct (Nat.eqb_spec h 0) as [->|Hz]; try done;
    try (specialize (Hc Hz); unfold called in Hc; rewrite E in Hc).
  - unfold hart_step. rewrite E. destruct (Z.eqb_spec (boot_sync w) 0); [done|].
    apply (inv_other w _ h AwaitMsip); try done; rewrite ?E; try done; [lia|unfold allowed; by rewrite (proj2 (Nat.eqb_neq h 0) Hz)|by left|].
    intros _. unfold called. cbn. by rewrite upd_eq, upd_ne.
  - unfold hart_step. rewrite E. apply (inv_zero w _ Ask); try done; rewrite ?E; try done; zero_words.
  - unfold hart_step. rewrite E. destruct (Z.ltb_spec (Z.of_nat n) 0); [lia|]. rewrite E in Hb.
    assert (u64 (Z.of_nat n) = Z.of_nat n) as -> by (apply wrap_small; unfold fits, SOCT_MAX_HARTS in *; lia).
    apply (inv_zero w _ (Say (Detected (Z.of_nat n)) Lock)); try done; rewrite ?E; try done; zero_words.
  - unfold hart_step. rewrite E in *. apply (inv_zero w _ (Say (Hello 0) Lock)); try done; rewrite ?E; try done; zero_words.
  - by apply (inv_wake w i).
  - unfold hart_step. rewrite E. destruct (Z.eqb_spec (msip w h) 0) as [|Hm]; [done|].
    apply (inv_other w _ h ClearMsip); try done; rewrite ?E; try done; [lia|unfold allowed; by rewrite (proj2 (Nat.eqb_neq h 0) Hz)|by left|].
    intros _. unfold called. cbn. rewrite upd_eq, upd_ne by done. by destruct (woken h (hart w 0)).
  - unfold hart_step. rewrite E. apply (inv_other w _ h (Say (Hello h) Lock)); try done; rewrite ?E; try done;
      [lia|unfold allowed; by rewrite (proj2 (Nat.eqb_neq h 0) Hz)|intros i Hne; cbn; by apply upd_ne|by left|].
    intros _. unfold called. cbn. by rewrite upd_eq, upd_ne.
  - unfold hart_step. rewrite E. by apply inv_say.
  - unfold hart_step. rewrite E. by apply inv_say.
  - destruct (decide (p = Through)) as [->|Hp]; [|by apply (inv_bar w 0 p)]. unfold hart_step. rewrite E in *.
    apply (inv_zero w _ (Exit 0)); try done; rewrite ?E; try done; zero_words.
  - destruct (decide (p = Through)) as [->|Hp]; [|by apply (inv_bar w h p)]. unfold hart_step. rewrite E, (proj2 (Nat.eqb_neq h 0) Hz).
    apply (inv_other w _ h Park); try done; rewrite ?E; try done; [lia|unfold allowed; by rewrite (proj2 (Nat.eqb_neq h 0) Hz)|by right|].
    intros _. unfold called. cbn. by rewrite upd_eq, upd_ne.
  - destruct code; try done. unfold hart_step. rewrite E in *. rewrite Hr by done.
    apply (inv_zero w _ (Say (Exiting 0 0) Lock)); try done; rewrite ?E; try done; zero_words.
  - unfold hart_step. by rewrite E.
  - unfold hart_step. by rewrite E.
Qed.

Lemma hello_run hs : Forall (fun h => (h < n)%nat) hs -> forall w, inv w -> inv (run (Z.of_nat n) hs w).
Proof. induction 1 as [|h hs Hh _ IH]; intros w H; cbn; [done|]. by apply IH, hello_step. Qed.

(** ** What was said *)

Definition script (l : list nat) : list msg := Detected (Z.of_nat n) :: Hello 0 :: map Hello l ++ [Exiting 0 0].

Lemma in_script w : inv w -> exists l, Permutation l (seq 1 (n - 1)) /\ said w `prefix_of` script l /\ (hart w 0 = Gone -> said w = script l).
Proof.
  intros (Hs & _ & l & Es & Hnd & Hl). pose proof (i_allowed _ Hs 0 Hn) as Ha. cbn in Ha.
  assert (forall i, i ∈ l -> i ∈ seq 1 (n - 1)) as Hin by (intros i [Hi _]%Hl; apply elem_of_seq; lia).
  destruct (last_said (hart w 0)) as [|x r] eqn:El.
  - rewrite app_nil_r in Es.
    destruct (submseteq_Permutation l (seq 1 (n - 1))) as [l' Hp]; [by apply NoDup_submseteq|]. exists (l ++ l').
    split; [by symmetry|]. assert (hart w 0 <> Gone) as Hg by (intros G; by rewrite G in El). split; [|done]. rewrite Es. unfold script.
    assert (first_said (hart w 0) = [Detected (Z.of_nat n); Hello 0] \/ l = []) as [->| ->].
    { destruct (hart w 0) as [| | | |i| | |[| |[|]|] []| | | |] eqn:E; auto; right;
        (apply (silent w); [done|done|]; intros i Hi; by rewrite E). }
    * cbn. do 2 apply prefix_cons. rewrite map_app, <-app_assoc. by apply prefix_app_r.
    * rewrite app_nil_r. cbn. destruct (hart w 0) as [| | | |i| | |[| |[|]|] []| | | |]; cbn in *; subst;
        first [apply prefix_nil|do 2 apply prefix_cons; apply prefix_nil|apply prefix_cons, prefix_nil].
  - assert (place_of (hart w 0) = None /\ begun (hart w 0) = true /\ last_said (hart w 0) = [Exiting 0 0] /\
      first_said (hart w 0) = [Detected (Z.of_nat n); Hello 0]) as (H1 & H2 & H3 & H4).
    { destruct (hart w 0) as [| | | |i| | |[| |[|]|] []| | | |]; done. }
    exists l. rewrite <-El, H3, H4 in Es. split; [|by rewrite Es].
    apply NoDup_Permutation; [done|apply NoDup_seq|]. intros i. split; [apply Hin|]. intros Hi%elem_of_seq. apply Hl. split; [lia|].
    destruct (all_begun w i Hs ltac:(lia) H1 H2) as [_ G]. pose proof (i_allowed _ Hs i ltac:(lia)) as A. unfold allowed in A.
    destruct (Nat.eqb_spec i 0); [lia|]. by destruct (hart w i) as [| | | | | | |[] []| | | |].
Qed.

Lemma concat_prefix (a b : list msg) : a `prefix_of` b -> concat (map text a) `prefix_of` concat (map text b).
Proof. intros [c ->]. rewrite map_app, concat_app. by apply prefix_app_r. Qed.

Lemma on_terminal w : inv w -> exists l, Permutation l (seq 1 (n - 1)) /\ out w `prefix_of` transcript n l /\ (hart w 0 = Gone -> out w = transcript n l).
Proof.
  intros H. destruct (in_script w H) as (l & Hl & Hp & Hg). exists l. split; [done|]. unfold transcript. fold (script l).
  destruct H as (Hs & Hlock & _). split.
  - etrans; [|by apply concat_prefix, Hp]. destruct Hlock as [(_ & _ & ->)|(_ & h & rest & _ & _ & _ & <-)]; [done|]. by apply prefix_app_r.
  - intros G. rewrite <-Hg by done. destruct Hlock as [(_ & _ & E)|(_ & h & rest & Hh & Hr & _)]; [done|].
    destruct (all_begun w h Hs Hh) as [_ B]; [by rewrite G..|]. pose proof (i_allowed _ Hs h Hh) as A. unfold allowed in A.
    destruct (Nat.eqb_spec h 0) as [->|]; [by rewrite G in Hr|]. by destruct (hart w h) as [| | | | | | |[] []| | | |].
Qed.

(** ** Every fair schedule ends it *)

(** The steps a hart has left, not counting those in which it waits. *)
Definition say_left (m : msg) (q : say) : nat :=
  match q with Lock => length (text m) + 3 | Emit l => length l + 2 | Unlock => 1 end.
Definition bar_left (q : bpc) : nat := match q with Toggle => 5 | Arrive => 4 | Reset => 3 | Flip | Spin => 2 | Through => 1 end.
Definition exit_left : nat := S (say_left (Exiting 0 0) Lock).
Definition wake_left (i : nat) : nat := (S n - i) + (5 + exit_left).
Definition handler_left : nat := S (say_left (Hello 0) Lock + wake_left 1).
Definition ask_left : nat := S (say_left (Detected (Z.of_nat n)) Lock + handler_left).
Definition after_left (h : nat) (m : msg) : nat :=
  match m with Detected _ => handler_left | Hello _ => if (h =? 0)%nat then wake_left 1 else 5 | _ => 0 end.
Definition left_of (h : nat) (p : pc) : nat :=
  match p with
  | Release => S ask_left | Ask => ask_left | Handler => handler_left | Wake i => wake_left i
  | Held => 3 + (say_left (Hello h) Lock + 5) | AwaitMsip => 2 + (say_left (Hello h) Lock + 5) | ClearMsip => 1 + (say_left (Hello h) Lock + 5)
  | Say m q => say_left m q + after_left h m
  | At q => bar_left q + (if (h =? 0)%nat then exit_left else 0)
  | Exit _ => exit_left
  | Gone | Park => 0
  end.
Definition remaining (w : Harts.world) : nat := sum (fun h => left_of h (hart w h)) n.

(** A hart that only waits. *)
Definition stuck (w : Harts.world) (h : nat) : Prop :=
  match hart w h with
  | Held => boot_sync w = 0 | AwaitMsip => msip w h = 0 | Say _ Lock => print_lock w <> 0
  | At Spin => sense (bars w) <> local (bars w) h
  | Gone | Park => True | _ => False
  end.

Lemma remaining_move w w' h p : (h < n)%nat -> hart w' = upd (hart w) h p -> (left_of h p < left_of h (hart w h))%nat ->
  (remaining w' < remaining w)%nat.
Proof.
  intros Hh Hm Hlt. unfold remaining.
  pose proof (sum_change (fun i => left_of i (hart w i)) (fun i => left_of i (hart w' i)) h n Hh) as E. cbn beta in E.
  rewrite Hm, upd_eq in E. rewrite Hm. specialize (E ltac:(intros i Hi; by rewrite upd_ne)). lia.
Qed.

Lemma say_moves w h m q : inv w -> (h < n)%nat -> hart w h = Say m q ->
  (stuck w h /\ mprintf h m q w = w) \/ (remaining (mprintf h m q w) < remaining w)%nat.
Proof.
  intros (Hs & Hl & _) Hh E. unfold stuck. rewrite E. pose proof (i_allowed _ Hs h Hh) as A. rewrite E in A. unfold allowed in A.
  destruct q as [|[|c l]|]; cbn [mprintf].
  - destruct (Z.eqb_spec (print_lock w) 0) as [E0|E0].
    + right. eapply (remaining_move w _ h); [done|done|]. rewrite E. cbn. lia.
    + left. split; [done|]. destruct Hl as [(L & _)|(L & _)]; [done|]. by apply set_lock_same.
  - right. eapply (remaining_move w _ h); [done|done|]. rewrite E. cbn. lia.
  - right. eapply (remaining_move w _ h); [done|done|]. rewrite E. cbn. lia.
  - right. eapply (remaining_move w _ h); [done|done|]. rewrite E. cbn [left_of say_left].
    destruct (Nat.eqb_spec h 0) as [->|Hz]; destruct m as [|k|[|]|]; try done; cbn; rewrite ?(proj2 (Nat.eqb_neq h 0) Hz); cbn; lia.
Qed.

Lemma bar_moves w h p : (h < n)%nat -> hart w h = At p ->
  (stuck w h /\ hart_step (Z.of_nat n) h w = w) \/ (remaining (hart_step (Z.of_nat n) h w) < remaining w)%nat.
Proof.
  intros Hh E. unfold stuck, hart_step. rewrite E. destruct p; cbn [bar_step].
  - right. eapply (remaining_move w _ h); [done|done|]. rewrite E. cbn. lia.
  - right. destruct (_ =? _); (eapply (remaining_move w _ h); [done|done|]; rewrite E; cbn; lia).
  - right. eapply (remaining_move w _ h); [done|done|]. rewrite E. cbn. lia.
  - right. eapply (remaining_move w _ h); [done|done|]. rewrite E. cbn. lia.
  - destruct (Z.eqb_spec (sense (bars w)) (local (bars w) h)); [|by left].
    right. eapply (remaining_move w _ h); [done|done|]. rewrite E. cbn. lia.
  - right. eapply (remaining_move w _ h); [done|done|]. rewrite E. destruct (Nat.eqb_spec h 0) as [->|]; cbn; lia.
Qed.

(** A step of a hart that waits changes nothing; any other is progress. *)
Lemma step_moves w h : inv w -> (h < n)%nat ->
  (stuck w h /\ hart_step (Z.of_nat n) h w = w) \/ (remaining (hart_step (Z.of_nat n) h w) < remaining w)%nat.
Proof.
  intros H Hh. destruct (H) as (Hs & _ & _). pose proof (i_allowed _ Hs h Hh) as A. unfold allowed in A.
  assert (registered (hart w 0) = true -> handler w = true) as Hr by apply i_handler, Hs.
  assert (asked (hart w 0) = true -> n_harts w = Z.of_nat n) as Hk by apply i_asked, Hs.
  destruct (hart w h) as [| | | |i| | |m q|p|code| |] eqn:E; try (by apply bar_moves with p);
    try (pose proof (say_moves w h m q H Hh E) as G; unfold hart_step; rewrite E; exact G); unfold hart_step, stuck; rewrite E.
  - destruct (Z.eqb_spec (boot_sync w) 0); [by left|]. right. eapply (remaining_move w _ h); [done|done|]. rewrite E. cbn. lia.
  - right. eapply (remaining_move w _ h); [done|done|]. rewrite E. cbn. lia.
  - right. destruct (Z.ltb_spec (Z.of_nat n) 0); [lia|].
    assert (u64 (Z.of_nat n) = Z.of_nat n) as -> by (apply wrap_small; unfold fits, SOCT_MAX_HARTS in *; lia).
    eapply (remaining_move w _ h); [done|done|]. rewrite E. cbn [left_of after_left]. unfold ask_left. lia.
  - destruct (Nat.eqb_spec h 0) as [->|]; [|done].
    right. eapply (remaining_move w _ 0); [done|done|]. rewrite E. cbn [left_of after_left Nat.eqb]. unfold handler_left. lia.
  - destruct (Nat.eqb_spec h 0) as [->|]; [|done]. rewrite E in Hk. rewrite Hk by done. right.
    destruct (Z.ltb_spec (Z.of_nat i) (Z.of_nat n)); (eapply (remaining_move w _ 0); [done|done|]); rewrite E; cbn [left_of bar_left Nat.eqb]; unfold wake_left; lia.
  - destruct (Z.eqb_spec (msip w h) 0); [by left|]. right. eapply (remaining_move w _ h); [done|done|]. rewrite E. cbn. lia.
  - destruct (Nat.eqb_spec h 0) as [->|Hz]; [done|]. right. eapply (remaining_move w _ h); [done|done|]. rewrite E. cbn [left_of after_left].
    rewrite (proj2 (Nat.eqb_neq h 0) Hz). lia.
  - destruct (Nat.eqb_spec h 0) as [->|]; [|done]. rewrite E in Hr. rewrite Hr by done. destruct code; try done.
    right. eapply (remaining_move w _ 0); [done|done|]. rewrite E. cbn [left_of after_left]. unfold exit_left. lia.
  - by left.
  - by left.
Qed.

(** Where everybody waits, the program is over. *)
Lemma all_stuck w : inv w -> (forall h, (h < n)%nat -> stuck w h) -> finished n w.
Proof.
  intros (Hs & Hl & _) Hst.
  assert (forall h m q, (h < n)%nat -> hart w h <> Say m q) as Hsay.
  { intros h m q Hh E. pose proof (Hst h Hh) as S1. unfold stuck in S1. rewrite E in S1. destruct q; try done.
    destruct Hl as [(L & _)|(_ & k & rest & Hk & Hp & _)]; [done|]. specialize (Hst k Hk). unfold stuck in Hst.
    by destruct (hart w k) as [| | | | | | |? []| | | |]. }
  assert (forall h, (h < n)%nat -> hart w h = At Spin -> opened w = 0%nat /\ rounds w h = 1%nat) as Hspin.
  { intros h Hh E. specialize (Hst h Hh). unfold stuck in Hst. rewrite E in Hst. pose proof (i_rounds _ Hs h Hh) as R. rewrite E in R. cbn in R.
    pose proof (b_round _ _ _ _ _ (i_bar _ Hs) h Hh) as Q. cbn beta in Q. rewrite E, R in Q. cbn in Q. destruct Q as [Q|Q]; [split; [lia|done]|].
    rewrite (b_sense _ _ _ _ _ (i_bar _ Hs)), (b_local _ _ _ _ _ (i_bar _ Hs) h Hh), R, Q in Hst. done. }
  assert (hart w 0 = At Spin \/ hart w 0 = Gone) as H0.
  { pose proof (i_allowed _ Hs 0 Hn) as A. pose proof (Hst 0%nat Hn) as S0. unfold stuck in S0. cbn in A.
    destruct (hart w 0) as [| | | | | | |m q|[]| | |] eqn:E; try done; auto. by destruct (Hsay 0%nat m q Hn). }
  assert (forall h, (0 < h < n)%nat -> hart w h = At Spin \/ hart w h = Park) as Ho.
  { intros h Hh. pose proof (i_allowed _ Hs h ltac:(lia)) as A. pose proof (Hst h ltac:(lia)) as S1. unfold stuck in S1. unfold allowed in A.
    destruct (Nat.eqb_spec h 0); [lia|]. pose proof (i_called _ Hs h Hh) as C. pose proof (i_boot _ Hs) as B. unfold called in C.
    destruct (hart w h) as [| | | | | | |m q|[]| | |] eqn:E; try done; auto.
    - destruct B; [by destruct H0 as [->| ->]|done].
    - rewrite S1 in C. by destruct H0 as [G|G]; rewrite G in C.
    - by destruct (Hsay h m q ltac:(lia)). }
  destruct H0 as [H0|H0].
  - exfalso. destruct (Hspin 0%nat Hn H0) as [Ho1 _].
    assert (forall h, (h < n)%nat -> hart w h = At Spin) as Hall.
    { intros h Hh. destruct (Nat.eq_dec h 0%nat) as [->|]; [done|]. destruct (Ho h ltac:(lia)) as [|E]; [done|].
      pose proof (b_round _ _ _ _ _ (i_bar _ Hs) h Hh) as Q. cbn beta in Q. rewrite E, (i_rounds _ Hs), E, Ho1 in Q by done. done. }
    destruct (b_count _ _ _ _ _ (i_bar _ Hs)) as [_ Hc]; [intros h Hh; by rewrite Hall|].
    destruct (cnt_some _ _ Hc) as (h & Hh & W). destruct (Hspin h Hh (Hall h Hh)) as [O1 R1].
    unfold waiting in W. rewrite (Hall h Hh), O1, R1 in W. done.
  - split; [done|]. intros h Hh. destruct (Ho h Hh) as [E|]; [|done]. destruct (Hspin h ltac:(lia) E) as [O1 _].
    destruct (all_begun w 0 Hs Hn) as [O2 _]; [by rewrite H0..|]. lia.
Qed.

Lemma finished_stays w hs : finished n w -> Forall (fun h => (h < n)%nat) hs -> run (Z.of_nat n) hs w = w.
Proof.
  intros [H0 Ho]. induction 1 as [|h hs Hh _ IH]; [done|]. cbn. assert (hart_step (Z.of_nat n) h w = w) as ->; [|done].
  unfold hart_step. destruct (Nat.eq_dec h 0%nat) as [->|]; [by rewrite H0|]. by rewrite Ho by lia.
Qed.

Lemma run_moves hs : Forall (fun h => (h < n)%nat) hs -> forall w, inv w ->
  ((forall h, h ∈ hs -> stuck w h) /\ run (Z.of_nat n) hs w = w) \/ (remaining (run (Z.of_nat n) hs w) < remaining w)%nat.
Proof.
  induction 1 as [|h hs Hh _ IH]; intros w H; [left; split; [by intros h ?%not_elem_of_nil|done]|].
  change (run (Z.of_nat n) (h :: hs) w) with (run (Z.of_nat n) hs (hart_step (Z.of_nat n) h w)).
  destruct (IH _ (hello_step w h H Hh)) as [[Hst E]|Hlt]; destruct (step_moves w h H Hh) as [[S1 E1]|L1].
  - left. rewrite E, E1. rewrite E1 in Hst. split; [|done]. by intros i [->|Hi]%elem_of_cons; [|apply Hst].
  - right. rewrite E. lia.
  - right. rewrite E1 in *. lia.
  - right. lia.
Qed.

Definition fair (hs : list nat) : Prop := Forall (fun h => (h < n)%nat) hs /\ forall h, (h < n)%nat -> h ∈ hs.

Lemma rounds_end rs : Forall fair rs -> forall w, inv w -> (remaining w < length rs)%nat -> finished n (run (Z.of_nat n) (concat rs) w).
Proof.
  induction 1 as [|r rs [Hr Hall] Hrs IH]; intros w H Hlt; [cbn in Hlt; lia|]. cbn [concat length] in *. unfold run in *. rewrite foldl_app.
  assert (Forall (fun h => (h < n)%nat) (concat rs)) as Hc by (apply Forall_concat; eapply Forall_impl; [exact Hrs|by intros ? []]).
  destruct (run_moves r Hr w H) as [[Hst E]|L]; unfold run in *.
  - rewrite E. pose proof (all_stuck w H (fun h Hh => Hst h (Hall h Hh))) as F. pose proof (finished_stays w _ F Hc) as G. unfold run in G. by rewrite G.
  - apply IH; [by apply hello_run|lia].
Qed.
End hello.

(** C8. Under every schedule, for any number of harts the runtime supports: what is on the
    terminal is at any moment the beginning of one transcript, hart 0's count and greeting, then
    one whole greeting of every other hart, in some order, and last hart 0's farewell; no two
    lines are ever mixed, none is printed before hart 0 has woken its hart, and hart 0 does not
    leave before every hart has greeted: when it is gone the transcript is complete. *)
Theorem hello_prints n hs : (0 < n)%nat -> Z.of_nat n <= SOCT_MAX_HARTS -> Forall (fun h => (h < n)%nat) hs ->
  let w := run (Z.of_nat n) hs boot in
  exists l, Permutation l (seq 1 (n - 1)) /\ out w `prefix_of` transcript n l /\ (hart w 0 = Gone -> out w = transcript n l).
Proof. intros Hn H64 Hhs w. apply on_terminal; [done|]. by apply hello_run, hello_boot. Qed.

(** C9. The program ends: a schedule in which every hart comes up often enough, as many times as
    the harts have steps and in any order, leaves hart 0 out of the program, all others asleep,
    and the whole transcript printed.  No order of arrivals at the locks, at the interrupt or at
    the barrier makes a hart wait for ever. *)
Theorem hello_finishes n rs : (0 < n)%nat -> Z.of_nat n <= SOCT_MAX_HARTS -> Forall (fair n) rs -> (remaining n boot < length rs)%nat ->
  let w := run (Z.of_nat n) (concat rs) boot in
  finished n w /\ exists l, Permutation l (seq 1 (n - 1)) /\ out w = transcript n l.
Proof.
  intros Hn H64 Hrs Hlen w. assert (finished n w) as F by (by apply rounds_end; [..|apply hello_boot|]).
  split; [done|]. assert (inv n w) as H.
  { apply hello_run; [done|done| |by apply hello_boot]. apply Forall_concat. eapply Forall_impl; [exact Hrs|by intros ? []]. }
  destruct (on_terminal n Hn w H) as (l & Hl & _ & G). exists l. split; [done|]. by apply G, F.
Qed.

(** Three harts, the last one always first. *)
Definition ex_schedule : list (list nat) := replicate 310 [2; 0; 1]%nat.
Definition ex_hello : Harts.world := run 3 (concat ex_schedule) boot.

Example ex_text : out ex_hello = bytes "Detected 3 harts" ++ [10] ++ bytes "Hello from hart 0" ++ [10] ++
  bytes "Hello from hart 1" ++ [10] ++ bytes "Hello from hart 2" ++ [10] ++ bytes "Hart 0 exiting with code 0" ++ [10].
Proof. by vm_compute. Qed.

Lemma ex_fair : Forall (fair 3) ex_schedule.
Proof.
  apply Forall_replicate. split; [repeat constructor|]. intros h Hh. apply list_elem_of_In. destruct h as [|[|[|]]]; cbn; auto. lia.
Qed.

Lemma hello_prints_witness : exists l, Permutation l (seq 1 2) /\ out (run 3 (take 500 (concat ex_schedule)) boot) `prefix_of` transcript 3 l /\
  (hart (run 3 (take 500 (concat ex_schedule)) boot) 0 = Gone -> out (run 3 (take 500 (concat ex_schedule)) boot) = transcript 3 l).
Proof.
  refine (hello_prints 3 (take 500 (concat ex_schedule)) _ _ _); [lia|done|].
  apply Forall_take, Forall_concat. eapply Forall_impl; [exact ex_fair|by intros ? []].
Defined.

Lemma hello_finishes_witness : finished 3 ex_hello /\ exists l, Permutation l (seq 1 2) /\ out ex_hello = transcript 3 l.
Proof. refine (hello_finishes 3 ex_schedule _ _ ex_fair _); [lia|done|]. apply Nat.ltb_lt. vm_compute. reflexivity. Defined.

(** A device tree without a cpu: hart 0 says so and leaves, the others are never woken. *)
Example no_harts : let w := run (-1) (concat (replicate 60 [0; 1; 2]%nat)) boot in
  out w = text NoHarts /\ map (hart w) [0; 1; 2]%nat = [Gone; AwaitMsip; AwaitMsip].
Proof. by vm_compute. Qed.
