(* ===== verification/Syscall.v ===== *)
(** * System calls

    The handler table of soctglue/src/syscall-handler.c, which every POSIX call of the
    runtime goes through.  A handler is a program on the machine state [M]: it passes
    ([None]) or answers.  [set_errno] is the C library's errno.

    The refinement ([soct_syscall_dispatches]): whatever handlers were registered in whatever
    order, a call is answered by the first handler that takes it, the user's before the
    defaults and each group in the order of registration. *)
From S2P Require Import Prelude.

Definition SOCT_N_SYSCALL_HANDLERS : nat := 64.
Definition ENOSYS : Z := 38.

Section table.
Context {M : Type} (set_errno : Z -> M -> M).
Abbreviation run := (prog M).

(** The number and the seven arguments, to the response. *)
Definition handler : Type := Z -> list Z -> run (option Z).

Record table := Table { slots : list (option handler); user_count : nat; default_count : nat }.
Definition no_handlers : table := Table (replicate SOCT_N_SYSCALL_HANDLERS None) 0 0.

Definition soct_register_handler (h : handler) (t : table) : bool * table :=
  if decide (SOCT_N_SYSCALL_HANDLERS <= user_count t + default_count t)%nat then (false, t) else
  (true, Table (<[user_count t := Some h]> (slots t)) (S (user_count t)) (default_count t)).

Definition soct_register_default_handler (h : handler) (t : table) : bool * table :=
  if decide (SOCT_N_SYSCALL_HANDLERS <= user_count t + default_count t)%nat then (false, t) else
  (true, Table (<[(SOCT_N_SYSCALL_HANDLERS - 1 - default_count t)%nat := Some h]> (slots t)) (user_count t) (S (default_count t))).

(** A handler that took the call: its result, or -1 with errno set.  A result is a long. *)
Definition answer (r : Z) : run Z :=
  if r <? 0 then
    if r =? - 2 ^ 63 then undef else modify (set_errno (s32 (- r)));; mret (-1)
  else mret r.

(** The loop of one pass, over the table indices it visits; [None] when all of them passed.
    An unused slot holds a null function pointer. *)
Fixpoint pass (t : table) (idxs : list nat) (syscall : Z) (args : list Z) : run (option Z) :=
  match idxs with
  | [] => mret None
  | i :: idxs =>
      match slots t !! i with
      | Some (Some h) =>
          r ← h syscall args;
          match r with Some r => a ← answer r; mret (Some a) | None => pass t idxs syscall args end
      | _ => undef
      end
  end.

Definition soct_syscall (t : table) (syscall : Z) (args : list Z) : run Z :=
  r ← pass t (seq 0 (user_count t)) syscall args;
  match r with
  | Some r => mret r
  | None =>
      r ← pass t (map (fun i => SOCT_N_SYSCALL_HANDLERS - 1 - i)%nat (seq 0 (default_count t))) syscall args;
      match r with Some r => mret r | None => modify (set_errno ENOSYS);; mret (-1) end
  end.

(** ** What the table is for *)

(** One registration: a user's handler or a default one. *)
Inductive registration := User (h : handler) | Default (h : handler).
Definition register (t : table) (r : registration) : bool * table :=
  match r with User h => soct_register_handler h t | Default h => soct_register_default_handler h t end.
Definition register_all (rs : list registration) (t : table) : table := foldl (fun t r => (register t r).2) t rs.

Definition users (rs : list registration) : list handler := omap (fun r => match r with User h => Some h | _ => None end) rs.
Definition defaults (rs : list registration) : list handler := omap (fun r => match r with Default h => Some h | _ => None end) rs.

(** The first of the handlers that takes the call answers it. *)
Fixpoint dispatch (hs : list handler) (syscall : Z) (args : list Z) : run Z :=
  match hs with
  | [] => modify (set_errno ENOSYS);; mret (-1)
  | h :: hs => r ← h syscall args; match r with Some r => answer r | None => dispatch hs syscall args end
  end.

(** ** The table represents two lists *)

Definition rep (t : table) (us ds : list handler) : Prop :=
  length (slots t) = SOCT_N_SYSCALL_HANDLERS /\ user_count t = length us /\ default_count t = length ds /\
  (length us + length ds <= SOCT_N_SYSCALL_HANDLERS)%nat /\
  (forall i h, us !! i = Some h -> slots t !! i = Some (Some h)) /\
  (forall i h, ds !! i = Some h -> slots t !! (SOCT_N_SYSCALL_HANDLERS - 1 - i)%nat = Some (Some h)).

Lemma rep_empty : rep no_handlers [] [].
Proof. unfold rep. split_and!; try done. cbn. lia. Qed.

Lemma lookup_snoc {A} (l : list A) x i h : (l ++ [x]) !! i = Some h -> l !! i = Some h \/ (i = length l /\ h = x).
Proof. rewrite lookup_app_Some, list_lookup_singleton_Some. intros [H|(H1 & H2 & <-)]; [by left|]. right. split; [lia|done]. Qed.

Lemma rep_user t us ds h : rep t us ds -> (length us + length ds < SOCT_N_SYSCALL_HANDLERS)%nat ->
  exists t', soct_register_handler h t = (true, t') /\ rep t' (us ++ [h]) ds.
Proof.
  intros (L & U & D & N & Hu & Hd) H. unfold soct_register_handler. rewrite decide_False by lia. eexists. split; [done|].
  assert (forall i h, (us ++ ds) !! i = Some h -> (i < length us + length ds)%nat) as Hlt.
  { intros i x E. apply lookup_lt_Some in E. by rewrite length_app in E. }
  unfold rep. cbn [slots user_count default_count]. rewrite length_insert, length_app. cbn [length]. split_and!; [done|lia|done|lia| |].
  - intros i x [E|[-> ->]]%lookup_snoc; rewrite U.
    + rewrite list_lookup_insert_ne by (apply lookup_lt_Some in E; lia). by apply Hu.
    + apply list_lookup_insert_eq. lia.
  - intros i x E. rewrite list_lookup_insert_ne by (apply lookup_lt_Some in E; lia). by apply Hd.
Qed.

Lemma rep_default t us ds h : rep t us ds -> (length us + length ds < SOCT_N_SYSCALL_HANDLERS)%nat ->
  exists t', soct_register_default_handler h t = (true, t') /\ rep t' us (ds ++ [h]).
Proof.
  intros (L & U & D & N & Hu & Hd) H. unfold soct_register_default_handler. rewrite decide_False by lia. eexists. split; [done|].
  unfold rep. cbn [slots user_count default_count]. rewrite length_insert, length_app. cbn [length]. split_and!; [done|done|lia|lia| |].
  - intros i x E. rewrite list_lookup_insert_ne by (apply lookup_lt_Some in E; lia). by apply Hu.
  - intros i x [E|[-> ->]]%lookup_snoc; rewrite D.
    + rewrite list_lookup_insert_ne by (apply lookup_lt_Some in E; lia). by apply Hd.
    + apply list_lookup_insert_eq. lia.
Qed.

Lemma rep_full t us ds r : rep t us ds -> (length us + length ds = SOCT_N_SYSCALL_HANDLERS)%nat -> register t r = (false, t).
Proof.
  intros (L & U & D & _) H. destruct r; cbn; unfold soct_register_handler, soct_register_default_handler; by rewrite decide_True by lia.
Qed.

Lemma split_count rs : (length (users rs) + length (defaults rs) = length rs)%nat.
Proof. unfold users, defaults. induction rs as [|[] rs IH]; cbn in *; lia. Qed.

Lemma omap_snoc {A B} (f : A -> option B) l x : omap f (l ++ [x]) = omap f l ++ match f x with Some y => [y] | None => [] end.
Proof. rewrite omap_app. cbn. by destruct (f x). Qed.

(** One more registration. *)
Lemma rep_register t rs r : rep t (users (take SOCT_N_SYSCALL_HANDLERS rs)) (defaults (take SOCT_N_SYSCALL_HANDLERS rs)) ->
  (register t r).1 = bool_decide (length rs < SOCT_N_SYSCALL_HANDLERS)%nat /\
  let rs' := take SOCT_N_SYSCALL_HANDLERS (rs ++ [r]) in rep (register t r).2 (users rs') (defaults rs').
Proof.
  intros H. pose proof (split_count (take SOCT_N_SYSCALL_HANDLERS rs)) as Hc. rewrite length_take in Hc.
  destruct (decide (length rs < SOCT_N_SYSCALL_HANDLERS)%nat) as [Hlt|Hge].
  - rewrite bool_decide_true by done. rewrite !take_ge in * by (rewrite ?length_app; cbn; lia).
    unfold users, defaults in *. rewrite !omap_snoc. destruct r as [h|h]; cbn [register]; rewrite ?app_nil_r.
    + destruct (rep_user _ _ _ h H) as (t' & -> & H'); [lia|done].
    + destruct (rep_default _ _ _ h H) as (t' & -> & H'); [lia|done].
  - rewrite bool_decide_false by done. rewrite take_app_le by lia. rewrite (rep_full t _ _ r H) by lia. done.
Qed.

Lemma rep_all rs : let rs' := take SOCT_N_SYSCALL_HANDLERS rs in rep (register_all rs no_handlers) (users rs') (defaults rs').
Proof.
  induction rs as [|r rs IH] using rev_ind; [apply rep_empty|]. cbn zeta in *. unfold register_all in *. rewrite foldl_app.
  by apply rep_register.
Qed.

(** A pass over the slots of [hs], then the rest. *)
Lemma pass_dispatch t num args hs more : forall idxs s, Forall2 (fun i h => slots t !! i = Some (Some h)) idxs hs ->
  dispatch (hs ++ more) num args s =
  (r ← pass t idxs num args; match r with Some r => mret r | None => dispatch more num args end) s.
Proof.
  induction hs as [|h hs IH]; intros idxs s H; inversion H as [|i ? idxs' ? Hi H']; subst; [done|].
  cbn [app dispatch pass]. unfold handler in *. rewrite Hi. unfold mbind, prog_bind. destruct (h num args s) as [[[r|] s1]| |]; [|by apply IH|done..].
  by destruct (answer r s1) as [[a s2]| |].
Qed.

Lemma rep_dispatch t us ds num args s : rep t us ds -> soct_syscall t num args s = dispatch (us ++ ds) num args s.
Proof.
  intros (L & U & D & N & Hu & Hd). rewrite (pass_dispatch t num args _ _ (seq 0 (user_count t))).
  - unfold soct_syscall, mbind, prog_bind. destruct (pass _ (seq 0 _) _ _ _) as [[[r|] s1]| |]; [done| |done..].
    rewrite <-(app_nil_r ds). by rewrite (pass_dispatch t num args _ _ (map (fun i => SOCT_N_SYSCALL_HANDLERS - 1 - i)%nat (seq 0 (default_count t))))
      by (rewrite D; apply Forall2_fmap_l, Forall2_same_length_lookup; rewrite length_seq; split; [done|];
          intros i x y (-> & _)%lookup_seq E; by apply Hd).
  - rewrite U. apply Forall2_same_length_lookup. rewrite length_seq. split; [done|]. intros i x y (-> & _)%lookup_seq E. by apply Hu.
Qed.

(** The handler table does what its two lists say, for every sequence of registrations
    (user and default ones mixed, any number of them): a registration is accepted exactly while
    fewer than 64 came before it, and a system call is answered by the first accepted user
    handler, in the order of registration, that does not pass, otherwise by the first such
    default handler, a negative result becoming -1 with errno; if all pass it is -1 with
    ENOSYS.  The call runs no handler after the one that answered. *)
Theorem soct_syscall_dispatches rs num args s :
  let t := register_all rs no_handlers in
  let kept := take SOCT_N_SYSCALL_HANDLERS rs in
  (forall r, (register t r).1 = bool_decide (length rs < SOCT_N_SYSCALL_HANDLERS)%nat) /\
  soct_syscall t num args s = dispatch (users kept ++ defaults kept) num args s.
Proof.
  intros t kept. pose proof (rep_all rs) as H. split; [intros r; by apply rep_register|by apply rep_dispatch].
Qed.
End table.
Arguments table : clear implicits.
Arguments handler : clear implicits.
Arguments registration : clear implicits.
