(* ===== verification/Heap.v ===== *)
(** * The bare-metal heap and the start-up arenas

    [Sbrk] models [shared/soctglue/src/posix/sbrk.c]: the program break that starts
    in the initial region below the stacks and jumps over them.  [Arena] models the
    bump allocator the device-tree parser is given and the set-up log, both in
    [shared/soctglue/src/soctglue.c].

    Addresses are 64-bit values.  The linker symbols [_end], [__stack_start] and
    [__stack_size] are the fields of [layout]; what [soct_n_harts()] and
    [soct_ram_end()] answer at the time of a call is the argument [env]. *)
From S2P Require Import Prelude.

Module Sbrk.

(** The linker symbols of soct.ld. *)
Record layout := Layout { end_ : Z; stack_start : Z; stack_size : Z }.

(** The answers of [soct_n_harts()] and [soct_ram_end()] (0: no DTB). *)
Record env := Env { n_harts : Z; ram_end : Z }.

Section sbrk.
Context (L : layout).

Definition stacks_end (e : env) : Z :=
  let harts := if n_harts e <? 1 then 1 else n_harts e in
  u64 (stack_start L + harts * stack_size L).

Definition soct_heap_remaining (e : env) (curbrk : Z) : Z :=
  if curbrk <=? stack_start L then
    let rem := stack_start L - curbrk in
    if negb (ram_end e =? 0) then
      let ext_start := stacks_end e in
      if ext_start <? ram_end e then u64 (rem + (ram_end e - ext_start)) else rem
    else rem
  else if ram_end e >? curbrk then ram_end e - curbrk else 0.

(** [_sbrk]: the old break of the granted block ([None]: -1 with ENOMEM) and the
    new value of [curbrk]. *)
Definition sbrk (e : env) (curbrk incr : Z) : option Z * Z :=
  let oldbrk := curbrk in
  let newbrk := u64 (oldbrk + incr) in
  if incr <? 0 then (None, curbrk)
  else if newbrk <? oldbrk then (None, curbrk)
  else
    let crossing := (oldbrk <=? stack_start L) && (newbrk >? stack_start L) in
    if crossing && (ram_end e =? 0) then (None, curbrk)
    else
      let oldbrk := if crossing then stacks_end e else oldbrk in
      let newbrk := if crossing then u64 (oldbrk + incr) else newbrk in
      if (oldbrk >? stack_start L)
         && ((ram_end e =? 0) || (newbrk <? oldbrk) || (newbrk >? ram_end e)
             || (newbrk <? stacks_end e))
      then (None, curbrk)
      else (Some oldbrk, newbrk).

(** A sequence of calls, each with the environment of its moment: the blocks
    granted, latest first, and the final break. *)
Fixpoint sbrk_run (calls : list (env * Z)) (curbrk : Z) (blocks : list (Z * Z))
  : list (Z * Z) * Z :=
  match calls with
  | [] => (blocks, curbrk)
  | (e, incr) :: calls =>
      match sbrk e curbrk incr with
      | (Some p, b) => sbrk_run calls b ((p, incr) :: blocks)
      | (None, b) => sbrk_run calls b blocks
      end
  end.

(** Bytes granted in total. *)
Definition blocks_total (blocks : list (Z * Z)) : Z := foldr (fun pn a => pn.2 + a) 0 blocks.

(** ** What the linker script and the device tree guarantee *)

Section safety.
Context (harts ram : Z).

(** [harts] stacks of a positive size lie between the program and the end of RAM. *)
Definition layout_ok : Prop :=
  0 <= end_ L /\ end_ L <= stack_start L /\ 0 < stack_size L /\ 1 <= harts /\
  stack_start L + harts * stack_size L < 2 ^ 64 /\ fits 64 ram.

(** Before the DTB is parsed [soct_ram_end()] is 0 and the hart count may be
    anything; afterwards both have their final value. *)
Definition env_ok (e : env) : Prop := ram_end e = 0 \/ (n_harts e = harts /\ ram_end e = ram).

Definition top_of_stacks : Z := stack_start L + harts * stack_size L.

(** The two regions sbrk may hand out. *)
Definition in_region (p n : Z) : Prop :=
  (end_ L <= p /\ p + n <= stack_start L) \/ (top_of_stacks <= p /\ p + n <= ram).

Definition brk_ok (b : Z) : Prop :=
  (end_ L <= b <= stack_start L) \/ (top_of_stacks <= b <= ram).

Hypothesis Hlay : layout_ok.

Lemma stacks_end_eq e : n_harts e = harts -> stacks_end e = top_of_stacks.
Proof.
  intros He. unfold stacks_end, top_of_stacks. rewrite He. unfold layout_ok in Hlay.
  destruct (Z.ltb_spec harts 1); [lia|]. apply wrap_small. unfold fits. nia.
Qed.

Lemma top_above : stack_start L < top_of_stacks < 2 ^ 64.
Proof. unfold top_of_stacks, layout_ok in *. nia. Qed.

(** One call: either it is refused and nothing changes, or the block starts at or
    above the old break, lies in one of the two regions, and the break is its end. *)
Lemma sbrk_step e b incr :
  env_ok e -> brk_ok b -> incr < 2 ^ 63 ->
  match sbrk e b incr with
  | (None, b') => b' = b
  | (Some p, b') => 0 <= incr /\ b <= p /\ b' = p + incr /\ in_region p incr
  end.
Proof.
  intros He Hb Hi. pose proof top_above as Ht. pose proof (stacks_end_eq e) as Hse.
  unfold env_ok, brk_ok, in_region, layout_ok, fits, sbrk in *.
  destruct (Z.ltb_spec incr 0); [done|].
  destruct (wrap_add_cases 64 b incr) as [[? Hn]|[? Hn]]; [lia..| |]; rewrite Hn;
    zcase; try done; try lia.
  destruct (Z.leb_spec b (stack_start L)), (Z.gtb_spec (b + incr) (stack_start L));
    cbn [andb]; try lia.
  - destruct (Z.eqb_spec (ram_end e) 0); [done|].
    destruct He as [?|[Hh Hr]]; [lia|]. rewrite Hse, Hr by done. cbn [andb].
    destruct (wrap_add_cases 64 top_of_stacks incr) as [[? Hn2]|[? Hn2]]; [lia..| |];
      rewrite Hn2; zcases; done || lia.
  - zcases; cbn; lia.
  - destruct (Z.eqb_spec (ram_end e) 0); [by zcases|].
    destruct He as [?|[Hh Hr]]; [lia|]. rewrite Hse, Hr by done.
    zcases; done || (cbn; lia).
Qed.

Lemma in_region_brk p n : 0 <= n -> in_region p n -> brk_ok (p + n).
Proof. pose proof top_above. unfold in_region, brk_ok, layout_ok in *. lia. Qed.

(** Blocks are recorded latest first: each starts at or above the end of all the
    earlier ones. *)
Definition above_all (lo : Z) (blocks : list (Z * Z)) : Prop :=
  Forall (fun pn => pn.1 + pn.2 <= lo) blocks.

Inductive stacked : list (Z * Z) -> Prop :=
  | stacked_nil : stacked []
  | stacked_cons p n blocks : 0 <= n -> above_all p blocks -> stacked blocks -> stacked ((p, n) :: blocks).

Lemma above_all_le lo hi blocks : lo <= hi -> above_all lo blocks -> above_all hi blocks.
Proof. intros ? H. eapply Forall_impl; [exact H|]. intros [??]; cbn. lia. Qed.

Lemma sbrk_run_inv calls : forall b blocks blocks' b',
  Forall (fun c => env_ok c.1 /\ c.2 < 2 ^ 63) calls ->
  brk_ok b -> above_all b blocks -> stacked blocks ->
  Forall (fun pn => in_region pn.1 pn.2) blocks ->
  sbrk_run calls b blocks = (blocks', b') ->
  brk_ok b' /\ stacked blocks' /\ Forall (fun pn => in_region pn.1 pn.2) blocks'.
Proof.
  induction calls as [|[e incr] calls IH]; cbn [sbrk_run]; intros b blocks blocks' b' Hc Hb Ha Hs Hr Hrun.
  - by simplify_eq.
  - apply Forall_cons_1 in Hc as [[He Hi] Hc]. pose proof (sbrk_step e b incr He Hb Hi) as Hstep.
    destruct (sbrk e b incr) as [[p|] b1].
    + destruct Hstep as (? & ? & -> & Hreg). eapply IH; [done|..|exact Hrun].
      * by apply in_region_brk.
      * apply Forall_cons_2; [cbn; lia|]. eapply above_all_le; [|exact Ha]. lia.
      * constructor; [done| |done]. by eapply above_all_le; [|exact Ha].
      * by apply Forall_cons_2.
    + subst b1. by eapply IH.
Qed.

(** ** The advertised budget *)

(** Once the DTB is known, [soct_heap_remaining] is what is left of both regions. *)
Lemma remaining_eq e b :
  n_harts e = harts -> ram_end e = ram -> top_of_stacks <= ram -> brk_ok b ->
  soct_heap_remaining e b =
    if b <=? stack_start L then (stack_start L - b) + (ram - top_of_stacks) else ram - b.
Proof.
  intros Hh Hr Hle Hb. pose proof top_above. unfold soct_heap_remaining, brk_ok, layout_ok, fits in *.
  rewrite stacks_end_eq, Hr by done.
  zcases; cbn; try lia; apply wrap_small; unfold fits; lia.
Qed.

Lemma sbrk_conserves e b incr p b' :
  n_harts e = harts -> ram_end e = ram -> top_of_stacks <= ram -> brk_ok b -> incr < 2 ^ 63 ->
  sbrk e b incr = (Some p, b') ->
  0 <= incr /\ brk_ok b' /\ incr + soct_heap_remaining e b' <= soct_heap_remaining e b.
Proof.
  intros Hh Hr Hle Hb Hi Hs. pose proof top_above.
  pose proof (sbrk_step e b incr (or_intror (conj Hh Hr)) Hb Hi) as Hstep. rewrite Hs in Hstep.
  destruct Hstep as (? & ? & -> & Hreg). pose proof (in_region_brk p incr).
  split; [done|]. split; [auto|]. rewrite !remaining_eq by auto.
  unfold in_region, brk_ok in *. zcases.
Qed.

Lemma sbrk_run_budget e calls : forall b blocks blocks' b',
  n_harts e = harts -> ram_end e = ram -> top_of_stacks <= ram -> brk_ok b ->
  Forall (fun c => c.1 = e /\ c.2 < 2 ^ 63) calls ->
  sbrk_run calls b blocks = (blocks', b') ->
  blocks_total blocks' + soct_heap_remaining e b' <= blocks_total blocks + soct_heap_remaining e b.
Proof.
  induction calls as [|[e' incr] calls IH]; cbn [sbrk_run]; intros b blocks blocks' b' Hh Hr Hle Hb Hc Hrun.
  - simplify_eq. lia.
  - apply Forall_cons_1 in Hc as [[He Hi] Hc]. cbn in He, Hi. subst e'.
    pose proof (sbrk_step e b incr (or_intror (conj Hh Hr)) Hb Hi) as Hstep.
    destruct (sbrk e b incr) as [[p|] b1] eqn:Hs.
    + destruct (sbrk_conserves e b incr p b1) as (? & ? & ?); try done.
      eapply IH in Hrun; try done. unfold blocks_total in *. cbn in Hrun. lia.
    + subst b1. by eapply IH.
Qed.
End safety.

(** C29. Whatever sequence of [_sbrk] calls the allocator makes - before or after the
    device tree is known, with any increments - every block it is granted lies in the
    initial region below the stacks or above all of them and below the end of RAM,
    no two granted blocks overlap, and each starts at or above the end of every
    earlier one. *)
Theorem sbrk_run_safe harts ram calls blocks b' :
  layout_ok harts ram ->
  Forall (fun c => env_ok harts ram c.1 /\ c.2 < 2 ^ 63) calls ->
  sbrk_run calls (end_ L) [] = (blocks, b') ->
  stacked blocks /\ Forall (fun pn => in_region harts ram pn.1 pn.2) blocks.
Proof.
  intros Hl Hc Hrun.
  assert (brk_ok harts ram (end_ L)) by (left; unfold layout_ok in Hl; lia).
  by destruct (sbrk_run_inv harts ram Hl calls (end_ L) [] blocks b')
    as (? & ? & ?); try done; constructor.
Qed.

(** Once the device tree is known the number [soct_heap_remaining] advertises is
    a budget: the blocks of any later sequence of calls together never exceed it, and
    what is left afterwards accounts for them. *)
Theorem sbrk_within_budget harts ram e b calls blocks b' :
  layout_ok harts ram -> top_of_stacks harts <= ram ->
  n_harts e = harts -> ram_end e = ram -> brk_ok harts ram b ->
  Forall (fun c => c.1 = e /\ c.2 < 2 ^ 63) calls ->
  sbrk_run calls b [] = (blocks, b') ->
  blocks_total blocks + soct_heap_remaining e b' <= soct_heap_remaining e b.
Proof.
  intros Hl Hle Hh Hr Hb Hc Hrun.
  pose proof (sbrk_run_budget harts ram Hl e calls b [] blocks b' Hh Hr Hle Hb Hc Hrun) as H.
  unfold blocks_total in *. cbn [foldr] in H. lia.
Qed.
End sbrk.

Definition demo_layout : layout := Layout 0x80010000 0x80020000 0x1000.
Definition demo_env0 : env := Env 1 0.
Definition demo_env : env := Env 2 0x80100000.
Definition demo_calls : list (env * Z) :=
  [(demo_env0, 0x8000); (demo_env0, 0x20000); (demo_env, 0x10000); (demo_env, -16); (demo_env, 0x2000)].

Lemma sbrk_run_safe_witness :
  sbrk_run demo_layout demo_calls (end_ demo_layout) []
    = ([(0x80032000, 0x2000); (0x80022000, 0x10000); (0x80010000, 0x8000)], 0x80034000) /\
  stacked [(0x80032000, 0x2000); (0x80022000, 0x10000); (0x80010000, 0x8000)].
Proof.
  assert (H : sbrk_run demo_layout demo_calls (end_ demo_layout) []
    = ([(0x80032000, 0x2000); (0x80022000, 0x10000); (0x80010000, 0x8000)], 0x80034000))
    by (vm_compute; reflexivity).
  split; [exact H|].
  refine (proj1 (sbrk_run_safe demo_layout 2 0x80100000 demo_calls _ _ _ _ H)).
  - unfold layout_ok, fits, demo_layout; cbn; lia.
  - repeat constructor; unfold env_ok; cbn; lia.
Defined.

Lemma sbrk_within_budget_witness :
  blocks_total [(0x80032000, 0x2000); (0x80022000, 0x10000)] + 0xcc000
    <= soct_heap_remaining demo_layout demo_env 0x80018000.
Proof.
  refine (sbrk_within_budget demo_layout 2 0x80100000 demo_env 0x80018000
    [(demo_env, 0x10000); (demo_env, 0x2000)] _ 0x80034000 _ _ _ _ _ _ _).
  - unfold layout_ok, fits, demo_layout; cbn; lia.
  - unfold top_of_stacks, demo_layout; cbn; lia.
  - reflexivity.
  - reflexivity.
  - left. cbn. lia.
  - repeat constructor; cbn; lia.
  - vm_compute. reflexivity.
Defined.
End Sbrk.

(** ** [dtb_malloc], [dtb_free] and the set-up log of soctglue.c *)
Module Arena.

Definition SOCT_DTB_MAX_SIZE : Z := 0x10000.
Definition SOCT_N_SETUP_MSGS : nat := 16.

(** [s_dtb_tree] (by offset) and [s_dtb_parsed_len]. *)
Record arena := MkArena { tree : Z -> Z; parsed_len : Z }.

(** The returned pointer is an offset into [s_dtb_tree]; the sum is computed in
    [size_t]. *)
Definition dtb_malloc (a : arena) (length : Z) : option Z * arena :=
  if u64 (parsed_len a + length) >? SOCT_DTB_MAX_SIZE then (None, a)
  else (Some (parsed_len a), MkArena (tree a) (u64 (parsed_len a + length))).

Definition dtb_free (a : arena) (ptr length : Z) : arena :=
  MkArena (fun i => if (ptr <=? i) && (i <? ptr + length) then 0 else tree a i)
          (u64 (parsed_len a - length)).

(** [soct_add_setup_msg]: the last slot is kept for the overflow message. *)
Definition soct_add_setup_msg {A} (overflow : A) (log : list A) (msg : A) : list A :=
  if (SOCT_N_SETUP_MSGS <=? length log)%nat then log
  else if (length log =? SOCT_N_SETUP_MSGS - 1)%nat then log ++ [overflow]
  else log ++ [msg].

(** A request no larger than the address space minus the arena - the largest any
    32-bit FDT header can cause - is granted inside the arena or refused. *)
Lemma dtb_malloc_bounds a n :
  0 <= parsed_len a <= SOCT_DTB_MAX_SIZE -> 0 <= n <= 2 ^ 64 - 1 - SOCT_DTB_MAX_SIZE ->
  match dtb_malloc a n with
  | (Some p, a') => p = parsed_len a /\ p + n = parsed_len a' /\ parsed_len a' <= SOCT_DTB_MAX_SIZE
  | (None, a') => a' = a /\ SOCT_DTB_MAX_SIZE < parsed_len a + n
  end.
Proof.
  unfold dtb_malloc, SOCT_DTB_MAX_SIZE. intros Hp Hn.
  assert (u64 (parsed_len a + n) = parsed_len a + n) as -> by (apply wrap_small; unfold fits; lia).
  zcases; [by split; [|lia]|]. split_and!; cbn; lia.
Qed.

(** The set-up log never holds more than [SOCT_N_SETUP_MSGS] entries; the first
    fifteen messages are kept in order, and once one more arrives the last slot holds
    the overflow notice instead of it. *)
Theorem setup_log_contents {A} (overflow : A) msgs :
  foldl (soct_add_setup_msg overflow) [] msgs =
    if (length msgs <=? 15)%nat then msgs else take 15 msgs ++ [overflow].
Proof.
  induction msgs as [|m msgs IH] using rev_ind; [done|].
  rewrite foldl_snoc, IH, length_app. cbn [length].
  unfold soct_add_setup_msg, SOCT_N_SETUP_MSGS. cbn [Nat.sub].
  destruct (Nat.leb_spec (length msgs) 15), (Nat.leb_spec (length msgs + 1) 15);
    try lia.
  - destruct (Nat.leb_spec 16 (length msgs)), (Nat.eqb_spec (length msgs) 15); try lia. done.
  - destruct (Nat.leb_spec 16 (length msgs)), (Nat.eqb_spec (length msgs) 15); try lia.
    rewrite take_app_le, take_ge by lia. done.
  - rewrite length_app, length_take. cbn [length]. rewrite Nat.min_l by lia. cbn.
    by rewrite take_app_le by lia.
Qed.
End Arena.
