(* ===== verification/MemTest.v ===== *)
(** * The DRAM test (binaries/baremetal/mem-test/main.c)

    The pattern generator, the computation of the testable windows, and the suites as
    passes over a memory whose address decoding is a parameter [cell]: two CPU
    addresses with the same [cell] hit the same DRAM word.  RV64: [word_t] has 64
    bits and [WORD_BYTES] is 8.  Progress printing, the clock and the cache scrub
    (which only reads) leave no trace in the model. *)
From S2P Require Import Prelude.

Definition LINE_BYTES : Z := 64.
Definition WORD_BYTES : Z := 8.
Definition WIN_BYTES : Z := 4 .<< 20.
Definition SEED_A : Z := 0x9E3779B97F4A7C15.
Definition SEED_PROBE : Z := SEED_A .^ 0xCAFE.
Definition SEED_LINE : Z := SEED_A .^ 0xED6E.

Lemma WIN_BYTES_eq : WIN_BYTES = 4194304.
Proof. reflexivity. Qed.

(** ** The pattern *)
Module Pattern.

Definition mix64 (x : Z) : Z :=
  let x := x .^ (x .>> 33) in
  let x := u64 (x * 0xff51afd7ed558ccd) in
  let x := x .^ (x .>> 33) in
  let x := u64 (x * 0xc4ceb9fe1a85ec53) in
  x .^ (x .>> 33).

Definition pat (addr seed : Z) : Z := u64 (mix64 (addr .^ seed)).

(** The inverse of the finaliser: the two multipliers are odd. *)
Definition unmix64 (x : Z) : Z :=
  let x := x .^ (x .>> 33) in
  let x := u64 (x * 0x9cb4b2f8129337db) in
  let x := x .^ (x .>> 33) in
  let x := u64 (x * 0x4f74430c22a54005) in
  x .^ (x .>> 33).

Lemma xorshift_involutive x : fits 64 x -> (x .^ (x .>> 33)) .^ ((x .^ (x .>> 33)) .>> 33) = x.
Proof.
  intros Hx. apply Z.bits_inj'. intros i Hi.
  rewrite Z.lxor_spec, Z.shiftr_spec, !Z.lxor_spec, !Z.shiftr_spec by lia.
  rewrite (fits_testbit 64 x (i + 33 + 33)) by (done || lia).
  destruct (Z.testbit x i), (Z.testbit x (i + 33)); done.
Qed.

Lemma xorshift_fits x : fits 64 x -> fits 64 (x .^ (x .>> 33)).
Proof. auto with soct. Qed.

Lemma mul_inverse x c d : fits 64 x -> u64 (c * d) = 1 -> u64 (u64 (x * c) * d) = x.
Proof.
  intros Hx Hcd. rewrite wrap_mul_l, <-Z.mul_assoc, <-wrap_mul_r, Hcd, Z.mul_1_r.
  by apply wrap_small.
Qed.

Lemma mix64_fits x : fits 64 x -> fits 64 (mix64 x).
Proof. intros. unfold mix64. apply xorshift_fits, wrap_fits. lia. Qed.

Lemma unmix64_mix64 x : fits 64 x -> unmix64 (mix64 x) = x.
Proof.
  intros Hx. unfold unmix64, mix64.
  rewrite xorshift_involutive by (apply wrap_fits; lia).
  rewrite mul_inverse; [|by apply xorshift_fits, wrap_fits|by vm_compute].
  rewrite xorshift_involutive by (apply wrap_fits; lia).
  rewrite mul_inverse; [|by apply xorshift_fits|by vm_compute].
  by apply xorshift_involutive.
Qed.

Lemma pat_inj a b seed :
  fits 64 a -> fits 64 b -> fits 64 seed -> pat a seed = pat b seed -> a = b.
Proof.
  intros Ha Hb Hs. unfold pat.
  rewrite !wrap_small by (apply mix64_fits, fits_lxor; done || lia).
  intros H. apply (f_equal unmix64) in H.
  rewrite !unmix64_mix64 in H by (apply fits_lxor; done || lia).
  apply (f_equal (fun z => z .^ seed)) in H.
  by rewrite !Z.lxor_assoc, Z.lxor_nilpotent, !Z.lxor_0_r in H.
Qed.
End Pattern.
Import Pattern.

(** ** RAM ranges: sorting, merging, testable windows *)
Module Ranges.

(** [ram_range_t]. *)
Record ram_range_t := Range { base : Z; size : Z }.

#[global] Instance ram_range_inhabited : Inhabited ram_range_t := populate (Range 0 0).

(** The inner loop of the insertion sort on the array [out]: shift larger entries up
    from position [j] and store [key] in the gap. *)
Fixpoint shift_in (out : list ram_range_t) (key : ram_range_t) (j : nat) : list ram_range_t :=
  match j with
  | O => <[O:=key]> out
  | S j' =>
      if base (out !!! j') >? base key
      then shift_in (<[j:=out !!! j']> out) key j'
      else <[j:=key]> out
  end.

(** [for (i = 1; i < cnt; i++)]. *)
Fixpoint sort_from (out : list ram_range_t) (i cnt : nat) (fuel : nat) : list ram_range_t :=
  match fuel with
  | O => out
  | S fuel => if (i <? cnt)%nat then sort_from (shift_in out (out !!! i) i) (S i) cnt fuel else out
  end.

Definition sort_ranges (out : list ram_range_t) : list ram_range_t :=
  sort_from out 1 (length out) (length out).

(** The merging loop; [m] is the index of the last merged range. *)
Fixpoint merge_from (out : list ram_range_t) (m i cnt fuel : nat) : list ram_range_t * nat :=
  match fuel with
  | O => (out, m)
  | S fuel =>
      if (i <? cnt)%nat then
        let cur := out !!! m in
        let nxt := out !!! i in
        if base nxt <=? u64 (base cur + size cur) then
          let end_ := u64 (base nxt + size nxt) in
          let out := if end_ >? u64 (base cur + size cur)
                     then <[m:=Range (base cur) (u64 (end_ - base cur))]> out else out in
          merge_from out m (S i) cnt fuel
        else merge_from (<[S m:=nxt]> out) (S m) (S i) cnt fuel
      else (out, m)
  end.

(** The tail of [dtb_ram_ranges], from the [cnt] pairs collected out of the tree. *)
Definition normalize_ranges (out : list ram_range_t) : list ram_range_t :=
  match out with
  | [] => []
  | _ => let '(out, m) := merge_from (sort_ranges out) 0 1 (length out) (length out) in
         take (S m) out
  end.

(** ** Insertion sort *)

(** Insertion from the right into a sorted prefix, stable. *)
Fixpoint insert (key : ram_range_t) (l : list ram_range_t) : list ram_range_t :=
  match l with
  | [] => [key]
  | x :: l => if base key <? base x then key :: x :: l else x :: insert key l
  end.

Inductive sorted : list ram_range_t -> Prop :=
  | sorted_nil : sorted []
  | sorted_cons x l : (forall y, In y l -> base x <= base y) -> sorted l -> sorted (x :: l).

Lemma insert_In key l y : In y (insert key l) <-> y = key \/ In y l.
Proof.
  induction l as [|x l IH]; cbn; [intuition congruence|].
  destruct (base key <? base x); cbn; rewrite ?IH; intuition congruence.
Qed.

Lemma insert_length key l : length (insert key l) = S (length l).
Proof. induction l as [|x l IH]; cbn; [done|]. destruct (base key <? base x); cbn; by rewrite ?IH. Qed.

Lemma insert_sorted key l : sorted l -> sorted (insert key l).
Proof.
  induction 1 as [|x l Hx Hs IH]; cbn; [repeat constructor; by intros ? []|].
  destruct (Z.ltb_spec (base key) (base x)); constructor; try done.
  - intros y [->|Hy]; [lia|]. apply Hx in Hy. lia.
  - by constructor.
  - intros y [->|Hy]%insert_In; [lia|auto].
Qed.

Lemma insert_snoc_le key l x : base x <= base key -> insert key (l ++ [x]) = (insert key l ++ [x]) \/
  insert key (l ++ [x]) = l ++ [x; key].
Proof.
  intros Hx. induction l as [|y l IH]; cbn.
  - right. destruct (Z.ltb_spec (base key) (base x)); [lia|done].
  - destruct (base key <? base y); [by left|]. destruct IH as [->| ->]; [by left|by right].
Qed.

Lemma sorted_app_inv l x : sorted (l ++ [x]) -> sorted l /\ forall y, In y l -> base y <= base x.
Proof.
  induction l as [|z l IH]; cbn; intros Hs; [split; [constructor|done]|].
  inversion Hs as [|? ? Hz Hs']; subst. destruct (IH Hs') as [? Hle]. split.
  - constructor; [|done]. intros y Hy. apply Hz, in_or_app. by left.
  - intros y [->|Hy]; [|auto]. apply Hz, in_or_app. right. by left.
Qed.

Lemma insert_all_le key l : (forall y, In y l -> base y <= base key) -> insert key l = l ++ [key].
Proof.
  induction l as [|y l IH]; cbn; intros Hle; [done|].
  destruct (Z.ltb_spec (base key) (base y)) as [?|_]; [pose proof (Hle y (or_introl eq_refl)); lia|].
  by rewrite IH by auto.
Qed.

Lemma insert_snoc_gt key l x : base key < base x -> (forall y, In y l -> base y <= base x) ->
  insert key (l ++ [x]) = insert key l ++ [x].
Proof.
  intros Hx. induction l as [|y l IH]; cbn; intros Hle.
  - destruct (Z.ltb_spec (base key) (base x)); [done|lia].
  - destruct (base key <? base y); [done|]. by rewrite IH by auto.
Qed.

(** The in-place shift is the functional insertion. *)
Lemma shift_in_insert pre : forall key hole post,
  sorted pre -> shift_in (pre ++ hole :: post) key (length pre) = insert key pre ++ post.
Proof.
  induction pre as [|x pre IH] using rev_ind; intros key hole post Hs; [done|].
  rewrite length_app. cbn [length]. rewrite Nat.add_1_r. cbn [shift_in].
  destruct (sorted_app_inv _ _ Hs) as [Hs' Hle].
  assert ((pre ++ [x]) ++ hole :: post = pre ++ x :: hole :: post) as -> by by rewrite <-app_assoc.
  rewrite list_lookup_total_middle by done.
  destruct (Z.gtb_spec (base x) (base key)).
  - replace (<[S (length pre):=x]> (pre ++ x :: hole :: post)) with (pre ++ x :: x :: post)
      by (rewrite insert_app_r_alt by lia; by replace (S (length pre) - length pre)%nat with 1%nat by lia).
    rewrite IH by done. rewrite insert_snoc_gt by (done || lia). by rewrite <-app_assoc.
  - rewrite insert_all_le.
    + rewrite insert_app_r_alt by lia. replace (S (length pre) - length pre)%nat with 1%nat by lia.
      cbn. by rewrite <-!app_assoc.
    + intros y [Hy|[->|[]]]%in_app_or; [|lia]. apply Hle in Hy. lia.
Qed.

Lemma sort_from_spec fuel : forall pre post,
  (length post <= fuel)%nat -> sorted pre ->
  exists l, sort_from (pre ++ post) (length pre) (length (pre ++ post)) fuel = l /\
            sorted l /\ length l = length (pre ++ post) /\ forall y, In y l <-> In y (pre ++ post).
Proof.
  induction fuel as [|fuel IH]; intros pre post Hf Hs; cbn [sort_from].
  { destruct post; [|cbn in Hf; lia]. rewrite app_nil_r. by exists pre. }
  destruct post as [|x post].
  { rewrite app_nil_r, Nat.ltb_irrefl. by exists pre. }
  destruct (Nat.ltb_spec (length pre) (length (pre ++ x :: post))) as [_|Hge];
    [|rewrite length_app in Hge; cbn in Hge; lia].
  rewrite list_lookup_total_middle by done. rewrite shift_in_insert by done.
  destruct (IH (insert x pre) post) as (l & Hl & Hsl & Hlen & Hin).
  - cbn in Hf. lia.
  - by apply insert_sorted.
  - exists l. rewrite insert_length in Hl. rewrite length_app in Hl.
    rewrite insert_length in Hl. rewrite length_app. cbn [length]. rewrite Nat.add_succ_r, <-Nat.add_succ_l.
    split; [done|]. split; [done|]. rewrite length_app, insert_length in Hlen. split; [lia|].
    intros y. rewrite Hin, !in_app_iff, insert_In. cbn. intuition congruence.
Qed.

Lemma sort_ranges_spec l : sorted (sort_ranges l) /\ length (sort_ranges l) = length l /\
  forall y, In y (sort_ranges l) <-> In y l.
Proof.
  unfold sort_ranges. destruct l as [|x l]; [split_and!; [constructor|done|done]|].
  destruct (sort_from_spec (length (x :: l)) [x] l) as (k & Hk & ? & ? & ?).
  - cbn. lia.
  - constructor; [by intros ? []|constructor].
  - cbn [app length] in *. by rewrite Hk.
Qed.

(** ** Merging *)

(** No RAM in the last window below 2^64. *)
Definition range_ok (r : ram_range_t) : Prop :=
  0 <= base r /\ 0 <= size r /\ base r + size r + WIN_BYTES < 2 ^ 64.
Definition range_end (r : ram_range_t) : Z := base r + size r.
Definition in_range (a : Z) (r : ram_range_t) : Prop := base r <= a < range_end r.
Definition covered (a : Z) (l : list ram_range_t) : Prop := exists r, In r l /\ in_range a r.

Definition extend (cur nxt : ram_range_t) : ram_range_t :=
  if u64 (base nxt + size nxt) >? u64 (base cur + size cur)
  then Range (base cur) (u64 (u64 (base nxt + size nxt) - base cur)) else cur.

Fixpoint merge_list (cur : ram_range_t) (rest : list ram_range_t) : list ram_range_t :=
  match rest with
  | [] => [cur]
  | nxt :: rest =>
      if base nxt <=? u64 (base cur + size cur) then merge_list (extend cur nxt) rest
      else cur :: merge_list nxt rest
  end.

(** The in-place merge computes [merge_list]: at index [i] the array holds the merged
    ranges, the current one, stale entries and the ranges still to come. *)
Lemma merge_from_spec fuel : forall pre cur junk rest out m,
  (length rest <= fuel)%nat ->
  merge_from (pre ++ cur :: junk ++ rest) (length pre) (length (pre ++ cur :: junk))
             (length (pre ++ cur :: junk ++ rest)) fuel = (out, m) ->
  take (S m) out = pre ++ merge_list cur rest.
Proof.
  induction fuel as [|fuel IH]; cbn [merge_from]; intros pre cur junk rest out m Hf Hm.
  { destruct rest; [|cbn in Hf; lia]. simplify_eq. cbn.
    rewrite take_app_ge by lia. by replace (S (length pre) - length pre)%nat with 1%nat by lia. }
  destruct rest as [|nxt rest].
  { rewrite !app_nil_r, Nat.ltb_irrefl in Hm. simplify_eq. cbn.
    rewrite take_app_ge by lia. by replace (S (length pre) - length pre)%nat with 1%nat by lia. }
  cbn [length] in Hf.
  rewrite (proj2 (Nat.ltb_lt _ _)) in Hm by (rewrite !length_app; cbn; rewrite length_app; cbn; lia).
  assert ((pre ++ cur :: junk ++ nxt :: rest) !!! length pre = cur) as Hcur
    by by apply list_lookup_total_middle.
  assert ((pre ++ cur :: junk ++ nxt :: rest) !!! length (pre ++ cur :: junk) = nxt) as Hnxt.
  { replace (pre ++ cur :: junk ++ nxt :: rest) with ((pre ++ cur :: junk) ++ nxt :: rest)
      by by rewrite <-app_assoc. by apply list_lookup_total_middle. }
  rewrite Hcur, Hnxt in Hm.
  cbn [merge_list]. destruct (base nxt <=? u64 (base cur + size cur)).
  - assert (forall c, pre ++ c :: junk ++ nxt :: rest = pre ++ c :: (junk ++ [nxt]) ++ rest) as Hj
      by (intros; by rewrite <-app_assoc).
    apply (IH pre (extend cur nxt) (junk ++ [nxt]) rest); [lia|]. rewrite <-Hm, <-Hj. f_equal.
    + unfold extend. destruct (_ >? _); [|done].
      by rewrite insert_app_r_alt, Nat.sub_diag by lia.
    + rewrite !length_app. cbn [length]. rewrite length_app. cbn [length]. lia.
    + rewrite !length_app. done.
  - assert (take (S m) out = (pre ++ [cur]) ++ merge_list nxt rest) as ->; [|by rewrite <-app_assoc].
    apply (IH (pre ++ [cur]) nxt (tail (junk ++ [nxt])) rest); [lia|]. rewrite <-Hm.
    rewrite insert_app_r_alt by lia. replace (S (length pre) - length pre)%nat with 1%nat by lia.
    destruct junk as [|j junk]; cbn; rewrite <-!app_assoc; cbn; rewrite <-?app_assoc; f_equal;
      rewrite !length_app; cbn; rewrite ?length_app; cbn; lia.
Qed.

(** Strictly separated: a gap before every range but the first. *)
Fixpoint separated (lo : Z) (l : list ram_range_t) : Prop :=
  match l with
  | [] => True
  | r :: l => lo < base r /\ range_ok r /\ separated (range_end r) l
  end.

Lemma range_wrap r : range_ok r -> u64 (base r + size r) = range_end r.
Proof. unfold range_ok, range_end. rewrite WIN_BYTES_eq. intros. apply wrap_small. unfold fits. lia. Qed.

Lemma extend_spec cur nxt : range_ok cur -> range_ok nxt -> base cur <= base nxt <= range_end cur ->
  range_ok (extend cur nxt) /\ base (extend cur nxt) = base cur /\
  forall a, in_range a (extend cur nxt) <-> in_range a cur \/ in_range a nxt.
Proof.
  intros Hc Hn Hb. unfold extend. rewrite !range_wrap by done.
  unfold range_ok, in_range, range_end in *. rewrite WIN_BYTES_eq in *.
  destruct (Z.gtb_spec (base nxt + size nxt) (base cur + size cur)).
  - cbn [base size]. rewrite wrap_small by (unfold fits; lia). split_and!; lia.
  - split_and!; [lia..|]. intros. lia.
Qed.

Lemma merge_list_spec rest : forall cur lo,
  lo < base cur -> range_ok cur -> Forall range_ok rest -> sorted (cur :: rest) ->
  separated lo (merge_list cur rest) /\ (length (merge_list cur rest) <= S (length rest))%nat /\
  forall a, covered a (merge_list cur rest) <-> covered a (cur :: rest).
Proof.
  induction rest as [|nxt rest IH]; intros cur lo Hlo Hc Hr Hs; cbn [merge_list].
  { split_and!; cbn; [done..|lia|done]. }
  inversion Hr as [|? ? Hn Hr']; subst. inversion Hs as [|? ? Hle Hs']; subst.
  inversion Hs' as [|? ? Hle' Hs'']; subst.
  pose proof (Hle nxt (or_introl eq_refl)) as Hbn. rewrite range_wrap by done.
  destruct (Z.leb_spec (base nxt) (range_end cur)) as [Hov|Hgap].
  - destruct (extend_spec cur nxt) as (He & Hb & Hin); [done..|].
    destruct (IH (extend cur nxt) lo) as (Hsep & Hlen & Hcov); [by rewrite Hb|done|done| |].
    { constructor; [|done]. intros y Hy. rewrite Hb. apply Hle. by right. }
    split_and!; [done|cbn; lia|]. intros a. rewrite Hcov. unfold covered. cbn [In]. split.
    + intros (r & [<-|Hi] & Ha); [apply Hin in Ha as [?|?]|]; eauto 6.
    + intros (r & [<-|[<-|Hi]] & Ha); [exists (extend cur nxt)..|]; rewrite ?Hin; eauto 6.
  - destruct (IH nxt (range_end cur)) as (Hsep & Hlen & Hcov); [done..|].
    split_and!; [done|cbn; lia|]. intros a. unfold covered in *. cbn [In]. split.
    + intros (r & [<-|Hi] & Ha); [eauto 6|].
      destruct (proj1 (Hcov a)) as (r' & [<-|?] & ?); eauto 7.
    + intros (r & [<-|Hi] & Ha); [eauto 6|].
      destruct (proj2 (Hcov a)) as (r' & ? & ?); [exists r; cbn; auto|eauto 6].
Qed.

Lemma normalize_ranges_ok l :
  Forall range_ok l ->
  separated (-1) (normalize_ranges l) /\ (length (normalize_ranges l) <= length l)%nat /\
  forall a, covered a (normalize_ranges l) <-> covered a l.
Proof.
  intros Hok. unfold normalize_ranges. destruct l as [|x l]; [done|].
  destruct (sort_ranges_spec (x :: l)) as (Hs & Hlen & Hin).
  destruct (sort_ranges (x :: l)) as [|c rest]; [done|].
  assert (Forall range_ok (c :: rest)) as Hok'.
  { apply Forall_forall. intros r Hr%list_elem_of_In%Hin. rewrite Forall_forall in Hok.
    by apply Hok, list_elem_of_In. }
  inversion Hok' as [|? ? Hc Hr]; subst. rewrite <-Hlen.
  destruct (merge_from (c :: rest) 0 1 (length (c :: rest)) (length (c :: rest))) as [out m] eqn:Hm.
  apply (merge_from_spec _ [] c [] rest) in Hm; [|cbn; lia]. rewrite Hm. cbn [app].
  destruct (merge_list_spec rest c (-1)) as (? & ? & Hcov); [unfold range_ok in Hc; lia|done..|].
  split_and!; [done|cbn in *; lia|]. intros a. rewrite Hcov. unfold covered.
  split; intros (r & Hi & ?); exists r; by rewrite ?Hin in *.
Qed.

Lemma merge_list_length rest : forall cur, (length (merge_list cur rest) <= S (length rest))%nat.
Proof.
  induction rest as [|r rest IH]; intros cur; cbn [merge_list length]; [lia|].
  case_match; [specialize (IH (extend cur r))|specialize (IH r)]; cbn [length]; lia.
Qed.

Lemma normalize_length l : (length (normalize_ranges l) <= length l)%nat.
Proof.
  unfold normalize_ranges. destruct l as [|x l]; [done|]. destruct (sort_ranges_spec (x :: l)) as (_ & Hlen & _).
  destruct (sort_ranges (x :: l)) as [|c rest]; [done|]. rewrite <-Hlen.
  destruct (merge_from (c :: rest) 0 1 (length (c :: rest)) (length (c :: rest))) as [out m] eqn:Hm.
  apply (merge_from_spec _ [] c [] rest) in Hm; [|cbn; lia]. rewrite Hm. apply merge_list_length.
Qed.

(** Sorting and merging the ranges read from the device tree loses and invents no
    address: the result covers exactly the addresses the tree's pairs cover, as
    ranges in increasing order with a gap between any two. *)
Theorem normalize_ranges_spec l :
  Forall range_ok l ->
  separated (-1) (normalize_ranges l) /\ (length (normalize_ranges l) <= length l)%nat /\
  forall a, covered a (normalize_ranges l) <-> covered a l.
Proof. apply normalize_ranges_ok. Qed.

Lemma normalize_ranges_spec_witness :
  normalize_ranges [Range 0x8000 0x1000; Range 0x1000 0x1000; Range 0x2000 0x800; Range 0x1800 0x100]
    = [Range 0x1000 0x1800; Range 0x8000 0x1000] /\
  covered 0x2100 (normalize_ranges [Range 0x8000 0x1000; Range 0x1000 0x1000; Range 0x2000 0x800; Range 0x1800 0x100]).
Proof.
  split; [vm_compute; reflexivity|]. apply normalize_ranges_spec.
  - repeat constructor; vm_compute; discriminate.
  - exists (Range 0x2000 0x800). unfold in_range, range_end. cbn. split; [auto|lia].
Defined.
End Ranges.

(** ** Memory with a possibly faulty address decoder *)
Module Dram.

Section dram.
Context (cell : Z -> Z).

Definition mem := Z -> Z.
Definition rd (m : mem) (a : Z) : Z := m (cell a).
Definition wr (m : mem) (a v : Z) : mem := fun c => if c =? cell a then v else m c.

(** [for (a = start; a < end; a += step)]: the addresses visited.  [fuel] bounds the
    number of iterations; [for_range_enough] shows [end - start] is enough. *)
Fixpoint for_range (fuel : nat) (a end_ step : Z) : list Z :=
  match fuel with
  | O => []
  | S fuel => if a <? end_ then a :: for_range fuel (u64 (a + step)) end_ step else []
  end.

Definition addrs (start end_ step : Z) : list Z := for_range (Z.to_nat (end_ - start)) start end_ step.

(** [sweep_failures] and [report_bad] (the count; the printing is capped). *)
Definition report_bad (failures : Z) : Z := u64 (failures + 1).

Inductive sweep_mode := SWEEP_WRITE | SWEEP_VERIFY_WRITE_INV | SWEEP_VERIFY_INV.

(** The body of the loop of [sweep] at word address [a]. *)
Definition sweep_body (mode : sweep_mode) (st : mem * Z) (a : Z) : mem * Z :=
  let '(m, f) := st in
  let e := pat a SEED_A in
  match mode with
  | SWEEP_WRITE => (wr m a e, f)
  | SWEEP_VERIFY_WRITE_INV =>
      let f := if rd m a =? e then f else report_bad f in
      (wr m a (cnot 64 e), f)
  | SWEEP_VERIFY_INV => (m, if rd m a =? cnot 64 e then f else report_bad f)
  end.

Definition sweep (mode : sweep_mode) (st : mem * Z) (w : Z * Z) : mem * Z :=
  foldl (sweep_body mode) st (addrs w.1 w.2 WORD_BYTES).

Definition test_full_sweep (wins : list (Z * Z)) (m : mem) : Z :=
  let st := foldl (sweep SWEEP_WRITE) (m, 0) wins in
  let st := foldl (sweep SWEEP_VERIFY_WRITE_INV) st wins in
  let st := foldl (sweep SWEEP_VERIFY_INV) st wins in
  if st.2 >? 0 then 1 else 0.

(** [line_pass] at line address [a]. *)
Definition line_body (verify : bool) (st : mem * Z) (a : Z) : mem * Z :=
  let '(m, f) := st in
  let e := pat a SEED_LINE in
  if verify then (m, if rd m a =? e then f else report_bad f) else (wr m a e, f).

Definition line_pass (verify : bool) (st : mem * Z) (w : Z * Z) : mem * Z :=
  foldl (line_body verify) st (addrs w.1 w.2 LINE_BYTES).

Definition test_line_edges (wins : list (Z * Z)) (m : mem) : mem * Z :=
  let st := foldl (line_pass false) (m, 0) wins in
  let st := foldl (line_pass true) st wins in
  (st.1, if st.2 >? 0 then 1 else 0).

(** ** The loop *)

Lemma for_range_next a end_ step :
  0 <= a < end_ -> 0 < step -> end_ + step <= 2 ^ 64 -> u64 (a + step) = a + step.
Proof. intros. apply wrap_small. unfold fits. lia. Qed.

Lemma for_range_elem fuel : forall a end_ step x,
  0 <= a -> 0 < step -> end_ + step <= 2 ^ 64 -> In x (for_range fuel a end_ step) ->
  a <= x < end_ /\ exists k, 0 <= k /\ x = a + k * step.
Proof.
  induction fuel as [|fuel IH]; cbn [for_range]; intros a end_ step x Ha Hs He Hx; [done|].
  destruct (Z.ltb_spec a end_); [|done]. rewrite (for_range_next a end_) in Hx by lia.
  destruct Hx as [->|Hx].
  - split; [lia|]. exists 0. lia.
  - apply IH in Hx as [? (k & ? & ->)]; [|lia..]. split; [lia|]. exists (k + 1). lia.
Qed.

(** Enough fuel: every address of the progression below [end_] is visited. *)
Lemma for_range_enough fuel : forall a end_ step k,
  0 <= a -> 0 < step -> end_ + step <= 2 ^ 64 -> end_ - a <= Z.of_nat fuel ->
  0 <= k -> a + k * step < end_ -> In (a + k * step) (for_range fuel a end_ step).
Proof.
  induction fuel as [|fuel IH]; cbn [for_range]; intros a end_ step k Ha Hs He Hf Hk Hlt; [nia|].
  destruct (Z.ltb_spec a end_); [|nia]. rewrite (for_range_next a end_) by lia.
  destruct (Z.eq_dec k 0) as [->|]; [left; lia|].
  right. replace (a + k * step) with (a + step + (k - 1) * step) by lia.
  apply IH; lia.
Qed.

Lemma for_range_NoDup fuel : forall a end_ step,
  0 <= a -> 0 < step -> end_ + step <= 2 ^ 64 -> NoDup (for_range fuel a end_ step).
Proof.
  induction fuel as [|fuel IH]; cbn [for_range]; intros a end_ step Ha Hs He; [constructor|].
  destruct (Z.ltb_spec a end_); [|constructor]. rewrite (for_range_next a end_) by lia.
  constructor; [|by apply IH; lia].
  rewrite list_elem_of_In. intros Hin. apply for_range_elem in Hin; lia.
Qed.

Lemma for_range_length fuel : forall a end_ step,
  0 <= a -> 8 <= step -> end_ + step <= 2 ^ 64 -> a <= end_ ->
  8 * Z.of_nat (length (for_range fuel a end_ step)) <= end_ - a + 7.
Proof.
  induction fuel as [|fuel IH]; cbn [for_range length]; intros a end_ step Ha Hs He Hle; [lia|].
  destruct (Z.ltb_spec a end_); cbn [length]; [|lia]. rewrite (for_range_next a end_) by lia.
  destruct (Z.le_gt_cases (a + step) end_).
  - pose proof (IH (a + step) end_ step). lia.
  - assert (for_range fuel (a + step) end_ step = []) as ->; [|cbn; lia].
    destruct fuel; cbn; [done|]. by zcases.
Qed.

(** Testable windows: in increasing order, disjoint, and a line short of 2^64 so
    that the loop variable does not wrap. *)
Fixpoint wins_from (lo : Z) (wins : list (Z * Z)) : Prop :=
  match wins with
  | [] => True
  | w :: wins => lo <= w.1 <= w.2 /\ w.2 + LINE_BYTES <= 2 ^ 64 /\ wins_from w.2 wins
  end.

Definition wins_ok (wins : list (Z * Z)) : Prop := wins_from 0 wins /\ (length wins <= 8)%nat.

(** Every address a pass over all the windows visits. *)
Definition all_addrs (step : Z) (wins : list (Z * Z)) : list Z :=
  concat (map (fun w => addrs w.1 w.2 step) wins).

Lemma wins_addrs step wins : forall lo, 8 <= step <= LINE_BYTES -> 0 <= lo -> wins_from lo wins ->
  NoDup (all_addrs step wins) /\ Forall (fun a => lo <= a < 2 ^ 64) (all_addrs step wins) /\
  8 * Z.of_nat (length (all_addrs step wins)) <= 2 ^ 64 - lo + 7 * Z.of_nat (length wins) \/ wins = [].
Proof.
  induction wins as [|w wins IH]; intros lo Hs Hlo Hw; [by right|]. left.
  destruct Hw as (Hle & He & Hw). unfold all_addrs. cbn [map concat].
  fold (all_addrs step wins).
  assert (forall x, In x (addrs w.1 w.2 step) -> w.1 <= x < w.2) as Hin.
  { intros x Hx. by apply for_range_elem in Hx as [? _]; [|unfold LINE_BYTES in *; lia..]. }
  assert (NoDup (addrs w.1 w.2 step)) by (apply for_range_NoDup; unfold LINE_BYTES in *; lia).
  pose proof (for_range_length (Z.to_nat (w.2 - w.1)) w.1 w.2 step) as Hlen.
  fold (addrs w.1 w.2 step) in Hlen.
  rewrite length_app. cbn [length].
  destruct (IH w.2 Hs) as [(Hnd & Hall & Hl)| ->]; [lia|done|..].
  - split_and!; [| |unfold LINE_BYTES in *; lia].
    + apply NoDup_app. split_and!; [done| |done]. intros x Hx Hx'.
      apply list_elem_of_In, Hin in Hx. rewrite Forall_forall in Hall. apply Hall in Hx'. lia.
    + apply Forall_app. split; [|eapply Forall_impl; [exact Hall|cbn; lia]].
      apply Forall_forall. intros x Hx. apply list_elem_of_In, Hin in Hx. unfold LINE_BYTES in *. lia.
  - unfold all_addrs. cbn. rewrite app_nil_r. split_and!; [done| |unfold LINE_BYTES in *; lia].
    apply Forall_forall. intros x Hx. apply list_elem_of_In, Hin in Hx. unfold LINE_BYTES in *. lia.
Qed.

Lemma wins_ok_addrs step wins : 8 <= step <= LINE_BYTES -> wins_ok wins ->
  NoDup (all_addrs step wins) /\ (forall a, In a (all_addrs step wins) -> fits 64 a) /\
  3 * Z.of_nat (length (all_addrs step wins)) < 2 ^ 64.
Proof.
  intros Hs [Hw Hn]. destruct (wins_addrs step wins 0) as [(? & Hall & ?)| ->]; [done..| |].
  - split_and!; [done| |lia]. intros a Ha. rewrite Forall_forall in Hall.
    unfold fits. apply Hall. by apply list_elem_of_In.
  - unfold all_addrs. cbn. split_and!; [constructor|done|lia].
Qed.

Lemma foldl_wins {S} (body : S -> Z -> S) step wins : forall st,
  foldl (fun st (w : Z * Z) => foldl body st (addrs w.1 w.2 step)) st wins
  = foldl body st (concat (map (fun w => addrs w.1 w.2 step) wins)).
Proof.
  induction wins as [|w wins IH]; intros st; cbn; [done|]. by rewrite IH, foldl_app.
Qed.

(** ** Write pass, verify pass *)

Section passes.
Context (V : Z -> Z).   (* the value written to each address *)

Definition write_all (m : mem) (l : list Z) : mem := foldl (fun m a => wr m a (V a)) m l.

Definition aliased (l : list Z) : Prop :=
  exists a b, In a l /\ In b l /\ a <> b /\ cell a = cell b.

Lemma wr_same m a b v : cell b = cell a -> wr m a v (cell b) = v.
Proof. intros ->. unfold wr. by rewrite Z.eqb_refl. Qed.

Lemma wr_other m a c v : c <> cell a -> wr m a v c = m c.
Proof. intros. unfold wr. by destruct (Z.eqb_spec c (cell a)). Qed.

Lemma write_all_other l : forall m c, (forall a, In a l -> cell a <> c) -> write_all m l c = m c.
Proof.
  induction l as [|a l IH]; cbn; intros m c Hc; [done|].
  rewrite IH by auto. apply wr_other. apply not_eq_sym; auto.
Qed.

(** The last write to a cell wins. *)
Lemma write_all_last l1 z l2 m :
  (forall a, In a l2 -> cell a <> cell z) -> write_all m (l1 ++ z :: l2) (cell z) = V z.
Proof.
  intros H. unfold write_all. rewrite foldl_app. cbn.
  rewrite (write_all_other l2) by auto. by apply wr_same.
Qed.

Lemma last_alias l a : In a l ->
  exists l1 z l2, l = l1 ++ z :: l2 /\ cell z = cell a /\ forall b, In b l2 -> cell b <> cell z.
Proof.
  induction l as [|x l IH] using rev_ind; [done|]. intros Hin.
  destruct (Z.eq_dec (cell x) (cell a)) as [He|He].
  - by exists l, x, [].
  - apply in_app_or in Hin as [Hin|[->|[]]]; [|done].
    destruct (IH Hin) as (l1 & z & l2 & -> & Hz & Hl2). exists l1, z, (l2 ++ [x]).
    split; [by rewrite <-app_assoc|]. split; [done|]. intros b Hb.
    apply in_app_or in Hb as [Hb|[->|[]]]; [auto|congruence].
Qed.

Lemma write_all_value l m a : In a l ->
  exists z, In z l /\ cell z = cell a /\ write_all m l (cell a) = V z.
Proof.
  intros Hin. destruct (last_alias l a Hin) as (l1 & z & l2 & -> & Hz & Hl2).
  exists z. split; [apply in_or_app; cbn; auto|]. split; [done|].
  rewrite <-Hz. by apply write_all_last.
Qed.

Lemma write_all_injective l m a : ~ aliased l -> In a l -> write_all m l (cell a) = V a.
Proof.
  intros Hna Hin. destruct (write_all_value l m a Hin) as (z & Hz & Hc & ->).
  destruct (Z.eq_dec z a) as [->|Hne]; [done|]. exfalso. apply Hna. by exists z, a.
Qed.

(** Every marker reads back after all are written exactly when no two distinct
    addresses of the pass share a cell. *)
Lemma markers_iff l m :
  (forall a b, In a l -> In b l -> V a = V b -> a = b) ->
  (forall a, In a l -> write_all m l (cell a) = V a) <-> ~ aliased l.
Proof.
  intros Hinj. split; [|by intros ? ? ?; apply write_all_injective].
  intros Hall (a & b & Ha & Hb & Hne & Hc). apply Hne, Hinj; [done..|].
  by rewrite <-(Hall a Ha), Hc, Hall.
Qed.

(** A verifying pass counts the addresses that do not read [V]. *)
Definition verify_body (st : mem * Z) (a : Z) : mem * Z :=
  (st.1, if rd st.1 a =? V a then st.2 else report_bad st.2).

Lemma report_bad_eq f : 0 <= f -> f + 1 < 2 ^ 64 -> report_bad f = f + 1.
Proof. intros. apply wrap_small. unfold fits. lia. Qed.

Lemma verify_spec l : forall m f, 0 <= f -> f + Z.of_nat (length l) < 2 ^ 64 ->
  exists k, foldl verify_body (m, f) l = (m, f + k) /\ 0 <= k <= Z.of_nat (length l) /\
            (k = 0 <-> forall a, In a l -> m (cell a) = V a).
Proof.
  induction l as [|a l IH]; cbn [foldl length]; intros m f Hf Hb.
  { exists 0. split; [by rewrite Z.add_0_r|]. split; [lia|]. by split; [intros _ ? []|]. }
  unfold verify_body at 2. cbn [fst snd]. unfold rd.
  destruct (Z.eqb_spec (m (cell a)) (V a)) as [He|He].
  - destruct (IH m f) as (k & -> & Hk & Hiff); [lia..|]. exists k.
    split; [done|]. split; [lia|]. rewrite Hiff. split; [|by auto using in_cons].
    intros Hall b [->|Hb']; auto.
  - rewrite report_bad_eq by lia.
    destruct (IH m (f + 1)) as (k & -> & Hk & _); [lia..|]. exists (k + 1).
    split; [f_equal; lia|]. split; [lia|]. split; [lia|].
    intros Hall. exfalso. apply He, Hall. by left.
Qed.
End passes.

Lemma aliased_sub l a : ~ aliased (a :: l) -> ~ aliased l.
Proof. intros H (x & y & ? & ? & ? & ?). apply H. exists x, y. cbn. auto. Qed.

(** ** The fused verify-and-invert pass *)

Section invert.
Abbreviation P := (fun a => pat a SEED_A) (only parsing).
Abbreviation Q := (fun a => cnot 64 (pat a SEED_A)) (only parsing).

(** No failure is reported by the pass over [l] from memory [m]. *)
Fixpoint invert_ok (m : mem) (l : list Z) : Prop :=
  match l with
  | [] => True
  | a :: l => m (cell a) = pat a SEED_A /\ invert_ok (wr m a (cnot 64 (pat a SEED_A))) l
  end.

Lemma invert_spec l : forall m f, 0 <= f -> f + Z.of_nat (length l) < 2 ^ 64 ->
  exists k, foldl (sweep_body SWEEP_VERIFY_WRITE_INV) (m, f) l = (write_all Q m l, f + k) /\
            0 <= k <= Z.of_nat (length l) /\ (k = 0 <-> invert_ok m l).
Proof.
  induction l as [|a l IH]; cbn [foldl length invert_ok sweep_body]; intros m f Hf Hb.
  { exists 0. split; [by rewrite Z.add_0_r|]. split; [lia|done]. }
  unfold rd. destruct (Z.eqb_spec (m (cell a)) (pat a SEED_A)) as [He|He].
  - destruct (IH (wr m a (cnot 64 (pat a SEED_A))) f) as (k & -> & Hk & Hiff); [lia..|].
    exists k. split; [done|]. split; [lia|]. rewrite Hiff. tauto.
  - rewrite report_bad_eq by lia.
    destruct (IH (wr m a (cnot 64 (pat a SEED_A))) (f + 1)) as (k & -> & Hk & _); [lia..|].
    exists (k + 1). split; [f_equal; lia|]. split; [lia|]. split; [lia|]. by intros [? _].
Qed.

Lemma invert_ok_first l1 : forall m a l2,
  invert_ok m (l1 ++ a :: l2) -> (forall b, In b l1 -> cell b <> cell a) ->
  m (cell a) = pat a SEED_A.
Proof.
  induction l1 as [|b l1 IH]; cbn; intros m a l2 Hok Hne; [by destruct Hok|].
  destruct Hok as [_ Hok]. apply IH in Hok; [|auto].
  rewrite wr_other in Hok; [done|]. apply not_eq_sym; auto.
Qed.

Lemma invert_ok_injective l : forall m,
  NoDup l -> ~ aliased l -> (forall a, In a l -> m (cell a) = pat a SEED_A) -> invert_ok m l.
Proof.
  induction l as [|a l IH]; cbn; intros m Hnd Hna Hm; [done|].
  apply NoDup_cons in Hnd as [Hni Hnd]. split; [by apply Hm; left|].
  apply IH; [done|by eapply aliased_sub|]. intros b Hb. rewrite wr_other; [by auto|].
  intros Hc. apply Hna. exists b, a. cbn. split_and!; auto. intros ->. by apply Hni, list_elem_of_In.
Qed.

Lemma first_alias l a : In a l ->
  exists l1 z l2, l = l1 ++ z :: l2 /\ cell z = cell a /\ forall b, In b l1 -> cell b <> cell z.
Proof.
  induction l as [|x l IH]; [done|]. intros Hin.
  destruct (Z.eq_dec (cell x) (cell a)) as [He|He].
  - exists [], x, l. split; [done|]. split; [done|]. by intros ? [].
  - destruct Hin as [->|Hin]; [done|]. destruct (IH Hin) as (l1 & z & l2 & -> & Hz & Hl).
    exists (x :: l1), z, l2. split; [done|]. split; [done|]. intros b [->|Hb]; [congruence|auto].
Qed.

Lemma NoDup_split_unique (l1 m1 : list Z) : forall l2 m2 x,
  NoDup (l1 ++ x :: l2) -> l1 ++ x :: l2 = m1 ++ x :: m2 -> l1 = m1.
Proof.
  revert m1. induction l1 as [|y l1 IH]; intros [|y' m1] l2 m2 x Hnd Heq; cbn in *; simplify_eq.
  - done.
  - apply NoDup_cons in Hnd as [Hni _]. exfalso. apply Hni, list_elem_of_In, in_or_app. cbn; auto.
  - apply NoDup_cons in Hnd as [Hni _]. exfalso. apply Hni, list_elem_of_In, in_or_app. cbn; auto.
  - f_equal. apply NoDup_cons in Hnd as [_ Hnd]. by eapply IH.
Qed.

(** After the writing pass, the inverting pass reports nothing exactly when the
    decoder is injective on the tested words. *)
Lemma invert_iff l m :
  NoDup l -> (forall a, In a l -> fits 64 a) ->
  invert_ok (write_all P m l) l <-> ~ aliased l.
Proof.
  intros Hnd Hfit. split.
  - intros Hok (a & b & Ha & Hb & Hne & Hc).
    destruct (first_alias l a Ha) as (l1 & f & l2 & Hl & Hfc & Hl1).
    destruct (last_alias l a Ha) as (k1 & z & k2 & Hk & Hzc & Hk2).
    assert (z = f) as ->.
    { apply pat_inj with SEED_A; [apply Hfit; rewrite Hk; apply in_or_app; cbn; auto
        |apply Hfit; rewrite Hl; apply in_or_app; cbn; auto|by vm_compute|].
      rewrite Hl in Hok at 2. apply invert_ok_first in Hok; [|done].
      rewrite <-Hok, Hfc, <-Hzc, Hk. symmetry. by apply (write_all_last P). }
    assert (l1 = k1) as -> by (apply NoDup_split_unique with l2 k2 f; congruence).
    assert (forall x, In x l -> cell x = cell a -> x = f) as Honly; [|by apply Hne; transitivity f; [|symmetry]; apply Honly].
    intros x Hx Hxc. rewrite Hk in Hx. apply in_app_or in Hx as [Hx|[->|Hx]]; [|done|].
    + exfalso. apply (Hl1 x Hx). congruence.
    + exfalso. apply (Hk2 x Hx). congruence.
  - intros Hna. apply invert_ok_injective; [done..|]. intros a Ha. by apply (write_all_injective P).
Qed.
End invert.

(** ** The suites *)

Lemma sweep_write_eq l : forall m f,
  foldl (sweep_body SWEEP_WRITE) (m, f) l = (write_all (fun a => pat a SEED_A) m l, f).
Proof. induction l as [|a l IH]; cbn; intros m f; [done|]. by rewrite IH. Qed.

Lemma line_write_eq l : forall m f,
  foldl (line_body false) (m, f) l = (write_all (fun a => pat a SEED_LINE) m l, f).
Proof. induction l as [|a l IH]; cbn; intros m f; [done|]. by rewrite IH. Qed.

Lemma foldl_body_ext {S} (f g : S -> Z -> S) l : (forall s a, f s a = g s a) ->
  forall s, foldl f s l = foldl g s l.
Proof. intros H. induction l as [|a l IH]; intros s; cbn; [done|]. by rewrite H, IH. Qed.

Lemma line_verify_eq l st :
  foldl (line_body true) st l = foldl (verify_body (fun a => pat a SEED_LINE)) st l.
Proof. apply foldl_body_ext. by intros [m f] a. Qed.

Lemma sweep_verify_eq l st :
  foldl (sweep_body SWEEP_VERIFY_INV) st l
  = foldl (verify_body (fun a => cnot 64 (pat a SEED_A))) st l.
Proof. apply foldl_body_ext. by intros [m f] a. Qed.

(** The full-range line edge test passes exactly on memories whose address
    decoder gives distinct lines distinct cells: no aliasing between any two line
    addresses of any two windows is missed, and a sound memory never fails. *)
Theorem line_edges_iff wins m :
  wins_ok wins -> (test_line_edges wins m).2 = 0 <-> ~ aliased (all_addrs LINE_BYTES wins).
Proof.
  intros Hw. destruct (wins_ok_addrs LINE_BYTES wins) as (Hnd & Hfit & Hlen); [by unfold LINE_BYTES|done|].
  unfold test_line_edges, line_pass. rewrite !foldl_wins. fold (all_addrs LINE_BYTES wins).
  rewrite line_write_eq, line_verify_eq.
  destruct (verify_spec (fun a => pat a SEED_LINE) (all_addrs LINE_BYTES wins)
    (write_all (fun a => pat a SEED_LINE) m (all_addrs LINE_BYTES wins)) 0)
    as (k & -> & Hk & Hiff); [lia..|].
  rewrite markers_iff in Hiff.
  - cbn [snd]. destruct (Z.gtb_spec (0 + k) 0); rewrite <-Hiff; lia.
  - intros a b Ha Hb. apply pat_inj; auto. by vm_compute.
Qed.

Lemma full_sweep_exact wins m :
  wins_ok wins -> test_full_sweep wins m = 0 <-> ~ aliased (all_addrs WORD_BYTES wins).
Proof.
  intros Hw. destruct (wins_ok_addrs WORD_BYTES wins) as (Hnd & Hfit & Hlen);
    [by unfold LINE_BYTES, WORD_BYTES|done|].
  unfold test_full_sweep, sweep. rewrite !foldl_wins. fold (all_addrs WORD_BYTES wins).
  rewrite sweep_write_eq. set (l := all_addrs WORD_BYTES wins) in *.
  destruct (invert_spec l (write_all (fun a => pat a SEED_A) m l) 0) as (k & -> & Hk & Hiff); [lia..|].
  rewrite invert_iff in Hiff by done. rewrite sweep_verify_eq.
  destruct (verify_spec (fun a => cnot 64 (pat a SEED_A)) l
    (write_all (fun a => cnot 64 (pat a SEED_A)) (write_all (fun a => pat a SEED_A) m l) l) (0 + k))
    as (k' & -> & Hk' & Hiff'); [lia..|].
  cbn [snd]. destruct (Z.gtb_spec (0 + k + k') 0).
  - split; [done|]. intros Hna. exfalso.
    assert (k = 0) by by apply Hiff. assert (k' = 0); [|lia].
    apply Hiff'. intros a Ha. by apply (write_all_injective (fun a => cnot 64 (pat a SEED_A))).
  - split; [|done]. intros _. apply Hiff. lia.
Qed.

(** The moving-inversion sweep passes exactly on memories whose address decoder
    gives distinct words distinct cells: every aliasing pair of words anywhere in the
    tested windows is reported, and a sound memory never fails. *)
Theorem full_sweep_iff wins m :
  wins_ok wins -> test_full_sweep wins m = 0 <-> ~ aliased (all_addrs WORD_BYTES wins).
Proof. apply full_sweep_exact. Qed.
End dram.
End Dram.

(** ** The capacity reality check *)
Module Probe.
Import Dram.

Section probe.
Context (cell : Z -> Z).

Definition addr_testable (wins : list (Z * Z)) (a : Z) : bool :=
  existsb (fun w => (a >=? w.1) && (u64 (a + WORD_BYTES) <=? w.2)) wins.

(** The loop collecting the power-of-two offsets; [np] counts those kept. *)
Fixpoint probe_offs (fuel np : nat) (wins : list (Z * Z)) (ref end_ p : Z) : list Z :=
  match fuel with
  | O => []
  | S fuel =>
      if (u64 (ref + p + WORD_BYTES) <=? end_) && (np <? 63)%nat then
        if addr_testable wins (u64 (ref + p))
        then p :: probe_offs fuel (S np) wins ref end_ (u64 (p .<< 1))
        else probe_offs fuel np wins ref end_ (u64 (p .<< 1))
      else []
  end.

(** [offs[]]: the powers of two and the last line of RAM. *)
Definition all_offs (wins : list (Z * Z)) (ref end_ : Z) : list Z :=
  probe_offs 64 0 wins ref end_ (1 .<< 20) ++ [u64 (end_ - LINE_BYTES - ref)].

Definition probe_pat (a : Z) : Z := pat a SEED_PROBE.

(** The first offset whose marker does not read back, 0 if there is none. *)
Fixpoint find_wrap (m : mem) (ref : Z) (offs : list Z) : Z :=
  match offs with
  | [] => 0
  | o :: offs =>
      let wrap := if rd cell m (u64 (ref + o)) =? probe_pat (u64 (ref + o)) then 0 else o in
      if wrap =? 0 then find_wrap m ref offs else wrap
  end.

(** The writes: the reference cell, then every probe. *)
Definition write_probes (ref : Z) (offs : list Z) (m : mem) : mem :=
  foldl (fun m o => wr cell m (u64 (ref + o)) (probe_pat (u64 (ref + o)))) (wr cell m ref (probe_pat ref)) offs.

(** The memory after all the probes, [wrap] and [ref_ok]. *)
Definition test_capacity_probe (wins : list (Z * Z)) (m : mem) : mem * (Z * bool) :=
  let ref := (hd (0, 0) wins).1 in
  let end_ := (List.last wins (0, 0)).2 in
  let offs := all_offs wins ref end_ in
  let m := write_probes ref offs m in
  (m, (find_wrap m ref offs, rd cell m ref =? probe_pat ref)).

(** ** One contiguous window *)

Section contiguous.
Context (ref end_ : Z).
Hypothesis Href : 0 <= ref.
Hypothesis Hend : end_ <= 2 ^ 63.
Hypothesis Hwin : ref + 4194304 <= end_. (* WIN_BYTES *)

Lemma probe_offs_powers fuel : forall np j, 20 <= j <= 63 -> Z.of_nat np <= j - 20 ->
  exists n, probe_offs fuel np [(ref, end_)] ref end_ (2 ^ j)
    = map (fun i => 2 ^ (j + Z.of_nat i)) (seq 0 n) /\
    (forall i, (i < n)%nat -> ref + 2 ^ (j + Z.of_nat i) + 8 <= end_) /\
    (Z.of_nat fuel + j >= 64 -> end_ < ref + 2 ^ (j + Z.of_nat n) + 8) /\ j + Z.of_nat n <= 63.
Proof.
  induction fuel as [|fuel IH]; intros np j Hj Hf; cbn [probe_offs].
  { exists O. split_and!; [done|lia| |lia]. intros. lia. }
  assert (0 < 2 ^ j <= 2 ^ 63) by (split; [apply Z.pow_pos_nonneg|apply Z.pow_le_mono_r]; lia).
  unfold WORD_BYTES. rewrite wrap_small by (unfold fits; lia).
  destruct (Nat.ltb_spec np 63); [|lia]. rewrite andb_true_r.
  destruct (Z.leb_spec (ref + 2 ^ j + 8) end_).
  - assert (j < 63) by (destruct (Z.eq_dec j 63) as [->|]; lia).
    unfold addr_testable. cbn [existsb fst snd]. unfold WORD_BYTES.
    rewrite (wrap_small 64 (ref + 2 ^ j)), wrap_small by (unfold fits; lia). rewrite Z.geb_leb.
    destruct (Z.leb_spec ref (ref + 2 ^ j)); [|lia]. destruct (Z.leb_spec (ref + 2 ^ j + 8) end_); [|lia].
    cbn [andb orb].
    assert (u64 (2 ^ j .<< 1) = 2 ^ (j + 1)) as ->.
    { rewrite Z.shiftl_mul_pow2, <-Z.pow_add_r by lia. apply wrap_small. unfold fits.
      split; [apply Z.pow_nonneg; lia|apply Z.pow_lt_mono_r; lia]. }
    destruct (IH (S np) (j + 1)) as (n & -> & Hin & Hout & Hn); [lia..|]. exists (S n).
    split_and!.
    + cbn [seq map]. rewrite Z.add_0_r. f_equal. rewrite <-(List.seq_shift n 0), map_map.
      apply map_ext. intros i. f_equal. lia.
    + intros [|i] Hi; [by rewrite Z.add_0_r|]. replace (j + Z.of_nat (S i)) with (j + 1 + Z.of_nat i) by lia.
      apply Hin. lia.
    + intros Hge. replace (j + Z.of_nat (S n)) with (j + 1 + Z.of_nat n) by lia. apply Hout. lia.
    + lia.
  - exists O. cbn. rewrite Z.add_0_r. split_and!; [done|lia|intros; lia|lia].
Qed.

(** ** A DIMM smaller than the configured capacity *)

(** The decoder wraps with period [W = 2^k]: offsets from the reference cell hit the
    same cell exactly when they agree modulo [W].  The window is made of whole 4 MiB
    blocks, and [W] itself is probed. *)
Section periodic.
Context (k : Z).
Abbreviation W := (2 ^ k).
Hypothesis Hk : 22 <= k.
Hypothesis Hper : forall o1 o2, 0 <= o1 -> 0 <= o2 ->
  cell (ref + o1) = cell (ref + o2) <-> o1 mod W = o2 mod W.
Hypothesis Hblocks : (end_ - ref) mod 2 ^ 22 = 0.
Hypothesis Hprobed : ref + W + 8 <= end_.

Lemma mod_22 a b : a mod W = b mod W -> a mod 2 ^ 22 = b mod 2 ^ 22.
Proof.
  intros H. assert (Hd : (2 ^ 22 | W)).
  { exists (2 ^ (k - 22)). rewrite <-Z.pow_add_r by lia. f_equal. lia. }
  rewrite <-(Z.mod_mod_divide a W), H, Z.mod_mod_divide by done. done.
Qed.

Lemma pow_mod_22 j : 20 <= j -> (2 ^ j) mod 2 ^ 22 = 2 ^ 20 \/ (2 ^ j) mod 2 ^ 22 = 2 ^ 21 \/ (2 ^ j) mod 2 ^ 22 = 0.
Proof.
  intros Hj. destruct (Z.eq_dec j 20) as [->|]; [by left|]. destruct (Z.eq_dec j 21) as [->|]; [by right; left|].
  right; right. replace j with (22 + (j - 22)) by lia. rewrite Z.pow_add_r, Z.mul_comm by lia. apply Z.mod_mul. lia.
Qed.

Lemma edge_mod_22 : (end_ - 64 - ref) mod 2 ^ 22 = 2 ^ 22 - 64.
Proof.
  symmetry.
  apply Z.mod_unique_pos with ((end_ - ref) / 2 ^ 22 - 1); [lia|].
  pose proof (Z.div_mod (end_ - ref) (2 ^ 22)). lia.
Qed.

Lemma edge_alias o : 20 <= o -> (end_ - 64 - ref) mod W <> (2 ^ o) mod W.
Proof.
  intros Ho H%mod_22. rewrite edge_mod_22 in H.
  destruct (pow_mod_22 o Ho) as [Hp|[Hp|Hp]]; rewrite Hp in H; lia.
Qed.

Lemma edge_zero : (end_ - 64 - ref) mod W <> 0 mod W.
Proof. intros H%mod_22. rewrite edge_mod_22 in H. rewrite Z.mod_0_l in H by lia. lia. Qed.

Lemma pow_mod_low j : 0 <= j < k -> (2 ^ j) mod W = 2 ^ j.
Proof. intros. apply Z.mod_small. split; [apply Z.pow_nonneg; lia|apply Z.pow_lt_mono_r; lia]. Qed.

Lemma pow_mod_high j : k <= j -> (2 ^ j) mod W = 0.
Proof. intros. replace j with (j - k + k) by lia. rewrite Z.pow_add_r by lia. apply Z.mod_mul. apply Z.pow_nonzero; lia. Qed.

Lemma pow_alias_low i j : 20 <= i < k -> 20 <= j -> (2 ^ i) mod W = (2 ^ j) mod W -> i = j.
Proof.
  intros Hi Hj H. rewrite pow_mod_low in H by lia. destruct (Z.lt_ge_cases j k).
  - rewrite pow_mod_low in H by lia. apply Z.pow_inj_r in H; lia.
  - rewrite pow_mod_high in H by lia. assert (0 < 2 ^ i) by (apply Z.pow_pos_nonneg; lia). lia.
Qed.

Definition powers (n : nat) : list Z := map (fun i => 2 ^ (20 + Z.of_nat i)) (seq 0 n).

Lemma powers_In n o : In o (powers n) <-> exists i, 20 <= i < 20 + Z.of_nat n /\ o = 2 ^ i.
Proof.
  unfold powers. rewrite in_map_iff. split.
  - intros (i & <- & Hi%in_seq). exists (20 + Z.of_nat i). split; [lia|done].
  - intros (i & Hi & ->). exists (Z.to_nat (i - 20)). split; [f_equal; lia|]. apply in_seq. lia.
Qed.

(** The offsets in the order they are written. *)
Definition written (n : nat) : list Z := 0 :: powers n ++ [end_ - 64 - ref].

Lemma written_S n : written (S n) = (0 :: powers n) ++ 2 ^ (20 + Z.of_nat n) :: [end_ - 64 - ref].
Proof. unfold written, powers. rewrite seq_S, map_app. cbn. by rewrite <-app_assoc. Qed.

Lemma written_bounds n o : (forall i, (i < n)%nat -> ref + 2 ^ (20 + Z.of_nat i) + 8 <= end_) ->
  In o (written n) -> 0 <= o /\ ref + o < end_ /\ fits 64 (ref + o).
Proof.
  intros Hn [<-|[(i & Hi & ->)%powers_In|[<-|[]]]%in_app_or]; unfold fits; [lia| |lia].
  pose proof (Hn (Z.to_nat (i - 20)) ltac:(lia)) as H. replace (20 + Z.of_nat (Z.to_nat (i - 20))) with i in H by lia.
  assert (0 < 2 ^ i) by (apply Z.pow_pos_nonneg; lia). lia.
Qed.

Definition final (n : nat) (m : mem) : mem :=
  write_all cell probe_pat m (map (fun o => ref + o) (written n)).

(** An offset alone in its residue class reads its own marker. *)
Lemma read_unique n m o :
  (forall i, (i < n)%nat -> ref + 2 ^ (20 + Z.of_nat i) + 8 <= end_) -> In o (written n) ->
  (forall o', In o' (written n) -> o' mod W = o mod W -> o' = o) ->
  final n m (cell (ref + o)) = probe_pat (ref + o).
Proof.
  intros Hn Ho Hu. unfold final.
  destruct (write_all_value cell probe_pat (map (fun o => ref + o) (written n)) m (ref + o)) as (z & Hz & Hc & ->).
  { apply in_map_iff. by exists o. }
  apply in_map_iff in Hz as (o' & <- & Ho').
  destruct (written_bounds n o Hn Ho), (written_bounds n o' Hn Ho').
  apply Hper in Hc; [|done..]. by rewrite (Hu o' Ho' Hc).
Qed.

(** The class of the reference cell holds the marker of the largest power. *)
Lemma read_zero n m o :
  (forall i, (i < S n)%nat -> ref + 2 ^ (20 + Z.of_nat i) + 8 <= end_) -> k <= 20 + Z.of_nat n ->
  0 <= o -> o mod W = 0 ->
  final (S n) m (cell (ref + o)) = probe_pat (ref + 2 ^ (20 + Z.of_nat n)).
Proof.
  intros Hn Hkn Ho Hz. unfold final. rewrite written_S, map_app. cbn [map].
  assert (cell (ref + o) = cell (ref + 2 ^ (20 + Z.of_nat n))) as ->.
  { apply Hper; [done|apply Z.pow_nonneg; lia|]. by rewrite pow_mod_high. }
  apply (write_all_last cell probe_pat). intros a [<-|[]] Hc.
  apply Hper in Hc; [|lia|apply Z.pow_nonneg; lia].
  by apply (edge_alias (20 + Z.of_nat n)) in Hc; [|lia].
Qed.

Lemma find_wrap_skip m l : forall rest,
  (forall o, In o l -> rd cell m (u64 (ref + o)) = probe_pat (u64 (ref + o))) ->
  find_wrap m ref (l ++ rest) = find_wrap m ref rest.
Proof.
  induction l as [|o l IH]; intros rest Hok; [done|]. cbn [app find_wrap].
  rewrite (Hok o (or_introl eq_refl)), Z.eqb_refl. cbn. apply IH. intros o' Ho'. apply Hok. by right.
Qed.

Lemma find_wrap_hit m o rest : o <> 0 ->
  rd cell m (u64 (ref + o)) <> probe_pat (u64 (ref + o)) -> find_wrap m ref (o :: rest) = o.
Proof.
  intros Ho Hbad. cbn [find_wrap]. destruct (Z.eqb_spec (rd cell m (u64 (ref + o))) (probe_pat (u64 (ref + o)))); [done|].
  by destruct (Z.eqb_spec o 0).
Qed.

Lemma probe_pat_inj o1 o2 : fits 64 (ref + o1) -> fits 64 (ref + o2) ->
  probe_pat (ref + o1) = probe_pat (ref + o2) -> o1 = o2.
Proof. intros H1 H2 H. apply pat_inj in H; [lia|done..|by vm_compute]. Qed.

Lemma test_unfold m : exists n,
  (forall i, (i < S n)%nat -> ref + 2 ^ (20 + Z.of_nat i) + 8 <= end_) /\
  end_ < ref + 2 ^ (20 + Z.of_nat (S n)) + 8 /\
  (test_capacity_probe [(ref, end_)] m).2 =
    (find_wrap (final (S n) m) ref (powers (S n) ++ [end_ - 64 - ref]),
     rd cell (final (S n) m) ref =? probe_pat ref).
Proof.
  destruct (probe_offs_powers 64 0 20) as (n & Hoffs & Hin & Hout & Hn); [lia..|].
  destruct n as [|n]; [specialize (Hout ltac:(lia)); change (2 ^ (20 + Z.of_nat 0)) with 1048576 in Hout; lia|].
  exists n. split; [done|]. split; [apply Hout; lia|].
  unfold test_capacity_probe, write_probes, all_offs. cbn [hd List.last fst snd].
  change (1 .<< 20) with (2 ^ 20). rewrite Hoffs. unfold LINE_BYTES.
  rewrite (wrap_small 64 (end_ - 64 - ref)) by (unfold fits; lia).
  assert (forall l m0, (forall o, In o l -> In o (written (S n))) ->
    foldl (fun m o => wr cell m (u64 (ref + o)) (probe_pat (u64 (ref + o)))) m0 l
    = write_all cell probe_pat m0 (map (fun o => ref + o) l)) as Hfold.
  { induction l as [|o l IH]; intros m0 Hl; [done|]. cbn [foldl map write_all].
    destruct (written_bounds (S n) o Hin (Hl o (or_introl eq_refl))) as (? & ? & ?).
    rewrite wrap_small by done. rewrite IH; [done|]. intros o' Ho'. apply Hl. by right. }
  rewrite Hfold by (intros o Ho; by right). unfold final, written. cbn [map write_all foldl].
  by rewrite Z.add_0_r.
Qed.

Section probed.
Context (n : nat) (m : mem).
Hypothesis Hin : forall i, (i < S n)%nat -> ref + 2 ^ (20 + Z.of_nat i) + 8 <= end_.
Hypothesis Hkn : k <= 20 + Z.of_nat n.
Abbreviation P := (2 ^ (20 + Z.of_nat n)).
Abbreviation reads_ok o := (rd cell (final (S n) m) (u64 (ref + o)) = probe_pat (u64 (ref + o))).

Lemma power_written i : 20 <= i <= 20 + Z.of_nat n -> In (2 ^ i) (written (S n)).
Proof. intros. right. apply in_or_app. left. apply powers_In. exists i. split; [lia|done]. Qed.

Lemma edge_written : In (end_ - 64 - ref) (written (S n)).
Proof. right. apply in_or_app. right. by left. Qed.

Lemma written_u64 o : In o (written (S n)) -> u64 (ref + o) = ref + o.
Proof. intros Ho. destruct (written_bounds (S n) o Hin Ho) as (_ & _ & ?). by apply wrap_small. Qed.

Lemma zero_reads o : 0 <= o -> o mod W = 0 -> rd cell (final (S n) m) (ref + o) = probe_pat (ref + P).
Proof. intros. unfold rd. by apply read_zero. Qed.

Lemma low_ok i : 20 <= i < k -> reads_ok (2 ^ i).
Proof.
  intros Hi. assert (Hw : In (2 ^ i) (written (S n))) by (apply power_written; lia).
  rewrite written_u64 by done. apply read_unique; [done..|].
  intros o' [<-|[(j & Hj & ->)%powers_In|[<-|[]]]%in_app_or] Hmod.
  - exfalso. rewrite Z.mod_0_l, pow_mod_low in Hmod by lia.
    assert (0 < 2 ^ i) by (apply Z.pow_pos_nonneg; lia). lia.
  - symmetry in Hmod. apply pow_alias_low in Hmod as ->; [done|lia..].
  - by apply edge_alias in Hmod; [|lia].
Qed.

Lemma edge_ok : reads_ok (end_ - 64 - ref).
Proof.
  rewrite (written_u64 _ edge_written). apply read_unique; [done|apply edge_written|].
  intros o' [<-|[(j & Hj & ->)%powers_In|[<-|[]]]%in_app_or] Hmod; [| |done].
  - by symmetry in Hmod; apply edge_zero in Hmod.
  - by symmetry in Hmod; apply edge_alias in Hmod; [|lia].
Qed.

Lemma powers_split : powers (S n) = powers (Z.to_nat (k - 20)) ++
  W :: map (fun i => 2 ^ (20 + Z.of_nat i)) (seq (S (Z.to_nat (k - 20))) (n - Z.to_nat (k - 20))).
Proof.
  unfold powers. replace (S n) with (Z.to_nat (k - 20) + S (n - Z.to_nat (k - 20)))%nat by lia.
  rewrite seq_app, map_app. cbn [seq map Nat.add]. do 3 f_equal; lia.
Qed.

Lemma find_wrap_value :
  find_wrap (final (S n) m) ref (powers (S n) ++ [end_ - 64 - ref])
  = if k =? 20 + Z.of_nat n then 0 else W.
Proof.
  rewrite powers_split, <-app_assoc.
  rewrite find_wrap_skip by (intros o (i & Hi & ->)%powers_In; apply low_ok; lia). cbn [app].
  assert (In W (written (S n))) by (apply power_written; lia).
  assert (0 < W) by (apply Z.pow_pos_nonneg; lia).
  assert (rd cell (final (S n) m) (u64 (ref + W)) = probe_pat (ref + P)) as HrdW.
  { rewrite written_u64 by done. apply zero_reads; [lia|]. apply Z.mod_same. lia. }
  destruct (Z.eqb_spec k (20 + Z.of_nat n)) as [He|Hne].
  - replace (n - Z.to_nat (k - 20))%nat with O by lia. cbn [seq map app].
    rewrite (find_wrap_skip _ [W] [end_ - 64 - ref]).
    + rewrite <-(app_nil_r [end_ - 64 - ref]), find_wrap_skip; [done|].
      intros o [<-|[]]. apply edge_ok.
    + intros o [<-|[]]. by rewrite HrdW, <-He, written_u64.
  - apply find_wrap_hit; [lia|]. rewrite HrdW, written_u64 by done.
    destruct (written_bounds (S n) W Hin) as (_ & _ & ?); [done|].
    destruct (written_bounds (S n) P Hin) as (_ & _ & ?); [apply power_written; lia|].
    intros He%probe_pat_inj; [|done..]. apply Z.pow_inj_r in He; lia.
Qed.
End probed.

(** When the installed memory wraps with a power-of-two period [W] inside the
    claimed window, the probe never passes: the reference cell has lost its marker.
    The first offset whose marker is lost is [W] itself when [2W] was probed too; but
    when [W] is the largest power probed - a DIMM of half the configured size - no
    probe loses its marker and the reported wrap offset is 0. *)
Theorem capacity_probe_wraps m :
  (test_capacity_probe [(ref, end_)] m).2 =
    (if end_ <? ref + 2 * W + 8 then 0 else W, false).
Proof.
  destruct (test_unfold m) as (n & Hin & Hout & ->).
  assert (0 < W) as HW by (apply Z.pow_pos_nonneg; lia).
  assert (k <= 20 + Z.of_nat n) as Hkn.
  { destruct (Z.le_gt_cases k (20 + Z.of_nat n)); [done|]. exfalso.
    assert (2 ^ (20 + Z.of_nat (S n)) <= W) by (apply Z.pow_le_mono_r; lia). lia. }
  rewrite find_wrap_value by done. f_equal.
  - replace (20 + Z.of_nat (S n)) with (20 + Z.of_nat n + 1) in Hout by lia.
    rewrite Z.pow_add_r in Hout by lia. pose proof (Hin n ltac:(lia)) as Hn.
    destruct (Z.eqb_spec k (20 + Z.of_nat n)) as [He|Hne].
    + rewrite <-He in *. by zcases.
    + assert (2 ^ (k + 1) <= 2 ^ (20 + Z.of_nat n)) as Hle by (apply Z.pow_le_mono_r; lia).
      rewrite Z.pow_add_r in Hle by lia. by zcases.
  - apply Z.eqb_neq. rewrite <-(Z.add_0_r ref) at 1.
    rewrite zero_reads by (done || apply Z.mod_0_l; lia). rewrite <-(Z.add_0_r ref) at 2.
    destruct (written_bounds (S n) (2 ^ (20 + Z.of_nat n)) Hin) as (_ & _ & ?); [apply power_written; lia|].
    destruct (written_bounds (S n) 0 Hin) as (_ & _ & ?); [by left|].
    assert (0 < 2 ^ (20 + Z.of_nat n)) by (apply Z.pow_pos_nonneg; lia).
    intros He%probe_pat_inj; [lia|done..].
Qed.
End periodic.
End contiguous.
End probe.

(** Half a GiB configured, a quarter installed: the probe fails without naming the
    real capacity. *)
Definition wrap_cell (a : Z) : Z := (a - 0x80000000) mod 2 ^ 28.

Lemma capacity_probe_wraps_witness :
  (test_capacity_probe wrap_cell [(0x80000000, 0xA0000000)] (fun _ => 0)).2 = (0, false) /\
  (test_capacity_probe wrap_cell [(0x80000000, 0x100000000)] (fun _ => 0)).2 = (2 ^ 28, false).
Proof.
  assert (Hper : forall o1 o2, 0 <= o1 -> 0 <= o2 ->
    wrap_cell (0x80000000 + o1) = wrap_cell (0x80000000 + o2) <-> o1 mod 2 ^ 28 = o2 mod 2 ^ 28).
  { intros o1 o2 _ _. unfold wrap_cell.
    replace (0x80000000 + o1 - 0x80000000) with o1 by lia.
    by replace (0x80000000 + o2 - 0x80000000) with o2 by lia. }
  split; (refine (capacity_probe_wraps wrap_cell _ _ _ _ _ 28 _ Hper _ _ _);
          vm_compute; (reflexivity || discriminate)).
Defined.
End Probe.

(** ** Testable windows *)
Module Windows.
Import Ranges.

Section windows.
Context (stack_start stack_size : Z)  (* linker symbols *)
        (dtb_nharts brk : Z)          (* dtb_nharts(), sbrk(0) *)
        (UINTPTR_MAX : Z).

Definition reserved_end : Z :=
  let r := u64 (stack_start + u64 (dtb_nharts * stack_size)) in
  let r := if u64 (brk + (1 .<< 20)) >? r then u64 (brk + (1 .<< 20)) else r in
  u64 (r + (WIN_BYTES - 1)) .& cnot 64 (WIN_BYTES - 1).

Definition addr_limit : Z :=
  if negb (UINTPTR_MAX =? 2 ^ 64 - 1) then u64 (UINTPTR_MAX + 1) else UINTPTR_MAX.

(** The loop over the ranges: windows so far, [cnt] as their number, [*clamped]. *)
Fixpoint windows_from (ranges : list ram_range_t) (max cnt : nat) (clamped : Z)
  : list (Z * Z) * Z :=
  match ranges with
  | [] => ([], clamped)
  | r :: ranges =>
      if (cnt <? max)%nat then
        let start := base r in
        let end_ := u64 (base r + size r) in
        let start := if start <? reserved_end then reserved_end else start in
        let clamp := negb (addr_limit =? 0) && (end_ >? addr_limit) in
        let clamped := if clamp then u64 (clamped + (end_ - addr_limit)) else clamped in
        let end_ := if clamp then addr_limit else end_ in
        if u64 (start + WIN_BYTES) >? end_ then windows_from ranges max cnt clamped
        else let '(ws, c) := windows_from ranges max (S cnt) clamped in ((start, end_) :: ws, c)
      else ([], clamped)
  end.

Definition compute_windows (ranges : list ram_range_t) (max : nat) : list (Z * Z) * Z :=
  windows_from ranges max 0 0.

Hypothesis Hrv64 : UINTPTR_MAX = 2 ^ 64 - 1.
Hypothesis Hres : reserved_end + WIN_BYTES < 2 ^ 64.

Lemma reserved_end_nonneg : 0 <= reserved_end.
Proof. unfold reserved_end. apply Z.land_nonneg. left. by apply wrap_range. Qed.

Definition window_of (ranges : list ram_range_t) (w : Z * Z) : Prop :=
  (exists r, In r ranges /\ w.1 = Z.max (base r) reserved_end /\ w.2 = range_end r) /\ w.1 + WIN_BYTES <= w.2.

Lemma windows_from_spec ranges : forall lo max cnt clamped ws c,
  separated lo ranges -> windows_from ranges max cnt clamped = (ws, c) ->
  Dram.wins_from (Z.max 0 lo) ws /\ (cnt + length ws <= Nat.max cnt max)%nat /\
  Forall (window_of ranges) ws /\ c = clamped.
Proof.
  pose proof reserved_end_nonneg.
  induction ranges as [|r ranges IH]; cbn [windows_from separated]; intros lo max cnt clamped ws c Hsep Hw.
  { simplify_eq. cbn. split_and!; [done|lia|constructor|done]. }
  destruct Hsep as (Hlo & Hr & Hsep). rewrite range_wrap in Hw by done.
  pose proof Hr as (? & ? & ?). unfold range_end, LINE_BYTES in *. rewrite WIN_BYTES_eq in *.
  destruct (Nat.ltb_spec cnt max); [|simplify_eq; cbn; split_and!; [done|lia|constructor|done]].
  unfold addr_limit in Hw. rewrite Hrv64, Z.eqb_refl in Hw. cbn [negb] in Hw.
  destruct (Z.gtb_spec (base r + size r) (2 ^ 64 - 1)); [lia|]. cbn [andb] in Hw.
  rewrite andb_false_r in Hw. set (start := if base r <? reserved_end then _ else _) in *.
  assert (start = Z.max (base r) reserved_end) as Hstart by (unfold start; destruct (Z.ltb_spec (base r) reserved_end); lia).
  clearbody start.
  assert (forall l, Forall (window_of ranges) l -> Forall (window_of (r :: ranges)) l) as Hmono.
  { intros l Hl. eapply Forall_impl; [exact Hl|]. intros w ((r' & ? & ?) & ?). split; [|done]. exists r'. cbn. auto. }
  destruct (Z.gtb_spec (u64 (start + 4194304)) (base r + size r)) as [Hsmall|Hbig].
  - destruct (IH _ _ _ _ _ _ Hsep Hw) as (Hwf & ? & ? & ?). split_and!; [|lia|auto|done].
    destruct ws as [|w ws]; [done|]. cbn in *. intuition lia.
  - destruct (windows_from ranges max (S cnt) clamped) as [ws' c'] eqn:Hrec. simplify_eq.
    destruct (IH _ _ _ _ _ _ Hsep Hrec) as (Hwf & ? & ? & ->).
    rewrite wrap_small in Hbig by (unfold fits; lia).
    rewrite Z.max_r in Hwf by lia.
    split; [|split; [cbn [length]; lia|split; [|done]]].
    + cbn [Dram.wins_from fst snd]. unfold LINE_BYTES. split; [lia|]. split; [lia|done].
    + constructor; [|auto]. split; [|rewrite WIN_BYTES_eq; cbn; lia].
      exists r. cbn. unfold range_end. auto with lia.
Qed.

(** The windows the suites run on: each is the part of one RAM range of the tree
    above the program, its stacks and the live heap, and at least [WIN_BYTES] long; they
    are disjoint and in increasing order, at most [max] of them, and on RV64 nothing
    is clamped away. *)
Theorem compute_windows_spec ranges max ws c :
  (max <= 8)%nat -> separated (-1) ranges -> compute_windows ranges max = (ws, c) ->
  Dram.wins_ok ws /\ Forall (window_of ranges) ws /\ c = 0.
Proof.
  intros Hmax Hsep Hw. destruct (windows_from_spec _ _ _ _ _ _ _ Hsep Hw) as (? & ? & ? & ?).
  split_and!; [|done..]. split; [done|]. cbn in *. lia.
Qed.
End windows.

Lemma compute_windows_spec_witness :
  compute_windows 0x80010000 0x1000 2 0x80008000 (2 ^ 64 - 1)
    [Range 0x80000000 0x1000000; Range 0x90000000 0x100000] 8 = ([(0x80400000, 0x81000000)], 0) /\
  Dram.wins_ok [(0x80400000, 0x81000000)].
Proof.
  assert (H : compute_windows 0x80010000 0x1000 2 0x80008000 (2 ^ 64 - 1)
    [Range 0x80000000 0x1000000; Range 0x90000000 0x100000] 8 = ([(0x80400000, 0x81000000)], 0))
    by (vm_compute; reflexivity).
  split; [exact H|].
  refine (proj1 (compute_windows_spec 0x80010000 0x1000 2 0x80008000 (2 ^ 64 - 1) _ _ _ 8 _ _ _ _ H)).
  - reflexivity.
  - vm_compute. reflexivity.
  - lia.
  - repeat split; vm_compute; congruence.
Defined.
End Windows.

(** A decoder that drops address bit 12 aliases the two halves of the window below. *)
Definition drop_bit12 (a : Z) : Z := Z.clearbit a 12.
Definition id_cell (a : Z) : Z := a.
Definition demo_win : list (Z * Z) := [(0x80000000, 0x80000400); (0x80001000, 0x80001400)].

Lemma full_sweep_iff_witness :
  Dram.test_full_sweep drop_bit12 demo_win (fun _ => 0) = 1 /\
  (Dram.test_full_sweep id_cell demo_win (fun _ => 0) = 0 <->
   ~ Dram.aliased id_cell (Dram.all_addrs WORD_BYTES demo_win)).
Proof.
  split; [vm_compute; reflexivity|]. apply Dram.full_sweep_iff.
  split; [repeat split; vm_compute; discriminate|cbn; lia].
Defined.

Lemma line_edges_iff_witness :
  (Dram.test_line_edges drop_bit12 demo_win (fun _ => 0)).2 = 1 /\
  ((Dram.test_line_edges id_cell demo_win (fun _ => 0)).2 = 0 <->
   ~ Dram.aliased id_cell (Dram.all_addrs LINE_BYTES demo_win)).
Proof.
  split; [vm_compute; reflexivity|]. apply Dram.line_edges_iff.
  split; [repeat split; vm_compute; discriminate|cbn; lia].
Defined.
