(* ===== verification/MemSuites.v ===== *)
(** * The DRAM test: the remaining suites and its verdict

    The interleave, access-width and burst suites of mem-test/main.c, and [main], which runs
    all six on the memory the one before left.  Memory holds 64-bit words, addressed through
    the decoder [cell]; a narrower access selects its byte lanes of the word, as the bus's
    write strobes do.  [clock] is the wall clock of the progress lines. *)
From S2P Require Import Prelude MemTest.
Import Pattern Ranges Dram Probe Windows.

Definition MAX_RANGES : nat := 8.
Definition FOUR_GIB : Z := 0x100000000.

(** ** The 64-bit counter behind two 32-bit registers *)
Module Clock.
Section clock.
(** The counter at the moment of the [n]-th register read. *)
Context (mtime : nat -> Z).

(** [clock_now] when a CLINT was found: the high word is read again after the low one. *)
Fixpoint clock_now (fuel n : nat) : option (Z * nat) :=
  match fuel with
  | O => None
  | S fuel =>
      let hi := u32 (mtime n .>> 32) in
      let lo := u32 (mtime (S n)) in
      let hi2 := u32 (mtime (S (S n)) .>> 32) in
      if negb (hi =? hi2) then clock_now fuel (S (S (S n)))
      else Some ((u64 (hi .<< 32)) .| lo, S (S (S n)))
  end.

Hypothesis Hfits : forall n, fits 64 (mtime n).
Hypothesis Hmono : forall n, mtime n <= mtime (S n).

Lemma mtime_split n : mtime n = u32 (mtime n .>> 32) * 2 ^ 32 + u32 (mtime n).
Proof.
  specialize (Hfits n). unfold wrap, fits in *. rewrite Z.shiftr_div_pow2 by lia.
  rewrite (Z.mod_small (mtime n / 2 ^ 32)); [|split; [apply Z.div_pos; lia|apply Z.div_lt_upper_bound; lia]].
  pose proof (Z.div_mod (mtime n) (2 ^ 32)). lia.
Qed.

Lemma hi_mono n : u32 (mtime n .>> 32) <= u32 (mtime (S n) .>> 32).
Proof.
  pose proof (Hfits n). pose proof (Hfits (S n)). unfold wrap, fits in *. rewrite !Z.shiftr_div_pow2 by lia.
  rewrite !Z.mod_small; [by apply Z.div_le_mono|split; [apply Z.div_pos; lia|apply Z.div_lt_upper_bound; lia]..].
Qed.

(** A round whose high words agree has read the counter whole. *)
Lemma clock_round n : u32 (mtime n .>> 32) = u32 (mtime (S (S n)) .>> 32) ->
  u64 (u32 (mtime n .>> 32) .<< 32) .| u32 (mtime (S n)) = mtime (S n).
Proof.
  intros He. pose proof (hi_mono n). pose proof (hi_mono (S n)).
  assert (u32 (mtime n .>> 32) = u32 (mtime (S n) .>> 32)) as -> by lia.
  pose proof (mtime_split (S n)) as Hs. pose proof (wrap_range 32 (mtime (S n)) ltac:(lia)).
  pose proof (wrap_range 32 (mtime (S n) .>> 32) ltac:(lia)).
  rewrite Z.shiftl_mul_pow2 by lia. rewrite wrap_small by (unfold fits; lia).
  rewrite Z.lor_comm, <-Z.shiftl_mul_pow2, lor_shiftl_add by (lia || apply wrap_fits; lia). lia.
Qed.
End clock.
End Clock.
Import Clock.

(** ** The suites *)
Section suites.
Context (cell : Z -> Z).

(** Suite 2: a window at the start, one across 4 GiB, one at the top. *)
Definition probe_windows (wins : list (Z * Z)) : list (Z * Z) :=
  let w0 := hd (0, 0) wins in
  let wl := List.last wins (0, 0) in
  let p0 := (w0.1, u64 (w0.1 + WIN_BYTES)) in
  let across (w : Z * Z) :=
    (u64 (w.1 + WIN_BYTES) <? FOUR_GIB - WIN_BYTES) && (FOUR_GIB + WIN_BYTES <=? w.2) in
  p0 :: (if existsb across wins then [(FOUR_GIB - WIN_BYTES, FOUR_GIB + WIN_BYTES)] else [])
     ++ (if u64 (wl.2 - WIN_BYTES) >? p0.2 then [(u64 (wl.2 - WIN_BYTES), wl.2)] else []).

Definition mark_window (m : mem) (w : Z * Z) : mem :=
  foldl (fun m a => wr cell m a (pat a SEED_A)) m (addrs w.1 w.2 LINE_BYTES).

(** A verifying loop: [bad] after it. *)
Definition check (rd : Z -> Z) (exp : Z -> Z) (bad a : Z) : Z := if rd a =? exp a then bad else u64 (bad + 1).

Definition verify_window (m : mem) (f : Z) (w : Z * Z) : Z :=
  let bad := foldl (check (rd cell m) (fun a => pat a SEED_A)) 0 (addrs w.1 w.2 LINE_BYTES) in
  if negb (bad =? 0) then f + 1 else f.

Definition test_interleave_markers (wins : list (Z * Z)) (m : mem) : mem * Z :=
  let probes := probe_windows wins in
  let m := foldl mark_window m probes in
  (m, foldl (verify_window m) 0 probes).

(** Loads and stores of [w] bytes inside one word. *)
Definition word (a : Z) : Z := a .& cnot 64 7.
Definition lane (a : Z) : Z := 8 * (a .& 7).
Definition ld (w : Z) (m : mem) (a : Z) : Z := wrap (8 * w) (rd cell m (word a) .>> lane a).
Definition st (w : Z) (m : mem) (a v : Z) : mem :=
  wr cell m (word a) ((rd cell m (word a) .& cnot 64 (Z.ones (8 * w) .<< lane a)) .| (wrap (8 * w) v .<< lane a)).

(** Suite 3: one width. *)
Definition width_case (base seed w : Z) (m : mem) : mem * Z :=
  let l := map (fun off => u64 (base + off)) (addrs 0 (4 * LINE_BYTES) w) in
  let m := foldl (fun m a => st w m a (mix64 (a .^ seed))) m l in
  (m, foldl (check (ld w m) (fun a => wrap (8 * w) (mix64 (a .^ seed)))) 0 l).

Definition test_access_widths (wins : list (Z * Z)) (m : mem) : mem * Z :=
  let base := (hd (0, 0) wins).1 in
  foldl (fun '(m, f) '(c, w) =>
    let '(m, bad) := width_case base (u64 (u64 (SEED_A + c) + 1)) w m in
    (m, if negb (bad =? 0) then f + 1 else f)) (m, 0) [(0, 1); (1, 2); (2, 4); (3, 8)].

(** Suite 4.  [memcpy] and [memcmp] on a megabyte of words. *)
Definition BLK : Z := 1 .<< 20.
Definition SEED_BURST : Z := SEED_A .^ 0xB0B.
Definition src_words (src : Z) : list Z := addrs src (src + BLK) WORD_BYTES.

Definition memcpy (dst src : Z) (m : mem) : mem :=
  foldl (fun m a => wr cell m (u64 (a - src + dst)) (rd cell m a)) m (src_words src).
Definition memcmp_ne (dst src : Z) (m : mem) : bool :=
  existsb (fun a => negb (rd cell m (u64 (a - src + dst)) =? rd cell m a)) (src_words src).

Definition test_burst_copy (wins : list (Z * Z)) (m : mem) : mem * Z :=
  let src := (hd (0, 0) wins).1 in
  let dst := u64 ((hd (0, 0) wins).1 + WIN_BYTES / 2) in
  let m := foldl (fun m a => wr cell m a (pat a SEED_BURST)) m (src_words src) in
  let m := memcpy dst src m in
  let f := if memcmp_ne dst src m then 1 else 0 in
  let bad := foldl (check (rd cell m) (fun a => pat a SEED_BURST)) 0 (src_words src) in
  (m, if negb (bad =? 0) then f + 1 else f).

(** [main] from the ranges of the tree; [stack_start] ... [brk] as in [compute_windows]. *)
Definition main (stack_start stack_size nharts brk UINTPTR_MAX : Z) (ranges : list ram_range_t) (m : mem) : Z :=
  match ranges with
  | [] => 1
  | _ =>
      let wins := (compute_windows stack_start stack_size nharts brk UINTPTR_MAX ranges MAX_RANGES).1 in
      match wins with
      | [] => 1
      | _ =>
          let '(m, (wrap, ref_ok)) := test_capacity_probe cell wins m in
          if negb ((wrap =? 0) && ref_ok) then 1 else
          let '(m, f2) := test_interleave_markers wins m in
          let '(m, f3) := test_access_widths wins m in
          let '(m, f4) := test_burst_copy wins m in
          let '(m, f5) := test_line_edges cell wins m in
          let f6 := test_full_sweep cell wins m in
          if f2 + f3 + f4 + f5 + f6 =? 0 then 0 else 1
      end
  end.
End suites.
