(* ===== verification/MemVerdict.v ===== *)
(** * The verdict of the DRAM test

    [mem_test_verdict]: the program reports success exactly on the boards whose address
    decoder keeps all the tested words apart.  [clock_now_atomic]: the wall clock is never torn. *)
From S2P Require Import Prelude MemTest MemSuites.
Import Pattern Ranges Dram Probe Windows Clock.

(** ** Byte lanes *)

Lemma lane_eq a : lane a = 8 * (a mod 8).
Proof. unfold lane. change 7 with (Z.ones 3). by rewrite land_ones_mod. Qed.

Lemma word_eq a : fits 64 a -> word a = a - a mod 8.
Proof.
  intros Ha. unfold word, cnot. change 7 with (Z.ones 3). change (a mod 8) with (a mod 2 ^ 3). rewrite <-ldiff_ones by lia.
  apply Z.bits_inj'. intros i Hi. rewrite !Z.land_spec, wrap_testbit, !Z.lnot_spec by lia.
  destruct (Z.ltb_spec i 64); [done|]. by rewrite (fits_testbit 64 a i).
Qed.

Section access.
Context (cell : Z -> Z).

Lemma ones_testbit n i : 0 <= n -> 0 <= i -> Z.testbit (Z.ones n) i = (i <? n).
Proof. intros. rewrite Z.testbit_ones by done. by destruct (Z.leb_spec 0 i); [|lia]. Qed.

(** A lane of a word whose other lanes were overwritten: what was stored, or what was there. *)
Lemma lane_bits X v l l' n i : 0 <= l -> 0 <= l' -> 0 <= i < n -> 0 <= n -> l + n <= 64 -> l' + n <= 64 ->
  l = l' \/ l + n <= l' \/ l' + n <= l ->
  Z.testbit ((X .& cnot 64 (Z.ones n .<< l)) .| (wrap n v .<< l)) (i + l') = if l =? l' then Z.testbit v i else Z.testbit X (i + l').
Proof.
  intros Hl Hl' Hi Hn He He' Hd. unfold cnot. rewrite Z.lor_spec, Z.land_spec, wrap_testbit, Z.lnot_spec by lia.
  rewrite !Z.shiftl_spec by lia. destruct (Z.ltb_spec (i + l') 64); [|lia].
  destruct (Z.eqb_spec l l') as [<-|Hne].
  - replace (i + l - l) with i by lia. rewrite ones_testbit, wrap_testbit by lia.
    destruct (Z.ltb_spec i n); [|lia]. cbn. by rewrite andb_false_r.
  - destruct (Z.le_gt_cases (l + n) l').
    + rewrite ones_testbit by lia. destruct (Z.ltb_spec (i + l' - l) n); [lia|].
      rewrite wrap_testbit by lia. destruct (Z.ltb_spec (i + l' - l) n); [lia|]. cbn. by rewrite andb_true_r, orb_false_r.
    + rewrite !(Z.testbit_neg_r _ (i + l' - l)) by lia. cbn. by rewrite andb_true_r, orb_false_r.
Qed.

Lemma ld_spec w m a i : 0 <= w -> 0 <= i ->
  Z.testbit (ld cell w m a) i = (i <? 8 * w) && Z.testbit (rd cell m (word a)) (i + lane a).
Proof. intros. unfold ld. rewrite wrap_testbit by lia. by rewrite Z.shiftr_spec. Qed.

(** Aligned accesses of one width, [w] a divisor of 8. *)
Definition aligned (w a : Z) : Prop := fits 64 a /\ a mod 8 mod w = 0.

Lemma ld_st w m a b v : In w [1; 2; 4; 8] -> aligned w a -> aligned w b ->
  (word a = word b \/ cell (word a) <> cell (word b)) ->
  ld cell w (st cell w m a v) b = if a =? b then wrap (8 * w) v else ld cell w m b.
Proof.
  intros Hw [Ha Haw] [Hb Hbw] Hc.
  pose proof (Z.mod_pos_bound a 8 ltac:(lia)). pose proof (Z.mod_pos_bound b 8 ltac:(lia)).
  assert (0 < w <= 8 /\ a mod 8 + w <= 8 /\ b mod 8 + w <= 8 /\
    (a mod 8 = b mod 8 \/ a mod 8 + w <= b mod 8 \/ b mod 8 + w <= a mod 8)) as (? & ? & ? & Hd).
  { cbn in Hw. destruct Hw as [<-|[<-|[<-|[<-|[]]]]]; Z.div_mod_to_equations; lia. }
  apply Z.bits_inj'. intros i Hi. rewrite ld_spec by lia.
  destruct Hc as [Hc|Hc].
  - rewrite !word_eq in Hc by done. unfold st. rewrite (word_eq a), (word_eq b) by done. rewrite Hc. unfold rd at 1. rewrite wr_same by done.
    rewrite !lane_eq. destruct (Z.ltb_spec i (8 * w)).
    + rewrite lane_bits by lia. rewrite andb_true_l.
      destruct (Z.eqb_spec (8 * (a mod 8)) (8 * (b mod 8))), (Z.eqb_spec a b); try lia.
      * rewrite wrap_testbit by lia. by destruct (Z.ltb_spec i (8 * w)); [|lia].
      * rewrite ld_spec, lane_eq by lia. rewrite word_eq by done. by destruct (Z.ltb_spec i (8 * w)); [|lia].
    + cbn [andb]. destruct (Z.eqb_spec a b); [|rewrite ld_spec by lia]; [rewrite wrap_testbit by lia|]; by destruct (Z.ltb_spec i (8 * w)); [lia|].
  - destruct (Z.eqb_spec a b) as [->|]; [done|]. rewrite ld_spec by lia. unfold st, rd at 1. rewrite wr_other by auto. done.
Qed.
End access.

(** ** On a faithful decoder every suite passes *)
Section faithful.
Context (cell : Z -> Z) (wins : list (Z * Z)).
Hypothesis Hok : wins_ok wins.
Hypothesis Hwins : Forall (fun w => w.1 mod 8 = 0 /\ w.2 mod 8 = 0 /\ w.1 + 4194304 <= w.2 <= 2 ^ 63) wins.
Hypothesis Hne : wins <> [].
Hypothesis Hinj : ~ aliased cell (all_addrs WORD_BYTES wins).

(** The tested words. *)
Definition tested (a : Z) : Prop := exists w, In w wins /\ w.1 <= a < w.2 /\ a mod 8 = 0.

Lemma win_bounds w : In w wins -> 0 <= w.1 /\ w.1 mod 8 = 0 /\ w.2 mod 8 = 0 /\ w.1 + 4194304 <= w.2 <= 2 ^ 63.
Proof.
  intros Hw. rewrite Forall_forall in Hwins. specialize (Hwins w (proj2 (list_elem_of_In _ _) Hw)). split; [|done].
  destruct Hok as [H _]. assert (forall lo, 0 <= lo -> wins_from lo wins -> 0 <= w.1) as Hlo; [|by apply (Hlo 0)].
  clear -Hw. induction wins as [|x l IH]; [done|]. intros lo Hlo (? & _ & Hl). destruct Hw as [->|Hw]; [lia|]. apply (IH Hw x.2); [lia|done].
Qed.

Lemma tested_words a : tested a -> In a (all_addrs WORD_BYTES wins).
Proof.
  intros (w & Hw & Ha & Hm). pose proof (win_bounds w Hw). apply in_concat. exists (addrs w.1 w.2 WORD_BYTES).
  split; [by apply in_map_iff; exists w|]. replace a with (w.1 + (a - w.1) / 8 * 8) by (Z.div_mod_to_equations; lia).
  unfold WORD_BYTES. apply for_range_enough; (lia || Z.div_mod_to_equations; lia).
Qed.

Lemma tested_fits a : tested a -> fits 64 a.
Proof. intros (w & Hw & ? & _). apply win_bounds in Hw. unfold fits. lia. Qed.

Lemma tested_apart a b : tested a -> tested b -> a <> b -> cell a <> cell b.
Proof. intros Ha Hb Hab Hc. apply Hinj. exists a, b. auto using tested_words. Qed.

Lemma free l : (forall a, In a l -> tested a) -> ~ aliased cell l.
Proof. intros Hl (a & b & Ha & Hb & ? & ?). by apply (tested_apart a b); auto. Qed.

Lemma window_tested s e step a w : In w wins -> w.1 <= s -> e <= w.2 -> s mod 8 = 0 -> 0 < step <= 64 -> step mod 8 = 0 ->
  In a (addrs s e step) -> tested a.
Proof.
  intros Hw Hs He Hm Hst Hsm Ha. pose proof (win_bounds w Hw). apply for_range_elem in Ha as (? & k & ? & ->); [|lia..].
  exists w. split; [done|]. split; [lia|]. Z.div_mod_to_equations. nia.
Qed.

Lemma first_win : In (hd (0, 0) wins) wins.
Proof. destruct wins; [done|by left]. Qed.

Lemma last_win : In (List.last wins (0, 0)) wins.
Proof. destruct (exists_last Hne) as (l & w & ->). rewrite last_last. apply in_or_app. cbn. auto. Qed.

Lemma check_all rd exp l : (forall a, In a l -> rd a = exp a) -> foldl (check rd exp) 0 l = 0.
Proof.
  induction l as [|a l IH]; intros H; [done|]. cbn. unfold check at 2. rewrite (H a (or_introl eq_refl)), Z.eqb_refl. apply IH. auto using in_cons.
Qed.

(** The probe: powers of two below 2^63 and the last line. *)
Lemma probe_offs_tested fuel : forall np j, 20 <= j <= 63 ->
  Forall (fun o => tested (u64 ((hd (0, 0) wins).1 + o))) (probe_offs fuel np wins (hd (0, 0) wins).1 (List.last wins (0, 0)).2 (2 ^ j)).
Proof.
  pose proof (win_bounds _ first_win) as H0. pose proof (win_bounds _ last_win) as Hl. set (ref := (hd (0, 0) wins).1) in *. set (e := (List.last wins (0, 0)).2) in *.
  induction fuel as [|fuel IH]; intros np j Hj; cbn [probe_offs]; [constructor|].
  assert (0 < 2 ^ j <= 2 ^ 63) by (split; [apply Z.pow_pos_nonneg; lia|apply Z.pow_le_mono_r; lia]).
  destruct (Z.leb_spec (u64 (ref + 2 ^ j + WORD_BYTES)) e) as [Hle|]; [|constructor]. cbn [andb].
  unfold WORD_BYTES in Hle. rewrite wrap_small in Hle by (unfold fits; lia).
  destruct (Z.eq_dec j 63) as [->|]; [lia|].
  assert (2 ^ j <= 2 ^ 62) by (apply Z.pow_le_mono_r; lia).
  assert (u64 (2 ^ j .<< 1) = 2 ^ (j + 1)) as Hn.
  { rewrite Z.shiftl_mul_pow2, Z.pow_add_r by lia. apply wrap_small. unfold fits. lia. }
  rewrite Hn. destruct (np <? 63)%nat; [|constructor].
  destruct (addr_testable wins (u64 (ref + 2 ^ j))) eqn:Ht; [|by apply IH; lia].
  constructor; [|by apply IH; lia]. rewrite wrap_small in Ht |- * by (unfold fits; lia).
  unfold addr_testable in Ht. apply existsb_exists in Ht as (w & Hw & Hb). apply andb_prop in Hb as [Hb1 Hb2].
  apply Z.geb_le in Hb1. apply Z.leb_le in Hb2. unfold WORD_BYTES in Hb2. rewrite wrap_small in Hb2 by (unfold fits; lia).
  exists w. split; [done|]. split; [lia|]. replace (2 ^ j) with (2 ^ (j - 3) * 8) by (change 8 with (2 ^ 3); rewrite <-Z.pow_add_r by lia; f_equal; lia).
  Z.div_mod_to_equations. lia.
Qed.

Lemma offs_tested o : let ref := (hd (0, 0) wins).1 in
  In o (all_offs wins ref (List.last wins (0, 0)).2) -> tested (u64 (ref + o)).
Proof.
  intros ref. pose proof (win_bounds _ first_win) as H0. pose proof (win_bounds _ last_win) as Hl.
  pose proof (probe_offs_tested 64 0 20 ltac:(lia)) as Hoffs. fold ref in H0, Hoffs. unfold all_offs.
  intros [Ho|[<-|[]]]%in_app_or; [rewrite Forall_forall in Hoffs; by apply Hoffs, list_elem_of_In|].
  unfold LINE_BYTES. rewrite wrap_add_r. replace (ref + ((List.last wins (0, 0)).2 - 64 - ref)) with ((List.last wins (0, 0)).2 - 64) by lia.
  rewrite wrap_small by (unfold fits; lia).
  exists (List.last wins (0, 0)). split; [apply last_win|]. split; [lia|]. Z.div_mod_to_equations. lia.
Qed.

Lemma write_probes_eq ref offs m :
  write_probes cell ref offs m = write_all cell probe_pat m (ref :: map (fun o => u64 (ref + o)) offs).
Proof.
  unfold write_probes. cbn [write_all foldl]. generalize (wr cell m ref (probe_pat ref)).
  induction offs as [|o l IH]; intros m'; [done|]. apply IH.
Qed.

Lemma probe_reads ref offs m : tested ref -> (forall o, In o offs -> tested (u64 (ref + o))) ->
  find_wrap cell (write_probes cell ref offs m) ref offs = 0 /\ rd cell (write_probes cell ref offs m) ref = probe_pat ref.
Proof.
  intros Hr Ho. rewrite write_probes_eq. set (l := ref :: map (fun o => u64 (ref + o)) offs).
  assert (~ aliased cell l) as Hf. { apply free. intros a [<-|(o & <- & ?)%in_map_iff]; auto. }
  split; [|by apply write_all_injective; [|left]].
  rewrite <-(app_nil_r offs). rewrite find_wrap_skip; [done|]. intros o Hin. apply write_all_injective; [done|]. right. apply in_map_iff. eauto.
Qed.

Lemma probe_passes m : (test_capacity_probe cell wins m).2 = (0, true).
Proof.
  pose proof (win_bounds _ first_win). destruct (probe_reads (hd (0, 0) wins).1
    (all_offs wins (hd (0, 0) wins).1 (List.last wins (0, 0)).2) m) as [H1 H2]; [|by apply offs_tested|].
  - exists (hd (0, 0) wins). split; [apply first_win|]. split; [lia|tauto].
  - unfold test_capacity_probe. cbn [snd]. by rewrite H1, H2, Z.eqb_refl.
Qed.

(** The marker windows lie in the tested ones. *)
Lemma probe_windows_tested w a : In w (probe_windows wins) -> In a (addrs w.1 w.2 LINE_BYTES) -> tested a.
Proof.
  pose proof (win_bounds _ first_win) as H0. pose proof (win_bounds _ last_win) as Hl. unfold probe_windows, LINE_BYTES, FOUR_GIB. rewrite WIN_BYTES_eq. cbv zeta.
  rewrite (wrap_small 64 ((hd _ _).1 + 4194304)), (wrap_small 64 (_ - 4194304)) by (unfold fits; lia). cbn [fst snd].
  intros [<-|[Hw|Hw]%in_app_or] Ha.
  - eapply (window_tested _ _ 64 a _ first_win); [..|exact Ha]; cbn [fst snd]; (lia || Z.div_mod_to_equations; lia).
  - destruct (existsb _ wins) eqn:E; [|done]. destruct Hw as [<-|[]]. apply existsb_exists in E as (w & Hw & Hb).
    apply andb_prop in Hb as [H1 H2]. apply Z.ltb_lt in H1. apply Z.leb_le in H2. pose proof (win_bounds w Hw).
    rewrite wrap_small in H1 by (unfold fits; lia). eapply (window_tested _ _ 64 a w Hw); [..|exact Ha]; cbn [fst snd]; (done || lia).
  - destruct (_ >? _); [|done]. destruct Hw as [<-|[]].
    eapply (window_tested _ _ 64 a _ last_win); [..|exact Ha]; cbn [fst snd]; (lia || Z.div_mod_to_equations; lia).
Qed.

Lemma interleave_passes m : (test_interleave_markers cell wins m).2 = 0.
Proof.
  unfold test_interleave_markers. cbn [snd]. unfold mark_window. rewrite foldl_wins. set (l := concat _).
  assert (forall w a, In w (probe_windows wins) -> In a (addrs w.1 w.2 LINE_BYTES) -> In a l) as Hin.
  { intros w a Hw Ha. apply in_concat. exists (addrs w.1 w.2 LINE_BYTES). split; [by apply in_map_iff; exists w|done]. }
  assert (forall a, In a l -> tested a) as Hl.
  { intros a (x & (w & <- & Hw)%in_map_iff & Ha)%in_concat. by apply (probe_windows_tested w). }
  revert Hin. generalize (probe_windows wins). induction l0 as [|w ws IH]; intros Hin; [done|]. cbn [foldl]. unfold verify_window at 2.
  rewrite check_all; [cbn; apply IH; intros w' a ?; apply Hin; by right|].
  intros a Ha. apply (write_all_injective cell (fun a => pat a SEED_A)); [by apply free|]. apply (Hin w); [by left|done].
Qed.

(** ** Access widths *)

Lemma word_tested a : tested a -> forall d, 0 <= d < 8 -> word (a + d) = a /\ fits 64 (a + d).
Proof.
  intros (w & Hw & Ha & Hm) d Hd. apply win_bounds in Hw. assert (fits 64 (a + d)) by (unfold fits; lia).
  split; [|done]. rewrite word_eq by done. Z.div_mod_to_equations. lia.
Qed.

(** An aligned access of [w] bytes to a tested word. *)
Definition access (w a : Z) : Prop := aligned w a /\ tested (word a).

Lemma st_reads w l : forall m, In w [1; 2; 4; 8] -> Forall (access w) l -> forall v a, In a l ->
  ld cell w (foldl (fun m a => st cell w m a (v a)) m l) a = wrap (8 * w) (v a).
Proof.
  intros m Hw Hl v a. revert Hl. induction l as [|x l IH] using rev_ind; [done|]. intros Hl Ha. apply Forall_app in Hl as [Hl Hx].
  apply Forall_inv in Hx as [Hx Hxt]. rewrite foldl_app. cbn [foldl]. 
  assert (access w a) as [Hwa Hta]. { apply in_app_or in Ha as [Ha|[<-|[]]]; [|done]. rewrite Forall_forall in Hl. by apply Hl, list_elem_of_In. }
  rewrite ld_st; [|done..|].
  - destruct (Z.eqb_spec x a) as [<-|Hne']; [done|]. apply IH; [done|]. by apply in_app_or in Ha as [Ha|[<-|[]]].
  - destruct (Z.eq_dec (word x) (word a)); [by left|right]. by apply tested_apart.
Qed.

Lemma width_passes seed w m : In w [1; 2; 4; 8] -> (width_case cell (hd (0, 0) wins).1 seed w m).2 = 0.
Proof.
  intros Hw. unfold width_case. cbn [snd]. apply check_all. intros a Ha.
  rewrite (st_reads w _ m Hw); [done| |done]. apply Forall_forall. intros x. rewrite list_elem_of_In. clear Ha.
  intros (off & <- & Hoff)%in_map_iff. pose proof (win_bounds _ first_win) as H0.
  assert (0 < w <= 8) as Hw8 by (cbn in Hw; intuition lia). apply for_range_elem in Hoff as (Ho & k & Hk & Ek); [|unfold LINE_BYTES; lia..].
  unfold LINE_BYTES in Ho. set (b := (hd (0, 0) wins).1) in *. rewrite wrap_small by (unfold fits; lia).
  assert (fits 64 (b + off)) as Hf by (unfold fits; lia). split; [split; [done|]|].
  - replace (b + off) with (off + b / 8 * 8) by (Z.div_mod_to_equations; lia). rewrite Z.mod_add by lia. subst off.
    cbn in Hw. destruct Hw as [<-|[<-|[<-|[<-|[]]]]]; Z.div_mod_to_equations; lia.
  - rewrite word_eq by done. exists (hd (0, 0) wins). split; [apply first_win|]. fold b. split; Z.div_mod_to_equations; lia.
Qed.

Lemma widths_pass m : (test_access_widths cell wins m).2 = 0.
Proof.
  unfold test_access_widths. assert (forall l m f, Forall (fun x : Z * Z => In x.2 [1; 2; 4; 8]) l ->
    (foldl (fun '(m, f) '(c, w) => let '(m, bad) := width_case cell (hd (0, 0) wins).1 (u64 (u64 (SEED_A + c) + 1)) w m in
       (m, if negb (bad =? 0) then f + 1 else f)) (m, f) l).2 = f) as H; [|apply H; repeat constructor; cbn; tauto].
  induction l as [|[c w] l IH]; intros m0 f Hl; [done|]. apply Forall_cons in Hl as [Hw Hl]. cbn [foldl].
  pose proof (width_passes (u64 (u64 (SEED_A + c) + 1)) w m0 Hw) as E. destruct (width_case _ _ _ _ _) as [m1 bad]. cbn [snd] in E. subst bad.
  by apply IH.
Qed.

(** ** The burst *)

(** The words of the block and of its copy. *)
Lemma src_tested d a : d = 0 \/ d = 2097152 -> In a (src_words (hd (0, 0) wins).1) ->
  tested (a + d) /\ u64 (a - (hd (0, 0) wins).1 + u64 ((hd (0, 0) wins).1 + d)) = a + d /\ a < (hd (0, 0) wins).1 + 2097152.
Proof.
  intros Hd Ha. pose proof (win_bounds _ first_win) as H0. unfold src_words, BLK in Ha. change (1 .<< 20) with 1048576 in Ha.
  apply for_range_elem in Ha as (? & k & ? & E); [|unfold WORD_BYTES; lia..]. unfold WORD_BYTES in E.
  rewrite wrap_add_r. rewrite wrap_small by (unfold fits; lia).
  split; [|lia]. exists (hd (0, 0) wins). split; [apply first_win|]. split; [lia|]. Z.div_mod_to_equations. lia.
Qed.

Lemma memcpy_reads src dst (v : Z -> Z) l : forall m,
  (forall a, In a l -> tested a /\ tested (u64 (a - src + dst))) ->
  (forall a b, In a l -> In b l -> a <> u64 (b - src + dst)) ->
  (forall a b, In a l -> In b l -> u64 (a - src + dst) = u64 (b - src + dst) -> a = b) ->
  (forall a, In a l -> rd cell m a = v a) ->
  forall l', (forall a, In a l' -> In a l) ->
  let m' := foldl (fun m a => wr cell m (u64 (a - src + dst)) (rd cell m a)) m l' in
  (forall a, In a l -> rd cell m' a = v a) /\ (forall a, In a l' -> rd cell m' (u64 (a - src + dst)) = v a).
Proof.
  intros m Ht Hd Hi Hv. induction l' as [|x l' IH] using rev_ind; intros Hl; [by split|].
  cbn zeta. rewrite foldl_app. cbn [foldl]. assert (In x l) as Hx by (apply Hl, in_or_app; cbn; auto).
  destruct IH as [H1 H2]; [intros a Ha; apply Hl, in_or_app; by left|]. split.
  - intros a Ha. unfold rd at 1. rewrite wr_other; [by apply H1|]. apply tested_apart; [by apply Ht|by apply Ht|by apply Hd].
  - intros a Ha. unfold rd at 1. assert (In a l) as Hal by by apply Hl. destruct (Z.eq_dec a x) as [->|Hax].
    + rewrite wr_same by done. by apply H1.
    + rewrite wr_other; [apply H2; by apply in_app_or in Ha as [Ha|[<-|[]]]|].
      apply tested_apart; [by apply Ht|by apply Ht|]. by intros E%Hi.
Qed.

Lemma burst_passes m : (test_burst_copy cell wins m).2 = 0.
Proof.
  unfold test_burst_copy, memcpy, memcmp_ne. cbn [snd]. change (WIN_BYTES / 2) with 2097152.
  set (src := (hd (0, 0) wins).1). set (l := src_words src).
  assert (forall a, In a l -> tested a) as Hl.
  { intros a Ha. destruct (src_tested 0 a) as [H _]; [by left|done|]. by rewrite Z.add_0_r in H. }
  assert (forall a, In a l -> tested (a + 2097152) /\ u64 (a - src + u64 (src + 2097152)) = a + 2097152 /\ src <= a < src + 2097152) as Hd.
  { intros a Ha. destruct (src_tested 2097152 a) as (? & ? & ?); [by right|done|]. pose proof (win_bounds _ first_win).
    apply for_range_elem in Ha as [? _]; [by split_and!; [..|lia|lia]|unfold src, BLK, WORD_BYTES; change (1 .<< 20) with 1048576; lia..]. }
  set (m1 := foldl (fun m a => wr cell m a (pat a SEED_BURST)) m l).
  assert (forall a, In a l -> rd cell m1 a = pat a SEED_BURST) as H1.
  { intros a. apply (write_all_injective cell (fun a => pat a SEED_BURST)). by apply free. }
  destruct (memcpy_reads src (u64 (src + 2097152)) (fun a => pat a SEED_BURST) l m1) with (l' := l) as [H2 H3]; [..|done|].
  - intros a Ha. destruct (Hd a Ha) as (? & -> & ?). auto.
  - intros a b Ha Hb. destruct (Hd a Ha) as (_ & _ & ?), (Hd b Hb) as (_ & -> & ?). lia.
  - intros a b Ha Hb. destruct (Hd a Ha) as (_ & -> & ?), (Hd b Hb) as (_ & -> & ?). lia.
  - done.
  - cbn zeta in H2, H3. rewrite check_all by done. destruct (existsb _ l) eqn:E; [|done]. exfalso.
    apply existsb_exists in E as (a & Ha & E). by rewrite H3, H2, Z.eqb_refl in E.
Qed.
End faithful.

(** ** The verdict *)

Lemma reserved_end_aligned ss sz n b : reserved_end ss sz n b mod 8 = 0.
Proof.
  unfold reserved_end, cnot. rewrite WIN_BYTES_eq. change (4194304 - 1) with (Z.ones 22). change 8 with (2 ^ 3).
  rewrite <-land_ones_mod by lia. apply Z.bits_inj'. intros i Hi. rewrite !Z.land_spec, !wrap_testbit, Z.lnot_spec, !ones_testbit, Z.bits_0 by lia.
  destruct (Z.ltb_spec i 3); [|by rewrite andb_false_r]. destruct (Z.ltb_spec i 22); [|lia]. cbn. by rewrite !andb_false_r.
Qed.

(** Failure counts do not cancel. *)
Lemma counts_nonneg cell wins m :
  0 <= (test_interleave_markers cell wins m).2 /\ 0 <= (test_access_widths cell wins m).2 /\
  0 <= (test_burst_copy cell wins m).2 /\ 0 <= (test_line_edges cell wins m).2 /\ 0 <= test_full_sweep cell wins m.
Proof.
  split_and!.
  - unfold test_interleave_markers. cbn [snd]. generalize (foldl (mark_window cell) m (probe_windows wins)). intros m'.
    apply foldl_inv; [|done]. intros f w _ Hf. unfold verify_window. case_match; lia.
  - unfold test_access_widths. apply (foldl_inv _ _ (fun x : mem * Z => 0 <= x.2)); [|done].
    intros [m0 f] [c w] _ Hf. cbn [snd] in Hf. destruct (width_case _ _ _ _ _) as [m1 bad]. cbn [snd]. case_match; lia.
  - unfold test_burst_copy. cbn [snd]. repeat case_match; lia.
  - unfold test_line_edges. cbn [snd]. case_match; lia.
  - unfold test_full_sweep. case_match; lia.
Qed.

Section verdict.
Context (cell : Z -> Z) (stack_start stack_size nharts brk : Z) (ranges : list ram_range_t).
Abbreviation reserved := (reserved_end stack_start stack_size nharts brk).
Abbreviation windows := (compute_windows stack_start stack_size nharts brk (2 ^ 64 - 1) ranges MAX_RANGES).1.

Lemma windows_ok ws : reserved + WIN_BYTES < 2 ^ 64 -> separated (-1) ranges ->
  Forall (fun r => base r mod 8 = 0 /\ size r mod 8 = 0 /\ range_end r <= 2 ^ 63) ranges -> windows = ws ->
  wins_ok ws /\ Forall (fun w => w.1 mod 8 = 0 /\ w.2 mod 8 = 0 /\ w.1 + 4194304 <= w.2 <= 2 ^ 63) ws.
Proof.
  intros Hres Hsep Hal. destruct (compute_windows _ _ _ _ _ _ _) as [wl c] eqn:E. intros <-. cbn [fst].
  unfold compute_windows in E. apply (windows_from_spec _ _ _ _ _ eq_refl Hres _ (-1)) in E as (Hw & Hlen & Hwo & _); [|done].
  split; [split; [done|unfold MAX_RANGES in Hlen; lia]|].
  eapply Forall_impl; [exact Hwo|]. intros x ((r & Hin & -> & ->) & Hsz). rewrite WIN_BYTES_eq in Hsz.
  rewrite Forall_forall in Hal. destruct (Hal r (proj2 (list_elem_of_In _ _) Hin)) as (? & ? & ?).
  pose proof (reserved_end_aligned stack_start stack_size nharts brk). split; [by destruct (Z.max_spec (base r) reserved) as [[_ ->]|[_ ->]]|].
  split; [unfold range_end; Z.div_mod_to_equations; lia|done].
Qed.

(** C19. The verdict.  On RAM ranges as [normalize_ranges] leaves them, 8-byte aligned and below
    2^63, whatever the memory holds at the start, the test returns 0 exactly when some memory can be tested and no
    two of the words of the testable windows share a cell; otherwise it returns 1.  The six
    suites run in turn on the memory the last one left: on a sound board none of them raises a
    false alarm, and no faulty decoder gets past all of them. *)
Theorem mem_test_verdict m :
  reserved + WIN_BYTES < 2 ^ 64 -> separated (-1) ranges ->
  Forall (fun r => base r mod 8 = 0 /\ size r mod 8 = 0 /\ range_end r <= 2 ^ 63) ranges ->
  let r := main cell stack_start stack_size nharts brk (2 ^ 64 - 1) ranges m in
  (r = 0 <-> windows <> [] /\ ~ aliased cell (all_addrs WORD_BYTES windows)) /\ (r = 0 \/ r = 1).
Proof.
  intros Hres Hsep Hal. destruct windows as [|w ws] eqn:Ew.
  { unfold main. rewrite Ew. split; [split; [by destruct ranges|by intros [? _]]|destruct ranges; auto]. }
  assert (ranges <> []) as Hr by (intros ->; done).
  destruct (windows_ok (w :: ws) Hres Hsep Hal Ew) as [Hok Hal']. pose proof (full_sweep_exact cell (w :: ws)) as Hsweep.
  unfold main. rewrite Ew. destruct ranges as [|r0 rs]; [done|].
  assert (Hp : forall m, ~ aliased cell (all_addrs WORD_BYTES (w :: ws)) -> (test_capacity_probe cell (w :: ws) m).2 = (0, true)) by (intros; by apply probe_passes).
  destruct (test_capacity_probe cell (w :: ws) m) as [m1 [wrap ref_ok]] eqn:Ep.
  pose proof (counts_nonneg cell (w :: ws)) as Hc.
  destruct (negb ((wrap =? 0) && ref_ok)) eqn:Ebad.
  - split; [|by right]. split; [done|]. intros [_ Hinj]. specialize (Hp m Hinj). rewrite Ep in Hp. cbn in Hp. by simplify_eq.
  - pose proof (Hc m1) as (H2 & _). destruct (test_interleave_markers cell (w :: ws) m1) as [m2 f2] eqn:E2.
    pose proof (Hc m2) as (_ & H3 & _). destruct (test_access_widths cell (w :: ws) m2) as [m3 f3] eqn:E3.
    pose proof (Hc m3) as (_ & _ & H4 & _). destruct (test_burst_copy cell (w :: ws) m3) as [m4 f4] eqn:E4.
    pose proof (Hc m4) as (_ & _ & _ & H5 & _). destruct (test_line_edges cell (w :: ws) m4) as [m5 f5] eqn:E5.
    pose proof (Hc m5) as (_ & _ & _ & _ & H6). cbn [snd] in *. specialize (Hsweep m5 Hok).
    destruct (Z.eqb_spec (f2 + f3 + f4 + f5 + test_full_sweep cell (w :: ws) m5) 0) as [Hz|Hz]; split; auto.
    + split; [|done]. intros _. split; [done|]. apply Hsweep. lia.
    + split; [done|]. intros [_ Hinj]. exfalso. apply Hz.
      assert (F2 : (test_interleave_markers cell (w :: ws) m1).2 = 0) by by apply interleave_passes. rewrite E2 in F2.
      assert (F3 : (test_access_widths cell (w :: ws) m2).2 = 0) by by apply widths_pass. rewrite E3 in F3.
      assert (F4 : (test_burst_copy cell (w :: ws) m3).2 = 0) by by apply burst_passes. rewrite E4 in F4.
      assert (f5 = 0) as F5.
      { change f5 with (m5, f5).2. rewrite <-E5. apply line_edges_iff; [done|]. apply (free cell (w :: ws) Hok Hal' Hinj).
        intros a (x & (v & <- & Hv)%in_map_iff & Ha)%in_concat. pose proof (win_bounds _ Hok Hal' v Hv) as (? & ? & ? & ?).
        by eapply (window_tested (w :: ws) Hok Hal' v.1 v.2 LINE_BYTES a v). }
      cbn [snd] in F2, F3, F4. apply Hsweep in Hinj. lia.
Qed.
End verdict.

(** 16 MiB at 2 GiB: a faithful decoder, and one that drops address bit 12. *)
Definition demo_ranges : list ram_range_t := [Range 0x80000000 0x1000000].
Definition demo_main (cell : Z -> Z) : Z := main cell 0x80010000 0x1000 2 0x80008000 (2 ^ 64 - 1) demo_ranges (fun _ => 0).

Lemma mem_test_verdict_witness : demo_main id_cell = 0 /\ demo_main drop_bit12 = 1.
Proof.
  assert (H : (compute_windows 0x80010000 0x1000 2 0x80008000 (2 ^ 64 - 1) demo_ranges MAX_RANGES).1 = [(0x80400000, 0x81000000)])
    by (vm_compute; reflexivity).
  assert (Hin : forall a, 0x80400000 <= a < 0x81000000 -> a mod 8 = 0 -> In a (all_addrs WORD_BYTES [(0x80400000, 0x81000000)])).
  { intros a Ha Hm. unfold all_addrs. cbn [map concat fst snd]. rewrite app_nil_r. unfold addrs.
    replace a with (0x80400000 + (a - 0x80400000) / 8 * WORD_BYTES) by (unfold WORD_BYTES; Z.div_mod_to_equations; lia).
    apply for_range_enough; unfold WORD_BYTES; lia || Z.div_mod_to_equations; lia. }
  assert (Hsep : separated (-1) demo_ranges) by (split; [cbn; lia|split; [split_and!; [cbn; lia..|by vm_compute]|done]]).
  assert (Hal : Forall (fun r => base r mod 8 = 0 /\ size r mod 8 = 0 /\ range_end r <= 2 ^ 63) demo_ranges)
    by (apply Forall_singleton; split_and!; [done|done|by vm_compute]).
  pose proof (fun cell => mem_test_verdict cell 0x80010000 0x1000 2 0x80008000 demo_ranges (fun _ => 0) eq_refl
    Hsep Hal) as V.
  cbv zeta in V. split.
  - apply (V id_cell). rewrite H. split; [done|]. intros (a & b & _ & _ & Hab & Hc). exact (Hab Hc).
  - destruct (V drop_bit12) as [Hiff [H0|H1]]; [exfalso|exact H1]. rewrite H in Hiff. apply (proj1 Hiff H0).
    exists 0x80400000, 0x80401000. split; [apply (Hin 0x80400000); [lia|reflexivity]|].
    split; [apply (Hin 0x80401000); [lia|reflexivity]|]. split; [lia|reflexivity].
Defined.

(** ** The wall clock *)

(** [clock_now] is atomic.  On a 64-bit counter that only grows, and by at most 2^32 over any
    six consecutive register reads, the loop ends within two rounds and its answer is a value
    the counter had during the call: no carry between the halves is ever torn. *)
Theorem clock_now_atomic mtime fuel n :
  (forall n, fits 64 (mtime n)) -> (forall n, mtime n <= mtime (S n)) -> (forall n, mtime (n + 5)%nat - mtime n <= 2 ^ 32) ->
  (2 <= fuel)%nat -> exists i k, clock_now mtime fuel n = Some (mtime i, k) /\ (n < i < k)%nat /\ (k <= n + 6)%nat.
Proof.
  intros Hf Hm Hs H2. destruct fuel as [|[|fuel]]; [lia..|]. cbn [clock_now].
  destruct (Z.eqb_spec (u32 (mtime n .>> 32)) (u32 (mtime (S (S n)) .>> 32))) as [E|E]; cbn [negb].
  { rewrite clock_round by done. exists (S n), (S (S (S n))). split; [done|lia]. }
  destruct (Z.eqb_spec (u32 (mtime (S (S (S n))) .>> 32)) (u32 (mtime (S (S (S (S (S n))))) .>> 32))) as [E'|E']; cbn [negb].
  { rewrite clock_round by done. exists (S (S (S (S n)))), (S (S (S (S (S (S n)))))). split; [done|lia]. }
  exfalso. pose proof (hi_mono mtime Hf Hm n). pose proof (hi_mono mtime Hf Hm (S n)). pose proof (hi_mono mtime Hf Hm (S (S n))).
  pose proof (hi_mono mtime Hf Hm (S (S (S n)))). pose proof (hi_mono mtime Hf Hm (S (S (S (S n))))).
  specialize (Hs n). replace (n + 5)%nat with (S (S (S (S (S n))))) in Hs by lia.
  rewrite (mtime_split mtime Hf n), (mtime_split mtime Hf (S (S (S (S (S n)))))) in Hs.
  pose proof (wrap_range 32 (mtime n) ltac:(lia)). pose proof (wrap_range 32 (mtime (S (S (S (S (S n)))))) ltac:(lia)).
  lia.
Qed.

(** The counter passes 2^32 between the first two reads. *)
Lemma clock_now_atomic_witness :
  let mtime n := 2 ^ 32 - 1 + Z.min (Z.of_nat n) 100 in
  clock_now mtime 2 0 = Some (2 ^ 32 + 3, 6%nat) /\ exists i k, clock_now mtime 2 0 = Some (mtime i, k) /\ (0 < i < k)%nat /\ (k <= 0 + 6)%nat.
Proof.
  split; [by vm_compute|]. apply (clock_now_atomic (fun n => 2 ^ 32 - 1 + Z.min (Z.of_nat n) 100)).
  - intros n. unfold fits. lia.
  - intros n. lia.
  - intros n. lia.
  - lia.
Defined.
