(* ===== verification/ClkWzrd.v ===== *)
(** * The pixel-clock solver (binaries/linux/drivers/clk-wzrd)

    [soct_clk_wzrd_solve] searches the MMCM divider settings for a target frequency;
    [soct_clk_wzrd_retune] programs one through the wizard's registers.  The register
    file is hardware: a retune is modelled as the writes it makes and the answers of
    its two bounded polls of LOCKED. *)
From S2P Require Import Prelude.

(** [struct soct_clk_wzrd_limits]: all fields are u32. *)
Record soct_clk_wzrd_limits := Limits {
  input_hz : Z; vco_min_hz : Z; vco_max_hz : Z; pfd_min_hz : Z; pfd_max_hz : Z }.

(** [struct soct_clk_wzrd_setting]. *)
Record soct_clk_wzrd_setting := Setting {
  div : Z; mult_eighths : Z; odiv_eighths : Z; achieved_hz : Z }.

Definition U32_MAX : Z := 2 ^ 32 - 1.

Section solve.
Context (lim : soct_clk_wzrd_limits) (target_hz : Z).

(** [best_err] and [*out] (unset until a candidate is accepted). *)
Definition best : Type := Z * option soct_clk_wzrd_setting.

Definition in_pfd (d : Z) : bool :=
  negb ((u64 (pfd_min_hz lim * d) >? input_hz lim) || (u64 (pfd_max_hz lim * d) <? input_hz lim)).

Definition skip_odiv (o8 : Z) : bool := (o8 <? 16) && tst o8 7.

Definition in_vco (d m8 : Z) : bool :=
  negb ((u64 (input_hz lim * m8) <? u64 (u64 (vco_min_hz lim * 8) * d))
        || (u64 (input_hz lim * m8) >? u64 (u64 (vco_max_hz lim * 8) * d))).

Definition achieved (d o8 m8 : Z) : Z := u64 (input_hz lim * m8) / u64 (d * o8).

Definition err (d o8 m8 : Z) : Z :=
  let a := achieved d o8 m8 in
  u32 (if a >? target_hz then a - target_hz else target_hz - a).

(** One iteration of the innermost loop. *)
Definition consider (d o8 : Z) (st : best) (m8 : Z) : best :=
  if (m8 <? 2 * 8) || (m8 >? 128 * 8) then st
  else if negb (in_vco d m8) then st
  else if err d o8 m8 <? st.1
       then (err d o8 m8, Some (Setting d (u32 m8) o8 (u32 (achieved d o8 m8))))
       else st.

Definition m8_floor (d o8 : Z) : Z := u64 (u64 (target_hz * d) * o8) / input_hz lim.

Definition try_odiv (d : Z) (st : best) (o8 : Z) : best :=
  if skip_odiv o8 then st
  else foldl (fun st i => consider d o8 st (u64 (m8_floor d o8 + i))) st [0; 1].

Definition try_div (st : best) (d : Z) : best :=
  if negb (in_pfd d) then st else foldl (try_odiv d) st (seqZ 8 (128 * 8 - 8 + 1)).

(** The three nested loops. *)
Definition search : best := foldl try_div (U32_MAX, None) (seqZ 1 106).

(** [None] is -EDOM. *)
Definition soct_clk_wzrd_solve : option soct_clk_wzrd_setting :=
  if (input_hz lim =? 0) || (target_hz =? 0) then None
  else
    let '(best_err, out) := search in
    if (best_err =? U32_MAX) || (u64 (best_err * 200) >? target_hz) then None else out.

(** ** Specification *)

(** The divider ranges of the MMCM and its analog windows, over exact integers. *)
Definition legal (d o8 m8 : Z) : Prop :=
  1 <= d <= 106 /\ 8 <= o8 <= 1024 /\ (16 <= o8 \/ o8 mod 8 = 0) /\ 16 <= m8 <= 1024 /\
  pfd_min_hz lim * d <= input_hz lim <= pfd_max_hz lim * d /\
  vco_min_hz lim * (8 * d) <= input_hz lim * m8 <= vco_max_hz lim * (8 * d).

(** The output frequency of a setting and its distance from the target. *)
Definition freq (d o8 m8 : Z) : Z := input_hz lim * m8 / (d * o8).
Definition dist (d o8 m8 : Z) : Z := Z.abs (freq d o8 m8 - target_hz).

(** The multiplier that hits the target, rounded down. *)
Definition floor8 (d o8 : Z) : Z := target_hz * d * o8 / input_hz lim.

Hypothesis Hlim : fits 32 (input_hz lim) /\ fits 32 (vco_min_hz lim) /\ fits 32 (vco_max_hz lim) /\
  fits 32 (pfd_min_hz lim) /\ fits 32 (pfd_max_hz lim).
Hypothesis Htarget : fits 32 target_hz.

Ltac mul_fits := unfold fits in *; rewrite ?Z.mul_assoc;
  first [ apply (fits_mul 64 _ _ (2 ^ 45) (2 ^ 17)) | apply (fits_mul 64 _ _ (2 ^ 17) (2 ^ 45)) ]; try lia.

Lemma mul_bound a b A B : 0 <= a <= A -> 0 <= b <= B -> 0 <= a * b <= A * B.
Proof. intros. split; [nia|]. apply Z.mul_le_mono_nonneg; lia. Qed.

Lemma achieved_eq d o8 m8 :
  1 <= d <= 106 -> 8 <= o8 <= 1024 -> 0 <= m8 <= 1024 -> achieved d o8 m8 = freq d o8 m8.
Proof.
  intros. unfold achieved, freq. rewrite !wrap_small; [done| |]; mul_fits.
Qed.

Lemma m8_floor_eq d o8 : 1 <= d <= 106 -> 8 <= o8 <= 1024 -> m8_floor d o8 = floor8 d o8.
Proof.
  intros. unfold m8_floor, floor8. rewrite wrap_mul_l. rewrite wrap_small; [done|].
  mul_fits. pose proof (mul_bound target_hz d (2 ^ 32) 106). lia.
Qed.

Lemma floor8_nonneg d o8 : 1 <= d <= 106 -> 8 <= o8 <= 1024 -> 0 < input_hz lim ->
  0 <= floor8 d o8 <= 2 ^ 62.
Proof.
  unfold fits in *. intros. unfold floor8.
  pose proof (mul_bound target_hz d (2 ^ 32) 106). pose proof (mul_bound (target_hz * d) o8 (2 ^ 39) 1024).
  split; [apply Z.div_pos; lia|]. apply Z.div_le_upper_bound; [lia|].
  apply Z.le_trans with (1 * 2 ^ 62); [lia|]. apply Z.mul_le_mono_nonneg_r; lia.
Qed.

Lemma in_pfd_iff d : 1 <= d <= 106 ->
  in_pfd d = true <-> pfd_min_hz lim * d <= input_hz lim <= pfd_max_hz lim * d.
Proof.
  intros. unfold in_pfd. rewrite !wrap_small; [|mul_fits|mul_fits].
  rewrite negb_true_iff, orb_false_iff. rewrite Z.gtb_ltb, !Z.ltb_ge. lia.
Qed.

Lemma in_vco_iff d m8 : 1 <= d <= 106 -> 16 <= m8 <= 1024 ->
  in_vco d m8 = true <-> vco_min_hz lim * (8 * d) <= input_hz lim * m8 <= vco_max_hz lim * (8 * d).
Proof.
  intros. unfold in_vco. rewrite !wrap_mul_l.
  rewrite !wrap_small; [|mul_fits..].
  rewrite negb_true_iff, orb_false_iff. rewrite Z.gtb_ltb, !Z.ltb_ge, <-!Z.mul_assoc. lia.
Qed.

Lemma skip_odiv_iff o8 : 8 <= o8 <= 1024 -> skip_odiv o8 = false <-> 16 <= o8 \/ o8 mod 8 = 0.
Proof.
  intros. unfold skip_odiv, tst. change 7 with (Z.ones 3). rewrite Z.land_ones by lia.
  rewrite andb_false_iff, Z.ltb_ge, negb_false_iff, Z.eqb_eq. done.
Qed.

(** A VCO inside its window cannot be divided up past 2^32 Hz, so neither the stored
    frequency nor the stored error is cut by its 32-bit type. *)
Lemma legal_freq d o8 m8 : legal d o8 m8 -> 0 <= freq d o8 m8 < 2 ^ 32.
Proof.
  intros (Hd & Ho & _ & Hm & _ & Hv). unfold fits in *. unfold freq.
  assert (0 <= input_hz lim * m8) by nia. assert (0 < d * o8) by nia.
  split; [apply Z.div_pos; lia|]. apply Z.div_lt_upper_bound; [lia|].
  apply Z.le_lt_trans with (vco_max_hz lim * (8 * d)); [lia|].
  assert (vco_max_hz lim * (8 * d) <= vco_max_hz lim * (d * o8)) by nia. nia.
Qed.

Lemma err_eq d o8 m8 : legal d o8 m8 -> err d o8 m8 = dist d o8 m8 /\ u32 (achieved d o8 m8) = freq d o8 m8.
Proof.
  intros Hl. pose proof (legal_freq _ _ _ Hl) as Hf. destruct Hl as (Hd & Ho & _ & Hm & _).
  unfold err, dist. rewrite achieved_eq by lia. unfold fits in *.
  rewrite (wrap_small 32 (freq d o8 m8)) by (unfold fits; lia).
  split; [|done]. rewrite Z.gtb_ltb. zcase; rewrite wrap_small by (unfold fits; lia); lia.
Qed.

(** ** The search *)

Definition bracket (d o8 m8 : Z) : Prop := m8 = floor8 d o8 \/ m8 = floor8 d o8 + 1.

(** What [best_err] and [*out] say at any moment. *)
Definition best_ok (st : best) : Prop :=
  match st.2 with
  | None => st.1 = U32_MAX
  | Some s => legal (div s) (odiv_eighths s) (mult_eighths s) /\
      bracket (div s) (odiv_eighths s) (mult_eighths s) /\
      achieved_hz s = freq (div s) (odiv_eighths s) (mult_eighths s) /\
      st.1 = dist (div s) (odiv_eighths s) (mult_eighths s)
  end.

Lemma consider_spec d o8 st m8 :
  1 <= d <= 106 -> 8 <= o8 <= 1024 -> (16 <= o8 \/ o8 mod 8 = 0) -> in_pfd d = true ->
  consider d o8 st m8 = st \/
  (legal d o8 m8 /\ consider d o8 st m8 = (dist d o8 m8, Some (Setting d m8 o8 (freq d o8 m8)))).
Proof.
  intros Hd Ho Ho' Hp. unfold consider. rewrite Z.gtb_ltb.
  destruct (Z.ltb_spec m8 (2 * 8)); [by left|]. destruct (Z.ltb_spec (128 * 8) m8); [by left|].
  cbn [orb]. destruct (in_vco d m8) eqn:Hv; [|by left]. cbn [negb].
  destruct (err d o8 m8 <? st.1); [|by left]. right.
  assert (legal d o8 m8) as Hl.
  { apply in_vco_iff in Hv; [|lia..]. apply in_pfd_iff in Hp; [|lia]. unfold legal. repeat split; lia. }
  split; [done|]. destruct (err_eq _ _ _ Hl) as [-> ->].
  rewrite (wrap_small 32 m8) by (unfold fits; lia). done.
Qed.

Lemma consider_mono d o8 st m8 : (consider d o8 st m8).1 <= st.1.
Proof.
  unfold consider. repeat case_match; cbn; try lia.
Qed.

Lemma consider_hit d o8 m8 st : legal d o8 m8 -> (consider d o8 st m8).1 <= dist d o8 m8.
Proof.
  intros Hl. pose proof (err_eq _ _ _ Hl) as [He _]. destruct Hl as (Hd & Ho & _ & Hm & _ & Hv).
  apply in_vco_iff in Hv; [|lia..]. unfold consider. rewrite Hv, He, Z.gtb_ltb.
  zcases; cbn; lia.
Qed.

Lemma try_odiv_mono d st o8 : (try_odiv d st o8).1 <= st.1.
Proof.
  unfold try_odiv. case_match; [lia|].
  apply (foldl_mono _ (fun st : best => st.1)). intros. apply consider_mono.
Qed.

Lemma try_div_mono st d : (try_div st d).1 <= st.1.
Proof.
  unfold try_div. case_match; [lia|].
  apply (foldl_mono _ (fun st : best => st.1)). intros. apply try_odiv_mono.
Qed.

Lemma try_odiv_hit d o8 m8 st : legal d o8 m8 -> bracket d o8 m8 -> (try_odiv d st o8).1 <= dist d o8 m8.
Proof.
  intros Hl Hb. pose proof Hl as (Hd & Ho & Ho' & Hm & _). unfold try_odiv.
  apply skip_odiv_iff in Ho'; [|lia]. rewrite Ho'.
  apply (foldl_hit _ (fun st : best => st.1) _ (m8 - floor8 d o8)).
  - intros. apply consider_mono.
  - destruct Hb as [-> | ->]; cbn; lia.
  - intros s. rewrite m8_floor_eq by lia. rewrite wrap_small.
    + replace (floor8 d o8 + (m8 - floor8 d o8)) with m8 by lia. by apply consider_hit.
    + unfold fits. lia.
Qed.

Lemma try_div_hit d o8 m8 st : legal d o8 m8 -> bracket d o8 m8 -> (try_div st d).1 <= dist d o8 m8.
Proof.
  intros Hl Hb. pose proof Hl as (Hd & Ho & _ & _ & Hp & _). unfold try_div.
  apply in_pfd_iff in Hp; [|lia]. rewrite Hp. cbn [negb].
  apply (foldl_hit _ (fun st : best => st.1) _ o8).
  - intros. apply try_odiv_mono.
  - apply list_elem_of_In, elem_of_seqZ. lia.
  - intros. by apply try_odiv_hit.
Qed.

Lemma try_div_ok st d : 1 <= d <= 106 -> best_ok st -> best_ok (try_div st d).
Proof.
  intros Hd Hst. unfold try_div. destruct (in_pfd d) eqn:Hp; [|done]. cbn [negb].
  apply foldl_inv; [|done]. intros s o8 Ho8 Hs. apply list_elem_of_In, elem_of_seqZ in Ho8.
  unfold try_odiv. destruct (skip_odiv o8) eqn:Hsk; [done|].
  apply skip_odiv_iff in Hsk; [|lia].
  apply foldl_inv; [|done]. intros s' i Hi Hs'.
  destruct (consider_spec d o8 s' (u64 (m8_floor d o8 + i))) as [-> | [Hl ->]]; [lia..|done|done|].
  split; [done|]. split; [|done]. cbn. unfold bracket. rewrite m8_floor_eq in * by lia.
  pose proof Hl as (_ & _ & _ & Hm & [Hp1 Hp2] & _). unfold fits in *.
  pose proof (floor8_nonneg d o8). rewrite wrap_small; [cbn in Hi; lia|].
  unfold fits. cbn in Hi. assert (input_hz lim <> 0); [|lia]. intros E.
  unfold floor8 in Hm. rewrite E, Z.div_0_r in Hm.
  destruct Hi as [<-|[<-|[]]]; rewrite wrap_small in Hm by (unfold fits; lia); lia.
Qed.

Lemma search_ok : best_ok search.
Proof.
  unfold search. apply foldl_inv; [|done]. intros s d Hd. apply list_elem_of_In, elem_of_seqZ in Hd.
  apply try_div_ok. lia.
Qed.

Lemma search_min d o8 m8 : legal d o8 m8 -> bracket d o8 m8 -> search.1 <= dist d o8 m8.
Proof.
  intros Hl Hb. unfold search. apply (foldl_hit _ (fun st : best => st.1) _ d).
  - intros. apply try_div_mono.
  - apply list_elem_of_In, elem_of_seqZ. destruct Hl as (? & _). lia.
  - intros. by apply (try_div_hit d o8 m8).
Qed.
End solve.

(** Half a million candidates: never to be unfolded by conversion. *)
#[global] Opaque search.

(** All the fields of the limits are u32, as is the target. *)
Definition u32_limits (lim : soct_clk_wzrd_limits) : Prop :=
  fits 32 (input_hz lim) /\ fits 32 (vco_min_hz lim) /\ fits 32 (vco_max_hz lim) /\
  fits 32 (pfd_min_hz lim) /\ fits 32 (pfd_max_hz lim).

(** A candidate the search is meant to look at: legal, and one of the two multipliers
    between which the exact quotient lies. *)
Definition candidate (lim : soct_clk_wzrd_limits) (target d o8 m8 : Z) : Prop :=
  legal lim d o8 m8 /\ bracket lim target d o8 m8.

(** Result of the whole function in terms of the state the loops leave. *)
Lemma solve_unfold lim target :
  u32_limits lim -> fits 32 target -> 0 < input_hz lim -> 0 < target ->
  soct_clk_wzrd_solve lim target =
  if (search lim target).1 * 200 >? target then None else (search lim target).2.
Proof.
  intros Hl Ht Hi Hp. unfold soct_clk_wzrd_solve.
  destruct (Z.eqb_spec (input_hz lim) 0); [lia|]. destruct (Z.eqb_spec target 0); [lia|]. cbn [orb].
  pose proof (search_ok lim target Hl Ht) as Hs. destruct (search lim target) as [e o]. cbn in *.
  unfold fits, U32_MAX in *. unfold best_ok in Hs. cbn in Hs. destruct o as [s|].
  - destruct Hs as (Hleg & _ & _ & He). pose proof (legal_freq _ Hl _ _ _ Hleg).
    assert (0 <= e < 2 ^ 32) by (unfold dist in He; lia).
    rewrite wrap_small by (unfold fits; lia). rewrite Z.gtb_ltb. zcases; done.
  - subst e. unfold U32_MAX. rewrite Z.eqb_refl, Z.gtb_ltb. by zcases.
Qed.

(** What a solved setting is ... *)
Lemma solver_sound lim target s :
  u32_limits lim -> fits 32 target -> soct_clk_wzrd_solve lim target = Some s ->
  legal lim (div s) (odiv_eighths s) (mult_eighths s) /\
  achieved_hz s = freq lim (div s) (odiv_eighths s) (mult_eighths s) /\
  200 * Z.abs (achieved_hz s - target) <= target.
Proof.
  intros Hl Ht Hs. destruct (Z.eq_dec (input_hz lim) 0) as [E|].
  { unfold soct_clk_wzrd_solve in Hs. by rewrite E in Hs. }
  destruct (Z.eq_dec target 0) as [->|].
  { unfold soct_clk_wzrd_solve in Hs. by rewrite orb_true_r in Hs. }
  rewrite solve_unfold in Hs by (unfold u32_limits, fits in *; lia).
  pose proof (search_ok lim target Hl Ht) as Hok. unfold best_ok in Hok.
  rewrite Z.gtb_ltb in Hs. destruct (Z.ltb_spec target ((search lim target).1 * 200)); [done|].
  rewrite Hs in Hok. destruct Hok as (? & _ & Ha & He). split_and!; [done..|]. rewrite Ha.
  unfold dist in He. lia.
Qed.

(** ... and what it is the best of. *)
Lemma solver_best lim target :
  u32_limits lim -> fits 32 target -> 0 < input_hz lim -> 0 < target ->
  (soct_clk_wzrd_solve lim target = None <->
     forall d o8 m8, candidate lim target d o8 m8 -> target < 200 * dist lim target d o8 m8) /\
  (forall s, soct_clk_wzrd_solve lim target = Some s ->
     forall d o8 m8, candidate lim target d o8 m8 -> Z.abs (achieved_hz s - target) <= dist lim target d o8 m8).
Proof.
  intros Hl Ht Hi Hp. rewrite solve_unfold by done.
  pose proof (search_ok lim target Hl Ht) as Hok. unfold best_ok in Hok.
  pose proof (search_min lim target Hl Ht) as Hmin.
  rewrite Z.gtb_ltb. destruct (Z.ltb_spec target ((search lim target).1 * 200)).
  - split; [|done]. split; [|done]. intros _ d o8 m8 [Hleg Hb]. specialize (Hmin d o8 m8 Hleg Hb). lia.
  - destruct (search lim target).2 as [s|] eqn:E; [|unfold fits, U32_MAX in *; lia].
    destruct Hok as (Hleg & Hb & Ha & He). split.
    + split; [done|]. intros Hall. specialize (Hall _ _ _ (conj Hleg Hb)). lia.
    + intros s' [= <-] d o8 m8 [Hleg' Hb']. specialize (Hmin d o8 m8 Hleg' Hb').
      rewrite Ha. unfold dist in *. lia.
Qed.

(** A candidate within half a percent: the solver returns something as close. *)
Lemma solve_near lim target d o8 m8 : u32_limits lim -> fits 32 target -> 0 < input_hz lim -> 0 < target ->
  candidate lim target d o8 m8 -> 200 * dist lim target d o8 m8 <= target ->
  exists s, soct_clk_wzrd_solve lim target = Some s /\ Z.abs (achieved_hz s - target) <= dist lim target d o8 m8.
Proof.
  intros Hl Ht Hi Hp Hc Hd. destruct (solver_best lim target Hl Ht Hi Hp) as [Hn Hs].
  destruct (soct_clk_wzrd_solve lim target) as [s|] eqn:E; [exists s; split; [done|by eapply Hs]|].
  pose proof (proj1 Hn eq_refl _ _ _ Hc). lia.
Qed.

(** The solver is sound: whatever setting it stores is one the MMCM accepts (dividers in
    range and on its eighth-step grid, phase-detector and VCO frequencies inside the analog
    window as exact rationals), the frequency it reports is the one that setting makes, and
    that lies within 0.5% of the target; no 64-bit product and no 32-bit field wraps. *)
Theorem solve_sound lim target s :
  u32_limits lim -> fits 32 target -> soct_clk_wzrd_solve lim target = Some s ->
  legal lim (div s) (odiv_eighths s) (mult_eighths s) /\
  achieved_hz s = freq lim (div s) (odiv_eighths s) (mult_eighths s) /\
  200 * Z.abs (achieved_hz s - target) <= target.
Proof. apply solver_sound. Qed.


(** Multipliers outside the bracket are no closer than the bracket's end on their side. *)
Lemma beyond_bracket lim target d o8 m8 :
  0 < input_hz lim -> 0 < d -> 0 < o8 -> 0 <= target ->
  (m8 <= floor8 lim target d o8 -> dist lim target d o8 (floor8 lim target d o8) <= dist lim target d o8 m8) /\
  (floor8 lim target d o8 + 1 <= m8 -> dist lim target d o8 (floor8 lim target d o8 + 1) <= dist lim target d o8 m8).
Proof.
  intros Hi Hd Ho Ht. unfold dist, freq.
  set (q := floor8 lim target d o8). assert (0 < d * o8) as Hdo by nia.
  assert (input_hz lim * q <= target * (d * o8)) as Hlo.
  { unfold q, floor8. rewrite Z.mul_assoc. apply Z.mul_div_le. lia. }
  assert (target * (d * o8) < input_hz lim * (q + 1)) as Hhi.
  { unfold q, floor8. rewrite Z.mul_assoc. pose proof (Z.mul_succ_div_gt (target * d * o8) (input_hz lim)). lia. }
  assert (input_hz lim * q / (d * o8) <= target) by (apply Z.div_le_upper_bound; lia).
  assert (target <= input_hz lim * (q + 1) / (d * o8)) by (apply Z.div_le_lower_bound; lia).
  split; intros Hm.
  - assert (input_hz lim * m8 / (d * o8) <= input_hz lim * q / (d * o8)) by (apply Z.div_le_mono; nia). lia.
  - assert (input_hz lim * (q + 1) / (d * o8) <= input_hz lim * m8 / (d * o8)) by (apply Z.div_le_mono; nia). lia.
Qed.

(** A 100 MHz reference on a speed-grade-2 UltraScale+ MMCM, 720p60. *)
Definition zcu104 : soct_clk_wzrd_limits := Limits 100000000 800000000 1600000000 25000000 500000000.

Lemma zcu104_limits : u32_limits zcu104.
Proof. unfold u32_limits, fits; cbn; lia. Qed.

Lemma candidate_720p : candidate zcu104 74250000 4 100 297.
Proof. split; [unfold legal; cbn; lia|by left]. Qed.

Lemma solve_720p : exists s, soct_clk_wzrd_solve zcu104 74250000 = Some s /\ achieved_hz s = 74250000.
Proof.
  destruct (solve_near zcu104 74250000 4 100 297 zcu104_limits) as (s & E & Hs);
    [unfold fits; lia|cbn; lia|lia|exact candidate_720p|by vm_compute|].
  exists s. split; [exact E|]. change (dist zcu104 74250000 4 100 297) with 0 in Hs. lia.
Qed.

Lemma solve_sound_witness :
  exists s, soct_clk_wzrd_solve zcu104 74250000 = Some s /\ 200 * Z.abs (achieved_hz s - 74250000) <= 74250000.
Proof.
  destruct solve_720p as (s & E & _). exists s. split; [exact E|].
  apply (solve_sound zcu104 74250000 s zcu104_limits); [unfold fits; lia|exact E].
Defined.


(** ** Reprogramming *)

(** The registers, by offset from [base]. *)
Definition WZRD_STATUS : Z := 0x004.
Definition WZRD_STATUS_LOCKED : Z := 1.
Definition WZRD_CFG_MULT_DIV : Z := 0x200.
Definition WZRD_CFG_CLKOUT0 : Z := 0x208.
Definition WZRD_CFG_CLKOUT0_PHASE : Z := 0x20C.
Definition WZRD_APPLY : Z := 0x25C.
Definition WZRD_APPLY_LOAD_SEN : Z := 3.

Definition EBUSY : Z := 16.
Definition ETIMEDOUT : Z := 110.

(** The kernel's [read_poll_timeout]: the reads of STATUS until LOCKED or the deadline,
    given as the values read before the deadline; nonzero when none of them had the bit. *)
Definition poll_locked (reads : list Z) : Z :=
  if existsb (fun st => tst st WZRD_STATUS_LOCKED) reads then 0 else - ETIMEDOUT.

Definition clkout0_word (s : soct_clk_wzrd_setting) : Z :=
  (odiv_eighths s / 8) .| u32 (u32 ((odiv_eighths s mod 8) * 125) .<< 8).

Definition mult_div_word (s : soct_clk_wzrd_setting) : Z :=
  div s .| u32 ((mult_eighths s / 8) .<< 8) .| u32 (u32 ((mult_eighths s mod 8) * 125) .<< 16).

(** The writes, oldest first, and the return value. *)
Definition soct_clk_wzrd_retune (s : soct_clk_wzrd_setting) (before after : list Z) : list (Z * Z) * Z :=
  let config := [(WZRD_CFG_CLKOUT0, clkout0_word s); (WZRD_CFG_MULT_DIV, mult_div_word s);
                 (WZRD_CFG_CLKOUT0_PHASE, 0)] in
  if negb (poll_locked before =? 0) then (config, - EBUSY)
  else (config ++ [(WZRD_APPLY, WZRD_APPLY_LOAD_SEN)],
        if negb (poll_locked after =? 0) then - ETIMEDOUT else 0).

(** How the wizard reads its configuration words back (PG065), in eighths. *)
Definition hw_div (w : Z) : Z := w mod 2 ^ 8.
Definition hw_mult8 (w : Z) : Z := 8 * ((w .>> 8) mod 2 ^ 8) + ((w .>> 16) mod 2 ^ 10) / 125.
Definition hw_odiv8 (w : Z) : Z := 8 * (w mod 2 ^ 8) + ((w .>> 8) mod 2 ^ 10) / 125.

(** The last value written to a register. *)
Definition reg (ws : list (Z * Z)) (r : Z) : option Z :=
  snd <$> List.find (fun w => w.1 =? r) (rev ws).

Lemma frac_bounds x : 0 <= (x mod 8) * 125 <= 875.
Proof. pose proof (Z.mod_pos_bound x 8). lia. Qed.

Lemma clkout0_word_eq s : 0 <= odiv_eighths s < 2048 ->
  clkout0_word s = odiv_eighths s / 8 + (odiv_eighths s mod 8) * 125 * 2 ^ 8.
Proof.
  intros. unfold clkout0_word. pose proof (frac_bounds (odiv_eighths s)).
  rewrite (wrap_small 32 (_ * 125)) by (unfold fits; lia).
  rewrite wrap_small by (rewrite Z.shiftl_mul_pow2 by lia; unfold fits; lia).
  rewrite lor_shiftl_add; [lia..|]. unfold fits. split; [apply Z.div_pos; lia|apply Z.div_lt_upper_bound; lia].
Qed.

Lemma mult_div_word_eq s : 0 <= div s < 256 -> 0 <= mult_eighths s < 2048 ->
  mult_div_word s = div s + mult_eighths s / 8 * 2 ^ 8 + (mult_eighths s mod 8) * 125 * 2 ^ 16.
Proof.
  intros. unfold mult_div_word. pose proof (frac_bounds (mult_eighths s)).
  assert (0 <= mult_eighths s / 8 < 256) by (split; [apply Z.div_pos; lia|apply Z.div_lt_upper_bound; lia]).
  rewrite (wrap_small 32 (_ * 125)) by (unfold fits; lia).
  rewrite !(wrap_small 32) by (rewrite Z.shiftl_mul_pow2 by lia; unfold fits; lia).
  rewrite (lor_shiftl_add (div s)) by (unfold fits; lia).
  rewrite (lor_shiftl_add (div s + _)); [lia..|unfold fits; lia].
Qed.

Lemma hw_mult_div_word s : 0 <= div s < 256 -> 0 <= mult_eighths s < 2048 ->
  hw_div (mult_div_word s) = div s /\ hw_mult8 (mult_div_word s) = mult_eighths s.
Proof.
  intros. rewrite mult_div_word_eq by done. unfold hw_div, hw_mult8.
  rewrite !Z.shiftr_div_pow2 by lia. Z.div_mod_to_equations. lia.
Qed.

Lemma hw_clkout0_word s : 0 <= odiv_eighths s < 2048 -> hw_odiv8 (clkout0_word s) = odiv_eighths s.
Proof.
  intros. rewrite clkout0_word_eq by done. unfold hw_odiv8.
  rewrite Z.shiftr_div_pow2 by lia. Z.div_mod_to_equations. lia.
Qed.

(** Solving and retuning compose: after [soct_clk_wzrd_retune] with a solved setting, the
    three fields the wizard decodes from its registers are that setting exactly (the
    thousandths it is written in lose nothing); LOAD is written, and only as the last
    write, when the wizard was locked; the result is -EBUSY exactly when it was not,
    -ETIMEDOUT when it was but did not relock, and 0 otherwise. *)
Theorem retune_solved lim target s before after ws r :
  u32_limits lim -> fits 32 target -> soct_clk_wzrd_solve lim target = Some s ->
  soct_clk_wzrd_retune s before after = (ws, r) ->
  (hw_div <$> reg ws WZRD_CFG_MULT_DIV) = Some (div s) /\
  (hw_mult8 <$> reg ws WZRD_CFG_MULT_DIV) = Some (mult_eighths s) /\
  (hw_odiv8 <$> reg ws WZRD_CFG_CLKOUT0) = Some (odiv_eighths s) /\
  (reg ws WZRD_APPLY <> None <-> poll_locked before = 0) /\
  (reg ws WZRD_APPLY <> None -> last ws = Some (WZRD_APPLY, WZRD_APPLY_LOAD_SEN)) /\
  r = (if negb (poll_locked before =? 0) then - EBUSY
       else if negb (poll_locked after =? 0) then - ETIMEDOUT else 0).
Proof.
  intros Hl Ht Hs Hr. unfold soct_clk_wzrd_solve in Hs.
  case_match; [done|].
  pose proof (search_ok lim target Hl Ht) as Hok. destruct (search lim target) as [e o].
  case_match; [done|]. subst o. destruct Hok as [(? & ? & _ & ? & _) _].
  assert (0 <= div s < 256 /\ 0 <= mult_eighths s < 2048 /\ 0 <= odiv_eighths s < 2048) as (? & ? & ?) by lia.
  destruct (hw_mult_div_word s) as [Hd Hm]; [done..|]. pose proof (hw_clkout0_word s).
  unfold soct_clk_wzrd_retune in Hr.
  destruct (Z.eqb_spec (poll_locked before) 0) as [E|E]; cbn [negb] in *;
    injection Hr as <- <-; unfold reg; cbn; rewrite ?Hd, ?Hm; split_and!; auto with f_equal; try done;
    split; congruence.
Qed.

Lemma retune_solved_witness : exists s, soct_clk_wzrd_solve zcu104 74250000 = Some s /\
  (hw_mult8 <$> reg (soct_clk_wzrd_retune s [0; 1] [0; 0; 1]).1 WZRD_CFG_MULT_DIV) = Some (mult_eighths s).
Proof.
  destruct solve_720p as (s & E & _). exists s. split; [exact E|].
  eapply (retune_solved zcu104 74250000 s [0; 1] [0; 0; 1] _ _ zcu104_limits); [unfold fits; lia|exact E|reflexivity].
Defined.
