(* ===== verification/Dtb.v ===== *)
(** * The device-tree parser (shared/soctglue/src/smoldtb.c), reading side

    The flattened tree is one object, [blob], a list of bytes; a pointer into it is an
    offset, a C string is the bytes from the pointer to the end of the object, and a load
    outside it is [Undef].  The parser's two buffers are lists of nodes and properties, and
    a [dtb_node *] or [dtb_prop *] is an index into them.  Loops carry fuel and answer
    [Fuel] when it runs out; DtbTree proves how much is enough. *)
From S2P Require Import Prelude.
From Stdlib Require Import String Ascii.

(** ** Utility functions *)

Definition FDT_MAGIC : Z := 0xD00DFEED.
Definition FDT_BEGIN_NODE : Z := 1.
Definition FDT_END_NODE : Z := 2.
Definition FDT_PROP : Z := 3.
Definition FDT_CELL_SIZE : Z := 4.

(** The little-endian branch, which is the one RISC-V compiles. *)
Definition be32 (input : Z) : Z :=
  u32 ((input .& 0xFF) .<< 24) .| u32 ((input .& 0xFF00) .<< 8)
  .| ((input .& 0xFF0000) .>> 8) .| ((input .& 0xFF000000) .>> 24).

Definition be64 (input : Z) : Z :=
  u64 (((input .>> 0) .& 0xFF) .<< 56) .| u64 (((input .>> 8) .& 0xFF) .<< 48)
  .| u64 (((input .>> 16) .& 0xFF) .<< 40) .| u64 (((input .>> 24) .& 0xFF) .<< 32)
  .| u64 (((input .>> 32) .& 0xFF) .<< 24) .| u64 (((input .>> 40) .& 0xFF) .<< 16)
  .| u64 (((input .>> 48) .& 0xFF) .<< 8) .| (((input .>> 56) .& 0xFF) .<< 0).

(** A [const char *]: the bytes from it to the end of the object; [None] is NULL. *)
Definition cptr : Type := list Z.

(** A string literal, with its terminator. *)
Definition lit (s : string) : cptr := map (fun a => Z.of_nat (nat_of_ascii a)) (list_ascii_of_string s) ++ [0].

Fixpoint strlen (str : cptr) : option Z :=
  match str with
  | [] => None
  | c :: r => if c =? 0 then Some 0 else Z.succ <$> strlen r
  end.

Definition string_len (str : option cptr) : res Z :=
  match str with None => Ret 0 | Some s => of_opt (strlen s) end.

Fixpoint strings_eq (a b : cptr) (len : nat) {struct len} : res bool :=
  match len with
  | O => Ret true
  | S len =>
      match a, b with
      | x :: a, y :: b =>
          if (x =? 0) && (y =? 0) then Ret true
          else if negb (x =? y) then Ret false else strings_eq a b len
      | _, _ => Undef
      end
  end.

Definition NPOS : Z := 2 ^ 64 - 1.

Fixpoint find_char (str : cptr) (target : Z) : option (option Z) :=
  match str with
  | [] => None
  | c :: r => if c =? target then Some (Some 0)
              else if c =? 0 then Some None
              else option_map (option_map Z.succ) (find_char r target)
  end.

(** [-1ul] when [target] is not in the string. *)
Definition string_find_char (str : option cptr) (target : Z) : res Z :=
  match str with
  | None => Undef
  | Some s => from_option id NPOS <$> of_opt (find_char s target)
  end.

Definition dtb_align_up (input alignment : Z) : Z := u64 (input + alignment - 1) / alignment * alignment.

(** ** Parser state *)

Record dtb_node := Node {
  parent : option nat; sibling : option nat; child : option nat; props : option nat;
  nname : option Z; fromMalloc : bool }.

Record dtb_prop := Prop_ {
  pnode : option nat; pname : Z; pdata : Z; pnext : option nat; plength : Z;
  pfromMalloc : bool; dataFromMalloc : bool }.

(** Zeroed buffers. *)
Definition node0 : dtb_node := Node None None None None None false.
Definition prop0 : dtb_prop := Prop_ None 0 0 None 0 false false.

(** [malloc] answers whether a block of that size is granted; the callbacks may be NULL. *)
Record dtb_ops := Ops { malloc : option (Z -> bool); free : bool; on_error : bool }.

Record dtb_init_info := Info { cells : Z; strings : Z; cell_count : Z }.

Record dtb_state := State {
  root : option nat;
  handle_lookup : list (option nat);
  node_buff : list dtb_node; node_alloc_head : nat; node_alloc_max : nat;
  prop_buff : list dtb_prop; prop_alloc_head : nat; prop_alloc_max : nat;
  have_buff : bool;      (** [node_buff != NULL] *)
  resv_memory : Z;
  ops : dtb_ops;
  errors : list string   (** what [on_error] was told, newest first *) }.

Definition set_root r st := State r (handle_lookup st) (node_buff st) (node_alloc_head st)
  (node_alloc_max st) (prop_buff st) (prop_alloc_head st) (prop_alloc_max st) (have_buff st)
  (resv_memory st) (ops st) (errors st).
Definition set_lookup l st := State (root st) l (node_buff st) (node_alloc_head st)
  (node_alloc_max st) (prop_buff st) (prop_alloc_head st) (prop_alloc_max st) (have_buff st)
  (resv_memory st) (ops st) (errors st).
Definition set_nodes b h st := State (root st) (handle_lookup st) b h
  (node_alloc_max st) (prop_buff st) (prop_alloc_head st) (prop_alloc_max st) (have_buff st)
  (resv_memory st) (ops st) (errors st).
Definition set_props b h st := State (root st) (handle_lookup st) (node_buff st) (node_alloc_head st)
  (node_alloc_max st) b h (prop_alloc_max st) (have_buff st)
  (resv_memory st) (ops st) (errors st).
Definition set_ops o st := State (root st) (handle_lookup st) (node_buff st) (node_alloc_head st)
  (node_alloc_max st) (prop_buff st) (prop_alloc_head st) (prop_alloc_max st) (have_buff st)
  (resv_memory st) o (errors st).
Definition set_resv r st := State (root st) (handle_lookup st) (node_buff st) (node_alloc_head st)
  (node_alloc_max st) (prop_buff st) (prop_alloc_head st) (prop_alloc_max st) (have_buff st)
  r (ops st) (errors st).

Definition LOG_ERROR (msg : string) (st : dtb_state) : dtb_state :=
  if on_error (ops st) then
    State (root st) (handle_lookup st) (node_buff st) (node_alloc_head st)
      (node_alloc_max st) (prop_buff st) (prop_alloc_head st) (prop_alloc_max st) (have_buff st)
      (resv_memory st) (ops st) (msg :: errors st)
  else st.

(** Updates through a pointer. *)
Definition upd_node (n : nat) (f : dtb_node -> dtb_node) (st : dtb_state) : dtb_state :=
  set_nodes (alter f n (node_buff st)) (node_alloc_head st) st.
Definition upd_prop (p : nat) (f : dtb_prop -> dtb_prop) (st : dtb_state) : dtb_state :=
  set_props (alter f p (prop_buff st)) (prop_alloc_head st) st.

Definition try_malloc (count : Z) (st : dtb_state) : bool * dtb_state :=
  match malloc (ops st) with
  | Some grant => (grant count, st)
  | None => (false, LOG_ERROR "try_malloc() called but state.ops.malloc is NULL" st)
  end.

(** The log line is outside the [if]: it is written whether or not there is a [free]. *)
Definition try_free (st : dtb_state) : dtb_state :=
  LOG_ERROR "try_free() called but state.ops.free is NULL" st.

(** ** Looking along a list by name

    Shared by the two halves of the file: [names] is the C string at a pointer. *)

Definition node_at (st : dtb_state) (n : nat) : res dtb_node := of_opt (node_buff st !! n).
Definition prop_at (st : dtb_state) (p : nat) : res dtb_prop := of_opt (prop_buff st !! p).

(** The search of [dtb_find_prop] along the property list. *)
Fixpoint find_prop_from (names : Z -> cptr) (fuel : nat) (st : dtb_state) (nm : cptr) (name_len : Z) (pr : option nat)
    : res (option nat) :=
  match pr with
  | None => Ret None
  | Some p =>
      match fuel with
      | O => Fuel
      | S fuel =>
          pd ← prop_at st p;
          let pn := names (pname pd) in
          prop_name_len ← string_len (Some pn);
          e ← (if prop_name_len =? name_len then strings_eq pn nm (Z.to_nat prop_name_len) else Ret false);
          if e : bool then Ret (Some p) else find_prop_from names fuel st nm name_len (pnext pd)
      end
  end.

Definition find_prop_by (names : Z -> cptr) (st : dtb_state) (nd : option nat) (nm : cptr) : res (option nat) :=
  match nd with
  | None => Ret None
  | Some n =>
      name_len ← string_len (Some nm);
      nn ← node_at st n;
      find_prop_from names (List.length (prop_buff st)) st nm name_len (props nn)
  end.

(** The child list walk of [find_child_internal]. *)
Fixpoint find_child_from (names : Z -> cptr) (fuel : nat) (st : dtb_state) (nm : cptr) (name_bounds : Z) (scan : option nat)
    : res (option nat) :=
  match scan with
  | None => Ret None
  | Some c =>
      match fuel with
      | O => Fuel
      | S fuel =>
          cn ← node_at st c;
          let cname := names <$> nname cn in
          at_ ← string_find_char cname 64;
          child_name_len ← (if at_ =? NPOS then string_len cname else Ret at_);
          e ← (if child_name_len =? name_bounds
               then match cname with
                    | Some cs => strings_eq cs nm (Z.to_nat name_bounds)
                    | None => Undef
                    end
               else Ret false);
          if e : bool then Ret (Some c) else find_child_from names fuel st nm name_bounds (sibling cn)
      end
  end.
Definition find_child_by (names : Z -> cptr) (st : dtb_state) (start : nat) (nm : cptr) (name_bounds : Z) : res (option nat) :=
  sn ← node_at st start;
  find_child_from names (List.length (node_buff st)) st nm name_bounds (child sn).

(** ** Reading the blob *)

Section blob.
Context (blob : list Z).

Definition rd8 (p : Z) : res Z := if p <? 0 then Undef else of_opt (blob !! Z.to_nat p).

(** A 32-bit and a 64-bit little-endian load. *)
Definition rd32 (p : Z) : res Z :=
  a ← rd8 p; b ← rd8 (p + 1); c ← rd8 (p + 2); d ← rd8 (p + 3);
  Ret (a + b * 2 ^ 8 + c * 2 ^ 16 + d * 2 ^ 24).
Definition rd64 (p : Z) : res Z := l ← rd32 p; h ← rd32 (p + 4); Ret (l + h * 2 ^ 32).

Definition str_at (p : Z) : cptr := drop (Z.to_nat p) blob.

(** Cell [i] of the structure block, byte-swapped. *)
Definition cell (ii : dtb_init_info) (i : Z) : res Z := be32 <$> rd32 (cells ii + i * 4).

(** The loop of [extract_cells], [k] cells from the end; a shift by 64 or more is undefined. *)
Fixpoint extract_from (k : nat) (p value : Z) : res Z :=
  match k with
  | O => Ret value
  | S k => c ← rd32 p;
      if 64 <=? Z.of_nat k * 32 then Undef
      else extract_from k (p + 4) (value .| u64 (be32 c .<< (Z.of_nat k * 32)))
  end.
Definition extract_cells (p count : Z) : res Z := extract_from (Z.to_nat count) p 0.

(** ** Allocation *)

Definition alloc_node (st : dtb_state) : option nat * dtb_state :=
  if (node_alloc_head st + 1 <? node_alloc_max st)%nat
  then (Some (node_alloc_head st), set_nodes (node_buff st) (node_alloc_head st + 1) st)
  else (None, LOG_ERROR "Not enough space for source dtb node." st).

Definition alloc_prop (st : dtb_state) : option nat * dtb_state :=
  if (prop_alloc_head st + 1 <? prop_alloc_max st)%nat
  then (Some (prop_alloc_head st), set_props (prop_buff st) (prop_alloc_head st + 1) st)
  else (None, LOG_ERROR "Not enough space for source dtb property." st).

Definition free_buffers (st : dtb_state) : dtb_state :=
  let st := try_free st in
  State (root st) [] [] 0 0 [] 0 0 false (resv_memory st) (ops st) (errors st).

Fixpoint count_cells (ii : dtb_init_info) (tag : Z) (i : Z) (k : nat) : res nat :=
  match k with
  | O => Ret 0%nat
  | S k => c ← cell ii i; n ← count_cells ii tag (i + 1) k; Ret (if c =? tag then S n else n)
  end.

Definition sizeof_dtb_node : Z := 48.
Definition sizeof_dtb_prop : Z := 40.
Definition sizeof_ptr : Z := 8.

Definition alloc_buffers (ii : dtb_init_info) (st : dtb_state) : res (bool * dtb_state) :=
  nm ← count_cells ii FDT_BEGIN_NODE 0 (Z.to_nat (cell_count ii));
  pm ← count_cells ii FDT_PROP 0 (Z.to_nat (cell_count ii));
  let total := Z.of_nat nm * sizeof_dtb_node + Z.of_nat pm * sizeof_dtb_prop + Z.of_nat nm * sizeof_ptr in
  let '(ok, st) := try_malloc total st in
  if negb ok then
    Ret (false, LOG_ERROR "Failed to allocate big buffer."
      (State (root st) (handle_lookup st) (node_buff st) (node_alloc_head st) nm
         (prop_buff st) (prop_alloc_head st) pm (have_buff st) (resv_memory st) (ops st) (errors st)))
  else
    Ret (true, State (root st) (replicate nm None) (replicate nm node0) 0 nm (replicate pm prop0) 0 pm
                 true (resv_memory st) (ops st) (errors st)).

(** ** Reading properties *)

(** The two header words before the data: [fdtprop->length]. *)
Definition fdt_length (pr : dtb_prop) : res Z := be32 <$> rd32 (pdata pr - 8).

(** The shared loop of the [dtb_read_prop_n]: [n] entries of the given cell counts. *)
Fixpoint read_entry (p : Z) (layout : list Z) : res (list Z) :=
  match layout with
  | [] => Ret []
  | c :: layout => v ← extract_cells p c; vs ← read_entry (p + c * 4) layout; Ret (v :: vs)
  end.
Fixpoint read_entries (n : nat) (p stride : Z) (layout : list Z) : res (list (list Z)) :=
  match n with
  | O => Ret []
  | S n => e ← read_entry p layout; es ← read_entries n (p + stride * 4) stride layout; Ret (e :: es)
  end.

(** The count of entries, and the entries when [vals] is not NULL. *)
Definition read_prop_n (pr : option dtb_prop) (layout : list Z) (vals : bool) : res (Z * list (list Z)) :=
  match pr with
  | None => Ret (0, [])
  | Some pr =>
      if existsb (fun c => c =? 0) layout then Ret (0, []) else
      let stride := u64 (foldl Z.add 0 layout) in
      if u64 (stride * FDT_CELL_SIZE) =? 0 then Undef else
      len ← fdt_length pr;
      let count := len / u64 (stride * FDT_CELL_SIZE) in
      if negb vals then Ret (count, [])
      else es ← read_entries (Z.to_nat count) (pdata pr) stride layout; Ret (count, es)
  end.

Definition dtb_read_prop_1 (pr : option dtb_prop) (cell_count : Z) (vals : bool) : res (Z * list Z) :=
  r ← read_prop_n pr [cell_count] vals; Ret (r.1, map (fun e => hd 0 e) r.2).
Definition dtb_read_prop_2 pr (a b : Z) vals := read_prop_n pr [a; b] vals.
Definition dtb_read_prop_3 pr (a b c : Z) vals := read_prop_n pr [a; b; c] vals.
Definition dtb_read_prop_4 pr (a b c d : Z) vals := read_prop_n pr [a; b; c; d] vals.

(** String [index] of a property: the loop bound is four times the length in bytes, in
    32 bits.  The answer is a pointer into the blob. *)
Fixpoint scan_string (k : nat) (p : Z) (curr index : Z) : res (option Z) :=
  match k with
  | O => Ret None
  | S k => c ← rd8 p;
      if c =? 0 then scan_string k (p + 1) (curr + 1) index
      else if curr =? index then Ret (Some p)
      else scan_string k (p + 1) curr index
  end.
Definition dtb_read_prop_string (pr : option dtb_prop) (index : Z) : res (option Z) :=
  match pr with
  | None => Ret None
  | Some pr => scan_string (Z.to_nat (u32 (plength pr * 4))) (pdata pr) 0 index
  end.

(** ** Parsing *)

(** The guard returns unless the name starts with both ['p'] and ['l']. *)
Definition record_handle (nd pr : nat) (st : dtb_state) : res dtb_state :=
  p ← of_opt (prop_buff st !! pr);
  '(count, vals) ← dtb_read_prop_1 (Some p) 1 true;
  match vals with
  | [handle] =>
      if Z.of_nat (List.length (handle_lookup st)) <=? handle then Undef
      else Ret (set_lookup (<[Z.to_nat handle := Some nd]> (handle_lookup st)) st)
  | _ => Undef (* [handle] unset, or written past *)
  end.

Definition check_for_special_prop (nd pr : nat) (st : dtb_state) : res dtb_state :=
  p ← of_opt (prop_buff st !! pr);
  name0 ← rd8 (pname p);
  if negb (name0 =? 112) || negb (name0 =? 108) then Ret st else
  let nm := str_at (pname p) in
  name_len ← string_len (Some nm);
  e ← strings_eq nm (lit "phandle") (Z.to_nat name_len);
  if (name_len =? 7) && e then record_handle nd pr st else
  e ← strings_eq nm (lit "linux,phandle") (Z.to_nat name_len);
  if (name_len =? 13) && e then record_handle nd pr st else Ret st.

Definition parse_prop (ii : dtb_init_info) (offset : Z) (st : dtb_state) : res (option nat * Z * dtb_state) :=
  tag ← cell ii offset;
  if negb (tag =? FDT_PROP) then Ret (None, offset, st) else
  let offset := offset + 1 in
  match alloc_prop st with
  | (None, st) => Ret (None, offset, LOG_ERROR "Property allocation failed" st)
  | (Some pr, st) =>
      len ← cell ii offset;
      noff ← cell ii (offset + 1);
      let st := upd_prop pr (fun p => Prop_ (pnode p) (strings ii + noff) (cells ii + (offset + 2) * 4)
                                        (pnext p) len false false) st in
      Ret (Some pr, offset + dtb_align_up len 4 / 4 + 2, st)
  end.

(** Linking a parsed child and a parsed property into their node. *)
Definition link_child (nd c : nat) (st : dtb_state) : res dtb_state :=
  n ← of_opt (node_buff st !! nd);
  Ret (upd_node c (fun cn => Node (Some nd) (sibling cn) (child cn) (props cn) (nname cn) (fromMalloc cn))
    (upd_node nd (fun n => Node (parent n) (sibling n) (Some c) (props n) (nname n) (fromMalloc n))
    (upd_node c (fun cn => Node (parent cn) (child n) (child cn) (props cn) (nname cn) (fromMalloc cn)) st))).

Definition link_prop (nd pr : nat) (st : dtb_state) : res dtb_state :=
  n ← of_opt (node_buff st !! nd);
  Ret (upd_node nd (fun n => Node (parent n) (sibling n) (child n) (Some pr) (nname n) (fromMalloc n))
    (upd_prop pr (fun p => Prop_ (Some nd) (pname p) (pdata p) (props n) (plength p)
                             (pfromMalloc p) (dataFromMalloc p)) st)).

(** [parse_node] up to its loop, and the loop, with its state in [offset] and [st]. *)
Fixpoint parse_node (fuel : nat) (ii : dtb_init_info) (offset : Z) (st : dtb_state) {struct fuel}
    : res (option nat * Z * dtb_state) :=
  match fuel with
  | O => Fuel
  | S fuel =>
      tag ← cell ii offset;
      if negb (tag =? FDT_BEGIN_NODE) then Ret (None, offset, st) else
      match alloc_node st with
      | (None, st) => Ret (None, offset, LOG_ERROR "Node allocation failed" st)
      | (Some nd, st) =>
          let nm := cells ii + (offset + 1) * 4 in
          name_len ← string_len (Some (str_at nm));
          let st := upd_node nd (fun n => Node (parent n) (sibling n) (child n) (props n)
                      (if name_len =? 0 then None else Some nm) false) st in
          parse_body fuel ii nd (offset + dtb_align_up (name_len + 1) FDT_CELL_SIZE / FDT_CELL_SIZE + 1) st
      end
  end
with parse_body (fuel : nat) (ii : dtb_init_info) (nd : nat) (offset : Z) (st : dtb_state) {struct fuel}
    : res (option nat * Z * dtb_state) :=
  match fuel with
  | O => Fuel
  | S fuel =>
      if negb (offset <? cell_count ii) then
        Ret (None, offset, LOG_ERROR "Node is missing terminating tag." st)
      else
        test ← cell ii offset;
        if test =? FDT_END_NODE then Ret (Some nd, offset + 1, st)
        else if test =? FDT_BEGIN_NODE then
          '(c, offset, st) ← parse_node fuel ii offset st;
          match c with
          | None => parse_body fuel ii nd offset st
          | Some c => st ← link_child nd c st; parse_body fuel ii nd offset st
          end
        else if test =? FDT_PROP then
          '(p, offset, st) ← parse_prop ii offset st;
          match p with
          | None => parse_body fuel ii nd offset st
          | Some p => st ← link_prop nd p st;
              st ← check_for_special_prop nd p st; parse_body fuel ii nd offset st
          end
        else parse_body fuel ii nd (offset + 1) st
  end.

(** ** Initialisation *)

(** The header fields the parser reads, by byte offset. *)
Definition hdr_magic : Z := 0.
Definition hdr_total_size : Z := 4.
Definition hdr_offset_structs : Z := 8.
Definition hdr_offset_strings : Z := 12.
Definition hdr_offset_memmap_rsvd : Z := 16.
Definition hdr_size_structs : Z := 36.
Definition hdr (field : Z) : res Z := be32 <$> rd32 field.

(** [fdt_start] is the blob, or 0 when [null]. *)
Definition dtb_query_total_size (null : bool) : res Z :=
  if null then Ret 0 else
  magic ← hdr hdr_magic;
  if negb (magic =? FDT_MAGIC) then Ret 0 else hdr hdr_total_size.

(** The loop over the top level; [parse_node] moves [i], and the loop adds one to it. *)
Fixpoint parse_roots (fuel : nat) (ii : dtb_init_info) (i : Z) (st : dtb_state) : res dtb_state :=
  match fuel with
  | O => Fuel
  | S fuel =>
      if negb (i <? cell_count ii) then Ret st else
      tag ← cell ii i;
      if negb (tag =? FDT_BEGIN_NODE) then parse_roots fuel ii (i + 1) st else
      '(sub_root, i, st) ← parse_node fuel ii i st;
      match sub_root with
      | None => parse_roots fuel ii (i + 1) st
      | Some r =>
          let st := upd_node r (fun n => Node (parent n) (root st) (child n) (props n) (nname n) (fromMalloc n)) st in
          parse_roots fuel ii (i + 1) (set_root (Some r) st)
      end
  end.

Definition dtb_init (fuel : nat) (null : bool) (o : dtb_ops) (st : dtb_state) : res (bool * dtb_state) :=
  let st := set_ops o st in
  match malloc o with
  | None => Ret (false, LOG_ERROR "smoldtb has been compiled without an internal static buffer, but not passed a malloc() function." st)
  | Some _ =>
      if null then Ret (true, set_root None st) else
      magic ← hdr hdr_magic;
      if negb (magic =? FDT_MAGIC) then Ret (false, LOG_ERROR "FDT has incorrect magic number." st) else
      rsvd ← hdr hdr_offset_memmap_rsvd;
      structs ← hdr hdr_offset_structs;
      size ← hdr hdr_size_structs;
      strs ← hdr hdr_offset_strings;
      let st := set_resv rsvd st in
      let ii := Info structs strs (size / 4) in
      let st := if have_buff st then free_buffers st else st in
      '(ok, st) ← alloc_buffers ii st;
      if negb ok then Ret (false, LOG_ERROR "failed to allocate readonly buffer" st)
      else st ← parse_roots fuel ii 0 st; Ret (true, st)
  end.

(** ** Queries *)

Definition dtb_find_prop (st : dtb_state) := find_prop_by str_at st.

(** A property handed on by pointer. *)
Definition deref_prop (st : dtb_state) (pr : option nat) : res (option dtb_prop) :=
  match pr with None => Ret None | Some p => Some <$> prop_at st p end.

Definition find_child_internal (st : dtb_state) := find_child_by str_at st.

(** [while (name[0] == '/') name++]. *)
Fixpoint skip_slashes (nm : cptr) : res cptr :=
  match nm with [] => Undef | c :: r => if c =? 47 then skip_slashes r else Ret nm end.

Fixpoint find_from (fuel : nat) (st : dtb_state) (scan : option nat) (nm : cptr) : res (option nat) :=
  match scan with
  | None => Ret None
  | Some n =>
      match fuel with
      | O => Fuel
      | S fuel =>
          nm ← skip_slashes nm;
          seg ← string_find_char (Some nm) 47;
          seg_len ← (if seg =? NPOS then string_len (Some nm) else Ret seg);
          if seg_len =? 0 then Ret (Some n) else
          next ← find_child_internal st n nm seg_len;
          find_from fuel st next (drop (Z.to_nat seg_len) nm)
      end
  end.
(** Every round but the last consumes a character of the path. *)
Definition dtb_find (st : dtb_state) (nm : cptr) : res (option nat) :=
  find_from (S (List.length nm)) st (root st) nm.

Definition dtb_find_child (st : dtb_state) (start : option nat) (nm : cptr) : res (option nat) :=
  match start with
  | None => Ret None
  | Some n => len ← string_len (Some nm); find_child_internal st n nm len
  end.

Definition dtb_get_sibling (st : dtb_state) (nd : option nat) : res (option nat) :=
  match nd with None => Ret None | Some n => sibling <$> node_at st n end.
Definition dtb_get_child (st : dtb_state) (nd : option nat) : res (option nat) :=
  match nd with None => Ret None | Some n => child <$> node_at st n end.
Definition dtb_get_parent (st : dtb_state) (nd : option nat) : res (option nat) :=
  match nd with None => Ret None | Some n => parent <$> node_at st n end.

Fixpoint get_prop_from (fuel : nat) (st : dtb_state) (pr : option nat) (index : Z) : res (option nat) :=
  match pr with
  | None => Ret None
  | Some p =>
      match fuel with
      | O => Fuel
      | S fuel => if index =? 0 then Ret (Some p)
                  else pd ← prop_at st p; get_prop_from fuel st (pnext pd) (index - 1)
      end
  end.
Definition dtb_get_prop (st : dtb_state) (nd : option nat) (index : Z) : res (option nat) :=
  match nd with
  | None => Ret None
  | Some n => nn ← node_at st n; get_prop_from (S (List.length (prop_buff st))) st (props nn) index
  end.

Definition get_cells_helper (st : dtb_state) (nd : option nat) (prop_name : cptr) (orDefault : Z) : res Z :=
  match nd with
  | None => Ret orDefault
  | Some _ =>
      pr ← dtb_find_prop st nd prop_name;
      match pr with
      | None => Ret orDefault
      | Some _ =>
          pd ← deref_prop st pr;
          '(n, vals) ← dtb_read_prop_1 pd 1 true;
          match vals with
          | [] => Ret orDefault
          | [v] => Ret v
          | _ => Undef (* written past [ret_value] *)
          end
      end
  end.

Definition address_cells : cptr := lit "#address-cells".
Definition size_cells : cptr := lit "#size-cells".

Definition dtb_get_addr_cells_of st nd := get_cells_helper st nd address_cells 2.
Definition dtb_get_size_cells_of st nd := get_cells_helper st nd size_cells 1.
Definition dtb_get_addr_cells_for (st : dtb_state) (nd : option nat) : res Z :=
  match nd with
  | None => Ret 2
  | Some n => nn ← node_at st n; get_cells_helper st (parent nn) address_cells 2
  end.
Definition dtb_get_size_cells_for (st : dtb_state) (nd : option nat) : res Z :=
  match nd with
  | None => Ret 1
  | Some n => nn ← node_at st n; get_cells_helper st (parent nn) size_cells 1
  end.

(** The unbounded loop of [dtb_is_compatible]. *)
Fixpoint compat_from (fuel : nat) (pd : option dtb_prop) (str : cptr) (str_len : Z) (i : Z) : res bool :=
  match fuel with
  | O => Fuel
  | S fuel =>
      c ← dtb_read_prop_string pd i;
      match c with
      | None => Ret false
      | Some c => e ← strings_eq (str_at c) str (Z.to_nat str_len);
                  if e : bool then Ret true else compat_from fuel pd str str_len (i + 1)
      end
  end.
Definition dtb_is_compatible (st : dtb_state) (nd : option nat) (str : option cptr) : res bool :=
  match nd, str with
  | Some _, Some s =>
      pr ← dtb_find_prop st nd (lit "compatible");
      match pr with
      | None => Ret false
      | Some _ =>
          pd ← deref_prop st pr;
          str_len ← string_len str;
          compat_from (S (Z.to_nat (from_option (fun p => u32 (plength p * 4)) 0 pd))) pd s str_len 0
      end
  | _, _ => Ret false
  end.

Fixpoint find_compatible_from (k : nat) (st : dtb_state) (i : nat) (str : option cptr) : res (option nat) :=
  match k with
  | O => Ret None
  | S k => c ← dtb_is_compatible st (Some i) str;
           if c : bool then Ret (Some i) else find_compatible_from k st (S i) str
  end.
Definition dtb_find_compatible (st : dtb_state) (start : option nat) (str : option cptr) : res (option nat) :=
  let begin_index := match start with None => 0%nat | Some n => S n end in
  find_compatible_from (node_alloc_head st - begin_index) st begin_index str.

Definition dtb_find_phandle (st : dtb_state) (handle : Z) : res (option nat) :=
  if handle <? Z.of_nat (node_alloc_max st) then of_opt (handle_lookup st !! Z.to_nat handle) else Ret None.

(** [dtb_stat_node]: the lengths of the property list, the child list and the parent's
    child list (which counts the node itself). *)
Fixpoint count_props (fuel : nat) (st : dtb_state) (pr : option nat) : res Z :=
  match pr with
  | None => Ret 0
  | Some p => match fuel with
              | O => Fuel
              | S fuel => pd ← prop_at st p; n ← count_props fuel st (pnext pd); Ret (n + 1)
              end
  end.
Fixpoint count_siblings (fuel : nat) (st : dtb_state) (nd : option nat) : res Z :=
  match nd with
  | None => Ret 0
  | Some n => match fuel with
              | O => Fuel
              | S fuel => nn ← node_at st n; k ← count_siblings fuel st (sibling nn); Ret (k + 1)
              end
  end.
Record dtb_node_stat := NodeStat { st_is_root : bool; st_name : option Z; prop_count : Z; child_count : Z; sibling_count : Z }.
Definition dtb_stat_node (st : dtb_state) (nd : option nat) : res (option dtb_node_stat) :=
  match nd with
  | None => Ret None
  | Some n =>
      nn ← node_at st n;
      ps ← count_props (List.length (prop_buff st)) st (props nn);
      cs ← count_siblings (List.length (node_buff st)) st (child nn);
      ss ← match parent nn with
           | None => Ret 0
           | Some p => pn ← node_at st p; count_siblings (List.length (node_buff st)) st (child pn)
           end;
      Ret (Some (NodeStat (bool_decide (root st = Some n)) (nname nn) ps cs ss))
  end.

Definition dtb_stat_prop (st : dtb_state) (pr : option nat) : res (option (Z * Z * Z)) :=
  match pr with None => Ret None | Some p => pd ← prop_at st p; Ret (Some (pname pd, pdata pd, plength pd)) end.

(** The reserved-memory block: the loop tests a raw word against 0 (the [be64] is outside
    the comparison), and both fields of an entry are read from its first word. *)
Fixpoint count_resv (fuel : nat) (p : Z) : res Z :=
  match fuel with
  | O => Fuel
  | S fuel => w ← rd64 p;
      if be64 (b2z (negb (w =? 0))) =? 0 then Ret 0 else n ← count_resv fuel (p + 16); Ret (n + 1)
  end.
Fixpoint read_resv (n : nat) (p : Z) : res (list (Z * Z)) :=
  match n with
  | O => Ret []
  | S n => b ← rd64 p; l ← rd64 p; es ← read_resv n (p + 16); Ret ((be64 b, be64 l) :: es)
  end.
Definition dtb_read_resv_memory (st : dtb_state) (entry_count : Z) (vals : bool) : res (Z * list (Z * Z)) :=
  total_count ← count_resv (S (List.length blob)) (resv_memory st);
  if (entry_count =? 0) || negb vals then Ret (total_count, []) else
  let entry_count := if total_count <? entry_count then total_count else entry_count in
  es ← read_resv (Z.to_nat entry_count) (resv_memory st); Ret (entry_count, es).
End blob.
