(* ===== verification/DtbTree.v ===== *)
(** * Flattened device trees and what the parser builds from them

    The specification side of Dtb: trees, their encoding as the device-tree format lays it
    down, and the relation [repr] between a tree and the linked nodes in the parser's
    buffers.  The main theorem is the round trip: a blob that encodes a tree is parsed to
    that tree (with the children and properties of every node in reverse order), for every
    order of properties, sub-nodes and NOPs. *)
From Stdlib Require Import String.
From S2P Require Import Prelude Dtb.

#[local] Open Scope list_scope.
#[local] Abbreviation length := List.length.

(** ** Trees and their encoding *)

(** A property carries the offset of its name in the strings block, the name and its value;
    a node its name and what is inside it, in file order. *)
Inductive tree : Type := Tree (tname : list Z) (items : list item)
with item : Type :=
| IProp (noff : Z) (pn : list Z) (val : list Z)
| INode (t : tree)
| INop.

Lemma tree_ind' (P : tree -> Prop) :
  (forall nm its, (forall t, In (INode t) its -> P t) -> P (Tree nm its)) -> forall t, P t.
Proof.
  intros H. fix IH 1. intros [nm its]. apply H. induction its as [|it its IHl]; [intros t []|].
  intros t [E|Hin]; [|exact (IHl t Hin)]. destruct it as [| t'|]; try discriminate E.
  injection E as <-. apply IH.
Qed.

Definition be_bytes (x : Z) : list Z :=
  [x / 2 ^ 24; x / 2 ^ 16 mod 2 ^ 8; x / 2 ^ 8 mod 2 ^ 8; x mod 2 ^ 8].


(** Padding to the next cell. *)
Definition pad4 (l : list Z) : list Z := l ++ replicate (Z.to_nat (- zlen l mod 4)) 0.

Fixpoint enc (t : tree) : list Z :=
  match t with
  | Tree nm its =>
      be_bytes FDT_BEGIN_NODE ++ pad4 (nm ++ [0])
      ++ flat_map (fun it => match it with
           | IProp noff _ val => be_bytes FDT_PROP ++ be_bytes (zlen val) ++ be_bytes noff ++ pad4 val
           | INode t => enc t
           | INop => be_bytes 4
           end) its
      ++ be_bytes FDT_END_NODE
  end.
Definition enc_item (it : item) : list Z :=
  match it with
  | IProp noff _ val => be_bytes FDT_PROP ++ be_bytes (zlen val) ++ be_bytes noff ++ pad4 val
  | INode t => enc t
  | INop => be_bytes 4
  end.

(** Cells, nodes and properties of a tree. *)
Section sum.
Context {A : Type} (f : A -> Z).
Fixpoint sum_map (l : list A) : Z := match l with [] => 0 | x :: l => f x + sum_map l end.
End sum.
Fixpoint csize (t : tree) : Z :=
  match t with
  | Tree nm its =>
      2 + (zlen nm + 4) / 4
      + sum_map (fun it => match it with
          | IProp _ _ val => 3 + (zlen val + 3) / 4
          | INode t => csize t
          | INop => 1
          end) its
  end.
Definition isize (it : item) : Z :=
  match it with IProp _ _ val => 3 + (zlen val + 3) / 4 | INode t => csize t | INop => 1 end.
Fixpoint nnodes (t : tree) : Z :=
  match t with
  | Tree _ its => 1 + sum_map (fun it => match it with INode t => nnodes t | _ => 0 end) its
  end.
Definition inodes (it : item) : Z := match it with INode t => nnodes t | _ => 0 end.
Fixpoint nprops (t : tree) : Z :=
  match t with
  | Tree _ its => sum_map (fun it => match it with INode t => nprops t | IProp _ _ _ => 1 | INop => 0 end) its
  end.
Definition iprops (it : item) : Z := match it with INode t => nprops t | IProp _ _ _ => 1 | INop => 0 end.

Definition props_of (its : list item) : list (Z * list Z * list Z) :=
  flat_map (fun it => match it with IProp o n v => [(o, n, v)] | _ => [] end) its.
Definition kids_of (its : list item) : list tree :=
  flat_map (fun it => match it with INode t => [t] | _ => [] end) its.

Lemma csize_eq nm its : csize (Tree nm its) = 2 + (zlen nm + 4) / 4 + sum_map isize its.
Proof. done. Qed.
Lemma nnodes_eq nm its : nnodes (Tree nm its) = 1 + sum_map inodes its.
Proof. done. Qed.
Lemma nprops_eq nm its : nprops (Tree nm its) = sum_map iprops its.
Proof. done. Qed.
Lemma enc_eq nm its :
  enc (Tree nm its) = be_bytes FDT_BEGIN_NODE ++ pad4 (nm ++ [0]) ++ flat_map enc_item its ++ be_bytes FDT_END_NODE.
Proof. done. Qed.

Lemma zlen_pad4 l : zlen (pad4 l) = (zlen l + 3) / 4 * 4.
Proof.
  unfold pad4. rewrite zlen_app. unfold zlen at 2. rewrite length_replicate.
  pose proof (Z.mod_pos_bound (- zlen l) 4). rewrite Z2Nat.id by lia.
  assert (0 <= zlen l) by (unfold zlen; lia). Z.div_mod_to_equations. lia.
Qed.
Lemma zlen_be_bytes x : zlen (be_bytes x) = 4.
Proof. done. Qed.

Lemma csize_pos t : 3 <= csize t.
Proof.
  induction t as [nm its IH] using tree_ind'. rewrite csize_eq. pose proof (zlen_nonneg nm).
  assert (1 <= (zlen nm + 4) / 4) by (apply Z.div_le_lower_bound; lia).
  assert (0 <= sum_map isize its); [|lia]. clear -IH.
  induction its as [|it its IHl]; cbn; [lia|]. assert (0 <= sum_map isize its).
  { apply IHl. intros t Ht. apply IH. by right. }
  destruct it as [o n v|t|]; cbn; [|specialize (IH t (or_introl eq_refl)); lia|lia].
  pose proof (zlen_nonneg v). assert (0 <= (zlen v + 3) / 4) by (apply Z.div_pos; lia). lia.
Qed.

Lemma isize_pos it : 1 <= isize it.
Proof.
  destruct it as [o n v|t|]; cbn; [|pose proof (csize_pos t); lia|lia].
  pose proof (zlen_nonneg v). assert (0 <= (zlen v + 3) / 4) by (apply Z.div_pos; lia). lia.
Qed.

Lemma sum_map_nonneg {A} (f : A -> Z) l : (forall x, 0 <= f x) -> 0 <= sum_map f l.
Proof. intros H. induction l as [|x l IH]; cbn; [lia|]. specialize (H x). lia. Qed.

Lemma nnodes_pos t : 1 <= nnodes t.
Proof.
  induction t as [nm its IH] using tree_ind'. rewrite nnodes_eq.
  assert (0 <= sum_map inodes its); [|lia].
  induction its as [|it its IHl]; cbn; [lia|]. assert (0 <= sum_map inodes its).
  { apply IHl. intros t Ht. apply IH. by right. }
  destruct it as [| t|]; cbn; [lia| |lia]. specialize (IH t (or_introl eq_refl)). lia.
Qed.

Lemma nprops_nonneg t : 0 <= nprops t.
Proof.
  induction t as [nm its IH] using tree_ind'. rewrite nprops_eq.
  induction its as [|it its IHl]; cbn; [lia|]. assert (0 <= sum_map iprops its).
  { apply IHl. intros t Ht. apply IH. by right. }
  destruct it as [| t|]; cbn; [lia| |lia]. specialize (IH t (or_introl eq_refl)). lia.
Qed.

Lemma inodes_nonneg it : 0 <= inodes it.
Proof. destruct it as [| t|]; cbn; [lia|pose proof (nnodes_pos t); lia|lia]. Qed.
Lemma iprops_nonneg it : 0 <= iprops it.
Proof. destruct it as [| t|]; cbn; [lia|apply nprops_nonneg|lia]. Qed.

Lemma item_sums_nonneg its : 0 <= sum_map isize its /\ 0 <= sum_map inodes its /\ 0 <= sum_map iprops its.
Proof.
  split_and!; apply sum_map_nonneg; [intros it; pose proof (isize_pos it); lia|apply inodes_nonneg|apply iprops_nonneg].
Qed.

Lemma zlen_enc t : zlen (enc t) = 4 * csize t.
Proof.
  induction t as [nm its IH] using tree_ind'. rewrite enc_eq, csize_eq, !zlen_app, zlen_pad4, zlen_app.
  rewrite !zlen_be_bytes. change (zlen [0]) with 1. replace (zlen nm + 1 + 3) with (zlen nm + 4) by lia.
  assert (zlen (flat_map enc_item its) = 4 * sum_map isize its); [|lia].
  induction its as [|it its IHl]; [done|]. cbn [flat_map sum_map]. rewrite zlen_app, IHl.
  2:{ intros t Ht. apply IH. by right. }
  enough (zlen (enc_item it) = 4 * isize it) by lia.
  destruct it as [o n v|t|]; cbn [enc_item isize]; [|by apply IH; left|done].
  rewrite !zlen_app, zlen_pad4, !zlen_be_bytes. lia.
Qed.

Lemma zlen_enc_item it : zlen (enc_item it) = 4 * isize it.
Proof.
  destruct it as [o n v|t|]; cbn [enc_item isize]; [|apply zlen_enc|done].
  rewrite !zlen_app, zlen_pad4, !zlen_be_bytes. lia.
Qed.

(** ** Bytes of the blob *)

(** Masking a byte field selects it. *)
Lemma land_field x n : 0 <= n -> x .& (0xFF .<< n) = x / 2 ^ n mod 2 ^ 8 * 2 ^ n.
Proof.
  intros Hn. rewrite <-(Z.shiftl_mul_pow2 _ n), <-Z.shiftr_div_pow2, <-Z.land_ones by lia.
  apply Z.bits_inj'. intros i Hi. rewrite Z.land_spec. destruct (Z.lt_ge_cases i n).
  - rewrite !Z.shiftl_spec_low by lia. apply andb_false_r.
  - rewrite !Z.shiftl_spec, Z.land_spec, Z.shiftr_spec by lia. do 2 f_equal. lia.
Qed.

(** Reading four bytes little-endian and swapping them reads them big-endian. *)
Lemma be32_bytes a b c d :
  0 <= a < 256 -> 0 <= b < 256 -> 0 <= c < 256 -> 0 <= d < 256 ->
  be32 (a + b * 2 ^ 8 + c * 2 ^ 16 + d * 2 ^ 24) = a * 2 ^ 24 + b * 2 ^ 16 + c * 2 ^ 8 + d.
Proof.
  intros. set (x := _ + d * 2 ^ 24). unfold be32.
  change 0xFF00 with (0xFF .<< 8). change 0xFF0000 with (0xFF .<< 16). change 0xFF000000 with (0xFF .<< 24).
  replace (x .& 0xFF) with (x .& (0xFF .<< 0)) by done. rewrite !land_field by lia.
  assert (x / 2 ^ 0 mod 2 ^ 8 = a) as -> by (unfold x; Z.div_mod_to_equations; lia).
  assert (x / 2 ^ 8 mod 2 ^ 8 = b) as -> by (unfold x; Z.div_mod_to_equations; lia).
  assert (x / 2 ^ 16 mod 2 ^ 8 = c) as -> by (unfold x; Z.div_mod_to_equations; lia).
  assert (x / 2 ^ 24 mod 2 ^ 8 = d) as -> by (unfold x; Z.div_mod_to_equations; lia).
  rewrite !Z.shiftr_div_pow2 by lia.
  replace (c * 2 ^ 16 / 2 ^ 8) with (c * 2 ^ 8) by (Z.div_mod_to_equations; lia).
  replace (d * 2 ^ 24 / 2 ^ 24) with d by (Z.div_mod_to_equations; lia).
  rewrite (Z.shiftl_mul_pow2 (a * _)), (Z.shiftl_mul_pow2 (b * _)) by lia.
  rewrite !wrap_small by (unfold fits; lia).
  rewrite (lor_hi_lo _ (b * _ * _) 24), (lor_hi_lo _ (c * _) 16), (lor_hi_lo _ d 8);
    unfold fits; Z.div_mod_to_equations; lia.
Qed.

Section blob.
Context (blob : list Z).

(** [bs] is what the blob has at offset [p]. *)
Definition holds (p : Z) (bs : list Z) : Prop := exists pre post, blob = pre ++ bs ++ post /\ zlen pre = p.

Lemma holds_app p a b : holds p (a ++ b) -> holds p a /\ holds (p + zlen a) b.
Proof.
  intros (pre & post & E & Hp). split.
  - exists pre, (b ++ post). by rewrite E, <-app_assoc.
  - exists (pre ++ a), post. rewrite E, zlen_app, <-!app_assoc. split; [done|lia].
Qed.

Lemma holds_nonneg p bs : holds p bs -> 0 <= p.
Proof. intros (pre & post & _ & <-). apply zlen_nonneg. Qed.

Lemma holds_rd8 p b bs : holds p (b :: bs) -> rd8 blob p = Ret b.
Proof.
  intros H. pose proof (holds_nonneg _ _ H). destruct H as (pre & post & E & Hp). unfold rd8.
  destruct (Z.ltb_spec p 0); [lia|]. rewrite E, <-Hp. unfold zlen. rewrite Nat2Z.id. cbn [app].
  by rewrite list_lookup_middle.
Qed.

Lemma holds_cons p b bs : holds p (b :: bs) -> holds (p + 1) bs.
Proof. intros H. apply (holds_app p [b]) in H. by destruct H. Qed.

Lemma holds_rd32 p x bs : fits 32 x -> holds p (be_bytes x ++ bs) -> be32 <$> rd32 blob p = Ret x.
Proof.
  intros Hx H. unfold be_bytes in H. cbn [app] in H.
  pose proof (holds_cons _ _ _ H) as H1. pose proof (holds_cons _ _ _ H1) as H2.
  pose proof (holds_cons _ _ _ H2) as H3.
  unfold rd32. rewrite (holds_rd8 _ _ _ H), (holds_rd8 _ _ _ H1).
  replace (p + 2) with (p + 1 + 1) by lia. replace (p + 3) with (p + 1 + 1 + 1) by lia.
  rewrite (holds_rd8 _ _ _ H2), (holds_rd8 _ _ _ H3). cbn. f_equal. unfold fits in Hx.
  rewrite be32_bytes; Z.div_mod_to_equations; lia.
Qed.

Lemma holds_str_at p bs : holds p bs -> exists post, str_at blob p = bs ++ post.
Proof.
  intros (pre & post & E & Hp). exists post. unfold str_at. rewrite E, <-Hp. unfold zlen.
  by rewrite Nat2Z.id, drop_app_length.
Qed.

(** A C string: no NUL inside. *)
Definition nonul (s : list Z) : Prop := Forall (fun c => c <> 0) s.

Lemma strlen_app s r : nonul s -> strlen (s ++ 0 :: r) = Some (zlen s).
Proof.
  induction 1 as [|c s Hc Hs IH]; [done|]. cbn. destruct (Z.eqb_spec c 0); [done|]. rewrite IH. cbn.
  f_equal. unfold zlen. cbn [length]. lia.
Qed.

Lemma holds_strlen p s r : nonul s -> holds p (s ++ 0 :: r) -> string_len (Some (str_at blob p)) = Ret (zlen s).
Proof.
  intros Hs H. destruct (holds_str_at _ _ H) as [post ->]. rewrite <-app_assoc. cbn. by rewrite strlen_app.
Qed.

(** ** What the parser's buffers represent *)

Context (ii : dtb_init_info).

Lemma holds_cell off x bs : fits 32 x -> holds (cells ii + off * 4) (be_bytes x ++ bs) -> cell blob ii off = Ret x.
Proof. intros Hx H. by apply (holds_rd32 _ x bs). Qed.

(** Property [p] of node [n], below index [b] of the property buffer. *)
Definition prop_is (st : dtb_state) (b n p : nat) (x : Z * list Z * list Z) (pd : dtb_prop) : Prop :=
  (p < b)%nat /\ prop_buff st !! p = Some pd /\ pnode pd = Some n /\
  pname pd = strings ii + x.1.1 /\ plength pd = zlen x.2 /\
  holds (pdata pd - 8) (be_bytes (zlen x.2)) /\ holds (pdata pd) (pad4 x.2) /\ holds (pdata pd) x.2.

Fixpoint prop_chain (st : dtb_state) (b n : nat) (pr : option nat) (xs : list (Z * list Z * list Z)) : Prop :=
  match xs with
  | [] => pr = None
  | x :: xs => exists p pd, pr = Some p /\ prop_is st b n p x pd /\ prop_chain st p n (pnext pd) xs
  end.

Definition name_is (nn : option Z) (nm : list Z) : Prop :=
  match nn with None => nm = [] | Some p => nm <> [] /\ holds p (nm ++ [0]) end.

(** [repr st hi ph n t]: node [n] is the tree [t], its sub-nodes between [n] and [hi] in the
    node buffer, its properties below [ph].  The list of sub-nodes runs from the newest
    down, each sub-tree filling the range up to the previous one. *)
Inductive repr (st : dtb_state) : nat -> nat -> nat -> tree -> Prop :=
| repr_node hi ph n nd nm its :
    (n < hi)%nat -> node_buff st !! n = Some nd -> name_is (nname nd) nm ->
    prop_chain st ph n (props nd) (rev (props_of its)) ->
    kids st (S n) hi ph n (child nd) (rev (kids_of its)) ->
    repr st hi ph n (Tree nm its)
with kids (st : dtb_state) : nat -> nat -> nat -> nat -> option nat -> list tree -> Prop :=
| kids_nil lo hi ph par : (lo <= hi)%nat -> kids st lo hi ph par None []
| kids_cons lo hi ph par c cd t ts :
    (lo <= c)%nat -> node_buff st !! c = Some cd -> parent cd = Some par ->
    repr st hi ph c t -> kids st lo c ph par (sibling cd) ts ->
    kids st lo hi ph par (Some c) (t :: ts).

Scheme repr_ind2 := Induction for repr Sort Prop with kids_ind2 := Induction for kids Sort Prop.
Combined Scheme repr_kids_ind from repr_ind2, kids_ind2.

Lemma repr_lt st hi ph n t : repr st hi ph n t -> (n < hi)%nat.
Proof. by inversion 1. Qed.

Lemma prop_chain_frame st st' n xs : forall b b' pr,
  prop_chain st b n pr xs -> (b <= b')%nat ->
  (forall p, (p < b)%nat -> prop_buff st' !! p = prop_buff st !! p) -> prop_chain st' b' n pr xs.
Proof.
  induction xs as [|x xs IH]; [done|]. intros b b' pr (p & pd & -> & (Hp & Hl & Hrest) & Hc) Hb Hag.
  exists p, pd. split; [done|]. split.
  - split; [lia|]. by rewrite Hag.
  - apply (IH p); [done|lia|]. intros. apply Hag. lia.
Qed.

(** The relation only looks at the nodes in its range and the properties below its bound. *)
Lemma repr_kids_frame st st' :
  (forall hi ph n t, repr st hi ph n t -> forall ph', (ph <= ph')%nat ->
     (forall i, (n <= i < hi)%nat -> node_buff st' !! i = node_buff st !! i) ->
     (forall p, (p < ph)%nat -> prop_buff st' !! p = prop_buff st !! p) -> repr st' hi ph' n t) /\
  (forall lo hi ph par c ts, kids st lo hi ph par c ts -> forall ph', (ph <= ph')%nat ->
     (forall i, (lo <= i < hi)%nat -> node_buff st' !! i = node_buff st !! i) ->
     (forall p, (p < ph)%nat -> prop_buff st' !! p = prop_buff st !! p) -> kids st' lo hi ph' par c ts).
Proof.
  apply repr_kids_ind.
  - intros hi ph n nd nm its Hn Hnd Hnm Hpc _ IH ph' Hph Hag Hagp.
    apply repr_node with nd; [done|by rewrite Hag|done| |].
    + by apply (prop_chain_frame st _ _ _ ph).
    + apply IH; [done| |done]. intros. apply Hag. lia.
  - intros. by apply kids_nil.
  - intros lo hi ph par c cd t ts Hlo Hcd Hpar Hr IHr _ IHk ph' Hph Hag Hagp.
    pose proof (repr_lt _ _ _ _ _ Hr).
    apply kids_cons with cd; [done|rewrite Hag by lia; done|done| |].
    + apply IHr; [done| |done]. intros. apply Hag. lia.
    + apply IHk; [done| |done]. intros. apply Hag. lia.
Qed.

(** What is inside a repr, but not the root node's own links. *)
Lemma repr_root_links st hi ph n t f :
  repr st hi ph n t ->
  (forall nd, nname (f nd) = nname nd /\ props (f nd) = props nd /\ child (f nd) = child nd) ->
  repr (upd_node n f st) hi ph n t.
Proof.
  intros Hr Hf. inversion Hr as [hi' ph' n' nd nm its Hn Hnd Hnm Hpc Hk]; subst.
  destruct (Hf nd) as (E1 & E2 & E3).
  apply repr_node with (f nd); [done| | | |].
  - unfold upd_node. cbn. by rewrite list_lookup_alter_eq, Hnd.
  - by rewrite E1.
  - rewrite E2. by apply (prop_chain_frame st _ _ _ ph).
  - rewrite E3. apply (proj2 (repr_kids_frame st (upd_node n f st)) _ _ _ _ _ _ Hk); [lia| |done].
    intros i Hi. unfold upd_node. cbn. rewrite list_lookup_alter_ne by lia. done.
Qed.

(** ** Well-formed trees and states *)

Fixpoint wf (t : tree) : Prop :=
  match t with
  | Tree nm its =>
      nonul nm /\ fits 32 (zlen nm) /\
      (fix go its := match its with
         | [] => True
         | it :: its =>
             match it with
             | IProp noff pn val => fits 32 noff /\ fits 32 (zlen val) /\ nonul pn /\ holds (strings ii + noff) (pn ++ [0])
             | INode t => wf t
             | INop => True
             end /\ go its
         end) its
  end.
Definition wf_item (it : item) : Prop :=
  match it with
  | IProp noff pn val => fits 32 noff /\ fits 32 (zlen val) /\ nonul pn /\ holds (strings ii + noff) (pn ++ [0])
  | INode t => wf t
  | INop => True
  end.
Fixpoint wf_items (its : list item) : Prop := match its with [] => True | it :: its => wf_item it /\ wf_items its end.
Lemma wf_eq nm its : wf (Tree nm its) <-> nonul nm /\ fits 32 (zlen nm) /\ wf_items its.
Proof. done. Qed.

(** The buffers have the sizes they were allocated with, and nothing has been written
    past the node allocation head. *)
Definition ok (st : dtb_state) : Prop :=
  length (node_buff st) = node_alloc_max st /\ length (prop_buff st) = prop_alloc_max st /\
  (forall i nd, (node_alloc_head st <= i)%nat -> node_buff st !! i = Some nd -> nd = node0).

Definition rest (st : dtb_state) :=
  (root st, handle_lookup st, node_alloc_max st, prop_alloc_max st, have_buff st, resv_memory st, ops st, errors st).

(** From [st] to [st'], [dn] nodes and [dp] properties were added, and nothing that was
    there before changed except node [n]. *)
Definition grown (n : nat) (st st' : dtb_state) (dn dp : Z) : Prop :=
  Z.of_nat (node_alloc_head st') = Z.of_nat (node_alloc_head st) + dn /\
  Z.of_nat (prop_alloc_head st') = Z.of_nat (prop_alloc_head st) + dp /\
  rest st' = rest st /\ ok st' /\
  (forall i, (i < node_alloc_head st)%nat -> i <> n -> node_buff st' !! i = node_buff st !! i) /\
  (forall p, (p < prop_alloc_head st)%nat -> prop_buff st' !! p = prop_buff st !! p).

Lemma grown_trans n st st1 st2 a b c d :
  0 <= a -> 0 <= b -> grown n st st1 a b -> grown n st1 st2 c d -> grown n st st2 (a + c) (b + d).
Proof.
  intros Ha Hb (H1 & H2 & H3 & H4 & H5 & H6) (G1 & G2 & G3 & G4 & G5 & G6).
  split_and!; [lia|lia|congruence|done| |].
  - intros i Hi Hn. rewrite G5 by (done || lia). by apply H5.
  - intros p Hp. rewrite G6 by lia. by apply H6.
Qed.

Lemma grown_refl n st : ok st -> grown n st st 0 0.
Proof. intros. unfold grown. split_and!; try done; lia. Qed.

(** ** The parser builds the tree *)

Lemma align_cells n : 0 <= n < 2 ^ 60 -> dtb_align_up n 4 / 4 = (n + 3) / 4.
Proof.
  intros. unfold dtb_align_up. rewrite wrap_small by (unfold fits; lia).
  rewrite Z.div_mul by lia. f_equal. lia.
Qed.

Lemma props_of_snoc its o n v : rev (props_of (its ++ [IProp o n v])) = (o, n, v) :: rev (props_of its).
Proof. unfold props_of. rewrite flat_map_app, rev_app_distr. done. Qed.
Lemma kids_of_snoc its t : rev (kids_of (its ++ [INode t])) = t :: rev (kids_of its).
Proof. unfold kids_of. rewrite flat_map_app, rev_app_distr. done. Qed.

(** The short-circuit at the top of [check_for_special_prop] always returns. *)
Lemma special_noop nd pr st p c :
  prop_buff st !! pr = Some p -> rd8 blob (pname p) = Ret c -> check_for_special_prop blob nd pr st = Ret st.
Proof.
  intros Hp Hc. unfold check_for_special_prop. rewrite Hp. cbn. rewrite Hc. cbn.
  destruct (Z.eqb_spec c 112) as [->|]; [|done]. done.
Qed.

Lemma wf_name_rd8 noff pn : holds (strings ii + noff) (pn ++ [0]) -> exists c, rd8 blob (strings ii + noff) = Ret c.
Proof. intros H. destruct pn as [|c pn]; eexists; eapply holds_rd8, H. Qed.

(** One property: parsed, linked at the head of its node's list. *)
Lemma prop_step n nm its off st o pn v :
  ok st -> repr st (node_alloc_head st) (prop_alloc_head st) n (Tree nm its) ->
  holds (cells ii + off * 4) (enc_item (IProp o pn v)) -> wf_item (IProp o pn v) ->
  Z.of_nat (prop_alloc_head st) + 1 < Z.of_nat (prop_alloc_max st) ->
  exists st1 st2, parse_prop blob ii off st = Ret (Some (prop_alloc_head st), off + isize (IProp o pn v), st1) /\
    link_prop n (prop_alloc_head st) st1 = Ret st2 /\
    check_for_special_prop blob n (prop_alloc_head st) st2 = Ret st2 /\
    repr st2 (node_alloc_head st2) (prop_alloc_head st2) n (Tree nm (its ++ [IProp o pn v])) /\
    grown n st st2 0 1.
Proof.
  intros (Hnl & Hpl & Hfresh) Hr Hh (Ho & Hv & Hpn & Hname) Hcap.
  cbn [enc_item] in Hh. pose proof (holds_cell _ FDT_PROP _ ltac:(unfold fits, FDT_PROP; lia) Hh) as Hc0.
  apply holds_app in Hh as [_ Hh]. rewrite zlen_be_bytes in Hh.
  replace (cells ii + off * 4 + 4) with (cells ii + (off + 1) * 4) in Hh by lia.
  pose proof (holds_cell _ _ _ Hv Hh) as Hc1. pose proof Hh as Hlen. apply holds_app in Hlen as [Hlen _].
  apply holds_app in Hh as [_ Hh]. rewrite zlen_be_bytes in Hh.
  replace (cells ii + (off + 1) * 4 + 4) with (cells ii + (off + 1 + 1) * 4) in Hh by lia.
  pose proof (holds_cell _ _ _ Ho Hh) as Hc2.
  apply holds_app in Hh as [_ Hpad]. rewrite zlen_be_bytes in Hpad. pose proof Hpad as Hdata. apply holds_app in Hdata as [Hdata _].
  set (p := prop_alloc_head st) in *.
  destruct (lookup_lt_is_Some_2 (prop_buff st) p) as [pd0 Hpd0]; [lia|].
  inversion Hr as [hi' ph' n' nd nm' its' Hn Hnd Hnm Hpc Hk]; subst.
  eexists _, _. unfold parse_prop. rewrite Hc0. cbn -[Nat.ltb cell].
  unfold alloc_prop. fold p. destruct (Nat.ltb_spec (p + 1) (prop_alloc_max st)); [|lia].
  rewrite Hc1. cbn -[cell]. rewrite Hc2. cbn -[cell].
  rewrite align_cells by (pose proof (zlen_nonneg v); unfold fits in *; lia).
  split; [do 3 f_equal; cbn; lia|]. unfold link_prop. cbn [upd_prop node_buff set_props]. rewrite Hnd. cbn [of_opt].
  split; [reflexivity|].
  destruct (wf_name_rd8 _ _ Hname) as [c Hc].
  split; [|split].
  - eapply special_noop; [cbn; by rewrite !list_lookup_alter_eq, Hpd0|done].
  - apply repr_node with (Node (parent nd) (sibling nd) (child nd) (Some p) (nname nd) (fromMalloc nd)); cbn.
    + done.
    + by rewrite list_lookup_alter_eq, Hnd.
    + done.
    + rewrite props_of_snoc. eexists p, _. split; [done|]. split.
      * unfold prop_is. split; [lia|]. split; [cbn; by rewrite !list_lookup_alter_eq, Hpd0|]. cbn.
        split_and!; try done.
        -- by replace (cells ii + (off + 1 + 2) * 4 - 8) with (cells ii + (off + 1) * 4) by lia.
        -- by replace (cells ii + (off + 1 + 2) * 4) with (cells ii + (off + 1 + 1) * 4 + 4) by lia.
        -- by replace (cells ii + (off + 1 + 2) * 4) with (cells ii + (off + 1 + 1) * 4 + 4) by lia.
      * cbn. apply (prop_chain_frame st _ _ _ p); [done|lia|]. intros q Hq. cbn.
        by rewrite !list_lookup_alter_ne by lia.
    + unfold kids_of. rewrite flat_map_app. cbn. rewrite app_nil_r.
      apply (proj2 (repr_kids_frame st _) _ _ _ _ _ _ Hk); [lia| |].
      * intros i Hi. cbn. by rewrite list_lookup_alter_ne by lia.
      * intros q Hq. cbn. by rewrite !list_lookup_alter_ne by lia.
  - unfold grown, ok. cbn. split_and!; try done; try lia.
    + by rewrite length_alter.
    + by rewrite !length_alter.
    + intros i nd' Hi. destruct (decide (i = n)) as [->|]; [lia|].
      rewrite list_lookup_alter_ne by done. by apply Hfresh.
    + intros i Hi Hin. by rewrite list_lookup_alter_ne by done.
    + intros q Hq. by rewrite !list_lookup_alter_ne by lia.
Qed.

(** A sub-node the parser just returned, linked at the head of its parent's list. *)
Lemma child_step n nm its st st1 t :
  (n < node_alloc_head st)%nat ->
  repr st (node_alloc_head st) (prop_alloc_head st) n (Tree nm its) ->
  repr st1 (node_alloc_head st1) (prop_alloc_head st1) (node_alloc_head st) t ->
  grown (node_alloc_head st) st st1 (nnodes t) (nprops t) ->
  exists st2, link_child n (node_alloc_head st) st1 = Ret st2 /\
    repr st2 (node_alloc_head st2) (prop_alloc_head st2) n (Tree nm (its ++ [INode t])) /\
    grown n st st2 (nnodes t) (nprops t).
Proof.
  set (c := node_alloc_head st). intros Hnc Hr Ht (G1 & G2 & G3 & (G4a & G4b & G4c) & G5 & G6).
  pose proof (nnodes_pos t). pose proof (nprops_nonneg t).
  inversion Hr as [hi' ph' n' nd nm' its' Hn Hnd Hnm Hpc Hk]; subst.
  assert (node_buff st1 !! n = Some nd) as Hnd1 by (rewrite G5 by lia; done).
  assert (exists cd, node_buff st1 !! c = Some cd) as [cd Hcd] by (inversion Ht; eauto).
  eexists. unfold link_child. rewrite Hnd1. cbn [of_opt]. split; [reflexivity|].
  match goal with |- repr ?s _ _ _ _ /\ _ => set (st2 := s) end.
  assert (forall i, i <> n -> i <> c -> node_buff st2 !! i = node_buff st1 !! i) as Hne.
  { intros i Hi Hi'. unfold st2. cbn. by rewrite !list_lookup_alter_ne by done. }
  split.
  - apply repr_node with (Node (parent nd) (sibling nd) (Some c) (props nd) (nname nd) (fromMalloc nd)).
    + change (n < node_alloc_head st1)%nat. lia.
    + unfold st2; cbn. rewrite list_lookup_alter_ne, list_lookup_alter_eq, list_lookup_alter_ne by lia.
      by rewrite Hnd1.
    + done.
    + cbn. unfold props_of. rewrite flat_map_app. cbn. rewrite app_nil_r.
      apply (prop_chain_frame st _ _ _ (prop_alloc_head st)); [done|lia|done].
    + rewrite kids_of_snoc. cbn [child].
      apply kids_cons with (Node (Some n) (child nd) (child cd) (props cd) (nname cd) (fromMalloc cd)).
      * lia.
      * unfold st2; cbn. rewrite list_lookup_alter_eq, list_lookup_alter_ne, list_lookup_alter_eq by lia.
        by rewrite Hcd.
      * done.
      * unfold st2. apply repr_root_links; [|done].
        match goal with |- repr (upd_node n ?g ?s) ?hi ?ph ?c ?t =>
          assert (repr s hi ph c t) as Hs by (apply repr_root_links; [exact Ht|done]);
          apply (proj1 (repr_kids_frame s (upd_node n g s)) _ _ _ _ Hs); [done| |done] end.
        intros i Hi. cbn. by rewrite (list_lookup_alter_ne _ _ n) by lia.
      * apply (proj2 (repr_kids_frame st _) _ _ _ _ _ _ Hk); [cbn; lia| |].
        -- intros i Hi. rewrite Hne by lia. apply G5; lia.
        -- intros p Hp. apply G6. lia.
  - split_and!; [done|done|done| | |done].
    + unfold ok, st2. cbn. rewrite !length_alter. split_and!; [done|done|].
      intros i nd' Hi. assert (c < node_alloc_head st1)%nat by lia.
      rewrite !list_lookup_alter_ne by lia. by apply G4c.
    + intros i Hi Hin. rewrite Hne by lia. apply G5; lia.
Qed.

(** [parse_node] at an encoded tree.  Enough fuel is one unit per cell of the tree. *)
Definition parses (t : tree) : Prop := forall fuel off st,
  ok st -> holds (cells ii + off * 4) (enc t) -> wf t ->
  off + csize t <= cell_count ii ->
  Z.of_nat (node_alloc_head st) + nnodes t < Z.of_nat (node_alloc_max st) ->
  Z.of_nat (prop_alloc_head st) + nprops t < Z.of_nat (prop_alloc_max st) ->
  csize t <= Z.of_nat fuel ->
  exists st', parse_node blob fuel ii off st = Ret (Some (node_alloc_head st), off + csize t, st') /\
    repr st' (node_alloc_head st') (prop_alloc_head st') (node_alloc_head st) t /\
    grown (node_alloc_head st) st st' (nnodes t) (nprops t).

Lemma body_end off rest : holds (cells ii + off * 4) (be_bytes FDT_END_NODE ++ rest) -> cell blob ii off = Ret FDT_END_NODE.
Proof. apply holds_cell. unfold fits, FDT_END_NODE. lia. Qed.

(** The loop, entered with the items [pre] done and [todo] ahead. *)
Lemma body_step n nm todo : (forall t, In (INode t) todo -> parses t) ->
  forall pre fuel off st,
  ok st -> (n < node_alloc_head st)%nat ->
  repr st (node_alloc_head st) (prop_alloc_head st) n (Tree nm pre) ->
  holds (cells ii + off * 4) (flat_map enc_item todo ++ be_bytes FDT_END_NODE) -> wf_items todo ->
  off + sum_map isize todo + 1 <= cell_count ii ->
  Z.of_nat (node_alloc_head st) + sum_map inodes todo < Z.of_nat (node_alloc_max st) ->
  Z.of_nat (prop_alloc_head st) + sum_map iprops todo < Z.of_nat (prop_alloc_max st) ->
  1 + sum_map isize todo <= Z.of_nat fuel ->
  exists st', parse_body blob fuel ii n off st = Ret (Some n, off + sum_map isize todo + 1, st') /\
    repr st' (node_alloc_head st') (prop_alloc_head st') n (Tree nm (pre ++ todo)) /\
    grown n st st' (sum_map inodes todo) (sum_map iprops todo).
Proof.
  induction todo as [|it todo IH]; intros Hkids pre fuel off st Hok Hn Hr Hh Hwf Hcc Hnc Hpc Hfuel.
  - cbn [flat_map app sum_map] in *. destruct fuel as [|fuel]; [lia|]. exists st. cbn -[cell]. destruct (Z.ltb_spec off (cell_count ii)); [|lia].
    rewrite <-(app_nil_r (be_bytes _)) in Hh. rewrite (body_end _ _ Hh). cbn.
    rewrite app_nil_r. split; [do 3 f_equal; lia|]. split; [done|]. by apply grown_refl.
  - cbn [sum_map flat_map] in *. rewrite <-app_assoc in Hh. destruct Hwf as [Hwi Hwf].
    pose proof (isize_pos it) as Hip. pose proof (item_sums_nonneg todo) as (Hsp & Hsn & Hsq).
    destruct fuel as [|fuel]; [lia|].
    apply holds_app in Hh as [Hit Hh]. rewrite zlen_enc_item in Hh.
    replace (cells ii + off * 4 + 4 * isize it) with (cells ii + (off + isize it) * 4) in Hh by lia.
    assert (forall st2, grown n st st2 (inodes it) (iprops it) -> Z.of_nat fuel >= 1 + sum_map isize todo ->
      repr st2 (node_alloc_head st2) (prop_alloc_head st2) n (Tree nm (pre ++ [it])) ->
      exists st', parse_body blob fuel ii n (off + isize it) st2 = Ret (Some n, off + (isize it + sum_map isize todo) + 1, st') /\
        repr st' (node_alloc_head st') (prop_alloc_head st') n (Tree nm (pre ++ it :: todo)) /\
        grown n st st' (inodes it + sum_map inodes todo) (iprops it + sum_map iprops todo)) as Hgo.
    { intros st2 Hg Hf Hr2. pose proof Hg as (G1 & G2 & G3 & G4 & _). injection G3 as ? ? ? ? ? ? ? ?.
      pose proof (inodes_nonneg it). pose proof (iprops_nonneg it).
      destruct (IH (fun t Ht => Hkids t (or_intror Ht)) (pre ++ [it]) fuel (off + isize it) st2) as (st' & E & Hr' & Hg');
        [done|lia|done|done|done|lia|congruence || lia|lia|lia|].
      exists st'. rewrite E. split; [do 3 f_equal; lia|]. rewrite <-app_assoc in Hr'. split; [done|].
      by eapply grown_trans. }
    destruct it as [o pn v|t|]; cbn -[cell isize parse_prop link_prop link_child].
    + pose proof Hit as Hit0. cbn [enc_item] in Hit0.
      pose proof (holds_cell _ FDT_PROP _ ltac:(unfold fits, FDT_PROP; lia) Hit0) as Hc0.
      destruct (prop_step n nm pre off st o pn v) as (st1 & st2 & E1 & E2 & E3 & Hr2 & Hg); [done..|cbn in Hpc; lia|].
      destruct (Z.ltb_spec off (cell_count ii)); [|lia]. rewrite Hc0. cbn -[cell isize parse_prop link_prop link_child].
      rewrite E1. cbn -[isize link_prop]. rewrite E2. cbn -[isize]. rewrite E3. cbn -[isize].
      apply Hgo; [done|lia|done].
    + pose proof Hit as Hit0. cbn [enc_item] in Hit0. destruct t as [tn tits]. rewrite enc_eq in Hit0.
      pose proof (holds_cell _ FDT_BEGIN_NODE _ ltac:(unfold fits, FDT_BEGIN_NODE; lia) Hit0) as Hc0.
      destruct (Hkids (Tree tn tits) (or_introl eq_refl) fuel off st) as (st1 & E1 & Hr1 & Hg1);
        [done|done|done|cbn [isize] in *; lia|cbn [inodes] in *; lia|cbn [iprops] in *; lia|cbn [isize] in *; lia|].
      destruct (child_step n nm pre st st1 (Tree tn tits)) as (st2 & E2 & Hr2 & Hg2); [done..|].
      destruct (Z.ltb_spec off (cell_count ii)); [|lia]. rewrite Hc0. cbn -[isize parse_node link_child].
      rewrite E1. cbn -[isize link_child]. rewrite E2. cbn -[isize]. apply Hgo; [done|lia|done].
    + pose proof (holds_cell off 4 [] ltac:(unfold fits; lia) Hit) as Hc0.
      destruct (Z.ltb_spec off (cell_count ii)); [|lia]. rewrite Hc0. cbn. apply Hgo.
      * by apply grown_refl.
      * cbn in Hfuel. lia.
      * inversion Hr as [hi' ph' n' nd nm' its' Hn' Hnd Hnm Hpch Hk]; subst.
        apply repr_node with nd; [done..| |]; unfold props_of, kids_of; rewrite flat_map_app; cbn; by rewrite app_nil_r.
Qed.

(** A fresh node, named and not yet filled. *)
Lemma new_node_repr st nm p :
  ok st -> (node_alloc_head st + 1 < node_alloc_max st)%nat -> holds p (nm ++ [0]) ->
  let n := node_alloc_head st in
  let st1 := upd_node n (fun n => Node (parent n) (sibling n) (child n) (props n)
               (if zlen nm =? 0 then None else Some p) false)
               (set_nodes (node_buff st) (node_alloc_head st + 1) st) in
  repr st1 (node_alloc_head st1) (prop_alloc_head st1) n (Tree nm []) /\ grown n st st1 1 0.
Proof.
  intros (Hnl & Hpl & Hfresh) Hcap Hp n st1.
  destruct (lookup_lt_is_Some_2 (node_buff st) n) as [nd Hnd]; [unfold n; lia|].
  pose proof (Hfresh n nd ltac:(unfold n; lia) Hnd) as ->. split.
  - eapply repr_node.
    + cbn. unfold n. lia.
    + cbn. by rewrite list_lookup_alter_eq, Hnd.
    + cbn. destruct (Z.eqb_spec (zlen nm) 0) as [E|E]; cbn.
      * destruct nm; [done|unfold zlen in E; cbn in E; lia].
      * split; [|done]. by intros ->.
    + done.
    + apply kids_nil. cbn. unfold n. lia.
  - unfold grown, ok. cbn. rewrite length_alter. split_and!; try done; try lia.
    + intros i nd' Hi. rewrite list_lookup_alter_ne by (unfold n; lia). apply Hfresh. lia.
    + intros i Hi Hin. by rewrite list_lookup_alter_ne by done.
Qed.

(** The part of [parse_node] before its loop. *)
Lemma parse_open nm its fuel off st :
  ok st -> (node_alloc_head st + 1 < node_alloc_max st)%nat ->
  holds (cells ii + off * 4) (enc (Tree nm its)) -> wf (Tree nm its) ->
  exists st1, parse_node blob (S fuel) ii off st = parse_body blob fuel ii (node_alloc_head st) (off + (zlen nm + 4) / 4 + 1) st1 /\
    repr st1 (node_alloc_head st1) (prop_alloc_head st1) (node_alloc_head st) (Tree nm []) /\
    grown (node_alloc_head st) st st1 1 0 /\
    holds (cells ii + (off + (zlen nm + 4) / 4 + 1) * 4) (flat_map enc_item its ++ be_bytes FDT_END_NODE).
Proof.
  intros Hok Hcap Hh Hwf. apply wf_eq in Hwf as (Hnul & Hlen & Hwf). pose proof (zlen_nonneg nm). unfold fits in Hlen.
  rewrite enc_eq in Hh.
  pose proof (holds_cell _ FDT_BEGIN_NODE _ ltac:(unfold fits, FDT_BEGIN_NODE; lia) Hh) as Hc0.
  apply holds_app in Hh as [_ Hh]. rewrite zlen_be_bytes in Hh.
  replace (cells ii + off * 4 + 4) with (cells ii + (off + 1) * 4) in Hh by lia.
  apply holds_app in Hh as [Hname Hh]. rewrite zlen_pad4, zlen_app in Hh. change (zlen [0]) with 1 in Hh.
  replace (cells ii + (off + 1) * 4 + (zlen nm + 1 + 3) / 4 * 4)
    with (cells ii + (off + (zlen nm + 4) / 4 + 1) * 4) in Hh
    by (replace (zlen nm + 1 + 3) with (zlen nm + 4) by lia; lia).
  unfold pad4 in Hname. pose proof Hname as Hname0. apply holds_app in Hname0 as [Hname0 _].
  rewrite <-app_assoc in Hname. cbn [app] in Hname.
  destruct (new_node_repr st nm _ Hok Hcap Hname0) as [Hr1 Hg1].
  eexists. split; [|split; [exact Hr1|by split]].
  cbn -[cell string_len]. rewrite Hc0. cbn -[Nat.ltb string_len]. unfold alloc_node.
  destruct (Nat.ltb_spec (node_alloc_head st + 1) (node_alloc_max st)); [|lia].
  rewrite (holds_strlen _ _ _ Hnul Hname). cbn. change FDT_CELL_SIZE with 4. rewrite align_cells by lia.
  by replace (zlen nm + 1 + 3) with (zlen nm + 4) by lia.
Qed.

Lemma parse_all t : parses t.
Proof.
  induction t as [nm its IH] using tree_ind'.
  intros fuel off st Hok Hh Hwf Hcc Hnc Hpc Hfuel. rewrite csize_eq, nnodes_eq, nprops_eq in *.
  pose proof (item_sums_nonneg its) as (? & ? & ?). pose proof (zlen_nonneg nm).
  assert (1 <= (zlen nm + 4) / 4) by (apply Z.div_le_lower_bound; lia).
  destruct fuel as [|fuel]; [lia|].
  destruct (parse_open nm its fuel off st) as (st1 & -> & Hr1 & Hg1 & Hh1); [done|lia|done|done|].
  apply wf_eq in Hwf as (_ & _ & Hwf).
  pose proof Hg1 as (G1 & G2 & G3 & G4 & _). injection G3 as ? ? ? ? ? ? ? ?.
  destruct (body_step (node_alloc_head st) nm its (fun t Ht => IH t Ht) [] fuel
    (off + (zlen nm + 4) / 4 + 1) st1) as (st' & E & Hr' & Hg'); [done|lia|done|done|done|lia|lia|lia|lia|].
  exists st'. rewrite E. split; [do 3 f_equal; lia|]. split; [done|].
  replace (sum_map iprops its) with (0 + sum_map iprops its) by lia. by eapply grown_trans.
Qed.

(** ** When the last node does not fit *)

Lemma log_nodes m st : node_alloc_head (LOG_ERROR m st) = node_alloc_head st /\
  node_alloc_max (LOG_ERROR m st) = node_alloc_max st.
Proof. unfold LOG_ERROR. by destruct (on_error (ops st)). Qed.

(** With no node left the loop meets the same BEGIN_NODE for ever. *)
Lemma body_spin fuel : forall n off st,
  (node_alloc_max st <= node_alloc_head st + 1)%nat -> cell blob ii off = Ret FDT_BEGIN_NODE ->
  off < cell_count ii -> parse_body blob fuel ii n off st = Fuel.
Proof.
  induction fuel as [|fuel IH]; intros n off st Hmax Hc Hoff; [done|].
  cbn -[cell parse_node]. destruct (Z.ltb_spec off (cell_count ii)); [|lia]. rewrite Hc. cbn -[parse_node].
  destruct fuel as [|fuel]; [done|]. cbn -[cell parse_body]. rewrite Hc. cbn -[Nat.ltb parse_body].
  unfold alloc_node. destruct (Nat.ltb_spec (node_alloc_head st + 1) (node_alloc_max st)); [lia|].
  cbn -[parse_body]. apply IH; [|done|done].
  destruct (log_nodes "Node allocation failed"%string (LOG_ERROR "Not enough space for source dtb node."%string st)) as [-> ->].
  by destruct (log_nodes "Not enough space for source dtb node."%string st) as [-> ->].
Qed.

Lemma holds_begin off t : holds (cells ii + off * 4) (enc t) -> cell blob ii off = Ret FDT_BEGIN_NODE.
Proof. destruct t. rewrite enc_eq. apply holds_cell. unfold fits, FDT_BEGIN_NODE. lia. Qed.

Definition short (t : tree) : Prop := forall fuel off st,
  ok st -> holds (cells ii + off * 4) (enc t) -> wf t ->
  off + csize t <= cell_count ii ->
  Z.of_nat (node_alloc_head st) + nnodes t = Z.of_nat (node_alloc_max st) -> 2 <= nnodes t ->
  Z.of_nat (prop_alloc_head st) + nprops t < Z.of_nat (prop_alloc_max st) ->
  csize t <= Z.of_nat fuel -> parse_node blob fuel ii off st = Fuel.

Lemma body_short n nm todo : (forall t, In (INode t) todo -> short t) ->
  forall pre fuel off st,
  ok st -> (n < node_alloc_head st)%nat ->
  repr st (node_alloc_head st) (prop_alloc_head st) n (Tree nm pre) ->
  holds (cells ii + off * 4) (flat_map enc_item todo ++ be_bytes FDT_END_NODE) -> wf_items todo ->
  off + sum_map isize todo + 1 <= cell_count ii ->
  Z.of_nat (node_alloc_head st) + sum_map inodes todo = Z.of_nat (node_alloc_max st) ->
  1 <= sum_map inodes todo ->
  Z.of_nat (prop_alloc_head st) + sum_map iprops todo < Z.of_nat (prop_alloc_max st) ->
  1 + sum_map isize todo <= Z.of_nat fuel ->
  parse_body blob fuel ii n off st = Fuel.
Proof.
  induction todo as [|it todo IH]; intros Hkids pre fuel off st Hok Hn Hr Hh Hwf Hcc Hnc Hone Hpc Hfuel.
  - cbn in Hone. lia.
  - cbn [sum_map flat_map] in *. rewrite <-app_assoc in Hh. destruct Hwf as [Hwi Hwf].
    pose proof (isize_pos it) as Hip. pose proof (item_sums_nonneg todo) as (Hsp & Hsn & Hsq).
    destruct fuel as [|fuel]; [lia|].
    apply holds_app in Hh as [Hit Hh]. rewrite zlen_enc_item in Hh.
    replace (cells ii + off * 4 + 4 * isize it) with (cells ii + (off + isize it) * 4) in Hh by lia.
    assert (forall st2, 1 <= sum_map inodes todo -> grown n st st2 (inodes it) (iprops it) ->
      repr st2 (node_alloc_head st2) (prop_alloc_head st2) n (Tree nm (pre ++ [it])) ->
      parse_body blob fuel ii n (off + isize it) st2 = Fuel) as Hgo.
    { intros st2 H1 (G1 & G2 & G3 & G4 & _) Hr2. injection G3 as ? ? ? ? ? ? ? ?. pose proof (inodes_nonneg it).
      apply (IH (fun t Ht => Hkids t (or_intror Ht)) (pre ++ [it])); [done|lia|done|done|done|lia|lia|lia|lia|lia]. }
    destruct it as [o pn v|t|]; cbn -[cell isize parse_node parse_prop link_prop link_child];
      destruct (Z.ltb_spec off (cell_count ii)); try lia.
    + pose proof (holds_cell off FDT_PROP _ ltac:(unfold fits, FDT_PROP; lia) Hit) as Hc0.
      destruct (prop_step n nm pre off st o pn v) as (st1 & st2 & E1 & E2 & E3 & Hr2 & Hg); [done..|cbn in Hpc; lia|].
      rewrite Hc0. cbn -[cell isize parse_prop link_prop link_child].
      rewrite E1. cbn -[isize link_prop]. rewrite E2. cbn -[isize]. rewrite E3. cbn -[isize].
      apply Hgo; [cbn in Hone; lia|done|done].
    + cbn [isize inodes iprops enc_item wf_item] in *. pose proof (holds_begin off t Hit) as Hc0.
      pose proof (nnodes_pos t). rewrite Hc0. cbn -[parse_node link_child].
      destruct (Z.eq_dec (sum_map inodes todo) 0) as [E0|].
      * destruct (Z.eq_dec (nnodes t) 1).
        -- assert (parse_body blob (S fuel) ii n off st = Fuel) as Hspin by (apply body_spin; [lia|done|done]).
           cbn -[cell parse_node link_child] in Hspin. destruct (Z.ltb_spec off (cell_count ii)); [|lia].
           rewrite Hc0 in Hspin. exact Hspin.
        -- rewrite (Hkids t (or_introl eq_refl) fuel off st); [done|done|done|done|lia|lia|lia|lia|lia].
      * destruct (parse_all t fuel off st) as (st1 & E1 & Hr1 & Hg1); [done|done|done|lia|lia|lia|lia|].
        destruct (child_step n nm pre st st1 t) as (st2 & E2 & Hr2 & Hg2); [done..|].
        rewrite E1. cbn -[link_child]. rewrite E2. cbn. apply Hgo; [lia|done|done].
    + pose proof (holds_cell off 4 [] ltac:(unfold fits; lia) Hit) as Hc0. rewrite Hc0. cbn. apply Hgo.
      * cbn in Hone. lia.
      * by apply grown_refl.
      * inversion Hr as [hi' ph' n' nd nm' its' Hn' Hnd Hnm Hpch Hk]; subst.
        apply repr_node with nd; [done..| |]; unfold props_of, kids_of; rewrite flat_map_app; cbn; by rewrite app_nil_r.
Qed.

Lemma parse_short t : short t.
Proof.
  induction t as [nm its IH] using tree_ind'.
  intros fuel off st Hok Hh Hwf Hcc Hnc Htwo Hpc Hfuel. rewrite csize_eq, nnodes_eq, nprops_eq in *.
  pose proof (item_sums_nonneg its) as (? & ? & ?). pose proof (zlen_nonneg nm).
  assert (1 <= (zlen nm + 4) / 4) by (apply Z.div_le_lower_bound; lia).
  destruct fuel as [|fuel]; [lia|].
  destruct (parse_open nm its fuel off st) as (st1 & -> & Hr1 & Hg1 & Hh1); [done|lia|done|done|].
  apply wf_eq in Hwf as (_ & _ & Hwf).
  pose proof Hg1 as (G1 & G2 & G3 & G4 & _). injection G3 as ? ? ? ? ? ? ? ?.
  apply (body_short (node_alloc_head st) nm its (fun t Ht => IH t Ht) []); [done|lia|done|done|done|lia|lia|lia|lia|lia].
Qed.
End blob.

(** ** Whole blobs *)

(** The structure block of a file: one tree and FDT_END. *)
Definition FDT_END : Z := 9.
Record is_fdt (blob : list Z) (structs strs rsvd : Z) (t : tree) : Prop := {
  fdt_magic : holds blob hdr_magic (be_bytes FDT_MAGIC);
  fdt_structs : holds blob hdr_offset_structs (be_bytes structs);
  fdt_strings : holds blob hdr_offset_strings (be_bytes strs);
  fdt_rsvd : holds blob hdr_offset_memmap_rsvd (be_bytes rsvd);
  fdt_size : holds blob hdr_size_structs (be_bytes (4 * (csize t + 1)));
  fdt_tree : holds blob structs (enc t ++ be_bytes FDT_END);
  fdt_wf : wf blob (Info structs strs (csize t + 1)) t;
  fdt_fits : fits 32 structs /\ fits 32 strs /\ fits 32 rsvd /\ fits 32 (4 * (csize t + 1)) }.

(** State before the first call, and callbacks that grant every allocation. *)
Definition state0 : dtb_state := State None [] [] 0 0 [] 0 0 false 0 (Ops None false false) [].
Definition granting (o : dtb_ops) : Prop := exists f, malloc o = Some f /\ forall n, f n = true.

(** The state [dtb_init] starts parsing in. *)
Definition start_state (o : dtb_ops) (rsvd : Z) (nm pm : nat) : dtb_state :=
  State None (replicate nm None) (replicate nm node0) 0 nm (replicate pm prop0) 0 pm true rsvd o [].

(** The same without the closing FDT_END: a structure block of [n] cells. *)
Record is_blob (blob : list Z) (structs strs rsvd n : Z) (t : tree) : Prop := {
  blob_magic : holds blob hdr_magic (be_bytes FDT_MAGIC);
  blob_structs : holds blob hdr_offset_structs (be_bytes structs);
  blob_strings : holds blob hdr_offset_strings (be_bytes strs);
  blob_rsvd : holds blob hdr_offset_memmap_rsvd (be_bytes rsvd);
  blob_size : holds blob hdr_size_structs (be_bytes (4 * n));
  blob_cells : csize t <= n <= csize t + 1;
  blob_tree : holds blob structs (enc t);
  blob_wf : wf blob (Info structs strs n) t;
  blob_fits : fits 32 structs /\ fits 32 strs /\ fits 32 rsvd /\ fits 32 (4 * n) }.

Lemma fdt_blob blob structs strs rsvd t : is_fdt blob structs strs rsvd t -> is_blob blob structs strs rsvd (csize t + 1) t.
Proof. intros [? ? ? ? ? Ht ? ?]. apply holds_app in Ht as [Ht _]. split; try done. lia. Qed.

Section init.
Context (blob : list Z) (structs strs rsvd n : Z) (t : tree) (o : dtb_ops) (nm pm : nat).
Let ii := Info structs strs n.
Hypothesis Hfdt : is_blob blob structs strs rsvd n t.
Hypothesis Hops : granting o.
Hypothesis Hnm : count_cells blob ii FDT_BEGIN_NODE 0 (Z.to_nat n) = Ret nm.
Hypothesis Hpm : count_cells blob ii FDT_PROP 0 (Z.to_nat n) = Ret pm.

Lemma hdr_holds field x : fits 32 x -> holds blob field (be_bytes x) -> hdr blob field = Ret x.
Proof. intros Hx H. apply (holds_rd32 blob field x []); [done|]. by rewrite app_nil_r. Qed.

Lemma start_ok : ok (start_state o rsvd nm pm).
Proof.
  split_and!; cbn; [by rewrite length_replicate..|].
  intros i nd _ H. by apply lookup_replicate in H as [-> _].
Qed.

Lemma init_unfold fuel :
  dtb_init blob fuel false o state0 =
    (st ← parse_roots blob fuel ii 0 (start_state o rsvd nm pm); Ret (true, st)).
Proof.
  destruct Hfdt as [Hm H1 H2 H3 H4 _ _ _ (F1 & F2 & F3 & F4)]. destruct Hops as (f & Hf & Hg).
  unfold dtb_init. rewrite Hf.
  assert (fits 32 FDT_MAGIC) as F0 by (unfold fits, FDT_MAGIC; lia).
  rewrite (hdr_holds _ _ F0 Hm), (hdr_holds _ _ F3 H3), (hdr_holds _ _ F1 H1), (hdr_holds _ _ F4 H4), (hdr_holds _ _ F2 H2).
  cbn -[Z.mul Z.add parse_roots alloc_buffers]. rewrite Z.mul_comm, Z.div_mul by lia.
  unfold alloc_buffers. cbn -[Z.mul Z.add parse_roots count_cells]. fold ii. rewrite Hnm. cbn -[Z.mul Z.add parse_roots count_cells].
  rewrite Hpm. cbn -[Z.mul Z.add parse_roots]. unfold try_malloc. cbn -[Z.mul Z.add parse_roots]. rewrite Hf, Hg.
  done.
Qed.

Lemma begin0 : cell blob ii 0 = Ret FDT_BEGIN_NODE.
Proof.
  pose proof (blob_tree _ _ _ _ _ _ Hfdt) as Ht.
  apply (holds_begin blob ii 0 t). cbn. by rewrite Z.add_0_r.
Qed.

Lemma init_parses fuel :
  nnodes t < Z.of_nat nm -> nprops t < Z.of_nat pm -> csize t + 3 <= Z.of_nat fuel ->
  exists st, dtb_init blob fuel false o state0 = Ret (true, st) /\
    root st = Some 0%nat /\ Z.of_nat (node_alloc_head st) = nnodes t /\ Z.of_nat (prop_alloc_head st) = nprops t /\
    repr blob ii st (node_alloc_head st) (prop_alloc_head st) 0 t /\
    (node_alloc_head st <= length (node_buff st))%nat /\ (prop_alloc_head st <= length (prop_buff st))%nat /\
    handle_lookup st = replicate nm None /\ node_alloc_max st = nm /\
    (exists nd, node_buff st !! 0%nat = Some nd /\ sibling nd = None).
Proof.
  intros Hn Hp Hf. rewrite init_unfold. pose proof (csize_pos t).
  pose proof (blob_tree _ _ _ _ _ _ Hfdt) as Ht. pose proof (blob_cells _ _ _ _ _ _ Hfdt) as Hcells.
  destruct fuel as [|fuel]; [lia|]. destruct fuel as [|fuel]; [lia|].
  assert (cell_count ii = n) as Hcc by done.
  destruct (parse_all blob ii t (S fuel) 0 (start_state o rsvd nm pm)) as (st' & E & Hr & G1 & G2 & G3 & (K1 & K2 & _) & _);
    [apply start_ok|cbn; by rewrite Z.add_0_r|apply (blob_wf _ _ _ _ _ _ Hfdt)|rewrite Hcc; lia|cbn [start_state node_alloc_head node_alloc_max]; lia|cbn [start_state prop_alloc_head prop_alloc_max]; lia|lia|].
  cbn [node_alloc_head prop_alloc_head start_state] in *.
  cbn -[cell parse_node]. destruct (Z.ltb_spec 0 n); [|lia]. rewrite begin0.
  cbn -[cell parse_node]. rewrite E. cbn -[cell parse_node Z.add]. rewrite ?Hcc.
  match goal with |- context [Z.ltb ?a ?b] => destruct (Z.ltb_spec a b) as [Hlt|_]; [cbn [cell_count] in Hlt; lia|] end. cbn. eexists. split; [reflexivity|].
  injection G3 as ? ? ? ? ? ? ? ?. cbn.
  split_and!; [done|lia|lia| |rewrite length_alter; lia|lia|done|done|].
  2:{ inversion Hr as [? ? ? nd ? ? _ Hnd]. rewrite list_lookup_alter_eq, Hnd. eexists. by split. }
  match goal with |- context [upd_node 0 ?f _] => apply (repr_root_links blob ii st' _ _ 0 t f) in Hr; [|done] end.
  eapply (proj1 (repr_kids_frame blob ii _ _)); [exact Hr|done|done|done].
Qed.

Lemma init_hangs fuel :
  nnodes t = Z.of_nat nm -> 2 <= nnodes t -> nprops t < Z.of_nat pm -> csize t + 3 <= Z.of_nat fuel ->
  dtb_init blob fuel false o state0 = Fuel.
Proof.
  intros Hn H2 Hp Hf. rewrite init_unfold. pose proof (csize_pos t).
  pose proof (blob_tree _ _ _ _ _ _ Hfdt) as Ht. pose proof (blob_cells _ _ _ _ _ _ Hfdt) as Hcells.
  destruct fuel as [|fuel]; [lia|].
  pose proof (parse_short blob ii t fuel 0 (start_state o rsvd nm pm)) as E.
  assert (cell_count ii = n) as Hcc by done.
  cbn -[cell parse_node]. destruct (Z.ltb_spec 0 n); [|lia]. rewrite begin0.
  cbn -[cell parse_node]. rewrite E; [done|apply start_ok|cbn; by rewrite Z.add_0_r|apply (blob_wf _ _ _ _ _ _ Hfdt)|cbn [cell_count]; lia|cbn [start_state node_alloc_head node_alloc_max]; lia|lia|cbn [start_state prop_alloc_head prop_alloc_max]; lia|lia].
Qed.
End init.

(** C1. Parsing inverts the encoding.  On a blob that holds the encoding of a tree, in any order
    of properties, sub-nodes and NOPs, [dtb_init] terminates, reports success and leaves the
    tree in its buffers, rooted at node 0, with exactly the tree's nodes and properties
    allocated; it needs every allocation granted and one more BEGIN_NODE-valued and
    PROP-valued cell in the block than the tree has nodes and properties. *)
Theorem init_roundtrip blob structs strs rsvd t o nm pm fuel :
  is_fdt blob structs strs rsvd t -> granting o ->
  count_cells blob (Info structs strs (csize t + 1)) FDT_BEGIN_NODE 0 (Z.to_nat (csize t + 1)) = Ret nm ->
  count_cells blob (Info structs strs (csize t + 1)) FDT_PROP 0 (Z.to_nat (csize t + 1)) = Ret pm ->
  nnodes t < Z.of_nat nm -> nprops t < Z.of_nat pm -> csize t + 3 <= Z.of_nat fuel ->
  exists st, dtb_init blob fuel false o state0 = Ret (true, st) /\
    root st = Some 0%nat /\ Z.of_nat (node_alloc_head st) = nnodes t /\ Z.of_nat (prop_alloc_head st) = nprops t /\
    repr blob (Info structs strs (csize t + 1)) st (node_alloc_head st) (prop_alloc_head st) 0 t.
Proof.
  intros Hf Ho Hn Hp H1 H2 H3.
  destruct (init_parses blob structs strs rsvd _ t o nm pm (fdt_blob _ _ _ _ _ Hf) Ho Hn Hp fuel H1 H2 H3) as (st & E & R & A & B & C & _).
  by exists st.
Qed.

(** Without that spare cell the parser hangs: when the only cells equal to BEGIN_NODE are the
    tree's own two or more tags, the buffer's last slot is refused to the last node, the
    loop meets its tag again and again, and no amount of fuel is enough. *)
Theorem init_diverges blob structs strs rsvd t o nm pm fuel :
  is_fdt blob structs strs rsvd t -> granting o ->
  count_cells blob (Info structs strs (csize t + 1)) FDT_BEGIN_NODE 0 (Z.to_nat (csize t + 1)) = Ret nm ->
  count_cells blob (Info structs strs (csize t + 1)) FDT_PROP 0 (Z.to_nat (csize t + 1)) = Ret pm ->
  nnodes t = Z.of_nat nm -> 2 <= nnodes t -> nprops t < Z.of_nat pm -> csize t + 3 <= Z.of_nat fuel ->
  dtb_init blob fuel false o state0 = Fuel.
Proof. intros Hf. intros. by apply (init_hangs blob structs strs rsvd (csize t + 1) t o nm pm (fdt_blob _ _ _ _ _ Hf)). Qed.

(** ** Concrete blobs *)

Definition holdsb (blob : list Z) (p : Z) (bs : list Z) : bool :=
  (0 <=? p) && (p + zlen bs <=? zlen blob) && bool_decide (take (length bs) (drop (Z.to_nat p) blob) = bs).

Lemma holdsb_true blob p bs : holdsb blob p bs = true -> holds blob p bs.
Proof.
  unfold holdsb. rewrite !andb_true_iff, !Z.leb_le, bool_decide_eq_true. intros [[H0 H1] H2].
  exists (take (Z.to_nat p) blob), (drop (length bs) (drop (Z.to_nat p) blob)). split.
  - rewrite <-H2 at 1. by rewrite !take_drop.
  - unfold zlen in *. rewrite length_take. lia.
Qed.

(** A header, an empty reservation block, the tree and its strings. *)
Definition mk_blob (t : tree) (strs : list Z) : list Z :=
  let structs := enc t ++ be_bytes FDT_END in
  flat_map be_bytes [FDT_MAGIC; 56 + zlen structs + zlen strs; 56; 56 + zlen structs; 40; 17; 16; 0; zlen strs; zlen structs]
  ++ replicate 16 0 ++ structs ++ strs.

(** A root with a string property and two sub-nodes; offset 0 of the strings is "model",
    offset 6 is "reg".  The second sub-node's "reg" holds the cells 1 and 3. *)
Definition ex_strings : list Z := lit "model" ++ lit "reg".
Definition str (s : string) : list Z := removelast (lit s).
Definition ex_tree : tree :=
  Tree [] [IProp 0 (str "model") (lit "soct"); INode (Tree (str "cpus") []); INop;
           INode (Tree (str "uart@1000") [IProp 6 (str "reg") (be_bytes 1 ++ be_bytes 3)])].
(** The same without the cells that happen to equal a tag. *)
Definition ex_tree_hang : tree :=
  Tree [] [INode (Tree (str "cpus") []); INode (Tree (str "uart@1000") [IProp 6 (str "reg") (be_bytes 3)])].

Definition grant_all : dtb_ops := Ops (Some (fun _ => true)) true true.

Ltac concrete_fdt :=
  constructor; try (apply holdsb_true; vm_compute; reflexivity); cbn -[holds nonul fits str lit be_bytes FDT_MAGIC Z.add Z.mul];
  repeat match goal with
  | |- True => exact I
  | |- _ /\ _ => split
  | |- nonul _ => vm_compute; repeat constructor; discriminate
  | |- fits _ _ => vm_compute; split; [discriminate|reflexivity]
  | |- holds _ _ _ => apply holdsb_true; vm_compute; reflexivity
  end.

Lemma init_roundtrip_witness :
  let st := match dtb_init (mk_blob ex_tree ex_strings) 60 false grant_all state0 with Ret (_, st) => st | _ => state0 end in
  nnodes ex_tree = 3 /\ exists st', dtb_init (mk_blob ex_tree ex_strings) 60 false grant_all state0 = Ret (true, st') /\
    Z.of_nat (node_alloc_head st') = 3.
Proof.
  intros st. split; [reflexivity|].
  destruct (init_roundtrip (mk_blob ex_tree ex_strings) 56 152 40 ex_tree grant_all 4 3 60) as (st' & E & _ & Hn & _);
    [concrete_fdt|by eexists|vm_compute; reflexivity..|vm_compute; reflexivity|vm_compute; reflexivity|vm_compute; discriminate|].
  exists st'. by split.
Defined.

Lemma init_diverges_witness : dtb_init (mk_blob ex_tree_hang ex_strings) 60 false grant_all state0 = Fuel.
Proof.
  apply (init_diverges (mk_blob ex_tree_hang ex_strings) 56 124 40 ex_tree_hang grant_all 3 2);
    [concrete_fdt|by eexists|vm_compute; reflexivity..|vm_compute; reflexivity|vm_compute; discriminate|vm_compute; reflexivity|vm_compute; discriminate].
Defined.
