(* ===== verification/DtbQuery.v ===== *)
(** * Device-tree queries and what the runtime asks the tree

    Lookups of Dtb on the trees of DtbTree, and the two questions soctglue.c puts to the
    tree: how many harts there are and where the RAM that holds the program ends. *)
From Stdlib Require Import String.
From S2P Require Import Prelude Dtb DtbTree.

#[local] Open Scope list_scope.
#[local] Abbreviation length := List.length.

(** ** The clients (soctglue.c) *)

Section clients.
Context (blob : list Z) (st : dtb_state).

(** [strcmp(a, b) == 0]. *)
Fixpoint strcmp_eq (a b : cptr) : res bool :=
  match a, b with
  | x :: a, y :: b => if negb (x =? y) then Ret false else if x =? 0 then Ret true else strcmp_eq a b
  | _, _ => Undef
  end.

(** [dtb_find_prop(n, "device_type")], its first string compared with [what]. *)
Definition device_type_is (n : nat) (what : cptr) : res bool :=
  dtype ← dtb_find_prop blob st (Some n) (lit "device_type");
  match dtype with
  | None => Ret false
  | Some _ =>
      pd ← deref_prop st dtype;
      val ← dtb_read_prop_string blob pd 0;
      match val with
      | None => Ret false
      | Some v => strcmp_eq (str_at blob v) what
      end
  end.

Fixpoint count_cpus (fuel : nat) (child : option nat) : res Z :=
  match child with
  | None => Ret 0
  | Some n =>
      match fuel with
      | O => Fuel
      | S fuel =>
          is_cpu ← device_type_is n (lit "cpu");
          next ← dtb_get_sibling st child;
          k ← count_cpus fuel next;
          Ret (if is_cpu : bool then k + 1 else k)
      end
  end.

Definition soct_n_harts : res Z :=
  cpus ← dtb_find blob st (lit "/cpus");
  match cpus with
  | None => Ret 1
  | Some _ =>
      child ← dtb_get_child st cpus;
      count ← count_cpus (length (node_buff st)) child;
      Ret (if 0 <? count then count else -1)
  end.

(** The pair that contains [here], if any: the new [cached]. *)
Definition pair_end (here : Z) (p : list Z) : option Z :=
  match p with
  | [base; len] => let end_ := u64 (base + len) in
      if (base <=? here) && (here <? end_) then Some end_ else None
  | _ => None
  end.
Fixpoint find_pair (here : Z) (ps : list (list Z)) : option Z :=
  match ps with
  | [] => None
  | p :: ps => match pair_end here p with Some e => Some e | None => find_pair here ps end
  end.

(** The body of the loop over the root's sub-nodes.  [vals] has room for eight pairs;
    the second [dtb_read_prop_2] writes all of them. *)
Definition memory_node_end (here : Z) (n : nat) : res (option Z) :=
  is_mem ← device_type_is n (lit "memory");
  if negb is_mem then Ret None else
  reg ← dtb_find_prop blob st (Some n) (lit "reg");
  match reg with
  | None => Ret None
  | Some _ =>
      ac ← dtb_get_addr_cells_for blob st (Some n);
      sc ← dtb_get_size_cells_for blob st (Some n);
      pd ← deref_prop st reg;
      '(pairs, _) ← dtb_read_prop_2 blob pd ac sc false;
      let pairs := if 8 <? pairs then 8 else pairs in
      '(count, vals) ← dtb_read_prop_2 blob pd ac sc true;
      if 8 <? count then Undef
      else Ret (find_pair here (take (Z.to_nat pairs) vals))
  end.

Fixpoint ram_end_from (fuel : nat) (here : Z) (n : option nat) : res (option Z) :=
  match n with
  | None => Ret None
  | Some i =>
      match fuel with
      | O => Fuel
      | S fuel =>
          e ← memory_node_end here i;
          match e with
          | Some e => Ret (Some e)
          | None => next ← dtb_get_sibling st n; ram_end_from fuel here next
          end
      end
  end.

(** [cached] and [s_dtb_ready] are the statics; the answer is the result and the new [cached]. *)
Definition soct_ram_end (here cached : Z) (ready : bool) : res (Z * Z) :=
  if negb (cached =? 0) || negb ready then Ret (cached, cached) else
  root ← dtb_find blob st (lit "/");
  match root with
  | None => Ret (0, cached)
  | Some _ =>
      c ← dtb_get_child st root;
      e ← ram_end_from (length (node_buff st)) here c;
      match e with Some e => Ret (e, e) | None => Ret (0, cached) end
  end.
End clients.

(** ** Strings *)

Lemma strings_eq_same a b ra rb : nonul a -> nonul b -> zlen a = zlen b ->
  strings_eq (a ++ ra) (b ++ rb) (length a) = Ret (bool_decide (a = b)).
Proof.
  intros Ha. revert b. induction Ha as [|x a Hx Ha IH]; intros b Hb Hl.
  - destruct b; [cbn; by rewrite bool_decide_eq_true_2|unfold zlen in Hl; cbn in Hl; lia].
  - destruct b as [|y b]; [unfold zlen in Hl; cbn in Hl; lia|]. inversion Hb as [|? ? Hy Hb']; subst.
    cbn. destruct (Z.eqb_spec x 0); [done|]. cbn. destruct (Z.eqb_spec x y) as [->|Hne]; cbn.
    + rewrite (IH b); [|done|unfold zlen in *; cbn in Hl; lia]. f_equal.
      case_bool_decide; case_bool_decide; congruence.
    + by case_bool_decide; [congruence|].
Qed.

Lemma find_char_range s c k : find_char s c = Some (Some k) -> 0 <= k < zlen s.
Proof.
  revert k. induction s as [|x s IH]; intros k; cbn; [done|]. unfold zlen. cbn [length].
  destruct (x =? c); [intros [= <-]; lia|]. destruct (x =? 0); [done|].
  destruct (find_char s c) as [[j|]|]; cbn; try done. intros [= <-]. specialize (IH j eq_refl).
  unfold zlen in IH. lia.
Qed.

Lemma find_char_app s c r : nonul s -> c <> 0 -> find_char (s ++ 0 :: r) c = find_char (s ++ [0]) c.
Proof.
  intros Hs Hc. induction Hs as [|x s Hx Hs IH]; cbn.
  - by destruct (Z.eqb_spec 0 c).
  - by rewrite IH.
Qed.

Lemma find_char_some s c : nonul s -> exists o, find_char (s ++ [0]) c = Some o.
Proof.
  induction 1 as [|x s Hx Hs [o IH]]; cbn.
  - repeat case_match; eexists; reflexivity.
  - destruct (x =? c); [eexists; reflexivity|]. destruct (Z.eqb_spec x 0); [done|]. rewrite IH. eexists; reflexivity.
Qed.

(** Length of the part before [target], as the callers compute it. *)
Definition prefix_len (s : list Z) (target : Z) : Z :=
  match find_char (s ++ [0]) target with Some (Some k) => k | _ => zlen s end.

Lemma prefix_len_range s c : c <> 0 -> nonul s -> 0 <= prefix_len s c <= zlen s.
Proof.
  intros Hc Hs. unfold prefix_len. pose proof (zlen_nonneg s).
  destruct (find_char (s ++ [0]) c) as [[k|]|] eqn:E; [|lia|lia].
  pose proof (find_char_range _ _ _ E) as Hk. rewrite zlen_app in Hk. unfold zlen at 2 in Hk. cbn in Hk. lia.
Qed.

(** The idiom [i = string_find_char(s, c); if (i == -1ul) i = string_len(s);]. *)
Lemma prefix_idiom s c r : nonul s -> c <> 0 -> zlen s < NPOS ->
  (at_ ← string_find_char (Some (s ++ 0 :: r)) c;
   if at_ =? NPOS then string_len (Some (s ++ 0 :: r)) else Ret at_) = Ret (prefix_len s c).
Proof.
  intros Hs Hc Hlen. unfold prefix_len, string_find_char. rewrite find_char_app by done.
  destruct (find_char_some s c Hs) as [o E]. rewrite E. cbn. destruct o as [k|]; cbn.
  - pose proof (prefix_len_range s c Hc Hs) as Hk. unfold prefix_len in Hk. rewrite E in Hk.
    destruct (Z.eqb_spec k NPOS); [lia|done].
  - unfold id. rewrite Z.eqb_refl. by rewrite strlen_app.
Qed.

(** ** Lookups in a represented tree *)

(** [nm] up to its unit address. *)
Definition base (nm : list Z) : list Z := take (Z.to_nat (prefix_len nm 64)) nm.
Definition tname (t : tree) : list Z := match t with Tree nm _ => nm end.
Definition titems (t : tree) : list item := match t with Tree _ its => its end.

(** The last property, and the last sub-node, of that name in the file; sub-nodes are
    compared without their unit address. *)
Definition find_tprop (t : tree) (s : list Z) : option (Z * list Z * list Z) :=
  List.find (fun x => bool_decide (x.1.2 = s)) (rev (props_of (titems t))).
Definition find_tchild (t : tree) (s : list Z) : option tree :=
  List.find (fun t => bool_decide (base (tname t) = s)) (rev (kids_of (titems t))).

Fixpoint walk (t : tree) (segs : list (list Z)) : option tree :=
  match segs with
  | [] => Some t
  | s :: segs => match find_tchild t s with Some t => walk t segs | None => None end
  end.

(** Every sub-node has a name (the parser stores NULL for an empty one and the lookups
    dereference it), short enough for [size_t]. *)
Fixpoint named (t : tree) : Prop :=
  match t with
  | Tree _ its =>
      (fix go its := match its with
         | [] => True
         | it :: its => match it with INode t => tname t <> [] /\ named t | _ => True end /\ go its
         end) its
  end.

Definition good (blob : list Z) (ii : dtb_init_info) (t : tree) : Prop := wf blob ii t /\ named t.

Section lookup.
Context (blob : list Z) (ii : dtb_init_info) (st : dtb_state) (ph : nat).
Hypothesis Hph : (ph <= length (prop_buff st))%nat.

Definition prop_wf (x : Z * list Z * list Z) : Prop := nonul x.1.2 /\ holds blob (strings ii + x.1.1) (x.1.2 ++ [0]).
Definition kid_ok (t : tree) : Prop := good blob ii t /\ tname t <> [].

Lemma wf_items_props its : wf_items blob ii its -> Forall prop_wf (rev (props_of its)).
Proof.
  intros H. apply Forall_rev. induction its as [|it its IH]; [constructor|]. destruct H as [Hi H].
  destruct it as [o n v| |]; cbn; [constructor; [|auto]|auto|auto]. destruct Hi as (_ & _ & ? & ?). by split.
Qed.

Lemma good_kids nm its : good blob ii (Tree nm its) -> Forall kid_ok (rev (kids_of its)).
Proof.
  intros [Hw Hn]. apply wf_eq in Hw as (_ & _ & Hw). apply Forall_rev. cbn in Hn.
  induction its as [|it its IH]; [constructor|]. destruct Hw as [Hi Hw], Hn as [Hni Hn].
  destruct it as [| t|]; cbn; [auto| |auto]. constructor; [|auto]. destruct Hni. by split.
Qed.

Lemma find_prop_chain s r xs : nonul s -> forall b n pr fuel,
  prop_chain blob ii st b n pr xs -> Forall prop_wf xs -> (b <= fuel)%nat ->
  exists a, find_prop_from (str_at blob) fuel st (s ++ 0 :: r) (zlen s) pr = Ret a /\
    match List.find (fun x => bool_decide (x.1.2 = s)) xs with
    | None => a = None
    | Some x => exists p pd, a = Some p /\ prop_is blob ii st b n p x pd
    end.
Proof.
  intros Hs. induction xs as [|x xs IH]; intros b n pr fuel Hc Hwf Hf.
  - cbn in Hc. subst. exists None. by destruct fuel.
  - destruct Hc as (p & pd & -> & His & Hc). pose proof His as (Hp & Hl & _ & Hpn & _).
    inversion Hwf as [|? ? [Hnx Hhx] Hwf']; subst. destruct fuel as [|fuel]; [lia|].
    cbn -[string_len]. unfold prop_at. rewrite Hl. cbn -[string_len]. rewrite Hpn.
    destruct (holds_str_at _ _ _ Hhx) as [post Hpost]. rewrite Hpost, <-app_assoc. cbn [app].
    cbn [string_len]. rewrite strlen_app by done. cbn.
    destruct (Z.eqb_spec (zlen x.1.2) (zlen s)) as [Heq|Hne].
    + replace (Z.to_nat (zlen x.1.2)) with (length x.1.2) by (unfold zlen; lia).
      rewrite strings_eq_same by done. cbn. case_bool_decide.
      * exists (Some p). split; [done|]. by exists p, pd.
      * destruct (IH p n (pnext pd) fuel Hc Hwf' ltac:(lia)) as (a & E & Ha). exists a. split; [done|].
        destruct (List.find _ xs) as [y|]; [|done]. destruct Ha as (q & qd & -> & Hq & ?).
        exists q, qd. split; [done|]. split; [lia|done].
    + cbn. rewrite bool_decide_eq_false_2 by congruence.
      destruct (IH p n (pnext pd) fuel Hc Hwf' ltac:(lia)) as (a & E & Ha). exists a. split; [done|].
      destruct (List.find _ xs) as [y|]; [|done]. destruct Ha as (q & qd & -> & Hq & ?).
      exists q, qd. split; [done|]. split; [lia|done].
Qed.

(** [dtb_find_prop] finds the last property of that name. *)
Lemma find_prop_repr hi n t s r : nonul s -> good blob ii t -> repr blob ii st hi ph n t ->
  exists a, dtb_find_prop blob st (Some n) (s ++ 0 :: r) = Ret a /\
    match find_tprop t s with
    | None => a = None
    | Some x => exists p pd, a = Some p /\ prop_is blob ii st ph n p x pd
    end.
Proof.
  intros Hs [Hw _] Hr. inversion Hr as [hi' ph' n' nd nm its Hn Hnd Hnm Hpc Hk]; subst.
  apply wf_eq in Hw as (_ & _ & Hw). unfold dtb_find_prop, find_prop_by, find_tprop. cbn [string_len]. rewrite strlen_app by done.
  cbn -[find_prop_from]. unfold node_at. rewrite Hnd. cbn -[find_prop_from].
  apply (find_prop_chain s r _ Hs ph); [done|by apply wf_items_props|done].
Qed.

(** A node's name as the lookups read it. *)
Lemma repr_name hi n t : repr blob ii st hi ph n t -> tname t <> [] ->
  exists nd post, node_buff st !! n = Some nd /\ (str_at blob <$> nname nd) = Some (tname t ++ 0 :: post).
Proof.
  intros Hr Hne. inversion Hr as [hi' ph' n' nd nm its Hn Hnd Hnm Hpc Hk]; subst. exists nd.
  cbn in *. destruct (nname nd) as [p|]; cbn in Hnm; [|done]. destruct Hnm as [_ Hh].
  destruct (holds_str_at _ _ _ Hh) as [post E]. exists post. cbn. rewrite E, <-app_assoc. done.
Qed.

Definition short_name (t : tree) : Prop := nonul (tname t) /\ zlen (tname t) < NPOS.

Lemma good_short t : good blob ii t -> short_name t.
Proof.
  intros [Hw _]. destruct t as [nm its]. apply wf_eq in Hw as (? & Hf & _). split; [done|].
  unfold fits, NPOS in *. cbn. lia.
Qed.

Lemma base_len nm : nonul nm -> zlen (base nm) = prefix_len nm 64 /\ exists r, nm = base nm ++ r.
Proof.
  intros Hn. pose proof (prefix_len_range nm 64 ltac:(done) Hn). unfold base. split.
  - unfold zlen in *. rewrite length_take. lia.
  - eexists. symmetry. apply take_drop.
Qed.

Lemma nonul_take k s : nonul s -> nonul (take k s).
Proof. intros. by apply Forall_take. Qed.

Lemma find_child_chain s r ts : nonul s -> forall lo hi par c fuel,
  kids blob ii st lo hi ph par c ts -> Forall kid_ok ts -> (hi <= fuel)%nat ->
  exists a, find_child_from (str_at blob) fuel st (s ++ r) (zlen s) c = Ret a /\
    match List.find (fun t => bool_decide (base (tname t) = s)) ts with
    | None => a = None
    | Some t => exists n hi', a = Some n /\ (hi' <= hi)%nat /\ repr blob ii st hi' ph n t /\ kid_ok t
    end.
Proof.
  intros Hs. induction ts as [|t ts IH]; intros lo hi par c fuel Hk Hok Hf.
  - inversion Hk; subst. exists None. by destruct fuel.
  - inversion Hk as [|? ? ? ? n cd ? ? Hlo Hcd Hpar Hr Hk']; subst. pose proof (repr_lt _ _ _ _ _ _ _ Hr).
    destruct fuel as [|fuel]; [lia|]. inversion Hok as [|? ? Hkt Hok']; subst. pose proof Hkt as [Hg Hne].
    destruct (repr_name _ _ _ Hr Hne) as (nd & post & Hnd & Hstr). rewrite Hcd in Hnd. injection Hnd as <-.
    destruct (good_short t Hg) as [Hnn Hsh]. destruct (base_len _ Hnn) as [Hbl [br Hbr]].
    cbn -[string_find_char]. unfold node_at. rewrite Hcd. cbn -[string_find_char]. rewrite Hstr.
    pose proof (prefix_idiom (tname t) 64 post Hnn ltac:(done) Hsh) as Hid.
    destruct (string_find_char (Some (tname t ++ 0 :: post)) 64) as [at_| |]; cbn in Hid |- *; [|done|done].
    rewrite Hid. cbn. rewrite <-Hbl.
    assert (exists a, find_child_from (str_at blob) fuel st (s ++ r) (zlen s) (sibling cd) = Ret a /\
      match List.find (fun t => bool_decide (base (tname t) = s)) ts with
      | None => a = None
      | Some t => exists n hi', a = Some n /\ (hi' <= hi)%nat /\ repr blob ii st hi' ph n t /\ kid_ok t
      end) as (a & E & Ha).
    { destruct (IH lo n par (sibling cd) fuel Hk' Hok' ltac:(lia)) as (a & E & Ha). exists a. split; [done|].
      destruct (List.find _ ts); [|done]. destruct Ha as (m & hi' & -> & ? & ? & ?). exists m, hi'. split_and!; done || lia. }
    destruct (Z.eqb_spec (zlen (base (tname t))) (zlen s)) as [Heq|Hneq].
    + assert (strings_eq (tname t ++ 0 :: post) (s ++ r) (Z.to_nat (zlen s)) = Ret (bool_decide (base (tname t) = s))) as Hse.
      { replace (tname t ++ 0 :: post) with (base (tname t) ++ br ++ 0 :: post) by (by rewrite app_assoc, <-Hbr).
        rewrite <-Heq. replace (Z.to_nat (zlen (base (tname t)))) with (length (base (tname t))) by (unfold zlen; lia).
        by apply strings_eq_same; [apply nonul_take| |]. }
      rewrite Hse. cbn. case_bool_decide.
      * exists (Some n). split; [done|]. by exists n, hi.
      * exists a. by split.
    + cbn. rewrite bool_decide_eq_false_2 by congruence. exists a. by split.
Qed.

Lemma find_child_repr hi n t s r : nonul s -> good blob ii t -> (hi <= length (node_buff st))%nat ->
  repr blob ii st hi ph n t ->
  exists a, find_child_internal blob st n (s ++ r) (zlen s) = Ret a /\
    match find_tchild t s with
    | None => a = None
    | Some t' => exists n' hi', a = Some n' /\ (hi' <= hi)%nat /\ repr blob ii st hi' ph n' t' /\ kid_ok t'
    end.
Proof.
  intros Hs Hg Hhi Hr. inversion Hr as [hi' ph' n' nd nm its Hn Hnd Hnm Hpc Hk]; subst.
  unfold find_child_internal, find_child_by, find_tchild, node_at. rewrite Hnd. cbn -[find_child_from].
  apply (find_child_chain s r _ Hs (S n) hi n); [done|by apply (good_kids nm)|done].
Qed.

(** ** Paths *)

Definition seg_ok (s : list Z) : Prop := s <> [] /\ nonul s /\ Forall (fun c => c <> 47) s /\ zlen s < NPOS.
(** "/seg/seg...", closed by any number of slashes. *)
Definition path_str (segs : list (list Z)) (k : nat) (r : list Z) : list Z :=
  flat_map (fun s => 47 :: s) segs ++ replicate k 47 ++ 0 :: r.

Lemma skip_slashes_ok k c r : c <> 47 -> skip_slashes (replicate k 47 ++ c :: r) = Ret (c :: r).
Proof. intros Hc. induction k as [|k IH]; cbn; [|done]. by destruct (Z.eqb_spec c 47). Qed.

Lemma find_char_seg s r : nonul s -> Forall (fun c => c <> 47) s ->
  find_char (s ++ 47 :: r) 47 = Some (Some (zlen s)) /\ find_char (s ++ 0 :: r) 47 = Some None.
Proof.
  intros Hs Hn. induction Hs as [|x s Hx Hs IH]; [done|]. inversion Hn as [|? ? Hx' Hn']; subst.
  destruct (IH Hn') as [E1 E2]. cbn. destruct (Z.eqb_spec x 47); [done|]. destruct (Z.eqb_spec x 0); [done|].
  rewrite E1, E2. cbn. split; [|done]. do 2 f_equal. unfold zlen. cbn [length]. lia.
Qed.

(** What [dtb_find] takes for the next segment, in front of any path. *)
Lemma seg_len_ok s segs k r : seg_ok s ->
  (seg ← string_find_char (Some (s ++ path_str segs k r)) 47;
   if seg =? NPOS then string_len (Some (s ++ path_str segs k r)) else Ret seg) = Ret (zlen s).
Proof.
  intros (Hne & Hnul & Hns & Hlen). pose proof (zlen_nonneg s).
  assert ((exists r', path_str segs k r = 47 :: r') \/ path_str segs k r = 0 :: r) as [[r' ->]| ->].
  { unfold path_str. destruct segs; cbn; [|by left; eexists]. destruct k; cbn; [by right|by left; eexists]. }
  - unfold string_find_char. destruct (find_char_seg s r' Hnul Hns) as [-> _]. cbn.
    destruct (Z.eqb_spec (zlen s) NPOS); [lia|done].
  - unfold string_find_char. destruct (find_char_seg s r Hnul Hns) as [_ ->]. cbn. unfold id.
    rewrite Z.eqb_refl. by rewrite strlen_app.
Qed.

Lemma find_from_repr k r segs : Forall seg_ok segs -> forall fuel hi n t,
  good blob ii t -> (hi <= length (node_buff st))%nat -> repr blob ii st hi ph n t -> (length segs < fuel)%nat ->
  exists a, find_from blob fuel st (Some n) (path_str segs k r) = Ret a /\
    match walk t segs with
    | None => a = None
    | Some t' => exists n' hi', a = Some n' /\ (hi' <= hi)%nat /\ repr blob ii st hi' ph n' t' /\ good blob ii t'
    end.
Proof.
  induction segs as [|s segs IH]; intros Hsegs fuel hi n t Hg Hhi Hr Hf; (destruct fuel as [|fuel]; [cbn in Hf; lia|]).
  - cbn [find_from]. unfold path_str. cbn [flat_map app]. rewrite skip_slashes_ok by done.
    exists (Some n). split; [done|]. by exists n, hi.
  - inversion Hsegs as [|? ? Hs Hsegs']; subst. pose proof Hs as (Hne & Hnul & Hns & Hlen).
    assert (path_str (s :: segs) k r = replicate 1 47 ++ s ++ path_str segs k r) as ->.
    { unfold path_str. cbn. by rewrite <-app_assoc. }
    destruct s as [|x s']; [done|]. set (s := x :: s') in *.
    cbn [find_from]. change (s ++ path_str segs k r) with (x :: (s' ++ path_str segs k r)).
    rewrite (skip_slashes_ok 1 x) by (by inversion Hns).
    change (x :: (s' ++ path_str segs k r)) with (s ++ path_str segs k r).
    pose proof (seg_len_ok s segs k r Hs) as Hseg. cbn -[string_find_char string_len s find_child_internal].
    destruct (string_find_char (Some (s ++ path_str segs k r)) 47) as [sg| |]; [|done|done].
    cbn -[string_len s find_child_internal] in Hseg |- *. rewrite Hseg. cbn -[s find_child_internal].
    destruct (Z.eqb_spec (zlen s) 0) as [E|_]; [unfold zlen, s in E; cbn in E; lia|].
    destruct (find_child_repr hi n t s (path_str segs k r) Hnul Hg Hhi Hr) as (a & -> & Ha). cbn -[s].
    replace (Z.to_nat (zlen s)) with (length s) by (unfold zlen; lia). rewrite drop_app_length.
    destruct (find_tchild t s) as [t'|].
    + destruct Ha as (n' & hi' & -> & Hhi' & Hr' & Hg' & _).
      destruct (IH Hsegs' fuel hi' n' t' Hg' ltac:(lia) Hr' ltac:(cbn in Hf; lia)) as (b & E & Hb). exists b. split; [done|].
      destruct (walk t' segs); [|done]. destruct Hb as (m & hm & -> & ? & ? & ?). exists m, hm. split_and!; done || lia.
    + subst a. exists None. by destruct fuel.
Qed.
End lookup.

(** ** Harts *)

(** A property value that is one C string. *)
Definition cstring_val (v : list Z) : Prop := exists s, v = s ++ [0] /\ s <> [] /\ nonul s /\ zlen v < 2 ^ 30.

Definition is_type (t : tree) (what : list Z) : bool :=
  match find_tprop t (str "device_type") with
  | Some x => bool_decide (x.2 = what ++ [0])
  | None => false
  end.

(** Every device_type among [ts] is one C string. *)
Definition typed (ts : list tree) : Prop :=
  Forall (fun t => forall x, find_tprop t (str "device_type") = Some x -> cstring_val x.2) ts.

Definition n_cpus (ts : list tree) : Z := zlen (List.filter (fun t => is_type t (str "cpu")) ts).

(** What [soct_n_harts] should answer. *)
Definition harts (t : tree) : Z :=
  match walk t [str "cpus"] with
  | None => 1
  | Some c => let k := n_cpus (rev (kids_of (titems c))) in if 0 <? k then k else -1
  end.

Lemma strcmp_spec a b ra rb : nonul a -> nonul b ->
  strcmp_eq (a ++ 0 :: ra) (b ++ 0 :: rb) = Ret (bool_decide (a = b)).
Proof.
  intros Ha. revert b. induction Ha as [|x a Hx Ha IH]; intros b Hb.
  - destruct b as [|y b]; cbn; [by rewrite bool_decide_eq_true_2|]. inversion Hb; subst.
    destruct y; try done; cbn; by rewrite bool_decide_eq_false_2.
  - destruct b as [|y b]; cbn.
    + destruct (Z.eqb_spec x 0); [done|]. cbn. by rewrite bool_decide_eq_false_2.
    + inversion Hb as [|? ? Hy Hb']; subst. destruct (Z.eqb_spec x y) as [->|Hxy]; cbn.
      * destruct (Z.eqb_spec y 0); [done|]. rewrite IH by done. f_equal.
        case_bool_decide; case_bool_decide; congruence.
      * by rewrite bool_decide_eq_false_2 by congruence.
Qed.

Lemma nonul_dec s : forallb (fun c => negb (c =? 0)) s = true -> nonul s.
Proof.
  intros H. apply Forall_forall. intros x Hx. rewrite forallb_forall in H.
  specialize (H x ltac:(by apply list_elem_of_In)). apply negb_true_iff, Z.eqb_neq in H. done.
Qed.

(** A literal is its characters and a NUL. *)
Lemma lit_str s : lit s = str s ++ [0].
Proof. unfold str, lit. by rewrite removelast_last. Qed.

Section harts.
Context (blob : list Z) (ii : dtb_init_info) (st : dtb_state) (ph : nat).
Hypothesis Hph : (ph <= length (prop_buff st))%nat.

Lemma device_type_repr hi n t what : nonul (str what) -> good blob ii t -> repr blob ii st hi ph n t ->
  (forall x, find_tprop t (str "device_type") = Some x -> cstring_val x.2) ->
  device_type_is blob st n (lit what) = Ret (is_type t (str what)).
Proof.
  intros Hw Hg Hr Hty. unfold device_type_is, is_type. rewrite (lit_str "device_type").
  destruct (find_prop_repr blob ii st ph Hph hi n t (str "device_type") []) as (a & -> & Ha);
    [by apply nonul_dec|done|done|].
  destruct (find_tprop t (str "device_type")) as [x|]; cbn -[str lit]; [|by subst a].
  destruct Ha as (p & pd & -> & _ & Hl & _ & _ & Hlen & _ & _ & Hdata). cbn -[str lit]. unfold prop_at. rewrite Hl. cbn -[str lit].
  destruct (Hty x eq_refl) as (s & Hv & Hne & Hs & Hlt). rewrite Hv in *. rewrite Hlen.
  destruct s as [|c s]; [done|]. inversion Hs as [|? ? Hc Hs']; subst.
  assert (0 < zlen ((c :: s) ++ [0])) by (unfold zlen; cbn; lia).
  rewrite wrap_small by (unfold fits; lia). destruct (Z.to_nat (zlen ((c :: s) ++ [0]) * 4)) as [|k] eqn:Ek; [lia|].
  cbn -[str lit rd8]. rewrite (holds_rd8 _ _ _ _ Hdata). cbn -[str lit rd8]. destruct (Z.eqb_spec c 0); [done|]. cbn -[str lit].
  destruct (holds_str_at _ _ _ Hdata) as [post ->]. rewrite <-app_assoc, lit_str.
  change ([0] ++ post) with (0 :: post).
  rewrite (strcmp_spec (c :: s) (str what) post []) by done.
  f_equal. case_bool_decide as E1; case_bool_decide as E2; try done.
  - destruct E2. by rewrite <-E1.
  - by apply (app_inj_tail (c :: s)) in E2 as [E2 _].
Qed.

Lemma count_cpus_kids ts : forall lo hi par c fuel,
  kids blob ii st lo hi ph par c ts -> Forall (kid_ok blob ii) ts -> typed ts -> (hi <= fuel)%nat ->
  count_cpus blob st fuel c = Ret (n_cpus ts).
Proof.
  induction ts as [|t ts IH]; intros lo hi par c fuel Hk Hok Hty Hf.
  - inversion Hk; subst. by destruct fuel.
  - inversion Hk as [|? ? ? ? n cd ? ? Hlo Hcd Hpar Hr Hk']; subst. pose proof (repr_lt _ _ _ _ _ _ _ Hr).
    inversion Hok as [|? ? [Hg _] Hok']; subst. inversion Hty as [|? ? Ht Hty']; subst.
    destruct fuel as [|fuel]; [lia|]. cbn -[device_type_is lit].
    rewrite (device_type_repr hi n t "cpu") by (done || by apply nonul_dec). cbn -[is_type str].
    unfold node_at. rewrite Hcd. cbn -[is_type str].
    rewrite (IH lo n par (sibling cd) fuel Hk' Hok' Hty' ltac:(lia)). cbn -[is_type str].
    unfold n_cpus. cbn -[is_type str]. destruct (is_type t (str "cpu")); [|done].
    f_equal. unfold zlen. cbn [length]. lia.
Qed.
End harts.

(** ** RAM *)

Lemma find_pair_sound here ps e : find_pair here ps = Some e -> exists b len, e = u64 (b + len) /\ b <= here < e.
Proof.
  induction ps as [|p ps IH]; cbn; [done|]. destruct (pair_end here p) as [z|] eqn:Ep; [|done].
  intros [= ->]. destruct p as [|b [|len [|]]]; try done. cbn in Ep.
  destruct (Z.leb_spec b here); [|done]. destruct (Z.ltb_spec here (u64 (b + len))); [|done].
  injection Ep as <-. eauto.
Qed.

Lemma memory_node_end_sound blob st here i e :
  memory_node_end blob st here i = Ret (Some e) -> exists b len, e = u64 (b + len) /\ b <= here < e.
Proof.
  unfold memory_node_end. intros H. apply bind_ret_inv in H as ([|] & _ & H); cbn [negb] in H; [|done].
  apply bind_ret_inv in H as ([p|] & _ & H); [|done].
  do 3 (apply bind_ret_inv in H as (? & _ & H)).
  apply bind_ret_inv in H as ([? ?] & _ & H). apply bind_ret_inv in H as ([? ?] & _ & H).
  case_match; [done|]. injection H as H. by apply find_pair_sound in H.
Qed.

(** ** The properties *)

(** C33. Path lookup is the walk down the tree: on a represented tree, [dtb_find] of a path of
    ordinary segments, closed by any number of slashes, terminates within its bound and
    returns the node that following the segments reaches (last sub-node of that name in the
    file, unit addresses ignored), and NULL exactly when the walk ends early. *)
Theorem dtb_find_walks blob ii st ph hi n t segs k r :
  (ph <= length (prop_buff st))%nat -> (hi <= length (node_buff st))%nat ->
  root st = Some n -> repr blob ii st hi ph n t -> good blob ii t -> Forall seg_ok segs ->
  exists a, dtb_find blob st (path_str segs k r) = Ret a /\
    match walk t segs with
    | None => a = None
    | Some t' => exists n' hi', a = Some n' /\ repr blob ii st hi' ph n' t'
    end.
Proof.
  intros Hph Hhi Hroot Hr Hg Hsegs. unfold dtb_find. rewrite Hroot.
  destruct (find_from_repr blob ii st ph Hph k r segs Hsegs (S (length (path_str segs k r))) hi n t Hg Hhi Hr) as (a & E & Ha).
  - unfold path_str. rewrite length_app. assert (length segs <= length (flat_map (fun s => 47%Z :: s) segs))%nat; [|lia].
    clear. induction segs as [|s segs IH]; cbn; [lia|]. rewrite length_app. lia.
  - exists a. split; [done|]. destruct (walk t segs); [|done]. destruct Ha as (m & hm & -> & _ & ? & _). by exists m, hm.
Qed.

(** Property lookup returns the last property of that name in the node's file order, with
    its length and a pointer to its value in the blob, and NULL exactly when there is none. *)
Theorem dtb_find_prop_finds blob ii st ph hi n t s r :
  (ph <= length (prop_buff st))%nat -> repr blob ii st hi ph n t -> good blob ii t -> nonul s ->
  exists a, dtb_find_prop blob st (Some n) (s ++ 0 :: r) = Ret a /\
    match find_tprop t s with
    | None => a = None
    | Some x => exists p pd, a = Some p /\ prop_buff st !! p = Some pd /\ plength pd = zlen x.2 /\ holds blob (pdata pd) x.2
    end.
Proof.
  intros Hph Hr Hg Hs. destruct (find_prop_repr blob ii st ph Hph hi n t s r Hs Hg Hr) as (a & E & Ha).
  exists a. split; [done|]. destruct (find_tprop t s) as [x|]; [|done].
  destruct Ha as (p & pd & -> & _ & ? & _ & _ & ? & _ & _ & ?). by exists p, pd.
Qed.

(** [soct_n_harts] counts the sub-nodes of /cpus whose device_type is "cpu", answering 1 when
    there is no /cpus and -1 when it has none. *)
Theorem n_harts_counts blob ii st ph hi n t :
  (ph <= length (prop_buff st))%nat -> (hi <= length (node_buff st))%nat ->
  root st = Some n -> repr blob ii st hi ph n t -> good blob ii t ->
  (forall c, walk t [str "cpus"] = Some c -> typed (rev (kids_of (titems c)))) ->
  soct_n_harts blob st = Ret (harts t).
Proof.
  intros Hph Hhi Hroot Hr Hg Hty. unfold soct_n_harts, harts.
  change (lit "/cpus") with (path_str [str "cpus"] 0 []). unfold dtb_find. rewrite Hroot.
  assert (Forall seg_ok [str "cpus"]) as Hseg.
  { constructor; [|constructor]. split_and!; [done|by apply nonul_dec| |done].
    repeat (constructor; [done|]). constructor. }
  destruct (find_from_repr blob ii st ph Hph 0 [] [str "cpus"] Hseg (S (length (path_str [str "cpus"] 0 []))) hi n t Hg Hhi Hr) as (a & -> & Ha);
    [cbn; lia|]. cbn [mbind res_bind].
  destruct (walk t [str "cpus"]) as [c|]; [|by subst a]. destruct Ha as (m & hm & -> & Hhm & Hrm & Hgm).
  inversion Hrm as [hi' ph' n' nd nm its Hn Hnd Hnm Hpc Hk]; subst. cbn -[count_cpus]. unfold node_at. rewrite Hnd.
  cbn -[count_cpus]. rewrite (count_cpus_kids blob ii st ph Hph (rev (kids_of its)) (S m) hm m); [done|done| | |lia].
  - by apply (good_kids blob ii nm).
  - by apply (Hty (Tree nm its)).
Qed.

(** Phandle lookups never succeed: after parsing any well-formed tree, whatever phandle
    properties it has, [dtb_find_phandle] answers NULL for every handle, because the guard of
    [check_for_special_prop] returns before anything is recorded. *)
Theorem find_phandle_null blob structs strs rsvd t o nm pm fuel handle :
  is_fdt blob structs strs rsvd t -> granting o ->
  count_cells blob (Info structs strs (csize t + 1)) FDT_BEGIN_NODE 0 (Z.to_nat (csize t + 1)) = Ret nm ->
  count_cells blob (Info structs strs (csize t + 1)) FDT_PROP 0 (Z.to_nat (csize t + 1)) = Ret pm ->
  nnodes t < Z.of_nat nm -> nprops t < Z.of_nat pm -> csize t + 3 <= Z.of_nat fuel -> 0 <= handle ->
  exists st, dtb_init blob fuel false o state0 = Ret (true, st) /\ dtb_find_phandle st handle = Ret None.
Proof.
  intros Hf Ho Hn Hp H1 H2 H3 Hh.
  destruct (init_parses blob structs strs rsvd _ t o nm pm (fdt_blob _ _ _ _ _ Hf) Ho Hn Hp fuel H1 H2 H3) as (st & E & _ & _ & _ & _ & _ & _ & Hl & Hm & _).
  exists st. split; [done|]. unfold dtb_find_phandle. rewrite Hl, Hm.
  destruct (Z.ltb_spec handle (Z.of_nat nm)); [|done]. by rewrite lookup_replicate_2 by lia.
Qed.

(** What [_sbrk] relies on: a nonzero answer of [soct_ram_end] is the end of a memory range
    that contains the program's [_end] (so it is above it), it is cached, and once cached or
    before the tree is parsed the tree is not consulted. *)
Theorem ram_end_above blob st here cached ready e c :
  0 <= here -> soct_ram_end blob st here cached ready = Ret (e, c) ->
  c = e /\ (cached <> 0 -> e = cached) /\ (ready = false -> e = cached) /\
  (cached = 0 -> e <> 0 -> exists b len, e = u64 (b + len) /\ b <= here < e).
Proof.
  intros Hh. unfold soct_ram_end. destruct (Z.eqb_spec cached 0) as [->|Hc]; cbn [negb orb].
  2:{ intros [= <- <-]. split_and!; done. }
  destruct ready; cbn [negb]; [|intros [= <- <-]; by split_and!].
  destruct (dtb_find blob st (lit "/")) as [[r|]| |]; cbn -[ram_end_from dtb_get_child]; [|intros [= <- <-]; by split_and!|done|done].
  destruct (dtb_get_child st (Some r)) as [ch| |]; cbn -[ram_end_from]; [|done|done].
  destruct (ram_end_from _ _ _ _ _) as [[x|]| |] eqn:E; cbn; [|intros [= <- <-]; by split_and!|done|done].
  intros [= <- <-]. split_and!; [done|done|done|]. intros _ _. revert ch E.
  induction (length (node_buff st)) as [|fuel IH]; intros [i|]; cbn -[dtb_get_sibling memory_node_end]; try done.
  destruct (memory_node_end blob st here i) as [[y|]| |] eqn:Em; cbn -[dtb_get_sibling]; [|destruct (dtb_get_sibling st (Some i)); cbn; [apply IH|done|done]|done|done].
  intros [= ->]. by eapply memory_node_end_sound.
Qed.

(** The eight-entry buffer of [soct_ram_end] is overrun: for a memory node whose reg property
    holds more than eight (base, length) pairs, the second [dtb_read_prop_2], which is not
    told the clamped count, writes past the end of [vals]. *)
Theorem memory_node_overflow blob st here n p pd ac sc pairs es :
  device_type_is blob st n (lit "memory") = Ret true ->
  dtb_find_prop blob st (Some n) (lit "reg") = Ret (Some p) -> prop_buff st !! p = Some pd ->
  dtb_get_addr_cells_for blob st (Some n) = Ret ac -> dtb_get_size_cells_for blob st (Some n) = Ret sc ->
  dtb_read_prop_2 blob (Some pd) ac sc true = Ret (pairs, es) -> 8 < pairs ->
  memory_node_end blob st here n = Undef.
Proof.
  intros Ht Hr Hp Ha Hs Hv H8. unfold memory_node_end. rewrite Ht. cbn [mbind res_bind negb].
  rewrite Hr. cbn [mbind res_bind]. rewrite Ha, Hs. cbn [mbind res_bind deref_prop]. unfold prop_at. rewrite Hp.
  cbn [of_opt fmap res_fmap mbind res_bind].
  destruct (dtb_read_prop_2 blob (Some pd) ac sc false) as [[q ?]| |] eqn:Hq; cbn [mbind res_bind].
  - rewrite Hv. cbn [mbind res_bind]. destruct (Z.ltb_spec 8 pairs); [done|lia].
  - done.
  - exfalso. revert Hq Hv. unfold dtb_read_prop_2, read_prop_n. repeat case_match; try done.
    unfold fdt_length. destruct (rd32 blob _); cbn; done.
Qed.

(** [dtb_read_resv_memory] never reports a length: both fields of every entry it returns are
    the entry's base, because the second field is read from the first word again. *)
Theorem resv_length_is_base blob st entry_count k es :
  dtb_read_resv_memory blob st entry_count true = Ret (k, es) -> Forall (fun e => e.2 = e.1) es.
Proof.
  unfold dtb_read_resv_memory. intros H. apply bind_ret_inv in H as (n & _ & H).
  destruct (_ || _); [injection H as <- <-; constructor|].
  apply bind_ret_inv in H as (l & Hl & H). injection H as <- <-. revert Hl.
  generalize (resv_memory st) as p. generalize (Z.to_nat (if n <? entry_count then n else entry_count)) as m.
  intros m. revert l. induction m as [|m IH]; intros l p Hl; [injection Hl as <-; constructor|].
  cbn in Hl. apply bind_ret_inv in Hl as (b & Hb & Hl). rewrite Hb in Hl. cbn in Hl.
  apply bind_ret_inv in Hl as (l' & Hl' & Hl). injection Hl as <-. constructor; [done|]. by apply (IH l' (p + 16)).
Qed.

(** ** A concrete tree *)

(** Two harts and a memory node, whose ranges are 64-bit bases with 32-bit lengths.  The
    second memory node has nine pairs. *)
Definition soc_strings : list Z := lit "device_type" ++ lit "reg" ++ lit "phandle".
Definition cpu (n : Z) : tree :=
  Tree (str "cpu@" ++ [48 + n]) [IProp 0 (str "device_type") (lit "cpu"); IProp 12 (str "reg") (be_bytes n);
                                 IProp 16 (str "phandle") (be_bytes 3)].
Definition pair (b l : Z) : list Z := be_bytes 0 ++ be_bytes b ++ be_bytes l.
Definition memory (unit : string) (ps : list (Z * Z)) : tree :=
  Tree (str unit) [IProp 0 (str "device_type") (lit "memory"); IProp 12 (str "reg") (flat_map (fun p => pair p.1 p.2) ps)].
Definition soc (ps : list (Z * Z)) : tree :=
  Tree [] [INode (Tree (str "cpus") [INode (cpu 0); INode (cpu 1)]); INode (memory "memory@80000000" ps)].
Definition soc_blob ps := mk_blob (soc ps) soc_strings.
Definition two := [(0x80000000, 0x40000000); (0x10000000, 0x1000)].
Definition nine := [(0, 1); (0, 1); (0, 1); (0, 1); (0, 1); (0, 1); (0, 1); (0, 1); (0, 1)].

Definition soc_ii : dtb_init_info := Info 56 296 60.

Lemma soc_fdt : is_fdt (soc_blob two) 56 296 40 (soc two).
Proof. concrete_fdt. Qed.

Lemma grant_all_granting : granting grant_all.
Proof. by eexists. Qed.

Lemma soc_cells : Info 56 296 (csize (soc two) + 1) = soc_ii.
Proof. vm_compute. reflexivity. Qed.

Lemma soc_good : good (soc_blob two) soc_ii (soc two).
Proof.
  split; [rewrite <-soc_cells; apply (fdt_wf _ _ _ _ _ soc_fdt)|]. cbn. repeat split; discriminate.
Qed.

Lemma soc_state : exists st, dtb_init (soc_blob two) 62 false grant_all state0 = Ret (true, st) /\
  root st = Some 0%nat /\ repr (soc_blob two) soc_ii st (node_alloc_head st) (prop_alloc_head st) 0 (soc two) /\
  (node_alloc_head st <= length (node_buff st))%nat /\ (prop_alloc_head st <= length (prop_buff st))%nat.
Proof.
  destruct (init_parses (soc_blob two) 56 296 40 _ (soc two) grant_all 6 10 (fdt_blob _ _ _ _ _ soc_fdt) grant_all_granting) with (fuel := 62%nat)
    as (st & E & R & _ & _ & Hr & H1 & H2 & _); [vm_compute; reflexivity..|vm_compute; discriminate|].
  rewrite soc_cells in Hr. exists st. exact (conj E (conj R (conj Hr (conj H1 H2)))).
Qed.

Lemma dtb_find_walks_witness : exists st n, dtb_init (soc_blob two) 62 false grant_all state0 = Ret (true, st) /\
  dtb_find (soc_blob two) st (lit "/cpus/cpu") = Ret (Some n).
Proof.
  destruct soc_state as (st & E & R & Hr & H1 & H2).
  destruct (dtb_find_walks (soc_blob two) soc_ii st (prop_alloc_head st) (node_alloc_head st) 0 (soc two)
    [str "cpus"; str "cpu"] 0 []) as (a & Ha & Hw); [exact H2|exact H1|exact R|exact Hr|apply soc_good| |].
  - repeat constructor; discriminate.
  - vm_compute in Hw. destruct Hw as (n & _ & -> & _). exists st, n. exact (conj E Ha).
Defined.

Lemma dtb_find_prop_finds_witness : exists st a, dtb_init (soc_blob two) 62 false grant_all state0 = Ret (true, st) /\
  dtb_find_prop (soc_blob two) st (Some 0%nat) (lit "reg") = Ret a /\ a = None.
Proof.
  destruct soc_state as (st & E & R & Hr & H1 & H2).
  destruct (dtb_find_prop_finds (soc_blob two) soc_ii st (prop_alloc_head st) (node_alloc_head st) 0 (soc two)
    (str "reg") []) as (a & Ha & Hw); [exact H2|exact Hr|apply soc_good|repeat constructor; discriminate|].
  exists st, a. exact (conj E (conj Ha Hw)).
Defined.

Lemma n_harts_counts_witness : exists st, dtb_init (soc_blob two) 62 false grant_all state0 = Ret (true, st) /\
  soct_n_harts (soc_blob two) st = Ret 2.
Proof.
  destruct soc_state as (st & E & R & Hr & H1 & H2). exists st. split; [done|].
  apply (n_harts_counts (soc_blob two) soc_ii st (prop_alloc_head st) (node_alloc_head st) 0 (soc two));
    [exact H2|exact H1|exact R|exact Hr|apply soc_good|].
  intros c Hc. vm_compute in Hc. injection Hc as <-.
  repeat constructor; intros x Hx; vm_compute in Hx; injection Hx as <-;
    (exists (str "cpu"); split_and!; [done|discriminate|repeat constructor; discriminate|done]).
Defined.

Lemma find_phandle_null_witness : exists st, dtb_init (soc_blob two) 62 false grant_all state0 = Ret (true, st) /\
  dtb_find_phandle st 3 = Ret None.
Proof.
  apply (find_phandle_null (soc_blob two) 56 296 40 (soc two) grant_all 6 10 62 3);
    [apply soc_fdt|apply grant_all_granting|vm_compute; reflexivity..|vm_compute; discriminate|lia].
Defined.

(** The parsed state of a blob, for evaluation. *)
Definition parsed (blob : list Z) : dtb_state :=
  match dtb_init blob 200 false grant_all state0 with Ret (_, st) => st | _ => state0 end.

Lemma ram_end_above_witness :
  soct_ram_end (soc_blob two) (parsed (soc_blob two)) 0x80001234 0 true = Ret (0xC0000000, 0xC0000000) /\
  exists b len, 0xC0000000 = u64 (b + len) /\ b <= 0x80001234 < 0xC0000000.
Proof.
  assert (soct_ram_end (soc_blob two) (parsed (soc_blob two)) 0x80001234 0 true = Ret (0xC0000000, 0xC0000000)) as E
    by (vm_compute; reflexivity).
  split; [exact E|].
  assert (0 <= 0x80001234) as H0 by lia.
  destruct (ram_end_above _ _ _ _ _ _ _ H0 E) as (_ & _ & _ & H). apply H; [reflexivity|discriminate].
Defined.

Lemma memory_node_overflow_witness :
  memory_node_end (soc_blob nine) (parsed (soc_blob nine)) 0x80001234 4 = Undef.
Proof.
  eapply (memory_node_overflow (soc_blob nine) (parsed (soc_blob nine)) 0x80001234 4);
    [vm_compute; reflexivity..|lia].
Defined.

(** A reservation block with one entry, 0x80000000 bytes at 0x100. *)
Definition resv_blob : list Z := be_bytes 0 ++ be_bytes 0x100 ++ be_bytes 0 ++ be_bytes 0x80000000 ++ replicate 16 0.

Lemma resv_length_is_base_witness :
  dtb_read_resv_memory resv_blob state0 1 true = Ret (1, [(0x100, 0x100)]) /\
  Forall (fun e : Z * Z => e.2 = e.1) [(0x100, 0x100)].
Proof.
  assert (dtb_read_resv_memory resv_blob state0 1 true = Ret (1, [(0x100, 0x100)])) as E by (vm_compute; reflexivity).
  split; [exact E|]. exact (resv_length_is_base _ _ _ _ _ E).
Defined.
