(* ===== verification/MemTree.v ===== *)
(** * The DRAM test: what it asks the device tree

    The tree half of mem-test/main.c: the RAM ranges, the hart count, the clock, and the
    program from the parsed tree to its exit status. *)
From Stdlib Require Import String.
From S2P Require Import Prelude Dtb DtbQuery MemTest MemSuites.
Import Ranges Windows.

#[local] Open Scope list_scope.
#[local] Abbreviation length := List.length.

Section tree.
Context (blob : list Z) (st : dtb_state).

(** ** RAM ranges *)

(** The pairs read into [vals], as ranges. *)
Definition range_of (p : list Z) : ram_range_t :=
  match p with [a; b] => Range (u64 a) (u64 b) | _ => Range 0 0 end.

(** The body of the loop of [dtb_ram_ranges]: the ranges [out] grows by.  [vals] has room for
    eight pairs and the second [dtb_read_prop_2] is not told so. *)
Definition node_ranges (n : nat) : res (list ram_range_t) :=
  is_mem ← device_type_is blob st n (lit "memory");
  if negb is_mem then Ret [] else
  reg ← dtb_find_prop blob st (Some n) (lit "reg");
  match reg with
  | None => Ret []
  | Some _ =>
      ac ← dtb_get_addr_cells_for blob st (Some n);
      sc ← dtb_get_size_cells_for blob st (Some n);
      pd ← deref_prop st reg;
      '(pairs, _) ← dtb_read_prop_2 blob pd ac sc false;
      if pairs =? 0 then Ret [] else
      let pairs := if 8 <? pairs then 8 else pairs in
      '(count, vals) ← dtb_read_prop_2 blob pd ac sc true;
      if 8 <? count then Undef
      else Ret (map range_of (take (Z.to_nat pairs) vals))
  end.

Fixpoint collect_ranges (fuel : nat) (n : option nat) (out : list ram_range_t) : res (list ram_range_t) :=
  match n with
  | None => Ret out
  | Some i =>
      match fuel with
      | O => Fuel
      | S fuel =>
          l ← node_ranges i;
          next ← dtb_get_sibling st n;
          collect_ranges fuel next (take MAX_RANGES (out ++ l))
      end
  end.

Definition dtb_ram_ranges : res (list ram_range_t) :=
  root ← dtb_find blob st (lit "/");
  match root with
  | None => Ret []
  | Some _ =>
      n ← dtb_get_child st root;
      out ← collect_ranges (length (node_buff st)) n [];
      Ret (normalize_ranges out)
  end.

(** ** Harts and clock *)

Definition dtb_nharts : res Z :=
  cpus ← dtb_find blob st (lit "/cpus");
  match cpus with
  | None => Ret 1
  | Some _ =>
      c ← dtb_get_child st cpus;
      n ← count_cpus blob st (length (node_buff st)) c;
      Ret (if n >? 0 then n else 1)
  end.

(** [clock_init]: [s_mtime_lo] and [s_timebase_hz].  A [reg] of several pairs is written past
    the single [val]. *)
Definition clock_init : res (option Z * Z) :=
  clint ← dtb_find_compatible blob st None (Some (lit "riscv,clint0"));
  match clint with
  | None => Ret (None, 0)
  | Some _ =>
      reg ← dtb_find_prop blob st clint (lit "reg");
      match reg with
      | None => Ret (None, 0)
      | Some _ =>
          ac ← dtb_get_addr_cells_for blob st clint;
          sc ← dtb_get_size_cells_for blob st clint;
          pd ← deref_prop st reg;
          '(n, vals) ← dtb_read_prop_2 blob pd ac sc true;
          if n <? 1 then Ret (None, 0) else
          if 1 <? n then Undef else
          let mtime := u64 (base (range_of (hd [] vals)) + 0xBFF8) in
          cpus ← dtb_find blob st (lit "/cpus");
          match cpus with
          | None => Ret (None, 0)
          | Some _ =>
              tb ← dtb_find_prop blob st cpus (lit "timebase-frequency");
              match tb with
              | None => Ret (None, 0)
              | Some _ =>
                  td ← deref_prop st tb;
                  '(_, hz) ← dtb_read_prop_1 blob td 1 true;
                  match hz with
                  | [] => Ret (None, 0)
                  | [hz] => Ret (if u64 hz =? 0 then None else Some mtime, u64 hz)
                  | _ => Undef
                  end
              end
          end
      end
  end.

(** ** The program *)

(** From the parsed tree to the exit status. *)
Definition mem_test (cell : Z -> Z) (stack_start stack_size brk : Z) (m : Dram.mem) : res Z :=
  ranges ← dtb_ram_ranges;
  match ranges with
  | [] => Ret 1
  | _ =>
      _ ← clock_init;
      n ← dtb_nharts;
      Ret (main cell stack_start stack_size n brk (2 ^ 64 - 1) ranges m)
  end.

(** The two hart counts agree on every tree with a cpu, and without /cpus. *)
Lemma nharts_agree n : soct_n_harts blob st = Ret n -> dtb_nharts = Ret (Z.max n 1) \/ n < 0.
Proof.
  unfold soct_n_harts, dtb_nharts. destruct (dtb_find blob st (lit "/cpus")) as [[c|]| |]; cbn -[count_cpus dtb_get_child]; [|by intros [= <-]; left|done|done].
  destruct (dtb_get_child st (Some c)) as [ch| |]; cbn -[count_cpus]; [|done|done].
  destruct (count_cpus blob st _ ch) as [k| |]; cbn; [|done|done]. intros [= <-].
  destruct (Z.ltb_spec 0 k); [|by right]. left. destruct (Z.gtb_spec k 0); [|lia]. f_equal. lia.
Qed.

Lemma collect_bound fuel : forall n out l, (length out <= MAX_RANGES)%nat -> collect_ranges fuel n out = Ret l -> (length l <= MAX_RANGES)%nat.
Proof.
  induction fuel as [|fuel IH]; intros [i|] out l Hl; cbn [collect_ranges]; try done; intros H; try by simplify_eq.
  apply bind_ret_inv in H as (r & _ & H). apply bind_ret_inv in H as (nx & _ & H). apply IH in H; [done|]. rewrite length_take. lia.
Qed.

(** What the windows are computed from: at most [MAX_RANGES] ranges, apart and in order. *)
Lemma ram_ranges_separated l : dtb_ram_ranges = Ret l -> (length l <= MAX_RANGES)%nat /\
  exists pairs, l = normalize_ranges pairs /\ (Forall range_ok pairs -> separated (-1) l).
Proof.
  unfold dtb_ram_ranges. intros H. apply bind_ret_inv in H as ([r|] & _ & H); [|simplify_eq; split; [cbn; lia|by exists []]].
  apply bind_ret_inv in H as (n & _ & H). apply bind_ret_inv in H as (out & Hc & H). simplify_eq.
  apply collect_bound in Hc; [|cbn; lia]. split.
  - etrans; [apply normalize_length|done].
  - exists out. split; [done|]. intros Hp. by apply normalize_ranges_ok.
Qed.
End tree.
