(* ===== verification/DtbCompat.v ===== *)
(** * Finding devices by their compatible string

    [dtb_find_compatible] scans the node buffer, which holds the tree's nodes in file order
    ([preorder]); every driver of the runtime finds its device through it.  It matches
    prefixes: a device is found under every prefix of its compatible strings. *)
From Stdlib Require Import String.
From S2P Require Import Prelude Dtb DtbTree DtbQuery.

#[local] Open Scope list_scope.
#[local] Abbreviation length := List.length.

(** ** The node buffer is the tree in file order *)

Fixpoint preorder (t : tree) : list tree :=
  match t with
  | Tree _ its => t :: flat_map (fun it => match it with INode t => preorder t | _ => [] end) its
  end.

Lemma preorder_eq nm its : preorder (Tree nm its) = Tree nm its :: flat_map preorder (kids_of its).
Proof.
  cbn [preorder]. f_equal. induction its as [|it its IH]; [done|]. destruct it; cbn; [done| |done]. by rewrite IH.
Qed.

Lemma preorder_length t : zlen (preorder t) = nnodes t.
Proof.
  induction t as [nm its IH] using tree_ind'. rewrite preorder_eq, nnodes_eq.
  change (zlen (?a :: ?l)) with (zlen ([a] ++ l)). rewrite zlen_app, zlen1. f_equal.
  induction its as [|it its IHl]; [done|]. destruct it as [| t|]; cbn [sum_map inodes kids_of flat_map].
  - apply IHl. intros t Ht. apply IH. by right.
  - cbn [flat_map app]. rewrite zlen_app, (IH t) by by left. f_equal. apply IHl. intros t' Ht. apply IH. by right.
  - apply IHl. intros t Ht. apply IH. by right.
Qed.

Section order.
Context (blob : list Z) (ii : dtb_init_info) (st : dtb_state).

Definition size_of (ts : list tree) : nat := length (flat_map preorder ts).

Lemma repr_room :
  (forall hi ph n t, repr blob ii st hi ph n t -> (n + length (preorder t) <= hi)%nat) /\
  (forall lo hi ph par c ts, kids blob ii st lo hi ph par c ts -> (lo + size_of (rev ts) <= hi)%nat).
Proof.
  apply repr_kids_ind.
  - intros hi ph n nd nm its Hn _ _ _ _ IH. rewrite preorder_eq. rewrite rev_involutive in IH. unfold size_of in IH. cbn. lia.
  - intros. unfold size_of. cbn. lia.
  - intros lo hi ph par c cd t ts Hlo _ _ Hr IH1 Hk IH2. unfold size_of in *. cbn [rev]. rewrite flat_map_app, length_app. cbn. rewrite app_nil_r. lia.
Qed.

(** When the range is full, node [n + k] is the [k]-th tree in file order. *)
Lemma repr_order :
  (forall hi ph n t, repr blob ii st hi ph n t -> hi = (n + length (preorder t))%nat ->
     forall k tk, preorder t !! k = Some tk -> exists hi', repr blob ii st hi' ph (n + k) tk) /\
  (forall lo hi ph par c ts, kids blob ii st lo hi ph par c ts -> hi = (lo + size_of (rev ts))%nat ->
     forall k tk, flat_map preorder (rev ts) !! k = Some tk -> exists hi', repr blob ii st hi' ph (lo + k) tk).
Proof.
  apply repr_kids_ind.
  - intros hi ph n nd nm its Hn Hnd Hnm Hpc Hk IH Hfull [|k] tk; rewrite preorder_eq in *; cbn [lookup list_lookup].
    + intros [= <-]. exists hi. rewrite Nat.add_0_r. by apply repr_node with nd.
    + intros Hl. rewrite rev_involutive in IH. destruct (IH ltac:(unfold size_of; cbn in Hfull; lia) k tk Hl) as [hi' H]. exists hi'. by replace (n + S k)%nat with (S n + k)%nat by lia.
  - done.
  - intros lo hi ph par c cd t ts Hlo Hcd Hpar Hr IH1 Hk IH2 Hfull k tk. pose proof (proj1 repr_room _ _ _ _ Hr). pose proof (proj2 repr_room _ _ _ _ _ _ Hk).
    unfold size_of in *. cbn [rev] in *. rewrite flat_map_app, length_app in *. cbn [flat_map] in *. rewrite app_nil_r in *.
    destruct (Nat.lt_ge_cases k (length (flat_map preorder (rev ts)))) as [Hlt|Hge].
    + rewrite lookup_app_l by done. apply IH2. lia.
    + rewrite lookup_app_r by done. intros Hl. destruct (IH1 ltac:(lia) _ _ Hl) as [hi' H']. exists hi'. by replace (lo + k)%nat with (c + (k - length (flat_map preorder (rev ts))))%nat by lia.
Qed.
End order.

(** ** String lists *)

(** The strings of a property's value. *)
Definition split0 (v : list Z) : list (list Z) :=
  foldr (fun c acc => if c =? 0 then [] :: acc else match acc with [] => [[c]] | u :: us => (c :: u) :: us end) [] v.

Definition flat (strs : list (list Z)) : list Z := flat_map (fun u => u ++ [0]) strs.

Definition stringlist (strs : list (list Z)) : Prop := Forall (fun u => nonul u /\ u <> []) strs.

Lemma split0_flat strs : stringlist strs -> split0 (flat strs) = strs.
Proof.
  induction 1 as [|u us [Hn _] _ IH]; [done|]. cbn [flat flat_map]. fold (flat us). unfold split0. rewrite <-app_assoc, foldr_app.
  cbn [app foldr]. change (0 =? 0) with true. cbn beta iota. fold (split0 (flat us)). rewrite IH.
  induction Hn as [|c u Hc Hn IHu]; [done|]. cbn [foldr]. rewrite IHu. by destruct (Z.eqb_spec c 0).
Qed.

(** [scan_string] on the bytes themselves. *)
Fixpoint scan_l (l : list Z) (curr index : Z) : option Z :=
  match l with
  | [] => None
  | c :: l => if c =? 0 then Z.succ <$> scan_l l (curr + 1) index
              else if curr =? index then Some 0 else Z.succ <$> scan_l l curr index
  end.

Lemma scan_string_l blob l : forall p curr index, holds blob p l ->
  scan_string blob (length l) p curr index = Ret (Z.add p <$> scan_l l curr index).
Proof.
  induction l as [|c l IH]; intros p curr index Hh; [done|]. cbn [length scan_string scan_l].
  rewrite (holds_rd8 _ _ _ _ Hh). cbn [mbind res_bind]. apply holds_cons in Hh.
  assert (forall o : option Z, Z.add (p + 1) <$> o = Z.add p <$> (Z.succ <$> o)) as Hs by (intros [x|]; cbn; [f_equal; lia|done]).
  destruct (c =? 0); [by rewrite IH, Hs|]. destruct (curr =? index); [cbn; by rewrite Z.add_0_r|by rewrite IH, Hs].
Qed.

Lemma scan_l_past l : forall curr index, index < curr -> scan_l l curr index = None.
Proof.
  induction l as [|c l IH]; intros curr index Hi; [done|]. cbn. destruct (c =? 0); [by rewrite IH by lia|].
  destruct (Z.eqb_spec curr index); [lia|]. by rewrite IH.
Qed.

Lemma scan_l_string u l : forall curr index, nonul u -> curr <> index ->
  scan_l (u ++ 0 :: l) curr index = (fun x => zlen u + 1 + x) <$> scan_l l (curr + 1) index.
Proof.
  intros curr index Hn Hi. induction Hn as [|c u Hc Hn IH]; cbn [app scan_l].
  - change (0 =? 0) with true. cbn beta iota. destruct (scan_l l _ _); [|done]. cbn [fmap option_fmap option_map]. f_equal. unfold zlen. cbn [List.length]. lia.
  - destruct (Z.eqb_spec c 0); [done|]. destruct (Z.eqb_spec curr index); [done|]. rewrite IH.
    destruct (scan_l l _ _); [|done]. cbn [fmap option_fmap option_map]. f_equal. unfold zlen. cbn [List.length]. lia.
Qed.

(** String [i] of the list, and none after the last when a zero byte follows. *)
Lemma scan_l_list strs junk : stringlist strs -> forall i curr, (i <= length strs)%nat ->
  match drop i strs with
  | [] => scan_l (flat strs ++ 0 :: junk) curr (curr + Z.of_nat i) = None
  | u :: us => exists o pre, scan_l (flat strs ++ 0 :: junk) curr (curr + Z.of_nat i) = Some o /\ zlen pre = o /\ flat strs = pre ++ u ++ 0 :: flat us
  end.
Proof.
  induction 1 as [|u us [Hn Hne] Hs IH]; intros i curr Hi.
  - destruct i; [|cbn in Hi; lia]. cbn -[scan_l]. cbn [scan_l]. change (0 =? 0) with true. cbn beta iota. by rewrite scan_l_past by lia.
  - cbn [flat flat_map]. fold (flat us). rewrite <-!app_assoc. cbn [app]. destruct i as [|i].
    + cbn [drop]. exists 0, []. split; [|done]. destruct u as [|c u]; [done|]. inversion Hn as [|? ? Hc _]; subst. cbn [app scan_l].
      destruct (Z.eqb_spec c 0); [done|]. destruct (Z.eqb_spec curr (curr + Z.of_nat 0)); [done|lia].
    + cbn [drop]. rewrite scan_l_string by (done || lia). cbn in Hi. specialize (IH i (curr + 1) ltac:(lia)).
      replace (curr + Z.of_nat (S i)) with (curr + 1 + Z.of_nat i) by lia.
      destruct (drop i us) as [|w ws]; [by rewrite IH|]. destruct IH as (o & pre & -> & Ho & E). exists (zlen u + 1 + o), (u ++ 0 :: pre).
      split; [done|]. split; [rewrite zlen_app; change (0 :: pre) with ([0] ++ pre); rewrite zlen_app, zlen1; lia|]. rewrite E, <-app_assoc. done.
Qed.

Lemma strings_eq_prefix u r s rs : nonul u -> nonul s ->
  strings_eq (u ++ 0 :: r) (s ++ rs) (length s) = Ret (bool_decide (s `prefix_of` u)).
Proof.
  intros Hu Hs. revert u Hu. induction Hs as [|x s Hx Hs IH]; intros u Hu; cbn [length strings_eq app].
  { rewrite bool_decide_eq_true_2; [done|]. apply prefix_nil. }
  destruct Hu as [|y u Hy Hu]; cbn [app].
  - destruct (Z.eqb_spec x 0); [done|]. rewrite andb_false_r. destruct (Z.eqb_spec 0 x); [congruence|]. cbn.
    rewrite bool_decide_eq_false_2; [done|]. by intros [? [=]].
  - destruct (Z.eqb_spec y 0); [done|]. cbn [andb]. destruct (Z.eqb_spec y x) as [->|Hne]; cbn [negb].
    + rewrite IH by done. f_equal. apply bool_decide_ext. split; [apply prefix_cons|apply prefix_cons_inv_2].
    + rewrite bool_decide_eq_false_2; [done|]. by intros E%prefix_cons_inv_1.
Qed.

(** ** [dtb_is_compatible] *)

Lemma holds_join blob p a b : holds blob p a -> holds blob (p + zlen a) b -> holds blob p (a ++ b).
Proof.
  intros (pre & post & E & Hp) (pre2 & post2 & E2 & Hp2).
  assert (length pre2 = length (pre ++ a)) as Hl by (rewrite length_app; unfold zlen in *; lia).
  assert (pre2 = pre ++ a /\ b ++ post2 = post) as [-> <-].
  { apply app_inj_1; [done|]. by rewrite <-app_assoc, <-E, <-E2. }
  exists pre, post2. by rewrite <-!app_assoc in *.
Qed.

(** What the scan of a string list may read: a zero byte after the value (padding, or the
    first byte of the next tag), and four times the value's length in all. *)
Definition roomy (blob : list Z) (pd : dtb_prop) : Prop :=
  plength pd = 0 \/ exists junk, holds blob (pdata pd + plength pd) (0 :: junk) /\ zlen (0 :: junk) = 3 * plength pd.

Definition matches (s : list Z) (t : tree) : bool :=
  match find_tprop t (str "compatible") with
  | Some x => existsb (fun u => bool_decide (s `prefix_of` u)) (split0 x.2)
  | None => false
  end.

(** The places of the matching nodes in file order, from place [i]. *)
Fixpoint found (s : list Z) (i : nat) (ts : list tree) : list nat :=
  match ts with [] => [] | t :: ts => if matches s t then i :: found s (S i) ts else found s (S i) ts end.

(** Its compatible property, if any, is a list of strings. *)
Definition well_listed (t : tree) : Prop :=
  forall x, find_tprop t (str "compatible") = Some x -> exists strs, x.2 = flat strs /\ stringlist strs /\ strs <> [] /\ zlen x.2 < 2 ^ 30.

Section compatible.
Context (blob : list Z) (ii : dtb_init_info) (st : dtb_state) (ph : nat).
Hypothesis Hph : (ph <= length (prop_buff st))%nat.
Hypothesis Hroom : Forall (roomy blob) (take ph (prop_buff st)).

Lemma compat_strings pd s r strs junk : stringlist strs -> nonul s -> holds blob (pdata pd) (flat strs ++ 0 :: junk) ->
  length (flat strs ++ 0 :: junk) = Z.to_nat (u32 (plength pd * 4)) ->
  forall i fuel, (i <= length strs)%nat -> (length strs - i < fuel)%nat ->
  compat_from blob fuel (Some pd) (s ++ r) (zlen s) (Z.of_nat i) = Ret (existsb (fun u => bool_decide (s `prefix_of` u)) (drop i strs)).
Proof.
  intros Hs Hn Hh Hlen i fuel. remember (length strs - i)%nat as k eqn:Ek. revert i fuel Ek.
  induction k as [|k IH]; intros i [|fuel] Ek Hi Hf; [lia| |lia|]; cbn [compat_from]; unfold dtb_read_prop_string;
    rewrite <-Hlen, scan_string_l by done; pose proof (scan_l_list strs junk Hs i 0 Hi) as Hscan; rewrite Z.add_0_l in Hscan.
  - destruct (drop i strs) as [|u us] eqn:Ed; [|apply (f_equal length) in Ed; rewrite length_drop in Ed; cbn in Ed; lia]. by rewrite Hscan.
  - destruct (drop i strs) as [|u us] eqn:Ed; [apply (f_equal length) in Ed; rewrite length_drop in Ed; cbn in Ed; lia|].
    destruct Hscan as (o & pre & -> & Ho & E). cbn [fmap option_fmap option_map mbind res_bind].
    assert (nonul u) as Hu.
    { unfold stringlist in Hs. rewrite Forall_forall in Hs. apply Hs. apply list_elem_of_lookup. exists i. by rewrite <-(Nat.add_0_r i), <-lookup_drop, Ed. }
    rewrite E, <-!app_assoc in Hh. apply holds_app in Hh as [_ Hh]. rewrite Ho in Hh.
    destruct (holds_str_at _ _ _ Hh) as [post ->]. cbn [app]. rewrite <-app_assoc. cbn [app].
    replace (Z.to_nat (zlen s)) with (length s) by (unfold zlen; lia). rewrite strings_eq_prefix by done. cbn [mbind res_bind existsb].
    case_bool_decide; [done|]. replace (Z.of_nat i + 1) with (Z.of_nat (S i)) by lia. rewrite (IH (S i)) by lia.
    cbn [orb]. do 2 f_equal. change us with (drop 1 (u :: us)). by rewrite <-Ed, drop_drop, Nat.add_1_r.
Qed.

Lemma is_compatible_repr hi n t s r : nonul s -> good blob ii t -> repr blob ii st hi ph n t -> well_listed t ->
  dtb_is_compatible blob st (Some n) (Some (s ++ 0 :: r)) = Ret (matches s t).
Proof.
  intros Hs Hg Hr Hwl. unfold dtb_is_compatible, matches. rewrite (lit_str "compatible").
  destruct (find_prop_repr blob ii st ph Hph hi n t (str "compatible") []) as (a & -> & Ha); [by apply nonul_dec|done|done|].
  destruct (find_tprop t (str "compatible")) as [x|] eqn:Ex; cbn -[str compat_from]; [|by subst a].
  destruct Ha as (p & pd & -> & Hp & Hl & _ & _ & Hlen & _ & _ & Hdata). cbn -[str compat_from]. unfold prop_at. rewrite Hl. cbn -[str compat_from string_len].
  cbn [string_len]. rewrite strlen_app by done. cbn -[str compat_from].
  destruct (Hwl x Ex) as (strs & Hv & Hsl & Hne & Hlt). rewrite Hv, split0_flat by done.
  assert (0 < zlen x.2) as Hpos by (rewrite Hv; destruct strs as [|[|] ?]; [done|by inversion Hsl as [|? ? [_ ?] _]|cbn; unfold zlen; cbn [List.length]; lia]).
  rewrite Forall_forall in Hroom. destruct (Hroom pd) as [|(junk & Hj & Hjl)]; [|lia|].
  { apply list_elem_of_lookup. exists p. by rewrite lookup_take_lt by lia. }
  rewrite Hlen in *. assert (u32 (zlen x.2 * 4) = zlen x.2 * 4) as E32 by (apply wrap_small; unfold fits; lia).
  rewrite Hv in Hdata. pose proof (holds_join blob _ _ (0 :: junk) Hdata) as Hall. rewrite <-Hv in Hall. specialize (Hall Hj). rewrite Hv in Hall.
  assert (length (flat strs ++ 0 :: junk) = Z.to_nat (u32 (plength pd * 4))) as Hll.
  { rewrite Hlen, E32, length_app, <-Hv. unfold zlen in *. lia. }
  pose proof (compat_strings pd s (0 :: r) strs junk Hsl Hs Hall Hll 0) as Hc. cbn [Z.of_nat drop] in Hc. apply Hc; [lia|].
  assert (forall l, stringlist l -> (length l <= length (flat l))%nat) as Hle.
  { induction 1 as [|u us [_ Hu] _ IH]; [done|]. cbn [flat flat_map]. fold (flat us). rewrite !length_app. cbn [length]. destruct u; [done|]. cbn [List.length]. lia. }
  specialize (Hle strs Hsl). rewrite E32, Hv. unfold zlen. lia.
Qed.

Lemma find_compatible_scan s r ts : nonul s -> forall k i,
  (forall j t, ts !! j = Some t -> dtb_is_compatible blob st (Some (i + j)%nat) (Some (s ++ 0 :: r)) = Ret (matches s t)) ->
  k = length ts -> find_compatible_from blob k st i (Some (s ++ 0 :: r)) = Ret (head (found s i ts)).
Proof.
  intros Hs. induction ts as [|t ts IH]; intros k i Hc ->; [done|]. cbn [length find_compatible_from found].
  pose proof (Hc 0%nat t eq_refl) as H0. rewrite Nat.add_0_r in H0. rewrite H0. cbn [mbind res_bind].
  destruct (matches s t); [done|]. apply IH; [|done]. intros j t' Hj. rewrite Nat.add_succ_l, <-Nat.add_succ_r. by apply (Hc (S j)).
Qed.
End compatible.

Lemma good_preorder blob ii t : good blob ii t -> Forall (good blob ii) (preorder t).
Proof.
  induction t as [nm its IH] using tree_ind'. intros Hg. rewrite preorder_eq. constructor; [done|].
  pose proof (good_kids blob ii nm its Hg) as Hk. apply Forall_rev in Hk. rewrite rev_involutive in Hk.
  assert (forall t, In t (kids_of its) -> In (INode t) its) as Hin.
  { intros t. unfold kids_of. rewrite in_flat_map. intros ([| u|] & Hu & Ht); try done. by destruct Ht as [->|[]]. }
  induction (kids_of its) as [|t ts IHts]; [constructor|]. cbn [flat_map]. apply Forall_cons in Hk as [[Hgt _] Hk].
  apply Forall_app. split; [apply IH; [apply Hin; by left|done]|]. apply IHts; [done|]. intros t' Ht. apply Hin. by right.
Qed.

(** A parsed tree in which the search is sound: it fills the node buffer, and its compatible
    properties are string lists with room after them. *)
Record searchable (blob : list Z) (st : dtb_state) (t : tree) : Prop := {
  se_nodes : (node_alloc_head st <= length (node_buff st))%nat;
  se_props : (prop_alloc_head st <= length (prop_buff st))%nat;
  se_repr : exists ii, repr blob ii st (node_alloc_head st) (prop_alloc_head st) 0 t /\ good blob ii t;
  se_count : Z.of_nat (node_alloc_head st) = nnodes t;
  se_lists : Forall well_listed (preorder t);
  se_roomy : Forall (roomy blob) (take (prop_alloc_head st) (prop_buff st)) }.

Lemma find_compatible_spec blob st t s r start : searchable blob st t -> nonul s ->
  let begin := match start with None => 0%nat | Some n => S n end in
  dtb_find_compatible blob st start (Some (s ++ 0 :: r)) = Ret (head (found s begin (drop begin (preorder t)))).
Proof.
  intros [Hn Hp (ii & Hr & Hg) Hc Hwl Hroom] Hs begin. unfold dtb_find_compatible. fold begin.
  assert (node_alloc_head st = length (preorder t)) as Hlen by (pose proof (preorder_length t); unfold zlen in *; lia).
  eapply find_compatible_scan; [done| |by rewrite length_drop, Hlen].
  intros j tk Hj. rewrite lookup_drop in Hj. destruct (proj1 (repr_order blob ii st) _ _ _ _ Hr Hlen _ _ Hj) as [hi' Hk].
  apply good_preorder in Hg. rewrite Forall_lookup in Hg, Hwl.
  apply (is_compatible_repr blob ii st (prop_alloc_head st) Hp Hroom hi'); [done|by apply (Hg (begin + j)%nat)|done|by apply (Hwl (begin + j)%nat)].
Qed.

(** Searching on from a node that was found gives the next one. *)
Lemma found_next s k ks ts : forall i, found s i ts = k :: ks -> (i <= k)%nat /\ ks = found s (S k) (drop (S k - i) ts).
Proof.
  induction ts as [|t ts IH]; intros i; [done|]. cbn [found]. destruct (matches s t).
  - intros [= <- <-]. split; [lia|]. by replace (S i - i)%nat with 1%nat by lia.
  - intros [Hk ->]%IH. split; [lia|]. by replace (S k - i)%nat with (S (S k - S i)) by lia.
Qed.

(** Devices are found in file order.  On a tree whose compatible properties are string
    lists, [dtb_find_compatible] of any string, from the beginning or after a given node,
    terminates and answers the first node in file order, past that one, with a compatible string
    that the given one is a prefix of, and NULL exactly when there is none. *)
Theorem find_compatible_first blob st t s r start : searchable blob st t -> nonul s ->
  let begin := match start with None => 0%nat | Some n => S n end in
  match dtb_find_compatible blob st start (Some (s ++ 0 :: r)) with
  | Ret (Some n) => (begin <= n)%nat /\ (exists tn, preorder t !! n = Some tn /\ matches s tn = true) /\
      (forall k tk, (begin <= k < n)%nat -> preorder t !! k = Some tk -> matches s tk = false)
  | Ret None => forall k tk, (begin <= k)%nat -> preorder t !! k = Some tk -> matches s tk = false
  | _ => False
  end.
Proof.
  intros Hse Hs begin. rewrite (find_compatible_spec blob st t) by done. fold begin.
  assert (forall ts i, match head (found s i ts) with
    | Some n => (i <= n)%nat /\ (exists tn, ts !! (n - i)%nat = Some tn /\ matches s tn = true) /\
        (forall k tk, (i <= k < n)%nat -> ts !! (k - i)%nat = Some tk -> matches s tk = false)
    | None => forall k tk, (i <= k)%nat -> ts !! (k - i)%nat = Some tk -> matches s tk = false end) as H.
  { induction ts as [|t' ts IH]; intros i; [done|]. cbn [found]. destruct (matches s t') eqn:E; cbn [head].
    - split; [lia|]. split; [exists t'; by rewrite Nat.sub_diag|lia].
    - specialize (IH (S i)). destruct (head (found s (S i) ts)) as [n|].
      + destruct IH as (H1 & (tn & H2 & H3) & H4). split; [lia|]. split.
        * exists tn. by replace (n - i)%nat with (S (n - S i)) by lia.
        * intros k tk Hk. destruct (Nat.eq_dec k i) as [->|]; [rewrite Nat.sub_diag; by intros [= <-]|].
          replace (k - i)%nat with (S (k - S i)) by lia. apply H4. lia.
      + intros k tk Hk. destruct (Nat.eq_dec k i) as [->|]; [rewrite Nat.sub_diag; by intros [= <-]|].
        replace (k - i)%nat with (S (k - S i)) by lia. apply IH. lia. }
  specialize (H (drop begin (preorder t)) begin). destruct (head _) as [n|].
  - destruct H as (H1 & (tn & H2 & H3) & H4). rewrite lookup_drop in H2. split; [done|]. split; [exists tn; by replace n with (begin + (n - begin))%nat by lia|].
    intros k tk Hk Hl. apply (H4 k); [done|]. rewrite lookup_drop. by replace (begin + (k - begin))%nat with k by lia.
  - intros k tk Hk Hl. apply (H k); [done|]. rewrite lookup_drop. by replace (begin + (k - begin))%nat with k by lia.
Qed.

(** ** A concrete tree *)

(** A UART, its successor, and a memory node in between. *)
Definition io_strings : list Z := lit "compatible" ++ lit "reg" ++ replicate 64 0.
Definition dev (nm : string) (base : Z) (compat : list (list Z)) : tree := Tree (str nm) [IProp 0 (str "compatible") (flat compat); IProp 11 (str "reg") (be_bytes 1 ++ be_bytes base)].
Definition io : tree :=
  Tree [] [INode (dev "serial@60100000" 0x60100000 [str "riscv,axi-uart-2.0b"; str "riscv,axi-uart-1.0"]);
           INode (Tree (str "memory@0") [IProp 11 (str "reg") (be_bytes 3)]);
           INode (dev "mmc@60000000" 0x60000000 [str "riscv,axi-sd-card-1.0"]); INode (dev "mmc@60010000" 0x60010000 [str "riscv,axi-sd-card-1.0"])].
Definition io_blob : list Z := mk_blob io io_strings.

Example io_found : let st := parsed io_blob in
  dtb_find_compatible io_blob st None (Some (lit "riscv,axi-sd-card-1.0")) = Ret (Some 3%nat) /\
  dtb_find_compatible io_blob st (Some 3%nat) (Some (lit "riscv,axi-sd-card-1.0")) = Ret (Some 4%nat) /\
  dtb_find_compatible io_blob st (Some 4%nat) (Some (lit "riscv,axi-sd-card-1.0")) = Ret None /\
  dtb_find_compatible io_blob st None (Some (lit "riscv,axi-uart-2.0")) = Ret (Some 1%nat).
Proof. vm_compute. done. Qed.

Definition roomyb (blob : list Z) (pd : dtb_prop) : bool :=
  (plength pd =? 0) || (holdsb blob (pdata pd + plength pd) (take (Z.to_nat (3 * plength pd)) (drop (Z.to_nat (pdata pd + plength pd)) blob)) &&
    match take (Z.to_nat (3 * plength pd)) (drop (Z.to_nat (pdata pd + plength pd)) blob) with 0 :: junk => zlen (0 :: junk) =? 3 * plength pd | _ => false end).

Lemma roomyb_true blob pd : roomyb blob pd = true -> roomy blob pd.
Proof.
  unfold roomyb. intros [H%Z.eqb_eq|[Hh H]%andb_prop]%orb_prop; [by left|right]. apply holdsb_true in Hh.
  destruct (take _ _) as [|[| |] junk]; try done. exists junk. split; [done|]. by apply Z.eqb_eq in H.
Qed.

Definition well_listedb (t : tree) : bool :=
  match find_tprop t (str "compatible") with
  | None => true
  | Some x => let strs := split0 x.2 in
      bool_decide (x.2 = flat strs) && forallb (fun u => forallb (fun c => negb (c =? 0)) u && negb (bool_decide (u = []))) strs
      && negb (bool_decide (strs = [])) && (zlen x.2 <? 2 ^ 30)
  end.

Lemma well_listedb_true t : well_listedb t = true -> well_listed t.
Proof.
  unfold well_listedb, well_listed. intros H x Hx. rewrite Hx in H. apply andb_prop in H as [H H4]. apply andb_prop in H as [H H3]. apply andb_prop in H as [H1 H2].
  exists (split0 x.2). apply bool_decide_eq_true in H1. apply negb_true_iff, bool_decide_eq_false in H3. apply Z.ltb_lt in H4.
  split_and!; [done| |done|done]. apply Forall_forall. intros u Hu%list_elem_of_In. rewrite forallb_forall in H2. specialize (H2 u Hu).
  apply andb_prop in H2 as [Hn Hne]. apply negb_true_iff, bool_decide_eq_false in Hne. split; [by apply nonul_dec|done].
Qed.

Lemma forallb_Forall {A} (f : A -> bool) (P : A -> Prop) l : (forall x, f x = true -> P x) -> forallb f l = true -> Forall P l.
Proof. intros H Hl. rewrite forallb_forall in Hl. apply Forall_forall. intros x Hx%list_elem_of_In. auto. Qed.

Lemma io_fdt : is_fdt io_blob 56 364 40 io.
Proof. concrete_fdt. Qed.

Lemma io_state : exists st, dtb_init io_blob 200 false grant_all state0 = Ret (true, st) /\ st = parsed io_blob /\ root st = Some 0%nat /\
  Z.of_nat (node_alloc_head st) = nnodes io /\ repr io_blob (Info 56 364 77) st (node_alloc_head st) (prop_alloc_head st) 0 io /\
  (node_alloc_head st <= length (node_buff st))%nat /\ (prop_alloc_head st <= length (prop_buff st))%nat.
Proof.
  destruct (init_parses io_blob 56 364 40 _ io grant_all 8 8 (fdt_blob _ _ _ _ _ io_fdt) grant_all_granting) with (fuel := 200%nat)
    as (st & E & R & Hn & _ & Hr & H1 & H2 & _); [vm_compute; reflexivity..|vm_compute; discriminate|].
  exists st. unfold parsed. rewrite E. by split_and!.
Qed.

Lemma io_good : good io_blob (Info 56 364 77) io.
Proof. split; [exact (fdt_wf _ _ _ _ _ io_fdt)|]. cbn. repeat split; discriminate. Qed.

Lemma io_searchable : searchable io_blob (parsed io_blob) io.
Proof.
  destruct io_state as (st & E & <- & R & Hn & Hr & H1 & H2). split; [exact H1|exact H2| |exact Hn|by apply (forallb_Forall _ _ _ well_listedb_true)|].
  - exists (Info 56 364 77). split; [exact Hr|exact io_good].
  - apply (forallb_Forall _ _ _ (roomyb_true io_blob)). unfold parsed in *. assert (st = parsed io_blob) as -> by (unfold parsed; by rewrite E). vm_compute. reflexivity.
Qed.

Lemma find_compatible_first_witness :
  dtb_find_compatible io_blob (parsed io_blob) (Some 3%nat) (Some (str "riscv,axi-sd-card-1.0" ++ [0])) = Ret (Some 4%nat) /\
  forall tk, preorder io !! 3%nat = Some tk -> matches (str "riscv,axi-uart-2.0") tk = false.
Proof.
  split; [vm_compute; reflexivity|].
  pose proof (find_compatible_first io_blob (parsed io_blob) io (str "riscv,axi-uart-2.0") [] (Some 2%nat) io_searchable ltac:(apply nonul_dec; reflexivity)) as H.
  assert (dtb_find_compatible io_blob (parsed io_blob) (Some 2%nat) (Some (str "riscv,axi-uart-2.0" ++ [0])) = Ret None) as E by (vm_compute; reflexivity).
  cbv zeta in H. rewrite E in H. intros tk Hk. apply (H 3%nat tk); [lia|exact Hk].
Defined.
