(* ===== verification/DtbWrite.v ===== *)
(** * The device-tree parser (shared/soctglue/src/smoldtb.c), writing side

    The part under SMOLDTB_ENABLE_WRITE_API.  Nodes and properties stay the lists of [Dtb];
    the ones obtained from [malloc] are appended to them, so every query of [Dtb] runs on the
    edited tree.  Names and values now live in a heap of byte blocks ([heap]): the parsed blob
    is one block, each grant of [malloc] another, and a load or store that leaves its block is
    [Undef].  What a fresh block holds is a parameter ([fresh_byte], [fresh_node]):
    C leaves it indeterminate; the arena of soctglue.c hands out zeros.
    The buffer of [dtb_finalise_to_buffer] is an object of its own. *)
From Stdlib Require Import String.
From S2P Require Import Prelude Dtb.

#[local] Open Scope list_scope.
#[local] Abbreviation length := List.length.

(** ** Memory *)

(** Blocks with their base addresses; [hnext] is above all of them. *)
Record heap := MkHeap { blocks : list (Z * list Z); hnext : Z }.

Definition inside (p : Z) (b : Z * list Z) : bool := (b.1 <=? p) && (p <? b.1 + zlen b.2).

(** The bytes from [p] to the end of its block. *)
Definition cstr (h : heap) (p : Z) : cptr :=
  match List.find (inside p) (blocks h) with Some (base, bs) => drop (Z.to_nat (p - base)) bs | None => [] end.

(** [bs] written over [l] from offset [off] on. *)
Definition put (l : list Z) (off : Z) (bs : list Z) : res (list Z) :=
  if (0 <=? off) && (off + zlen bs <=? zlen l)
  then Ret (take (Z.to_nat off) l ++ bs ++ drop (Z.to_nat off + length bs) l) else Undef.

Fixpoint put_block (bl : list (Z * list Z)) (p : Z) (bs : list Z) : res (list (Z * list Z)) :=
  match bl with
  | [] => Undef
  | b :: bl =>
      if inside p b then l ← put b.2 (p - b.1) bs; Ret ((b.1, l) :: bl)
      else bl ← put_block bl p bs; Ret (b :: bl)
  end.

(** [memcpy] into the heap; no byte is no access. *)
Definition memcpy (h : heap) (dest : Z) (src : list Z) : res heap :=
  match src with [] => Ret h | _ => bl ← put_block (blocks h) dest src; Ret (MkHeap bl (hnext h)) end.

(** The [count] bytes read from [p]. *)
Definition bytes_at (h : heap) (p count : Z) : res (list Z) :=
  if count <=? zlen (cstr h p) then Ret (take (Z.to_nat count) (cstr h p)) else Undef.

(** What [free] was handed. *)
Inductive obj := ONode (n : nat) | OProp (p : nat) | OBytes (p : Z).
#[export] Instance obj_eq_dec : EqDecision obj.
Proof. solve_decision. Defined.

Record wstate := WState { hp : heap; tr : dtb_state; freed : list obj }.

Definition wlog (msg : string) (w : wstate) : wstate := WState (hp w) (LOG_ERROR msg (tr w)) (freed w).
Definition wupd_node (n : nat) (f : dtb_node -> dtb_node) (w : wstate) : wstate :=
  WState (hp w) (upd_node n f (tr w)) (freed w).
Definition wupd_prop (p : nat) (f : dtb_prop -> dtb_prop) (w : wstate) : wstate :=
  WState (hp w) (upd_prop p f (tr w)) (freed w).

(** Reading an object that was freed is undefined. *)
Definition get_node (w : wstate) (n : nat) : res dtb_node :=
  if bool_decide (ONode n ∈ freed w) then Undef else node_at (tr w) n.
Definition get_prop (w : wstate) (p : nat) : res dtb_prop :=
  if bool_decide (OProp p ∈ freed w) then Undef else prop_at (tr w) p.

Definition name_of (w : wstate) (nm : option Z) : option cptr := cstr (hp w) <$> nm.

(** Single fields of the records of [Dtb]. *)
Definition with_parent x n := Node x (sibling n) (child n) (props n) (nname n) (fromMalloc n).
Definition with_sibling x n := Node (parent n) x (child n) (props n) (nname n) (fromMalloc n).
Definition with_child x n := Node (parent n) (sibling n) x (props n) (nname n) (fromMalloc n).
Definition with_props x n := Node (parent n) (sibling n) (child n) x (nname n) (fromMalloc n).
Definition with_name x n := Node (parent n) (sibling n) (child n) (props n) x (fromMalloc n).
Definition with_malloc x n := Node (parent n) (sibling n) (child n) (props n) (nname n) x.
Definition with_next x p := Prop_ (pnode p) (pname p) (pdata p) x (plength p) (pfromMalloc p) (dataFromMalloc p).
Definition with_data x l p := Prop_ (pnode p) (pname p) x (pnext p) l (pfromMalloc p) (dataFromMalloc p).

(** [try_free], which hands the block to the callback when there is one and logs either way. *)
Definition wfree (o : obj) (w : wstate) : wstate :=
  WState (hp w) (try_free (tr w)) (if free (ops (tr w)) then o :: freed w else freed w).

(** The callers' loop bounds: no list or path is longer than the objects there are. *)
Definition node_fuel (w : wstate) : nat := S (length (node_buff (tr w))).
Definition prop_fuel (w : wstate) : nat := S (length (prop_buff (tr w))).

(** ** The iterators *)

Section foreach.
Context {A : Type} (state_of : A -> wstate).

(** [true] is SMOLDTB_FOREACH_ABORT; the link is read after the action ran. *)
Fixpoint do_foreach_sibling (fuel : nat) (action : nat -> A -> res (bool * A)) (node : option nat) (a : A) : res A :=
  match node with
  | None => Ret a
  | Some n =>
      match fuel with
      | O => Fuel
      | S fuel =>
          '(stop, a) ← action n a;
          if stop : bool then Ret a else
          nd ← get_node (state_of a) n; do_foreach_sibling fuel action (sibling nd) a
      end
  end.

Fixpoint foreach_prop_from (fuel : nat) (action : nat -> A -> res (bool * A)) (prop : option nat) (a : A) : res A :=
  match prop with
  | None => Ret a
  | Some p =>
      match fuel with
      | O => Fuel
      | S fuel =>
          '(stop, a) ← action p a;
          if stop : bool then Ret a else
          pd ← get_prop (state_of a) p; foreach_prop_from fuel action (pnext pd) a
      end
  end.
Definition do_foreach_prop (node : nat) (action : nat -> A -> res (bool * A)) (a : A) : res A :=
  nd ← get_node (state_of a) node; foreach_prop_from (prop_fuel (state_of a)) action (props nd) a.
End foreach.

(** ** Destroying *)

Definition destroy_props (p : nat) (w : wstate) : res (bool * wstate) :=
  pd ← get_prop w p;
  let w := if dataFromMalloc pd then wfree (OBytes (pdata pd)) w else w in
  let w := if pfromMalloc pd then wfree (OProp p) w else w in
  Ret (false, w).

(** [destroy_dead_node], and its loop over the children. *)
Fixpoint destroy_dead_node (fuel : nat) (n : nat) (w : wstate) : res wstate :=
  match fuel with
  | O => Fuel
  | S fuel =>
      nd ← get_node w n;
      if bool_decide (parent nd <> None) then Ret w else
      w ← (fix children k w : res wstate :=
             nd ← get_node w n;
             match child nd with
             | None => Ret w
             | Some deletee =>
                 match k with
                 | O => Fuel
                 | S k =>
                     dd ← get_node w deletee;
                     let w := wupd_node n (with_child (sibling dd)) w in
                     let w := wupd_node deletee (with_parent None) w in
                     w ← destroy_dead_node fuel deletee w; children k w
                 end
             end) (node_fuel w) w;
      w ← do_foreach_prop id n destroy_props w;
      nd ← get_node w n;
      Ret (if fromMalloc nd then wfree (ONode n) w else w)
  end.

(** The walk along the parent's children to the one before [node]; [false] is the early return. *)
Fixpoint unlink_after (fuel : nat) (node : nat) (sib : option nat) (scan : option nat) (w : wstate) : res (bool * wstate) :=
  match scan with
  | None => Ret (true, w)
  | Some s =>
      match fuel with
      | O => Fuel
      | S fuel =>
          sd ← get_node w s;
          match nname sd with
          | None => Ret (false, wlog "Corrupt internal state: node not in parent's child list." w)
          | Some _ =>
              if bool_decide (sibling sd = Some node) then Ret (true, wupd_node s (with_sibling sib) w)
              else unlink_after fuel node sib (sibling sd) w
          end
      end
  end.

Definition dtb_destroy_node (node : option nat) (w : wstate) : res (bool * wstate) :=
  match node with
  | None => Ret (false, w)
  | Some n =>
      nd ← get_node w n;
      '(go, w) ← match parent nd with
        | None => Ret (true, w)
        | Some par =>
            pd ← get_node w par;
            if bool_decide (child pd = Some n) then Ret (true, wupd_node par (with_child (sibling nd)) w)
            else unlink_after (node_fuel w) n (sibling nd) (child pd) w
        end;
      if negb go then Ret (false, w) else
      w ← destroy_dead_node (node_fuel w) n (wupd_node n (with_parent None) w);
      Ret (true, w)
  end.

Fixpoint unlink_prop (fuel : nat) (prop : nat) (nxt : option nat) (scan : option nat) (w : wstate) : res (bool * wstate) :=
  match scan with
  | None => Ret (true, w)
  | Some s =>
      match fuel with
      | O => Fuel
      | S fuel =>
          sd ← get_prop w s;
          if bool_decide (pnext sd = None) then Ret (false, w)
          else if bool_decide (pnext sd = Some prop) then Ret (true, wupd_prop s (with_next nxt) w)
          else unlink_prop fuel prop nxt (pnext sd) w
      end
  end.

Definition dtb_destroy_prop (prop : option nat) (w : wstate) : res (bool * wstate) :=
  match prop with
  | None => Ret (false, w)
  | Some p =>
      pd ← get_prop w p;
      n ← of_opt (pnode pd);
      nd ← get_node w n;
      '(go, w) ← (if bool_decide (props nd = Some p) then Ret (true, wupd_node n (with_props (pnext pd)) w)
                  else unlink_prop (prop_fuel w) p (pnext pd) (props nd) w);
      if negb go then Ret (false, w) else
      let w := if dataFromMalloc pd then wfree (OBytes (pdata pd)) w else w in
      Ret (true, if pfromMalloc pd then wfree (OProp p) w else w)
  end.

(** ** Creating *)

Section create.
Context (fresh_byte : Z) (fresh_node : dtb_node).

Definition malloc_bytes (count : Z) (w : wstate) : option Z * wstate :=
  let '(ok, st) := try_malloc count (tr w) in
  if negb ok then (None, WState (hp w) st (freed w)) else
  (Some (hnext (hp w)),
   WState (MkHeap (blocks (hp w) ++ [(hnext (hp w), replicate (Z.to_nat count) fresh_byte)])
             (hnext (hp w) + count + 1)) st (freed w)).

Definition malloc_node (w : wstate) : option nat * wstate :=
  let '(ok, st) := try_malloc sizeof_dtb_node (tr w) in
  if negb ok then (None, WState (hp w) st (freed w)) else
  (Some (length (node_buff st)),
   WState (hp w) (set_nodes (node_buff st ++ [fresh_node]) (node_alloc_head st) st) (freed w)).

(** All of whose fields [dtb_create_prop] writes. *)
Definition malloc_prop (w : wstate) : option nat * wstate :=
  let '(ok, st) := try_malloc sizeof_dtb_prop (tr w) in
  if negb ok then (None, WState (hp w) st (freed w)) else
  (Some (length (prop_buff st)),
   WState (hp w) (set_props (prop_buff st ++ [prop0]) (prop_alloc_head st) st) (freed w)).

(** The collision check compares [name_len] characters only. *)
Definition same_name (w : wstate) (existing : option Z) (name : cptr) (name_len : Z) : res bool :=
  match name_of w existing with
  | Some s => strings_eq s name (Z.to_nat name_len)
  | None => if name_len =? 0 then Ret true else Undef
  end.
Definition check_sibling_name_collisions (w : wstate) (name : cptr) (name_len : Z) (n : nat) (collision : bool) : res (bool * bool) :=
  nd ← get_node w n;
  e ← same_name w (nname nd) name name_len;
  Ret (if e : bool then (true, true) else (false, collision)).
Definition check_prop_name_collisions (w : wstate) (name : cptr) (name_len : Z) (p : nat) (collision : bool) : res (bool * bool) :=
  pd ← get_prop w p;
  e ← same_name w (Some (pname pd)) name name_len;
  Ret (if e : bool then (true, true) else (false, collision)).

(** Up to the first slash, or all of it. *)
Definition check_len (name : cptr) : res Z :=
  len ← string_len (Some name);
  at_ ← string_find_char (Some name) 47;
  Ret (if at_ <? len then at_ else len).

(** [try_malloc(name_len + 1)] and the copy of the name: the last byte is not written. *)
Definition copy_name (name : cptr) (w : wstate) : res (option Z * wstate) :=
  name_len ← string_len (Some name);
  match malloc_bytes (u64 (name_len + 1)) w with
  | (None, w) => Ret (None, w)
  | (Some name_buf, w) =>
      h ← memcpy (hp w) name_buf (take (Z.to_nat name_len) name);
      Ret (Some name_buf, WState h (tr w) (freed w))
  end.

Definition dtb_create_sibling (node : option nat) (name : option cptr) (w : wstate) : res (option nat * wstate) :=
  match node, name with
  | Some n, Some name =>
      nd ← get_node w n;
      match parent nd with
      | None => Ret (None, w)
      | Some par =>
          name_len ← check_len name;
          pd ← get_node w par;
          collision ← do_foreach_sibling (fun _ => w) (node_fuel w) (check_sibling_name_collisions w name name_len) (child pd) false;
          if collision : bool then Ret (None, wlog "Failed to create node with duplicate name." w) else
          '(name_buf, w) ← copy_name name w;
          match name_buf with
          | None => Ret (None, w)
          | Some _ =>
              match malloc_node w with
              | (None, w) => Ret (None, wlog "Failed to allocate node for sibling." w)
              | (Some s, w) =>
                  nd ← get_node w n;
                  let w := wupd_node s (fun sn => with_sibling (sibling nd) (with_malloc true
                             (with_parent (parent nd) (with_name name_buf sn)))) w in
                  Ret (Some s, wupd_node n (with_sibling (Some s)) w)
              end
          end
      end
  | _, _ => Ret (None, w)
  end.

Definition dtb_create_child (node : option nat) (name : option cptr) (w : wstate) : res (option nat * wstate) :=
  match node, name with
  | Some n, Some name =>
      name_len ← check_len name;
      nd ← get_node w n;
      collision ← do_foreach_sibling (fun _ => w) (node_fuel w) (check_sibling_name_collisions w name name_len) (child nd) false;
      if collision : bool then Ret (None, wlog "Failed to create node with duplicate name." w) else
      '(name_buf, w) ← copy_name name w;
      match name_buf with
      | None => Ret (None, w)
      | Some _ =>
          match malloc_node w with
          | (None, w) => Ret (None, wlog "Failed to allocate node for child." w)
          | (Some c, w) =>
              nd ← get_node w n;
              let w := wupd_node c (fun cn => with_sibling (child nd) (with_malloc true
                         (with_name name_buf (with_parent (Some n) cn)))) w in
              Ret (Some c, wupd_node n (with_child (Some c)) w)
          end
      end
  | _, _ => Ret (None, w)
  end.

Definition dtb_create_prop (node : option nat) (name : option cptr) (w : wstate) : res (option nat * wstate) :=
  match node, name with
  | Some n, Some name =>
      name_len ← string_len (Some name);
      collision ← do_foreach_prop (fun _ => w) n (check_prop_name_collisions w name name_len) false;
      if collision : bool then Ret (None, wlog "Failed to create prop with duplicate name." w) else
      '(name_buf, w) ← copy_name name w;
      match name_buf with
      | None => Ret (None, w)
      | Some nb =>
          match malloc_prop w with
          | (None, w) => Ret (None, wlog "Failed to allocate property" w)
          | (Some p, w) =>
              nd ← get_node w n;
              let w := wupd_prop p (fun _ => Prop_ (Some n) nb 0 (props nd) 0 true false) w in
              Ret (Some p, wupd_node n (with_props (Some p)) w)
          end
      end
  | _, _ => Ret (None, w)
  end.

(** The loop of [dtb_find_or_create_node]; [path] only moves past leading slashes. *)
Fixpoint find_or_create_from (fuel : nat) (scan : option nat) (path : cptr) (w : wstate) : res (option nat * wstate) :=
  match scan with
  | None => Ret (None, w)
  | Some n =>
      match fuel with
      | O => Fuel
      | S fuel =>
          path ← skip_slashes path;
          seg ← string_find_char (Some path) 47;
          seg_len ← (if seg =? NPOS then string_len (Some path) else Ret seg);
          if seg_len =? 0 then Ret (Some n, w) else
          next ← find_child_by (cstr (hp w)) (tr w) n path seg_len;
          '(next, w) ← match next with
                       | Some _ => Ret (next, w)
                       | None => dtb_create_child (Some n) (Some path) w
                       end;
          find_or_create_from fuel next path w
      end
  end.
Definition dtb_find_or_create_node (fuel : nat) (path : option cptr) (w : wstate) : res (option nat * wstate) :=
  match path with None => Ret (None, w) | Some path => find_or_create_from fuel (root (tr w)) path w end.

Definition dtb_find_or_create_prop (node : option nat) (name : option cptr) (w : wstate) : res (option nat * wstate) :=
  match node, name with
  | Some _, Some nm =>
      prop ← find_prop_by (cstr (hp w)) (tr w) node nm;
      match prop with Some _ => Ret (prop, w) | None => dtb_create_prop node name w end
  | _, _ => Ret (None, w)
  end.

(** ** Writing values *)

Definition ensure_prop_has_buffer_for (prop : option nat) (buf_size : Z) (w : wstate) : res (bool * wstate) :=
  match prop with
  | None => Ret (false, w)
  | Some p =>
      pd ← get_prop w p;
      if dataFromMalloc pd && (buf_size <=? plength pd) then Ret (true, w) else
      match malloc_bytes buf_size w with
      | (None, w) => Ret (false, w)
      | (Some new_data, w) =>
          let w := if dataFromMalloc pd then wfree (OBytes (pdata pd)) w else w in
          Ret (true, wupd_prop p (with_data new_data (u32 buf_size)) w)
      end
  end.

(** [memcpy(prop->data, ...)]. *)
Definition store_data (p : nat) (bs : list Z) (w : wstate) : res wstate :=
  pd ← get_prop w p;
  h ← memcpy (hp w) (pdata pd) bs;
  Ret (WState h (tr w) (freed w)).

Definition dtb_write_prop_string (prop : option nat) (str : cptr) (str_len : Z) (w : wstate) : res (bool * wstate) :=
  match prop with
  | None => Ret (false, w)
  | Some p =>
      '(ok, w) ← ensure_prop_has_buffer_for prop str_len w;
      if negb ok then Ret (false, w) else
      if zlen str <? str_len then Undef else
      w ← store_data p (take (Z.to_nat str_len) str) w; Ret (true, w)
  end.

(** A 32-bit store in memory order. *)
Definition le32 (x : Z) : list Z := [x mod 2 ^ 8; x / 2 ^ 8 mod 2 ^ 8; x / 2 ^ 16 mod 2 ^ 8; x / 2 ^ 24 mod 2 ^ 8].

Definition copy_prop_buffer (prop : option nat) (buf_cells : Z) (buf : option (list Z)) (w : wstate) : res (bool * wstate) :=
  match prop, buf with
  | None, _ => Ret (false, w)
  | Some p, _ =>
      if bool_decide (buf = None) && negb (buf_cells =? 0) then Ret (false, w) else
      '(ok, w) ← ensure_prop_has_buffer_for prop (u64 (buf_cells * FDT_CELL_SIZE)) w;
      if negb ok then Ret (false, w) else
      let src := default [] buf in
      if zlen src <? buf_cells then Undef else
      w ← store_data p (flat_map (fun c => le32 (be32 c)) (take (Z.to_nat buf_cells) src)) w;
      Ret (true, w)
  end.

(** [(const uint32_t * )vals]: the cast reads every 64-bit value as two cells, low half first. *)
Definition halves (vals : list Z) : list Z := flat_map (fun v => [v mod 2 ^ 32; v / 2 ^ 32]) vals.

Definition dtb_write_prop_1 (prop : option nat) (count cell_count : Z) (vals : option (list Z)) w :=
  copy_prop_buffer prop (u64 (count * cell_count)) (halves <$> vals) w.
Definition dtb_write_prop_2 (prop : option nat) (count a b : Z) (vals : option (list (Z * Z))) w :=
  copy_prop_buffer prop (u64 (count * u64 (a + b))) ((fun l => halves (flat_map (fun v => [v.1; v.2]) l)) <$> vals) w.
Definition dtb_write_prop_3 (prop : option nat) (count a b c : Z) (vals : option (list (Z * Z * Z))) w :=
  copy_prop_buffer prop (u64 (count * u64 (a + b + c)))
    ((fun l => halves (flat_map (fun v => [v.1.1; v.1.2; v.2]) l)) <$> vals) w.
Definition dtb_write_prop_4 (prop : option nat) (count a b c d : Z) (vals : option (list (Z * Z * Z * Z))) w :=
  copy_prop_buffer prop (u64 (count * u64 (a + b + c + d)))
    ((fun l => halves (flat_map (fun v => [v.1.1.1; v.1.1.2; v.1.2; v.2]) l)) <$> vals) w.
End create.

(** ** Finalising *)

(** The [finalise_data] of the C, and the output buffer the two pointers point into. *)
Record finalise_data := Fin {
  struct_buf : Z; string_buf : Z; struct_ptr : Z; string_ptr : Z;
  struct_buf_size : Z; string_buf_size : Z; print_success : bool; out : list Z }.

Definition fin_sizes a b f := Fin (struct_buf f) (string_buf f) (struct_ptr f) (string_ptr f) a b (print_success f) (out f).
Definition fin_failed f := Fin (struct_buf f) (string_buf f) (struct_ptr f) (string_ptr f) (struct_buf_size f) (string_buf_size f) false (out f).
Definition fin_structs p o f := Fin (struct_buf f) (string_buf f) p (string_ptr f) (struct_buf_size f) (string_buf_size f) (print_success f) o.
Definition fin_strings p o f := Fin (struct_buf f) (string_buf f) (struct_ptr f) p (struct_buf_size f) (string_buf_size f) (print_success f) o.

Section finalise.
Context (w : wstate).

Definition cells_of (len : Z) : Z := dtb_align_up len FDT_CELL_SIZE / FDT_CELL_SIZE.

Definition init_finalise_data_prop (p : nat) (d : finalise_data) : res (bool * finalise_data) :=
  pd ← get_prop w p;
  name_len ← string_len (name_of w (Some (pname pd)));
  Ret (false, fin_sizes (u64 (u64 (struct_buf_size d + 3) + cells_of (plength pd)))
                        (u64 (string_buf_size d + (name_len + 1))) d).

Fixpoint init_finalise_data (fuel : nat) (n : nat) (d : finalise_data) : res (bool * finalise_data) :=
  match fuel with
  | O => Fuel
  | S fuel =>
      nd ← get_node w n;
      name_len ← string_len (name_of w (nname nd));
      let d := fin_sizes (u64 (u64 (struct_buf_size d + 2) + cells_of (name_len + 1))) (string_buf_size d) d in
      d ← do_foreach_prop (fun _ => w) n init_finalise_data_prop d;
      d ← do_foreach_sibling (fun _ => w) (node_fuel w) (init_finalise_data fuel) (child nd) d;
      Ret (false, d)
  end.

(** [data->struct_buf[data->struct_ptr++] = ...], the bytes in memory order. *)
Definition push_cells (bs : list Z) (d : finalise_data) : res finalise_data :=
  o ← put (out d) (struct_buf d + struct_ptr d * 4) bs;
  Ret (fin_structs (struct_ptr d + zlen bs / 4) o d).

Definition print_prop (p : nat) (d : finalise_data) : res (bool * finalise_data) :=
  pd ← get_prop w p;
  let name_offset := u32 (string_ptr d) in
  name_len ← string_len (name_of w (Some (pname pd)));
  if string_buf_size d <? u64 (string_ptr d + name_len + 1) then Ret (true, fin_failed d) else
  o ← put (out d) (string_buf d + string_ptr d) (take (Z.to_nat name_len) (cstr (hp w) (pname pd)));
  o ← put o (string_buf d + string_ptr d + name_len) [0];
  let d := fin_strings (string_ptr d + (name_len + 1)) o d in
  let data_cells := cells_of (plength pd) in
  if struct_buf_size d <? u64 (struct_ptr d + 3 + data_cells) then Ret (true, fin_failed d) else
  d ← push_cells (le32 (be32 FDT_PROP)) d;
  d ← push_cells (le32 (be32 (plength pd))) d;
  d ← push_cells (le32 (be32 name_offset)) d;
  value ← bytes_at (hp w) (pdata pd) (data_cells * 4);
  d ← push_cells value d;
  Ret (false, d).

Fixpoint print_node (fuel : nat) (n : nat) (d : finalise_data) : res (bool * finalise_data) :=
  match fuel with
  | O => Fuel
  | S fuel =>
      nd ← get_node w n;
      name_len ← string_len (name_of w (nname nd));
      let name_cells := cells_of (name_len + 1) in
      if struct_buf_size d <? u64 (struct_ptr d + 1 + name_cells) then Ret (true, fin_failed d) else
      d ← push_cells (le32 (be32 FDT_BEGIN_NODE)) d;
      let name_buf := struct_buf d + struct_ptr d * 4 in
      o ← put (out d) name_buf (take (Z.to_nat name_len) (default [] (name_of w (nname nd))));
      o ← put o (name_buf + name_len) [0];
      let d := fin_structs (struct_ptr d + name_cells) o d in
      d ← do_foreach_prop (fun _ => w) n print_prop d;
      if negb (print_success d) then Ret (true, d) else
      d ← do_foreach_sibling (fun _ => w) (node_fuel w) (print_node fuel) (child nd) d;
      if negb (print_success d) then Ret (true, d) else
      if struct_buf_size d <? u64 (struct_ptr d + 1) then Ret (true, fin_failed d) else
      d ← push_cells (le32 (be32 FDT_END_NODE)) d;
      Ret (false, d)
  end.

Definition FDT_VERSION : Z := 17.
Definition sizeof_fdt_header : Z := 40.
Definition SMOLDTB_FINALISE_FAILURE : Z := 2 ^ 64 - 1.

(** Stores in order, each a list of bytes at an offset of the buffer. *)
Fixpoint puts (l : list (Z * list Z)) (o : list Z) : res (list Z) :=
  match l with [] => Ret o | (off, bs) :: l => o ← put o off bs; puts l o end.

(** A big-endian 64-bit store. *)
Definition le64 (x : Z) : list Z := le32 (x mod 2 ^ 32) ++ le32 (x / 2 ^ 32).

Definition header_words (total_bytes offset_structs offset_strings boot_cpu_id size_strings size_structs : Z) : list (Z * list Z) :=
  [ (0, le32 (be32 FDT_MAGIC)); (4, le32 (be32 (u32 total_bytes)));
    (8, le32 (be32 offset_structs)); (12, le32 (be32 offset_strings)); (16, le32 (be32 sizeof_fdt_header));
    (20, le32 (be32 FDT_VERSION)); (24, le32 (be32 16)); (28, le32 (be32 boot_cpu_id));
    (32, le32 (be32 (u32 size_strings))); (36, le32 (be32 (u32 size_structs))) ].

Fixpoint reserved_words (off : Z) (resv : list (Z * Z)) : list (Z * list Z) :=
  match resv with
  | [] => [ (off, le64 0); (off + 8, le64 0) ]
  | r :: resv => (off, le64 (be64 r.1)) :: (off + 8, le64 (be64 r.2)) :: reserved_words (off + 16) resv
  end.

(** [buffer]: its address and contents; [buffer_size] is what the caller says it is. *)
Definition dtb_finalise_to_buffer (buffer : option (Z * list Z)) (buffer_size boot_cpu_id : Z) (resv : list (Z * Z))
    : res (Z * option (list Z)) :=
  let out_of := snd <$> buffer in
  d ← do_foreach_sibling (fun _ => w) (node_fuel w) (init_finalise_data (node_fuel w)) (root (tr w)) (Fin 0 0 0 0 0 1 true []);
  let reserved_block_size := u64 ((zlen resv + 1) * 16) in
  let struct_buf_bytes := u64 (struct_buf_size d * FDT_CELL_SIZE) in
  let total_bytes := u64 (string_buf_size d + struct_buf_bytes + sizeof_fdt_header + reserved_block_size) in
  match buffer with
  | None => Ret (total_bytes, None)
  | Some (addr, o) =>
      if total_bytes <? buffer_size then Ret (total_bytes, Some o) else
      if negb ((addr .& 3) =? 0) then Ret (SMOLDTB_FINALISE_FAILURE, Some o) else
      let offset_structs := sizeof_fdt_header + 16 in
      let offset_strings := u32 (offset_structs + struct_buf_bytes) in
      o ← puts (header_words total_bytes offset_structs offset_strings boot_cpu_id (string_buf_size d) struct_buf_bytes) o;
      o ← puts (reserved_words sizeof_fdt_header resv) o;
      o ← put o offset_strings [0];
      d ← do_foreach_sibling (fun _ => w) (node_fuel w) (print_node (node_fuel w)) (root (tr w))
            (Fin offset_structs offset_strings 0 1 (struct_buf_size d) (string_buf_size d) true o);
      Ret (if print_success d then total_bytes else SMOLDTB_FINALISE_FAILURE, Some (out d))
  end.
End finalise.
