(* ===== verification/DtbWriteProofs.v ===== *)
(** * Editing and flattening device trees: proofs

    [shape]: the linked nodes and properties of a write-mode state are a given tree, whose
    nodes carry their indices.  On top of it the output of [dtb_finalise_to_buffer], byte for
    byte, what the parser of [Dtb] makes of it, and what the editing operations do. *)
From Stdlib Require Import String.
From S2P Require Import Prelude Dtb DtbTree DtbQuery DtbCompat DtbWrite.

#[local] Open Scope list_scope.
#[local] Abbreviation length := List.length.
#[local] Set Warnings "-register-all".

(** ** Trees in memory *)

(** A node: its index, name, properties (index, name, value) and sub-nodes, in list order. *)
Inductive wtree := WT (a : nat) (nm : list Z) (ps : list (nat * list Z * list Z)) (ks : list wtree).
Definition waddr (t : wtree) : nat := match t with WT a _ _ _ => a end.

Lemma wtree_ind' (P : wtree -> Prop) :
  (forall a nm ps ks, Forall P ks -> P (WT a nm ps ks)) -> forall t, P t.
Proof.
  intros H. fix IH 1. intros [a nm ps ks]. apply H. induction ks as [|k ks IHk]; constructor; [apply IH|exact IHk].
Qed.

Definition name_in (h : heap) (nn : option Z) (nm : list Z) : Prop :=
  match nn with None => nm = [] | Some p => nonul nm /\ exists r, cstr h p = nm ++ 0 :: r end.

(** A value lies in memory with the zeros that fill its last cell. *)
Definition value_in (h : heap) (p : Z) (v : list Z) : Prop := exists r, cstr h p = pad4 v ++ r.

Fixpoint prop_list (w : wstate) (n : nat) (ptr : option nat) (ps : list (nat * list Z * list Z)) : Prop :=
  match ps with
  | [] => ptr = None
  | x :: ps => ptr = Some x.1.1 /\ exists pd, get_prop w x.1.1 = Ret pd /\ pnode pd = Some n /\
      name_in (hp w) (Some (pname pd)) x.1.2 /\ plength pd = zlen x.2 /\ value_in (hp w) (pdata pd) x.2 /\
      prop_list w n (pnext pd) ps
  end.

Inductive shape (w : wstate) : option nat -> wtree -> Prop :=
| shape_node par a nd nm ps ks :
    get_node w a = Ret nd -> parent nd = par -> name_in (hp w) (nname nd) nm ->
    prop_list w a (props nd) ps -> forest w (Some a) (child nd) ks -> shape w par (WT a nm ps ks)
with forest (w : wstate) : option nat -> option nat -> list wtree -> Prop :=
| forest_nil par : forest w par None []
| forest_cons par t td ts :
    shape w par t -> get_node w (waddr t) = Ret td -> forest w par (sibling td) ts ->
    forest w par (Some (waddr t)) (t :: ts).

Scheme shape_ind2 := Induction for shape Sort Prop with forest_ind2 := Induction for forest Sort Prop.
Combined Scheme shape_forest_ind from shape_ind2, forest_ind2.

(** ** The file a tree is written to *)

(** Property names, in the order they are written. *)
Fixpoint names (t : wtree) : list Z :=
  match t with WT _ _ ps ks => flat_map (fun x => x.1.2 ++ [0]) ps ++ flat_map names ks end.

Fixpoint prop_items (off : Z) (ps : list (nat * list Z * list Z)) : list item :=
  match ps with [] => [] | x :: ps => IProp off x.1.2 x.2 :: prop_items (off + zlen x.1.2 + 1) ps end.

(** The tree in the file, its property names from offset [off] of the strings block on. *)
Fixpoint file (off : Z) (t : wtree) : tree :=
  match t with
  | WT _ nm ps ks =>
      Tree nm (prop_items off ps ++
        (fix go off ks := match ks with [] => [] | k :: ks => INode (file off k) :: go (off + zlen (names k)) ks end)
          (off + zlen (flat_map (fun x => x.1.2 ++ [0]) ps)) ks)
  end.
Fixpoint kid_items (off : Z) (ks : list wtree) : list item :=
  match ks with [] => [] | k :: ks => INode (file off k) :: kid_items (off + zlen (names k)) ks end.
Definition prop_names (ps : list (nat * list Z * list Z)) : list Z := flat_map (fun x => x.1.2 ++ [0]) ps.

Lemma file_eq off a nm ps ks :
  file off (WT a nm ps ks) = Tree nm (prop_items off ps ++ kid_items (off + zlen (prop_names ps)) ks).
Proof. done. Qed.
Lemma names_eq a nm ps ks : names (WT a nm ps ks) = prop_names ps ++ flat_map names ks.
Proof. done. Qed.

(** Sizes do not depend on the offset. *)
Definition psize (x : nat * list Z * list Z) : Z := 3 + (zlen x.2 + 3) / 4.
Lemma prop_items_size off ps : sum_map isize (prop_items off ps) = sum_map psize ps.
Proof. revert off. induction ps as [|x ps IH]; intros off; cbn; [done|]. by rewrite IH. Qed.

Lemma sum_map_app {A} (f : A -> Z) a b : sum_map f (a ++ b) = sum_map f a + sum_map f b.
Proof. induction a as [|x a IH]; cbn; [done|]. rewrite IH. lia. Qed.

Definition wsize (t : wtree) : Z := csize (file 0 t).

Lemma file_size off t : csize (file off t) = wsize t.
Proof.
  unfold wsize. revert off. induction t as [a nm ps ks IH] using wtree_ind'. intros off.
  rewrite !file_eq, !csize_eq, !sum_map_app, !prop_items_size.
  enough (forall o o', sum_map isize (kid_items o ks) = sum_map isize (kid_items o' ks)) as E; [by do 2 f_equal; apply E|].
  induction IH as [|k ks Hk _ IHk]; intros o o'; cbn; [done|].
  by rewrite (Hk o), (Hk o'), (IHk (o + zlen (names k)) (o' + zlen (names k))).
Qed.

Lemma kid_items_size off ks : sum_map isize (kid_items off ks) = sum_map wsize ks.
Proof. revert off. induction ks as [|k ks IH]; intros off; cbn; [done|]. by rewrite IH, file_size. Qed.

Lemma wsize_eq a nm ps ks : wsize (WT a nm ps ks) = 2 + (zlen nm + 4) / 4 + (sum_map psize ps + sum_map wsize ks).
Proof. unfold wsize at 1. by rewrite file_eq, csize_eq, sum_map_app, prop_items_size, kid_items_size. Qed.

Lemma wsize_pos t : 3 <= wsize t.
Proof. apply csize_pos. Qed.
Lemma psize_pos x : 3 <= psize x.
Proof. unfold psize. pose proof (zlen_nonneg x.2). assert (0 <= (zlen x.2 + 3) / 4) by (apply Z.div_pos; lia). lia. Qed.

Lemma sums_nonneg ps ks : 0 <= sum_map psize ps /\ 0 <= sum_map wsize ks.
Proof.
  split; apply sum_map_nonneg; [intros x; pose proof (psize_pos x); lia|intros t; pose proof (wsize_pos t); lia].
Qed.

(** ** Measuring *)

Lemma name_len w nn nm : name_in (hp w) nn nm -> string_len (name_of w nn) = Ret (zlen nm).
Proof.
  destruct nn as [p|]; cbn; [|by intros ->]. intros [Hn [r ->]]. by rewrite strlen_app.
Qed.

Lemma cells_of_eq n : 0 <= n < 2 ^ 60 -> cells_of n = (n + 3) / 4.
Proof. apply align_cells. Qed.

(** Indices of the nodes, and the lists of properties. *)
Fixpoint addrs (t : wtree) : list nat := match t with WT a _ _ ks => a :: flat_map addrs ks end.
Fixpoint plists (t : wtree) : list (list (nat * list Z * list Z)) := match t with WT _ _ ps ks => ps :: flat_map plists ks end.

(** No more nodes than there are, and no longer property list than there are properties. *)
Definition fits_lists (w : wstate) (na : list nat) (pl : list (list (nat * list Z * list Z))) : Prop :=
  (length na <= length (node_buff (tr w)))%nat /\ Forall (fun ps => length ps <= length (prop_buff (tr w)))%nat pl.

Section measure.
Context (w : wstate).

Lemma measure_props n ps : forall ptr fuel d,
  prop_list w n ptr ps -> (length ps < fuel)%nat ->
  0 <= struct_buf_size d -> struct_buf_size d + sum_map psize ps < 2 ^ 32 ->
  0 <= string_buf_size d -> string_buf_size d + zlen (prop_names ps) < 2 ^ 32 ->
  foreach_prop_from (fun _ => w) fuel (init_finalise_data_prop w) ptr d =
    Ret (fin_sizes (struct_buf_size d + sum_map psize ps) (string_buf_size d + zlen (prop_names ps)) d).
Proof.
  induction ps as [|x ps IH]; intros ptr fuel d Hp Hf Hs0 Hs Ht0 Ht.
  - cbn in Hp. subst. cbn. rewrite !Z.add_0_r. destruct d, fuel; done.
  - destruct Hp as (-> & pd & Hpd & _ & Hnm & Hlen & _ & Hrest). destruct fuel as [|fuel]; [cbn in Hf; lia|].
    cbn [foreach_prop_from]. unfold init_finalise_data_prop. rewrite Hpd. cbn -[string_len Z.pow cells_of].
    pose proof (name_len w (Some (pname pd)) _ Hnm) as Hl. cbn -[string_len] in Hl. rewrite Hl. cbn -[Z.pow cells_of].
    cbn [sum_map prop_names flat_map] in Hs, Ht. unfold prop_names in IH. rewrite !zlen_app in Ht. change (zlen [0]) with 1 in Ht.
    pose proof (proj1 (sums_nonneg ps [])). pose proof (zlen_nonneg x.1.2). pose proof (zlen_nonneg x.2).
    pose proof (zlen_nonneg (flat_map (fun x => x.1.2 ++ [0]) ps)).
    assert (psize x = 3 + (zlen x.2 + 3) / 4) as Hx by done.
    rewrite Hlen, cells_of_eq by (Z.div_mod_to_equations; lia).
    rewrite (wrap_small 64 (struct_buf_size d + 3)) by (unfold fits; Z.div_mod_to_equations; lia).
    rewrite !wrap_small by (unfold fits; Z.div_mod_to_equations; lia). rewrite IH; [|done|cbn in *; Z.div_mod_to_equations; lia..].
    cbn [sum_map prop_names flat_map]. unfold fin_sizes, prop_names. cbn. rewrite !zlen_app. change (zlen [0]) with 1. do 2 f_equal; lia.
Qed.

Lemma measure :
  (forall par t, shape w par t -> forall fuel d,
     fits_lists w (addrs t) (plists t) -> (length (addrs t) <= fuel)%nat ->
     0 <= struct_buf_size d -> struct_buf_size d + wsize t < 2 ^ 32 ->
     0 <= string_buf_size d -> string_buf_size d + zlen (names t) < 2 ^ 32 ->
     init_finalise_data w fuel (waddr t) d =
       Ret (false, fin_sizes (struct_buf_size d + wsize t) (string_buf_size d + zlen (names t)) d)) /\
  (forall par ptr ts, forest w par ptr ts -> forall k fuel d,
     fits_lists w (flat_map addrs ts) (flat_map plists ts) ->
     (length (flat_map addrs ts) <= fuel)%nat -> (length (flat_map addrs ts) <= k)%nat ->
     0 <= struct_buf_size d -> struct_buf_size d + sum_map wsize ts < 2 ^ 32 ->
     0 <= string_buf_size d -> string_buf_size d + zlen (flat_map names ts) < 2 ^ 32 ->
     do_foreach_sibling (fun _ => w) k (init_finalise_data w fuel) ptr d =
       Ret (fin_sizes (struct_buf_size d + sum_map wsize ts) (string_buf_size d + zlen (flat_map names ts)) d)).
Proof.
  apply shape_forest_ind.
  - intros par a nd nm ps ks Hnd _ Hnm Hps _ IH fuel d [Hfn Hfp] Hf Hs0 Hs Ht0 Ht.
    destruct fuel as [|fuel]; [cbn in Hf; lia|]. cbn [init_finalise_data waddr]. rewrite Hnd. cbn [mbind res_bind].
    rewrite (name_len _ _ _ Hnm). cbn [mbind res_bind fin_sizes struct_buf_size string_buf_size].
    rewrite wsize_eq, names_eq, zlen_app in *. cbn [addrs plists length] in *. apply Forall_cons_1 in Hfp as [Hfp Hfpk].
    pose proof (zlen_nonneg nm). pose proof (zlen_nonneg (prop_names ps)). pose proof (zlen_nonneg (flat_map names ks)).
    destruct (sums_nonneg ps ks) as [Hp0 Hk0].
    rewrite cells_of_eq by (Z.div_mod_to_equations; lia).
    replace (zlen nm + 1 + 3) with (zlen nm + 4) by lia.
    rewrite (wrap_small 64 (struct_buf_size d + 2)) by (unfold fits; Z.div_mod_to_equations; lia).
    rewrite !wrap_small by (unfold fits; Z.div_mod_to_equations; lia).
    unfold do_foreach_prop. rewrite Hnd. cbn [mbind res_bind].
    rewrite (measure_props a ps) by (first [done | unfold prop_fuel; lia | cbn; Z.div_mod_to_equations; lia]).
    cbn [mbind res_bind]. rewrite IH; cbn [fin_sizes struct_buf_size string_buf_size];
      [|split; [lia|done]|lia|unfold node_fuel; lia|Z.div_mod_to_equations; lia|Z.div_mod_to_equations; lia|lia|lia].
    unfold fin_sizes. cbn [mbind res_bind struct_buf_size string_buf_size struct_buf string_buf struct_ptr string_ptr print_success out].
    do 3 f_equal; lia.
  - intros par k fuel d _ _ _ _ _ _ _. destruct k; cbn; rewrite !Z.add_0_r; by destruct d.
  - intros par t td ts Ht IHt Htd _ IHf k fuel d [Hfn Hfp] Hf Hk Hs0 Hs Hg0 Hg.
    cbn [flat_map sum_map] in *. rewrite !length_app, !zlen_app in *. apply Forall_app in Hfp as [Hfpt Hfps].
    assert (1 <= length (addrs t))%nat by (destruct t; cbn; lia).
    pose proof (wsize_pos t). pose proof (proj2 (sums_nonneg [] ts)).
    pose proof (zlen_nonneg (names t)). pose proof (zlen_nonneg (flat_map names ts)).
    destruct k as [|k]; [lia|]. cbn [do_foreach_sibling]. rewrite IHt by (first [split; [lia|done]|lia]).
    cbn -[Z.pow Z.add do_foreach_sibling]. rewrite Htd. cbn -[Z.pow Z.add do_foreach_sibling].
    rewrite IHf; cbn [fin_sizes struct_buf_size string_buf_size]; [|split; [lia|done]|lia..].
    unfold fin_sizes. cbn [mbind res_bind struct_buf_size string_buf_size struct_buf string_buf struct_ptr string_ptr print_success out].
    do 2 f_equal; lia.
Qed.
End measure.

(** ** The buffer while it is written *)

Definition zeros (n : Z) : list Z := replicate (Z.to_nat n) 0.
Lemma zlen_zeros n : 0 <= n -> zlen (zeros n) = n.
Proof. intros. unfold zlen, zeros. rewrite length_replicate. lia. Qed.
Lemma zeros_add a b : 0 <= a -> 0 <= b -> zeros (a + b) = zeros a ++ zeros b.
Proof. intros. unfold zeros. rewrite Z2Nat.inj_add by lia. apply replicate_add. Qed.
Lemma pad4_zeros l : pad4 l = l ++ zeros (- zlen l mod 4).
Proof. done. Qed.

(** [pre], then [4 * N] bytes of structure block beginning with [S], then [G] bytes of strings
    beginning with [T]; the rest is zero. *)
Definition layout (pre S : list Z) (N : Z) (T : list Z) (G : Z) : list Z :=
  pre ++ S ++ zeros (4 * N - zlen S) ++ T ++ zeros (G - zlen T).

Lemma put_mid a b c bs : zlen b = zlen bs -> put (a ++ b ++ c) (zlen a) bs = Ret (a ++ bs ++ c).
Proof.
  intros E. unfold put. pose proof (zlen_nonneg a). pose proof (zlen_nonneg c).
  rewrite !zlen_app. destruct (Z.leb_spec 0 (zlen a)); [|lia].
  destruct (Z.leb_spec (zlen a + zlen bs) (zlen a + (zlen b + zlen c))); [|lia]. cbn [andb].
  unfold zlen in *. rewrite Nat2Z.id, take_app_length. do 3 f_equal.
  rewrite app_assoc, drop_app_length' by (rewrite length_app; lia). done.
Qed.

Lemma put_structs pre S N T G bs : zlen S + zlen bs <= 4 * N ->
  put (layout pre S N T G) (zlen pre + zlen S) bs = Ret (layout pre (S ++ bs) N T G).
Proof.
  intros H. pose proof (zlen_nonneg bs). unfold layout.
  replace (4 * N - zlen S) with (zlen bs + (4 * N - zlen (S ++ bs))) by (rewrite zlen_app; lia).
  rewrite zeros_add by (rewrite ?zlen_app; lia). rewrite <-!app_assoc, (app_assoc pre S), <-zlen_app.
  rewrite put_mid by (apply zlen_zeros; lia). by rewrite <-!app_assoc.
Qed.

Lemma put_strings pre S N T G bs : zlen S <= 4 * N -> zlen T + zlen bs <= G ->
  put (layout pre S N T G) (zlen pre + 4 * N + zlen T) bs = Ret (layout pre S N (T ++ bs) G).
Proof.
  intros HS H. pose proof (zlen_nonneg bs). unfold layout.
  replace (G - zlen T) with (zlen bs + (G - zlen (T ++ bs))) by (rewrite zlen_app; lia).
  rewrite zeros_add by (rewrite ?zlen_app; lia). set (z := zeros (4 * N - zlen S)).
  assert (zlen z = 4 * N - zlen S) as Hz by (apply zlen_zeros; lia).
  replace (pre ++ S ++ z ++ T ++ zeros (zlen bs) ++ zeros (G - zlen (T ++ bs)))
    with ((pre ++ S ++ z ++ T) ++ zeros (zlen bs) ++ zeros (G - zlen (T ++ bs))) by (by rewrite <-!app_assoc).
  replace (zlen pre + 4 * N + zlen T) with (zlen (pre ++ S ++ z ++ T)) by (rewrite !zlen_app; lia).
  rewrite put_mid by (apply zlen_zeros; lia). by rewrite <-!app_assoc.
Qed.

(** Zeros that are already there need not be written. *)
Lemma layout_pad pre S N T G k : 0 <= k -> zlen S + k <= 4 * N ->
  layout pre (S ++ zeros k) N T G = layout pre S N T G.
Proof.
  intros Hk H. unfold layout. rewrite zlen_app, zlen_zeros by done.
  replace (4 * N - zlen S) with (k + (4 * N - (zlen S + k))) by lia. rewrite zeros_add by lia.
  by rewrite <-!app_assoc.
Qed.

(** The state of the writer with [S] and [T] written. *)
Definition writing (pre S : list Z) (N : Z) (T : list Z) (G : Z) : finalise_data :=
  Fin (zlen pre) (zlen pre + 4 * N) (zlen S / 4) (zlen T) N G true (layout pre S N T G).

Definition cellwise (l : list Z) : Prop := zlen l mod 4 = 0.

Lemma push_cells_ok pre S N T G bs : cellwise S -> cellwise bs -> zlen S + zlen bs <= 4 * N ->
  push_cells bs (writing pre S N T G) = Ret (writing pre (S ++ bs) N T G).
Proof.
  unfold cellwise. intros HS Hb H. unfold push_cells. cbn [struct_buf struct_ptr out writing].
  replace (zlen pre + zlen S / 4 * 4) with (zlen pre + zlen S) by (Z.div_mod_to_equations; lia).
  rewrite put_structs by done. cbn [mbind res_bind]. unfold writing, fin_structs. cbn.
  rewrite zlen_app. f_equal. f_equal. Z.div_mod_to_equations; lia.
Qed.

Lemma le32_bytes a b c d : 0 <= a < 256 -> 0 <= b < 256 -> 0 <= c < 256 -> 0 <= d < 256 ->
  le32 (a * 2 ^ 24 + b * 2 ^ 16 + c * 2 ^ 8 + d) = [d; c; b; a].
Proof. intros. unfold le32. repeat f_equal; Z.div_mod_to_equations; lia. Qed.

Lemma le32_be32 x : fits 32 x -> le32 (be32 x) = be_bytes x.
Proof.
  intros Hx. unfold fits in Hx.
  pose proof (be32_bytes (x mod 2 ^ 8) (x / 2 ^ 8 mod 2 ^ 8) (x / 2 ^ 16 mod 2 ^ 8) (x / 2 ^ 24)
    ltac:(apply Z.mod_pos_bound; lia) ltac:(apply Z.mod_pos_bound; lia) ltac:(apply Z.mod_pos_bound; lia)
    ltac:(Z.div_mod_to_equations; lia)) as E.
  replace (x mod 2 ^ 8 + x / 2 ^ 8 mod 2 ^ 8 * 2 ^ 8 + x / 2 ^ 16 mod 2 ^ 8 * 2 ^ 16 + x / 2 ^ 24 * 2 ^ 24) with x in E
    by (Z.div_mod_to_equations; lia).
  rewrite E. unfold be_bytes. apply le32_bytes; try (apply Z.mod_pos_bound; lia). Z.div_mod_to_equations; lia.
Qed.

Lemma bytes_at_ok h p bs r : cstr h p = bs ++ r -> bytes_at h p (zlen bs) = Ret bs.
Proof.
  intros E. unfold bytes_at. rewrite E, zlen_app. pose proof (zlen_nonneg r).
  destruct (Z.leb_spec (zlen bs) (zlen bs + zlen r)); [|lia]. unfold zlen. by rewrite Nat2Z.id, take_app_length.
Qed.

(** ** Printing *)

Definition psizes (ps : list (nat * list Z * list Z)) : Z := sum_map psize ps.

Lemma cellwise_app a b : cellwise a -> cellwise b -> cellwise (a ++ b).
Proof. unfold cellwise. rewrite zlen_app. intros. Z.div_mod_to_equations; lia. Qed.
Lemma cellwise_be x : cellwise (be_bytes x).
Proof. done. Qed.
Lemma cellwise_pad4 l : cellwise (pad4 l).
Proof. unfold cellwise. rewrite zlen_pad4. apply Z.mod_mul. lia. Qed.
Lemma cellwise_item it : cellwise (enc_item it).
Proof. unfold cellwise. rewrite zlen_enc_item, Z.mul_comm. by apply Z.mod_mul. Qed.
Lemma cellwise_items its : cellwise (flat_map enc_item its).
Proof. induction its as [|it its IH]; [done|]. cbn. apply cellwise_app; [apply cellwise_item|done]. Qed.
Lemma zlen_items its : zlen (flat_map enc_item its) = 4 * sum_map isize its.
Proof. induction its as [|it its IH]; [done|]. cbn. rewrite zlen_app, IH, zlen_enc_item. lia. Qed.
#[local] Hint Resolve cellwise_app cellwise_be cellwise_pad4 cellwise_item cellwise_items : core.

(** All properties of a tree. *)
Fixpoint wprops (t : wtree) : list (nat * list Z * list Z) := match t with WT _ _ ps ks => ps ++ flat_map wprops ks end.

(** Values whose length a cell can hold. *)
Definition vals_ok (ps : list (nat * list Z * list Z)) : Prop := Forall (fun x => fits 32 (zlen x.2)) ps.

Section print.
Context (w : wstate) (pre : list Z) (N G : Z).
Hypothesis HN : N < 2 ^ 32.
Hypothesis HG : G < 2 ^ 32.

(** One property, its name at the current end of the strings. *)
Lemma print_prop_ok n x ptr ps S T : prop_list w n ptr (x :: ps) -> fits 32 (zlen x.2) -> cellwise S ->
  zlen S + 4 * psize x <= 4 * N -> zlen T + (zlen x.1.2 + 1) <= G ->
  print_prop w x.1.1 (writing pre S N T G) =
    Ret (false, writing pre (S ++ enc_item (IProp (zlen T) x.1.2 x.2)) N (T ++ x.1.2 ++ [0]) G).
Proof.
  intros (-> & pd & Hpd & _ & Hnm & Hlen & [r Hv] & _) Hfv HS HsN HtG.
  pose proof (zlen_nonneg S). pose proof (zlen_nonneg T). pose proof (zlen_nonneg x.1.2). pose proof (zlen_nonneg x.2).
  pose proof (psize_pos x). unfold psize in *. unfold print_prop. rewrite Hpd. cbn [mbind res_bind].
  rewrite (name_len w (Some (pname pd)) _ Hnm). cbn [mbind res_bind string_ptr string_buf_size writing].
  rewrite (wrap_small 32 (zlen T)), (wrap_small 64 (zlen T + zlen x.1.2 + 1)) by (unfold fits; lia).
  destruct (Z.ltb_spec G (zlen T + zlen x.1.2 + 1)); [lia|].
  destruct Hnm as [_ [r' Hnm]]. rewrite Hnm.
  replace (Z.to_nat (zlen x.1.2)) with (length x.1.2) by (unfold zlen; lia). rewrite take_app_length.
  cbn [string_buf out writing]. rewrite put_strings by lia. cbn [mbind res_bind].
  replace (zlen pre + 4 * N + zlen T + zlen x.1.2) with (zlen pre + 4 * N + zlen (T ++ x.1.2)) by (rewrite zlen_app; lia).
  rewrite put_strings by (rewrite ?zlen_app, ?zlen1; lia). cbn [mbind res_bind].
  replace (fin_strings (zlen T + (zlen x.1.2 + 1)) (layout pre S N ((T ++ x.1.2) ++ [0]) G) (writing pre S N T G))
    with (writing pre S N (T ++ x.1.2 ++ [0]) G)
    by (unfold writing, fin_strings; cbn; rewrite <-app_assoc, !zlen_app, zlen1; done).
  rewrite Hlen. unfold fits in Hfv. rewrite cells_of_eq by lia.
  set (T' := T ++ x.1.2 ++ [0]). cbn [struct_buf_size struct_ptr writing].
  rewrite wrap_small by (unfold fits; Z.div_mod_to_equations; lia).
  destruct (Z.ltb_spec N (zlen S / 4 + 3 + (zlen x.2 + 3) / 4)); [Z.div_mod_to_equations; lia|].
  rewrite !le32_be32 by (unfold fits, FDT_PROP; lia).
  replace ((zlen x.2 + 3) / 4 * 4) with (zlen (pad4 x.2)) in * by apply zlen_pad4.
  assert (zlen (pad4 x.2) = 4 * ((zlen x.2 + 3) / 4)) as Hpad by (rewrite zlen_pad4; lia).
  rewrite !push_cells_ok by (rewrite ?zlen_app, ?zlen_be_bytes; auto; lia). cbn [mbind res_bind].
  rewrite push_cells_ok by (rewrite ?zlen_app, ?zlen_be_bytes; auto; lia). cbn [mbind res_bind].
  rewrite push_cells_ok by (rewrite ?zlen_app, ?zlen_be_bytes; auto; lia). cbn [mbind res_bind].
  rewrite (bytes_at_ok _ _ _ _ Hv). cbn [mbind res_bind].
  rewrite push_cells_ok by (rewrite ?zlen_app, ?zlen_be_bytes; auto; lia). cbn [mbind res_bind].
  cbn [enc_item]. by rewrite <-!app_assoc.
Qed.

Lemma print_props n ps : forall ptr fuel S T,
  prop_list w n ptr ps -> vals_ok ps -> (length ps < fuel)%nat -> cellwise S ->
  zlen S + 4 * sum_map psize ps <= 4 * N -> zlen T + zlen (prop_names ps) <= G ->
  foreach_prop_from (fun _ => w) fuel (print_prop w) ptr (writing pre S N T G) =
    Ret (writing pre (S ++ flat_map enc_item (prop_items (zlen T) ps)) N (T ++ prop_names ps) G).
Proof.
  induction ps as [|x ps IH]; intros ptr fuel S T Hp Hv Hf HS HsN HtG.
  - cbn in Hp. subst. cbn. rewrite !app_nil_r. by destruct fuel.
  - inversion Hv as [|? ? Hx Hv']; subst. pose proof Hp as (-> & pd & Hpd & _ & _ & _ & _ & Hrest).
    destruct fuel as [|fuel]; [cbn in Hf; lia|]. cbn [sum_map prop_names flat_map] in HsN, HtG.
    pose proof (proj1 (sums_nonneg ps [])). pose proof (psize_pos x).
    pose proof (zlen_nonneg (flat_map (fun x => x.1.2 ++ [0]) ps)). rewrite !zlen_app, zlen1 in HtG.
    cbn [foreach_prop_from]. rewrite (print_prop_ok n x _ ps) by (done || lia). cbn [mbind res_bind]. rewrite Hpd. cbn [mbind res_bind].
    rewrite IH; [|done|done|cbn in Hf; lia|by auto| |].
    + cbn [prop_items flat_map prop_names]. rewrite !zlen_app, zlen1, <-!app_assoc.
      by replace (zlen T + (zlen x.1.2 + 1)) with (zlen T + zlen x.1.2 + 1) by lia.
    + rewrite zlen_app, zlen_enc_item. cbn [isize]. fold (psize x). unfold psize in *. lia.
    + rewrite !zlen_app, zlen1. unfold prop_names. lia.
Qed.

(** The name of a node: written, terminated, and padded by the zeros the buffer has. *)
Lemma open_name nn nm S T : name_in (hp w) nn nm -> cellwise S -> zlen S + 4 * ((zlen nm + 4) / 4) <= 4 * N ->
  exists o o', put (layout pre S N T G) (zlen pre + zlen S / 4 * 4) (take (Z.to_nat (zlen nm)) (default [] (name_of w nn))) = Ret o /\
    put o (zlen pre + zlen S / 4 * 4 + zlen nm) [0] = Ret o' /\
    fin_structs (zlen S / 4 + (zlen nm + 4) / 4) o' (writing pre S N T G) = writing pre (S ++ pad4 (nm ++ [0])) N T G.
Proof.
  intros Hnm HS HsN. pose proof (zlen_nonneg nm). unfold cellwise in HS.
  assert (take (Z.to_nat (zlen nm)) (default [] (name_of w nn)) = nm) as ->.
  { unfold zlen. rewrite Nat2Z.id. destruct nn as [p|]; cbn in *; [|subst; done].
    destruct Hnm as [_ [r ->]]. apply take_app_length. }
  replace (zlen S / 4 * 4) with (zlen S) by (Z.div_mod_to_equations; lia).
  rewrite put_structs by (Z.div_mod_to_equations; lia). eexists _, _. split; [reflexivity|].
  replace (zlen pre + zlen S + zlen nm) with (zlen pre + zlen (S ++ nm)) by (rewrite zlen_app; lia).
  rewrite put_structs by (rewrite zlen_app, zlen1; Z.div_mod_to_equations; lia). split; [reflexivity|].
  rewrite <-app_assoc. unfold fin_structs, writing. cbn [struct_buf string_buf struct_ptr string_ptr struct_buf_size string_buf_size print_success].
  assert (zlen (pad4 (nm ++ [0])) = 4 * ((zlen nm + 4) / 4)) as Hp
    by (rewrite zlen_pad4, zlen_app, zlen1; replace (zlen nm + 1 + 3) with (zlen nm + 4) by lia; lia).
  f_equal.
  - rewrite zlen_app, Hp. Z.div_mod_to_equations; lia.
  - rewrite pad4_zeros, (app_assoc S (nm ++ [0]) (zeros _)), layout_pad; [done|apply Z.mod_pos_bound; lia|].
    rewrite pad4_zeros, zlen_app, zlen_zeros in Hp by (apply Z.mod_pos_bound; lia). rewrite zlen_app. lia.
Qed.

Lemma print_all :
  (forall par t, shape w par t -> forall fuel S T,
     fits_lists w (addrs t) (plists t) -> vals_ok (wprops t) -> (length (addrs t) <= fuel)%nat ->
     cellwise S -> zlen S + 4 * wsize t <= 4 * N -> zlen T + zlen (names t) <= G ->
     print_node w fuel (waddr t) (writing pre S N T G) =
       Ret (false, writing pre (S ++ enc (file (zlen T) t)) N (T ++ names t) G)) /\
  (forall par ptr ts, forest w par ptr ts -> forall k fuel S T,
     fits_lists w (flat_map addrs ts) (flat_map plists ts) -> vals_ok (flat_map wprops ts) ->
     (length (flat_map addrs ts) <= fuel)%nat -> (length (flat_map addrs ts) <= k)%nat ->
     cellwise S -> zlen S + 4 * sum_map wsize ts <= 4 * N -> zlen T + zlen (flat_map names ts) <= G ->
     do_foreach_sibling (fun _ => w) k (print_node w fuel) ptr (writing pre S N T G) =
       Ret (writing pre (S ++ flat_map enc_item (kid_items (zlen T) ts)) N (T ++ flat_map names ts) G)).
Proof.
  apply shape_forest_ind.
  - intros par a nd nm ps ks Hnd _ Hnm Hps _ IH fuel S T [Hfn Hfp] Hv Hf HS HsN HtG.
    destruct fuel as [|fuel]; [cbn in Hf; lia|]. cbn [print_node waddr]. rewrite Hnd. cbn [mbind res_bind].
    rewrite (name_len _ _ _ Hnm). cbn [mbind res_bind].
    rewrite wsize_eq, names_eq, zlen_app in *. cbn [addrs plists wprops length] in *. apply Forall_cons_1 in Hfp as [Hfp Hfpk].
    apply Forall_app in Hv as [Hvp Hvk].
    pose proof (zlen_nonneg nm). pose proof (zlen_nonneg (prop_names ps)). pose proof (zlen_nonneg (flat_map names ks)).
    pose proof (zlen_nonneg S). destruct (sums_nonneg ps ks) as [Hp0 Hk0].
    assert (1 <= (zlen nm + 4) / 4) by (Z.div_mod_to_equations; lia).
    rewrite cells_of_eq by (Z.div_mod_to_equations; lia).
    replace (zlen nm + 1 + 3) with (zlen nm + 4) by lia. cbn [struct_buf_size struct_ptr writing].
    rewrite wrap_small by (unfold fits; Z.div_mod_to_equations; lia).
    destruct (Z.ltb_spec N (zlen S / 4 + 1 + (zlen nm + 4) / 4)); [Z.div_mod_to_equations; lia|].
    rewrite !le32_be32 by (unfold fits, FDT_BEGIN_NODE, FDT_END_NODE; lia).
    rewrite push_cells_ok by (rewrite ?zlen_be_bytes; auto; lia). cbn [mbind res_bind].
    set (S1 := S ++ be_bytes FDT_BEGIN_NODE). assert (zlen S1 = zlen S + 4) as HS1 by (by unfold S1; rewrite zlen_app).
    destruct (open_name (nname nd) nm S1 T) as (o & o' & E1 & E2 & E3); [done|by unfold S1; auto|lia|].
    cbn [out struct_buf struct_ptr writing] in *. rewrite E1. cbn [mbind res_bind]. rewrite E2. cbn [mbind res_bind].
    rewrite E3. set (S2 := S1 ++ pad4 (nm ++ [0])).
    assert (zlen S2 = zlen S1 + 4 * ((zlen nm + 4) / 4)) as HS2
      by (unfold S2; rewrite zlen_app, zlen_pad4, zlen_app, zlen1; replace (zlen nm + 1 + 3) with (zlen nm + 4) by lia; lia).
    assert (cellwise S2) as HcS2 by (unfold S2, S1; auto).
    unfold do_foreach_prop. rewrite Hnd. cbn [mbind res_bind].
    rewrite (print_props a ps) by (first [done | unfold prop_fuel; lia]). cbn [mbind res_bind print_success negb writing].
    set (S3 := S2 ++ _). set (T3 := T ++ prop_names ps).
    assert (zlen S3 = zlen S2 + 4 * sum_map psize ps) as HS3 by (unfold S3; by rewrite zlen_app, zlen_items, prop_items_size).
    assert (cellwise S3) as HcS3 by (unfold S3; auto). change (Fin _ _ _ _ _ _ _ _) with (writing pre S3 N T3 G).
    rewrite IH; [|split; [lia|done]|done|lia|unfold node_fuel; lia|done|lia|unfold T3; rewrite zlen_app; lia].
    cbn [mbind res_bind print_success negb struct_buf_size struct_ptr writing]. set (S4 := S3 ++ _).
    assert (zlen S4 = zlen S3 + 4 * sum_map wsize ks) as HS4 by (unfold S4; by rewrite zlen_app, zlen_items, kid_items_size).
    assert (cellwise S4) as HcS4 by (unfold S4; auto). change (Fin _ _ _ _ _ _ _ _) with (writing pre S4 N (T3 ++ flat_map names ks) G).
    rewrite wrap_small by (unfold fits; Z.div_mod_to_equations; lia).
    destruct (Z.ltb_spec N (zlen S4 / 4 + 1)); [Z.div_mod_to_equations; lia|].
    rewrite push_cells_ok by (rewrite ?zlen_be_bytes; auto; lia). cbn [mbind res_bind].
    rewrite file_eq, enc_eq, flat_map_app. unfold S4, S3, S2, S1, T3. by rewrite zlen_app, <-!app_assoc.
  - intros par k fuel S T _ _ _ _ _ _ _. destruct k; cbn; by rewrite !app_nil_r.
  - intros par t td ts Ht IHt Htd _ IHf k fuel S T [Hfn Hfp] Hv Hf Hk HS HsN HtG.
    cbn [flat_map sum_map] in *. rewrite !length_app, !zlen_app in *. apply Forall_app in Hv as [Hvt Hvs]. apply Forall_app in Hfp as [Hfpt Hfps].
    assert (1 <= length (addrs t))%nat by (destruct t; cbn; lia).
    pose proof (wsize_pos t). pose proof (proj2 (sums_nonneg [] ts)). pose proof (zlen_nonneg (flat_map names ts)).
    destruct k as [|k]; [lia|]. cbn [do_foreach_sibling]. rewrite IHt by (first [done|split; [lia|done]|lia]).
    cbn [mbind res_bind]. rewrite Htd. cbn [mbind res_bind].
    assert (zlen (enc (file (zlen T) t)) = 4 * wsize t) as He by (by rewrite zlen_enc, file_size).
    rewrite IHf; [|split; [lia|done]|done|lia|lia| |rewrite zlen_app; lia|rewrite zlen_app; lia].
    + cbn [kid_items flat_map enc_item]. by rewrite !zlen_app, <-!app_assoc.
    + apply cellwise_app; [done|]. unfold cellwise. rewrite He, Z.mul_comm. by apply Z.mod_mul.
Qed.
End print.

(** ** The whole file *)

(** Size and contents of the file: header, one empty reservation entry, structure, strings. *)
Definition filesize (t : wtree) : Z := 56 + 4 * wsize t + (1 + zlen (names t)).
Definition header (boot_cpu_id : Z) (t : wtree) : list Z :=
  be_bytes FDT_MAGIC ++ be_bytes (filesize t) ++ be_bytes 56 ++ be_bytes (56 + 4 * wsize t) ++ be_bytes 40
  ++ be_bytes 17 ++ be_bytes 16 ++ be_bytes boot_cpu_id ++ be_bytes (1 + zlen (names t)) ++ be_bytes (4 * wsize t).
Definition flat (boot_cpu_id : Z) (t : wtree) : list Z :=
  header boot_cpu_id t ++ zeros 16 ++ enc (file 1 t) ++ 0 :: names t.

Fixpoint consecutive (off : Z) (l : list (Z * list Z)) : Prop :=
  match l with [] => True | x :: l => x.1 = off /\ consecutive (off + zlen x.2) l end.

Lemma puts_consecutive l : forall pre n, consecutive (zlen pre) l -> zlen (flat_map snd l) <= n ->
  puts l (pre ++ zeros n) = Ret (pre ++ flat_map snd l ++ zeros (n - zlen (flat_map snd l))).
Proof.
  induction l as [|[off bs] l IH]; intros pre n Hc Hn; [cbn; by rewrite Z.sub_0_r|].
  destruct Hc as [Hoff Hc]. cbn [fst snd flat_map puts] in *. rewrite zlen_app in *. subst off.
  pose proof (zlen_nonneg bs). pose proof (zlen_nonneg (flat_map snd l)).
  replace n with (zlen bs + (n - zlen bs)) at 1 by lia. rewrite zeros_add by lia.
  rewrite put_mid by (apply zlen_zeros; lia). cbn [mbind res_bind].
  rewrite (app_assoc pre), IH by (rewrite ?zlen_app; done || lia). rewrite <-!app_assoc. do 5 f_equal. lia.
Qed.

Lemma put_same_size o off bs : put o off bs = Undef \/ exists o', put o off bs = Ret o' /\ zlen o' = zlen o.
Proof.
  unfold put. destruct ((0 <=? off) && (off + zlen bs <=? zlen o)) eqn:E; [right|by left].
  apply andb_true_iff in E as [E1%Z.leb_le E2%Z.leb_le]. eexists. split; [reflexivity|].
  unfold zlen in *. rewrite !length_app, length_take, length_drop. lia.
Qed.
Lemma puts_same_size l : forall o, puts l o = Undef \/ exists o', puts l o = Ret o' /\ zlen o' = zlen o.
Proof.
  induction l as [|[off bs] l IH]; intros o; [right; by exists o|]. cbn.
  destruct (put_same_size o off bs) as [->|(o1 & -> & E1)]; [by left|]. cbn.
  destruct (IH o1) as [->|(o2 & -> & E2)]; [by left|right]. exists o2. split; [done|congruence].
Qed.

Section file.
Context (w : wstate) (par : option nat) (t : wtree) (id : Z).
Hypothesis Htree : forest w par (root (tr w)) [t].
Hypothesis Hlists : fits_lists w (addrs t) (plists t).
Hypothesis Hvals : vals_ok (wprops t).
Hypothesis Hsize : filesize t < 2 ^ 32.
Hypothesis Hid : fits 32 id.

Let N := wsize t.
Let G := 1 + zlen (names t).

Lemma file_bounds : 3 <= N /\ 1 <= G /\ 56 + 4 * N + G < 2 ^ 32.
Proof. pose proof (wsize_pos t). pose proof (zlen_nonneg (names t)). unfold filesize in Hsize. unfold N, G. lia. Qed.

Lemma single {A} (f : wtree -> list A) : length (flat_map f [t]) = length (f t).
Proof. cbn. by rewrite app_nil_r. Qed.

Lemma lists1 : fits_lists w (flat_map addrs [t]) (flat_map plists [t]).
Proof. unfold fits_lists. cbn [flat_map]. by rewrite !app_nil_r. Qed.

(** What the first pass adds up. *)
Lemma first_pass :
  do_foreach_sibling (fun _ => w) (node_fuel w) (init_finalise_data w (node_fuel w)) (root (tr w)) (Fin 0 0 0 0 0 1 true []) =
    Ret (Fin 0 0 0 0 N G true []).
Proof.
  destruct file_bounds as (? & ? & ?). destruct Hlists as [Hn _].
  rewrite (proj2 (measure w) _ _ _ Htree); cbn [struct_buf_size string_buf_size sum_map flat_map];
    rewrite ?app_nil_r, ?single; try (unfold node_fuel, N, G in *; lia); [|exact Hlists].
  unfold fin_sizes. cbn. fold N. do 2 f_equal; unfold G; lia.
Qed.

Lemma second_pass pre : zlen pre = 56 ->
  do_foreach_sibling (fun _ => w) (node_fuel w) (print_node w (node_fuel w)) (root (tr w))
    (Fin 56 (56 + 4 * N) 0 1 N G true (pre ++ zeros (4 * N) ++ [0] ++ zeros (G - 1))) =
  Ret (writing pre (enc (file 1 t)) N (0 :: names t) G).
Proof.
  intros Hpre. destruct file_bounds as (? & ? & ?). destruct Hlists as [Hn _].
  replace (Fin _ _ _ _ _ _ _ _) with (writing pre [] N [0] G)
    by (unfold writing, layout; rewrite Hpre; cbn [app zlen]; change (zlen (@nil Z)) with 0; by rewrite Z.sub_0_r).
  rewrite (proj2 (print_all w pre N G ltac:(lia) ltac:(lia)) _ _ _ Htree); [|exact lists1|cbn; by rewrite app_nil_r| | |done| |].
  - cbn [kid_items flat_map enc_item app]. by rewrite !app_nil_r.
  - rewrite single. unfold node_fuel. lia.
  - rewrite single. unfold node_fuel. lia.
  - cbn [sum_map]. fold N. change (zlen (@nil Z)) with 0. lia.
  - cbn [flat_map]. rewrite app_nil_r. unfold G. change (zlen [0]) with 1. lia.
Qed.

Definition file_header_words := header_words (filesize t) 56 (56 + 4 * N) id G (4 * N).

Lemma header_bytes : flat_map snd file_header_words = header id t.
Proof.
  destruct file_bounds as (? & ? & ?). unfold filesize in Hsize. fold N G in Hsize.
  unfold file_header_words, header_words, header, filesize. cbn [flat_map snd]. fold N G.
  rewrite !wrap_small by (unfold fits; lia).
  rewrite !le32_be32 by (first [exact Hid | unfold fits, FDT_MAGIC, FDT_VERSION, sizeof_fdt_header; lia]).
  by rewrite app_nil_r.
Qed.

Lemma total_eq : u64 (G + u64 (N * FDT_CELL_SIZE) + sizeof_fdt_header + u64 ((zlen (@nil (Z * Z)) + 1) * 16)) = filesize t /\
  u64 (N * FDT_CELL_SIZE) = 4 * N /\ u32 (sizeof_fdt_header + 16 + 4 * N) = 56 + 4 * N.
Proof.
  destruct file_bounds as (? & ? & ?). unfold FDT_CELL_SIZE, sizeof_fdt_header, filesize. fold N G.
  rewrite (wrap_small 64 (N * 4)) by (unfold fits; lia). change (u64 ((zlen (@nil (Z * Z)) + 1) * 16)) with 16.
  rewrite !wrap_small by (unfold fits; lia). lia.
Qed.

Lemma writes_flat :
  (o ← puts file_header_words (zeros (filesize t));
   o ← puts (reserved_words sizeof_fdt_header []) o;
   o ← put o (56 + 4 * N) [0];
   d ← do_foreach_sibling (fun _ => w) (node_fuel w) (print_node w (node_fuel w)) (root (tr w))
         (Fin 56 (56 + 4 * N) 0 1 N G true o);
   Ret (if print_success d then filesize t else SMOLDTB_FINALISE_FAILURE, Some (out d))) = Ret (filesize t, Some (flat id t)).
Proof.
  destruct file_bounds as (? & ? & ?).
  assert (filesize t = 56 + 4 * N + G) as Hfs by done.
  assert (zlen (header id t) = 40) as Hh by done.
  pose proof (puts_consecutive file_header_words [] (filesize t)) as E. rewrite header_bytes, Hh in E. cbn [app] in E.
  rewrite E by (unfold file_header_words; cbn; tauto || lia). clear E. cbn [mbind res_bind].
  pose proof (puts_consecutive (reserved_words sizeof_fdt_header []) (header id t) (filesize t - 40)) as E.
  rewrite Hh in E. change (flat_map snd (reserved_words sizeof_fdt_header [])) with (zeros 16) in E.
  rewrite zlen_zeros in E by lia. rewrite E by (cbn; tauto || lia). clear E. cbn [mbind res_bind].
  rewrite app_assoc. set (pre := header id t ++ zeros 16). assert (zlen pre = 56) as Hpre by done.
  replace (filesize t - 40 - 16) with (4 * N + (1 + (G - 1))) by lia. rewrite !zeros_add by lia.
  rewrite (app_assoc pre). replace (56 + 4 * N) with (zlen (pre ++ zeros (4 * N))) at 1 by (rewrite zlen_app, zlen_zeros; lia).
  rewrite put_mid by done. cbn [mbind res_bind]. rewrite <-app_assoc. rewrite (second_pass pre Hpre). cbn [mbind res_bind print_success out writing].
  do 3 f_equal. unfold layout, flat. rewrite zlen_enc, file_size. fold N. rewrite Z.sub_diag.
  replace (G - zlen (0 :: names t)) with 0 by (unfold G, zlen; cbn [length]; lia).
  cbn [zeros Z.to_nat replicate app]. rewrite app_nil_r. unfold pre. by rewrite <-app_assoc.
Qed.
End file.

Section wellformed.
Context (w : wstate) (b : list Z) (ii : dtb_init_info).

Lemma wf_items_app xs ys : wf_items b ii (xs ++ ys) <-> wf_items b ii xs /\ wf_items b ii ys.
Proof. induction xs as [|x xs IH]; cbn; [tauto|]. rewrite IH. tauto. Qed.

Lemma prop_items_wf n ps : forall ptr off, prop_list w n ptr ps -> vals_ok ps ->
  0 <= off -> off + zlen (prop_names ps) < 2 ^ 32 -> holds b (strings ii + off) (prop_names ps) -> wf_items b ii (prop_items off ps).
Proof.
  induction ps as [|x ps IH]; intros ptr off Hp Hv Hoff Hlen Hh; [done|].
  destruct Hp as (-> & pd & _ & _ & [Hnul _] & _ & _ & Hrest). inversion Hv as [|? ? Hx Hv']; subst.
  cbn [prop_names flat_map] in *. rewrite !zlen_app, zlen1 in Hlen.
  pose proof (zlen_nonneg x.1.2). pose proof (zlen_nonneg (flat_map (fun x => x.1.2 ++ [0]) ps)).
  apply holds_app in Hh as [Hn Hr]. rewrite zlen_app, zlen1 in Hr. cbn [prop_items wf_items wf_item]. split.
  - split_and!; [unfold fits; lia|done|done|done].
  - apply (IH (pnext pd)); [done|done|lia|unfold prop_names; lia|].
    unfold prop_names. by replace (strings ii + (off + zlen x.1.2 + 1)) with (strings ii + off + (zlen x.1.2 + 1)) by lia.
Qed.

Lemma file_wf :
  (forall par t, shape w par t -> forall off, vals_ok (wprops t) -> wsize t < 2 ^ 28 ->
     0 <= off -> off + zlen (names t) < 2 ^ 32 -> holds b (strings ii + off) (names t) -> wf b ii (file off t)) /\
  (forall par ptr ts, forest w par ptr ts -> forall off, vals_ok (flat_map wprops ts) -> sum_map wsize ts < 2 ^ 28 ->
     0 <= off -> off + zlen (flat_map names ts) < 2 ^ 32 -> holds b (strings ii + off) (flat_map names ts) ->
     wf_items b ii (kid_items off ts)).
Proof.
  apply shape_forest_ind.
  - intros par a nd nm ps ks _ _ Hnm Hps _ IH off Hv Hs Hoff Hlen Hh. cbn [wprops] in Hv. apply Forall_app in Hv as [Hvp Hvk].
    rewrite names_eq, zlen_app in *. rewrite wsize_eq in Hs. destruct (sums_nonneg ps ks) as [? ?].
    pose proof (zlen_nonneg nm). pose proof (zlen_nonneg (prop_names ps)). pose proof (zlen_nonneg (flat_map names ks)).
    assert (0 <= (zlen nm + 4) / 4) by (apply Z.div_pos; lia).
    apply holds_app in Hh as [Hhp Hhk]. rewrite file_eq. apply wf_eq. split_and!.
    + destruct (nname nd); cbn in Hnm; [tauto|subst; constructor].
    + unfold fits. Z.div_mod_to_equations; lia.
    + apply wf_items_app. split; [apply (prop_items_wf a ps (props nd)); [done|done|lia|lia|done]|].
      apply IH; [done|lia|lia|lia|]. by rewrite Z.add_assoc.
  - done.
  - intros par t td ts Ht IHt _ _ IHf off Hv Hs Hoff Hlen Hh. cbn [flat_map kid_items sum_map wf_items wf_item] in *.
    apply Forall_app in Hv as [Hvt Hvs]. rewrite zlen_app in Hlen. apply holds_app in Hh as [Hht Hhs].
    pose proof (wsize_pos t). pose proof (proj2 (sums_nonneg [] ts)).
    pose proof (zlen_nonneg (names t)). pose proof (zlen_nonneg (flat_map names ts)). split.
    + apply IHt; [done|lia|lia|lia|done].
    + apply IHf; [done|lia|lia|lia|]. by rewrite Z.add_assoc.
Qed.
End wellformed.

Lemma holds_mid a m c : holds (a ++ m ++ c) (zlen a) m.
Proof. by exists a, c. Qed.

(** The parts of the file. *)
Lemma flat_holds id t :
  holds (flat id t) 0 (header id t) /\ holds (flat id t) 56 (enc (file 1 t)) /\
  holds (flat id t) (56 + 4 * wsize t) (0 :: names t).
Proof.
  unfold flat. split_and!.
  - exists [], (zeros 16 ++ enc (file 1 t) ++ 0 :: names t). done.
  - exists (header id t ++ zeros 16), (0 :: names t). by rewrite <-!app_assoc.
  - exists (header id t ++ zeros 16 ++ enc (file 1 t)), []. rewrite app_nil_r, <-!app_assoc. split; [done|].
    rewrite !zlen_app, zlen_enc, file_size. change (zlen (header id t)) with 40. change (zlen (zeros 16)) with 16. lia.
Qed.

(** A tree ready to be written: rooted, within the lists, every length within its field. *)
Record writable (w : wstate) (t : wtree) : Prop := {
  wr_tree : exists par, forest w par (root (tr w)) [t];
  wr_lists : fits_lists w (addrs t) (plists t);
  wr_vals : vals_ok (wprops t);
  wr_size : filesize t < 2 ^ 30 }.

Lemma finalise_flat w t addr id size : writable w t -> fits 32 id -> size <= filesize t -> addr .& 3 = 0 ->
  dtb_finalise_to_buffer w (Some (addr, zeros (filesize t))) size id [] = Ret (filesize t, Some (flat id t)).
Proof.
  intros [[par Ht] Hl Hv Hs] Hid Hle Ha. assert (filesize t < 2 ^ 32) as Hs' by lia.
  unfold dtb_finalise_to_buffer. rewrite (first_pass w par t Ht Hl Hs'). cbn [mbind res_bind struct_buf_size string_buf_size].
  destruct (total_eq t Hs') as (E1 & E2 & E3). rewrite E1, E2. destruct (Z.ltb_spec (filesize t) size); [lia|].
  rewrite Ha. cbn [negb Z.eqb]. rewrite E3. exact (writes_flat w par t id Ht Hl Hv Hs' Hid).
Qed.

(** ** From the parser's buffers *)

(** The parsed blob as the write API finds it: one block of names and values. *)
Definition loaded (blob : list Z) (st : dtb_state) : wstate := WState (MkHeap [(0, blob)] (zlen blob + 1)) st [].

(** [wt] is the tree [t] with the lists as the parser leaves them: newest first. *)
Fixpoint same (t : tree) (wt : wtree) {struct wt} : Prop :=
  match wt with
  | WT _ nm ps ks =>
      nm = tname t /\ map (fun x => (x.1.2, x.2)) ps = map (fun x => (x.1.2, x.2)) (rev (props_of (titems t))) /\
      (fix go ts ks {struct ks} := match ks, ts with
         | [], [] => True
         | k :: ks, t :: ts => same t k /\ go ts ks
         | _, _ => False
         end) (rev (kids_of (titems t))) ks
  end.
Definition same_kids : list tree -> list wtree -> Prop :=
  fix go ts ks {struct ks} := match ks, ts with [], [] => True | k :: ks, t :: ts => same t k /\ go ts ks | _, _ => False end.

Lemma same_eq nm its a nm' ps ks :
  same (Tree nm its) (WT a nm' ps ks) <-> nm' = nm /\
    map (fun x => (x.1.2, x.2)) ps = map (fun x => (x.1.2, x.2)) (rev (props_of its)) /\ same_kids (rev (kids_of its)) ks.
Proof. done. Qed.

Section bridge.
Context (blob : list Z) (ii : dtb_init_info) (st : dtb_state).
Let w := loaded blob st.

Lemma holds_cstr p bs : bs <> [] -> holds blob p bs -> exists r, cstr (hp w) p = bs ++ r.
Proof.
  intros Hne (pre & post & E & Hp). exists post. unfold cstr, w, loaded. cbn [hp blocks List.find]. unfold inside. cbn [fst snd].
  pose proof (zlen_nonneg pre). pose proof (zlen_nonneg post).
  assert (0 < zlen bs) by (destruct bs; [done|unfold zlen; cbn [length]; lia]).
  assert (zlen blob = zlen pre + zlen bs + zlen post) by (rewrite E, !zlen_app; lia).
  destruct (Z.leb_spec 0 p); [|lia]. destruct (Z.ltb_spec p (0 + zlen blob)); [|lia]. cbn [andb].
  rewrite E, <-Hp, Z.sub_0_r. unfold zlen. by rewrite Nat2Z.id, drop_app_length.
Qed.

Lemma name_in_holds p nm : nonul nm -> holds blob p (nm ++ [0]) -> name_in (hp w) (Some p) nm.
Proof.
  intros Hn Hh. split; [done|]. destruct (holds_cstr p (nm ++ [0])) as [r E]; [by destruct nm|done|].
  exists r. by rewrite E, <-app_assoc.
Qed.

Lemma props_bridge n xs : forall b pr, prop_chain blob ii st b n pr xs -> Forall (fun x => nonul x.1.2 /\ holds blob (strings ii + x.1.1) (x.1.2 ++ [0]) /\ fits 32 (zlen x.2)) xs ->
  exists ps, prop_list w n pr ps /\ map (fun x => (x.1.2, x.2)) ps = map (fun x => (x.1.2, x.2)) xs /\ vals_ok ps /\ (length ps <= b)%nat.
Proof.
  induction xs as [|x xs IH]; intros b pr Hc Hok.
  - exists []. split_and!; [done|done|constructor|cbn; lia].
  - destruct Hc as (p & pd & -> & (Hp & Hl & Hnode & Hpn & Hlen & _ & Hpad & _) & Hc).
    inversion Hok as [|? ? (Hn & Hh & Hf) Hok']; subst. destruct (IH _ _ Hc Hok') as (ps & Hps & Hm & Hv & Hlps).
    exists ((p, x.1.2, x.2) :: ps). split_and!; [|cbn; by rewrite Hm|by constructor|cbn; lia].
    split; [done|]. exists pd. split_and!; [|done| |done| |done].
    + unfold get_prop, w, loaded. cbn. unfold prop_at. by rewrite Hl.
    + rewrite Hpn. by apply name_in_holds.
    + destruct (decide (x.2 = [])) as [E|Hne]; [exists (cstr (hp w) (pdata pd)); by rewrite E|].
      destruct (holds_cstr (pdata pd) (pad4 x.2)) as [r E]; [|done|by exists r].
      rewrite pad4_zeros. by destruct x.2.
Qed.

Lemma wf_items_ok its : wf_items blob ii its ->
  Forall (fun x => nonul x.1.2 /\ holds blob (strings ii + x.1.1) (x.1.2 ++ [0]) /\ fits 32 (zlen x.2)) (rev (props_of its)) /\
  Forall (wf blob ii) (rev (kids_of its)).
Proof.
  intros H. split; apply Forall_rev; induction its as [|it its IH]; try constructor; destruct H as [Hi H]; specialize (IH H).
  - destruct it as [o n v| |]; cbn; [constructor; [|done]|done|done]. cbn in Hi. tauto.
  - destruct it as [| t|]; cbn; [done|by constructor|done].
Qed.

Lemma bridge :
  (forall hi ph n t, repr blob ii st hi ph n t -> wf blob ii t -> (ph <= length (prop_buff st))%nat ->
     exists wt par, shape w par wt /\ same t wt /\ waddr wt = n /\ vals_ok (wprops wt) /\
       (length (addrs wt) + n <= hi)%nat /\ Forall (fun ps => length ps <= length (prop_buff st))%nat (plists wt) /\
       (forall nd, node_buff st !! n = Some nd -> par = parent nd)) /\
  (forall lo hi ph par ptr ts, kids blob ii st lo hi ph par ptr ts -> Forall (wf blob ii) ts -> (ph <= length (prop_buff st))%nat ->
     exists ks, forest w (Some par) ptr ks /\ same_kids ts ks /\ vals_ok (flat_map wprops ks) /\
       (length (flat_map addrs ks) + lo <= hi)%nat /\ Forall (fun ps => length ps <= length (prop_buff st))%nat (flat_map plists ks)).
Proof.
  apply repr_kids_ind.
  - intros hi ph n nd nm its Hn Hnd Hnm Hpc _ IH Hwf Hph. apply wf_eq in Hwf as (Hnul & _ & Hits).
    destruct (wf_items_ok its Hits) as [Hp Hk]. destruct (props_bridge n _ _ _ Hpc Hp) as (ps & Hps & Hmap & Hv & Hlen).
    destruct (IH Hk Hph) as (ks & Hf & Hs & Hvk & Hl & Hpl).
    exists (WT n nm ps ks), (parent nd). split_and!; try done.
    + apply shape_node with nd; try done.
      * unfold get_node, w, loaded. cbn. unfold node_at. by rewrite Hnd.
      * destruct (nname nd); cbn in Hnm; [destruct Hnm; by apply name_in_holds|done].
    + by apply Forall_app.
    + cbn [addrs length]. lia.
    + cbn [plists]. constructor; [lia|done].
    + intros nd' Hnd'. congruence.
  - intros lo hi ph par Hlo _ _. exists []. split_and!; [apply forest_nil|done|constructor|cbn; lia|constructor].
  - intros lo hi ph par c cd t ts Hlo Hcd Hpar _ IHt _ IHk Hwf Hph. inversion Hwf as [|? ? Hwt Hwts]; subst.
    destruct (IHt Hwt Hph) as (wt & par' & Hs & Hsame & Ha & Hv & Hl & Hpl & Hpar').
    destruct (IHk Hwts Hph) as (ks & Hf & Hsk & Hvk & Hlk & Hplk). specialize (Hpar' cd Hcd). rewrite Hpar in Hpar'. subst par'.
    exists (wt :: ks). split_and!; try done.
    + rewrite <-Ha. apply forest_cons with cd; [done| |done]. rewrite Ha. unfold get_node, w, loaded. cbn. unfold node_at. by rewrite Hcd.
    + cbn. by apply Forall_app.
    + cbn. rewrite length_app. lia.
    + cbn. by apply Forall_app.
Qed.
End bridge.

(** ** What the file is *)

(** The parser's view of the file: a blob without the closing FDT_END. *)
Lemma flat_is_blob w t id : writable w t -> is_blob (flat id t) 56 (56 + 4 * wsize t) 40 (wsize t) (file 1 t).
Proof.
  intros [[par Ht] Hl Hv Hs]. destruct (flat_holds id t) as (Hh & He & Hstr).
  unfold filesize in Hs. pose proof (wsize_pos t). pose proof (zlen_nonneg (names t)).
  unfold header in Hh. do 9 (apply holds_app in Hh as [? Hh]; rewrite zlen_be_bytes in Hh; cbn [Z.add] in *).
  split; try done.
  - rewrite file_size. lia.
  - inversion Ht as [|? ? td ? Hsh _ _]; subst.
    apply (proj1 (file_wf w (flat id t) (Info 56 (56 + 4 * wsize t) (wsize t))) _ _ Hsh); [done|lia|lia|lia|].
    apply (holds_app _ _ [0]) in Hstr as [_ Hstr]. exact Hstr.
  - unfold fits. lia.
Qed.

(** Exactly what [dtb_finalise_to_buffer] does with a tree and no reservations, for every buffer
    it may be given.  Without a buffer, or with one that is said to be larger than the file, it
    only answers the size; a misaligned one is refused; an aligned, zeroed one of the file's
    size receives the file; and one too small for the structure block is not refused but
    overrun, since the size check points the wrong way. *)
Theorem finalise_exact w t id size buffer : writable w t -> fits 32 id ->
  match buffer with
  | None => dtb_finalise_to_buffer w None size id [] = Ret (filesize t, None)
  | Some (addr, o) =>
      (filesize t < size -> dtb_finalise_to_buffer w buffer size id [] = Ret (filesize t, Some o)) /\
      (size <= filesize t -> addr .& 3 <> 0 -> dtb_finalise_to_buffer w buffer size id [] = Ret (SMOLDTB_FINALISE_FAILURE, Some o)) /\
      (size <= filesize t -> addr .& 3 = 0 -> o = zeros (filesize t) ->
         dtb_finalise_to_buffer w buffer size id [] = Ret (filesize t, Some (flat id t))) /\
      (size <= filesize t -> addr .& 3 = 0 -> zlen o <= 56 + 4 * wsize t -> dtb_finalise_to_buffer w buffer size id [] = Undef)
  end.
Proof.
  intros Hw Hid. destruct Hw as [[par Ht] Hl Hv Hs] eqn:HW. assert (filesize t < 2 ^ 32) as Hs' by lia.
  destruct (total_eq t Hs') as (E1 & E2 & E3). pose proof (first_pass w par t Ht Hl Hs') as Hp.
  destruct buffer as [[addr o]|].
  2:{ unfold dtb_finalise_to_buffer. rewrite Hp. cbn [mbind res_bind struct_buf_size string_buf_size]. by rewrite E2, <-E1, E2. }
  split_and!; intros Hsz.
  - unfold dtb_finalise_to_buffer. rewrite Hp. cbn [mbind res_bind struct_buf_size string_buf_size]. rewrite E1.
    by destruct (Z.ltb_spec (filesize t) size); [|lia].
  - intros Ha. unfold dtb_finalise_to_buffer. rewrite Hp. cbn [mbind res_bind struct_buf_size string_buf_size]. rewrite E1.
    destruct (Z.ltb_spec (filesize t) size); [lia|]. by rewrite (proj2 (Z.eqb_neq _ _) Ha).
  - intros Ha ->. by apply finalise_flat.
  - intros Ha Ho. unfold dtb_finalise_to_buffer. rewrite Hp. cbn [mbind res_bind struct_buf_size string_buf_size]. rewrite E1, E2, E3.
    destruct (Z.ltb_spec (filesize t) size); [lia|]. rewrite Ha. cbn [negb Z.eqb].
    destruct (puts_same_size (header_words (filesize t) (sizeof_fdt_header + 16) (56 + 4 * wsize t) id (1 + zlen (names t)) (4 * wsize t)) o)
      as [->|(o1 & -> & L1)]; [done|]. cbn [mbind res_bind].
    destruct (puts_same_size (reserved_words sizeof_fdt_header []) o1) as [->|(o2 & -> & L2)]; [done|]. cbn [mbind res_bind].
    unfold put at 1. rewrite zlen1. destruct (Z.leb_spec (56 + 4 * wsize t + 1) (zlen o2)); [lia|]. by rewrite andb_false_r.
Qed.


(** ** Concrete trees *)

(** A root with the property [reg = <0x01020304>] and a sub-node [a]. *)
Definition demo_state : dtb_state :=
  State (Some 0%nat) [] [Node None None (Some 1%nat) (Some 0%nat) None false; Node (Some 0%nat) None None None (Some 30) true]
    2 2 [Prop_ (Some 0%nat) 20 10 None 4 true false] 1 1 true 0 (Ops (Some (fun _ => true)) true true) [].
Definition demo : wstate :=
  WState (MkHeap [(10, [1; 2; 3; 4]); (20, [114; 101; 103; 0]); (30, [97; 0])] 40) demo_state [].
Definition demo_tree : wtree := WT 0 [] [(0%nat, [114; 101; 103], [1; 2; 3; 4])] [WT 1 [97] [] []].

Lemma demo_writable : writable demo demo_tree.
Proof.
  split.
  - exists None. change (forest demo None (Some (waddr demo_tree)) [demo_tree]).
    eapply forest_cons; [|reflexivity|apply forest_nil].
    eapply shape_node; [reflexivity|reflexivity|reflexivity| |].
    + cbn [prop_list]. split; [reflexivity|]. eexists. split; [reflexivity|]. split_and!; try reflexivity.
      * split; [by apply nonul_dec|]. exists []. reflexivity.
      * exists []. reflexivity.
    + change (forest demo (Some 0%nat) (Some (waddr (WT 1 [97] [] []))) [WT 1 [97] [] []]). eapply forest_cons; [|reflexivity|apply forest_nil].
      eapply shape_node; [reflexivity..| |reflexivity|apply forest_nil].
      split; [by apply nonul_dec|]. exists []. reflexivity.
  - split; [vm_compute; lia|]. repeat constructor; vm_compute; lia.
  - repeat constructor; vm_compute; congruence.
  - reflexivity.
Qed.

Lemma finalise_exact_witness :
  dtb_finalise_to_buffer demo (Some (64, zeros (filesize demo_tree))) 100 7 [] = Ret (101, Some (flat 7 demo_tree)) /\
  dtb_finalise_to_buffer demo (Some (64, zeros 80)) 80 7 [] = Undef /\
  dtb_finalise_to_buffer demo (Some (64, zeros 200)) 200 7 [] = Ret (101, Some (zeros 200)).
Proof.
  assert (fits 32 7) as Hid by (unfold fits; lia).
  destruct (finalise_exact demo demo_tree 7 100 (Some (64, zeros (filesize demo_tree))) demo_writable Hid) as (_ & _ & H & _).
  destruct (finalise_exact demo demo_tree 7 80 (Some (64, zeros 80)) demo_writable Hid) as (_ & _ & _ & H').
  destruct (finalise_exact demo demo_tree 7 200 (Some (64, zeros 200)) demo_writable Hid) as (H'' & _).
  split_and!; [apply H; [vm_compute; congruence|reflexivity..]|apply H'; vm_compute; congruence|apply H''; reflexivity].
Defined.


(** ** Where the editing operations fall short *)

(** The duplicate check compares as many characters as the new name has: a name clashes with
    every sibling it is a prefix of. *)
Lemma prefix_is_duplicate w p s nm r : nonul nm -> name_in (hp w) (Some p) s ->
  same_name w (Some p) (nm ++ r) (zlen nm) = Ret (bool_decide (nm `prefix_of` s)).
Proof.
  intros Hn [Hs [r' E]]. unfold same_name. cbn. rewrite E. replace (Z.to_nat (zlen nm)) with (length nm) by (unfold zlen; lia).
  by apply strings_eq_prefix.
Qed.

Lemma strlen_nonneg l : forall j, strlen l = Some j -> 0 <= j.
Proof.
  induction l as [|x l IH]; intros j; cbn; [done|]. destruct (x =? 0); [intros [= <-]; lia|].
  destruct (strlen l) as [i|]; cbn; [|done]. intros [= <-]. specialize (IH i eq_refl). lia.
Qed.

(** The path of [dtb_find_or_create_node] is never advanced past a segment. *)
Lemma first_segment c (r : cptr) (path := c :: r : cptr) : c <> 47 -> c <> 0 ->
  (seg ← string_find_char (Some path) 47; if seg =? NPOS then string_len (Some path) else Ret seg) <> Ret 0.
Proof.
  intros Hc H0. unfold path, string_find_char. cbn. destruct (Z.eqb_spec c 47); [done|]. destruct (Z.eqb_spec c 0); [done|].
  destruct (find_char r 47) as [[k|]|] eqn:E; cbn; [| |done].
  - pose proof (find_char_range _ _ _ E). unfold id. destruct (Z.succ k =? NPOS); [|intros [=]; lia].
    destruct (strlen r) as [j|] eqn:El; cbn; [|done]. intros [=].
    pose proof (strlen_nonneg r j El). lia.
  - unfold id. rewrite Z.eqb_refl. destruct (strlen r) as [j|] eqn:El; cbn; [|done]. intros [=].
    pose proof (strlen_nonneg r j El). lia.
Qed.

(** So for a path with a segment it answers NULL, when memory runs out, or nothing at all. *)
Theorem find_or_create_never fb fn fuel k c r : c <> 47 -> c <> 0 -> forall w n w',
  dtb_find_or_create_node fb fn fuel (Some (replicate k 47 ++ c :: r)) w <> Ret (Some n, w').
Proof.
  intros Hc H0. unfold dtb_find_or_create_node. intros w. generalize (root (tr w)) as scan. revert k w.
  induction fuel as [|fuel IH]; intros k w scan n w'; (destruct scan as [m|]; [|done]); [done|].
  cbn [find_or_create_from]. rewrite skip_slashes_ok by done. cbn [mbind res_bind].
  pose proof (first_segment c r Hc H0) as Hseg. cbn zeta in Hseg. set (path := c :: r : cptr) in *.
  destruct (string_find_char (Some path) 47) as [seg| |]; cbn [mbind res_bind] in Hseg |- *; try discriminate.
  destruct (if seg =? NPOS then string_len (Some path) else Ret seg) as [len| |]; cbn [mbind res_bind]; try discriminate.
  destruct (Z.eqb_spec len 0) as [->|]; [done|].
  destruct (find_child_by _ _ _ _ _) as [next| |]; cbn [mbind res_bind]; try discriminate.
  destruct (match next with Some _ => Ret (next, w) | None => _ end) as [[next' w1]| |]; cbn [mbind res_bind]; try discriminate.
  exact (IH 0%nat w1 next' n w').
Qed.

(** A value of two cells is written low word first, which the format and the parser read as
    the high word. *)
Lemma write_two_cells v : 0 <= v < 2 ^ 64 ->
  flat_map (fun c => le32 (be32 c)) (take 2 (halves [v])) = be_bytes (v mod 2 ^ 32) ++ be_bytes (v / 2 ^ 32).
Proof.
  intros Hv. cbn [halves flat_map app take]. rewrite !le32_be32 by (unfold fits; Z.div_mod_to_equations; lia). by rewrite app_nil_r.
Qed.

(** With a reservation the structure block overwrites the end of the reservation block. *)
Lemma reservation_overwritten : exists b,
  dtb_finalise_to_buffer demo (Some (64, zeros 117)) 117 7 [(1, 2)] = Ret (117, Some b) /\
  take 4 (drop 56 b) = be_bytes FDT_BEGIN_NODE /\ holdsb b 101 (zeros 16) = true.
Proof. eexists. split_and!; vm_compute; reflexivity. Qed.

(** Destroying a node whose property came from [malloc] reads the property after freeing it. *)
Lemma destroy_reads_freed : dtb_destroy_node (Some 0%nat) demo = Undef.
Proof. vm_compute. reflexivity. Qed.
