(* ===== verification/Mmio.v ===== *)
(** * Memory-mapped devices

    What every driver here needs of its device: a read and a write of a register.  Both may
    change the device, and nothing else is assumed of it, so a theorem over [Mmio] holds
    for hardware that answers anything.  A driver's state is the bus it talks to, with the
    log of the writes it made, beside its own variables. *)
From S2P Require Import Prelude.

(** Registers are 32 bits wide; a write may be wider (the DMA address). *)
Class Mmio (D : Type) := {
  mmio_read : D -> Z -> Z * D;
  mmio_write : D -> Z -> Z -> D }.

Record bus (D : Type) := Bus { dev : D; wlog : list (Z * Z) }.
Arguments Bus {D} dev wlog.
Arguments dev {D} b.
Arguments wlog {D} b.

Section mmio.
Context {D : Type} {HD : Mmio D} {X : Type}.
Abbreviation drv := (prog (bus D * X)).

Definition rd (r : Z) : drv Z := fun s =>
  let '(v, d) := mmio_read (dev s.1) r in Ret (u32 v, (Bus d (wlog s.1), s.2)).
Definition wr (r v : Z) : drv unit := fun s =>
  Ret (tt, (Bus (mmio_write (dev s.1) r v) (wlog s.1 ++ [(r, v)]), s.2)).
Definition get : drv X := gets snd.
Definition put (f : X -> X) : drv unit := fun s => Ret (tt, (s.1, f s.2)).

(** [while (!p(v = *r)) {}]: reads until one satisfies [p]. *)
Fixpoint poll (fuel : nat) (r : Z) (p : Z -> bool) : drv Z :=
  match fuel with
  | O => fuel_out
  | S fuel => v ← rd r; if p v then mret v else poll fuel r p
  end.

(** Poll until [p] or until the deadline passes, after [n] more reads. *)
Fixpoint poll_until (n : nat) (r : Z) (p : Z -> bool) : drv (option Z) :=
  v ← rd r;
  if p v then mret (Some v) else
  match n with O => mret None | S n => poll_until n r p end.

(** [m] returned [a], wrote [l] and left the driver's variables as [x]. *)
Definition did (s s' : bus D * X) (l : list (Z * Z)) (x : X) : Prop :=
  wlog s'.1 = wlog s.1 ++ l /\ s'.2 = x.

Lemma rd_did r s v s' : rd r s = Ret (v, s') -> did s s' [] s.2.
Proof. unfold rd. destruct (mmio_read _ _). intros [= <- <-]. split; [by rewrite app_nil_r|done]. Qed.

Lemma rd_range r s v s' : rd r s = Ret (v, s') -> fits 32 v.
Proof. unfold rd. destruct (mmio_read _ _). intros [= <- <-]. by apply wrap_fits. Qed.

Lemma wr_did r v s a s' : wr r v s = Ret (a, s') -> did s s' [(r, v)] s.2.
Proof. intros [= <- <-]. by split. Qed.

Lemma put_did f s a s' : put f s = Ret (a, s') -> did s s' [] (f s.2).
Proof. intros [= <- <-]. split; [by rewrite app_nil_r|done]. Qed.

Lemma get_did s x s' : get s = Ret (x, s') -> x = s.2 /\ s' = s.
Proof. by intros [= <- <-]. Qed.

Lemma ret_did {A} (a b : A) s s' : (mret a : drv A) s = Ret (b, s') -> b = a /\ s' = s.
Proof. by intros [= <- <-]. Qed.

Lemma poll_did p r fuel : forall s v s', poll fuel r p s = Ret (v, s') -> did s s' [] s.2 /\ p v = true.
Proof.
  induction fuel as [|fuel IH]; intros s v s' H; [done|]. cbn in H.
  prog_step H w s1 E. apply rd_did in E as [E1 E2]. destruct (p w) eqn:Hp.
  - apply ret_did in H as [-> ->]. by split.
  - apply IH in H as [[H1 H2] Hv]. split; [|done]. split; [|congruence]. by rewrite H1, E1, <-!app_assoc.
Qed.

Lemma did_trans s s1 s2 l1 l2 x1 x2 :
  did s s1 l1 x1 -> did s1 s2 l2 x2 -> did s s2 (l1 ++ l2) x2.
Proof. intros [H1 H2] [G1 G2]. split; [by rewrite G1, H1, app_assoc|done]. Qed.

(** Commands that only talk to the device leave the driver's variables as they were. *)
Abbreviation quiet := (still (snd : bus D * X -> X)).

Lemma rd_quiet r : quiet (rd r).
Proof. intros s. unfold wp, rd. by destruct (mmio_read _ _). Qed.

Lemma wr_quiet r v : quiet (wr r v).
Proof. intros s. done. Qed.

Hint Resolve rd_quiet wr_quiet : still.

Lemma poll_until_quiet r p n : quiet (poll_until n r p).
Proof. induction n; cbn; still. Qed.

Lemma wp_put {B} f (k : unit -> drv B) (Q : B -> bus D * X -> Prop) s :
  wp (k tt) Q (s.1, f s.2) -> wp (x ← put f; k x) Q s.
Proof. intros H. by apply wp_bind. Qed.

Lemma wp_put_last f (Q : unit -> bus D * X -> Prop) s : Q tt (s.1, f s.2) -> wp (put f) Q s.
Proof. done. Qed.

Lemma wp_get {B} (k : X -> drv B) (Q : B -> bus D * X -> Prop) s : wp (k s.2) Q s -> wp (x ← get; k x) Q s.
Proof. intros H. by apply wp_bind. Qed.

(** The same, keeping the log: what was written since [s0]. *)
Lemma wp_rd {B} r (k : Z -> drv B) (Q : B -> bus D * X -> Prop) s0 s l x : did s0 s l x ->
  (forall v s1, did s0 s1 l x -> wp (k v) Q s1) -> wp (v ← rd r; k v) Q s.
Proof.
  intros [H1 H2] Hk. apply wp_bind. unfold wp at 1, rd. destruct (mmio_read _ _) as [v d]. apply Hk.
  split; [by rewrite <-H1|done].
Qed.

Lemma wp_wr {B} r v (k : unit -> drv B) (Q : B -> bus D * X -> Prop) s0 s l x : did s0 s l x ->
  (forall s1, did s0 s1 (l ++ [(r, v)]) x -> wp (k tt) Q s1) -> wp (u ← wr r v; k u) Q s.
Proof. intros [H1 H2] Hk. apply wp_bind. apply Hk. split; cbn; [by rewrite H1, app_assoc|done]. Qed.

Lemma wp_poll {B} n r p (k : option Z -> drv B) (Q : B -> bus D * X -> Prop) s0 s l x : did s0 s l x ->
  (forall v s1, did s0 s1 l x -> wp (k v) Q s1) -> wp (v ← poll_until n r p; k v) Q s.
Proof.
  intros H Hk. apply wp_bind. revert s H. induction n as [|n IH]; intros s H; cbn;
    (eapply wp_rd; [exact H|]; intros v s1 H1; destruct (p v); [by apply Hk|]).
  - by apply Hk.
  - by apply IH.
Qed.

Lemma wp_putd {B} f (k : unit -> drv B) (Q : B -> bus D * X -> Prop) s0 s l x : did s0 s l x ->
  (forall s1, did s0 s1 l (f x) -> wp (k tt) Q s1) -> wp (u ← put f; k u) Q s.
Proof. intros [H1 H2] Hk. apply wp_bind. apply Hk. split; cbn; [done|by rewrite H2]. Qed.

Lemma did_refl s : did s s [] s.2.
Proof. split; [by rewrite app_nil_r|done]. Qed.
End mmio.
#[export] Hint Resolve rd_quiet wr_quiet poll_until_quiet : still.
