(* ===== verification/Kprintf.v ===== *)
(** * The boot ROM's messages (binaries/bootroms/sd-boot/kprintf.c)

    [kprintf] character by character into the transmitter of the UART, over any UART ([Mmio]):
    three flags say whether a conversion has begun and which of [l] and [h] it carries.  Strings
    are their bytes up to the terminator; the arguments are those of [Printf]. *)
From Stdlib Require Import String.
From S2P Require Import Prelude Mmio Printf.
#[local] Open Scope list_scope.
#[local] Abbreviation length := List.length.

Definition SR_TX_FIFO_FULL : Z := 8.
Definition TX_FIFO : Z := 4.
Definition STATUS : Z := 8.
Definition CR : Z := 13.
Definition LF : Z := 10.

Record flags := Flags { is_format : bool; is_long : bool; is_char : bool }.
Definition plain : flags := Flags false false false.

Section kprintf.
(** [base] is SOCT_DTS_UART0_BASE, [fuel] the polls of the status register. *)
Context {D : Type} {HD : Mmio D} (base : Z) (fuel : nat).
Abbreviation drv := (prog (bus D * list varg)).

Definition kputc (c : Z) : drv unit :=
  _ ← poll fuel (base + STATUS) (fun v => negb (tst v SR_TX_FIFO_FULL));
  wr (base + TX_FIFO) (c .& 0xff).

Fixpoint put_all (s : list Z) : drv unit := match s with [] => mret tt | c :: s => kputc c;; put_all s end.
Definition kputs (s : list Z) : drv unit := put_all s;; kputc CR;; kputc LF.

(** [va_arg]: an argument of another type, or none, is undefined. *)
Definition next {A} (f : varg -> option A) : drv A := fun s =>
  match s.2 with
  | a :: l => match f a with Some v => Ret (v, (s.1, l)) | None => Undef end
  | [] => Undef
  end.
Definition next_int : drv Z := next (fun a => match a with AInt v => Some v | _ => None end).
Definition next_long : drv Z := next (fun a => match a with ALong v => Some v | _ => None end).
Definition next_str : drv (list Z) := next (fun a => match a with AStr s => s | _ => None end).

(** The digits from bit [i] down. *)
Definition hex_digit (d : Z) : Z := if d <? 10 then 48 + d else 97 + d - 10.
Fixpoint hex_loop (k : nat) (n i : Z) : drv unit :=
  match k with
  | O => mret tt
  | S k => if i >=? 0 then kputc (hex_digit ((n .>> i) .& 0xF));; hex_loop k n (i - 4) else mret tt
  end.

Definition put_hex (f : flags) : drv unit :=
  if is_long f then n ← next_long; hex_loop 16 (u64 n) 60
  else n ← next_int; hex_loop 8 (u32 n) (if is_char f then 4 else 28).

(** The digits stored from the end of the buffer of 32 bytes down; the answer is what lies from
    [i] on. *)
Fixpoint dec_loop (i : nat) (n : Z) (buf : list Z) : list Z :=
  match i with
  | O => buf
  | S i =>
      let buf := (Z.rem n 10 + 48) :: buf in
      let n := Z.quot n 10 in
      if n =? 0 then buf else dec_loop i n buf
  end.

(** [-n] of the least long overflows. *)
Definition put_dec (f : flags) : drv unit :=
  n ← (if is_long f then n ← next_long; mret (s64 n) else n ← next_int; mret (s32 n));
  if n =? - 2 ^ 63 then undef else
  (if n <? 0 then kputc 45 else mret tt);;
  put_all (dec_loop 32 (Z.abs n) []).

(** One character of the format. *)
Definition step (f : flags) (c : Z) : drv flags :=
  if is_format f then
    if c =? 108 (* l *) then mret (Flags true true (is_char f))
    else if c =? 104 (* h *) then mret (Flags true (is_long f) true)
    else
      (if c =? 120 (* x *) then put_hex f
       else if c =? 100 (* d *) then put_dec f
       else if c =? 115 (* s *) then s ← next_str; put_all s
       else if c =? 99 (* c *) then n ← next_int; kputc n
       else mret tt);; mret plain
  else if c =? 37 (* % *) then mret (Flags true (is_long f) (is_char f))
  else if c =? LF then kputc CR;; kputc LF;; mret f
  else kputc c;; mret f.

Fixpoint run (f : flags) (fmt : list Z) : drv flags :=
  match fmt with [] => mret f | c :: fmt => f ← step f c; run f fmt end.
Definition kprintf (fmt : list Z) : drv unit := run plain fmt;; mret tt.
End kprintf.

(** ** What a format means *)

(** A character, or a conversion with its modifiers and its argument. *)
Inductive conv := Hex (v : Z) | Dec (v : Z) | Str (s : list Z) | Chr (v : Z) | Other (c : Z).
Inductive piece := Lit (c : Z) | Fmt (mods : list Z) (a : conv).

Definition long (mods : list Z) : bool := existsb (Z.eqb 108) mods.
Definition short (mods : list Z) : bool := existsb (Z.eqb 104) mods.
Definition letter (a : conv) : Z := match a with Hex _ => 120 | Dec _ => 100 | Str _ => 115 | Chr _ => 99 | Other c => c end.

Definition spell (p : piece) : list Z := match p with Lit c => [c] | Fmt mods a => 37 :: mods ++ [letter a] end.
Definition arg (p : piece) : list varg :=
  match p with
  | Lit _ | Fmt _ (Other _) => []
  | Fmt mods (Hex v) | Fmt mods (Dec v) => [if long mods then ALong v else AInt v]
  | Fmt _ (Str s) => [AStr (Some s)]
  | Fmt _ (Chr v) => [AInt v]
  end.

Definition piece_ok (p : piece) : Prop :=
  match p with
  | Lit c => c <> 37
  | Fmt mods a => Forall (fun c => c = 108 \/ c = 104) mods /\
      match a with
      | Dec v => (if long mods then s64 v else s32 v) <> - 2 ^ 63
      | Other c => ~ In c [108; 104; 120; 100; 115; 99]
      | _ => True
      end
  end.

(** What a numeral is worth. *)
Definition digit_value (c : Z) : Z := if c <? 58 then c - 48 else c - 87.
Definition value (b : Z) (l : list Z) : Z := foldl (fun acc c => acc * b + digit_value c) 0 l.
Definition numeral (b : Z) (l : list Z) : Prop := Forall (fun c => (48 <= c < 58 \/ 97 <= c < 103) /\ 0 <= digit_value c < b) l.

(** The bytes a piece puts on the wire: a line feed behind a carriage return, a fixed number of
    hexadecimal digits, a decimal without leading zeros, a string as it is, nothing for a
    conversion that is not known. *)
Definition says (p : piece) (t : list Z) : Prop :=
  match p with
  | Lit c => t = if c =? LF then [CR; LF] else [c .& 0xff]
  | Fmt mods (Hex v) =>
      let w := if long mods then 16 else if short mods then 2 else 8 in
      zlen t = w /\ numeral 16 t /\ value 16 t = v mod 16 ^ w
  | Fmt mods (Dec v) =>
      let n := if long mods then s64 v else s32 v in
      exists ds, t = (if n <? 0 then [45] else []) ++ ds /\ ds <> [] /\ numeral 10 ds /\ value 10 ds = Z.abs n /\ (hd 0 ds = 48 -> ds = [48])
  | Fmt _ (Str s) => t = map (fun c => c .& 0xff) s
  | Fmt _ (Chr v) => t = [v .& 0xff]
  | Fmt _ (Other _) => t = []
  end.

(** ** Numerals *)

Lemma digits_app b l1 : forall l2, value b (l1 ++ l2) = value b l1 * b ^ zlen l2 + value b l2.
Proof.
  intros l2. revert l1. induction l2 as [|c l2 IH] using rev_ind; intros l1; [rewrite app_nil_r; change (value b []) with 0; change (b ^ zlen []) with 1; lia|].
  rewrite app_assoc. unfold value in *. rewrite !foldl_snoc, IH, zlen_app, zlen1, Z.pow_add_r, Z.pow_1_r by (unfold zlen; lia). ring.
Qed.

Lemma value_cons b c l : value b (c :: l) = digit_value c * b ^ zlen l + value b l.
Proof. exact (digits_app b [c] l). Qed.

Lemma hex_digit_ok d : 0 <= d < 16 -> numeral 16 [hex_digit d] /\ digit_value (hex_digit d) = d /\ hex_digit d .& 0xff = hex_digit d.
Proof.
  intros Hd. assert (In d (seqZ 0 16)) as Hin by (apply list_elem_of_In, elem_of_seqZ; lia).
  revert d Hd Hin. assert (forall d, In d (seqZ 0 16) -> numeral 16 [hex_digit d] /\ digit_value (hex_digit d) = d /\ hex_digit d .& 0xff = hex_digit d); [|auto].
  apply List.Forall_forall. repeat (constructor; [split; [constructor; [cbv; intuition congruence|constructor]|by vm_compute]|]). constructor.
Qed.

(** The [k] digits of [n] below bit [4 k]. *)
Fixpoint hex_text (k : nat) (n : Z) : list Z :=
  match k with O => [] | S k => hex_digit ((n .>> (4 * Z.of_nat k)) .& 0xF) :: hex_text k n end.

Lemma hex_text_spec k n : 0 <= n -> zlen (hex_text k n) = Z.of_nat k /\ numeral 16 (hex_text k n) /\ value 16 (hex_text k n) = n mod 16 ^ Z.of_nat k /\
  map (fun c => c .& 0xff) (hex_text k n) = hex_text k n.
Proof.
  intros Hn. induction k as [|k (IH1 & IH2 & IH3 & IH4)]; cbn [hex_text map].
  - split_and!; [done|constructor|by rewrite Z.mod_1_r|done].
  - change 0xF with (Z.ones 4). rewrite Z.land_ones, Z.shiftr_div_pow2 by lia. rewrite Z.pow_mul_r by lia. change (2 ^ 4) with 16.
    set (q := n / 16 ^ Z.of_nat k). pose proof (Z.mod_pos_bound q 16 ltac:(lia)) as Hm.
    destruct (hex_digit_ok (q mod 16) Hm) as (Hd & Hv & Ha). split_and!.
    + unfold zlen in *. cbn [length]. lia.
    + apply Forall_cons in Hd as [Hd _]. by constructor.
    + rewrite value_cons, IH1, IH3, Hv. replace (Z.of_nat (S k)) with (Z.of_nat k + 1) by lia. rewrite Z.pow_add_r, Z.pow_1_r by lia.
      rewrite Z.rem_mul_r by (try apply Z.pow_nonzero; lia). fold q. lia.
    + by rewrite Ha, IH4.
Qed.

Lemma dec_loop_spec : forall i n buf, 0 <= n < 10 ^ Z.of_nat i -> (0 < i)%nat ->
  exists ds, dec_loop i n buf = ds ++ buf /\ ds <> [] /\ numeral 10 ds /\ value 10 ds = n /\ (hd 0 ds = 48 -> ds = [48]) /\
    map (fun c => c .& 0xff) ds = ds.
Proof.
  induction i as [|i IH]; intros n buf Hn Hi; [lia|]. cbn [dec_loop]. rewrite Z.quot_div_nonneg, Z.rem_mod_nonneg by lia.
  pose proof (Z.mod_pos_bound n 10 ltac:(lia)) as Hm. pose proof (Z.div_mod n 10 ltac:(lia)) as Hdm.
  assert (0 <= n / 10) by (apply Z.div_pos; lia).
  assert (numeral 10 [n mod 10 + 48]) as Hnum.
  { constructor; [|constructor]. unfold digit_value. destruct (Z.ltb_spec (n mod 10 + 48) 58); lia. }
  assert (digit_value (n mod 10 + 48) = n mod 10) as Hdv by (unfold digit_value; destruct (Z.ltb_spec (n mod 10 + 48) 58); lia).
  assert ((n mod 10 + 48) .& 0xff = n mod 10 + 48) as Hand.
  { change 0xff with (Z.ones 8). rewrite Z.land_ones, Z.mod_small by lia. done. }
  destruct (Z.eqb_spec (n / 10) 0) as [E|E].
  - exists [n mod 10 + 48]. split_and!; [done|done|done| |cbn; congruence|cbn; by rewrite Hand].
    unfold value. cbn [foldl]. rewrite Hdv. lia.
  - assert (0 < i)%nat by (destruct i; [change (10 ^ Z.of_nat 1) with 10 in Hn; rewrite Z.div_small in E by lia; lia|lia]).
    replace (Z.of_nat (S i)) with (Z.of_nat i + 1) in Hn by lia. rewrite Z.pow_add_r, Z.pow_1_r in Hn by lia.
    destruct (IH (n / 10) ((n mod 10 + 48) :: buf)) as (ds & -> & Hne & Hds & Hval & Hz & Ha); [split; [done|apply Z.div_lt_upper_bound; lia]|done|].
    exists (ds ++ [n mod 10 + 48]). rewrite <-app_assoc. split_and!; [done|by destruct ds|by apply Forall_app| | |by rewrite map_app, Ha; cbn; rewrite Hand].
    + rewrite digits_app, Hval. unfold value. cbn [foldl]. rewrite Hdv. change (10 ^ zlen [n mod 10 + 48]) with 10. lia.
    + destruct ds as [|c ds]; [done|]. cbn. intros ->. rewrite Hz in Hval by done. unfold value in Hval. cbn in Hval. lia.
Qed.

(** ** What is sent *)

Section specs.
Context {D : Type} {HD : Mmio D} (base : Z) (fuel : nat).
Abbreviation state := (bus D * list varg)%type.
Abbreviation drv := (prog state).
Implicit Types (s : state).
(** The transmitter drains. *)
Hypothesis Hdrain : forall s, exists v s', poll fuel (base + STATUS) (fun v => negb (tst v SR_TX_FIFO_FULL)) s = Ret (v, s').

(** [t] went out, and [l] are the arguments left. *)
Abbreviation out s s' t l := (did s s' (map (pair (base + TX_FIFO)) t) l).
Abbreviation low := (map (fun c => c .& 0xff)).

Lemma kputc_spec c s : wp (kputc base fuel c) (fun _ s' => out s s' [c .& 0xff] s.2) s.
Proof.
  unfold kputc. apply wp_bind. destruct (Hdrain s) as (v & s1 & E). unfold wp at 1. rewrite E.
  apply poll_did in E as [[E1 E2] _]. unfold wp, wr. split; cbn; [by rewrite E1, app_nil_r|done].
Qed.

Lemma out_trans s s1 s2 a b l1 l2 : out s s1 a l1 -> out s1 s2 b l2 -> out s s2 (a ++ b) l2.
Proof. intros H1 H2. rewrite map_app. eapply did_trans; eassumption. Qed.

Lemma put_all_spec t : forall s, wp (put_all base fuel t) (fun _ s' => out s s' (low t) s.2) s.
Proof.
  induction t as [|c t IH]; intros s; cbn [put_all]; [apply wp_ret; split; [by rewrite app_nil_r|done]|].
  wp_next kputc_spec. cbn beta. intros _ s1 H1. eapply wp_mono; [apply IH|]. cbn beta. intros _ s2 H2.
  rewrite (proj2 H1) in H2. exact (out_trans _ _ _ [c .& 0xff] _ _ _ H1 H2).
Qed.

Lemma hex_loop_spec m : forall k n s, (m <= k)%nat -> 0 <= n ->
  wp (hex_loop base fuel k n (4 * Z.of_nat m - 4)) (fun _ s' => out s s' (hex_text m n) s.2) s.
Proof.
  induction m as [|m IH]; intros k n s Hk Hn.
  { assert (wp (mret tt : drv unit) (fun _ s' => out s s' [] s.2) s) as H0 by (apply wp_ret; split; [by rewrite app_nil_r|done]).
    destruct k; [exact H0|]. cbn [hex_loop]. exact H0. }
  destruct k as [|k]; [lia|]. cbn [hex_loop hex_text]. rewrite Z.geb_leb. destruct (Z.leb_spec 0 (4 * Z.of_nat (S m) - 4)); [|lia].
  wp_next kputc_spec. cbn beta. intros _ s1 H1. replace (4 * Z.of_nat (S m) - 4 - 4) with (4 * Z.of_nat m - 4) by lia.
  eapply wp_mono; [apply IH; lia|]. cbn beta. intros _ s2 H2. rewrite (proj2 H1) in H2.
  replace (4 * Z.of_nat (S m) - 4) with (4 * Z.of_nat m) in H1 by lia.
  assert (0 <= (n .>> (4 * Z.of_nat m)) .& 0xF < 16) as Hd.
  { change 0xF with (Z.ones 4). rewrite Z.land_ones by lia. apply Z.mod_pos_bound. lia. }
  rewrite (proj2 (proj2 (hex_digit_ok _ Hd))) in H1. exact (out_trans _ _ _ [_] _ _ _ H1 H2).
Qed.

Lemma next_spec {A} (f : varg -> option A) a v l s : s.2 = a :: l -> f a = Some v ->
  next f s = Ret (v, (s.1, l)).
Proof. intros E Ef. unfold next. by rewrite E, Ef. Qed.

Lemma put_hex_spec mods v l s : s.2 = arg (Fmt mods (Hex v)) ++ l ->
  wp (put_hex base fuel (Flags true (long mods) (short mods))) (fun _ s' => exists t, says (Fmt mods (Hex v)) t /\ out s s' t l) s.
Proof.
  intros Hs. cbn [says arg app] in *.
  set (m := if long mods then 16%nat else if short mods then 2%nat else 8%nat). set (n := if long mods then u64 v else u32 v).
  assert (0 <= n) as Hn by (unfold n; destruct (long mods); apply wrap_range; lia).
  apply wp_mono with (Q := fun _ s' => out s s' (hex_text m n) l).
  - unfold put_hex. cbn [is_long is_char]. subst m n. destruct (long mods).
    + apply wp_bind. unfold wp at 1, next_long. rewrite (next_spec _ _ v l s Hs eq_refl).
      eapply wp_mono; [by apply (hex_loop_spec 16 16)|]. cbn beta. intros _ s' [H1 H2]. by split.
    + apply wp_bind. unfold wp at 1, next_int. rewrite (next_spec _ _ v l s Hs eq_refl). destruct (short mods).
      * eapply wp_mono; [by apply (hex_loop_spec 2 8); [lia|]|]. cbn beta. intros _ s' [H1 H2]. by split.
      * eapply wp_mono; [by apply (hex_loop_spec 8 8)|]. cbn beta. intros _ s' [H1 H2]. by split.
  - intros _ s' Ho. exists (hex_text m n). split; [|exact Ho]. destruct (hex_text_spec m n Hn) as (E1 & E2 & E3 & _).
    assert (Z.of_nat m = if long mods then 16 else if short mods then 2 else 8) as Em by (unfold m; by destruct (long mods), (short mods)).
    rewrite Em in E1, E3. split_and!; [exact E1|exact E2|]. rewrite E3. unfold n, wrap.
    destruct (long mods), (short mods); by rewrite Z.mod_mod_divide by (first [by exists 1|by exists (2 ^ 24)]).
Qed.

Lemma put_dec_spec mods v l s : piece_ok (Fmt mods (Dec v)) -> s.2 = arg (Fmt mods (Dec v)) ++ l ->
  wp (put_dec base fuel (Flags true (long mods) (short mods))) (fun _ s' => exists t, says (Fmt mods (Dec v)) t /\ out s s' t l) s.
Proof.
  intros [_ Hok] Hs. cbn [says arg app] in *. set (n := if long mods then s64 v else s32 v) in *.
  assert (- 2 ^ 63 <= n < 2 ^ 63) as Hn.
  { unfold n, sgn. pose proof (wrap_range 64 v). pose proof (wrap_range 32 v). destruct (long mods); zcases. }
  unfold put_dec. cbn [is_long]. apply wp_bind. apply wp_mono with (Q := fun k s' => k = n /\ s' = (s.1, l)).
  { unfold n. destruct (long mods); apply wp_bind; unfold wp at 1, next_long, next_int; rewrite (next_spec _ _ v l s Hs eq_refl); by apply wp_ret. }
  intros k s1 [-> ->]. destruct (Z.eqb_spec n (- 2 ^ 63)); [done|].
  destruct (dec_loop_spec 32 (Z.abs n) []) as (ds & Ed & Hne & Hnum & Hval & Hz & Ha); [change (10 ^ Z.of_nat 32) with 100000000000000000000000000000000; lia|lia|].
  rewrite app_nil_r in Ed. rewrite Ed. apply wp_bind. apply wp_mono with (Q := fun _ s' => out s s' (if n <? 0 then [45] else []) l).
  { destruct (n <? 0); [eapply wp_mono; [apply kputc_spec|]; cbn beta; intros _ s' [H1 H2]; by split|apply wp_ret; split; [cbn; by rewrite app_nil_r|done]]. }
  intros _ s1 H1. eapply wp_mono; [apply put_all_spec|]. cbn beta. intros _ s2 H2. rewrite Ha, (proj2 H1) in H2.
  eexists. split; [|exact (out_trans _ _ _ _ _ _ _ H1 H2)]. by exists ds.
Qed.

(** A conversion with its modifiers read: what it sends, its argument consumed. *)
Lemma conv_spec mods a l s : piece_ok (Fmt mods a) -> s.2 = arg (Fmt mods a) ++ l ->
  wp (step base fuel (Flags true (long mods) (short mods)) (letter a))
     (fun f s' => f = plain /\ exists t, says (Fmt mods a) t /\ out s s' t l) s.
Proof.
  intros Hok Hs. assert (forall m : drv unit, wp m (fun _ s' => exists t, says (Fmt mods a) t /\ out s s' t l) s ->
    wp (m;; mret plain : drv flags) (fun f s' => f = plain /\ exists t, says (Fmt mods a) t /\ out s s' t l) s) as Hend.
  { intros m Hm. wp_next Hm. cbn beta. intros _ s' H'. by apply wp_ret. }
  destruct a as [v|v|str|v|c]; cbn [letter]; unfold step; cbn [is_format].
  - apply Hend, (put_hex_spec mods v l s Hs).
  - apply Hend, (put_dec_spec mods v l s Hok Hs).
  - apply Hend, wp_bind. unfold wp at 1, next_str. rewrite (next_spec _ _ str l s Hs eq_refl).
    eapply wp_mono; [apply put_all_spec|]. cbn beta. intros _ s' [H1 H2]. eexists. split; [reflexivity|by split].
  - apply Hend, wp_bind. unfold wp at 1, next_int. rewrite (next_spec _ _ v l s Hs eq_refl).
    eapply wp_mono; [apply kputc_spec|]. cbn beta. intros _ s' [H1 H2]. eexists. split; [reflexivity|by split].
  - destruct Hok as [_ Hc]. cbn in Hc. repeat match goal with |- context [c =? ?k] => destruct (Z.eqb_spec c k); [lia|] end.
    apply Hend, wp_ret. exists []. split; [done|]. split; [by rewrite app_nil_r|exact Hs].
Qed.

(** Modifiers only set flags. *)
Lemma mods_spec rest mods : forall x y s, Forall (fun c => c = 108 \/ c = 104) mods ->
  run base fuel (Flags true x y) (mods ++ rest) s = run base fuel (Flags true (x || long mods) (y || short mods)) rest s.
Proof.
  induction mods as [|c mods IH]; intros x y s H; cbn [app]; [by rewrite !orb_false_r|].
  apply Forall_cons in H as [Hc H']; destruct Hc as [-> | ->]; cbn [run]; unfold step, mbind, prog_bind, mret, prog_ret; cbn [is_format is_long is_char].
  - change (108 =? 108) with true. cbn. rewrite IH by done. unfold long, short. cbn. by rewrite orb_true_r.
  - change (104 =? 108) with false. change (104 =? 104) with true. cbn. rewrite IH by done. unfold long, short. cbn. by rewrite orb_true_r.
Qed.

Lemma piece_spec p rest l s (Q : flags -> state -> Prop) : piece_ok p -> s.2 = arg p ++ l ->
  (forall t s', says p t -> out s s' t l -> wp (run base fuel plain rest) Q s') -> wp (run base fuel plain (spell p ++ rest)) Q s.
Proof.
  intros Hok Hs HQ. destruct p as [c|mods a]; cbn [spell app run].
  - apply wp_bind. unfold step. cbn [is_format plain]. cbn in Hok. destruct (Z.eqb_spec c 37); [done|].
    cbn [arg app] in Hs. destruct (Z.eqb_spec c LF) as [->|Hc].
    + wp_next kputc_spec. cbn beta. intros _ s1 H1. wp_next kputc_spec. cbn beta. intros _ s2 H2. apply wp_ret.
      rewrite (proj2 H1) in H2. apply (HQ [CR; LF]); [reflexivity|]. rewrite <-Hs. exact (out_trans _ _ _ [CR] [LF] _ _ H1 H2).
    + wp_next kputc_spec. cbn beta. intros _ s1 H1. apply wp_ret. apply (HQ [c .& 0xff]); [|by rewrite <-Hs].
      cbn. by destruct (Z.eqb_spec c LF).
  - apply wp_bind. unfold step. cbn [is_format is_long is_char plain]. change (37 =? 37) with true. cbn match. apply wp_ret.
    rewrite <-app_assoc. unfold wp. rewrite mods_spec by apply Hok. cbn [orb app run]. fold (wp (A:=flags) (S:=state)).
    pose proof (conv_spec mods a l s Hok Hs) as W. unfold wp, mbind, prog_bind in *.
    destruct (step base fuel _ (letter a) s) as [[f s1]| |]; [|done..]. destruct W as (-> & t & Ht & Ho). exact (HQ t s1 Ht Ho).
Qed.

Lemma run_spec ps : forall l s, Forall piece_ok ps -> s.2 = flat_map arg ps ++ l ->
  wp (run base fuel plain (flat_map spell ps)) (fun _ s' => exists outs, Forall2 says ps outs /\ out s s' (concat outs) l) s.
Proof.
  induction ps as [|p ps IH]; intros l s Hok Hs; cbn [flat_map].
  - apply wp_ret. exists []. split; [constructor|]. split; [by rewrite app_nil_r|exact Hs].
  - apply Forall_cons in Hok as [Hp Hps]. cbn [flat_map] in Hs. rewrite <-app_assoc in Hs.
    apply (piece_spec p _ _ s _ Hp Hs). intros t s1 Ht H1. eapply wp_mono; [exact (IH l s1 Hps (proj2 H1))|]. cbn beta.
    intros _ s2 (outs & Ho & H2). exists (t :: outs). split; [by constructor|]. exact (out_trans _ _ _ _ _ _ _ H1 H2).
Qed.
End specs.

(** The boot ROM's messages.  For every format made of characters and conversions, with the
    arguments the conversions name, over any UART whose transmitter drains: the call returns, the
    bytes written to the transmitter are what the pieces say, in order, and nothing else is
    written; the arguments are used up.  So hexadecimal digits read back as the value cut to the
    width, decimals as the value. *)
Theorem kprintf_renders {D} {HD : Mmio D} base fuel ps (s : bus D * list varg) :
  (forall s : bus D * list varg, exists v s', poll fuel (base + STATUS) (fun v => negb (tst v SR_TX_FIFO_FULL)) s = Ret (v, s')) ->
  Forall piece_ok ps -> s.2 = flat_map arg ps ->
  exists s' outs, kprintf base fuel (flat_map spell ps) s = Ret (tt, s') /\ Forall2 says ps outs /\
    wlog s'.1 = wlog s.1 ++ map (pair (base + TX_FIFO)) (concat outs) /\ s'.2 = [].
Proof.
  intros Hd Hok Hs. pose proof (run_spec base fuel Hd ps [] s Hok ltac:(by rewrite app_nil_r)) as W.
  apply wp_run in W as (f & s' & E & outs & Ho & H1 & H2). exists s', outs. split_and!; [|done|done|done].
  unfold kprintf, mbind, prog_bind. by rewrite E.
Qed.

(** The least long: its negation overflows before a digit is stored. *)
Lemma dec_min_undefined {D} {HD : Mmio D} base fuel (s : bus D * list varg) l : s.2 = ALong (- 2 ^ 63) :: l ->
  kprintf base fuel (bytes "%ld") s = Undef.
Proof. destruct s as [b a]. cbn. intros ->. reflexivity. Qed.

(** ** On an idle transmitter *)

#[local] Instance idle_uart : Mmio unit := { mmio_read d r := (4, d); mmio_write d r v := d }.

Lemma idle_drains (s : bus unit * list varg) : exists v s', poll 1 (0x60000000 + STATUS) (fun v => negb (tst v SR_TX_FIFO_FULL)) s = Ret (v, s').
Proof. by eexists _, _. Qed.

Definition ex_args : list varg := [ALong 0x82200000; AInt (-7); AStr (Some (bytes "BOOT"))].

(** The bytes of a call, as the wire sees them. *)
Example ex_rom_wire : match kprintf 0x60000000 1 (bytes "0x%lx %d %s%q") (Bus tt [], ex_args) with Ret (_, s') => map snd (wlog s'.1) | _ => [] end
  = bytes "0x0000000082200000 -7 BOOT".
Proof. by vm_compute. Qed.

Definition ex_pieces : list piece := [Fmt [108] (Hex 0x82200000); Lit LF; Fmt [] (Dec (-7)); Fmt [] (Other 113); Fmt [] (Str (bytes "BOOT"))].

Lemma kprintf_renders_witness : flat_map spell ex_pieces = bytes "%lx" ++ [LF] ++ bytes "%d%q%s" /\
  exists s' outs, kprintf 0x60000000 1 (flat_map spell ex_pieces) (Bus tt [], ex_args) = Ret (tt, s') /\
    Forall2 says ex_pieces outs /\ wlog s'.1 = map (pair 0x60000004) (concat outs).
Proof.
  split; [by vm_compute|].
  destruct (kprintf_renders 0x60000000 1 ex_pieces (Bus tt [], ex_args) idle_drains) as (s' & outs & E & Ho & Hl & _).
  - unfold ex_pieces. repeat constructor; cbn; try (by vm_compute); intuition congruence.
  - reflexivity.
  - exists s', outs. split_and!; [exact E|exact Ho|exact Hl].
Defined.
