(* ===== verification/Console.v ===== *)
(** * The console

    From [printf] to the UART: the line buffer of soctglue/src/stdio (stdio.c, printbuf.h),
    the POSIX calls of soctglue/src/posix (write.c, read.c, exit.c, fstat.c), the system-call
    table (Syscall.v) and the UART handler (syscall-uart.c).  Newlib's write(), read() and
    exit() only forward to the [_write], [_read] and [_exit] modelled here.

    The machine is the UART's registers with the log of the writes to them ([Mmio]) and the
    runtime's own state [sys]: memory, errno, the buffer's fill and the UART's base address.
    The thread's __printbuf is the 128 bytes at [PB]. *)
From Stdlib Require Import String.
From S2P Require Import Prelude Memory Printf Mmio Syscall.
#[local] Abbreviation length := List.length.

Definition SOCT_READ : Z := 0.
Definition SOCT_WRITE : Z := 1.
Definition SOCT_FSTAT : Z := 5.
Definition SOCT_EXIT : Z := 60.
Definition SOCT_STDIN : Z := 0.
Definition SOCT_STDOUT : Z := 1.
Definition SOCT_STDERR : Z := 2.
Definition EFAULT : Z := 14.
Definition EOF : Z := -1.
Definition SR_RX_FIFO_VALID_DATA : Z := 1.
Definition SR_TX_FIFO_FULL : Z := 8.
Definition LF : Z := 10.
Definition CR : Z := 13.

Record sys := Sys { mem : memory; errno : Z; pblen : Z; uart_base : Z }.
Definition set_mem m x := Sys m (errno x) (pblen x) (uart_base x).
Definition set_errno e x := Sys (mem x) e (pblen x) (uart_base x).
Definition set_pblen n x := Sys (mem x) (errno x) n (uart_base x).
Definition set_base b x := Sys (mem x) (errno x) (pblen x) b.

Section console.
Context {D : Type} {HD : Mmio D} (PB : Z).
Abbreviation drv := (prog (bus D * sys)).

Definition get_mem (a : Z) : drv Z := x ← get; mret (mem x (u64 a)).
Definition put_mem (a v : Z) : drv unit := put (fun x => set_mem (store a [u8 v] (mem x)) x).
(** [strlen]; the fuel bounds the length. *)
Fixpoint strlen (fuel : nat) (a : Z) : drv Z :=
  match fuel with
  | O => fuel_out
  | S fuel => c ← get_mem a; if c =? 0 then mret 0 else n ← strlen fuel (a + 1); mret (1 + n)
  end.

(** ** syscall-uart.c *)

Definition RX_FIFO : Z := 0.
Definition TX_FIFO : Z := 4.
Definition STATUS : Z := 8.
Definition reg (r : Z) : drv Z := x ← get; mret (u64 (uart_base x + r)).

Definition tx_free (v : Z) : bool := negb (tst v SR_TX_FIFO_FULL).
Definition put_tx (fuel : nat) (c : Z) : drv unit :=
  st ← reg STATUS; _ ← poll fuel st tx_free;
  tx ← reg TX_FIFO; wr tx (c .& 0xff).
Definition kputc (fuel : nat) (c : Z) : drv unit :=
  (if c =? LF then put_tx fuel CR else mret tt);; put_tx fuel c.

Fixpoint kputs_string (fuel : nat) (s : Z) : drv unit :=
  match fuel with
  | O => fuel_out
  | S k => c ← get_mem s; if c =? 0 then mret tt else kputc fuel c;; kputs_string k (s + 1)
  end.
Fixpoint kputs_bytes (fuel : nat) (s : Z) (n : nat) : drv unit :=
  match n with
  | O => mret tt
  | S n => c ← get_mem s; kputc fuel c;; kputs_bytes fuel (s + 1) n
  end.
Definition kputs (fuel : nat) (s nbyte : Z) : drv unit :=
  if nbyte =? 0 then kputs_string fuel s else kputs_bytes fuel s (Z.to_nat nbyte).

Definition rx_valid (v : Z) : bool := tst v SR_RX_FIFO_VALID_DATA.
Definition kgetc (fuel : nat) : drv Z :=
  st ← reg STATUS; _ ← poll fuel st rx_valid;
  rx ← reg RX_FIFO; v ← rd rx; mret (v .& 0xff).
Fixpoint kgets (fuel : nat) (buf : Z) (n : nat) : drv unit :=
  match n with O => mret tt | S n => c ← kgetc fuel; put_mem buf c;; kgets fuel (buf + 1) n end.

Definition soct_handle_uart (fuel : nat) : handler (bus D * sys) := fun syscall args =>
  let a0 := nth 0 args 0 in let a1 := nth 1 args 0 in let nbyte := nth 2 args 0 in
  if syscall =? SOCT_READ then
    if a0 =? SOCT_STDIN then
      if (nbyte >? 0) && (a1 =? 0) then mret (Some (- EFAULT)) else
      kgets fuel a1 (Z.to_nat nbyte);; mret (Some (s64 nbyte))
    else mret None
  else if syscall =? SOCT_WRITE then
    if (a0 =? SOCT_STDOUT) || (a0 =? SOCT_STDERR) then
      if (nbyte >? 0) && (a1 =? 0) then mret (Some (- EFAULT)) else
      kputs fuel a1 nbyte;; mret (Some (s64 nbyte))
    else mret None
  else mret None.

(** ** posix *)

Section posix.
Context (t : table (bus D * sys)).
(** An argument is converted to [sc_arg_t]; the ones not given are 0. *)
Definition syscall (num : Z) (args : list Z) : drv Z :=
  soct_syscall (fun e s => (s.1, set_errno e s.2)) t num (map u64 args ++ replicate (7 - length args) 0).

Definition write (fd buf nbyte : Z) : drv Z :=
  if (nbyte >? 0) && (buf =? 0) then put (set_errno EFAULT);; mret (-1) else syscall SOCT_WRITE [fd; buf; nbyte].
Definition read (fd buf nbyte : Z) : drv Z :=
  if (nbyte >? 0) && (buf =? 0) then put (set_errno EFAULT);; mret (-1) else syscall SOCT_READ [fd; buf; nbyte].

(** ** stdio *)

Definition to_stdout (buf nbyte : Z) : drv Z := n ← write SOCT_STDOUT buf nbyte; mret (s32 n).

Definition printbuf_flush (len : Z) : drv Z := put (set_pblen 0);; to_stdout PB len.

Definition printbuf_putc (c : Z) : drv Z :=
  x ← get;
  if pblen x >=? 128 then undef else
  put_mem (PB + pblen x) c;; put (set_pblen (pblen x + 1));;
  if (pblen x + 1 >=? 128) || (u8 c =? LF) then printbuf_flush (pblen x + 1) else mret 0.

(** The copying loop, with [room] bytes left in the buffer: where it stopped and whether it
    saw the terminator. *)
Fixpoint puts_copy (room : nat) (s buf : Z) : drv (Z * Z * bool) :=
  match room with
  | O => mret (s, buf, false)
  | S room =>
      c ← get_mem s;
      if c =? 0 then put_mem buf LF;; mret (s + 1, buf + 1, true)
      else put_mem buf c;; puts_copy room (s + 1) (buf + 1)
  end.

(** A newline to print alone: a literal somewhere in memory. *)
Definition printbuf_puts (fuel : nat) (nl s : Z) : drv Z :=
  x ← get;
  '(s, buf, ended) ← puts_copy (Z.to_nat (128 - pblen x)) s (PB + pblen x);
  if ended : bool then r ← printbuf_flush (buf - PB); mret (if r <? 0 then EOF else 0) else
  r ← printbuf_flush 128;
  if r <? 0 then mret EOF else
  n ← strlen fuel s; r ← to_stdout s n;
  if r <? 0 then mret EOF else
  r ← to_stdout nl 1; mret (if r <? 0 then EOF else 0).

(** [__printf_char] over the characters of a format, then the count. *)
Fixpoint printf_chars (cs : list Z) (len : Z) : drv Z :=
  match cs with
  | [] => mret len
  | c :: cs => n ← printbuf_putc c; printf_chars cs (if n >=? 0 then len + n else len)
  end.
Definition printf (fuel : nat) (fmt : list Z) (args : list varg) : drv Z :=
  '(_, o) ← lift (Vx.vxprintf fuel fmt (Vx.St args []));
  printf_chars (Vx.sent o) 0.

(** ** Exit and fstat *)

(** [_exit]: after the call the hart waits for ever; the result is what it left behind. *)
Definition exit_ (code : Z) : drv unit := _ ← syscall SOCT_EXIT [code]; mret tt.
End posix.

(** ** sprintf and snprintf: the bytes stored at [str], terminator included, and the result *)

Definition sprintf (fuel : nat) (fmt : list Z) (args : list varg) : res (list Z * Z) :=
  '(_, o) ← Vx.vxprintf fuel fmt (Vx.St args []);
  let l := map u8 (Vx.sent o) in Ret (l ++ [0], s32 (zlen l)).

(** [__snprintf_putc] with [room] bytes up to [end]. *)
Fixpoint snprintf_chars (room : Z) (cs : list Z) : list Z :=
  match cs with
  | [] => []
  | c :: cs => if 0 <? room then u8 c :: snprintf_chars (room - 1) cs else snprintf_chars room cs
  end.
Definition snprintf (fuel : nat) (size : Z) (fmt : list Z) (args : list varg) : res (list Z * Z) :=
  if size <=? 0 then Ret ([], 0) else
  '(_, o) ← Vx.vxprintf fuel fmt (Vx.St args []);
  let l := snprintf_chars (size - 1) (Vx.sent o) in Ret (l ++ [0], s32 (zlen l)).
End console.
