(* ===== verification/ConsoleProofs.v ===== *)
(** * What is printed reaches the UART

    [console_prints]: any sequence of printf and puts calls puts on the wire, in order and
    each once, the text printed up to what the line buffer still holds, with a carriage
    return before every line feed. *)
From Stdlib Require Import String Ascii.
From S2P Require Import Prelude Memory Printf PrintfProofs Mmio Syscall Console.
Import Spec.
#[local] Abbreviation length := List.length.

(** The bytes on the wire for a text. *)
Definition crlf (l : list Z) : list Z := flat_map (fun c => if c =? LF then [CR; LF] else [c]) l.
Lemma crlf_app a b : crlf (a ++ b) = crlf a ++ crlf b.
Proof. apply flat_map_app. Qed.
#[local] Arguments crlf : simpl never.

Definition byte (c : Z) : Prop := fits 8 c.

Section console.
Context {D : Type} {HD : Mmio D} (PB B : Z) (fuel : nat).
Abbreviation state := (bus D * sys)%type.
Abbreviation drv := (prog state).

(** The transmitter drains: whatever state the UART is in, [fuel] reads of its status see
    room in the FIFO. *)
Hypothesis drains : forall s : state, exists v s', poll fuel (u64 (B + STATUS)) tx_free s = Ret (v, s').

Definition tx (l : list Z) : list (Z * Z) := map (pair (u64 (B + TX_FIFO))) l.
Lemma tx_app a b : tx (a ++ b) = tx a ++ tx b.
Proof. apply map_app. Qed.

(** [m] puts [l] on the wire and changes nothing else. *)
Definition sends {A} (m : drv A) (l : list Z) (a : A) : Prop :=
  forall s, uart_base s.2 = B -> wp m (fun r s' => r = a /\ did s s' (tx l) s.2) s.

Lemma sends_seq {A C} (m : drv A) (k : A -> drv C) l1 l2 a c :
  sends m l1 a -> sends (k a) l2 c -> sends (x ← m; k x) (l1 ++ l2) c.
Proof.
  intros Hm Hk s Hs. wp_next Hm; [done|]. cbn. intros ? s1 (-> & H1). pose proof H1 as [_ E].
  eapply wp_mono; [apply Hk; by rewrite E|]. cbn. intros r s2 (-> & H2). split; [done|]. rewrite tx_app.
  rewrite E in H2. by eapply did_trans.
Qed.

Lemma put_tx_sends c : byte c -> sends (put_tx fuel c) [c] tt.
Proof.
  intros Hc s Hs. unfold put_tx, reg. apply wp_bind, wp_get. cbn. apply wp_bind. destruct (drains s) as (v & s1 & E).
  rewrite Hs. unfold wp at 1. rewrite E. apply poll_did in E as [[E1 E2] _]. rewrite app_nil_r in E1.
  apply wp_bind, wp_get. cbn. unfold wp. cbn. split; [done|]. rewrite E2, Hs. split; cbn; [|done].
  rewrite E1. unfold tx. cbn. do 3 f_equal. change 255 with (Z.ones 8). rewrite Z.land_ones by lia. by apply Z.mod_small.
Qed.

Lemma kputc_sends c : byte c -> sends (kputc fuel c) (crlf [c]) tt.
Proof.
  intros Hc. unfold kputc, crlf. cbn [flat_map]. destruct (Z.eqb_spec c LF) as [->|].
  - change [CR; LF] with ([CR] ++ [LF]). rewrite app_nil_r. eapply sends_seq; by apply put_tx_sends.
  - intros s Hs. apply wp_bind, wp_ret. by apply put_tx_sends.
Qed.

(** ** The handler *)

(** The [n] bytes at [a] are [l]; none of the addresses wraps. *)
Definition holds (m : memory) (a : Z) (l : list Z) : Prop := load (length l) a m = l.

Lemma holds_mem_cons m a c l : holds m a (c :: l) <-> m (u64 a) = c /\ holds m (a + 1) l.
Proof.
  unfold holds, load. cbn [List.length]. rewrite Nat2Z.inj_succ, <-Z.add_1_l, seqZ_app by lia.
  change (seqZ 0 1) with [0]. cbn [map app]. rewrite Z.add_0_r.
  assert (map (fun i => m (u64 (a + i))) (seqZ (0 + 1) (Z.of_nat (length l))) =
          map (fun i => m (u64 (a + 1 + i))) (seqZ 0 (Z.of_nat (length l)))) as ->.
  { change (0 + 1) with (1 + 0). rewrite <-(fmap_add_seqZ 1 0). change (Z.add 1 <$> ?l) with (map (Z.add 1) l). rewrite map_map.
    apply map_ext. intros i. f_equal. f_equal. lia. }
  split; [by intros [= H1 H2]|]. by intros [-> ->].
Qed.

Lemma kputs_bytes_sends m l : Forall byte l -> forall a s, uart_base s.2 = B -> mem s.2 = m -> holds m a l ->
  wp (kputs_bytes fuel a (length l)) (fun _ s' => did s s' (tx (crlf l)) s.2) s.
Proof.
  induction 1 as [|c l Hc Hl IH]; intros a s Hs Hm Hh; [by apply wp_ret, did_refl|].
  apply holds_mem_cons in Hh as [Hh Ht]. cbn [List.length kputs_bytes]. unfold get_mem. apply wp_bind, wp_get. cbn. rewrite Hm, Hh.
  wp_next (kputc_sends c Hc); [done|]. cbn. intros _ s1 (_ & H1). pose proof H1 as [_ E].
  eapply wp_mono; [apply IH; by rewrite ?E|]. cbn. intros _ s2 H2. rewrite E in H2.
  rewrite (crlf_app [c] l : crlf (c :: l) = _), tx_app. by eapply did_trans.
Qed.

Lemma handle_uart_sends m l a args s : uart_base s.2 = B -> mem s.2 = m -> holds m a l -> Forall byte l ->
  a <> 0 -> 0 < zlen l -> fits 63 (zlen l) ->
  wp (soct_handle_uart fuel SOCT_WRITE (SOCT_STDOUT :: a :: zlen l :: args))
     (fun r s' => r = Some (zlen l) /\ did s s' (tx (crlf l)) s.2) s.
Proof.
  intros Hs Hm Hh Hb Ha Hl Hf. unfold soct_handle_uart. cbn [nth].
  change (SOCT_WRITE =? SOCT_READ) with false. change (SOCT_WRITE =? SOCT_WRITE) with true.
  change ((SOCT_STDOUT =? SOCT_STDOUT) || _) with true. cbn iota.
  destruct (Z.eqb_spec a 0); [done|]. rewrite andb_false_r. unfold kputs. destruct (Z.eqb_spec (zlen l) 0); [lia|].
  replace (Z.to_nat (zlen l)) with (length l) by (unfold zlen; lia). apply wp_bind. eapply wp_mono; [by eapply kputs_bytes_sends|]. cbn. intros _ s1 H1.
  apply wp_ret. split; [|done]. f_equal. unfold sgn. unfold fits in Hf. rewrite wrap_small by (unfold fits; lia). zcases.
Qed.

(** ** write() *)

Section calls.
Context (t : table state) (us more : list (handler state)).
Hypothesis Htab : rep t us (soct_handle_uart fuel :: more).
(** No user handler takes what goes to standard output. *)
Hypothesis Hpass : Forall (fun h : handler state => forall a n args s,
  h SOCT_WRITE (SOCT_STDOUT :: a :: n :: args) s = Ret (None, s)) us.

Lemma dispatch_uart a n args s : let args := SOCT_STDOUT :: a :: n :: args in let e := fun e (s : state) => (s.1, set_errno e s.2) in
  dispatch e (us ++ soct_handle_uart fuel :: more) SOCT_WRITE args s =
  (r ← soct_handle_uart fuel SOCT_WRITE args; match r with Some r => answer e r | None => dispatch e more SOCT_WRITE args end) s.
Proof.
  cbn zeta. clear Htab. induction Hpass as [|h hs Hh _ IH]; [done|]. cbn [app dispatch]. unfold mbind at 1, prog_bind at 1.
  rewrite Hh. apply IH. by apply Forall_cons_1 in Hpass as [_ H].
Qed.

Lemma write_sends m l a s : uart_base s.2 = B -> mem s.2 = m -> holds m a l -> Forall byte l ->
  0 < a < 2 ^ 64 -> 0 < zlen l -> fits 31 (zlen l) ->
  wp (to_stdout t a (zlen l)) (fun r s' => r = zlen l /\ did s s' (tx (crlf l)) s.2) s.
Proof.
  intros Hs Hm Hh Hb Ha Hl Hf. unfold fits in Hf. unfold to_stdout, write. destruct (Z.eqb_spec a 0); [lia|]. rewrite andb_false_r.
  unfold syscall. cbn [map List.length Nat.sub replicate app].
  rewrite (wrap_small 64 a), (wrap_small 64 (zlen l)), (wrap_small 64 SOCT_STDOUT) by (done || unfold fits; lia).
  apply wp_bind. unfold wp at 1. rewrite (rep_dispatch _ t _ _ _ _ _ Htab). fold (wp (A := Z) (S := state)).
  rewrite (dispatch_uart a (zlen l)). unfold mbind at 1, prog_bind at 1.
  assert (Hw := handle_uart_sends m l a (replicate 4 0) s Hs Hm Hh Hb ltac:(lia) Hl ltac:(unfold fits; lia)).
  unfold wp in Hw. cbn [replicate] in Hw. destruct (soct_handle_uart _ _ _ s) as [[r s1]| |]; [|done..]. destruct Hw as (-> & H1).
  unfold answer. destruct (Z.ltb_spec (zlen l) 0); [lia|]. cbn. split; [|done]. apply s32_small. unfold INT_MIN, INT_MAX. lia.
Qed.

(** ** The line buffer *)

Context (m0 : memory) (w0 : list (Z * Z)).
Hypothesis HPB : 0 < PB /\ PB + 128 < 2 ^ 64.

(** An address outside the buffer. *)
Definition outside (a : Z) : Prop := fits 64 a /\ ~ PB <= a < PB + 128.

(** The buffer holds [pend] and everything before it, [fl], went out; the rest of memory is
    as at the start. *)
Definition filled (fl pend : list Z) (s : state) : Prop :=
  wlog s.1 = w0 ++ tx (crlf fl) /\ holds (mem s.2) PB pend /\ Forall byte pend /\ uart_base s.2 = B /\
  (forall a, outside a -> mem s.2 a = m0 a).

(** After [text] was printed: what is not on the wire is in the buffer, is shorter than it
    and has no line feed. *)
Definition console (text : list Z) (s : state) : Prop := exists fl pend,
  text = fl ++ pend /\ filled fl pend s /\ pblen s.2 = zlen pend /\ zlen pend < 128 /\ Forall (fun c => c <> LF) pend.

Lemma holds_ext m m' a l : (forall i, 0 <= i < zlen l -> m (u64 (a + i)) = m' (u64 (a + i))) -> holds m a l -> holds m' a l.
Proof. intros H E. unfold holds in *. rewrite <-E at 2. symmetry. by apply load_ext. Qed.

Lemma holds_snoc m a l c : holds m a l -> m (u64 (a + zlen l)) = c -> holds m a (l ++ [c]).
Proof.
  intros H <-. unfold holds. rewrite length_app. cbn [List.length]. rewrite Nat.add_1_r, load_snoc. by rewrite H.
Qed.

Lemma holds_app_l m a l l' : holds m a (l ++ l') -> holds m a l.
Proof.
  revert a. induction l as [|c l IH]; intros a H; [done|]. apply holds_mem_cons in H as [Hc H]. apply holds_mem_cons. split; [done|]. by apply IH.
Qed.

(** One more byte at the end of what the buffer holds. *)
Lemma holds_put m l c : zlen l < 128 -> holds m PB l ->
  holds (store (PB + zlen l) [c] m) PB (l ++ [c]) /\ (forall a, outside a -> store (PB + zlen l) [c] m a = m a).
Proof.
  intros Hl H. pose proof (zlen_nonneg l). assert (forall i, 0 <= i < 128 -> u64 (PB + i) = PB + i) as Hw.
  { intros. apply wrap_small. unfold fits. lia. }
  split.
  - apply holds_snoc.
    + eapply holds_ext; [|exact H]. intros i Hi. rewrite Hw by lia. rewrite store_out; [done|lia|rewrite ?zlen1; lia|unfold fits; lia|rewrite ?zlen1; lia].
    + rewrite Hw by lia. rewrite store_in; [|lia|rewrite ?zlen1; lia|unfold fits; lia]. change (zlen [c]) with 1.
      rewrite Z.sub_diag. zcases. done.
  - intros a [Ha Hn]. apply store_out; [lia|rewrite ?zlen1; lia|done|rewrite ?zlen1; lia].
Qed.

Lemma byte_u8 c : byte (u8 c).
Proof. apply wrap_fits. lia. Qed.

Lemma put_filled fl pend c s : filled fl pend s -> zlen pend < 128 -> byte c ->
  wp (put_mem (PB + zlen pend) c) (fun _ s' => filled fl (pend ++ [c]) s' /\ pblen s'.2 = pblen s.2) s.
Proof.
  intros (Hl & Hh & Hb & Hu & Hm) Hlt Hc. apply wp_put_last. cbn [fst snd]. rewrite (wrap_small 8 c) by done.
  destruct (holds_put (mem s.2) pend c Hlt Hh) as [Hh1 Hm1]. split; [|done]. unfold filled. cbn [fst snd mem set_mem uart_base].
  split_and!; [done|done|by apply Forall_app; split; [|constructor]|done|]. intros a Ha. rewrite Hm1 by done. by apply Hm.
Qed.

(** An empty buffer. *)
Definition flushed (text : list Z) (s : state) : Prop := filled text [] s /\ pblen s.2 = 0.

Lemma flushed_console text s : flushed text s -> console text s.
Proof. intros [Hf Hp]. exists text, []. by rewrite app_nil_r. Qed.

Lemma flush_spec fl pend s : filled fl pend s -> 0 < zlen pend -> zlen pend <= 128 ->
  wp (printbuf_flush PB t (zlen pend)) (fun r s' => r = zlen pend /\ flushed (fl ++ pend) s') s.
Proof.
  intros (Hl & Hh & Hb & Hu & Hm) Hlo Hhi. unfold printbuf_flush. apply wp_put.
  eapply wp_mono; [apply (write_sends (mem s.2) pend PB); [done..|lia|lia|unfold fits; lia]|].
  cbn [fst snd]. intros r s2 (-> & H1 & H2). split; [done|]. unfold flushed, filled. rewrite H1, H2.
  split_and!; [|done..]. cbn [fst]. rewrite Hl, crlf_app, tx_app. by rewrite <-app_assoc.
Qed.

Lemma printbuf_putc_spec text c s : console text s ->
  wp (printbuf_putc PB t c) (fun n s' => 0 <= n /\ console (text ++ [u8 c]) s') s.
Proof.
  intros (fl & pend & -> & Hf & Hn & Hlt & Hp). pose proof (zlen_nonneg pend).
  unfold printbuf_putc. apply wp_get. rewrite Hn. destruct (Z.geb_spec (zlen pend) 128); [lia|].
  replace (put_mem (PB + zlen pend) c) with (put_mem (D := D) (PB + zlen pend) (u8 c)) by (unfold put_mem; by rewrite wrap_wrap).
  wp_next (put_filled fl pend (u8 c) s Hf Hlt (byte_u8 c)). cbn [fst snd]. intros _ s1 [H1 _]. apply wp_put.
  match goal with |- wp _ _ ?st => assert (filled fl (pend ++ [u8 c]) st /\ pblen st.2 = zlen pend + 1) as [H2 P2] by done; set (s2 := st) in * end.
  clearbody s2. rewrite <-app_assoc. destruct ((zlen pend + 1 >=? 128) || (u8 c =? LF)) eqn:E.
  - replace (zlen pend + 1) with (zlen (pend ++ [u8 c])) by (rewrite zlen_app, zlen1; lia).
    eapply wp_mono; [apply (flush_spec fl _ _ H2); rewrite zlen_app, zlen1; lia|]. intros r s3 [-> H3].
    split; [apply zlen_nonneg|by apply flushed_console].
  - apply orb_false_iff in E as [E1 E2]. rewrite Z.geb_leb in E1. apply Z.leb_gt in E1. apply Z.eqb_neq in E2.
    apply wp_ret. split; [lia|]. exists fl, (pend ++ [u8 c]). rewrite P2, zlen_app, zlen1. split_and!; [done|done|done|lia|].
    apply Forall_app. split; [done|by constructor].
Qed.

Lemma printf_chars_spec cs : forall text len s, console text s ->
  wp (printf_chars PB t cs len) (fun _ s' => console (text ++ map u8 cs) s') s.
Proof.
  induction cs as [|c cs IH]; intros text len s Hc; cbn [printf_chars map]; [apply wp_ret; by rewrite app_nil_r|].
  wp_next (printbuf_putc_spec text c s Hc). cbn. intros n s1 (_ & H1). eapply wp_mono; [by apply IH|]. cbn. intros _ s2 H2.
  by rewrite <-app_assoc in H2.
Qed.

(** ** puts *)

(** A string of the caller's, outside the buffer. *)
Definition cstring (a : Z) (l : list Z) : Prop :=
  holds m0 a (l ++ [0]) /\ Forall (fun c => byte c /\ c <> 0) l /\ 0 < a /\ a + zlen l < 2 ^ 64 /\ zlen l < 2 ^ 31 /\
  (a + zlen l < PB \/ PB + 128 <= a).

Lemma cstring_outside a l i : cstring a l -> 0 <= i <= zlen l -> u64 (a + i) = a + i /\ outside (a + i).
Proof.
  intros (_ & _ & H1 & H2 & _ & H3) Hi. assert (fits 64 (a + i)) by (unfold fits; lia). split; [by apply wrap_small|].
  split; [done|]. lia.
Qed.

(** The character a pointer into the string reads. *)
Lemma get_cstring {A} fl pend a l (k : Z -> drv A) Q s : filled fl pend s -> cstring a l ->
  wp (k (hd 0 l)) Q s -> wp (c ← get_mem a; k c) Q s.
Proof.
  intros (_ & _ & _ & _ & Hm) Hs Hk. pose proof (zlen_nonneg l). destruct (cstring_outside a l 0 Hs) as [E Ho]; [lia|].
  rewrite Z.add_0_r in E, Ho. destruct Hs as (Hh & _). unfold get_mem. apply wp_bind, wp_get, wp_ret. rewrite E, Hm by done.
  destruct l as [|c l]; apply holds_mem_cons in Hh as [Hc _]; rewrite E in Hc; by rewrite Hc.
Qed.

Lemma cstring_tl a c l : cstring a (c :: l) -> cstring (a + 1) l.
Proof.
  intros (Hh & Hb & H1 & H2 & H3 & H4). apply holds_mem_cons in Hh as [_ Hh]. apply Forall_cons_1 in Hb as [_ Hb].
  assert (zlen (c :: l) = 1 + zlen l) as E by (unfold zlen; cbn [List.length]; lia). rewrite E in *.
  pose proof (zlen_nonneg l). unfold cstring. split_and!; try done; lia.
Qed.

Lemma puts_copy_spec fl : forall room pend a l s, filled fl pend s -> cstring a l -> zlen pend + Z.of_nat room = 128 ->
  wp (puts_copy room a (PB + zlen pend)) (fun r s' => let '(a', buf, ended) := r in
    if ended : bool then filled fl (pend ++ l ++ [LF]) s' /\ buf - PB = zlen (pend ++ l ++ [LF]) /\ zlen (pend ++ l ++ [LF]) <= 128
    else exists l1 l2, l = l1 ++ l2 /\ filled fl (pend ++ l1) s' /\ zlen (pend ++ l1) = 128 /\ cstring a' l2) s.
Proof.
  induction room as [|room IH]; intros pend a l s Hf Hs Hr; cbn [puts_copy].
  { apply wp_ret. exists [], l. rewrite app_nil_r. split_and!; done || lia. }
  eapply get_cstring; [done..|]. destruct l as [|c l]; cbn [hd].
  - cbn. wp_next (put_filled fl pend LF s Hf); [lia|done|]. cbn. intros _ s1 [H1 _]. apply wp_ret.
    rewrite zlen_app, zlen1. split_and!; [done|lia|lia].
  - pose proof Hs as (_ & Hb & _). apply Forall_cons_1 in Hb as [[Hc Hc0] _]. apply Z.eqb_neq in Hc0 as ->.
    wp_next (put_filled fl pend c s Hf); [lia|done|]. intros _ s1 [H1 _]. cbn beta.
    assert (zlen (pend ++ [c]) = zlen pend + 1) as E by (by rewrite zlen_app).
    replace (PB + zlen pend + 1) with (PB + zlen (pend ++ [c])) by lia.
    eapply wp_mono; [apply (IH (pend ++ [c]) (a + 1) l s1); [done|by eapply cstring_tl|lia]|].
    intros [[a' buf] []] s2; [by rewrite <-!app_assoc|]. intros (l1 & l2 & -> & H2 & H3 & H4).
    exists (c :: l1), l2. rewrite <-app_assoc in H2, H3. done.
Qed.

Lemma strlen_spec fl pend k : forall a l s, filled fl pend s -> cstring a l -> (length l < k)%nat ->
  wp (strlen k a) (fun n s' => n = zlen l /\ s' = s) s.
Proof.
  induction k as [|k IH]; intros a l s Hf Hs Hk; [lia|]. cbn [strlen]. eapply get_cstring; [done..|].
  destruct l as [|c l]; [done|]. cbn [hd]. pose proof Hs as (_ & Hb & _). apply Forall_cons_1 in Hb as [[_ Hc0] _].
  apply Z.eqb_neq in Hc0 as ->. cbn [List.length] in Hk. wp_next (IH (a + 1) l s Hf); [by eapply cstring_tl|lia|].
  intros n s1 [-> ->]. apply wp_ret. split; [|done]. unfold zlen. cbn [List.length]. lia.
Qed.

Lemma handle_uart_empty a args s : uart_base s.2 = B -> mem s.2 (u64 a) = 0 ->
  (0 < fuel)%nat -> soct_handle_uart fuel SOCT_WRITE (SOCT_STDOUT :: a :: 0 :: args) s = Ret (Some 0, s).
Proof.
  intros Hs Hm Hf. unfold soct_handle_uart, kputs. cbn. destruct fuel as [|k]; [lia|]. cbn [kputs_string].
  unfold get_mem, mbind, prog_bind, get, gets. cbn. by rewrite Hm.
Qed.

(** A string, possibly empty, sent while the buffer is empty. *)
Lemma direct_spec text a l s : (0 < fuel)%nat -> flushed text s -> cstring a l ->
  wp (to_stdout t a (zlen l)) (fun r s' => 0 <= r /\ flushed (text ++ l) s') s.
Proof.
  intros Hk [(Hl & Hh & Hb & Hu & Hm) Hp] Hs. pose proof (zlen_nonneg l).
  destruct (cstring_outside a l 0 Hs) as [E Ho]; [lia|]. rewrite Z.add_0_r in E, Ho. destruct l as [|c l'] eqn:El.
  - rewrite app_nil_r. destruct Hs as (H0 & _ & Ha & _). apply holds_mem_cons in H0 as [H0 _].
    unfold to_stdout, write. change (zlen []) with 0. cbn [Z.gtb Z.compare andb]. unfold syscall.
    cbn [map List.length Nat.sub replicate app]. rewrite E. apply wp_bind. unfold wp at 1.
    rewrite (rep_dispatch _ t _ _ _ _ _ Htab), (dispatch_uart a 0). unfold mbind at 1, prog_bind at 1.
    change (u64 SOCT_STDOUT) with SOCT_STDOUT. change (u64 0) with 0.
    assert (mem s.2 (u64 a) = 0) as Hz by (by rewrite E, Hm, <-E).
    rewrite (handle_uart_empty a _ s Hu Hz Hk). by split.
  - rewrite <-El in *. assert (0 < zlen l) by (rewrite El; unfold zlen; cbn [List.length]; lia).
    pose proof Hs as (Hstr & Hc & Ha & Ht & Hz & Hd).
    assert (holds (mem s.2) a l) as Hhl.
    { eapply holds_ext; [|eapply holds_app_l, Hstr]. intros i Hi.
      destruct (cstring_outside a l i Hs) as [-> Hi']; [lia|]. symmetry. by apply Hm. }
    eapply wp_mono; [apply (write_sends (mem s.2) l a); try done; [eapply Forall_impl; [exact Hc|]; by intros ? []|lia]|].
    intros r s2 (-> & H1 & H2). split; [done|]. unfold flushed, filled. rewrite H1, H2. split_and!; [|done..].
    rewrite Hl, crlf_app, tx_app. by rewrite <-app_assoc.
Qed.

Lemma puts_spec text nl a l k s : (0 < fuel)%nat -> console text s -> cstring a l -> cstring nl [LF] -> (length l < k)%nat ->
  wp (printbuf_puts PB t k nl a) (fun r s' => r = 0 /\ console (text ++ l ++ [LF]) s') s.
Proof.
  intros Hk (fl & pend & -> & Hf & Hn & Hlt & _) Hs Hnl Hlk. pose proof (zlen_nonneg pend).
  unfold printbuf_puts. apply wp_get. rewrite Hn.
  wp_next (puts_copy_spec fl (Z.to_nat (128 - zlen pend)) pend a l s Hf Hs); [lia|]. intros [[a' buf] []] s1.
  - intros (H1 & -> & H3). wp_next (flush_spec fl _ s1 H1); [|done|].
    { rewrite !zlen_app, zlen1. pose proof (zlen_nonneg l). lia. }
    intros r s2 [-> H2]. apply wp_ret. pose proof (zlen_nonneg (pend ++ l ++ [LF])). split; [by zcases|].
    rewrite <-app_assoc. by apply flushed_console.
  - intros (l1 & l2 & -> & H1 & H2 & H3). rewrite <-H2.
    wp_next (flush_spec fl _ s1 H1); [lia|lia|]. intros r s2 [-> F2]. cbn beta. destruct (Z.ltb_spec (zlen (pend ++ l1)) 0); [lia|].
    pose proof F2 as [G2 _]. rewrite length_app in Hlk. wp_next (strlen_spec _ _ k a' l2 s2 G2 H3); [lia|]. intros n s3 [-> ->].
    wp_next (direct_spec _ a' l2 s2 Hk F2 H3). intros r s4 [Hr F4]. cbn beta. destruct (Z.ltb_spec r 0); [lia|].
    wp_next (direct_spec _ nl [LF] s4 Hk F4 Hnl). intros r' s5 [Hr' F5]. apply wp_ret. split; [by zcases|].
    apply flushed_console. by rewrite <-!app_assoc in *.
Qed.

Lemma printf_spec text ps k s : console text s -> Forall piece_ok ps -> (length (fmt_of ps) < k)%nat ->
  wp (printf PB t k (fmt_of ps) (args_of ps)) (fun _ s' => exists out, prints ps out /\ console (text ++ map u8 out) s') s.
Proof.
  intros Hc Hp Hk. destruct (vx_renders k ps [] [] Hp Hk) as (out & Ho & E). rewrite app_nil_r in E.
  unfold printf, mbind at 1, wp, prog_bind at 1, lift. rewrite E. fold (wp (A := Z) (S := state)).
  eapply wp_mono; [by apply printf_chars_spec|]. cbn. eauto.
Qed.

(** ** Programs that print *)

(** A program's calls: [CPuts a l] is puts of the string [l] at [a]. *)
Inductive call := CPrintf (ps : list piece) | CPuts (a : Z) (l : list Z).
Definition run_call (k : nat) (nl : Z) (c : call) : drv unit :=
  match c with
  | CPrintf ps => _ ← printf PB t k (fmt_of ps) (args_of ps); mret tt
  | CPuts a _ => _ ← printbuf_puts PB t k nl a; mret tt
  end.
Fixpoint run_calls (k : nat) (nl : Z) (cs : list call) : drv unit :=
  match cs with [] => mret tt | c :: cs => run_call k nl c;; run_calls k nl cs end.

Definition call_ok (k : nat) (c : call) : Prop :=
  match c with
  | CPrintf ps => Forall piece_ok ps /\ (length (fmt_of ps) < k)%nat
  | CPuts a l => cstring a l /\ (length l < k)%nat
  end.
(** The text of a call; characters are stored as bytes. *)
Definition says (c : call) (out : list Z) : Prop :=
  match c with CPrintf ps => exists o, prints ps o /\ out = map u8 o | CPuts _ l => out = l ++ [LF] end.

Lemma run_calls_spec k nl cs : (0 < fuel)%nat -> cstring nl [LF] -> Forall (call_ok k) cs -> forall text s, console text s ->
  wp (run_calls k nl cs) (fun _ s' => exists outs, Forall2 says cs outs /\ console (text ++ concat outs) s') s.
Proof.
  intros Hk Hnl. induction 1 as [|c cs Hc H IH]; intros text s Hs; cbn [run_calls].
  { apply wp_ret. exists []. by rewrite app_nil_r. }
  assert (wp (run_call k nl c) (fun _ s' => exists out, says c out /\ console (text ++ out) s') s) as Hrun.
  { destruct c as [ps|a l]; destruct Hc as [H1 H2]; unfold run_call.
    - wp_next (printf_spec text ps k s Hs H1 H2). intros _ s1 (o & Ho & H3). apply wp_ret. exists (map u8 o). split; [by exists o|done].
    - wp_next (puts_spec text nl a l k s Hk Hs H1 Hnl H2). intros _ s1 [_ H3]. apply wp_ret. by exists (l ++ [LF]). }
  wp_next Hrun. intros _ s1 (out & Ho & H1). eapply wp_mono; [by apply IH|]. intros _ s2 (outs & Ho2 & H2).
  exists (out :: outs). split; [by constructor|]. cbn [concat]. by rewrite app_assoc.
Qed.
End calls.
End console.

(** C6. What a program prints reaches the UART.  For every sequence of printf calls (of any
    well-formed format with its arguments) and puts calls (of any string), started with an
    empty line buffer, over any UART whose transmitter drains and any handler table in which
    the UART handler is the first default one and the user's handlers let standard output
    pass: the calls return, and the text they denote, in order, splits into a part that is on
    the wire, byte for byte with a carriage return before each line feed and nothing else
    written to the UART, and a rest that waits in the buffer; the rest is shorter than 128
    bytes and holds no line feed, so every complete line has been sent. *)
Theorem console_prints {D} {HD : Mmio D} PB B fuel t us more k nl cs (s : bus D * sys) :
  (forall s : bus D * sys, exists v s', poll fuel (u64 (B + STATUS)) tx_free s = Ret (v, s')) ->
  rep t us (soct_handle_uart fuel :: more) ->
  Forall (fun h : handler (bus D * sys) => forall a n args s, h SOCT_WRITE (SOCT_STDOUT :: a :: n :: args) s = Ret (None, s)) us ->
  0 < PB /\ PB + 128 < 2 ^ 64 -> (0 < fuel)%nat ->
  cstring PB (mem s.2) nl [LF] -> Forall (call_ok PB (mem s.2) k) cs -> pblen s.2 = 0 -> uart_base s.2 = B ->
  exists s' outs sent rest, run_calls PB t k nl cs s = Ret (tt, s') /\
    Forall2 says cs outs /\ concat outs = sent ++ rest /\
    wlog s'.1 = wlog s.1 ++ map (pair (u64 (B + TX_FIFO))) (crlf sent) /\
    pblen s'.2 = zlen rest /\ holds (mem s'.2) PB rest /\ zlen rest < 128 /\ Forall (fun c => c <> LF) rest.
Proof.
  intros Hd Ht Hp HPB Hf Hnl Hcs Hn Hb.
  assert (console PB B (mem s.2) (wlog s.1) [] s) as Hs.
  { exists [], []. split_and!; try done. unfold filled. cbn. by rewrite app_nil_r. }
  destruct (wp_run _ _ _ (run_calls_spec PB B fuel Hd t us more Ht Hp (mem s.2) (wlog s.1) HPB k nl cs Hf Hnl Hcs [] s Hs))
    as ([] & s' & E & outs & Ho & fl & pend & Ec & (Hl & Hh & _) & Hpb & Hlt & Hlf).
  by exists s', outs, fl, pend.
Qed.

(** ** An example machine *)

(** A UART with a 16-byte FIFO that sends one byte between two reads of its status. *)
Definition fifo : Type := Z.
#[export] Instance fifo_mmio : Mmio fifo := {|
  mmio_read n r := let n := Z.min n 16 in (if n >=? 16 then SR_TX_FIFO_FULL else 0, Z.max 0 (n - 1));
  mmio_write n r v := n + 1 |}.

Lemma fifo_drains r (s : bus fifo * sys) : exists v s', poll 2 r tx_free s = Ret (v, s').
Proof.
  destruct s as [[n w] x]. cbn. unfold mbind, prog_bind, rd. cbn.
  destruct (Z.geb_spec (n `min` 16) 16); [|by eexists _, _].
  change (tx_free (u32 SR_TX_FIFO_FULL)) with false. cbn.
  destruct (Z.geb_spec ((Z.max 0 (n `min` 16 - 1)) `min` 16) 16); [lia|]. by eexists _, _.
Qed.

Definition ex_mem : memory := store 0x80002000 (bytes "hello" ++ [0]) (store 0x80003000 [LF; 0] (fun _ => 0)).
Definition ex_start : bus fifo * sys := (Bus 0 [], Sys ex_mem 0 0 0x60000000).
Definition ex_table : table (bus fifo * sys) := register_all [Default (soct_handle_uart 2)] no_handlers.
Definition ex_calls : list call :=
  [CPrintf [Lit (ch "x"); Fmt (Dir [FZero] (NLit [5]) None [ML] (CInt (-42))); Lit LF]; CPuts 0x80002000 (bytes "hello");
   CPrintf [Lit (ch "!")]].

(** What the UART got; the last character is still in the buffer. *)
Example ex_wire : (fun r => match r with Ret (_, s') => Some (map snd (wlog s'.1)) | _ => None end)
  (run_calls 0x80001000 ex_table 20 0x80003000 ex_calls ex_start) = Some (bytes "x-00042" ++ [CR; LF] ++ bytes "hello" ++ [CR; LF]).
Proof. vm_compute. reflexivity. Qed.

Lemma console_prints_witness :
  exists s' outs sent rest, run_calls 0x80001000 ex_table 20 0x80003000 ex_calls ex_start = Ret (tt, s') /\
    Forall2 says ex_calls outs /\ concat outs = sent ++ rest /\
    wlog s'.1 = map (pair 0x60000004) (crlf sent) /\
    pblen s'.2 = zlen rest /\ holds (mem s'.2) 0x80001000 rest /\ zlen rest < 128 /\ Forall (fun c => c <> LF) rest.
Proof.
  assert (forall a l, 0x80001080 <= a -> a + zlen l < 2 ^ 40 -> holds ex_mem a (l ++ [0]) -> Forall (fun c => byte c /\ c <> 0) l ->
    zlen l < 2 ^ 31 -> cstring 0x80001000 ex_mem a l) as Hc by (intros; unfold cstring; split_and!; try done; lia).
  refine (console_prints 0x80001000 0x60000000 2 ex_table [] [] 20 0x80003000 ex_calls ex_start _ _ _ _ _ _ _ _ _); try done.
  - intros s. apply fifo_drains.
  - apply (rep_all [Default (soct_handle_uart 2)]).
  - lia.
  - apply Hc; [lia|reflexivity|vm_compute; reflexivity|by repeat constructor|reflexivity].
  - apply Forall_cons. split; [|apply Forall_cons; split; [|apply Forall_cons; split; [|done]]].
    + split; [|cbn; lia]. apply Forall_cons. split; [done|]. apply Forall_cons. split; [|by apply Forall_cons].
      unfold piece_ok, dir_ok, num_ok, conv_ok, wide. cbn [dwidth dprec dconv lmods hd]. split_and!; [by repeat constructor|lia|done..].
    + split; [|cbn; lia]. apply Hc; [lia|reflexivity|vm_compute; reflexivity|by repeat constructor|reflexivity].
    + split; [by repeat constructor|cbn; lia].
Defined.

(** ** snprintf *)

Lemma snprintf_chars_take cs : forall room, 0 <= room -> snprintf_chars room cs = map u8 (take (Z.to_nat room) cs).
Proof.
  induction cs as [|c cs IH]; intros room H; cbn [snprintf_chars]; [by rewrite take_nil|]. destruct (Z.ltb_spec 0 room).
  - replace (Z.to_nat room) with (S (Z.to_nat (room - 1))) by lia. cbn. f_equal. apply IH. lia.
  - replace room with 0 by lia. rewrite (IH 0) by lia. by destruct cs.
Qed.

(** snprintf stays in its buffer: for every well-formed format it stores the text cut to
    [size - 1] bytes and a terminator, [size] bytes at most, and answers how many bytes it
    stored before the terminator (not, as C asks, how many the whole text has); with a size of
    0 it stores nothing and answers 0. *)
Theorem snprintf_truncates k size ps : 0 <= size < 2 ^ 31 -> Forall piece_ok ps -> (length (fmt_of ps) < k)%nat ->
  exists out l n, prints ps out /\ snprintf k size (fmt_of ps) (args_of ps) = Ret (l, n) /\
    l = (if size =? 0 then [] else map u8 (take (Z.to_nat (size - 1)) out) ++ [0]) /\
    zlen l <= size /\ n = Z.min (zlen out) (Z.max 0 (size - 1)).
Proof.
  intros Hs Hp Hk. destruct (vx_renders k ps [] [] Hp Hk) as (out & Ho & E). rewrite app_nil_r in E. cbn [app] in E.
  pose proof (zlen_nonneg out). unfold snprintf. exists out. destruct (Z.leb_spec size 0) as [|H0].
  - exists [], 0. replace size with 0 by lia. split_and!; done || (cbn; lia).
  - eexists _, _. split; [done|]. unfold mbind at 1, res_bind. rewrite E. cbn [Vx.sent]. split; [done|].
    rewrite snprintf_chars_take by lia. destruct (Z.eqb_spec size 0); [lia|]. split; [done|].
    rewrite zlen_app, zlen1, zlen_map, zlen_take by lia. split; [lia|]. rewrite s32_small; [lia|].
    unfold INT_MIN, INT_MAX. lia.
Qed.

Lemma snprintf_truncates_witness :
  let ps := [Fmt (Dir [] (NLit [1; 2]) None [] (CStr (Some (bytes "lines"))))] in
  exists out l n, prints ps out /\ snprintf 10 6 (fmt_of ps) (args_of ps) = Ret (l, n) /\
    l = map u8 (take 5 out) ++ [0] /\ zlen l <= 6 /\ n = Z.min (zlen out) 5.
Proof.
  refine (snprintf_truncates 10 6 _ _ _ _); [lia| |cbn; lia].
  apply Forall_cons. split; [|done]. unfold piece_ok, dir_ok, num_ok, conv_ok. cbn [dwidth dprec dconv hd].
  split_and!; [by repeat constructor|lia|done..].
Defined.
