(* ===== verification/Xhci.v ===== *)
(** * The USB controller test (binaries/baremetal/usb-test/xhci.c)

    [Ring] is the event ring: the driver's [event_pop] and, around it, the machine of all
    interleavings with a controller that follows the xHCI specification (4.9.4).  [Noop] is
    the command round trip over that ring, [Init] the bring-up over any controller's
    registers ([Mmio]).  Messages are left out.  The allocator keeps every structure below
    4 GiB, so the upper half of each 64-bit register write is 0. *)
From stdpp Require Import relations.
From S2P Require Import Prelude Memory Mmio.

Definition XHCI_RING_TRBS : Z := 64.
Definition TRB_BYTES : Z := 16.
Definition TRB_CYCLE : Z := 1.
Definition TRB_TYPE (ctrl : Z) : Z := (ctrl .>> 10) .& 0x3F.
Definition TRB_MAKE_TYPE (t : Z) : Z := u32 (t .<< 10).
Definition TRB_COMPL_CODE (st : Z) : Z := (st .>> 24) .& 0xFF.
Definition TRB_TYPE_NOOP_CMD : Z := 23.
Definition TRB_TYPE_CMD_COMPL : Z := 33.
Definition TRB_TYPE_PORT_STATUS : Z := 34.
Definition COMPL_SUCCESS : Z := 1.

(** The four words of a TRB. *)
Record trb := Trb { w0 : Z; w1 : Z; w2 : Z; w3 : Z }.
Definition trb0 : trb := Trb 0 0 0 0.

Module Ring.
Section ring.
(** The address of the event ring. *)
Context (evt_ring : Z).

(** The segment in DRAM, the dequeue-pointer register, the driver's variables and the
    controller's: where it will write the next event, with which cycle bit, and the event it
    is writing.  [posted] and [popped] record what happened. *)
Record world := World {
  slots : list trb; erdp : Z;
  evt_index : Z; evt_cycle : Z;
  enq : Z; pcs : Z; posting : option trb;
  posted : list trb; popped : list trb }.

Definition slot (w : world) (i : Z) : trb := nth (Z.to_nat i) (slots w) trb0.
Definition write_slot (i : Z) (t : trb) (w : world) : world :=
  World (<[Z.to_nat i := t]> (slots w)) (erdp w) (evt_index w) (evt_cycle w) (enq w) (pcs w) (posting w) (posted w) (popped w).

(** ** The driver *)

(** The slot of the event taken, if there is one, and the new state. *)
Definition event_pop (w : world) : option Z * world :=
  let e := evt_index w in
  if negb (w3 (slot w e) .& TRB_CYCLE =? evt_cycle w) then (None, w) else
  let i := u32 (evt_index w + 1) in
  let wraps := i =? XHCI_RING_TRBS in
  let i := if wraps then 0 else i in
  let c := if wraps then evt_cycle w .^ 1 else evt_cycle w in
  (Some e, World (slots w) ((evt_ring + i * TRB_BYTES) .| 8) i c (enq w) (pcs w) (posting w)
             (posted w) (popped w ++ [slot w e])).

(** ** The controller *)

Definition next (i : Z) : Z := (i + 1) mod XHCI_RING_TRBS.
(** The slot the dequeue pointer names; the low four bits of the register are flags. *)
Definition deq (w : world) : Z := ((erdp w .& cnot 64 0xF) - evt_ring) / TRB_BYTES.
Definition full (w : world) : bool := next (enq w) =? deq w.
Definition with_cycle (c : Z) (t : trb) : trb := Trb (w0 t) (w1 t) (w2 t) ((w3 t .& cnot 32 TRB_CYCLE) .| c).

Definition set_posting o w := World (slots w) (erdp w) (evt_index w) (evt_cycle w) (enq w) (pcs w) o (posted w) (popped w).
(** The word with the cycle bit is written last; then the position moves on. *)
Definition commit (t : trb) (w : world) : world :=
  let t := with_cycle (pcs w) t in
  let w := write_slot (enq w) t w in
  let wraps := enq w =? XHCI_RING_TRBS - 1 in
  World (slots w) (erdp w) (evt_index w) (evt_cycle w) (if wraps then 0 else enq w + 1)
    (if wraps then 1 - pcs w else pcs w) None (posted w ++ [t]) (popped w).

(** A controller step: start an event when the ring has room, write the first three words of
    its slot in any way, finish it. *)
Inductive cstep : world -> world -> Prop :=
| C_begin t w : posting w = None -> full w = false -> cstep w (set_posting (Some t) w)
| C_write t a b c w : posting w = Some t -> cstep w (write_slot (enq w) (Trb a b c (w3 (slot w (enq w)))) w)
| C_commit t w : posting w = Some t -> cstep w (commit t w).

Inductive step : world -> world -> Prop :=
| S_controller w w' : cstep w w' -> step w w'
| S_pop w : step w (event_pop w).2.

(** After [xhci_init]: the ring is zeroed, both sides at its start. *)
Definition start : world :=
  World (replicate (Z.to_nat XHCI_RING_TRBS) trb0) evt_ring 0 1 0 1 None [] [].
End ring.
End Ring.

Module Noop.
Import Ring.
Section noop.
Context (evt_ring cmd_addr : Z).
(** Between any two steps of the driver the controller may move; [hse] is the host-system-error
    bit of each status read. *)
Context (moves : nat -> world -> world) (hse : nat -> bool).

(** The loop of [xhci_noop_roundtrip]; [n] iterations are left.  The words of an event are read
    after the pop, so the controller may have moved in between. *)
Fixpoint await (n : nat) (w : world) : Z * world :=
  match n with
  | O => (-1, w)
  | S n =>
      let '(o, w) := event_pop evt_ring (moves (2 * n + 1) w) in
      match o with
      | None => if hse n then (-1, w) else await n w
      | Some e =>
          let w := moves (2 * n) w in
          let evt := slot w e in
          let type := TRB_TYPE (w3 evt) in
          let code := TRB_COMPL_CODE (w2 evt) in
          let ptr := w0 evt .| (w1 evt .<< 32) in
          if type =? TRB_TYPE_PORT_STATUS then await n w else
          if negb (type =? TRB_TYPE_CMD_COMPL) then (-1, w) else
          if negb (code =? COMPL_SUCCESS) then (-1, w) else
          if negb (ptr =? cmd_addr) then (-1, w) else (0, w)
      end
  end.
Definition ATTEMPTS : nat := Z.to_nat 10000.
(** The command TRB, written before the doorbell is rung. *)
Definition noop_trb : trb := Trb 0 0 0 (TRB_MAKE_TYPE TRB_TYPE_NOOP_CMD .| TRB_CYCLE).
Definition xhci_noop_roundtrip (w : world) : Z * world := await ATTEMPTS w.
End noop.
End Noop.

Module Init.

Definition CAP_CAPLENGTH : Z := 0x00.
Definition CAP_HCSPARAMS1 : Z := 0x04.
Definition CAP_HCCPARAMS1 : Z := 0x10.
Definition CAP_DBOFF : Z := 0x14.
Definition CAP_RTSOFF : Z := 0x18.
Definition OP_USBCMD : Z := 0x00.
Definition OP_USBSTS : Z := 0x04.
Definition OP_CRCR : Z := 0x18.
Definition OP_DCBAAP : Z := 0x30.
Definition OP_CONFIG : Z := 0x38.
Definition USBCMD_RS : Z := 1.
Definition USBCMD_HCRST : Z := 2.
Definition USBSTS_HCH : Z := 1.
Definition USBSTS_CNR : Z := 0x800.
Definition CRCR_RCS : Z := 1.
Definition IR0_ERSTSZ : Z := 0x28.
Definition IR0_ERSTBA : Z := 0x30.
Definition IR0_ERDP : Z := 0x38.

(** The driver's record; pointers are addresses. *)
Record xhci := Xhci_ {
  cap : Z; op : Z; rt : Z; db : Z;
  dcbaa : Z; cmd_ring : Z; evt_ring : Z; erst : Z;
  evt_index : Z; evt_cycle : Z; max_ports : Z }.
(** With it the bytes of DRAM and what malloc will return, call by call. *)
Record hcs := Hcs { hx : xhci; dram : memory; mallocs : list Z }.

Section init.
Context {D : Type} {HD : Mmio D}.
(** The window of DRAM the controller reaches. *)
Context (s_dma_base s_dma_limit : Z).
Abbreviation drv := (prog (bus D * hcs)).

Definition set_hx f : drv unit := put (fun s => Hcs (f (hx s)) (dram s) (mallocs s)).
Definition wr64 (r v : Z) : drv unit := wr r (u32 v);; wr (r + 4) (u32 (v .>> 32)).

(** [n] polls, 100 us apart: whether the register showed [want]. *)
Fixpoint wait_for (n : nat) (r mask want : Z) : drv bool :=
  match n with
  | O => _ ← rd r; mret false
  | S n => v ← rd r; if (v .& mask) =? want then mret true else wait_for n r mask want
  end.

(** [None] is abort(). *)
Definition dma_alloc (size align : Z) : drv (option Z) :=
  s ← get;
  let raw := hd 0 (mallocs s) in
  put (fun s => Hcs (hx s) (dram s) (tl (mallocs s)));;
  if raw =? 0 then mret None else
  let addr := u64 (raw + (align - 1)) .& cnot 64 (align - 1) in
  if (addr <? s_dma_base) || (u64 (addr + size) >? s_dma_limit) then mret None else mret (Some addr).

Definition fill (a n : Z) : drv unit := put (fun s => Hcs (hx s) (store a (replicate (Z.to_nat n) 0) (dram s)) (mallocs s)).
Definition word_bytes (v : Z) : list Z := [u8 v; u8 (v .>> 8); u8 (v .>> 16); u8 (v .>> 24)].
Definition put_word (a v : Z) : drv unit := put (fun s => Hcs (hx s) (store a (word_bytes v) (dram s)) (mallocs s)).

Definition with_cap c (x : xhci) : xhci :=
  Xhci_ c (op x) (rt x) (db x) (dcbaa x) (cmd_ring x) (evt_ring x) (erst x) (evt_index x) (evt_cycle x) (max_ports x).
Definition with_windows op rt db (x : xhci) : xhci :=
  Xhci_ (cap x) op rt db (dcbaa x) (cmd_ring x) (evt_ring x) (erst x) (evt_index x) (evt_cycle x) (max_ports x).
Definition with_ports n (x : xhci) : xhci :=
  Xhci_ (cap x) (op x) (rt x) (db x) (dcbaa x) (cmd_ring x) (evt_ring x) (erst x) (evt_index x) (evt_cycle x) n.
Definition with_rings d c e t (x : xhci) : xhci :=
  Xhci_ (cap x) (op x) (rt x) (db x) d c e t 0 1 (max_ports x).

(** Stop and reset: false when the controller does not answer. *)
Definition halt_and_reset (op : Z) : drv bool :=
  v ← rd (op + OP_USBCMD);
  wr (op + OP_USBCMD) (v .& cnot 32 USBCMD_RS);;
  ok ← wait_for 1000 (op + OP_USBSTS) USBSTS_HCH USBSTS_HCH;
  if negb ok then mret false else
  wr (op + OP_USBCMD) USBCMD_HCRST;;
  ok ← wait_for (Z.to_nat 10000) (op + OP_USBCMD) USBCMD_HCRST 0;
  if negb ok then mret false else
  wait_for (Z.to_nat 10000) (op + OP_USBSTS) USBSTS_CNR 0.

(** Clear the structures and hand them to the controller. *)
Definition install (op rt max_slots d c e t : Z) : drv unit :=
  let ring := XHCI_RING_TRBS * TRB_BYTES in
  fill d ((max_slots + 1) * 8);; fill c ring;; fill e ring;; fill t TRB_BYTES;;
  set_hx (with_rings d c e t);;
  wr (op + OP_CONFIG) max_slots;;
  wr64 (op + OP_DCBAAP) d;;
  wr64 (op + OP_CRCR) (c .| CRCR_RCS);;
  put_word t (u32 e);; put_word (t + 4) 0;; put_word (t + 8) XHCI_RING_TRBS;; put_word (t + 12) 0;;
  wr (rt + IR0_ERSTSZ) 1;;
  wr64 (rt + IR0_ERDP) e;;
  wr64 (rt + IR0_ERSTBA) t.

Definition run (op : Z) : drv bool :=
  v ← rd (op + OP_USBCMD);
  wr (op + OP_USBCMD) (v .| USBCMD_RS);;
  wait_for 1000 (op + OP_USBSTS) USBSTS_HCH 0.

Definition xhci_init (base : Z) : drv (option Z) :=
  set_hx (with_cap base);;
  v ← rd (base + CAP_CAPLENGTH);
  let caplen := v .& 0xFF in
  if (caplen <? 0x20) || (caplen >? 0xFF) then mret (Some (-1)) else
  let op := base + caplen in
  v ← rd (base + CAP_RTSOFF); let rt := base + (v .& cnot 32 0x1F) in
  v ← rd (base + CAP_DBOFF); let db := base + (v .& cnot 32 0x3) in
  set_hx (with_windows op rt db);;
  hcs1 ← rd (base + CAP_HCSPARAMS1);
  let max_slots := hcs1 .& 0xFF in
  set_hx (with_ports ((hcs1 .>> 24) .& 0xFF));;
  _ ← rd (base + CAP_HCCPARAMS1);
  ok ← halt_and_reset op;
  if negb ok then mret (Some (-1)) else
  d ← dma_alloc ((max_slots + 1) * 8) 64; match d with None => mret None | Some d =>
  c ← dma_alloc (XHCI_RING_TRBS * TRB_BYTES) 64; match c with None => mret None | Some c =>
  e ← dma_alloc (XHCI_RING_TRBS * TRB_BYTES) 64; match e with None => mret None | Some e =>
  t ← dma_alloc TRB_BYTES 64; match t with None => mret None | Some t =>
  install op rt max_slots d c e t;;
  ok ← run op;
  mret (Some (if ok : bool then 0 else -1))
  end end end end.
End init.
End Init.
