(* ===== verification/XhciProofs.v ===== *)
(** * The event ring is a queue

    [event_ring_fifo]: under every interleaving of the controller and the driver the driver
    takes exactly the events the controller posted, in order.  [noop_sound]: the round trip
    succeeds only on the completion of its own command. *)
From stdpp Require Import relations.
From S2P Require Import Prelude Mmio Xhci.
Import Ring.

#[local] Abbreviation SIZE := XHCI_RING_TRBS.

(** The cycle bit of lap after lap around the ring, by event number. *)
Definition lap (i : Z) : Z := 1 - (i / SIZE) mod 2.

Lemma lap_range i : lap i = 0 \/ lap i = 1.
Proof. unfold lap. pose proof (Z.mod_pos_bound (i / SIZE) 2). lia. Qed.

Lemma lap_shift i : lap (i + SIZE) = 1 - lap i.
Proof.
  unfold lap. change SIZE with (1 * SIZE) at 1. rewrite Z.div_add by done.
  rewrite (Z.add_mod (i / SIZE) 1 2) by done. pose proof (Z.mod_pos_bound (i / SIZE) 2).
  assert ((i / SIZE) mod 2 = 0 \/ (i / SIZE) mod 2 = 1) as [-> | ->] by lia; done.
Qed.

(** Stepping around the ring. *)
Lemma around i : 0 <= i -> (i + 1) mod SIZE = (if i mod SIZE =? SIZE - 1 then 0 else i mod SIZE + 1) /\
  lap (i + 1) = if i mod SIZE =? SIZE - 1 then 1 - lap i else lap i.
Proof.
  intros Hi. unfold lap. change SIZE with 64. pose proof (Z.div_mod i 64 ltac:(lia)) as E. pose proof (Z.mod_pos_bound i 64 ltac:(lia)).
  set (q := i / 64) in *. set (r := i mod 64) in *. destruct (Z.eqb_spec r (64 - 1)) as [Hr|Hr].
  - assert ((i + 1) / 64 = q + 1) as -> by (symmetry; apply Z.div_unique_pos with 0; lia).
    assert ((i + 1) mod 64 = 0) as -> by (symmetry; apply Z.mod_unique_pos with (q + 1); lia). split; [done|].
    rewrite (Z.add_mod q 1 2) by done. pose proof (Z.mod_pos_bound q 2). assert (q mod 2 = 0 \/ q mod 2 = 1) as [-> | ->] by lia; done.
  - assert ((i + 1) / 64 = q) as -> by (symmetry; apply Z.div_unique_pos with (r + 1); lia).
    split; [|done]. symmetry. apply Z.mod_unique_pos with q; lia.
Qed.

(** Event numbers less than a lap apart have slots of their own. *)
Lemma slot_inj i j : i mod SIZE = j mod SIZE -> i - j < SIZE -> j - i < SIZE -> i = j.
Proof.
  intros E H1 H2. change SIZE with 64 in *. pose proof (Z.div_mod i 64 ltac:(lia)). pose proof (Z.div_mod j 64 ltac:(lia)). lia.
Qed.

Section ring.
Context (base : Z).
Hypothesis Hbase : 0 <= base /\ base mod 64 = 0 /\ base + 1024 <= 2 ^ 32.

Lemma deq_flags i c w : 0 <= i < SIZE -> erdp w = (base + i * TRB_BYTES) .| c -> fits 4 c -> deq base w = i.
Proof.
  intros Hi E Hc. change SIZE with 64 in Hi. unfold deq. rewrite E. change TRB_BYTES with 16.
  assert ((base + i * 16) mod 2 ^ 4 = 0) as Hm.
  { destruct Hbase as (_ & H64 & _). change (2 ^ 4) with 16 in *. rewrite Z.mod_add by done.
    pose proof (Z.div_mod base 64 ltac:(lia)) as Hd. rewrite H64 in Hd. replace base with (base / 64 * 4 * 16) by lia. by apply Z.mod_mul. }
  rewrite (lor_hi_lo (base + i * 16) c 4 ltac:(lia) Hm Hc). unfold fits in Hc.
  assert ((base + i * 16 + c) .& cnot 64 0xF = base + i * 16) as ->.
  { apply Z.bits_inj'. intros k Hk. unfold cnot. rewrite Z.land_spec, wrap_testbit, Z.lnot_spec by lia.
    assert (base + i * 16 = Z.land (base + i * 16 + c) (Z.lnot (Z.ones 4))) as Hx.
    { rewrite ldiff_ones by lia. rewrite Z.add_mod, Hm, (Z.mod_small c) by lia. rewrite (Z.mod_small (0 + c)) by lia. lia. }
    rewrite Hx at 2. rewrite Z.land_spec, Z.lnot_spec by lia. change (Z.ones 4) with 15.
    destruct (Z.ltb_spec k 64); [done|]. cbn [andb]. rewrite andb_false_r.
    rewrite (fits_testbit 64 (base + i * 16 + c)) by (unfold fits; lia). done. }
  replace (base + i * 16 - base) with (i * 16) by lia. by apply Z.div_mul.
Qed.

(** ** The invariant *)

Definition N (w : world) : Z := zlen (posted w).
Definition K (w : world) : Z := zlen (popped w).
Definition nth_posted (w : world) (i : Z) : trb := nth (Z.to_nat i) (posted w) trb0.

Record inv (w : world) : Prop := {
  i_len : length (slots w) = Z.to_nat SIZE;
  i_count : K w <= N w <= K w + (SIZE - 1);
  i_room : posting w <> None -> N w <= K w + (SIZE - 2);
  i_popped : popped w = take (Z.to_nat (K w)) (posted w);
  i_enq : enq w = N w mod SIZE /\ pcs w = lap (N w);
  i_drv : evt_index w = K w mod SIZE /\ evt_cycle w = lap (K w);
  i_deq : deq base w = K w mod SIZE;
  (** the slots of the last lap hold its events, but for the one being written ... *)
  i_slots : forall i, 0 <= i -> N w - SIZE <= i < N w -> posting w = None \/ N w - SIZE < i ->
    slot w (i mod SIZE) = nth_posted w i;
  i_cycle : forall i, 0 <= i < N w -> w3 (nth_posted w i) .& TRB_CYCLE = lap i;
  (** ... which shows the cycle bit of the lap before until the end *)
  i_stale : w3 (slot w (N w mod SIZE)) .& TRB_CYCLE = 1 - lap (N w);
  i_fresh : forall j, N w <= j < SIZE -> w3 (slot w j) .& TRB_CYCLE = 0 }.

Lemma slot_replicate w i : slots w = replicate (Z.to_nat SIZE) trb0 -> slot w i = trb0.
Proof.
  intros E. unfold slot. rewrite E. destruct (nth_in_or_default (Z.to_nat i) (replicate (Z.to_nat SIZE) trb0) trb0) as [H|H]; [|done].
  apply list_elem_of_In in H. by apply elem_of_replicate_inv in H.
Qed.

Lemma inv_start : inv (start base).
Proof.
  assert (forall j, slot (start base) j = trb0) as Hs by (intros; by apply slot_replicate).
  constructor; rewrite ?Hs; try done.
  - apply (deq_flags 0 0); [done| |done]. change (base = (base + 0) .| 0). by rewrite Z.lor_0_r, Z.add_0_r.
  - intros i H1 H2. change (N (start base)) with 0 in H2. lia.
  - intros i H. change (N (start base)) with 0 in H. lia.
  - intros j H. by rewrite Hs.
Qed.

Lemma slot_write i t w j : length (slots w) = Z.to_nat SIZE -> 0 <= i < SIZE -> 0 <= j ->
  slot (write_slot i t w) j = if j =? i then t else slot w j.
Proof.
  intros Hl Hi Hj. unfold slot. cbn [slots write_slot]. rewrite !nth_lookup. destruct (Z.eqb_spec j i) as [->|Hne].
  - by rewrite list_lookup_insert_eq by lia.
  - by rewrite list_lookup_insert_ne by lia.
Qed.

Lemma mod_range i : 0 <= i mod SIZE < SIZE.
Proof. by apply Z.mod_pos_bound. Qed.

Lemma inv_begin t w : inv w -> full base w = false -> inv (set_posting (Some t) w).
Proof.
  intros [L C R P [E1 E2] D Q S Y T F] Hf. constructor; try done.
  - intros _. unfold N, K in *. cbn [posted popped set_posting]. destruct (decide (zlen (posted w) = zlen (popped w) + (SIZE - 1))) as [Hc|]; [|lia].
    exfalso. unfold full in Hf. rewrite Q, E1 in Hf. apply Z.eqb_neq in Hf. apply Hf. unfold next, K.
    rewrite Z.add_mod_idemp_l, Hc by done. replace (zlen (popped w) + (SIZE - 1) + 1) with (zlen (popped w) + 1 * SIZE) by lia. by apply Z.mod_add.
  - intros i H1 H2 [H3|H3]; [done|]. apply S; auto.
Qed.

Lemma inv_write t a b c w : inv w -> posting w = Some t -> inv (write_slot (enq w) (Trb a b c (w3 (slot w (enq w)))) w).
Proof.
  intros [L C R P [E1 E2] D Q S Y T F] Hp. pose proof (mod_range (N w)) as Hn.
  assert (forall j, 0 <= j -> slot (write_slot (enq w) (Trb a b c (w3 (slot w (enq w)))) w) j =
    if j =? N w mod SIZE then Trb a b c (w3 (slot w (N w mod SIZE))) else slot w j) as Hs.
  { intros. rewrite E1. by rewrite slot_write. }
  constructor; try done.
  - cbn [slots write_slot]. by rewrite length_insert.
  - intros i H1 H2 [H3|H3]; [by cbn in H3; congruence|]. change (N (write_slot _ _ w)) with (N w) in *. pose proof (mod_range i).
    rewrite Hs by lia. destruct (Z.eqb_spec (i mod SIZE) (N w mod SIZE)) as [Ei|]; [|by apply S; auto].
    apply slot_inj in Ei; lia.
  - change (N (write_slot _ _ w)) with (N w). rewrite Hs by lia. by rewrite Z.eqb_refl.
  - intros j Hj. change (N (write_slot _ _ w)) with (N w) in Hj. pose proof (zlen_nonneg (posted w)). rewrite Hs by (unfold N in Hj; lia).
    destruct (Z.eqb_spec j (N w mod SIZE)) as [->|]; [|by apply F]. by apply F.
Qed.

Lemma cycle_with c t : c = 0 \/ c = 1 -> w3 (with_cycle c t) .& TRB_CYCLE = c.
Proof.
  intros Hc. cbn [w3 with_cycle]. rewrite Z.land_lor_distr_l, <-Z.land_assoc. change (cnot 32 TRB_CYCLE .& TRB_CYCLE) with 0.
  rewrite Z.land_0_r. by destruct Hc as [-> | ->].
Qed.

Lemma nth_snoc (l : list trb) t i : 0 <= i <= zlen l -> nth (Z.to_nat i) (l ++ [t]) trb0 = if i =? zlen l then t else nth (Z.to_nat i) l trb0.
Proof.
  intros H. unfold zlen in *. destruct (Z.eqb_spec i (Z.of_nat (length l))) as [->|].
  - rewrite app_nth2 by lia. by replace (Z.to_nat _ - length l)%nat with O by lia.
  - by rewrite app_nth1 by lia.
Qed.

Lemma take_snoc (l : list trb) i : 0 <= i < zlen l -> take (Z.to_nat (i + 1)) l = take (Z.to_nat i) l ++ [nth (Z.to_nat i) l trb0].
Proof.
  intros H. unfold zlen in H. replace (Z.to_nat (i + 1)) with (S (Z.to_nat i)) by lia. apply take_S_r.
  rewrite nth_lookup. destruct (lookup_lt_is_Some_2 l (Z.to_nat i)) as [x E]; [lia|]. by rewrite E.
Qed.

Lemma inv_commit t w : inv w -> posting w = Some t -> inv (commit t w).
Proof.
  intros [L C R P [E1 E2] [D1 D2] Q S Y T F] Hp. specialize (R ltac:(by rewrite Hp)). pose proof (mod_range (N w)) as Hn.
  pose proof (zlen_nonneg (posted w)) as H0. fold (N w) in H0. destruct (around (N w) H0) as [A1 A2].
  assert (forall j, 0 <= j -> slot (commit t w) j = if j =? N w mod SIZE then with_cycle (pcs w) t else slot w j) as Hs.
  { intros j Hj. rewrite <-E1. rewrite <-E1 in Hn. exact (slot_write (enq w) (with_cycle (pcs w) t) w j L Hn Hj). }
  assert (N (commit t w) = N w + 1) as HN by (unfold N, commit; cbn [posted]; by rewrite zlen_app).
  assert (K (commit t w) = K w) as HK by done.
  assert (forall i, 0 <= i <= N w -> nth_posted (commit t w) i = if i =? N w then with_cycle (pcs w) t else nth_posted w i) as Hnth.
  { intros i Hi. by apply nth_snoc. }
  assert (forall i, i < N w -> N w - SIZE < i -> (i mod SIZE =? N w mod SIZE) = false) as Hne.
  { intros i Hi1 Hi2. apply Z.eqb_neq. intros Ei. apply slot_inj in Ei; lia. }
  constructor; rewrite ?HN, ?HK.
  - cbn [slots commit write_slot]. by rewrite length_insert.
  - lia.
  - done.
  - cbn [popped posted commit write_slot]. rewrite take_app_le; [done|]. unfold N, K, zlen in *. lia.
  - cbn [enq pcs commit write_slot]. by rewrite A1, A2, E1, E2.
  - done.
  - done.
  - intros i H1 H2 _. pose proof (mod_range i). rewrite Hs, Hnth by lia. destruct (Z.eqb_spec i (N w)) as [->|].
    + by rewrite Z.eqb_refl.
    + rewrite Hne by lia. apply S; [done|lia|]. right. lia.
  - intros i Hi. rewrite Hnth by lia. destruct (Z.eqb_spec i (N w)) as [->|]; [|apply Y; lia]. rewrite E2. apply cycle_with, lap_range.
  - pose proof (mod_range (N w + 1)). rewrite Hs by lia. destruct (Z.lt_ge_cases (N w + 1) SIZE) as [Hlt|Hge].
    + rewrite !Z.mod_small by lia. destruct (Z.eqb_spec (N w + 1) (N w)); [lia|]. rewrite F by lia. unfold lap. by rewrite Z.div_small by lia.
    + assert ((N w + 1) mod SIZE = (N w + 1 - SIZE) mod SIZE) as Em.
      { replace (N w + 1) with (N w + 1 - SIZE + 1 * SIZE) at 1 by lia. by apply Z.mod_add. }
      rewrite Em, Hne by (change SIZE with 64 in *; lia). rewrite S by (change SIZE with 64 in *; lia). rewrite Y by (change SIZE with 64 in *; lia).
      replace (N w + 1) with (N w + 1 - SIZE + SIZE) at 2 by lia. rewrite lap_shift. lia.
  - intros j Hj. rewrite Hs by lia. rewrite (Z.mod_small (N w)) by lia. destruct (Z.eqb_spec j (N w)); [lia|]. apply F. lia.
Qed.

(** What a pop does: nothing when every posted event was taken, otherwise it takes the next
    one, and the slot keeps its words. *)
Lemma pop_cases w : inv w ->
  (K w = N w /\ event_pop base w = (None, w)) \/
  (K w < N w /\ exists w', event_pop base w = (Some (K w mod SIZE), w') /\ inv w' /\
     popped w' = popped w ++ [nth_posted w (K w)] /\ posted w' = posted w /\ slots w' = slots w /\ enq w' = enq w).
Proof.
  intros [L C R P E [D1 D2] Q S Y T F]. pose proof (zlen_nonneg (popped w)) as H0. fold (K w) in H0. pose proof (mod_range (K w)) as Hk.
  unfold event_pop. rewrite D1, D2. destruct (Z.eq_dec (K w) (N w)) as [HKN|HKN].
  - left. split; [done|]. rewrite HKN, T. destruct (Z.eqb_spec (1 - lap (N w)) (lap (N w))); [|done]. pose proof (lap_range (N w)). lia.
  - right. split; [lia|]. assert (slot w (K w mod SIZE) = nth_posted w (K w)) as Hslot.
    { apply S; [done|lia|]. destruct (posting w) eqn:Hp; [right|by left]. specialize (R ltac:(done)). lia. }
    rewrite Hslot, Y by lia. rewrite Z.eqb_refl. cbn [negb]. eexists. split; [done|]. split; [|done].
    destruct (around (K w) H0) as [A1 A2]. rewrite (wrap_small 32 (K w mod SIZE + 1)) by (unfold fits; change SIZE with 64 in *; lia).
    assert ((K w mod SIZE + 1 =? SIZE) = (K w mod SIZE =? SIZE - 1)) as Hw by (change SIZE with 64; destruct (Z.eqb_spec (K w mod 64) (64 - 1)), (Z.eqb_spec (K w mod 64 + 1) 64); done || lia).
    rewrite Hw. pose proof (mod_range (K w + 1)) as Hk1.
    assert (forall x, posted x = posted w -> popped x = popped w ++ [nth_posted w (K w)] -> slots x = slots w -> posting x = posting w ->
      enq x = enq w -> pcs x = pcs w -> evt_index x = (K w + 1) mod SIZE -> evt_cycle x = lap (K w + 1) ->
      erdp x = (base + (K w + 1) mod SIZE * TRB_BYTES) .| 8 -> inv x) as Hinv.
    { intros x X1 X2 X3 X4 X5 X6 X7 X8 X9.
      assert (N x = N w) as HN by (unfold N; by rewrite X1). assert (K x = K w + 1) as HK by (unfold K; by rewrite X2, zlen_app, zlen1).
      assert (forall j, slot x j = slot w j) as Hs by (intros; unfold slot; by rewrite X3).
      assert (forall i, nth_posted x i = nth_posted w i) as Hn by (intros; unfold nth_posted; by rewrite X1).
      constructor; rewrite ?HN, ?HK, ?X3, ?X4, ?X5, ?X6, ?X7, ?X8; try done.
      - lia.
      - intros Hp. specialize (R Hp). lia.
      - rewrite X2, X1, take_snoc by (unfold N in *; lia). by rewrite <-P.
      - eapply deq_flags; [done|exact X9|done].
      - intros i. rewrite Hs, Hn. apply S.
      - intros i. rewrite Hn. apply Y.
      - by rewrite Hs.
      - intros j. rewrite Hs. apply F. }
    apply Hinv; try done; cbn [evt_index evt_cycle erdp].
    + rewrite A2. destruct (K w mod SIZE =? SIZE - 1); [|done]. by destruct (lap_range (K w)) as [-> | ->].
    + by rewrite A1.
Qed.

Lemma inv_pop w : inv w -> inv (event_pop base w).2.
Proof. intros H. destruct (pop_cases w H) as [[_ ->]|(_ & w' & -> & H' & _)]; done. Qed.

Lemma inv_cstep w w' : cstep base w w' -> inv w -> inv w'.
Proof. destruct 1; intros Hi; [by apply inv_begin|by eapply inv_write|by apply inv_commit]. Qed.

Lemma inv_steps w w' : rtc (step base) w w' -> inv w -> inv w'.
Proof. induction 1 as [|x y z [? ? Hc|?] _ IH]; intros Hi; [done| |]; apply IH; [by eapply inv_cstep|by apply inv_pop]. Qed.

Lemma csteps_keep w w' : rtc (cstep base) w w' -> inv w -> inv w' /\ popped w' = popped w /\ posted w `prefix_of` posted w'.
Proof.
  induction 1 as [|x y z Hxy _ IH]; intros Hx; [by split_and!|]. destruct (IH (inv_cstep _ _ Hxy Hx)) as (I & -> & HP).
  assert (popped y = popped x /\ posted x `prefix_of` posted y) as [-> Hxp] by (destruct Hxy; split; [done|done|done|done|done|by eexists]).
  split_and!; [done|done|by etrans].
Qed.

(** Whatever the interleaving, the events taken are the first ones posted, the next pop takes
    the next one if there is one, and an event that was taken can still be read. *)
Lemma fifo w : rtc (step base) (start base) w ->
  popped w `prefix_of` posted w /\ zlen (posted w) - zlen (popped w) < SIZE /\
  match event_pop base w with
  | (None, w') => popped w = posted w /\ w' = w
  | (Some e, w') => exists t rest, posted w = popped w ++ t :: rest /\ popped w' = popped w ++ [t] /\ posted w' = posted w /\
      forall w'', rtc (cstep base) w' w'' -> slot w'' e = t
  end.
Proof.
  intros Hr. pose proof (inv_steps _ _ Hr inv_start) as H. pose proof H as [L C R P E D Q S Y T F].
  assert (posted w = popped w ++ drop (Z.to_nat (K w)) (posted w)) as Hsplit by (rewrite P at 1; by rewrite take_drop).
  split; [by eexists|]. split; [unfold N, K in C; lia|]. destruct (pop_cases w H) as [[Hk ->]|(Hk & w' & -> & H' & Hp & Ho & Hs & _)].
  - split; [|done]. rewrite P. apply take_ge. unfold N, zlen in Hk. lia.
  - exists (nth_posted w (K w)), (drop (Z.to_nat (K w + 1)) (posted w)). pose proof (zlen_nonneg (popped w)) as H0. fold (K w) in H0.
    split; [|split; [done|split; [done|]]].
    + rewrite P at 1. rewrite <-(take_drop (Z.to_nat (K w + 1)) (posted w)) at 1. unfold nth_posted.
      rewrite take_snoc by (unfold N in Hk; lia). by rewrite <-app_assoc.
    + intros w'' Hc. enough (inv w'' /\ popped w'' = popped w' /\ posted w' `prefix_of` posted w'') as (I2 & K2 & [l Hl]).
      { pose proof (i_slots w'' I2 (K w)) as Hsl. assert (K w'' = K w + 1) as HK by (unfold K; rewrite K2, Hp; by rewrite zlen_app, zlen1).
        pose proof (i_count w'' I2). rewrite Hsl; [|done|unfold N in *; rewrite Hl, Ho, zlen_app in *; pose proof (zlen_nonneg l); lia|].
        - unfold nth_posted. rewrite Hl, Ho. rewrite app_nth1; [done|]. unfold N, zlen in Hk. lia.
        - destruct (posting w'') eqn:Hpo; [right|by left]. pose proof (i_room w'' I2 ltac:(by rewrite Hpo)). lia. }
      by apply csteps_keep.
Qed.
End ring.

(** ** The command round trip *)
Import Noop.

Definition is_port (t : trb) : Prop := TRB_TYPE (w3 t) = TRB_TYPE_PORT_STATUS.
(** The completion of the command at [a], with success. *)
Definition completes (a : Z) (t : trb) : Prop :=
  TRB_TYPE (w3 t) = TRB_TYPE_CMD_COMPL /\ TRB_COMPL_CODE (w2 t) = COMPL_SUCCESS /\ w0 t .| (w1 t .<< 32) = a.

Lemma csteps_steps base w w' : rtc (cstep base) w w' -> rtc (step base) w w'.
Proof. apply (rtc_congruence (R := cstep base) id). intros x y. by apply S_controller. Qed.

Section noop.
Context (base : Z) (moves : nat -> world -> world) (hse : nat -> bool) (cmd_addr : Z).
Hypothesis Hbase : 0 <= base /\ base mod 64 = 0 /\ base + 1024 <= 2 ^ 32.
Hypothesis Hmoves : forall i w, rtc (cstep base) w (moves i w).

Lemma moves_steps i w0 w : rtc (step base) w0 w -> rtc (step base) w0 (moves i w).
Proof.
  intros H. etrans; [exact H|]. apply csteps_steps, Hmoves.
Qed.

(** One look at the ring: what the next turn of the loop sees. *)
Lemma look i j w : rtc (step base) (start base) w -> let x := moves i w in
  posted w `prefix_of` posted x /\ popped x = popped w /\
  match event_pop base x with
  | (None, y) => popped w = posted x /\ y = x
  | (Some e, y) => exists t rest, posted x = popped w ++ t :: rest /\ slot (moves j y) e = t /\
      popped (moves j y) = popped w ++ [t] /\ posted x `prefix_of` posted (moves j y) /\ rtc (step base) (start base) (moves j y)
  end.
Proof.
  intros Hr x. pose proof (moves_steps i _ _ Hr) as Hx. fold x in Hx.
  destruct (csteps_keep base w x (Hmoves i w) (inv_steps base Hbase _ _ Hr (inv_start base Hbase))) as (_ & Ep & Hp).
  split; [done|]. split; [done|]. destruct (fifo base Hbase x Hx) as (_ & _ & Hf). pose proof (S_pop base x) as Hs.
  destruct (event_pop base x) as [[e|] y]; [|by rewrite <-Ep]. destruct Hf as (t & rest & E1 & E2 & E4 & E3). cbn [snd] in Hs.
  assert (rtc (step base) (start base) y) as Hy by (by eapply rtc_r).
  destruct (csteps_keep base y (moves j y) (Hmoves j y) (inv_steps base Hbase _ _ Hy (inv_start base Hbase))) as (_ & F1 & F2).
  exists t, rest. rewrite <-Ep, F1, E2. split_and!; [done|by apply E3|done|by rewrite <-E4|by apply moves_steps].
Qed.

Lemma await_spec n : forall w, rtc (step base) (start base) w ->
  let '(r, w') := await base cmd_addr moves hse n w in
  rtc (step base) (start base) w' /\
  ((r = 0 /\ exists ports t, popped w' = popped w ++ ports ++ [t] /\ Forall is_port ports /\ completes cmd_addr t) \/
   (r = -1 /\ forall ports t rest, posted w = popped w ++ ports ++ t :: rest -> Forall is_port ports -> completes cmd_addr t -> (n <= length ports)%nat)).
Proof.
  induction n as [|n IH]; intros w Hr; cbn [await].
  { split; [done|]. right. split; [done|]. intros. lia. }
  destruct (look (2 * n + 1) (2 * n) w Hr) as (Hp & Ep & Hl). destruct (event_pop base (moves (2 * n + 1) w)) as [[e|] y].
  - destruct Hl as (t & rest & E1 & -> & E2 & E3 & Hr'). set (v := moves (2 * n) y) in *.
    assert (forall ports u more, posted w = popped w ++ ports ++ u :: more -> exists more', ports ++ u :: more' = t :: rest) as Hfirst.
    { intros ports u more Hu. destruct Hp as [l Hp]. rewrite Hp, Hu, <-!app_assoc in E1. apply app_inv_head in E1.
      exists (more ++ l). by rewrite <-E1. }
    destruct (Z.eqb_spec (TRB_TYPE (w3 t)) TRB_TYPE_PORT_STATUS) as [Ht|Ht].
    + specialize (IH v Hr'). destruct (await _ _ _ _ n v) as [r w']. destruct IH as (Hw' & [(-> & ports & u & Hu & Hports & Hc)|(-> & Hno)]); (split; [done|]).
      * left. split; [done|]. exists (t :: ports), u. split_and!; [|by constructor|done]. rewrite Hu, E2. by rewrite <-app_assoc.
      * right. split; [done|]. intros ports u more Hu Hports Hc. destruct (Hfirst _ _ _ Hu) as [more' Hm].
        destruct ports as [|p ports]; cbn in Hm; injection Hm as -> Hrest.
        { destruct Hc as (Hc & _). rewrite Ht in Hc. done. }
        apply Forall_cons_1 in Hports as [_ Hports]. destruct E3 as [l E3]. cbn [length]. apply le_n_S.
        apply (Hno ports u (more' ++ l)); [|done..]. rewrite E3, E1, <-Hrest, E2, <-!app_assoc. cbn. by rewrite <-app_assoc.
    + assert (forall (r : Z), r = -1 -> ~ completes cmd_addr t -> rtc (step base) (start base) v /\
        ((r = 0 /\ exists ports t, popped v = popped w ++ ports ++ [t] /\ Forall is_port ports /\ completes cmd_addr t) \/
         (r = -1 /\ forall ports t rest, posted w = popped w ++ ports ++ t :: rest -> Forall is_port ports -> completes cmd_addr t -> (S n <= length ports)%nat))) as Hbad.
      { intros r -> Hnc. split; [done|]. right. split; [done|]. intros ports u more Hu Hports Hc. destruct (Hfirst _ _ _ Hu) as [more' Hm].
        destruct ports as [|p ports]; cbn in Hm; injection Hm as -> Hrest; [done|]. by apply Forall_cons_1 in Hports as [? _]. }
      destruct (Z.eqb_spec (TRB_TYPE (w3 t)) TRB_TYPE_CMD_COMPL); cbn [negb]; [|apply Hbad; [done|by intros (? & _)]].
      destruct (Z.eqb_spec (TRB_COMPL_CODE (w2 t)) COMPL_SUCCESS); cbn [negb]; [|apply Hbad; [done|by intros (_ & ? & _)]].
      destruct (Z.eqb_spec (w0 t .| (w1 t .<< 32)) cmd_addr); cbn [negb]; [|apply Hbad; [done|by intros (_ & _ & ?)]].
      split; [done|]. left. split; [done|]. exists [], t. by split_and!.
  - destruct Hl as (El & ->). set (x := moves (2 * n + 1) w) in *. assert (rtc (step base) (start base) x) as Hx by (by apply moves_steps).
    assert (posted w = popped w) as Enone.
    { destruct Hp as [l Hp]. destruct (fifo base Hbase w Hr) as ([k Hk] & _). rewrite Hp, Hk in El.
      assert (k = [] /\ l = []) as [-> ->]; [|by rewrite app_nil_r in Hk].
      apply (f_equal length) in El. rewrite !length_app in El. destruct k, l; cbn in El; done || lia. }
    assert (forall m ports t rest, posted w = popped w ++ ports ++ t :: rest -> (m <= length ports)%nat) as Habs.
    { intros m ports t rest E. exfalso. rewrite Enone in E. apply (f_equal length) in E. rewrite !length_app in E. cbn in E. lia. }
    destruct (hse n).
    + split; [done|]. right. split; [done|]. intros ports t rest E _ _. by eapply Habs.
    + specialize (IH x Hx). destruct (await _ _ _ _ n x) as [r w']. destruct IH as (Hw' & [(-> & ports & u & Hu & Hc)|(-> & Hno)]); (split; [done|]).
      * left. split; [done|]. exists ports, u. by rewrite <-Ep.
      * right. split; [done|]. intros ports t rest E _ _. by eapply Habs.
Qed.
End noop.

(** C11. The event ring is a queue: under every interleaving of the driver's pops with a
    controller that follows the specification (it starts an event only when the ring has room
    by the dequeue pointer the driver wrote, writes the words of a slot in any order but the
    cycle bit last, and counts its laps in that bit), for any number of laps: the events the
    driver took are exactly the first ones posted, in order, none twice and none invented;
    at most 63 wait; a pop finds nothing only when every posted event was taken, and
    otherwise takes the next one; and although the dequeue pointer is already past it, the
    slot of the event taken keeps its words, whatever the controller does, until the driver
    pops again. *)
Theorem event_ring_fifo base w : 0 <= base /\ base mod 64 = 0 /\ base + 1024 <= 2 ^ 32 -> rtc (step base) (start base) w ->
  popped w `prefix_of` posted w /\ zlen (posted w) - zlen (popped w) < SIZE /\
  match event_pop base w with
  | (None, w') => popped w = posted w /\ w' = w
  | (Some e, w') => exists t rest, posted w = popped w ++ t :: rest /\ popped w' = popped w ++ [t] /\ posted w' = posted w /\
      forall w'', rtc (cstep base) w' w'' -> slot w'' e = t
  end.
Proof. intros. by apply fifo. Qed.

(** The command round trip tells the truth.  With the controller moving at any time and the
    host-system-error bit reading anything: the loop ends; it answers 0 only after it took,
    behind nothing but port-status events, an event the controller posted that is a successful
    completion of this very command; and when it answers -1 no such completion was waiting
    among the first 10000 events when it started. *)
Theorem noop_roundtrip_sound base cmd_addr moves hse w :
  0 <= base /\ base mod 64 = 0 /\ base + 1024 <= 2 ^ 32 -> (forall i w, rtc (cstep base) w (moves i w)) ->
  rtc (step base) (start base) w ->
  let '(r, w') := xhci_noop_roundtrip base cmd_addr moves hse w in
  (r = 0 /\ exists ports t, popped w' = popped w ++ ports ++ [t] /\ popped w' `prefix_of` posted w' /\
     Forall is_port ports /\ completes cmd_addr t) \/
  (r = -1 /\ forall ports t rest, posted w = popped w ++ ports ++ t :: rest -> Forall is_port ports ->
     completes cmd_addr t -> 10000 <= zlen ports).
Proof.
  intros Hb Hm Hr. pose proof (await_spec base moves hse cmd_addr Hb Hm ATTEMPTS w Hr) as H.
  unfold xhci_noop_roundtrip. destruct (await _ _ _ _ ATTEMPTS w) as [r w'].
  destruct H as (Hw & [(-> & ports & t & Hp & Hf & Hc)|(-> & Hno)]); [left|right]; (split; [done|]).
  - exists ports, t. split_and!; [done| |done..]. by apply (fifo base Hb w' Hw).
  - intros ports t rest E Hf Hc. specialize (Hno ports t rest E Hf Hc). unfold ATTEMPTS in Hno. unfold zlen. lia.
Qed.

(** ** An example: a controller that posts an event whenever it can *)

Definition ex_base : Z := 0x10000.
Definition ex_cmd : Z := 0x20000.
Definition auto_post (t : trb) (w : world) : world :=
  match posting w with None => if full ex_base w then w else commit t (set_posting (Some t) w) | Some _ => w end.

Lemma auto_post_moves t w : rtc (cstep ex_base) w (auto_post t w).
Proof.
  unfold auto_post. destruct (posting w) eqn:Hp; [done|]. destruct (full ex_base w) eqn:Hf; [done|].
  eapply rtc_l; [by apply C_begin|]. by apply rtc_once, C_commit.
Qed.

(** A port announces itself, then the command completes. *)
Definition ex_port : trb := Trb 0x01000000 0 0x01000000 (TRB_MAKE_TYPE TRB_TYPE_PORT_STATUS).
Definition ex_done : trb := Trb ex_cmd 0 0x01000000 (TRB_MAKE_TYPE TRB_TYPE_CMD_COMPL).
Definition ex_moves (i : nat) : world -> world := auto_post (if Z.of_nat i =? 2 * 9999 + 1 then ex_port else ex_done).

Example ex_roundtrip : (xhci_noop_roundtrip ex_base ex_cmd ex_moves (fun _ => false) (start ex_base)).1 = 0.
Proof. vm_compute. reflexivity. Qed.

Lemma event_ring_fifo_witness :
  let w := auto_post ex_port (start ex_base) in
  popped w `prefix_of` posted w /\ zlen (posted w) - zlen (popped w) < 64 /\
  match event_pop ex_base w with
  | (None, w') => popped w = posted w /\ w' = w
  | (Some e, w') => exists t rest, posted w = popped w ++ t :: rest /\ popped w' = popped w ++ [t] /\ posted w' = posted w /\
      forall w'', rtc (cstep ex_base) w' w'' -> slot w'' e = t
  end.
Proof.
  refine (event_ring_fifo ex_base (auto_post ex_port (start ex_base)) _ _); [by split_and!|].
  apply csteps_steps, auto_post_moves.
Defined.

Lemma noop_roundtrip_sound_witness :
  let '(r, w') := xhci_noop_roundtrip ex_base ex_cmd ex_moves (fun _ => false) (start ex_base) in
  (r = 0 /\ exists ports t, popped w' = ports ++ [t] /\ popped w' `prefix_of` posted w' /\
     Forall is_port ports /\ completes ex_cmd t) \/
  (r = -1 /\ forall ports t rest, [] = ports ++ t :: rest -> Forall is_port ports ->
     completes ex_cmd t -> 10000 <= zlen ports).
Proof.
  apply (noop_roundtrip_sound ex_base ex_cmd ex_moves (fun _ => false) (start ex_base));
    [by split_and!|intros i w; apply auto_post_moves|done].
Defined.
