(* ===== verification/XhciInit.v ===== *)
(** * Bringing the controller up

    [init_ready]: when [xhci_init] succeeds the controller was stopped, reset, given its
    structures and started, in that order, and the event ring is as [Ring.start] says. *)
From S2P Require Import Prelude Memory Mmio Xhci.

Section init.
Context {D : Type} {HD : Mmio D} (lo hi : Z).
Abbreviation state := (bus D * Init.hcs)%type.

Lemma wp_wait {B} n r m v (k : bool -> prog state B) Q s0 s l x : did s0 s l x ->
  (forall b s1, did s0 s1 l x -> wp (k b) Q s1) -> wp (b ← Init.wait_for n r m v; k b) Q s.
Proof.
  intros H Hk. apply wp_bind. revert s H. induction n as [|n IH]; intros s H; cbn [Init.wait_for];
    (eapply wp_rd; [exact H|]; intros w s1 H1).
  - by apply wp_ret, Hk.
  - destruct (_ =? _); [by apply wp_ret, Hk|by apply IH].
Qed.

Lemma wp_wr64 {B} r v (k : unit -> prog state B) Q s0 s l x : did s0 s l x ->
  (forall s1, did s0 s1 (l ++ [(r, u32 v); (r + 4, u32 (v .>> 32))]) x -> wp (k tt) Q s1) -> wp (u ← Init.wr64 r v; k u) Q s.
Proof.
  intros H Hk. apply wp_bind. unfold Init.wr64. eapply wp_wr; [exact H|]. intros s1 [H1 H2]. unfold wp, wr. apply Hk.
  split; cbn; [by rewrite H1, <-!app_assoc|done].
Qed.

(** An allocation: aligned, inside the window, inside the block malloc returned. *)
Definition granted (raw size a : Z) : Prop :=
  a mod 64 = 0 /\ lo <= a /\ u64 (a + size) <= hi /\ raw <= a /\ a + size <= raw + size + 64.

Lemma align_up raw : fits 64 (raw + 63) -> u64 (raw + (64 - 1)) .& cnot 64 (64 - 1) = (raw + 63) / 64 * 64.
Proof.
  intros H. rewrite wrap_small by done. change (64 - 1) with 63. set (y := raw + 63) in *.
  assert (y .& cnot 64 63 = Z.land y (Z.lnot (Z.ones 6))) as ->.
  { apply Z.bits_inj'. intros k Hk. unfold cnot. rewrite !Z.land_spec, wrap_testbit by lia. change (Z.ones 6) with 63.
    destruct (Z.ltb_spec k 64); [done|]. by rewrite (fits_testbit 64 y) by (done || lia). }
  rewrite ldiff_ones by lia. change (2 ^ 6) with 64. pose proof (Z.div_mod y 64 ltac:(lia)). lia.
Qed.

Lemma wp_alloc {B} size (k : option Z -> prog state B) Q s0 s l x : did s0 s l x ->
  (0 < hd 0 (Init.mallocs x) -> fits 64 (hd 0 (Init.mallocs x) + 63)) -> 0 <= hd 0 (Init.mallocs x) ->
  (forall o s1, did s0 s1 l (Init.Hcs (Init.hx x) (Init.dram x) (tl (Init.mallocs x))) ->
     match o with Some a => granted (hd 0 (Init.mallocs x)) size a | None => True end -> wp (k o) Q s1) ->
  wp (o ← Init.dma_alloc lo hi size 64; k o) Q s.
Proof.
  intros H Hf H0 Hk. apply wp_bind. unfold Init.dma_alloc. apply wp_get. pose proof H as [_ ->].
  eapply wp_putd; [exact H|]. intros s1 H1. destruct (Z.eqb_spec (hd 0 (Init.mallocs x)) 0) as [|Hne]; [by apply wp_ret, Hk|].
  rewrite align_up by (apply Hf; lia). set (raw := hd 0 (Init.mallocs x)) in *. set (a := (raw + 63) / 64 * 64).
  destruct ((a <? lo) || (u64 (a + size) >? hi)) eqn:E; apply wp_ret, Hk; [done..|].
  apply orb_false_iff in E as [E1 E2]. unfold granted. assert (a mod 64 = 0) by (unfold a; by apply Z.mod_mul).
  pose proof (Z.div_mod (raw + 63) 64 ltac:(lia)). pose proof (Z.mod_pos_bound (raw + 63) 64 ltac:(lia)).
  split_and!; [done|lia|rewrite Z.gtb_ltb in E2; lia|unfold a; lia|unfold a; lia].
Qed.

Definition w64 (r v : Z) : list (Z * Z) := [(r, u32 v); (r + 4, u32 (v .>> 32))].

(** What [install] writes, and the memory it leaves. *)
Definition config_words (op rt slots d c e t : Z) : list (Z * Z) :=
  [(op + Init.OP_CONFIG, slots)] ++ w64 (op + Init.OP_DCBAAP) d ++ w64 (op + Init.OP_CRCR) (c .| 1) ++
  [(rt + Init.IR0_ERSTSZ, 1)] ++ w64 (rt + Init.IR0_ERDP) e ++ w64 (rt + Init.IR0_ERSTBA) t.
Definition cleared (slots d c e t : Z) (m : memory) : memory :=
  let z a n := store a (replicate (Z.to_nat n) 0) in
  let w a v := store a (Init.word_bytes v) in
  w (t + 12) 0 (w (t + 8) 64 (w (t + 4) 0 (w t (u32 e) (z t 16 (z e 1024 (z c 1024 (z d ((slots + 1) * 8) m))))))).

Lemma wp_install {B} op rt slots d c e t (k : unit -> prog state B) Q s0 s l x : did s0 s l x ->
  (forall s1, did s0 s1 (l ++ config_words op rt slots d c e t)
     (Init.Hcs (Init.with_rings d c e t (Init.hx x)) (cleared slots d c e t (Init.dram x)) (Init.mallocs x)) -> wp (k tt) Q s1) ->
  wp (u ← Init.install op rt slots d c e t; k u) Q s.
Proof.
  intros H Hk. apply wp_bind. unfold Init.install, Init.fill, Init.set_hx, Init.put_word.
  do 5 (eapply wp_putd; [exact H|]; clear s H; intros s H).
  eapply wp_wr; [exact H|]; clear s H; intros s H. do 2 (eapply wp_wr64; [exact H|]; clear s H; intros s H).
  do 4 (eapply wp_putd; [exact H|]; clear s H; intros s H). eapply wp_wr; [exact H|]; clear s H; intros s H.
  eapply wp_wr64; [exact H|]; clear s H; intros s H. unfold Init.wr64. eapply wp_wr; [exact H|]; clear s H; intros s [H1 H2].
  apply Hk. split; cbn [fst snd wlog]; [|by rewrite H2]. cbn. rewrite H1, <-!app_assoc. done.
Qed.

Lemma wp_reset {B} op (k : bool -> prog state B) Q s0 s l x : did s0 s l x ->
  (forall s1, wp (k false) Q s1) ->
  (forall v s1, did s0 s1 (l ++ [(op + 0, v .& cnot 32 1); (op + 0, 2)]) x -> wp (k true) Q s1) ->
  wp (ok ← Init.halt_and_reset op; k ok) Q s.
Proof.
  intros H Hno Hyes. apply wp_bind. unfold Init.halt_and_reset. eapply wp_rd; [exact H|]. intros v s1 H1.
  eapply wp_wr; [exact H1|]. intros s2 H2. eapply wp_wait; [exact H2|]. intros [] s3 H3; cbn [negb]; [|by apply wp_ret].
  eapply wp_wr; [exact H3|]. intros s4 H4. eapply wp_wait; [exact H4|]. intros [] s5 H5; cbn [negb]; [|by apply wp_ret].
  rewrite <-app_assoc in H5.
  assert (forall s6, did s0 s6 (l ++ [(op + 0, v .& cnot 32 1); (op + 0, 2)]) x -> wp (k true) Q s6) as Ht by (intros; by eapply Hyes).
  revert H5. generalize s5. induction (Z.to_nat 10000) as [|n IH]; intros s6 H6; cbn [Init.wait_for];
    (apply (wp_rd _ _ _ s0 _ _ x H6); intros w s7 H7).
  - by apply wp_ret.
  - destruct (_ =? _); [by apply wp_ret, Ht|by apply IH].
Qed.

Lemma wp_start {B} op (k : bool -> prog state B) Q s0 s l x : did s0 s l x ->
  (forall v ok s1, did s0 s1 (l ++ [(op + 0, v .| 1)]) x -> wp (k ok) Q s1) -> wp (ok ← Init.run op; k ok) Q s.
Proof.
  intros H Hk. apply wp_bind. unfold Init.run. eapply wp_rd; [exact H|]. intros v s1 H1. eapply wp_wr; [exact H1|].
  change (Z.to_nat 1000) with 1000%nat. generalize 1000%nat. intros n s2 H2. revert s2 H2.
  induction n as [|n IH]; intros s2 H2; cbn [Init.wait_for]; (eapply wp_rd; [exact H2|]; intros w s3 H3).
  - apply wp_ret. by eapply Hk.
  - destruct (_ =? _); [apply wp_ret; by eapply Hk|by apply IH].
Qed.

(** ** The memory they are left in *)

Lemma load_zero a n m : 0 <= a -> a + n < 2 ^ 64 -> 0 <= n -> (forall x, a <= x < a + n -> m x = 0) -> load (Z.to_nat n) a m = replicate (Z.to_nat n) 0.
Proof.
  intros Ha Hn H0 H. apply (list_eq_same_length _ _ (Z.to_nat n)); [by rewrite length_replicate|by rewrite load_length|].
  intros i x y Hi Hx Hy. apply lookup_replicate in Hy as [-> _]. unfold load in Hx. apply list_lookup_fmap_Some in Hx as (j & -> & Hj).
  apply lookup_seqZ in Hj as [-> Hj]. rewrite wrap_small by (unfold fits; lia). apply H. lia.
Qed.

Lemma replicate_nth n x : nth x (replicate n (0 : Z)) 0 = 0.
Proof. revert x. induction n as [|n IH]; intros [|x]; cbn; auto. Qed.

Definition apart (a n b m : Z) : Prop := a + n <= b \/ b + m <= a.

Lemma cleared_ring slots d c e t m : 0 <= e -> e + 1024 < 2 ^ 64 -> 0 <= t -> t + 16 < 2 ^ 64 -> apart e 1024 t 16 ->
  load 1024 e (cleared slots d c e t m) = replicate 1024 0.
Proof.
  intros He1 He2 Ht1 Ht2 Hap. apply (load_zero e 1024); [done..|]. intros x Hx. unfold cleared.
  assert (forall a v m, t <= a -> a + 4 <= t + 16 -> store a (Init.word_bytes v) m x = m x) as Hw.
  { intros a v m' H1 H2. apply store_out; [lia|change (zlen (Init.word_bytes v)) with 4; lia|unfold fits; lia|].
    change (zlen (Init.word_bytes v)) with 4. unfold apart in Hap. lia. }
  rewrite !Hw by lia. rewrite store_out; [|lia|done|unfold fits; lia|].
  - rewrite store_in by (done || (unfold fits; lia)). change (zlen (replicate (Z.to_nat 1024) 0)) with 1024.
    destruct (Z.leb_spec e x), (Z.ltb_spec x (e + 1024)); try lia. cbn [andb]. apply replicate_nth.
  - change (zlen (replicate (Z.to_nat 16) 0)) with 16. unfold apart in Hap. lia.
Qed.

(** malloc's answers: each fits with its slack, and the blocks of the event ring and of its
    segment table are apart, as malloc's always are. *)
Definition heap_ok (ms : list Z) : Prop :=
  Forall (fun raw => 0 <= raw /\ fits 64 (raw + (1024 + 64))) ms /\ length ms = 4%nat /\
  apart (nth 2 ms 0) (1024 + 64) (nth 3 ms 0) (16 + 64).

Lemma init_wp base s : heap_ok (Init.mallocs s.2) -> 0 <= lo -> hi <= 2 ^ 32 ->
  wp (Init.xhci_init lo hi base) (fun r s' => r = Some 0 -> let x := Init.hx s'.2 in
    exists v1 v2 slots d c e t, x = Init.with_rings d c e t x /\
      wlog s'.1 = wlog s.1 ++ [(Init.op x + 0, v1 .& cnot 32 1); (Init.op x + 0, 2)] ++
        config_words (Init.op x) (Init.rt x) slots d c e t ++ [(Init.op x + 0, v2 .| 1)] /\
      e mod 64 = 0 /\ lo <= e /\ e + 1024 <= hi /\ load 1024 e (Init.dram s'.2) = replicate 1024 0) s.
Proof.
  intros (Hm & Hlen & Hap) Hlo Hhi. destruct s as [b [hx0 dr ms]]. cbn [Init.mallocs snd] in *.
  destruct ms as [|m1 [|m2 [|m3 [|m4 []]]]]; try done. cbn [nth] in Hap.
  apply Forall_cons_1 in Hm as [[M1 F1] Hm]. apply Forall_cons_1 in Hm as [[M2 F2] Hm].
  apply Forall_cons_1 in Hm as [[M3 F3] Hm]. apply Forall_cons_1 in Hm as [[M4 F4] _].
  unfold Init.xhci_init, Init.set_hx. pose proof (did_refl (b, Init.Hcs hx0 dr [m1; m2; m3; m4])) as H0.
  eapply wp_putd; [exact H0|]. intros s1 H1. eapply wp_rd; [exact H1|]. intros v1 s2 H2. destruct (_ || _); [by apply wp_ret|].
  eapply wp_rd; [exact H2|]. intros v2 s3 H3. eapply wp_rd; [exact H3|]. intros v3 s4 H4. eapply wp_putd; [exact H4|]. intros s5 H5.
  eapply wp_rd; [exact H5|]. intros v4 s6 H6. eapply wp_putd; [exact H6|]. intros s7 H7. eapply wp_rd; [exact H7|]. intros v5 s8 H8.
  cbn [Init.mallocs Init.hx Init.dram snd] in *.
  eapply wp_reset; [exact H8|intros; by apply wp_ret|]. intros v6 s9 H9. cbn [negb].
  eapply wp_alloc; [exact H9|unfold fits in *; cbn; lia|done|]. cbn [Init.mallocs hd tl]. intros [d|] s10 H10 G1; [|by apply wp_ret].
  eapply wp_alloc; [exact H10|unfold fits in *; cbn; lia|done|]. cbn [Init.mallocs hd tl]. intros [c|] s11 H11 G2; [|by apply wp_ret].
  eapply wp_alloc; [exact H11|unfold fits in *; cbn; lia|done|]. cbn [Init.mallocs hd tl]. intros [e|] s12 H12 G3; [|by apply wp_ret].
  eapply wp_alloc; [exact H12|unfold fits in *; cbn; lia|done|]. cbn [Init.mallocs hd tl]. intros [t|] s13 H13 G4; [|by apply wp_ret].
  eapply wp_install; [exact H13|]. intros s14 H14. cbn [Init.mallocs Init.hx Init.dram] in *.
  eapply wp_start; [exact H14|]. intros v7 ok s15 [L15 X15]. apply wp_ret. intros Hok. rewrite X15. cbn [Init.hx Init.dram].
  unfold granted, fits in *. destruct G3 as (A1 & A2 & A3 & A4 & A5), G4 as (B1 & B2 & B3 & B4 & B5).
  rewrite (wrap_small 64 (e + _)) in A3 by (unfold fits; change (XHCI_RING_TRBS * TRB_BYTES) with 1024 in *; lia).
  rewrite (wrap_small 64 (t + _)) in B3 by (unfold fits; change TRB_BYTES with 16 in *; lia).
  change (XHCI_RING_TRBS * TRB_BYTES) with 1024 in *. change TRB_BYTES with 16 in *.
  eexists v6, v7, _, d, c, e, t. split; [done|]. split; [|split_and!; [done..|]].
  - rewrite L15. cbn [app]. done.
  - apply cleared_ring; unfold apart in *; lia.
Qed.
End init.

(** Bringing the controller up, whatever its registers answer and wherever malloc puts the
    four structures (or fails): [xhci_init] returns; and when it reports success it wrote,
    and wrote only, in this order: the run bit cleared, the reset, the slot count, the three
    structure addresses with the event ring's segment table last, and the run bit set; the
    event ring is 64-byte aligned inside the window the controller reaches and zeroed, and
    the driver expects its first event in slot 0 with cycle bit 1: the start of the queue. *)
Theorem init_ready {D} {HD : Mmio D} lo hi base (s : bus D * Init.hcs) :
  heap_ok (Init.mallocs s.2) -> 0 <= lo -> hi <= 2 ^ 32 ->
  exists r s', Init.xhci_init lo hi base s = Ret (r, s') /\ (r = Some 0 ->
    let x := Init.hx s'.2 in let op := Init.op x in
    exists v1 v2 slots d c e t, x = Init.with_rings d c e t x /\
      wlog s'.1 = wlog s.1 ++ [(op + 0, v1 .& cnot 32 1); (op + 0, 2)] ++ config_words op (Init.rt x) slots d c e t ++ [(op + 0, v2 .| 1)] /\
      e mod 64 = 0 /\ lo <= e /\ e + 1024 <= hi /\ load 1024 e (Init.dram s'.2) = replicate 1024 0).
Proof. intros Hm Hl Hh. apply wp_run, init_wp; done. Qed.

(** A controller that does what it is told at once. *)
Definition quick : Type := Z.
#[export] Instance quick_mmio : Mmio quick := {|
  mmio_read cmd r := (if r =? 0 then 0x40 else if r =? 4 then 0x02000010 else if r =? 0x40 then cmd .& 1
                      else if r =? 0x44 then (if tst cmd 1 then 0 else 1) else 0x1000, cmd);
  mmio_write cmd r v := if r =? 0x40 then v else cmd |}.
Definition ex_hcs : Init.hcs :=
  Init.Hcs (Init.Xhci_ 0 0 0 0 0 0 0 0 0 0 0) (fun _ => 0xFF) [0x80001008; 0x80002008; 0x80003008; 0x80004008].

Lemma init_ready_witness :
  (match Init.xhci_init 0x80000000 0x90000000 0 (Bus (0 : quick) [], ex_hcs) with Ret (r, _) => r | _ => None end) = Some 0 /\
  exists r s', Init.xhci_init 0x80000000 0x90000000 0 (Bus (0 : quick) [], ex_hcs) = Ret (r, s') /\ (r = Some 0 ->
    let x := Init.hx s'.2 in let op := Init.op x in
    exists v1 v2 slots d c e t, x = Init.with_rings d c e t x /\
      wlog s'.1 = [] ++ [(op + 0, v1 .& cnot 32 1); (op + 0, 2)] ++ config_words op (Init.rt x) slots d c e t ++ [(op + 0, v2 .| 1)] /\
      e mod 64 = 0 /\ 0x80000000 <= e /\ e + 1024 <= 0x90000000 /\ load 1024 e (Init.dram s'.2) = replicate 1024 0).
Proof.
  split; [vm_compute; reflexivity|].
  refine (init_ready 0x80000000 0x90000000 0 (Bus (0 : quick) [], ex_hcs) _ _ _); [|done|done].
  split; [by repeat constructor|]. split; [done|]. left. vm_compute. done.
Defined.
