(* ===== verification/XhciMain.v ===== *)
(** * The USB controller test: host mode, the port watch, and main (usb-test/main.c, xhci.c)

    What the program asks the device tree, [dwc3_select_host_mode], [xhci_watch_ports], and
    [main], which puts them around the bring-up and the round trip of Xhci.  The event ring and
    the controller's side of it are the machine [Ring]; what the program prints is a list of
    [note]s.  The delays leave no trace. *)
From Stdlib Require Import String.
From stdpp Require Import relations.
From S2P Require Import Prelude Memory Mmio Dtb DtbTree DtbQuery DtbCompat Xhci XhciProofs XhciInit.

#[local] Open Scope list_scope.
#[local] Abbreviation length := List.length.

Definition OP_PORTSC (n : Z) : Z := 0x400 + 0x10 * (n - 1).
Definition PORTSC_CCS : Z := 1.
Definition PORTSC_PED : Z := 2.
Definition PORTSC_OCA : Z := 8.
Definition PORTSC_PR : Z := 0x10.
Definition PORTSC_PP : Z := 0x200.
Definition PORTSC_CSC : Z := 0x20000.
Definition PORTSC_SPEED (v : Z) : Z := (v .>> 10) .& 0xF.

Definition DWC3_GCTL : Z := 0xC110.
Definition DWC3_GCTL_PRTCAPDIR_SHIFT : Z := 12.
Definition DWC3_GCTL_PRTCAPDIR_MASK : Z := u32 (3 .<< DWC3_GCTL_PRTCAPDIR_SHIFT).
Definition DWC3_GCTL_PRTCAP_HOST : Z := 1.

Definition speed_name (code : Z) : string :=
  if code =? 0 then "none" else if code =? 1 then "full" else if code =? 2 then "low" else
  if code =? 3 then "high" else if code =? 4 then "super" else "?".

(** What the watch prints; [Port] is a line of [print_port], with the register it decodes, and
    [Changed] is such a line under the heading of a change. *)
Inductive note := Watching (ports seconds : Z) | Port (n v : Z) | NotPowered (n : Z) | Changed (n v : Z) | Final | NoDevice | Device.

(** The fields of such a line: connected, enabled, powered, reset, overcurrent, speed. *)
Definition port_line (v : Z) : bool * bool * bool * bool * bool * string :=
  (tst v PORTSC_CCS, tst v PORTSC_PED, tst v PORTSC_PP, tst v PORTSC_PR, tst v PORTSC_OCA, speed_name (PORTSC_SPEED v)).

(** The test: the driver of Xhci, the event ring's machine, and the terminal. *)
Record test := Test { hc : Init.hcs; ring : Ring.world; term : list note }.

Section usb.
Context {D : Type} {HD : Mmio D}.
Abbreviation drv := (prog (bus D * test)).

Definition say (x : note) : drv unit := put (fun t => Test (hc t) (ring t) (term t ++ [x])).
Definition on_hc {A} (m : prog (bus D * Init.hcs) A) : drv A := fun s =>
  match m (s.1, hc s.2) with
  | Ret (a, (b, h)) => Ret (a, (b, Test h (ring s.2) (term s.2)))
  | Undef => Undef | Fuel => Fuel
  end.

(** ** The port watch *)

Definition watched (max_ports : Z) : list Z := seqZ 1 (Z.min max_ports 16).

(** The first look: fills [prev]. *)
Fixpoint first_look (op : Z) (ns : list Z) : drv (list (Z * Z)) :=
  match ns with
  | [] => mret []
  | n :: ns => v ← rd (op + OP_PORTSC n); say (Port n v);; l ← first_look op ns; mret ((n, v) :: l)
  end.

Fixpoint power_notes (prev : list (Z * Z)) : drv unit :=
  match prev with
  | [] => mret tt
  | (n, v) :: l => (if tst v PORTSC_PP then mret tt else say (NotPowered n));; power_notes l
  end.

Definition changed (v prev : Z) : bool :=
  negb (v .& cnot 32 PORTSC_CSC =? prev .& cnot 32 PORTSC_CSC) || tst v PORTSC_CSC.
Definition ack (v : Z) : Z := (v .& cnot 32 PORTSC_PED) .| PORTSC_CSC.

(** One port of one round: what [prev] holds for it then. *)
Definition look (op n prev : Z) : drv Z :=
  v ← rd (op + OP_PORTSC n);
  if negb (changed v prev) then mret prev else
  say (Changed n v);;
  (if tst v PORTSC_CSC then wr (op + OP_PORTSC n) (ack v) else mret tt);;
  rd (op + OP_PORTSC n).

Fixpoint sweep (op : Z) (prev : list (Z * Z)) : drv (list (Z * Z)) :=
  match prev with
  | [] => mret []
  | (n, v) :: l => v ← look op n v; l ← sweep op l; mret ((n, v) :: l)
  end.

Fixpoint rounds (k : nat) (op : Z) (prev : list (Z * Z)) : drv (list (Z * Z)) :=
  match k with O => mret prev | S k => prev ← sweep op prev; rounds k op prev end.

(** The last look: whether some port shows a device. *)
Fixpoint last_look (op : Z) (ns : list Z) (any : bool) : drv bool :=
  match ns with
  | [] => mret any
  | n :: ns => v ← rd (op + OP_PORTSC n); say (Port n v);; last_look op ns (if tst v PORTSC_CCS then true else any)
  end.

Definition xhci_watch_ports (op max_ports seconds : Z) : drv unit :=
  say (Watching max_ports seconds);;
  prev ← first_look op (watched max_ports);
  power_notes prev;;
  _ ← rounds (Z.to_nat (u32 (seconds * 100))) op prev;
  say Final;;
  any ← last_look op (watched max_ports) false;
  say (if any : bool then Device else NoDevice).

(** ** Host mode *)

Definition dwc3_select_host_mode (base : Z) : drv unit :=
  before ← rd (base + DWC3_GCTL);
  let mode := (before .& DWC3_GCTL_PRTCAPDIR_MASK) .>> DWC3_GCTL_PRTCAPDIR_SHIFT in
  if mode =? DWC3_GCTL_PRTCAP_HOST then mret tt else
  wr (base + DWC3_GCTL) ((before .& cnot 32 DWC3_GCTL_PRTCAPDIR_MASK) .| u32 (DWC3_GCTL_PRTCAP_HOST .<< DWC3_GCTL_PRTCAPDIR_SHIFT));;
  _ ← rd (base + DWC3_GCTL); mret tt.

(** ** The device tree: [None] is abort() *)

(** [dt_require_reg]: [val] has room for one pair. *)
Definition dt_require_reg (blob : list Z) (st : dtb_state) (n : nat) : res (option (Z * Z)) :=
  reg ← dtb_find_prop blob st (Some n) (lit "reg");
  ac ← dtb_get_addr_cells_for blob st (Some n);
  sc ← dtb_get_size_cells_for blob st (Some n);
  match reg with
  | None => Ret None
  | Some _ =>
      pd ← deref_prop st reg;
      '(count, vals) ← dtb_read_prop_2 blob pd ac sc true;
      if 1 <? count then Undef else if count <? 1 then Ret None else
      match hd [] vals with [a; b] => Ret (Some (u64 a, u64 b)) | _ => Ret None end
  end.

Definition dt_require_u32 (blob : list Z) (st : dtb_state) (n : nat) (name : cptr) : res (option Z) :=
  prop ← dtb_find_prop blob st (Some n) name;
  match prop with
  | None => Ret None
  | Some _ =>
      pd ← deref_prop st prop;
      '(count, vals) ← dtb_read_prop_1 blob pd 1 true;
      if 1 <? count then Undef else if count <? 1 then Ret None else Ret (Some (u64 (hd 0 vals)))
  end.

(** The dma-ranges of the controller, or of the bus above it. *)
Definition find_ranges (blob : list Z) (st : dtb_state) (usb : nat) : res (option nat) :=
  ranges ← dtb_find_prop blob st (Some usb) (lit "dma-ranges");
  match ranges with
  | Some r => Ret (Some r)
  | None =>
      bus ← dtb_get_parent st (Some usb);
      match bus with None => Ret None | Some _ => dtb_find_prop blob st bus (lit "dma-ranges") end
  end.

(** The registers' address and the window of DRAM the controller reaches. *)
Record env := Env { s_cycles_per_us : Z; usb_base : Z; s_dma_base : Z; s_dma_limit : Z }.

Definition usb_env (blob : list Z) (st : dtb_state) : res (option env) :=
  cbus ← dtb_find blob st (lit "/soc/cbus_clock");
  match cbus with None => Ret None | Some cbus =>
  freq ← dt_require_u32 blob st cbus (lit "clock-frequency");
  match freq with None => Ret None | Some freq =>
  usb ← dtb_find_compatible blob st None (Some (lit "snps,dwc3"));
  match usb with None => Ret None | Some usb =>
  reg ← dt_require_reg blob st usb;
  match reg with None => Ret None | Some (base, _) =>
  ranges ← find_ranges blob st usb;
  match ranges with None => Ret None | Some _ =>
  pd ← deref_prop st ranges;
  '(count, vals) ← dtb_read_prop_3 blob pd 1 1 1 true;
  if 1 <? count then Undef else if count <? 1 then Ret None else
  match hd [] vals with
  | [a; b; c] => if negb (u64 a =? u64 b) then Ret None else Ret (Some (Env (freq / 1000000) base (u64 b) (u64 (u64 b + u64 c))))
  | _ => Ret None
  end end end end end end.

(** ** main *)

(** The controller's moves around the event ring, and its error bit. *)
Context (moves : Z -> nat -> Ring.world -> Ring.world) (hse : nat -> bool).

Definition set_ring (w : Ring.world) : drv unit := put (fun t => Test (hc t) w (term t)).

(** [xhci_noop_roundtrip] from the queued command on. *)
Definition noop : drv Z :=
  t ← get;
  let x := Init.hx (hc t) in
  let cmd := Init.cmd_ring x in
  on_hc (Init.put_word cmd (w0 Noop.noop_trb);; Init.put_word (cmd + 4) (w1 Noop.noop_trb);;
         Init.put_word (cmd + 8) (w2 Noop.noop_trb);; Init.put_word (cmd + 12) (w3 Noop.noop_trb));;
  wr (Init.db x) 0;;
  let '(r, w) := Noop.xhci_noop_roundtrip (Init.evt_ring x) cmd (moves (Init.evt_ring x)) hse (ring t) in
  set_ring w;; mret r.

(** The exit status; [None] is abort(). *)
Definition main (blob : list Z) (st : dtb_state) : drv (option Z) :=
  e ← lift (usb_env blob st);
  match e with
  | None => mret None
  | Some e =>
      dwc3_select_host_mode (usb_base e);;
      r ← on_hc (Init.xhci_init (s_dma_base e) (s_dma_limit e) (usb_base e));
      match r with
      | None => mret None
      | Some r =>
          if negb (r =? 0) then mret (Some 1) else
          t ← get;
          set_ring (Ring.start (Init.evt_ring (Init.hx (hc t))));;
          r ← noop;
          if negb (r =? 0) then mret (Some 1) else
          xhci_watch_ports (Init.op (Init.hx (hc t))) (Init.max_ports (Init.hx (hc t))) 20;;
          mret (Some 0)
      end
  end.
End usb.

(** ** The watch *)

(** The writes that answer what was shown. *)
Definition acks (op : Z) (l : list note) : list (Z * Z) :=
  flat_map (fun x => match x with Changed n v => if tst v PORTSC_CSC then [(op + OP_PORTSC n, ack v)] else [] | _ => [] end) l.

(** The ports a list of notes speaks of are among [ns], with register values. *)
Definition about (ns : list Z) (x : note) : Prop :=
  match x with Port n v | Changed n v => n ∈ ns /\ fits 32 v | NotPowered n => n ∈ ns | _ => True end.
Definition reports (x : note) : bool := match x with Port _ _ | Changed _ _ => true | _ => false end.

Section watch.
Context {D : Type} {HD : Mmio D}.
Abbreviation state := (bus D * test)%type.

Definition noted (l : list note) (t : test) : test := Test (hc t) (ring t) (term t ++ l).
(** From [s] to [s']: [l] was shown, and its acknowledgements were written and nothing else. *)
Definition showed (op : Z) (ns : list Z) (l : list note) (s s' : state) : Prop :=
  did s s' (acks op l) (noted l s.2) /\ Forall (about ns) l.

Lemma showed_nil op ns s : showed op ns [] s s.
Proof. split; [|done]. split; [by rewrite app_nil_r|]. unfold noted. rewrite app_nil_r. by destruct s.2. Qed.

Lemma showed_trans op ns l l' s s1 s2 : showed op ns l s s1 -> showed op ns l' s1 s2 -> showed op ns (l ++ l') s s2.
Proof.
  intros [[H1 H2] F1] [[G1 G2] F2]. split; [|by apply Forall_app]. split.
  - rewrite G1, H1, <-app_assoc. unfold acks. by rewrite flat_map_app.
  - rewrite G2, H2. unfold noted. cbn. by rewrite app_assoc.
Qed.

Lemma wp_say op ns x s : about ns x -> acks op [x] = [] -> wp (say x) (fun _ s' => showed op ns [x] s s') s.
Proof. intros Ha E. unfold wp, say, put. cbn. split; [|by constructor]. rewrite E. split; [by rewrite app_nil_r|done]. Qed.

Lemma wp_read op ns r s : wp (rd r) (fun v s' => showed op ns [] s s' /\ fits 32 v) s.
Proof.
  unfold wp, rd. destruct (mmio_read _ _) as [v d]. split; [|by apply wrap_fits]. split; [|done]. split; [by rewrite app_nil_r|].
  unfold noted. cbn. rewrite app_nil_r. by destruct s.2.
Qed.

(** Next command, after one that showed [l]. *)
Lemma wp_on {A B} op ns (P : A -> list note -> Prop) (m : prog state A) (k : A -> prog state B) Q s0 s l : showed op ns l s0 s ->
  wp m (fun a s' => exists l', showed op ns l' s s' /\ P a l') s ->
  (forall a l' s', showed op ns (l ++ l') s0 s' -> P a l' -> wp (k a) Q s') -> wp (x ← m; k x) Q s.
Proof.
  intros H Hm Hk. apply wp_bind. eapply wp_mono; [exact Hm|]. intros a s' (l' & Hs & Hp).
  eapply Hk; [|exact Hp]. by eapply showed_trans.
Qed.

Definition shown (P : Z * Z -> Prop) (ns : list Z) (l : list (Z * Z)) : Prop := map fst l = ns /\ Forall P l.
Definition port_note (p : Z * Z) : note := Port p.1 p.2.
Definition word (p : Z * Z) : Prop := fits 32 p.2.

Lemma wp_say_on {B} op ns x (k : unit -> prog state B) Q s0 s l : showed op ns l s0 s -> about ns x -> acks op [x] = [] ->
  (forall s', showed op ns (l ++ [x]) s0 s' -> wp (k tt) Q s') -> wp (u ← say x; k u) Q s.
Proof.
  intros H Ha E Hk. apply wp_bind. eapply wp_mono; [by apply (wp_say op ns)|]. intros [] s' H'. apply Hk. by eapply showed_trans.
Qed.

Lemma wp_rd_on {B} op ns r (k : Z -> prog state B) Q s0 s l : showed op ns l s0 s ->
  (forall v s', showed op ns l s0 s' -> fits 32 v -> wp (k v) Q s') -> wp (v ← rd r; k v) Q s.
Proof.
  intros H Hk. apply wp_bind. eapply wp_mono; [apply (wp_read op ns)|]. intros v s' [H' Hv]. apply Hk; [|done].
  rewrite <-(app_nil_r l). by eapply showed_trans.
Qed.

Lemma first_look_spec op ns ms s : (forall n, n ∈ ms -> n ∈ ns) ->
  wp (first_look op ms) (fun r s' => exists l, showed op ns l s s' /\ shown word ms r /\ l = map port_note r) s.
Proof.
  revert s. induction ms as [|n ms IH]; intros s Hin; cbn [first_look].
  - apply wp_ret. exists []. split; [apply showed_nil|done].
  - eapply wp_rd_on; [apply showed_nil|]. intros v s1 H1 Hv. eapply wp_say_on; [exact H1|split; [apply Hin; left|done]|done|].
    intros s2 H2. eapply (wp_on op ns (fun r l => shown word ms r /\ l = map port_note r)); [exact H2|apply IH; intros; apply Hin; by right|].
    intros r l s3 H3 ([E F] & ->). apply wp_ret. eexists. split; [exact H3|]. split; [|done]. split; [cbn; by rewrite E|by constructor].
Qed.

Lemma power_notes_spec op ns prev s : (forall p, p ∈ prev -> p.1 ∈ ns) ->
  wp (power_notes prev) (fun _ s' => showed op ns (map (fun p => NotPowered p.1) (List.filter (fun p => negb (tst p.2 PORTSC_PP)) prev)) s s') s.
Proof.
  revert s. induction prev as [|[n v] prev IH]; intros s Hin; cbn [power_notes List.filter snd]; [apply wp_ret, showed_nil|].
  assert (forall p, p ∈ prev -> p.1 ∈ ns) as Hin' by (intros; apply Hin; by right). destruct (tst v PORTSC_PP); cbn [negb].
  - apply wp_bind. apply wp_ret. by apply IH.
  - eapply wp_say_on; [apply showed_nil|apply (Hin (n, v)); left|done|]. intros s1 H1. eapply wp_mono; [by apply IH|].
    intros [] s2 H2. cbn. eapply (showed_trans op ns [_]); eassumption.
Qed.

(** A change: a report whose value differs from what was known, or a latched connect change. *)
Definition is_change (ns : list Z) (x : note) : Prop := match x with Changed n v => n ∈ ns | _ => False end.

Lemma look_spec op ns n prev s : n ∈ ns -> wp (look op n prev) (fun _ s' => exists l, showed op ns l s s' /\ Forall (is_change ns) l) s.
Proof.
  intros Hn. unfold look. eapply wp_rd_on; [apply showed_nil|]. intros v s1 H1 Hv. destruct (changed v prev) eqn:E; cbn [negb].
  - unfold say. apply wp_put. set (s2 := (s1.1, _)).
    assert (forall s3, did s1 s3 (if tst v PORTSC_CSC then [(op + OP_PORTSC n, ack v)] else []) (noted [Changed n v] s1.2) -> showed op ns [Changed n v] s s3) as Hs3.
    { intros s3 H3. apply (showed_trans op ns [] [Changed n v] s s1 s3); [exact H1|]. split; [|by apply Forall_singleton]. unfold acks. cbn. by rewrite app_nil_r. }
    assert (forall s3, showed op ns [Changed n v] s s3 -> wp (rd (op + OP_PORTSC n)) (fun _ s' => exists l, showed op ns l s s' /\ Forall (is_change ns) l) s3) as Hrd.
    { intros s3 H3. eapply wp_mono; [apply (wp_read op ns)|]. intros w s4 [H4 _]. exists [Changed n v]. split; [|by constructor].
      apply (showed_trans op ns [Changed n v] [] s s3 s4); assumption. }
    destruct (tst v PORTSC_CSC); apply wp_bind.
    + unfold wp at 1, wr. apply Hrd, Hs3. by split.
    + apply wp_ret. apply Hrd, Hs3. split; [by rewrite app_nil_r|done].
  - apply wp_ret. exists []. split; [exact H1|done].
Qed.

Lemma sweep_spec op ns prev s : (forall p, p ∈ prev -> p.1 ∈ ns) ->
  wp (sweep op prev) (fun r s' => exists l, showed op ns l s s' /\ map fst r = map fst prev /\ Forall (is_change ns) l) s.
Proof.
  revert s. induction prev as [|[n v] prev IH]; intros s Hin; cbn [sweep].
  - apply wp_ret. exists []. split; [apply showed_nil|done].
  - eapply (wp_on op ns (fun _ l => Forall (is_change ns) l)); [apply showed_nil|apply look_spec, (Hin (n, v)); left|]. intros v' l s1 H1 Hl.
    eapply (wp_on op ns (fun r l => map fst r = map fst prev /\ Forall (is_change ns) l)); [exact H1|apply IH; intros; apply Hin; by right|].
    intros r l' s2 H2 [E Hl']. apply wp_ret. eexists. split; [exact H2|]. cbn. split; [by rewrite E|by apply Forall_app].
Qed.

Lemma rounds_spec op ns k : forall prev s, (forall p, p ∈ prev -> p.1 ∈ ns) ->
  wp (rounds k op prev) (fun _ s' => exists l, showed op ns l s s' /\ Forall (is_change ns) l) s.
Proof.
  induction k as [|k IH]; intros prev s Hin; cbn [rounds].
  - apply wp_ret. exists []. split; [apply showed_nil|done].
  - eapply (wp_on op ns (fun r l => map fst r = map fst prev /\ Forall (is_change ns) l)); [apply showed_nil|by apply sweep_spec|].
    intros r l s1 H1 [E Hl]. eapply wp_mono; [apply IH|].
    + intros p Hp. assert (p.1 ∈ map fst prev) as Hp' by (rewrite <-E; by apply list_elem_of_fmap_2).
      apply list_elem_of_fmap in Hp' as (q & -> & Hq). by apply Hin.
    + intros _ s2 (l' & H2 & Hl'). exists (l ++ l'). split; [by eapply showed_trans|by apply Forall_app].
Qed.

Lemma last_look_spec op ns ms : forall any s, (forall n, n ∈ ms -> n ∈ ns) ->
  wp (last_look op ms any) (fun b s' => exists l r, showed op ns l s s' /\ shown word ms r /\ l = map port_note r /\
    b = any || existsb (fun p => tst p.2 PORTSC_CCS) r) s.
Proof.
  induction ms as [|n ms IH]; intros any s Hin; cbn [last_look].
  - apply wp_ret. exists [], []. split; [apply showed_nil|]. by rewrite orb_false_r.
  - eapply wp_rd_on; [apply showed_nil|]. intros v s1 H1 Hv. eapply wp_say_on; [exact H1|split; [apply Hin; left|done]|done|].
    intros s2 H2. eapply wp_mono; [apply IH; intros; apply Hin; by right|].
    intros b s3 (l & r & H3 & [E F] & -> & ->). exists (port_note (n, v) :: map port_note r), ((n, v) :: r).
    split; [eapply (showed_trans op ns [_]); eassumption|]. split; [split; [cbn; by rewrite E|by constructor]|]. split; [done|].
    cbn. by destruct (tst v PORTSC_CCS), any.
Qed.

(** What a whole watch shows: [first] and [last] are the first and last looks. *)
Definition watch_notes (max_ports seconds : Z) (first : list (Z * Z)) (changes : list note) (last : list (Z * Z)) : list note :=
  Watching max_ports seconds :: map port_note first ++
  map (fun p => NotPowered p.1) (List.filter (fun p => negb (tst p.2 PORTSC_PP)) first) ++ changes ++
  Final :: map port_note last ++ [if existsb (fun p => tst p.2 PORTSC_CCS) last then Device else NoDevice].

Lemma acks_quiet op l : Forall (fun x => match x with Changed _ _ => False | _ => True end) l -> acks op l = [].
Proof. induction 1 as [|x l Hx _ IH]; [done|]. unfold acks in *. cbn. rewrite IH. by destruct x. Qed.

Lemma acks_app op a b : acks op (a ++ b) = acks op a ++ acks op b.
Proof. apply flat_map_app. Qed.

Lemma acks_watch op m sec first changes last : acks op (watch_notes m sec first changes last) = acks op changes.
Proof.
  assert (forall l, acks op (map port_note l) = []) as Hp by (intros l; apply acks_quiet, Forall_fmap, Forall_true; done).
  assert (forall (l : list (Z * Z)), acks op (map (fun p => NotPowered p.1) l) = []) as Hn by (intros l; apply acks_quiet, Forall_fmap, Forall_true; done).
  unfold watch_notes. change (Watching m sec :: ?l) with ([Watching m sec] ++ l). change (Final :: ?l) with ([Final] ++ l).
  rewrite !acks_app, !Hp, Hn, (acks_quiet op [Watching m sec]), (acks_quiet op [Final]) by (by constructor). cbn [app].
  rewrite (acks_quiet op [_]) by (constructor; [by destruct (existsb _ _)|done]). by rewrite app_nil_r.
Qed.

(** A write that acknowledges: to a watched port, with the enable bit clear, so that no enabled
    port is disabled, the connect change set, and every other bit as it was shown. *)
Definition acknowledges (op max_ports : Z) (changes : list note) (w : Z * Z) : Prop :=
  exists n v, Changed n v ∈ changes /\ 1 <= n <= Z.min max_ports 16 /\ w = (op + OP_PORTSC n, ack v) /\
    forall i, Z.testbit (ack v) i = negb (i =? 1) && ((i =? 17) || Z.testbit v i).

Lemma ack_bits v i : fits 32 v -> Z.testbit (ack v) i = negb (i =? 1) && ((i =? 17) || Z.testbit v i).
Proof.
  intros Hv. destruct (Z_lt_le_dec i 0); [rewrite !Z.testbit_neg_r by done; destruct (Z.eqb_spec i 1), (Z.eqb_spec i 17); done || lia|].
  unfold ack, cnot, PORTSC_PED, PORTSC_CSC. rewrite Z.lor_spec, Z.land_spec, wrap_testbit by lia.
  change 0x20000 with (2 ^ 17). rewrite (Z.pow2_bits_eqb 17) by lia. change 2 with (2 ^ 1) at 1. rewrite Z.lnot_spec, (Z.pow2_bits_eqb 1) by lia.
  rewrite (Z.eqb_sym 17 i), (Z.eqb_sym 1 i).
  destruct (Z.ltb_spec i 32); cbn [andb].
  - destruct (Z.eqb_spec i 1), (Z.eqb_spec i 17); try lia; by destruct (Z.testbit v i).
  - rewrite (fits_testbit 32 v) by (done || lia). destruct (Z.eqb_spec i 1), (Z.eqb_spec i 17); done || lia.
Qed.

Lemma watched_in max_ports n : n ∈ watched max_ports -> 1 <= n <= Z.min max_ports 16.
Proof. intros H%elem_of_seqZ. lia. Qed.

Lemma acks_ok op m changes : Forall (about (watched m)) changes -> Forall (acknowledges op m changes) (acks op changes).
Proof.
  intros H. apply Forall_forall. intros w Hw. apply list_elem_of_In, in_flat_map in Hw as (x & Hx%list_elem_of_In & Hw).
  pose proof (proj1 (Forall_forall _ _) H x Hx) as Ha. destruct x as [|n v| |n v| | |]; try done. destruct Ha as [Hn Hv].
  destruct (tst v PORTSC_CSC); [|done]. destruct Hw as [<-|[]]. exists n, v. split; [done|]. split; [by apply watched_in|]. split; [done|]. intros i. by apply ack_bits.
Qed.

Lemma watch_spec op m sec s : wp (xhci_watch_ports op m sec) (fun _ s' => exists first changes last,
  did s s' (acks op changes) (noted (watch_notes m sec first changes last) s.2) /\
  shown word (watched m) first /\ Forall (is_change (watched m)) changes /\ Forall (about (watched m)) changes /\ shown word (watched m) last) s.
Proof.
  unfold xhci_watch_ports. set (ns := watched m).
  eapply (wp_say_on op ns); [apply showed_nil|done|done|]. intros s1 H1.
  eapply (wp_on op ns (fun r l => shown word ns r /\ l = map port_note r)); [exact H1|by apply first_look_spec|].
  intros first l1 s2 H2 (F & ->).
  assert (forall p, p ∈ first -> p.1 ∈ ns) as Hin by (intros p Hp; destruct F as [<- _]; by apply list_elem_of_fmap_2).
  apply wp_bind. eapply wp_mono; [apply (power_notes_spec op ns first s2 Hin)|]. intros [] s3 H3. pose proof (showed_trans _ _ _ _ _ _ _ H2 H3) as H3'.
  eapply (wp_on op ns (fun _ l => Forall (is_change ns) l)); [exact H3'|by apply rounds_spec|]. intros prev changes s4 H4 Hc.
  eapply (wp_say_on op ns); [exact H4|done|done|]. intros s5 H5.
  apply wp_bind. eapply wp_mono; [by apply (last_look_spec op ns ns)|]. intros any s6 (l & last & H6 & L & -> & ->). cbn [orb].
  eapply wp_mono; [apply (wp_say op ns); by destruct (existsb _ _)|]. intros [] s7 H7. exists first, changes, last.
  pose proof (showed_trans _ _ _ _ _ _ _ (showed_trans _ _ _ _ _ _ _ H5 H6) H7) as [H8 Hab].
  match type of H8 with did _ _ (acks _ ?l) _ => assert (l = watch_notes m sec first changes last) as E end.
  { unfold watch_notes. cbn [app]. rewrite <-!app_assoc. done. }
  rewrite E in H8, Hab. rewrite <-(acks_watch op m sec first changes last). split_and!; try done.
  unfold watch_notes in Hab. apply Forall_cons in Hab as [_ Hab]. rewrite !Forall_app in Hab. by destruct Hab as (_ & _ & ? & _).
Qed.
End watch.

(** Whatever the root hub's registers say, at any time: the watch ends, it shows every watched
    port first and last and says of exactly those without power that they cannot detect anything;
    its only writes are acknowledgements of connect changes it has shown, one for each, and an
    acknowledgement clears nothing but the change: it never disables an enabled port, and every
    other bit goes back as it was read; its verdict is what the last look at the ports says. *)
Theorem watch_keeps_ports {D} {HD : Mmio D} op max_ports seconds (s : bus D * test) :
  exists s' first changes last, xhci_watch_ports op max_ports seconds s = Ret (tt, s') /\
    term s'.2 = term s.2 ++ watch_notes max_ports seconds first changes last /\
    map fst first = watched max_ports /\ map fst last = watched max_ports /\ Forall (is_change (watched max_ports)) changes /\
    wlog s'.1 = wlog s.1 ++ acks op changes /\ Forall (acknowledges op max_ports changes) (acks op changes) /\
    hc s'.2 = hc s.2 /\ ring s'.2 = ring s.2.
Proof.
  destruct (wp_run _ _ _ (watch_spec op max_ports seconds s)) as ([] & s' & E & first & changes & last & [H1 H2] & [F _] & C & A & [L _]).
  exists s', first, changes, last. rewrite H2. cbn. split_and!; try done. by apply acks_ok.
Qed.

(** A device that is plugged in and out again during the watch: it was reported, and the verdict is
    that no port ever reported a connection. *)
#[export] Instance flap_mmio : Mmio nat := {|
  mmio_read d _ := (if (d =? 7)%nat then 0x20201 else 0x200, S d);
  mmio_write d _ _ := d |}.
Definition ex_test : test := Test ex_hcs (Ring.start 0) [].

Lemma verdict_forgets : match xhci_watch_ports 0x40 1 1 (Bus O [], ex_test) with
  | Ret (_, s') => term s'.2 = [Watching 1 1; Port 1 0x200; Changed 1 0x20201; Final; Port 1 0x200; NoDevice] /\
      (port_line 0x20201).1.1.1.1.1 = true
  | _ => False
  end.
Proof. by vm_compute. Qed.

(** ** The whole test *)

Section whole.
Context {D : Type} {HD : Mmio D} (moves : Z -> nat -> Ring.world -> Ring.world) (hse : nat -> bool).
Hypothesis Hmoves : forall base i w, rtc (Ring.cstep base) w (moves base i w).
Abbreviation state := (bus D * test)%type.

(** The register write that selects host mode, when one is needed. *)
Definition host_mode (base : Z) (l : list (Z * Z)) : Prop :=
  l = [] \/ exists before, fits 32 before /\ l = [(base + DWC3_GCTL, (before .& cnot 32 DWC3_GCTL_PRTCAPDIR_MASK) .| 0x1000)].

Lemma host_spec base s : wp (dwc3_select_host_mode base) (fun _ s' => exists l, did s s' l s.2 /\ host_mode base l) s.
Proof.
  unfold dwc3_select_host_mode. apply wp_bind. unfold wp, rd. destruct (mmio_read (Mmio.dev s.1) _) as [v d] eqn:E. 
  pose proof (wrap_fits 32 v ltac:(lia)) as Hv. set (s1 := (Bus d (wlog s.1), s.2)).
  assert (did s s1 [] s.2) as H1 by (split; [by rewrite app_nil_r|done]).
  destruct (_ =? DWC3_GCTL_PRTCAP_HOST); [exists []; split; [done|by left]|].
  eapply wp_wr; [exact H1|]. intros s2 H2. eapply wp_rd; [exact H2|]. intros w s3 H3. apply wp_ret.
  eexists. split; [exact H3|]. right. by exists (u32 v).
Qed.

Lemma wp_hc {A B} (m : prog (bus D * Init.hcs) A) (k : A -> prog state B) Q s :
  wp m (fun a s' => wp (k a) Q (s'.1, Test s'.2 (ring s.2) (term s.2))) (s.1, hc s.2) -> wp (x ← on_hc m; k x) Q s.
Proof. intros H. apply wp_bind. unfold wp in *. unfold on_hc. destruct (m _) as [[a [b h]]| |]; [exact H|done|done]. Qed.

(** The round trip, over the ring as the bring-up left it: one write, to the doorbell, and the
    controller's answer to this very command. *)
Lemma noop_spec s : let x := Init.hx (hc s.2) in let e := Init.evt_ring x in
  0 <= e /\ e mod 64 = 0 /\ e + 1024 <= 2 ^ 32 -> ring s.2 = Ring.start e ->
  wp (noop moves hse) (fun r s' => wlog s'.1 = wlog s.1 ++ [(Init.db x, 0)] /\ Init.hx (hc s'.2) = x /\ term s'.2 = term s.2 /\
    (r = 0 -> exists ports t, Ring.popped (ring s'.2) = ports ++ [t] /\ Ring.popped (ring s'.2) `prefix_of` Ring.posted (ring s'.2) /\
       Forall is_port ports /\ completes (Init.cmd_ring x) t)) s.
Proof.
  intros x e He Hr. unfold noop. apply wp_get. fold x. fold e. apply wp_hc.
  unfold Init.put_word. do 3 apply wp_put. apply wp_put_last. apply wp_bind. unfold wp at 1, wr. cbn [fst snd].
  pose proof (noop_roundtrip_sound e (Init.cmd_ring x) (moves e) hse (ring s.2) He (Hmoves e)) as H. rewrite Hr in H |- *. specialize (H (rtc_refl _ _)).
  destruct (Noop.xhci_noop_roundtrip _ _ _ _ _) as [r w]. apply wp_put. apply wp_ret. cbn.
  split_and!; [done|done|done|]. intros ->. destruct H as [(_ & ports & t & E & P)|(? & _)]; [|done]. by exists ports, t.
Qed.

(** What a passed test is, from its first write to its last. *)
Definition passed (e : env) (s s' : state) : Prop :=
  let x := Init.hx (hc s'.2) in let op := Init.op x in
  exists host v1 v2 slots d c ev t changes,
    host_mode (usb_base e) host /\ x = Init.with_rings d c ev t x /\
    wlog s'.1 = wlog s.1 ++ host ++ [(op + 0, v1 .& cnot 32 1); (op + 0, 2)] ++ config_words op (Init.rt x) slots d c ev t ++
      [(op + 0, v2 .| 1)] ++ [(Init.db x, 0)] ++ acks op changes /\
    s_dma_base e <= ev /\ ev + 1024 <= s_dma_limit e /\
    (exists ports tr, Ring.popped (ring s'.2) = ports ++ [tr] /\ Ring.popped (ring s'.2) `prefix_of` Ring.posted (ring s'.2) /\
       Forall is_port ports /\ completes c tr) /\
    Forall (acknowledges op (Init.max_ports x) changes) (acks op changes).

Lemma main_spec blob st e s : usb_env blob st = Ret (Some e) -> heap_ok (Init.mallocs (hc s.2)) -> 0 <= s_dma_base e -> s_dma_limit e <= 2 ^ 32 ->
  wp (main moves hse blob st) (fun r s' => r = Some 0 -> passed e s s') s.
Proof.
  intros He Hm Hlo Hhi. unfold main. eapply wp_lift; [exact He|]. cbn beta iota.
  apply wp_bind. eapply wp_mono; [apply host_spec|]. intros [] s1 (host & [L1 X1] & Hhost).
  apply wp_hc. eapply wp_mono; [apply (init_wp (s_dma_base e) (s_dma_limit e) (usb_base e) (s1.1, hc s1.2)); [by rewrite X1|done|done]|].
  intros r [b h] Hr. cbn [fst snd] in *. destruct r as [r|]; [|by apply wp_ret].
  destruct (Z.eqb_spec r 0) as [->|]; cbn [negb]; [|by apply wp_ret].
  destruct (Hr eq_refl) as (v1 & v2 & slots & d & c & ev & t & Ex & Lh & A1 & A2 & A3 & _). clear Hr.
  apply wp_get. unfold set_ring. apply wp_put. cbn [hc ring term snd fst].
  pose proof (noop_spec (b, Test h (Ring.start (Init.evt_ring (Init.hx h))) (term s1.2))) as Hn. cbn [hc ring snd] in Hn.
  assert (Init.evt_ring (Init.hx h) = ev) as Eev by (rewrite Ex; done). assert (Init.cmd_ring (Init.hx h) = c) as Ec by (rewrite Ex; done).
  rewrite Eev in *. apply wp_bind. eapply wp_mono; [apply Hn; [lia|done]|]. intros r s2 (L2 & X2 & _ & Hp).
  destruct (Z.eqb_spec r 0) as [->|]; cbn [negb]; [|by apply wp_ret]. specialize (Hp eq_refl). rewrite Ec in Hp.
  apply wp_bind. eapply wp_mono; [apply watch_spec|]. intros [] s3 (first & changes & last & [L3 X3] & _ & _ & Ha & _). apply wp_ret. intros _.
  unfold passed. rewrite X3. cbn [hc ring noted]. rewrite X2. exists host, v1, v2, slots, d, c, ev, t, changes.
  split; [done|]. split; [done|]. split; [|split_and!; [lia|done|done|by apply acks_ok]].
  cbn [fst] in L2, Lh. rewrite L3, L2, Lh, L1, <-!app_assoc. done.
Qed.
End whole.


(** ** A tree, a controller at address 0, and one that answers the command *)

Definition usb_strings : list Z := lit "compatible" ++ lit "reg" ++ lit "clock-frequency" ++ lit "dma-ranges" ++ replicate 64 0.
Definition usb_tree : tree :=
  Tree [] [INode (Tree (str "memory@0") [IProp 11 (str "reg") (be_bytes 1 ++ be_bytes 3)]); INode (Tree (str "soc") [INode (Tree (str "cbus_clock") [IProp 15 (str "clock-frequency") (be_bytes 100000000)]);
    INode (Tree (str "usb-bus") [IProp 31 (str "dma-ranges") (be_bytes 0x80000000 ++ be_bytes 0x80000000 ++ be_bytes 0x10000000);
      INode (Tree (str "usb@0") [IProp 0 (str "compatible") (lit "snps,dwc3"); IProp 11 (str "reg") (be_bytes 0 ++ be_bytes 0 ++ be_bytes 0x10000)])])])].
Definition usb_blob : list Z := mk_blob usb_tree usb_strings.
Definition ex_env : env := Env 100 0 0x80000000 0x90000000.

Example ex_env_read : usb_env usb_blob (parsed usb_blob) = Ret (Some ex_env).
Proof. vm_compute. reflexivity. Qed.

Definition answer (base : Z) (_ : nat) (w : Ring.world) : Ring.world :=
  let t := Trb 0x80002040 0 0x01000000 (TRB_MAKE_TYPE TRB_TYPE_CMD_COMPL) in
  match Ring.posting w with None => if Ring.full base w then w else Ring.commit t (Ring.set_posting (Some t) w) | Some _ => w end.

Lemma answer_moves base i w : rtc (Ring.cstep base) w (answer base i w).
Proof.
  unfold answer. destruct (Ring.posting w) eqn:Hp; [done|]. destruct (Ring.full base w) eqn:Hf; [done|].
  eapply rtc_l; [by apply Ring.C_begin|]. by apply rtc_once, Ring.C_commit.
Qed.

