(* ===== verification/Files.v ===== *)
(** * Files on FatFs volumes (soctglue/src/soct_ff/soct_ff.c, posix/open.c)

    The C library's files over FatFs: fopen of a path under a volume opens a FatFs file and
    wraps it in a stream whose cookie is the FIL object.  FatFs and the C library's allocator
    and streams are interfaces ([FatFs], [Libc]); this code's own duty is who owns which FIL
    when, and what is asked of FatFs.  Strings are their characters before the NUL.  Beside
    that, the two mode parsers and the table of disk drivers. *)
From Stdlib Require Import String.
From S2P Require Import Prelude Printf.

#[local] Open Scope list_scope.
#[local] Abbreviation length := List.length.

(** ** Modes *)

Definition FA_READ : Z := 0x01.
Definition FA_WRITE : Z := 0x02.
Definition FA_CREATE_ALWAYS : Z := 0x08.
Definition FA_OPEN_APPEND : Z := 0x30.

Definition SOCT_O_RDONLY : Z := 0x0000.
Definition SOCT_O_WRONLY : Z := 0x0001.
Definition SOCT_O_RDWR : Z := 0x0002.
Definition SOCT_O_CREAT : Z := 0x0040.
Definition SOCT_O_TRUNC : Z := 0x0200.
Definition SOCT_O_APPEND : Z := 0x0400.

(** [strchr(mode, '+') != NULL] and [mode[0]]. *)
Definition has_plus (mode : list Z) : bool := existsb (fun c => c =? 43) mode.
Definition first (mode : list Z) : Z := hd 0 mode.

Definition parse_ff_mode (mode : list Z) : Z :=
  let plus := has_plus mode in
  if first mode =? 114 then if plus then FA_READ .| FA_WRITE else FA_READ
  else if first mode =? 119 then (if plus then FA_READ .| FA_WRITE else FA_WRITE) .| FA_CREATE_ALWAYS
  else if first mode =? 97 then (if plus then FA_READ .| FA_WRITE else FA_WRITE) .| FA_OPEN_APPEND
  else 0.

Definition mode_to_soct_flags (mode : list Z) : Z :=
  let plus := has_plus mode in
  if first mode =? 114 then if plus then SOCT_O_RDWR else SOCT_O_RDONLY
  else if first mode =? 119 then ((if plus then SOCT_O_RDWR else SOCT_O_WRONLY) .| SOCT_O_CREAT) .| SOCT_O_TRUNC
  else if first mode =? 97 then ((if plus then SOCT_O_RDWR else SOCT_O_WRONLY) .| SOCT_O_CREAT) .| SOCT_O_APPEND
  else -1.

(** ** Paths *)

Definition s_vol_str : list (list Z) :=
  [bytes "RAM"; bytes "NAND"; bytes "CF"; bytes "SD"; bytes "SD2"; bytes "USB"; bytes "USB2"; bytes "USB3"].
Definition SLASH : Z := 47.

(** [strncmp(a, b, n) == 0]; past its characters a string reads as its NUL. *)
Fixpoint strncmp_eq (a b : list Z) (n : nat) : bool :=
  match n with
  | O => true
  | S n => let x := hd 0 a in let y := hd 0 b in
      if negb (x =? y) then false else if x =? 0 then true else strncmp_eq (tl a) (tl b) n
  end.

(** [path + 1] of the empty string points past its terminator. *)
Definition is_ff_path (path : list Z) : res bool :=
  match path with
  | [] => Undef
  | _ :: q => Ret (existsb (fun v =>
      let vlen := length v in
      strncmp_eq q v vlen && (let next := nth vlen q 0 in (next =? SLASH) || (next =? 0))) s_vol_str)
  end.

(** ** FatFs and the C library *)

Definition FR_OK : Z := 0.
Definition EIO : Z := 5.
Definition ENOMEM : Z := 12.
Definition EFAULT : Z := 14.
Definition EINVAL : Z := 22.

(** A FIL is named by its address; results are FRESULTs. *)
Class FatFs (F : Type) := {
  f_open : F -> Z -> list Z -> Z -> Z * F;
  f_close : F -> Z -> Z * F;
  f_read : F -> Z -> Z -> Z * (list Z * F);
  f_write : F -> Z -> list Z -> Z * (Z * F);
  f_lseek : F -> Z -> Z -> Z * F;
  f_tell : F -> Z -> Z;
  f_size : F -> Z -> Z }.

(** [malloc] is told what is allocated and [fopencookie] which streams are open, so that their
    laws can be stated; [fopencookie] answers a stream or an errno. *)
Class Libc (L : Type) := {
  malloc : L -> list Z -> option Z * L;
  fopencookie : L -> list (Z * option Z) -> (Z + Z) * L;
  real_fopen : L -> list (Z * option Z) -> list Z -> list Z -> option Z * L }.

(** FILs allocated, FILs FatFs has open, and the open streams: a cookie, or another's file. *)
Record io (F L : Type) := Io {
  fat : F; libc : L; errno : Z; fils : list Z; opened : list Z; streams : list (Z * option Z) }.
Arguments Io {F L}.
Arguments fat {F L} i.
Arguments libc {F L} i.
Arguments errno {F L} i.
Arguments fils {F L} i.
Arguments opened {F L} i.
Arguments streams {F L} i.

Section files.
Context {F L : Type} {HF : FatFs F} {HL : Libc L}.
Abbreviation io := (io F L).
Abbreviation prg := (prog io).

Definition set_errno (e : Z) : prg unit := modify (fun s => Io (fat s) (libc s) e (fils s) (opened s) (streams s)).

Definition do_malloc : prg (option Z) := fun s =>
  let '(p, l) := malloc (libc s) (fils s) in
  Ret (p, Io (fat s) l (errno s) (match p with Some p => p :: fils s | None => fils s end) (opened s) (streams s)).
(** Freeing what is not allocated is undefined. *)
Definition do_free (p : Z) : prg unit := fun s =>
  if bool_decide (p ∈ fils s)
  then Ret (tt, Io (fat s) (libc s) (errno s) (filter (fun q => q <> p) (fils s)) (opened s) (streams s)) else Undef.

Definition do_open (fp : Z) (path : list Z) (flags : Z) : prg Z := fun s =>
  let '(r, f) := f_open (fat s) fp path flags in
  Ret (r, Io f (libc s) (errno s) (fils s) (if r =? FR_OK then fp :: opened s else opened s) (streams s)).
(** Closing, like every other call on it, needs a FIL that is open; it is closed whatever the result. *)
Definition do_close (fp : Z) : prg Z := fun s =>
  if bool_decide (fp ∈ opened s)
  then let '(r, f) := f_close (fat s) fp in
       Ret (r, Io f (libc s) (errno s) (fils s) (filter (fun q => q <> fp) (opened s)) (streams s)) else Undef.

Definition do_cookie (fp : Z) : prg (Z + Z) := fun s =>
  let '(r, l) := fopencookie (libc s) (streams s) in
  Ret (r, Io (fat s) l (errno s) (fils s) (opened s) (match r with inr f => (f, Some fp) :: streams s | inl _ => streams s end)).
Definition do_real (path mode : list Z) : prg (option Z) := fun s =>
  let '(r, l) := real_fopen (libc s) (streams s) path mode in
  Ret (r, Io (fat s) l (errno s) (fils s) (opened s) (match r with Some f => (f, None) :: streams s | None => streams s end)).

(** ** The cookie's operations *)

Definition ff_cookie_close (fp : Z) : prg Z :=
  r ← do_close fp;
  do_free fp;;
  if negb (r =? FR_OK) then set_errno EIO;; mret (-1) else mret 0.

Definition ff_cookie_read (fp size : Z) : prg (Z * list Z) := fun s =>
  if negb (bool_decide (fp ∈ opened s)) then Undef else
  let '(r, (data, f)) := f_read (fat s) fp (u32 size) in
  let s := Io f (libc s) (errno s) (fils s) (opened s) (streams s) in
  if negb (r =? FR_OK) then (set_errno EIO;; mret (-1, [])) s else Ret ((zlen data, data), s).

Definition ff_cookie_write (fp : Z) (data : list Z) : prg Z := fun s =>
  if negb (bool_decide (fp ∈ opened s)) then Undef else
  let '(r, (bw, f)) := f_write (fat s) fp (take (Z.to_nat (u32 (zlen data))) data) in
  let s := Io f (libc s) (errno s) (fils s) (opened s) (streams s) in
  if negb (r =? FR_OK) then (set_errno EIO;; mret (-1)) s else Ret (bw, s).

Definition SEEK_SET : Z := 0.
Definition SEEK_CUR : Z := 1.
Definition SEEK_END : Z := 2.

(** The result, and the new [*offset]; FSIZE_t has 32 bits. *)
Definition ff_cookie_seek (fp offset whence : Z) : prg (Z * Z) := fun s =>
  if negb (bool_decide (fp ∈ opened s)) then Undef else
  let seek (new_pos : Z) : res (Z * Z * io) :=
    let '(r, f) := f_lseek (fat s) fp new_pos in
    let s := Io f (libc s) (errno s) (fils s) (opened s) (streams s) in
    if negb (r =? FR_OK) then (set_errno EIO;; mret (-1, offset)) s else Ret ((0, f_tell f fp), s) in
  if whence =? SEEK_SET then seek (u32 offset)
  else if whence =? SEEK_CUR then seek (u32 (f_tell (fat s) fp + u32 offset))
  else if whence =? SEEK_END then seek (u32 (f_size (fat s) fp + u32 offset))
  else (set_errno EINVAL;; mret (-1, offset)) s.

(** ** Opening *)

Definition __wrap_fopen (path mode : option (list Z)) : prg (option Z) :=
  match path, mode with
  | Some p, Some m =>
      ff ← lift (is_ff_path p);
      if negb ff then do_real p m else
      let flags := parse_ff_mode m in
      if flags =? 0 then set_errno EINVAL;; mret None else
      fp ← do_malloc;
      match fp with
      | None => set_errno ENOMEM;; mret None
      | Some fp =>
          r ← do_open fp p flags;
          if negb (r =? FR_OK) then do_free fp;; set_errno EIO;; mret None else
          f ← do_cookie fp;
          match f with
          | inl e => set_errno e;; do_close fp;; do_free fp;; mret None
          | inr f => mret (Some f)
          end
      end
  | _, _ => set_errno EFAULT;; mret None
  end.

(** The library's fclose: the cookie is closed and the stream is gone whatever that answers. *)
Definition fclose (f : Z) : prg Z := fun s =>
  match List.find (fun x => x.1 =? f) (streams s) with
  | None => Undef
  | Some (_, c) =>
      let s := Io (fat s) (libc s) (errno s) (fils s) (opened s) (filter (fun x => x.1 <> f) (streams s)) in
      match c with Some fp => ff_cookie_close fp s | None => Ret (0, s) end
  end.

Definition __wrap_freopen (path mode : option (list Z)) (stream : Z) : prg (option Z) :=
  match path, mode with
  | Some p, Some m => fclose stream;; __wrap_fopen (Some p) (Some m)
  | _, _ => set_errno EFAULT;; mret None
  end.
End files.

(** ** The table of disk drivers *)
Module Disk.
Definition STA_NOINIT : Z := 0x01.
Definition RES_NOTRDY : Z := 3.
Definition SOCT_MAX_DRIVES : Z := 8.

(** [soct_disk_ops_t]; only [initialize] may not be NULL. *)
Record disk_ops (M : Type) := Ops {
  initialize : Z -> prog M Z;
  status : option (Z -> prog M Z);
  read : option (Z -> Z -> Z -> Z -> prog M Z);
  write : option (Z -> Z -> Z -> Z -> prog M Z);
  ioctl : option (Z -> Z -> Z -> prog M Z) }.
Arguments Ops {M}.
Arguments initialize {M} d.
Arguments status {M} d.
Arguments read {M} d.
Arguments write {M} d.
Arguments ioctl {M} d.

(** [s_disk_ops] and [s_mount_ops] with the machine below. *)
Record disks (M : Type) := Disks { s_disk_ops : list (option (disk_ops M)); s_mount_ops : option (disk_ops M); machine : M }.
Arguments Disks {M}.
Arguments s_disk_ops {M} d.
Arguments s_mount_ops {M} d.
Arguments machine {M} d.

Section disk.
Context {M : Type}.
Abbreviation prg := (prog (disks M)).

Definition on_machine {A} (m : prog M A) : prg A := fun d =>
  match m (machine d) with
  | Ret (a, x) => Ret (a, Disks (s_disk_ops d) (s_mount_ops d) x)
  | Undef => Undef
  | Fuel => Fuel
  end.

Definition soct_set_mount_ops (ops : option (disk_ops M)) : prg unit := modify (fun d => Disks (s_disk_ops d) ops (machine d)).

Definition disk_initialize (pdrv : Z) : prg Z :=
  if pdrv >=? SOCT_MAX_DRIVES then mret STA_NOINIT else
  modify (fun d => Disks (<[Z.to_nat pdrv := s_mount_ops d]> (s_disk_ops d)) (s_mount_ops d) (machine d));;
  ops ← gets (fun d => s_disk_ops d !! Z.to_nat pdrv);
  match ops with
  | Some (Some o) => on_machine (initialize o pdrv)
  | _ => undef
  end.

(** The four other calls: the entry of the drive, if it has one with that operation. *)
Definition dispatch {R} (pdrv : Z) (sel : disk_ops M -> option R) (call : R -> prog M Z) (refuse : Z) : prg Z :=
  if pdrv >=? SOCT_MAX_DRIVES then mret refuse else
  ops ← gets (fun d => s_disk_ops d !! Z.to_nat pdrv);
  match ops with
  | Some (Some o) => match sel o with Some f => on_machine (call f) | None => mret refuse end
  | _ => mret refuse
  end.

Definition disk_status (pdrv : Z) : prg Z := dispatch pdrv status (fun f => f pdrv) STA_NOINIT.
Definition disk_read (pdrv buff sector count : Z) : prg Z := dispatch pdrv read (fun f => f pdrv buff sector count) RES_NOTRDY.
Definition disk_write (pdrv buff sector count : Z) : prg Z := dispatch pdrv write (fun f => f pdrv buff sector count) RES_NOTRDY.
Definition disk_ioctl (pdrv cmd buff : Z) : prg Z := dispatch pdrv ioctl (fun f => f pdrv cmd buff) RES_NOTRDY.
End disk.
End Disk.
