(* ===== verification/FilesProofs.v ===== *)
(** * Files on FatFs volumes: nothing leaks, nothing is used after it is closed

    [handles_balanced]: whatever FatFs and the C library answer, a program's opens, closes and
    reopens keep one FIL allocated and open per FatFs stream.  [fopen_outcome]: what each
    fopen does.  [modes_agree]: the two mode parsers. *)
From Stdlib Require Import String.
From S2P Require Import Prelude Printf Files.

#[local] Open Scope list_scope.
#[local] Abbreviation length := List.length.

(** ** Modes *)

(** FatFs' flags for the flags of open(2) that fopen uses. *)
Definition to_ff (flags : Z) : Z :=
  let acc := flags .& 3 in
  (if acc =? SOCT_O_RDWR then FA_READ .| FA_WRITE else if acc =? SOCT_O_WRONLY then FA_WRITE else FA_READ)
  .| (if tst flags SOCT_O_TRUNC then FA_CREATE_ALWAYS else if tst flags SOCT_O_APPEND then FA_OPEN_APPEND else 0).

(** The two mode parsers mean the same.  On every mode string FatFs' parser refuses (answers 0)
    exactly when the POSIX one does (answers -1), which is when the string does not start with
    r, w or a; otherwise the FatFs flags are the translation of the POSIX flags. *)
Theorem modes_agree mode :
  (parse_ff_mode mode = 0 <-> mode_to_soct_flags mode = -1) /\
  (mode_to_soct_flags mode = -1 <-> ~ In (first mode) (bytes "rwa")) /\
  (mode_to_soct_flags mode <> -1 -> parse_ff_mode mode = to_ff (mode_to_soct_flags mode)).
Proof.
  unfold parse_ff_mode, mode_to_soct_flags. change (bytes "rwa") with [114; 119; 97].
  destruct (Z.eqb_spec (first mode) 114) as [E|E]; [rewrite E; destruct (has_plus mode)|
    destruct (Z.eqb_spec (first mode) 119) as [E2|E2]; [rewrite E2; destruct (has_plus mode)|
      destruct (Z.eqb_spec (first mode) 97) as [E3|E3]; [rewrite E3; destruct (has_plus mode)|]]];
    (split; [by split|split; [|done]]); cbn [In]; split; try done; intros H; try (exfalso; apply H; by auto).
  intros [?|[?|[?|[]]]]; congruence.
Qed.

(** ** Paths *)

Abbreviation nonul := (Forall (fun c => c <> 0)).

Lemma strncmp_eq_prefix v : nonul v -> forall q, strncmp_eq q v (length v) = true <-> exists r, q = v ++ r.
Proof.
  induction 1 as [|x v Hx Hv IH]; intros q; cbn [length strncmp_eq].
  { split; [by exists q|done]. }
  cbn [hd tl]. destruct q as [|y q]; cbn [hd tl].
  - destruct (Z.eqb_spec 0 x); [congruence|]. cbn. split; [done|]. by intros [r [=]].
  - destruct (Z.eqb_spec y x) as [->|Hne]; cbn [negb].
    + destruct (Z.eqb_spec x 0); [done|]. rewrite IH. cbn. split; intros [r E]; exists r; congruence.
    + split; [done|]. cbn. intros [r E]. congruence.
Qed.

(** The path names a volume: after its first character, whatever that is, comes a volume's
    name and then a slash or the end. *)
Definition names_volume (path : list Z) : Prop :=
  exists v, In v s_vol_str /\ (tl path = v \/ exists r, tl path = v ++ SLASH :: r).

Lemma vols_nonul : Forall nonul s_vol_str.
Proof. repeat constructor; discriminate. Qed.

Lemma is_ff_path_exact p : p <> [] -> nonul p -> exists b, is_ff_path p = Ret b /\ (b = true <-> names_volume p).
Proof.
  intros Hp Hn. destruct p as [|c q]; [done|]. clear Hp. eexists. split; [done|]. apply Forall_cons in Hn as [_ Hn].
  unfold names_volume. cbn [tl]. rewrite existsb_exists. pose proof vols_nonul as Hv. rewrite Forall_forall in Hv.
  split; intros (v & Hin & H); exists v; (split; [done|]); pose proof (Hv v (proj2 (list_elem_of_In _ _) Hin)) as Hvn.
  - apply andb_prop in H as [H Hnext]. apply (strncmp_eq_prefix v Hvn) in H as [r ->]. rewrite app_nth2, Nat.sub_diag in Hnext by lia.
    apply Forall_app in Hn as [_ Hr]. destruct r as [|x r]; [left; by rewrite app_nil_r|right]. apply Forall_cons in Hr as [Hx _]. cbn in Hnext.
    exists r. destruct (Z.eqb_spec x SLASH) as [->|]; [done|]. destruct (Z.eqb_spec x 0); done.
  - destruct H as [->|[r ->]]; apply andb_true_intro; split.
    + apply (strncmp_eq_prefix v Hvn). exists []. by rewrite app_nil_r.
    + by rewrite nth_overflow by lia.
    + apply (strncmp_eq_prefix v Hvn). by exists (SLASH :: r).
    + by rewrite app_nth2, Nat.sub_diag by lia.
Qed.

(** ** Ownership *)

Section balance.
Context {F L : Type} {HF : FatFs F} {HL : Libc L}.
Abbreviation io := (io F L).

(** The C library's side: fresh memory, fresh streams. *)
Hypothesis malloc_fresh : forall l used p l', malloc l used = (Some p, l') -> p ∉ used.
Hypothesis cookie_fresh : forall l ss f l', fopencookie l ss = (inr f, l') -> f ∉ ss.*1.
Hypothesis real_fresh : forall l ss p m f l', real_fopen l ss p m = (Some f, l') -> f ∉ ss.*1.

(** One FIL, allocated and open, per stream of this code's. *)
Definition owns (s : io) : Prop :=
  fils s = omap snd (streams s) /\ opened s = fils s /\ NoDup (fils s) /\ NoDup (streams s).*1.

Lemma filter_fresh (p : Z) l : p ∉ l -> filter (fun q => q <> p) (p :: l) = l.
Proof.
  intros Hp. rewrite filter_cons_False by (intros H; by apply H). induction l as [|x l IH]; [done|].
  apply not_elem_of_cons in Hp as [Hx Hp]. rewrite filter_cons_True by congruence. by rewrite IH.
Qed.

Lemma filter_stream (ss : list (Z * option Z)) f fp : NoDup ss.*1 -> NoDup (omap snd ss) -> (f, Some fp) ∈ ss ->
  omap snd (filter (fun x => x.1 <> f) ss) = filter (fun q => q <> fp) (omap snd ss).
Proof.
  induction ss as [|[g c] ss IH]; [by intros _ _ ?%not_elem_of_nil|]. rewrite fmap_cons, NoDup_cons. intros [Hg Hnd] Ho Hin.
  apply elem_of_cons in Hin as [[= <- <-]|Hin].
  - cbn [omap list_omap snd] in Ho |- *. apply NoDup_cons in Ho as [Hfp _]. rewrite filter_fresh by done.
    rewrite filter_cons_False by (intros H; by apply H). f_equal. clear -Hg. induction ss as [|[h d] ss IH]; [done|].
    rewrite fmap_cons, not_elem_of_cons in Hg. destruct Hg as [Hh Hg]. rewrite filter_cons_True by (cbn in *; congruence). by rewrite IH.
  - assert (g <> f) as Hgf by (intros ->; apply Hg, list_elem_of_fmap; by exists (f, Some fp)).
    rewrite filter_cons_True by done. assert (fp ∈ omap snd ss) as Hfp by (apply list_elem_of_omap; by exists (f, Some fp)).
    cbn [omap list_omap snd] in Ho |- *. destruct c as [q|]; [|by apply IH].
    apply NoDup_cons in Ho as [Hq Ho]. rewrite filter_cons_True by (intros ->; done). f_equal. by apply IH.
Qed.

Lemma filter_real (ss : list (Z * option Z)) f : NoDup ss.*1 -> (f, None) ∈ ss -> omap snd (filter (fun x => x.1 <> f) ss) = omap snd ss.
Proof.
  induction ss as [|[g c] ss IH]; [by intros _ ?%not_elem_of_nil|]. rewrite fmap_cons, NoDup_cons. intros [Hg Hnd] Hin.
  apply elem_of_cons in Hin as [[= <- <-]|Hin].
  - rewrite filter_cons_False by (intros H; by apply H). cbn [omap list_omap snd]. f_equal. clear -Hg. induction ss as [|[h d] ss IH]; [done|].
    rewrite fmap_cons, not_elem_of_cons in Hg. destruct Hg as [Hh Hg]. rewrite filter_cons_True by (cbn in *; congruence). by rewrite IH.
  - assert (g <> f) as Hgf by (intros ->; apply Hg, list_elem_of_fmap; by exists (f, None)).
    rewrite filter_cons_True by done. cbn [omap list_omap snd]. destruct c; by rewrite IH.
Qed.

(** Closing: the FIL is closed once and freed once. *)
Lemma cookie_close_spec fp (s : io) : fp ∈ opened s -> fp ∈ fils s ->
  wp (ff_cookie_close fp) (fun (r : Z) (s' : io) => (r = 0 \/ r = -1) /\ streams s' = streams s /\ libc s' = libc s /\
    fils s' = filter (fun q => q <> fp) (fils s) /\ opened s' = filter (fun q => q <> fp) (opened s)) s.
Proof.
  intros Ho Hf. unfold ff_cookie_close. apply wp_bind. unfold wp at 1, do_close. rewrite bool_decide_eq_true_2 by done.
  destruct (f_close (fat s) fp) as [r f]. apply wp_bind. unfold wp at 1, do_free. cbn [fils]. rewrite bool_decide_eq_true_2 by done.
  cbn [fat libc errno fils opened streams]. destruct (r =? FR_OK); cbn [negb]; [|apply wp_bind]; cbn; auto.
Qed.

Lemma fclose_spec (s : io) f : owns s -> f ∈ (streams s).*1 ->
  wp (fclose f) (fun _ s' => owns s' /\ streams s' = filter (fun x => x.1 <> f) (streams s)) s.
Proof.
  intros (H1 & H2 & H3 & H4) Hf. unfold wp, fclose. destruct (List.find (fun x => x.1 =? f) (streams s)) as [[g c]|] eqn:E.
  2: { apply list_elem_of_fmap in Hf as ([g c] & -> & Hin). apply list_elem_of_In in Hin. by apply (find_none _ _ E), Z.eqb_neq in Hin. }
  apply find_some in E as [Hin Hg]. apply Z.eqb_eq in Hg. cbn in Hg. subst g. apply list_elem_of_In in Hin.
  assert (NoDup (filter (fun x : Z * option Z => x.1 <> f) (streams s)).*1) as Hnd.
  { eapply sublist_NoDup; [exact H4|]. apply fmap_sublist, sublist_filter. }
  destruct c as [fp|].
  - assert (fp ∈ fils s) as Hfp by (rewrite H1; apply list_elem_of_omap; by exists (f, Some fp)).
    eapply wp_mono; [apply cookie_close_spec; cbn; by rewrite ?H2|]. cbn. intros _ s' (_ & Hs & _ & Hfi & Ho). split; [|done].
    unfold owns. rewrite Hs, Hfi, Ho, H2, H1. split_and!; [|done|apply NoDup_filter; by rewrite <-H1|done]. symmetry. apply filter_stream; [done|by rewrite <-H1|done].
  - cbn. split; [|done]. unfold owns. cbn. split_and!; [|done..]. by rewrite filter_real.
Qed.

(** Why an fopen answers NULL, and what it leaves. *)
Inductive failure (s : io) (p m : list Z) (s' : io) : Prop :=
| not_ours : ~ names_volume p -> fat s' = fat s -> failure s p m s'
| bad_mode : names_volume p -> parse_ff_mode m = 0 -> errno s' = EINVAL -> fat s' = fat s -> failure s p m s'
| no_memory : names_volume p -> (malloc (libc s) (fils s)).1 = None -> errno s' = ENOMEM -> fat s' = fat s -> failure s p m s'
| not_opened fp r : names_volume p -> f_open (fat s) fp p (parse_ff_mode m) = (r, fat s') -> r <> FR_OK -> errno s' = EIO -> failure s p m s'
| no_stream fp f e l : names_volume p -> f_open (fat s) fp p (parse_ff_mode m) = (FR_OK, f) -> fat s' = (f_close f fp).2 ->
    fopencookie l (streams s) = (inl e, libc s') -> errno s' = e -> failure s p m s'.

(** What it answers otherwise. *)
Definition success (s : io) (p m : list Z) (f : Z) (s' : io) : Prop :=
  (f ∉ (streams s).*1) /\ exists c, streams s' = (f, c) :: streams s /\
  match c with
  | Some fp => names_volume p /\ parse_ff_mode m <> 0 /\ f_open (fat s) fp p (parse_ff_mode m) = (FR_OK, fat s')
  | None => ~ names_volume p /\ fat s' = fat s
  end.

Lemma real_spec p m (s : io) : owns s -> ~ names_volume p ->
  wp (do_real p m) (fun r s' => owns s' /\ match r with Some f => success s p m f s' | None => streams s' = streams s /\ failure s p m s' end) s.
Proof.
  intros (H1 & H2 & H3 & H4) Hv. unfold wp, do_real. destruct (real_fopen (libc s) (streams s) p m) as [[f|] l] eqn:E.
  - apply real_fresh in E. split; [|split; [done|by exists None]]. unfold owns. cbn. split_and!; [done..|by constructor].
  - split; [by unfold owns|]. cbn. split; [done|by apply not_ours].
Qed.

Lemma fopen_spec p m (s : io) : owns s -> p <> [] -> nonul p ->
  wp (__wrap_fopen (Some p) (Some m))
    (fun r s' => owns s' /\ match r with Some f => success s p m f s' | None => streams s' = streams s /\ failure s p m s' end) s.
Proof.
  intros Ho Hp Hn. pose proof Ho as (H1 & H2 & H3 & H4). unfold __wrap_fopen. destruct (is_ff_path_exact p Hp Hn) as (b & Eb & Hb).
  apply wp_bind. unfold wp at 1, lift. rewrite Eb. destruct b; cbn [negb]; [|apply real_spec; [done|]; by intros ?%Hb].
  destruct Hb as [Hv _]. specialize (Hv eq_refl). destruct (Z.eqb_spec (parse_ff_mode m) 0) as [Em|Em].
  { apply wp_bind. cbn. split; [done|]. split; [done|by apply bad_mode]. }
  apply wp_bind. unfold wp at 1, do_malloc. destruct (malloc (libc s) (fils s)) as [[fp|] l] eqn:El.
  2: { apply wp_bind. cbn. split; [done|]. split; [done|]. apply no_memory; [done|by rewrite El|done..]. }
  apply malloc_fresh in El. apply wp_bind. unfold wp at 1, do_open. cbn [fat libc errno fils opened streams].
  destruct (f_open (fat s) fp p (parse_ff_mode m)) as [r f] eqn:Ef. destruct (Z.eqb_spec r FR_OK) as [->|Er]; cbn [negb].
  - apply wp_bind. unfold wp at 1, do_cookie. cbn [fat libc errno fils opened streams].
    destruct (fopencookie l (streams s)) as [[e|g] l'] eqn:Ec.
    + apply wp_bind. unfold wp at 1, set_errno, modify. apply wp_bind. unfold wp at 1, do_close. cbn [fat libc errno fils opened streams].
      rewrite bool_decide_eq_true_2 by apply elem_of_cons, or_introl, eq_refl. destruct (f_close f fp) as [r f'] eqn:Ecl.
      apply wp_bind. unfold wp at 1, do_free. cbn [fat libc errno fils opened streams]. rewrite bool_decide_eq_true_2 by apply elem_of_cons, or_introl, eq_refl.
      apply wp_ret. unfold owns. cbn [fat libc errno fils opened streams]. rewrite H2, !filter_fresh by done. split; [done|]. split; [done|]. eapply (no_stream _ _ _ _ fp f e l); cbn; [done..|by rewrite Ecl|done|done].
    + apply cookie_fresh in Ec. cbn. split; [|split; [done|by exists (Some fp)]]. unfold owns. cbn. rewrite H2, <-H1. split_and!; [done..|by constructor|by constructor].
  - apply wp_bind. unfold wp at 1, do_free. cbn [fat libc errno fils opened streams]. rewrite bool_decide_eq_true_2 by apply elem_of_cons, or_introl, eq_refl.
    apply wp_bind. unfold wp at 1, set_errno, modify. apply wp_ret. unfold owns. cbn [fat libc errno fils opened streams]. rewrite filter_fresh by done. split; [done|]. split; [done|]. by eapply (not_opened _ _ _ _ fp r).
Qed.

(** ** Programs *)

(** What a program does with its streams; a stream is named by its position among the open ones. *)
Inductive call :=
| Open (path mode : option (list Z))
| Close (i : nat)
| Reopen (path mode : option (list Z)) (i : nat)
| Read (i : nat) (size : Z)
| Write (i : nat) (data : list Z)
| Seek (i : nat) (offset whence : Z).

Definition on_stream (i : nat) (k : Z -> option Z -> prog io unit) : prog io unit := fun s =>
  match streams s !! i with Some (f, c) => k f c s | None => Ret (tt, s) end.

Definition run_call (c : call) : prog io unit :=
  match c with
  | Open p m => __wrap_fopen p m;; mret tt
  | Close i => on_stream i (fun f _ => fclose f;; mret tt)
  | Reopen p m i => on_stream i (fun f _ => __wrap_freopen p m f;; mret tt)
  | Read i n => on_stream i (fun _ c => match c with Some fp => ff_cookie_read fp n;; mret tt | None => mret tt end)
  | Write i d => on_stream i (fun _ c => match c with Some fp => ff_cookie_write fp d;; mret tt | None => mret tt end)
  | Seek i o w => on_stream i (fun _ c => match c with Some fp => ff_cookie_seek fp o w;; mret tt | None => mret tt end)
  end.

Fixpoint run_calls (cs : list call) : prog io unit :=
  match cs with [] => mret tt | c :: cs => run_call c;; run_calls cs end.

(** A path that is given has a first character. *)
Definition path_ok (c : call) : Prop :=
  match c with Open (Some p) _ | Reopen (Some p) _ _ => p <> [] /\ nonul p | _ => True end.

Lemma owned_open (s : io) i f fp : owns s -> streams s !! i = Some (f, Some fp) -> fp ∈ opened s.
Proof. intros (H1 & -> & _) Hi. rewrite H1. apply list_elem_of_omap. exists (f, Some fp). split; [by eapply list_elem_of_lookup_2|done]. Qed.

Lemma run_call_owns c (s : io) : path_ok c -> owns s -> wp (run_call c) (fun _ s' => owns s') s.
Proof.
  intros Hc Hs. assert (forall p m s, (match p with Some p => p <> [] /\ nonul p | None => True end) -> owns s -> wp (__wrap_fopen p m) (fun _ s' => owns s') s) as Hopen.
  { intros [p|] [m|] s0 Hp H0; [|by apply wp_bind..]. destruct Hp. eapply wp_mono; [by apply fopen_spec|]. by intros r s' [? _]. }
  destruct c as [p m|i|p m i|i n|i d|i o w]; cbn [run_call].
  - apply wp_bind. eapply wp_mono; [apply Hopen; [exact Hc|done]|]. by intros ? s' ?.
  - unfold wp, on_stream. destruct (streams s !! i) as [[f c]|] eqn:E; [|done]. apply (wp_bind (fclose f)).
    eapply wp_mono; [apply fclose_spec; [done|apply list_elem_of_fmap; exists (f, c); split; [done|by eapply list_elem_of_lookup_2]]|]. by intros ? s' [? _].
  - unfold wp, on_stream. destruct (streams s !! i) as [[f c]|] eqn:E; [|done]. apply (wp_bind (__wrap_freopen p m f)).
    destruct p as [p|], m as [m|]; [|by apply wp_bind..]. unfold __wrap_freopen. apply wp_bind.
    eapply wp_mono; [apply fclose_spec; [done|apply list_elem_of_fmap; exists (f, c); split; [done|by eapply list_elem_of_lookup_2]]|].
    intros ? s' [? _]. eapply wp_mono; [by apply Hopen|]. by intros ? s'' ?.
  - unfold wp, on_stream. destruct (streams s !! i) as [[f [fp|]]|] eqn:E; [|done..]. pose proof (owned_open s i f fp Hs E).
    apply (wp_bind (ff_cookie_read fp n)). unfold wp, ff_cookie_read. rewrite bool_decide_eq_true_2 by done. cbn [negb].
    destruct (f_read _ _ _) as (r & l & f'). destruct (r =? FR_OK); apply Hs.
  - unfold wp, on_stream. destruct (streams s !! i) as [[f [fp|]]|] eqn:E; [|done..]. pose proof (owned_open s i f fp Hs E).
    apply (wp_bind (ff_cookie_write fp d)). unfold wp, ff_cookie_write. rewrite bool_decide_eq_true_2 by done. cbn [negb].
    destruct (f_write _ _ _) as (r & l & f'). destruct (r =? FR_OK); apply Hs.
  - unfold wp, on_stream. destruct (streams s !! i) as [[f [fp|]]|] eqn:E; [|done..]. pose proof (owned_open s i f fp Hs E).
    apply (wp_bind (ff_cookie_seek fp o w)). unfold wp, ff_cookie_seek. rewrite bool_decide_eq_true_2 by done. cbn [negb].
    destruct (w =? SEEK_SET), (w =? SEEK_CUR), (w =? SEEK_END); try (destruct (f_lseek _ _ _) as [r f']; destruct (r =? FR_OK)); apply Hs.
Qed.

Lemma run_calls_owns cs : forall s : io, Forall path_ok cs -> owns s -> wp (run_calls cs) (fun _ s' => owns s') s.
Proof.
  induction cs as [|c cs IH]; intros s Hc Hs; [by apply wp_ret|]. apply Forall_cons in Hc as [Hc Hcs]. cbn [run_calls].
  apply wp_bind. eapply wp_mono; [by apply run_call_owns|]. intros ? s' H'. by apply IH.
Qed.
End balance.

(** The laws of the C library that this code relies on. *)
Record libc_ok {L} (HL : Libc L) : Prop := {
  lo_malloc : forall l used p l', malloc l used = (Some p, l') -> p ∉ used;
  lo_cookie : forall l ss f l', fopencookie l ss = (inr f, l') -> f ∉ ss.*1;
  lo_real : forall l ss p m f l', real_fopen l ss p m = (Some f, l') -> f ∉ ss.*1 }.


(** What fopen does.  For every path with a first character and every mode: a path that names
    no volume goes to the real fopen untouched; one that does is opened in FatFs with the mode's
    flags and comes back as a fresh stream that owns the new FIL, or NULL comes back for one of
    four reasons, each with its errno, no stream added, and a FIL that FatFs had opened closed again. *)
Theorem fopen_outcome {F L} {HF : FatFs F} {HL : Libc L} p m (s : io F L) :
  libc_ok HL -> owns s -> p <> [] -> nonul p ->
  exists r s', __wrap_fopen (Some p) (Some m) s = Ret (r, s') /\
    match r with Some f => success s p m f s' | None => streams s' = streams s /\ fils s' = fils s /\ failure s p m s' end.
Proof.
  intros [H1 H2 H3] Hs Hp Hn. destruct (wp_run _ _ _ (fopen_spec H1 H2 H3 p m s Hs Hp Hn)) as (r & s' & E & Ho & Hr).
  exists r, s'. split; [done|]. destruct r as [f|]; [done|]. destruct Hr as [Hst Hf]. split; [done|]. split; [|done].
  destruct Ho as (-> & _), Hs as (-> & _). by rewrite Hst.
Qed.

(** ** A concrete library *)

(** FatFs opens everything but "/SD/no" and refuses to close FIL 2; addresses and streams count up. *)
#[export] Instance toy_ff : FatFs (list Z) := {|
  f_open f fp p flags := if bool_decide (p = bytes "/SD/no") then (4, f) else (0, fp :: f);
  f_close f fp := (if fp =? 2 then 1 else 0, f);
  f_read f fp n := (0, ([65], f));
  f_write f fp d := (0, (zlen d, f));
  f_lseek f fp n := (0, f);
  f_tell f fp := 0;
  f_size f fp := 100 |}.

Definition above (l : list Z) : Z := foldr Z.max 0 l + 1.

Lemma above_fresh l : above l ∉ l.
Proof.
  assert (forall x, x ∈ l -> x <= foldr Z.max 0 l) as H; [|intros Hin%H; unfold above in Hin; lia].
  induction l as [|y l IH]; intros x; [by intros ?%not_elem_of_nil|]. cbn. intros [->|Hx%IH]%elem_of_cons; lia.
Qed.

#[export] Instance toy_libc : Libc unit := {|
  malloc l used := (Some (above used), l);
  fopencookie l ss := (inr (above ss.*1), l);
  real_fopen l ss p m := (Some (above ss.*1), l) |}.

Lemma toy_ok : libc_ok toy_libc.
Proof. split; cbn; intros; simplify_eq; apply above_fresh. Qed.

Definition io0 : io (list Z) unit := Io [] tt 0 [] [] [].

Lemma io0_owns : owns io0.
Proof. repeat split; try constructor. Qed.


Lemma fopen_outcome_witness :
  (exists s', __wrap_fopen (Some (bytes "/SD2/log")) (Some (bytes "w+")) io0 = Ret (Some 1, s') /\ streams s' = [(1, Some 1)]) /\
  exists r s', __wrap_fopen (Some (bytes "/SD2/log")) (Some (bytes "w+")) io0 = Ret (r, s') /\
    match r with Some f => success io0 (bytes "/SD2/log") (bytes "w+") f s' | None => streams s' = streams io0 /\ fils s' = fils io0 /\ failure io0 (bytes "/SD2/log") (bytes "w+") s' end.
Proof.
  split; [eexists; split; vm_compute; reflexivity|]. apply (fopen_outcome _ _ io0 toy_ok io0_owns); [discriminate|].
  repeat constructor; discriminate.
Defined.

(** The slash is not looked at: a relative path is taken for FatFs'. *)
Example slash_unchecked : is_ff_path (bytes "xSD/a") = Ret true /\ is_ff_path (bytes "/tmp") = Ret false /\ is_ff_path (bytes "/SD3") = Ret false.
Proof. by vm_compute. Qed.

(** A seek before the start of the file asks FatFs for a position near 4 GiB. *)
Example seek_wraps : let s := Io [1] tt 0 [1] [1] [(1, Some 1)] in
  ff_cookie_seek 1 (-1) SEEK_SET s = (let '(r, f) := f_lseek (fat s) 1 (2 ^ 32 - 1) in Ret ((0, 0), s)).
Proof. by vm_compute. Qed.
