(* ===== verification/SdcMount.v ===== *)
(** * Mounting the SD cards of the device tree (soctglue/src/soct_ff/sdc.c)

    [soct_init_from_dtb_sdc] gives the first two volumes named after SD cards to the first two
    SD controllers of the tree, in file order, and mounts each.  FatFs' f_mount is the argument
    [f_mount]; it reaches the driver through the registers recorded here. *)
From Stdlib Require Import String.
From S2P Require Import Prelude Dtb DtbTree DtbQuery DtbCompat.
From S2P Require Files.

#[local] Open Scope list_scope.
#[local] Abbreviation length := List.length.

Definition SOCT_SDC_NAME_DTS : cptr := lit "riscv,axi-sd-card-1.0".
Definition SDC_MAX_DRIVES : nat := 2.

(** The names of the slots and their paths. *)
Definition slots : list (list Z * list Z) := [(str "SD", str "/SD"); (str "SD2", str "/SD2")].

(** [find_pdrv]: the drive of a volume name. *)
Definition find_pdrv (vol : list Z) : option nat := fst <$> list_find (fun v => v = vol) Files.s_vol_str.

(** The messages handed to [soct_add_setup_msg]. *)
Inductive setup_msg :=
| MsgNoVolume | MsgNoReg | MsgBadReg
| MsgMountFailed (path : list Z) (err : Z)
| MsgMounted (path : list Z) (base : Z).

Section mount.
Context (blob : list Z) (st : dtb_state) {FS : Type}.
(** What f_mount of a drive answers, given the registers recorded for the drives. *)
Context (f_mount : list (option Z) -> nat -> list Z -> FS -> Z * FS).

(** [s_regs], whether the SD operations are the mount operations, the messages, FatFs. *)
Record mounts := Mounts { s_regs : list (option Z); sdc_ops : bool; msgs : list setup_msg; ff : FS }.

Definition say (m : setup_msg) (s : mounts) : mounts := Mounts (s_regs s) (sdc_ops s) (msgs s ++ [m]) (ff s).

(** The body of the loop for the node [n] that was found: whether it mounted, and the state. *)
Definition mount_slot (vol path : list Z) (n : nat) (s : mounts) : res (bool * mounts) :=
  match find_pdrv vol with
  | None => Ret (false, say MsgNoVolume s)
  | Some pdrv =>
      reg_prop ← dtb_find_prop blob st (Some n) (lit "reg");
      match reg_prop with
      | None => Ret (false, say MsgNoReg s)
      | Some _ =>
          addr_cells ← dtb_get_addr_cells_for blob st (Some n);
          pd ← deref_prop st reg_prop;
          '(count, vals) ← dtb_read_prop_1 blob pd addr_cells true;
          if 16 <? count then Undef else
          if count <? 1 then Ret (false, say MsgBadReg s) else
          let base := u64 (hd 0 vals) in
          let regs := <[pdrv := Some base]> (s_regs s) in
          let '(res, fs) := f_mount regs pdrv path (ff s) in
          let s := Mounts regs true (msgs s) fs in
          if negb (res =? 0) then Ret (false, say (MsgMountFailed path res) s)
          else Ret (true, say (MsgMounted path base) s)
      end
  end.

Fixpoint mount_from (sl : list (list Z * list Z)) (node : option nat) (any : bool) (s : mounts) : res (bool * mounts) :=
  match sl with
  | [] => Ret (any, s)
  | (vol, path) :: sl =>
      node ← dtb_find_compatible blob st node (Some SOCT_SDC_NAME_DTS);
      match node with
      | None => Ret (any, s)
      | Some n => '(ok, s) ← mount_slot vol path n s; mount_from sl (Some n) (any || ok) s
      end
  end.

Definition soct_init_from_dtb_sdc (s : mounts) : res (bool * mounts) := mount_from slots None false s.

(** ** The specification *)

(** Where the tree says the registers of node [n] are: the first entry of its reg property. *)
Definition base_of (n : nat) : res (option Z) :=
  p ← dtb_find_prop blob st (Some n) (lit "reg");
  match p with
  | None => Ret None
  | Some _ =>
      ac ← dtb_get_addr_cells_for blob st (Some n);
      pd ← deref_prop st p;
      '(count, vals) ← dtb_read_prop_1 blob pd ac true;
      if 16 <? count then Undef else Ret (if count <? 1 then None else Some (u64 (hd 0 vals)))
  end.

Definition fits_regs (n : nat) : Prop := exists b, base_of n = Ret b.

(** Each slot with its node, in order. *)
Fixpoint mount_all (l : list ((list Z * list Z) * nat)) (any : bool) (s : mounts) : res (bool * mounts) :=
  match l with
  | [] => Ret (any, s)
  | ((vol, path), n) :: l => '(ok, s) ← mount_slot vol path n s; mount_all l (any || ok) s
  end.

(** What a slot does to the registers and the messages. *)
Definition slot_done (path : list Z) (pdrv : nat) (b : option Z) (s : mounts) (ok : bool) (s' : mounts) : Prop :=
  s_regs s' = match b with Some b => <[pdrv := Some b]> (s_regs s) | None => s_regs s end /\
  exists m, msgs s' = msgs s ++ [m] /\ (ok = true <-> exists path b, m = MsgMounted path b).

Lemma mount_slot_spec vol path n s pdrv b : find_pdrv vol = Some pdrv -> base_of n = Ret b ->
  exists ok s', mount_slot vol path n s = Ret (ok, s') /\ slot_done path pdrv b s ok s'.
Proof.
  intros Hv. unfold base_of, mount_slot, slot_done. rewrite Hv.
  assert (forall m : setup_msg, (false = true <-> exists path b, m = MsgMounted path b) <-> ~ exists path b, m = MsgMounted path b) as Hf by (intros; split; [intros [_ H] [? [? ?]]; by assert (false = true) by eauto|by split]).
  destruct (dtb_find_prop blob st (Some n) (lit "reg")) as [[p|]| |]; cbn [mbind res_bind]; [| |done..].
  2: { intros [= <-]. do 2 eexists. split; [done|]. split; [done|]. eexists. split; [done|]. apply Hf. by intros (? & ? & ?). }
  destruct (dtb_get_addr_cells_for blob st (Some n)) as [ac| |]; cbn [mbind res_bind]; [|done..].
  destruct (deref_prop st (Some p)) as [pd| |]; cbn [mbind res_bind]; [|done..].
  destruct (dtb_read_prop_1 blob pd ac true) as [[count vals]| |]; cbn [mbind res_bind]; [|done..].
  destruct (16 <? count); [done|]. intros [= <-]. destruct (count <? 1).
  - do 2 eexists. split; [done|]. split; [done|]. eexists. split; [done|]. apply Hf. by intros (? & ? & ?).
  - destruct (f_mount _ _ _ _) as [r fs]. destruct (negb (r =? 0)); (do 2 eexists; split; [done|]; split; [done|]; eexists; split; [done|]).
    + apply Hf. by intros (? & ? & ?).
    + split; [by eauto|done].
Qed.
End mount.
Arguments Mounts {FS}.
Arguments s_regs {FS} m.
Arguments sdc_ops {FS} m.
Arguments msgs {FS} m.
Arguments ff {FS} m.

Lemma mount_from_all {FS} blob st t (f_mount : list (option Z) -> nat -> list Z -> FS -> Z * FS) sl : searchable blob st t ->
  forall node any s, let begin := match node with None => 0%nat | Some n => S n end in
  mount_from blob st f_mount sl node any s =
    mount_all blob st f_mount (zip sl (found (str "riscv,axi-sd-card-1.0") begin (drop begin (preorder t)))) any s.
Proof.
  intros Hse. assert (SOCT_SDC_NAME_DTS = str "riscv,axi-sd-card-1.0" ++ [0]) as Hname by apply lit_str.
  induction sl as [|[vol path] sl IH]; intros node any s; [done|]. cbn [mount_from]. rewrite Hname.
  rewrite (find_compatible_spec blob st t) by (done || by apply nonul_dec). cbn [mbind res_bind].
  destruct (found _ _ _) as [|n ns] eqn:E; cbn [head zip zip_with mount_all]; [done|].
  apply found_next in E as [Hn ->]. destruct (mount_slot blob st f_mount vol path n s) as [[ok s']| |]; cbn [mbind res_bind]; [|done..].
  rewrite (IH (Some n)). rewrite drop_drop. by replace (match node with None => 0 | Some n => S n end + (S n - match node with None => 0 | Some n => S n end))%nat with (S n) by lia.
Qed.

(** Cards are mounted in the tree's order.  The loop over the slots runs [mount_slot] on the
    first SD controllers in file order, one per slot (a slot without its reg property uses its
    node up); if no reg property of theirs has more than the 16 entries of the buffer, it
    returns, having recorded for the drive of slot i the first reg entry of controller i and
    touched no other drive, with one message per controller, and it reports whether one was mounted. *)
Theorem sdc_mounts_in_order {FS} blob st t (f_mount : list (option Z) -> nat -> list Z -> FS -> Z * FS) s :
  let nodes := take SDC_MAX_DRIVES (found (str "riscv,axi-sd-card-1.0") 0 (preorder t)) in
  searchable blob st t -> length (s_regs s) = 8%nat -> Forall (fits_regs blob st) nodes ->
  soct_init_from_dtb_sdc blob st f_mount s = mount_all blob st f_mount (zip slots nodes) false s /\
  exists any s', soct_init_from_dtb_sdc blob st f_mount s = Ret (any, s') /\
    (forall i n b, nodes !! i = Some n -> base_of blob st n = Ret (Some b) -> s_regs s' !! (3 + i)%nat = Some (Some b)) /\
    (forall d, (d < 3 \/ 3 + length nodes <= d)%nat -> s_regs s' !! d = s_regs s !! d) /\
    exists ms, msgs s' = msgs s ++ ms /\ length ms = length nodes /\ (any = true <-> exists path b, MsgMounted path b ∈ ms).
Proof.
  intros nodes Hse Hlen Hfit.
  assert (soct_init_from_dtb_sdc blob st f_mount s = mount_all blob st f_mount (zip slots nodes) false s) as E.
  { unfold soct_init_from_dtb_sdc. rewrite (mount_from_all blob st t) by done. cbn [drop]. unfold nodes.
    by destruct (found _ _ _) as [|n1 [|n2 ns]]. }
  split; [done|]. rewrite E. assert (length nodes <= 2)%nat as H2 by (unfold nodes, SDC_MAX_DRIVES; rewrite length_take; lia). clearbody nodes. clear E.
  destruct nodes as [|n1 [|n2 [|]]]; [| | |cbn in H2; lia]; cbn [zip zip_with slots mount_all orb].
  - exists false, s. split; [done|]. split; [done|]. split; [done|]. exists []. rewrite app_nil_r. split_and!; [done..|].
    split; [done|]. by intros (? & ? & ?%not_elem_of_nil).
  - apply Forall_inv in Hfit as [b1 Hb1]. destruct (mount_slot_spec blob st f_mount (str "SD") (str "/SD") n1 s 3 b1 eq_refl Hb1) as (ok1 & s1 & -> & Hr1 & m1 & Hm1 & Hk1).
    exists ok1, s1. split; [done|]. rewrite Hr1. split; [|split].
    + intros [|i] n b [= <-] Hb. rewrite Hb1 in Hb. injection Hb as ->. by rewrite list_lookup_insert_eq by lia.
    + intros d Hd. destruct b1; [|done]. by rewrite list_lookup_insert_ne by (cbn in Hd; lia).
    + exists [m1]. split_and!; [done..|]. rewrite Hk1. split; intros (p & b & H); exists p, b; [by rewrite <-H; apply list_elem_of_singleton|by apply list_elem_of_singleton in H].
  - apply Forall_cons in Hfit as [[b1 Hb1] [[b2 Hb2] _]%Forall_cons].
    destruct (mount_slot_spec blob st f_mount (str "SD") (str "/SD") n1 s 3 b1 eq_refl Hb1) as (ok1 & s1 & -> & Hr1 & m1 & Hm1 & Hk1). cbn [mbind res_bind].
    destruct (mount_slot_spec blob st f_mount (str "SD2") (str "/SD2") n2 s1 4 b2 eq_refl Hb2) as (ok2 & s2 & -> & Hr2 & m2 & Hm2 & Hk2). cbn [mbind res_bind].
    assert (length (s_regs s1) = 8%nat) as Hl1 by (rewrite Hr1; destruct b1; rewrite ?length_insert; done).
    exists (ok1 || ok2), s2. split; [done|]. rewrite Hr2. split; [|split].
    + intros [|[|i]] n b; cbn [lookup list_lookup]; [| |done]; intros [= <-] Hb.
      * rewrite Hb1 in Hb. injection Hb as ->. destruct b2; [rewrite list_lookup_insert_ne by lia|]; by rewrite Hr1, list_lookup_insert_eq by lia.
      * rewrite Hb2 in Hb. injection Hb as ->. by rewrite list_lookup_insert_eq by lia.
    + intros d Hd. cbn in Hd. destruct b2; [rewrite list_lookup_insert_ne by lia|]; rewrite Hr1; (destruct b1; [|done]); by rewrite list_lookup_insert_ne by lia.
    + exists [m1; m2]. rewrite Hm2, Hm1, <-app_assoc. split_and!; [done..|]. rewrite orb_true_iff, Hk1, Hk2. split.
      * intros [(p & b & ->)|(p & b & ->)]; exists p, b; rewrite !elem_of_cons; auto.
      * intros (p & b & [H|[H|[]%not_elem_of_nil]%elem_of_cons]%elem_of_cons); eauto.
Qed.

(** The two controllers of [io]; FatFs mounts only the first. *)
Definition toy_mount (regs : list (option Z)) (d : nat) (path : list Z) (n : nat) : Z * nat := (if (d =? 3)%nat then 0 else 13, S n).

Lemma sdc_mounts_in_order_witness : exists s',
  soct_init_from_dtb_sdc io_blob (parsed io_blob) toy_mount (Mounts (replicate 8 None) false [] 0%nat) = Ret (true, s') /\
  msgs s' = [MsgMounted (str "/SD") 0x160000000; MsgMountFailed (str "/SD2") 13] /\ s_regs s' !! 4%nat = Some (Some 0x160010000).
Proof.
  destruct (sdc_mounts_in_order io_blob (parsed io_blob) io toy_mount (Mounts (replicate 8 None) false [] 0%nat) io_searchable eq_refl) as [_ (any & s' & E & Hr & _)].
  - assert (Hf : take SDC_MAX_DRIVES (found (str "riscv,axi-sd-card-1.0") 0 (preorder io)) = [3%nat; 4%nat]) by (vm_compute; reflexivity).
    rewrite Hf. repeat constructor; eexists; vm_compute; reflexivity.
  - exists s'. assert (E' : soct_init_from_dtb_sdc io_blob (parsed io_blob) toy_mount (Mounts (replicate 8 None) false [] 0%nat) =
      Ret (true, Mounts [None; None; None; Some 0x160000000; Some 0x160010000; None; None; None] true [MsgMounted (str "/SD") 0x160000000; MsgMountFailed (str "/SD2") 13] 2%nat)) by (vm_compute; reflexivity).
    rewrite E in E'. injection E' as -> ->. split; [exact E|]. split; [reflexivity|]. apply (Hr 1%nat 4%nat 0x160010000); vm_compute; reflexivity.
Defined.
