(* ===== verification/Sdc.v ===== *)
(** * The SD host driver

    [Core] is the command engine, the card initialisation and the block transfers, over any
    controller ([Mmio]).  They exist twice in the sources, in soct_ff/sdc.c (module [Ff], one
    state per drive) and in the boot ROM's bootrom.c (module [Rom]), with different command
    tables; the engine takes the table as an argument. *)
From S2P Require Import Prelude Mmio.

(** ** Constants *)

Definition CT_SD1 : Z := 0x02.
Definition CT_SD2 : Z := 0x04.
Definition CT_BLOCK : Z := 0x08.
Definition CMD0 : Z := 0.
Definition CMD2 : Z := 2.
Definition CMD3 : Z := 3.
Definition CMD7 : Z := 7.
Definition CMD8 : Z := 8.
Definition CMD12 : Z := 12.
Definition CMD16 : Z := 16.
Definition CMD17 : Z := 17.
Definition CMD18 : Z := 18.
Definition CMD24 : Z := 24.
Definition CMD25 : Z := 25.
Definition CMD55 : Z := 55.
Definition ACMD6 : Z := 0x80 + 6.
Definition ACMD41 : Z := 0x80 + 41.

Definition SDC_CAPABILITY_SD_RESET : Z := 0x0002.
Definition SDC_CONTROL_SD_RESET : Z := 0x0002.
Definition SDC_CMD_INT_STATUS_CC : Z := 0x0001.
Definition SDC_CMD_INT_STATUS_CTE : Z := 0x0004.
Definition SDC_CMD_INT_STATUS_CCRC : Z := 0x0008.
Definition SDC_CMD_INT_STATUS_CIE : Z := 0x0010.
Definition SDC_DAT_INT_STATUS_TRS : Z := 0x0001.
Definition SDC_DAT_INT_STATUS_CTE : Z := 0x0004.
Definition SDC_DAT_INT_STATUS_CRC : Z := 0x0008.
Definition SDC_DAT_INT_STATUS_CFE : Z := 0x0010.

Definition FR_DISK_ERR : Z := 1.
Definition FR_TIMEOUT : Z := 15.
Definition ERR_CMD_CRC : Z := 34.
Definition ERR_CMD_CHECK : Z := 35.
Definition ERR_DATA_CRC : Z := 36.
Definition ERR_DATA_FIFO : Z := 37.
Definition ERR_BUF_ALIGNMENT : Z := 38.

Definition STA_NOINIT : Z := 1.
Definition RES_OK : Z := 0.
Definition RES_ERROR : Z := 1.
Definition RES_NOTRDY : Z := 3.
Definition RES_PARERR : Z := 4.

Definition MAX_BLOCK_CNT : Z := 0x1000.

(** [struct sdc_regs], by byte offset. *)
Definition r_argument : Z := 0x00.
Definition r_command : Z := 0x04.
Definition r_response1 : Z := 0x08.
Definition r_response2 : Z := 0x0c.
Definition r_response3 : Z := 0x10.
Definition r_response4 : Z := 0x14.
Definition r_data_timeout : Z := 0x18.
Definition r_control : Z := 0x1c.
Definition r_cmd_timeout : Z := 0x20.
Definition r_clock_divider : Z := 0x24.
Definition r_software_reset : Z := 0x28.
Definition r_capability : Z := 0x30.
Definition r_cmd_int_status : Z := 0x34.
Definition r_dat_int_status : Z := 0x3c.
Definition r_block_size : Z := 0x44.
Definition r_block_count : Z := 0x48.
Definition r_dma_addres : Z := 0x60.

(** The driver's variables: [errno] and, per drive, card type, status and last response. *)
Record sd := Sd { errno : Z; card_type : Z; drv_status : Z; response : list Z }.
Definition set_errno e x := Sd e (card_type x) (drv_status x) (response x).
Definition set_card_type c x := Sd (errno x) c (drv_status x) (response x).
Definition set_drv_status s x := Sd (errno x) (card_type x) s (response x).
Definition set_response r x := Sd (errno x) (card_type x) (drv_status x) r.

Definition among (cmd : Z) (l : list Z) : bool := existsb (Z.eqb cmd) l.

(** ** The engine *)

Section core.
Context {D : Type} {HD : Mmio D}.
(** The command word for a command and whether data moves. *)
Context (encode : Z -> bool -> Z).
Abbreviation drv := (prog (bus D * sd)).

Definition response0 (x : sd) : Z := hd 0 (response x).

(** The last of the bits that is set decides. *)
Definition cmd_errno (status : Z) : Z :=
  let e := FR_DISK_ERR in
  let e := if tst status SDC_CMD_INT_STATUS_CTE then FR_TIMEOUT else e in
  let e := if tst status SDC_CMD_INT_STATUS_CCRC then ERR_CMD_CRC else e in
  if tst status SDC_CMD_INT_STATUS_CIE then ERR_CMD_CHECK else e.
Definition data_errno (status : Z) : Z :=
  let e := FR_DISK_ERR in
  let e := if tst status SDC_DAT_INT_STATUS_CTE then FR_TIMEOUT else e in
  let e := if tst status SDC_DAT_INT_STATUS_CRC then ERR_DATA_CRC else e in
  if tst status SDC_DAT_INT_STATUS_CFE then ERR_DATA_FIFO else e.

Definition sdc_cmd_finish (fuel : nat) : drv Z :=
  status ← poll fuel r_cmd_int_status (fun v => negb (v =? 0));
  wr r_cmd_int_status 0;;
  _ ← poll fuel r_software_reset (fun v => v =? 0);
  if status =? SDC_CMD_INT_STATUS_CC then
    a ← rd r_response1; b ← rd r_response2; c ← rd r_response3; d ← rd r_response4;
    put (set_response [a; b; c; d]);; mret 0
  else put (set_errno (cmd_errno status));; mret (-1).

Definition sdc_data_finish (fuel : nat) : drv Z :=
  status ← poll fuel r_dat_int_status (fun v => negb (v =? 0));
  wr r_dat_int_status 0;;
  _ ← poll fuel r_software_reset (fun v => v =? 0);
  if status =? SDC_DAT_INT_STATUS_TRS then mret 0
  else put (set_errno (data_errno status));; mret (-1).

(** The writes that set up a transfer, and those that issue the command. *)
Definition dma_setup (buf blocks : Z) : drv unit :=
  wr r_dma_addres buf;; wr r_block_size 511;; wr r_block_count (u32 (blocks - 1));; wr r_data_timeout 0xFFFFFF.
Definition issue (command arg : Z) : drv unit :=
  wr r_command command;; wr r_cmd_timeout 0xFFFFF;; wr r_argument arg.

Definition send_data_cmd (fuel : nat) (cmd arg buf blocks : Z) : drv Z :=
  let command := encode cmd (negb (blocks =? 0)) in
  if negb (blocks =? 0) && tst buf 3 then put (set_errno ERR_BUF_ALIGNMENT);; mret (-1) else
  (if negb (blocks =? 0) then dma_setup buf blocks else mret tt);;
  issue command (u32 arg);;
  r ← sdc_cmd_finish fuel;
  if r <? 0 then mret (-1)
  else if negb (blocks =? 0) then sdc_data_finish fuel else mret 0.

Definition send_cmd (fuel : nat) (cmd arg : Z) : drv Z := send_data_cmd fuel cmd arg 0 0.

(** [a < 0 || b < 0], evaluated in that order. *)
Definition fails (m : drv Z) : drv bool := r ← m; mret (r <? 0).
Definition or_else (a b : drv bool) : drv bool := x ← a; if x : bool then mret true else b.

(** ** Initialisation *)

(** The ACMD41 loop: true when it left because a command failed. *)
Fixpoint wait_ready (k fuel : nat) : drv bool :=
  match k with
  | O => fuel_out
  | S k =>
      f ← or_else (fails (send_cmd fuel CMD55 0)) (fails (send_cmd fuel ACMD41 0x40300000));
      if f : bool then mret true else
      x ← get;
      if tst (response0 x) (1 .<< 31) then
        (if tst (response0 x) (1 .<< 30) then put (fun x => set_card_type (card_type x .| CT_BLOCK) x) else mret tt);;
        mret false
      else wait_ready k fuel
  end.

Definition reset_controller (fuel : nat) : drv unit :=
  wr r_software_reset 1;;
  _ ← poll fuel r_software_reset (fun v => negb (v .& 1 =? 0));
  wr r_clock_divider 0x7c;;
  wr r_software_reset 0;;
  _ ← poll fuel r_software_reset (fun v => v =? 0); mret tt.

Definition power_cycle : drv unit :=
  cap ← rd r_capability;
  if tst cap SDC_CAPABILITY_SD_RESET then
    c ← rd r_control; wr r_control (c .| SDC_CONTROL_SD_RESET);;
    c ← rd r_control; wr r_control (c .& cnot 32 SDC_CONTROL_SD_RESET)
  else mret tt.

(** Identification, from CMD2 to the block length: true when a command failed. *)
Definition identify (fuel : nat) : drv bool :=
  f ← fails (send_cmd fuel CMD2 0);
  if f : bool then mret true else
  f ← fails (send_cmd fuel CMD3 (0x1234 .<< 16));
  if f : bool then mret true else
  x ← get;
  let rca := response0 x .>> 16 in
  f ← fails (send_cmd fuel CMD7 (rca .<< 16));
  if f : bool then mret true else
  wr r_clock_divider 3;;
  wr r_control 0;;
  f ← or_else (fails (send_cmd fuel CMD55 (rca .<< 16))) (fails (send_cmd fuel ACMD6 0));
  if f : bool then mret true else
  fails (send_cmd fuel CMD16 512).

(** From CMD0 on, after the controller reset: true when initialisation failed. *)
Definition card_init (fuel : nat) : drv bool :=
  _ ← send_cmd fuel CMD0 0;
  put (set_card_type CT_SD1);;
  r ← send_cmd fuel CMD8 0x1AA;
  x ← get;
  if (r =? 0) && negb (response0 x .& 0xfff =? 0x1AA) then put (set_errno ERR_CMD_CHECK);; mret true else
  (if r =? 0 then put (set_card_type CT_SD2) else mret tt);;
  f ← wait_ready fuel fuel;
  if f : bool then mret true else
  f ← identify fuel;
  if f : bool then mret true else
  put (fun x => set_drv_status (drv_status x .& cnot 8 STA_NOINIT) x);; mret false.

(** ** Transfers *)

(** One round of the transfer loops. *)
Definition chunk (fuel : nat) (single multi : Z) (buff sector count : Z) : drv bool :=
  let bcnt := if count >? MAX_BLOCK_CNT then MAX_BLOCK_CNT else count in
  f ← fails (send_data_cmd fuel (if bcnt =? 1 then single else multi) sector buff bcnt);
  if f : bool then mret true else
  if bcnt >? 1 then fails (send_cmd fuel CMD12 0) else mret false.

Fixpoint transfer (k fuel : nat) (single multi : Z) (buff sector count : Z) : drv Z :=
  if negb (count >? 0) then mret RES_OK else
  match k with
  | O => fuel_out
  | S k =>
      let bcnt := if count >? MAX_BLOCK_CNT then MAX_BLOCK_CNT else count in
      let bytes := u32 (bcnt * 512) in
      f ← chunk fuel single multi buff sector count;
      if f : bool then mret RES_ERROR else
      x ← get;
      transfer k fuel single multi (u64 (buff + bytes))
        (u64 (sector + (if tst (card_type x) CT_BLOCK then bcnt else bytes))) (count - bcnt)
  end.

Definition blocks_io (fuel : nat) (single multi : Z) (buff sector count : Z) : drv Z :=
  if count =? 0 then mret RES_PARERR else
  x ← get;
  if tst (drv_status x) STA_NOINIT then mret RES_NOTRDY else
  let sector := if negb (tst (card_type x) CT_BLOCK) then u64 (sector * 512) else sector in
  transfer (Z.to_nat count) fuel single multi buff sector count.
End core.

(** ** soct_ff/sdc.c *)
Module Ff.

Definition response_bits (cmd : Z) : Z :=
  if among cmd [0; 4; 15] then 0
  else if among cmd [11; 13; 16; 17; 18; 19; 23; 24; 25; 27; 30; 32; 33; 42; 55; 56; ACMD6]
       then 1 .| (1 .<< 3) .| (1 .<< 4)
  else if among cmd [7; 12; 20; 28; 29; 38] then 1 .| (1 .<< 2) .| (1 .<< 3) .| (1 .<< 4)
  else if among cmd [2; 9; 10] then 2 .| (1 .<< 3)
  else if cmd =? ACMD41 then 1
  else if cmd =? 3 then 1 .| (1 .<< 2) .| (1 .<< 3) .| (1 .<< 4)
  else if cmd =? 8 then 1 .| (1 .<< 3) .| (1 .<< 4)
  else 0.

Definition command_word (cmd : Z) (data : bool) : Z :=
  let command := ((cmd .& 0x3f) .<< 8) .| response_bits cmd in
  if data then
    let command := command .| (1 .<< 5) in
    if among cmd [24; 25; 27; 28; 29; 38] then command .| (1 .<< 6) else command
  else command.

Section ff.
Context {D : Type} {HD : Mmio D}.
Abbreviation drv := (prog (bus D * sd)).

Definition send_data_cmd (fuel : nat) : Z -> Z -> Z -> Z -> drv Z := send_data_cmd command_word fuel.

Definition sdc_initialize (fuel : nat) : drv Z :=
  put (set_card_type 0);;
  put (set_drv_status STA_NOINIT);;
  reset_controller fuel;;
  power_cycle;;
  _ ← card_init command_word fuel;
  x ← get; mret (drv_status x).

Definition sdc_status : drv Z := x ← get; mret (drv_status x).
Definition sdc_read (fuel : nat) (buff sector count : Z) : drv Z :=
  blocks_io command_word fuel CMD17 CMD18 buff sector count.
Definition sdc_write (fuel : nat) (buff sector count : Z) : drv Z :=
  blocks_io command_word fuel CMD24 CMD25 buff sector count.

(** The result, and what is stored through [buff]. *)
Definition CTRL_SYNC : Z := 0.
Definition GET_SECTOR_COUNT : Z := 1.
Definition GET_SECTOR_SIZE : Z := 2.
Definition GET_BLOCK_SIZE : Z := 3.
Definition sdc_ioctl (cmd : Z) : drv (Z * option Z) :=
  x ← get;
  if tst (drv_status x) STA_NOINIT then mret (RES_NOTRDY, None) else
  if cmd =? CTRL_SYNC then mret (RES_OK, None)
  else if cmd =? GET_SECTOR_COUNT then mret (RES_OK, Some 0x100000)
  else if cmd =? GET_SECTOR_SIZE then mret (RES_OK, Some 512)
  else if cmd =? GET_BLOCK_SIZE then mret (RES_OK, Some 1)
  else mret (RES_PARERR, None).
End ff.
End Ff.

(** ** sd-boot/bootrom.c *)
Module Rom.

Definition response_bits (cmd : Z) : Z :=
  if among cmd [0; 4; 15] then 0
  else if among cmd [7; 12; 20; 28; 29; 38] then 1 .| (1 .<< 2) .| (1 .<< 3) .| (1 .<< 4)
  else if among cmd [2; 9; 10] then 2 .| (1 .<< 3)
  else if cmd =? ACMD41 then 1
  else if cmd =? 3 then 1 .| (1 .<< 2) .| (1 .<< 3) .| (1 .<< 4)
  else if cmd =? 8 then 1 .| (1 .<< 3) .| (1 .<< 4)
  else 1 .| (1 .<< 3) .| (1 .<< 4).

Definition command_word (cmd : Z) (data : bool) : Z :=
  let command := ((cmd .& 0x3f) .<< 8) .| response_bits cmd in
  if data then command .| (1 .<< 5) else command.

Section rom.
Context {D : Type} {HD : Mmio D}.
Abbreviation drv := (prog (bus D * sd)).

Definition send_data_cmd (fuel : nat) : Z -> Z -> Z -> Z -> drv Z := send_data_cmd command_word fuel.

Definition ini_sd (fuel : nat) : drv Z :=
  reset_controller fuel;;
  put (set_card_type 0);;
  put (set_drv_status STA_NOINIT);;
  power_cycle;;
  f ← card_init command_word fuel;
  mret (if f : bool then -1 else 0).

Definition disk_status : drv Z := x ← get; mret (drv_status x).
Definition disk_read (fuel : nat) (buff sector count : Z) : drv Z :=
  blocks_io command_word fuel CMD17 CMD18 buff sector count.
Definition disk_initialize (fuel : nat) : drv Z := _ ← ini_sd fuel; x ← get; mret (drv_status x).
End rom.
End Rom.
