(* ===== verification/SdcProofs.v ===== *)
(** * What the SD host driver does to its controller

    Theorems over Sdc for any controller: the exact register writes of a successful
    transfer and of a successful initialisation, and the agreement of the two copies of the
    driver. *)
From S2P Require Import Prelude Mmio Sdc.

(** The writes of one command, with or without data. *)
Definition cmd_writes (encode : Z -> bool -> Z) (cmd arg buf blocks : Z) : list (Z * Z) :=
  (if blocks =? 0 then [] else
     [(r_dma_addres, buf); (r_block_size, 511); (r_block_count, blocks - 1); (r_data_timeout, 0xFFFFFF)])
  ++ [(r_command, encode cmd (negb (blocks =? 0))); (r_cmd_timeout, 0xFFFFF); (r_argument, arg); (r_cmd_int_status, 0)]
  ++ (if blocks =? 0 then [] else [(r_dat_int_status, 0)]).

Section engine.
Context {D : Type} {HD : Mmio D} (encode : Z -> bool -> Z).
Implicit Types s : bus D * sd.

(** The variables a command leaves alone. *)
Definition keeps (x x' : sd) : Prop := card_type x' = card_type x /\ drv_status x' = drv_status x.

Definition effect s s' (l : list (Z * Z)) : Prop := wlog s'.1 = wlog s.1 ++ l /\ keeps s.2 s'.2.

Lemma effect_trans s s1 s2 l1 l2 : effect s s1 l1 -> effect s1 s2 l2 -> effect s s2 (l1 ++ l2).
Proof. intros [H1 [K1 K2]] [G1 [L1 L2]]. split; [by rewrite G1, H1, app_assoc|]. split; congruence. Qed.

Lemma did_effect s s' l x : did s s' l x -> keeps s.2 x -> effect s s' l.
Proof. intros [H E] Hk. split; [done|by rewrite E]. Qed.

Lemma keeps_refl x : keeps x x.
Proof. by split. Qed.

Lemma effect_refl s : effect s s [].
Proof. split; [by rewrite app_nil_r|apply keeps_refl]. Qed.

Lemma rd_effect r s v s' : rd r s = Ret (v, s') -> effect s s' [].
Proof. intros H%rd_did. by apply (did_effect _ _ _ _ H). Qed.
Lemma wr_effect r v s u s' : wr r v s = Ret (u, s') -> effect s s' [(r, v)].
Proof. intros H%wr_did. by apply (did_effect _ _ _ _ H). Qed.
Lemma poll_effect n r p s v s' : poll n r p s = Ret (v, s') -> effect s s' [].
Proof. intros [H _]%poll_did. by apply (did_effect _ _ _ _ H). Qed.
Lemma put_effect f s u s' : (forall x, keeps x (f x)) -> put f s = Ret (u, s') -> effect s s' [].
Proof. intros Hf H%put_did. by apply (did_effect _ _ _ _ H). Qed.

(** Peel one register access off a run and remember its effect. *)
Ltac peel H := let x := fresh "x" in let s := fresh "s" in let E := fresh "E" in
  prog_step H x s E;
  first [apply rd_effect in E | apply wr_effect in E | apply poll_effect in E
        | apply put_effect in E; [|by intros; split]].
(** Combine the remembered effects. *)
Ltac effects :=
  repeat match goal with
  | H1 : effect ?a ?b _, H2 : effect ?b ?c _ |- _ => pose proof (effect_trans _ _ _ _ _ H1 H2); clear H1 H2
  end.

Lemma sdc_cmd_finish_effect fuel s r s' : sdc_cmd_finish fuel s = Ret (r, s') ->
  effect s s' [(r_cmd_int_status, 0)] /\ (r = 0 \/ r = -1).
Proof.
  unfold sdc_cmd_finish. intros H. do 3 peel H. destruct (_ =? _) in H.
  - do 5 peel H. apply ret_did in H as [-> ->]. effects. split; [done|by left].
  - peel H. apply ret_did in H as [-> ->]. effects. split; [done|by right].
Qed.

Lemma sdc_data_finish_effect fuel s r s' : sdc_data_finish fuel s = Ret (r, s') ->
  effect s s' [(r_dat_int_status, 0)] /\ (r = 0 \/ r = -1).
Proof.
  unfold sdc_data_finish. intros H. do 3 peel H. destruct (_ =? _) in H.
  - apply ret_did in H as [-> ->]. effects. split; [done|by left].
  - peel H. apply ret_did in H as [-> ->]. effects. split; [done|by right].
Qed.

Lemma issue_effect c a s u s' : issue c a s = Ret (u, s') ->
  effect s s' [(r_command, c); (r_cmd_timeout, 0xFFFFF); (r_argument, a)].
Proof. unfold issue. intros H. do 2 peel H. apply wr_effect in H. by effects. Qed.

Lemma dma_setup_effect b n s u s' : dma_setup b n s = Ret (u, s') ->
  effect s s' [(r_dma_addres, b); (r_block_size, 511); (r_block_count, u32 (n - 1)); (r_data_timeout, 0xFFFFFF)].
Proof. unfold dma_setup. intros H. do 3 peel H. apply wr_effect in H. by effects. Qed.

(** A command without data makes the same writes whatever becomes of it. *)
Lemma send_cmd_effect fuel cmd arg s r s' : fits 32 arg -> send_cmd encode fuel cmd arg s = Ret (r, s') ->
  effect s s' (cmd_writes encode cmd arg 0 0) /\ (r = 0 \/ r = -1).
Proof.
  intros Ha. unfold send_cmd, send_data_cmd. cbn [Z.eqb negb andb]. intros H.
  prog_step H u s1 E. apply ret_did in E as [-> ->].
  prog_step H v s2 E. apply issue_effect in E. rewrite wrap_small in E by done.
  prog_step H w s3 F. apply sdc_cmd_finish_effect in F as [F [-> | ->]]; apply ret_did in H as [-> ->]; effects;
    split; auto.
Qed.

(** One with data makes them all when it succeeds. *)
Lemma send_data_cmd_effect fuel cmd arg buf n s s' :
  fits 32 arg -> 0 < n < 2 ^ 32 -> send_data_cmd encode fuel cmd arg buf n s = Ret (0, s') ->
  effect s s' (cmd_writes encode cmd arg buf n).
Proof.
  intros Ha Hn. unfold send_data_cmd, cmd_writes. destruct (Z.eqb_spec n 0); [lia|]. cbn [negb andb].
  destruct (tst buf 3); intros H; [prog_step H u s1 E; by apply ret_did in H as [? _]|].
  prog_step H u s1 E. apply dma_setup_effect in E. rewrite wrap_small in E by (unfold fits; lia).
  prog_step H v s2 F. apply issue_effect in F. rewrite wrap_small in F by done.
  prog_step H w s3 G. apply sdc_cmd_finish_effect in G as [G [-> | ->]]; cbn [Z.ltb Z.compare] in H;
    [|by apply ret_did in H as [? _]].
  apply sdc_data_finish_effect in H as [H _]. by effects.
Qed.

Lemma fails_inv m s f s' : fails m s = Ret (f, s') -> exists r, m s = Ret (r, s') /\ f = (r <? 0).
Proof. unfold fails. intros H. prog_step H r s1 E. apply ret_did in H as [-> ->]. eauto. Qed.

(** ** Transfers *)

Context (single multi : Z).

(** The writes of one chunk: [n] blocks from card address [arg] to memory at [buf]. *)
Definition chunk_writes (scale : Z) (c : Z * Z * Z) : list (Z * Z) :=
  let '(buf, block, n) := c in
  cmd_writes encode (if n =? 1 then single else multi) (scale * block) buf n
  ++ (if n >? 1 then cmd_writes encode CMD12 0 0 0 else []).

(** The block-by-block content of a chunk: memory address and block number. *)
Definition chunk_blocks (c : Z * Z * Z) : list (Z * Z) :=
  let '(buf, block, n) := c in map (fun i => (buf + 512 * i, block + i)) (seqZ 0 n).
Definition chunk_size_ok (c : Z * Z * Z) : Prop := 1 <= c.2 <= MAX_BLOCK_CNT.

Lemma chunk_effect fuel scale buff block count s s' :
  0 < count < 2 ^ 32 -> fits 32 (scale * block) ->
  let n := if count >? MAX_BLOCK_CNT then MAX_BLOCK_CNT else count in
  chunk encode fuel single multi buff (scale * block) count s = Ret (false, s') ->
  effect s s' (chunk_writes scale (buff, block, n)).
Proof.
  intros Hc Hf n. unfold chunk. fold n.
  assert (0 < n < 2 ^ 32) as Hn by (unfold n, MAX_BLOCK_CNT; rewrite Z.gtb_ltb; zcase; lia). intros H.
  prog_step H f s1 E. apply fails_inv in E as (r & E & ->).
  destruct (Z.ltb_spec r 0); [by apply ret_did in H as [? _]|].
  assert (r = 0) as ->.
  { clear H. revert E. unfold send_data_cmd. destruct (_ && _); intros E.
    - prog_step E u s2 F. apply ret_did in E as [-> _]. lia.
    - prog_step E u s2 F. prog_step E v s3 G. prog_step E w s4 K.
      destruct (w <? 0); [apply ret_did in E as [-> _]; lia|].
      destruct (negb _); [by apply sdc_data_finish_effect in E as [_ [-> | ->]]; lia|by apply ret_did in E as [-> _]]. }
  apply send_data_cmd_effect in E; [|done|done]. unfold chunk_writes.
  destruct (n >? 1).
  - apply fails_inv in H as (r & H & Hr). apply send_cmd_effect in H as [H _]; [|unfold fits; lia]. by effects.
  - apply ret_did in H as [_ ->]. by rewrite app_nil_r.
Qed.

Lemma seqZ_split n m : 0 <= n -> 0 <= m -> seqZ 0 (n + m) = seqZ 0 n ++ map (fun i => n + i) (seqZ 0 m).
Proof.
  intros. rewrite seqZ_app by lia. f_equal. rewrite Z.add_0_l. change (map (fun i => n + i) (seqZ 0 m)) with (Z.add n <$> seqZ 0 m).
  rewrite fmap_add_seqZ. f_equal. lia.
Qed.

Lemma chunk_blocks_app buf block n m : 0 <= n -> 0 <= m ->
  chunk_blocks (buf, block, n + m) = chunk_blocks (buf, block, n) ++ chunk_blocks (buf + 512 * n, block + n, m).
Proof.
  intros. unfold chunk_blocks. rewrite seqZ_split, map_app, map_map by done. f_equal.
  apply map_ext. intros i. f_equal; lia.
Qed.

Lemma transfer_effect fuel scale k : forall buff block count s s',
  (scale = 1 /\ tst (card_type s.2) CT_BLOCK = true \/ scale = 512 /\ tst (card_type s.2) CT_BLOCK = false) ->
  0 <= buff -> 0 <= block -> 0 <= count < 2 ^ 32 -> buff + 512 * count < 2 ^ 64 -> scale * (block + count) <= 2 ^ 32 ->
  transfer encode k fuel single multi buff (scale * block) count s = Ret (RES_OK, s') ->
  exists cs, effect s s' (flat_map (chunk_writes scale) cs) /\ Forall chunk_size_ok cs /\
    flat_map chunk_blocks cs = chunk_blocks (buff, block, count).
Proof.
  induction k as [|k IH]; intros buff block count s s' Hsc Hb Hbl Hc Hbb Hcb; cbn [transfer]; rewrite Z.gtb_ltb;
    destruct (Z.ltb_spec 0 count) as [Hpos|]; cbn [negb]; try done.
  1,3: intros [_ ->]%ret_did; exists []; split; [apply effect_refl|split; [constructor|]];
    assert (count = 0) as -> by lia; done.
  set (n := if count >? MAX_BLOCK_CNT then MAX_BLOCK_CNT else count).
  assert (1 <= n <= MAX_BLOCK_CNT /\ n <= count) as [Hn Hnc] by (unfold n, MAX_BLOCK_CNT in *; rewrite Z.gtb_ltb; zcase; lia).
  intros H. prog_step H f s1 E. destruct f; [by apply ret_did in H as [? _]|].
  apply chunk_effect in E; [|lia|unfold fits; nia]. fold n in E.
  prog_step H x s2 F. apply get_did in F as [-> ->]. pose proof E as [_ [K1 K2]].
  unfold MAX_BLOCK_CNT in Hn. rewrite K1 in H.
  rewrite (wrap_small 32 (n * 512)) in H by (unfold fits; lia).
  replace (scale * block + (if tst (card_type s.2) CT_BLOCK then n else n * 512)) with (scale * (block + n)) in H
    by (destruct Hsc as [[-> ->] | [-> ->]]; lia).
  rewrite !wrap_small in H by (unfold fits; nia).
  apply IH in H as (cs & He & Hf & Hcs); [|rewrite K1; done|lia|lia|lia|lia|nia].
  exists ((buff, block, n) :: cs). split; [by apply (effect_trans _ s1)|]. split; [constructor; [done|done]|].
  cbn [flat_map]. rewrite Hcs. replace count with (n + (count - n)) at 2 by lia.
  rewrite (chunk_blocks_app buff block n) by lia. by replace (n * 512) with (512 * n) by lia.
Qed.

Definition scale_of (x : sd) : Z := if tst (card_type x) CT_BLOCK then 1 else 512.

Lemma blocks_io_effect fuel buff sector count s s' :
  0 <= buff -> 0 <= sector -> 0 <= count < 2 ^ 32 -> buff + 512 * count < 2 ^ 64 ->
  scale_of s.2 * (sector + count) <= 2 ^ 32 ->
  blocks_io encode fuel single multi buff sector count s = Ret (RES_OK, s') ->
  exists cs, effect s s' (flat_map (chunk_writes (scale_of s.2)) cs) /\ Forall chunk_size_ok cs /\
    flat_map chunk_blocks cs = chunk_blocks (buff, sector, count).
Proof.
  intros Hb Hs Hc Hbb Hcb H. unfold blocks_io in H. destruct (count =? 0); [by apply ret_did in H as [? _]|].
  prog_step H x s1 E. apply get_did in E as [-> ->].
  destruct (tst (drv_status s.2) STA_NOINIT); [by apply ret_did in H as [? _]|].
  apply (transfer_effect fuel (scale_of s.2) (Z.to_nat count) buff sector count); try done.
  - unfold scale_of. destruct (tst (card_type s.2) CT_BLOCK); [by left|by right].
  - unfold scale_of in *. destruct (tst (card_type s.2) CT_BLOCK); cbn [negb] in H.
    + by rewrite Z.mul_1_l.
    + rewrite wrap_small in H by (unfold fits; lia). by rewrite Z.mul_comm.
Qed.
End engine.

(** ** Initialisation *)

Section init.
Context {D : Type} {HD : Mmio D} (encode : Z -> bool -> Z).
Implicit Types s : bus D * sd.

Definition C (cmd arg : Z) : list (Z * Z) := cmd_writes encode cmd arg 0 0.

(** The writes of a complete identification of the card whose relative address is [rca],
    after [n] rounds of the operating-condition loop. *)
Definition identify_writes (rca : Z) : list (Z * Z) :=
  C CMD2 0 ++ C CMD3 0x12340000 ++ C CMD7 (rca * 2 ^ 16) ++ [(r_clock_divider, 3); (r_control, 0)]
  ++ C CMD55 (rca * 2 ^ 16) ++ C ACMD6 0 ++ C CMD16 512.
Definition ready_writes (n : nat) : list (Z * Z) := concat (replicate n (C CMD55 0 ++ C ACMD41 0x40300000)).
Definition init_writes (n : nat) (rca : Z) : list (Z * Z) :=
  C CMD0 0 ++ C CMD8 0x1AA ++ ready_writes n ++ identify_writes rca.

(** Only the log. *)
Definition logs s s' (l : list (Z * Z)) : Prop := wlog s'.1 = wlog s.1 ++ l.
Lemma logs_trans s s1 s2 l1 l2 : logs s s1 l1 -> logs s1 s2 l2 -> logs s s2 (l1 ++ l2).
Proof. unfold logs. intros H G. by rewrite G, H, app_assoc. Qed.
Lemma effect_logs s s' l : effect s s' l -> logs s s' l.
Proof. by intros [? _]. Qed.
Lemma logs_refl s : logs s s [].
Proof. unfold logs. by rewrite app_nil_r. Qed.

Lemma fails_send fuel cmd arg s f s' : fits 32 arg -> fails (send_cmd encode fuel cmd arg) s = Ret (f, s') ->
  effect s s' (C cmd arg).
Proof. intros Ha H. apply fails_inv in H as (r & H & _). by apply send_cmd_effect in H as [H _]. Qed.

Lemma or_else_false a b s s' : or_else (D:=D) a b s = Ret (false, s') ->
  exists s1, a s = Ret (false, s1) /\ b s1 = Ret (false, s').
Proof.
  unfold or_else. intros H. prog_step H x s1 E. destruct x; [by apply ret_did in H as [? _]|]. eauto.
Qed.
Lemma or_else_true a b s s' : or_else (D:=D) a b s = Ret (true, s') ->
  a s = Ret (true, s') \/ exists s1, a s = Ret (false, s1) /\ b s1 = Ret (true, s').
Proof.
  unfold or_else. intros H. prog_step H x s1 E. destruct x; [apply ret_did in H as [_ ->]; auto|eauto].
Qed.

Lemma wait_ready_ok k fuel : forall s s', wait_ready encode k fuel s = Ret (false, s') ->
  exists n, (0 < n)%nat /\ logs s s' (ready_writes n) /\ drv_status s'.2 = drv_status s.2.
Proof.
  induction k as [|k IH]; intros s s' H; [done|]. cbn [wait_ready] in H.
  prog_step H f s1 E. destruct f; [by apply ret_did in H as [? _]|].
  apply or_else_false in E as (s2 & E1 & E2).
  apply fails_send in E1; [|unfold fits; lia]. apply fails_send in E2; [|unfold fits; lia].
  pose proof (effect_trans _ _ _ _ _ E1 E2) as [Hl [_ Hd]].
  prog_step H x s3 F. apply get_did in F as [-> ->].
  destruct (tst (response0 s1.2) (1 .<< 31)).
  - exists 1%nat. split; [lia|]. unfold ready_writes. cbn [replicate concat]. rewrite app_nil_r.
    prog_step H u s4 G. apply ret_did in H as [_ ->].
    destruct (tst _ (1 .<< 30)); [apply put_did in G as [G1 G2]|apply ret_did in G as [_ ->]; by split].
    split; [unfold logs; by rewrite G1, Hl, app_nil_r|by rewrite G2].
  - apply IH in H as (n & Hn & Hl' & Hd'). exists (S n). split; [lia|]. split; [|congruence].
    unfold ready_writes. cbn [replicate concat]. by apply (logs_trans _ s1).
Qed.

Lemma cmd_finish_response fuel s s' : sdc_cmd_finish fuel s = Ret (0, s') -> fits 32 (response0 s'.2).
Proof.
  unfold sdc_cmd_finish. intros H. prog_step H a s1 E1. prog_step H u s2 E2. prog_step H b s3 E3.
  destruct (_ =? _) in H.
  - prog_step H c s4 E4. apply rd_range in E4. prog_step H d s5 E5. prog_step H e s6 E6. prog_step H g s7 E7.
    prog_step H v s8 E8. apply put_did in E8 as [_ E8]. apply ret_did in H as [_ ->]. by rewrite E8.
  - prog_step H v s4 E4. by apply ret_did in H as [? _].
Qed.

Lemma send_cmd_response fuel cmd arg s s' :
  fails (send_cmd encode fuel cmd arg) s = Ret (false, s') -> fits 32 (response0 s'.2).
Proof.
  intros H. apply fails_inv in H as (r & H & Hr). destruct (Z.ltb_spec r 0); [done|].
  revert H. unfold send_cmd, send_data_cmd. cbn [Z.eqb negb andb]. intros H.
  prog_step H u s1 E. prog_step H v s2 F. prog_step H w s3 G.
  pose proof G as G'. apply sdc_cmd_finish_effect in G as [_ [-> | ->]]; cbn [Z.ltb Z.compare] in H;
    apply ret_did in H as [-> ->]; [|lia]. by apply cmd_finish_response in G'.
Qed.

Lemma rca_shift x : fits 32 x -> fits 16 (x .>> 16) /\ (x .>> 16) .<< 16 = (x .>> 16) * 2 ^ 16 /\ fits 32 ((x .>> 16) * 2 ^ 16).
Proof.
  unfold fits. intros Hx. rewrite Z.shiftr_div_pow2, Z.shiftl_mul_pow2 by lia.
  assert (0 <= x / 2 ^ 16 < 2 ^ 16) by (split; [apply Z.div_pos; lia|apply Z.div_lt_upper_bound; lia]). lia.
Qed.

Lemma identify_ok fuel s s' : identify encode fuel s = Ret (false, s') ->
  exists rca, fits 16 rca /\ effect s s' (identify_writes rca).
Proof.
  unfold identify. intros H.
  prog_step H f s1 E1. apply fails_send in E1; [|unfold fits; lia]. destruct f; [by apply ret_did in H as [? _]|].
  prog_step H f s2 E2. destruct f; [by apply ret_did in H as [? _]|].
  pose proof (send_cmd_response _ _ _ _ _ E2) as Hr. apply fails_send in E2; [|vm_compute; split; [discriminate|reflexivity]].
  prog_step H x s3 F. apply get_did in F as [-> ->].
  destruct (rca_shift _ Hr) as (Hrca & Hsh & Hfit). set (rca := response0 s2.2 .>> 16) in *. rewrite Hsh in H.
  exists rca. split; [done|].
  prog_step H f s3 E3. apply fails_send in E3; [|done]. destruct f; [by apply ret_did in H as [? _]|].
  prog_step H u s4 E4. apply wr_effect in E4. prog_step H v s5 E5. apply wr_effect in E5.
  prog_step H f s6 E6. destruct f; [by apply ret_did in H as [? _]|].
  apply or_else_false in E6 as (s7 & E6 & E7). apply fails_send in E6; [|done]. apply fails_send in E7; [|unfold fits; lia].
  apply fails_send in H; [|unfold fits; lia].
  unfold identify_writes. change 0x12340000 with (0x1234 .<< 16).
  do 2 (eapply effect_trans; [eassumption|]). eapply effect_trans; [exact E3|].
  eapply effect_trans; [exact (effect_trans _ _ _ _ _ E4 E5)|].
  eapply effect_trans; [exact E6|]. by eapply effect_trans.
Qed.

Lemma card_init_ok fuel s s' : card_init encode fuel s = Ret (false, s') ->
  exists n rca, (0 < n)%nat /\ fits 16 rca /\ logs s s' (init_writes n rca) /\
    drv_status s'.2 = drv_status s.2 .& cnot 8 STA_NOINIT.
Proof.
  unfold card_init. intros H.
  prog_step H r0 s1 E1. apply send_cmd_effect in E1 as [[E1 [_ D1]] _]; [|unfold fits; lia].
  prog_step H u s2 E2. apply put_did in E2 as [E2 P2].
  prog_step H r s3 E3. apply send_cmd_effect in E3 as [[E3 [_ D3]] _]; [|unfold fits; lia].
  prog_step H x s4 F. apply get_did in F as [-> ->].
  destruct (_ && _); [prog_step H v s5 E5; by apply ret_did in H as [? _]|].
  prog_step H w s5 E5.
  assert (wlog s5.1 = wlog s3.1 /\ drv_status s5.2 = drv_status s3.2) as [L5 D5].
  { destruct (r =? 0); [apply put_did in E5 as [-> ->]; by rewrite app_nil_r|by apply ret_did in E5 as [_ ->]]. }
  prog_step H f s6 E6. destruct f; [by apply ret_did in H as [? _]|].
  apply wait_ready_ok in E6 as (n & Hn & L6 & D6).
  prog_step H f s7 E7. destruct f; [by apply ret_did in H as [? _]|].
  apply identify_ok in E7 as (rca & Hrca & [L7 [_ D7]]).
  prog_step H v s8 E8. apply put_did in E8 as [L8 P8]. apply ret_did in H as [_ ->].
  exists n, rca. split_and!; [done|done| |].
  - unfold logs, init_writes in *. rewrite L8, L7, L6, L5, E3, E2, E1, !app_nil_r, <-!app_assoc. done.
  - rewrite P8. cbn. rewrite D7, D6, D5, D3, P2. cbn. by rewrite D1.
Qed.

(** ... and what fails leaves the drive's status alone. *)
Definition still s s' : Prop := drv_status s'.2 = drv_status s.2.

Lemma send_still fuel cmd arg s f s' : fits 32 arg -> fails (send_cmd encode fuel cmd arg) s = Ret (f, s') -> still s s'.
Proof. intros Ha H. by apply fails_send in H as [_ [_ H]]. Qed.

Lemma or_else_still (a b : prog (bus D * sd) bool) s f s' :
  (forall s f s', a s = Ret (f, s') -> still s s') -> (forall s f s', b s = Ret (f, s') -> still s s') ->
  or_else a b s = Ret (f, s') -> still s s'.
Proof.
  unfold or_else, still. intros Ha Hb H. prog_step H x s1 E. apply Ha in E. destruct x.
  - by apply ret_did in H as [_ ->].
  - apply Hb in H. congruence.
Qed.

Lemma wait_ready_still k fuel : forall s f s', wait_ready encode k fuel s = Ret (f, s') -> still s s'.
Proof.
  induction k as [|k IH]; intros s f s' H; [done|]. cbn [wait_ready] in H. prog_step H g s1 E.
  apply or_else_still in E; [|intros ? ? ?; apply send_still; unfold fits; lia..].
  destruct g; [by apply ret_did in H as [_ ->]|].
  prog_step H x s2 F. apply get_did in F as [-> ->]. unfold still in *. destruct (tst _ _) in H.
  - prog_step H u s3 G. apply ret_did in H as [_ ->].
    destruct (tst _ _) in G; [apply put_did in G as [_ ->]|apply ret_did in G as [_ ->]]; done.
  - apply IH in H. congruence.
Qed.

Lemma identify_still fuel s f s' : identify encode fuel s = Ret (f, s') -> still s s'.
Proof.
  unfold identify, still. intros H.
  prog_step H g1 s1 E1. apply send_still in E1; [|unfold fits; lia]. unfold still in E1.
  destruct g1; [by apply ret_did in H as [_ ->]|].
  prog_step H g2 s2 E2. pose proof E2 as E2'. apply send_still in E2; [|vm_compute; split; [discriminate|reflexivity]].
  unfold still in E2. destruct g2; [apply ret_did in H as [_ ->]; congruence|].
  pose proof (rca_shift _ (send_cmd_response _ _ _ _ _ E2')) as (_ & Hsh & Hfit).
  prog_step H x s3 F. apply get_did in F as [-> ->]. rewrite Hsh in H.
  prog_step H g3 s3 E3. apply send_still in E3; [|done]. unfold still in E3.
  destruct g3; [apply ret_did in H as [_ ->]; congruence|].
  prog_step H u s4 E4. apply wr_did in E4 as [_ E4]. prog_step H v s5 E5. apply wr_did in E5 as [_ E5].
  prog_step H g6 s6 E6.
  apply or_else_still in E6; [|intros ? ? ?; apply send_still; done || (unfold fits; lia)..]. unfold still in E6.
  destruct g6; [apply ret_did in H as [_ ->]; congruence|].
  apply send_still in H; [|unfold fits; lia]. unfold still in H. congruence.
Qed.

Lemma card_init_fail fuel s s' : card_init encode fuel s = Ret (true, s') -> still s s'.
Proof.
  unfold card_init, still. intros H.
  prog_step H r0 s1 E1. apply send_cmd_effect in E1 as [[_ [_ D1]] _]; [|unfold fits; lia].
  prog_step H u s2 E2. apply put_did in E2 as [_ P2].
  prog_step H r s3 E3. apply send_cmd_effect in E3 as [[_ [_ D3]] _]; [|unfold fits; lia].
  assert (drv_status s3.2 = drv_status s.2) as D03 by (rewrite D3, P2; done).
  prog_step H x s4 F. apply get_did in F as [-> ->].
  destruct (_ && _); [prog_step H v s5 E5; apply put_did in E5 as [_ P5]; apply ret_did in H as [_ ->]; by rewrite P5|].
  prog_step H w s5 E5.
  assert (drv_status s5.2 = drv_status s3.2) as D5.
  { destruct (r =? 0); [by apply put_did in E5 as [_ ->]|by apply ret_did in E5 as [_ ->]]. }
  prog_step H f s6 E6. apply wait_ready_still in E6. unfold still in E6.
  destruct f; [apply ret_did in H as [_ ->]; congruence|].
  prog_step H f s7 E7. apply identify_still in E7. unfold still in E7.
  destruct f; [apply ret_did in H as [_ ->]; congruence|].
  prog_step H v s8 E8. by apply ret_did in H as [? _].
Qed.

(** The controller reset, and the optional power cycle. *)
Lemma reset_logs fuel s u s' : reset_controller fuel s = Ret (u, s') ->
  effect s s' [(r_software_reset, 1); (r_clock_divider, 0x7c); (r_software_reset, 0)].
Proof.
  unfold reset_controller. intros H.
  prog_step H a s1 E1. apply wr_effect in E1. prog_step H b s2 E2. apply poll_effect in E2.
  prog_step H c s3 E3. apply wr_effect in E3. prog_step H d s4 E4. apply wr_effect in E4.
  prog_step H e s5 E5. apply poll_effect in E5. apply ret_did in H as [_ ->].
  exact (effect_trans _ _ _ _ _ E1 (effect_trans _ _ _ _ _ E2 (effect_trans _ _ _ _ _ E3 (effect_trans _ _ _ _ _ E4 E5)))).
Qed.

Lemma power_cycle_logs s u s' : power_cycle s = Ret (u, s') ->
  exists l, effect s s' l /\ Forall (fun w => w.1 = r_control) l.
Proof.
  unfold power_cycle. intros H. prog_step H c s1 E1. apply rd_effect in E1. destruct (tst _ _).
  - prog_step H a s2 E2. apply rd_effect in E2. prog_step H b s3 E3. apply wr_effect in E3.
    prog_step H d s4 E4. apply rd_effect in E4. apply wr_effect in H. eexists. split.
    + exact (effect_trans _ _ _ _ _ E1 (effect_trans _ _ _ _ _ E2 (effect_trans _ _ _ _ _ E3 (effect_trans _ _ _ _ _ E4 H)))).
    + by repeat constructor.
  - apply ret_did in H as [_ ->]. exists []. by split.
Qed.
End init.

(** ** The properties *)

(** C21. A successful [sdc_read] moves exactly the requested blocks.  When it returns RES_OK, for
    any controller, its register writes are those of a list of read commands, each for 1 to
    4096 blocks and followed by CMD12 when for more than one, and block by block, in order
    and once each, block [sector + i] is sent to memory at [buff + 512 * i], for both block-
    and byte-addressed cards. *)
Theorem sdc_read_covers {D} {HD : Mmio D} fuel buff sector count (s s' : bus D * sd) :
  0 <= buff -> 0 <= sector -> 0 <= count < 2 ^ 32 -> buff + 512 * count < 2 ^ 64 ->
  scale_of s.2 * (sector + count) <= 2 ^ 32 ->
  Ff.sdc_read fuel buff sector count s = Ret (RES_OK, s') ->
  exists cs, wlog s'.1 = wlog s.1 ++ flat_map (chunk_writes Ff.command_word CMD17 CMD18 (scale_of s.2)) cs /\
    Forall chunk_size_ok cs /\
    flat_map chunk_blocks cs = map (fun i => (buff + 512 * i, sector + i)) (seqZ 0 count).
Proof.
  intros Hb Hs Hc Hbb Hcb H. apply blocks_io_effect in H as (cs & [Hl _] & Hf & Hcs); [|done..].
  by exists cs.
Qed.

(** The same for [sdc_write]: block [buff + 512 * i] of memory goes to block [sector + i], by
    commands whose word has the data and the write-direction bits set. *)
Theorem sdc_write_covers {D} {HD : Mmio D} fuel buff sector count (s s' : bus D * sd) :
  0 <= buff -> 0 <= sector -> 0 <= count < 2 ^ 32 -> buff + 512 * count < 2 ^ 64 ->
  scale_of s.2 * (sector + count) <= 2 ^ 32 ->
  Ff.sdc_write fuel buff sector count s = Ret (RES_OK, s') ->
  (exists cs, wlog s'.1 = wlog s.1 ++ flat_map (chunk_writes Ff.command_word CMD24 CMD25 (scale_of s.2)) cs /\
    Forall chunk_size_ok cs /\
    flat_map chunk_blocks cs = map (fun i => (buff + 512 * i, sector + i)) (seqZ 0 count)) /\
  (forall cmd, cmd = CMD24 \/ cmd = CMD25 ->
     Z.testbit (Ff.command_word cmd true) 5 = true /\ Z.testbit (Ff.command_word cmd true) 6 = true).
Proof.
  intros Hb Hs Hc Hbb Hcb H. apply blocks_io_effect in H as (cs & [Hl _] & Hf & Hcs); [|done..].
  split; [by exists cs|]. by intros cmd [-> | ->].
Qed.

(** [sdc_initialize] tells the truth.  It returns either 0 or STA_NOINIT; and when it returns
    0 the controller has been reset and has seen the complete identification sequence in
    order: CMD0, CMD8, at least one CMD55/ACMD41 round, CMD2, CMD3, CMD7 and the bus width
    with one 16-bit relative address, and the 512-byte block length. *)
Theorem sdc_initialize_sequence {D} {HD : Mmio D} fuel (s s' : bus D * sd) r :
  Ff.sdc_initialize fuel s = Ret (r, s') ->
  r = drv_status s'.2 /\ (r = 0 \/ r = STA_NOINIT) /\
  (r = 0 -> exists pc n rca, Forall (fun w => w.1 = r_control) pc /\ (0 < n)%nat /\ fits 16 rca /\
     wlog s'.1 = wlog s.1 ++ [(r_software_reset, 1); (r_clock_divider, 0x7c); (r_software_reset, 0)]
                 ++ pc ++ init_writes Ff.command_word n rca).
Proof.
  unfold Ff.sdc_initialize. intros H.
  prog_step H u1 s1 E1. apply put_did in E1 as [L1 _]. prog_step H u2 s2 E2. apply put_did in E2 as [L2 P2].
  prog_step H u3 s3 E3. apply reset_logs in E3 as [L3 [_ D3]].
  prog_step H u4 s4 E4. apply power_cycle_logs in E4 as (pc & [L4 [_ D4]] & Hpc).
  prog_step H f s5 E5. prog_step H x s6 E6. apply get_did in E6 as [-> ->]. apply ret_did in H as [-> ->].
  rewrite P2 in D3. cbn in D3. rewrite D3 in D4. split; [done|].
  destruct f.
  - apply card_init_fail in E5. unfold still in E5. rewrite E5, D4. split; [by right|done].
  - apply card_init_ok in E5 as (n & rca & Hn & Hrca & L5 & D5). rewrite D4 in D5. rewrite D5. split; [by left|].
    intros _. exists pc, n, rca. split_and!; [done|done|done|]. unfold logs in L5.
    by rewrite L5, L4, L3, L2, L1, !app_nil_r, <-!app_assoc.
Qed.

Lemma send_cmd_agree {D} {HD : Mmio D} fuel cmd arg : Rom.command_word cmd false = Ff.command_word cmd false ->
  send_cmd (D:=D) Rom.command_word fuel cmd arg = send_cmd Ff.command_word fuel cmd arg.
Proof. intros E. unfold send_cmd, send_data_cmd. cbn [Z.eqb negb]. by rewrite E. Qed.

Lemma chunk_agree {D} {HD : Mmio D} fuel b sec n (s : bus D * sd) : 0 <= n ->
  chunk Rom.command_word fuel CMD17 CMD18 b sec n s = chunk Ff.command_word fuel CMD17 CMD18 b sec n s.
Proof.
  intros Hn. unfold chunk. rewrite (send_cmd_agree fuel CMD12) by done.
  assert (forall m, 0 < m -> forall c, c = CMD17 \/ c = CMD18 ->
    Sdc.send_data_cmd (D:=D) Rom.command_word fuel c sec b m = Sdc.send_data_cmd Ff.command_word fuel c sec b m) as Hs.
  { intros m Hm c Hc. unfold Sdc.send_data_cmd. destruct (Z.eqb_spec m 0); [lia|]. by destruct Hc as [-> | ->]. }
  destruct (Z.eqb_spec n 0) as [->|].
  - done.
  - rewrite (Hs (if n >? MAX_BLOCK_CNT then MAX_BLOCK_CNT else n)); [done| |].
    + unfold MAX_BLOCK_CNT. rewrite Z.gtb_ltb. zcase; lia.
    + case_match; auto.
Qed.

Lemma transfer_agree {D} {HD : Mmio D} fuel k : forall b sec n (s : bus D * sd), 0 <= n ->
  transfer Rom.command_word k fuel CMD17 CMD18 b sec n s = transfer Ff.command_word k fuel CMD17 CMD18 b sec n s.
Proof.
  induction k as [|k IH]; intros b sec n s Hn; cbn [transfer]; [done|].
  destruct (negb (n >? 0)); [done|]. unfold mbind, prog_bind. rewrite chunk_agree by done.
  destruct (chunk _ _ _ _ _ _ _ s) as [[[|] s1]| |]; try done. cbn. apply IH.
  unfold MAX_BLOCK_CNT. rewrite Z.gtb_ltb. zcase; lia.
Qed.

(** The two copies of the driver are one: on every controller and in every state the boot
    ROM's block read is the runtime's [sdc_read], and the identification it runs after the
    controller reset is the runtime's, although their command tables differ (the ROM treats
    unlisted commands as R1 and never sets the write direction). *)
Theorem drivers_agree {D} {HD : Mmio D} fuel buff sector count (s : bus D * sd) :
  0 <= count ->
  Rom.disk_read fuel buff sector count s = Ff.sdc_read fuel buff sector count s /\
  card_init Rom.command_word fuel s = card_init Ff.command_word fuel s.
Proof.
  intros Hc. split.
  - unfold Rom.disk_read, Ff.sdc_read, blocks_io. destruct (count =? 0); [done|].
    unfold mbind, prog_bind, get, gets. destruct (tst _ _); [done|]. by apply transfer_agree.
  - reflexivity.
Qed.

(** ** A controller that does what it is asked *)

(** Registers as a function; issuing a command completes it at once. *)
Definition upd (m : Z -> Z) (r v : Z) : Z -> Z := fun r' => if r' =? r then v else m r'.
Definition answer (word : Z) : Z :=
  let c := (word .>> 8) .& 0x3f in
  if c =? 41 then 0xC0000000 else if c =? 8 then 0x1AA else if c =? 3 then 0x56780000 else 0.
#[export] Instance prompt : Mmio (Z -> Z) := {
  mmio_read m r := (m r, m);
  mmio_write m r v :=
    let m := upd m r v in
    if r =? r_argument then
      upd (upd (upd m r_cmd_int_status 1) r_dat_int_status (if Z.testbit (m r_command) 5 then 1 else 0))
        r_response1 (answer (m r_command))
    else m }.
Definition at_reset : bus (Z -> Z) * sd := (Bus (fun _ => 0) [], Sd 0 0 STA_NOINIT [0; 0; 0; 0]).
Definition ready : bus (Z -> Z) * sd := (Bus (fun _ => 0) [], Sd 0 (CT_SD2 .| CT_BLOCK) 0 [0; 0; 0; 0]).

(** The state a run ends in. *)
Definition after {S A} (m : prog S A) (s : S) : S := match m s with Ret (_, s') => s' | _ => s end.

Lemma sdc_read_covers_witness : exists cs : list (Z * Z * Z),
  flat_map chunk_blocks cs = map (fun i => (0x80000000 + 512 * i, 100 + i)) (seqZ 0 5000).
Proof.
  destruct (sdc_read_covers 3 0x80000000 100 5000 ready (after (Ff.sdc_read 3 0x80000000 100 5000) ready))
    as (cs & _ & _ & H); [lia|lia|lia|lia|vm_compute; discriminate|vm_compute; reflexivity|]. by exists cs.
Defined.

Lemma sdc_write_covers_witness : exists cs : list (Z * Z * Z),
  flat_map chunk_blocks cs = map (fun i => (0x80000000 + 512 * i, 100 + i)) (seqZ 0 1).
Proof.
  destruct (sdc_write_covers 3 0x80000000 100 1 ready (after (Ff.sdc_write 3 0x80000000 100 1) ready))
    as [(cs & _ & _ & H) _]; [lia|lia|lia|lia|vm_compute; discriminate|vm_compute; reflexivity|]. by exists cs.
Defined.

Lemma sdc_initialize_sequence_witness :
  drv_status (after (Ff.sdc_initialize 3) at_reset).2 = 0 /\ (0 = 0 \/ 0 = STA_NOINIT).
Proof.
  assert (Ff.sdc_initialize 3 at_reset = Ret (0, after (Ff.sdc_initialize 3) at_reset)) as E by (vm_compute; reflexivity).
  destruct (sdc_initialize_sequence _ _ _ _ E) as (H1 & H2 & _). split; [by symmetry|exact H2].
Defined.

Lemma drivers_agree_witness :
  Rom.disk_read 3 0x80000000 7 2 ready = Ff.sdc_read 3 0x80000000 7 2 ready.
Proof. apply (drivers_agree 3 0x80000000 7 2 ready). lia. Defined.
