(* ===== verification/BootRom.v ===== *)
(** * The SD boot loader (binaries/bootroms/sd-boot/bootrom.c)

    [download]: the ELF loader, the relocation of what falls on the ROM's own scratch, the
    device-tree copy and the final move of the scratch.  Memory is a function of the
    address, bytes as Z; the file is reached through FatFs, which is the interface [Fs]. *)
From S2P Require Import Prelude Memory.

(** ** FatFs, as the loader uses it *)

(** Each call answers an FRESULT, 0 for success; [f_read] also the bytes it delivered. *)
Class Fs (F : Type) := {
  f_open : F -> Z * F;
  f_read : F -> Z -> Z * list Z * F;
  f_lseek : F -> Z -> Z * F;
  f_tell : F -> Z;
  f_close : F -> Z * F }.

Definition ERR_EOF : Z := 30.
Definition ERR_NOT_ELF : Z := 31.
Definition ERR_ELF_BITS : Z := 32.
Definition ERR_ELF_ENDIANNESS : Z := 33.
Definition ERR_SEGMENT_ADDR : Z := 39.
Definition PT_LOAD : Z := 1.

(** ** Numbers in memory *)

(** Little-endian value of a byte list. *)
Fixpoint le (l : list Z) : Z := match l with [] => 0 | b :: l => b + 2 ^ 8 * le l end.

Section rom.
(** The RAM the bitstream has, and the device tree in the ROM. *)
Context (SOCT_MEM_BASE_ADDR SOCT_EXT_MEM_SIZE : Z) (dtb : list Z).

(** From the build file: the ROM's scratch at the bottom of RAM, and where its future content
    is kept meanwhile, below a guard at the top. *)
Definition BOOTROM_SCRATCH_SIZE : Z := 0x8000.
Definition BOOTROM_MEM_END : Z := SOCT_MEM_BASE_ADDR + BOOTROM_SCRATCH_SIZE.
Definition BOOTROM_MEM_ALT : Z := SOCT_MEM_BASE_ADDR + SOCT_EXT_MEM_SIZE - 0x2000 - BOOTROM_SCRATCH_SIZE.

Context {F : Type} {HF : Fs F}.

Record rom := Rom { fd : F; errno : Z; mem : memory; alt_mem : bool }.
Abbreviation prg := (prog rom).

Definition set_errno e : prg unit := modify (fun s => Rom (fd s) e (mem s) (alt_mem s)).
Definition get_errno : prg Z := gets errno.
Definition set_alt : prg unit := modify (fun s => Rom (fd s) (errno s) (mem s) true).
Definition store_m (a : Z) (l : list Z) : prg unit :=
  modify (fun s => Rom (fd s) (errno s) (store a l (mem s)) (alt_mem s)).

(** [errno = f_lseek(...)] and the like. *)
Definition lseek (pos : Z) : prg unit := fun s =>
  let '(e, f) := f_lseek (fd s) pos in Ret (tt, Rom f e (mem s) (alt_mem s)).
Definition open_ : prg unit := fun s => let '(e, f) := f_open (fd s) in Ret (tt, Rom f e (mem s) (alt_mem s)).
Definition close : prg unit := fun s => let '(e, f) := f_close (fd s) in Ret (tt, Rom f e (mem s) (alt_mem s)).
Definition read (size : Z) : prg (list Z) := fun s =>
  let '(e, l, f) := f_read (fd s) size in Ret (l, Rom f e (mem s) (alt_mem s)).

Definition read_num (size : Z) : prg Z :=
  e ← get_errno; if negb (e =? 0) then mret 0 else
  buf ← read size;
  e ← get_errno; if negb (e =? 0) then mret 0 else
  if zlen buf <? size then set_errno ERR_EOF;; mret 0
  else mret (le (take (Z.to_nat size) buf)).
Definition read_uint16 : prg Z := v ← read_num 2; mret (u16 v).
Definition read_uint32 : prg Z := v ← read_num 4; mret (u32 v).
Definition read_addr : prg Z := read_num 8.

(** [return -1] when [errno] is set. *)
Definition fail_if (b : bool) (e : Z) : prg bool := if b then set_errno e;; mret true else mret false.
Definition failed : prg bool := e ← get_errno; mret (negb (e =? 0)).

(** The RAM check on a segment. *)
Definition segment_ok (p_vaddr p_memsz : Z) : bool :=
  negb ((p_vaddr <? SOCT_MEM_BASE_ADDR) || (u64 (p_vaddr + p_memsz) >? SOCT_MEM_BASE_ADDR + SOCT_EXT_MEM_SIZE)).

(** Where [size] bytes for [addr] go, and how many of them: what falls on the scratch goes to
    its alternate, up to the end of the scratch. *)
Definition redirected (addr size : Z) : bool := (u64 (addr + size) >? SOCT_MEM_BASE_ADDR) && (addr <? BOOTROM_MEM_END).
Definition place (addr size : Z) : Z * Z :=
  if redirected addr size
  then (u64 (addr - SOCT_MEM_BASE_ADDR + BOOTROM_MEM_ALT),
        if u64 (addr + size) >? BOOTROM_MEM_END then BOOTROM_MEM_END - addr else size)
  else (addr, size).

(** The copy loop: true when it failed; otherwise the [addr] and [pos] it stopped at. *)
Fixpoint copy_file (fuel : nat) (p_filesz p_memsz addr pos : Z) : prg (bool * Z * Z) :=
  match fuel with
  | O => fuel_out
  | S fuel =>
      if negb ((pos <? p_filesz) && (pos <? p_memsz)) then mret (false, addr, pos) else
      let size := 0x10000 in
      let size := if size >? p_filesz - pos then p_filesz - pos else size in
      let size := if size >? p_memsz - pos then p_memsz - pos else size in
      let '(mem, size') := place addr size in
      (if redirected addr size then set_alt else mret tt);;
      data ← read size';
      store_m mem data;;
      f ← failed;
      if f : bool then mret (true, addr, pos) else
      if zlen data =? 0 then set_errno ERR_EOF;; mret (true, addr, pos) else
      let size := if size' >? zlen data then zlen data else size' in
      copy_file fuel p_filesz p_memsz (u64 (addr + size)) (u64 (pos + size))
  end.

(** The loop that clears the rest of the segment. *)
Fixpoint zero_fill (fuel : nat) (p_memsz addr pos : Z) : prg unit :=
  match fuel with
  | O => fuel_out
  | S fuel =>
      if negb (pos <? p_memsz) then mret tt else
      let size := 0x10000 in
      let size := if size >? p_memsz - pos then p_memsz - pos else size in
      let '(mem, size') := place addr size in
      (if redirected addr size then set_alt else mret tt);;
      store_m mem (replicate (Z.to_nat size') 0);;
      zero_fill fuel p_memsz (u64 (addr + size')) (u64 (pos + size'))
  end.

(** One program header, at [off]: [None] is [return -1], otherwise the new [load_end]. *)
Definition load_segment (fuel : nat) (off load_end : Z) : prg (option Z) :=
  lseek off;;
  p_type ← read_uint32;
  f ← failed; if f : bool then mret None else
  if negb (p_type =? PT_LOAD) then mret (Some load_end) else
  pos ← gets (fun s => f_tell (fd s));
  lseek (pos + 4);;
  p_offset ← read_addr;
  p_vaddr ← read_addr;
  _ ← read_addr;
  p_filesz ← read_addr;
  p_memsz ← read_addr;
  f ← failed; if f : bool then mret None else
  f ← fail_if (negb (segment_ok p_vaddr p_memsz)) ERR_SEGMENT_ADDR; if f : bool then mret None else
  let seg_end := u64 (p_vaddr + p_memsz) in
  let load_end := if seg_end >? load_end then seg_end else load_end in
  lseek p_offset;;
  f ← failed; if f : bool then mret None else
  '(f, addr, pos) ← copy_file fuel p_filesz p_memsz p_vaddr 0;
  if f : bool then mret None else
  zero_fill fuel p_memsz addr pos;;
  mret (Some load_end).

Fixpoint load_segments (fuel : nat) (n : nat) (phoff phentsize i load_end : Z) : prg (option Z) :=
  match n with
  | O => mret (Some load_end)
  | S n =>
      r ← load_segment fuel (u64 (phoff + i * phentsize)) load_end;
      match r with None => mret None | Some load_end => load_segments fuel n phoff phentsize (i + 1) load_end end
  end.

(** The device tree's place in RAM, and its copy with [dtb_slack] more in its totalsize. *)
Definition dtb_slack : Z := 0x1000.
Definition dtb_dst : Z := u64 (BOOTROM_MEM_ALT - zlen dtb - dtb_slack) .& cnot 64 0xFFF.
Definition be_load (a : Z) (m : memory) : Z :=
  u32 (m a .<< 24) .| (m (a + 1) .<< 16) .| (m (a + 2) .<< 8) .| m (a + 3).
Definition be_store (a v : Z) : memory -> memory :=
  store a [u8 (v .>> 24); u8 (v .>> 16); u8 (v .>> 8); u8 v].
Definition copy_dtb (m : memory) : memory :=
  let dst := dtb_dst in
  let m := store dst dtb m in
  let total := be_load (dst + 4) m in
  (* [n < total + dtb_slack] in size_t *)
  let m := store (dst + total) (replicate (Z.to_nat dtb_slack) 0) m in
  be_store (dst + 4) (u32 (total + dtb_slack)) m.

(** The final move of the scratch, eight bytes at a time until [t0] is [t1]. *)
Fixpoint boot_rom_memcpy (fuel : nat) (t0 t1 t2 : Z) (m : memory) : res memory :=
  match fuel with
  | O => Fuel
  | S fuel =>
      let m := store t0 (load 8 t2 m) m in
      let t0 := u64 (t0 + 8) in
      let t2 := u64 (t2 + 8) in
      if t0 =? t1 then Ret m else boot_rom_memcpy fuel t0 t1 t2 m
  end.

(** How [download] ends: with an error, or by jumping. *)
Inductive boot := Failed | Jump (entry a1 : Z).

Definition set_mem m : prg unit := modify (fun s => Rom (fd s) (errno s) m (alt_mem s)).

Definition download (fuel : nat) : prg boot :=
  open_;;
  f ← failed; if f : bool then mret Failed else
  buf ← read 6;
  f ← failed; if f : bool then mret Failed else
  f ← fail_if (zlen buf <? 6) ERR_EOF; if f : bool then mret Failed else
  let b i := nth i buf 0 in
  f ← fail_if (negb ((b 0%nat =? 0x7f) && (b 1%nat =? 69) && (b 2%nat =? 76) && (b 3%nat =? 70))) ERR_NOT_ELF;
  if f : bool then mret Failed else
  f ← fail_if (negb (b 4%nat =? 2)) ERR_ELF_BITS; if f : bool then mret Failed else
  f ← fail_if (negb (b 5%nat =? 1)) ERR_ELF_ENDIANNESS; if f : bool then mret Failed else
  lseek 24;;
  entry_addr ← read_addr;
  phoff ← read_addr;
  f ← failed; if f : bool then mret Failed else
  pos ← gets (fun s => f_tell (fd s));
  lseek (pos + 14);;
  phentsize ← read_uint16;
  phnum ← read_uint16;
  f ← failed; if f : bool then mret Failed else
  r ← load_segments fuel (Z.to_nat phnum) phoff phentsize 0 0;
  match r with
  | None => mret Failed
  | Some load_end =>
      close;;
      f ← failed; if f : bool then mret Failed else
      f ← fail_if ((load_end <? SOCT_MEM_BASE_ADDR) || (load_end >? dtb_dst)) ERR_SEGMENT_ADDR;
      if f : bool then mret Failed else
      m ← gets mem;
      set_mem (copy_dtb m);;
      alt ← gets alt_mem;
      (if alt : bool then
         m ← gets mem;
         m ← lift (boot_rom_memcpy fuel SOCT_MEM_BASE_ADDR BOOTROM_MEM_END BOOTROM_MEM_ALT m);
         set_mem m
       else mret tt);;
      mret (Jump entry_addr dtb_dst)
  end.
End rom.
