(* ===== verification/BootProofs.v ===== *)
(** * The boot loader loads the file

    Theorems over BootRom: what the RAM check lets through, and that a well-formed ELF on a
    card without errors ends up in memory, every byte of every segment, before the jump. *)
From S2P Require Import Prelude Memory BootRom.

Lemma bind_ret {S A B} (m : prog S A) (f : A -> prog S B) s a s1 :
  m s = Ret (a, s1) -> (x ← m; f x) s = f a s1.
Proof. unfold mbind, prog_bind. by intros ->. Qed.

Lemma zlen4 (w x y z : Z) : zlen [w; x; y; z] = 4.
Proof. done. Qed.

Section rom.
Context (BASE SIZE : Z) (dtb : list Z).
Hypothesis Hbase : 0 <= BASE.
Hypothesis Hsize : 0x40000 <= SIZE.
Hypothesis Htop : BASE + SIZE < 2 ^ 64.
Hypothesis Hdtb : zlen dtb <= 0x10000.
Abbreviation END := (BOOTROM_MEM_END BASE).
Abbreviation ALT := (BOOTROM_MEM_ALT BASE SIZE).

Lemma layout_eq : END = BASE + 0x8000 /\ ALT = BASE + SIZE - 0xA000.
Proof. unfold BOOTROM_MEM_END, BOOTROM_MEM_ALT, BOOTROM_SCRATCH_SIZE. lia. Qed.

(** Where the loader keeps the byte for address [x] until the jump. *)
Definition alias (x : Z) : Z := if x <? END then x - BASE + ALT else x.

Lemma alias_inj x y : BASE <= x < ALT -> BASE <= y < ALT -> alias x = alias y -> x = y.
Proof. pose proof layout_eq as [E1 E2]. unfold alias. intros. repeat case_match; lia. Qed.

Lemma place_spec addr size : BASE <= addr -> 0 < size -> addr + size <= ALT ->
  let '(a, n) := place BASE SIZE addr size in
  0 < n <= size /\ redirected BASE addr size = (addr <? END) /\ (addr < END -> addr + n <= END) /\
  0 <= a /\ a + n < 2 ^ 64 /\ forall i, 0 <= i < n -> alias (addr + i) = a + i.
Proof.
  pose proof layout_eq as [E1 E2]. intros. unfold place, redirected, alias.
  rewrite (wrap_small 64 (addr + size)) by (unfold fits; lia). rewrite !Z.gtb_ltb.
  destruct (Z.ltb_spec BASE (addr + size)); [|lia]. cbn [andb].
  destruct (Z.ltb_spec addr END).
  - rewrite wrap_small by (unfold fits; lia). destruct (Z.ltb_spec END (addr + size)).
    all: split_and!; try lia; try done; intros i Hi; destruct (Z.ltb_spec (addr + i) END); lia.
  - split_and!; try lia; try done. intros i Hi. destruct (Z.ltb_spec (addr + i) END); lia.
Qed.

(** [m'] is [m] with [f k] at the place of [v + k] for the [k] in the range. *)
Definition filled (v lo hi : Z) (f : Z -> Z) (m m' : memory) : Prop :=
  (forall k, lo <= k < hi -> m' (alias (v + k)) = f k) /\
  (forall x, fits 64 x -> (forall k, lo <= k < hi -> x <> alias (v + k)) -> m' x = m x).

Lemma filled_refl v lo hi f m : hi <= lo -> filled v lo hi f m m.
Proof. intros. split; [lia|done]. Qed.

Lemma filled_trans v lo mid hi f m m1 m2 :
  BASE <= v -> 0 <= lo <= mid -> mid <= hi -> v + hi <= ALT ->
  filled v lo mid f m m1 -> filled v mid hi f m1 m2 -> filled v lo hi f m m2.
Proof.
  pose proof layout_eq as [E1 E2]. intros Hv Hlo Hmid Hhi [A1 B1] [A2 B2]. split.
  - intros k Hk. destruct (Z.lt_ge_cases k mid).
    + rewrite B2; [apply A1; lia|unfold alias, fits; case_match; lia|].
      intros j Hj E. apply alias_inj in E; lia.
    + apply A2. lia.
  - intros x Hx Hne. rewrite B2 by (done || (intros; apply Hne; lia)). apply B1; [done|]. intros; apply Hne; lia.
Qed.

(** One round of either loop. *)
Lemma store_filled v pos n a l f m :
  BASE <= v -> 0 <= pos -> v + pos + n <= ALT -> zlen l = n -> 0 <= a -> a + n < 2 ^ 64 ->
  (forall i, 0 <= i < n -> alias (v + pos + i) = a + i) ->
  (forall i, 0 <= i < n -> nth (Z.to_nat i) l 0 = f (pos + i)) ->
  filled v pos (pos + n) f m (store a l m).
Proof.
  pose proof layout_eq as [E1 E2]. intros Hv Hpos Hend Hl Ha Htop' Hal Hf. split.
  - intros k Hk. replace (v + k) with (v + pos + (k - pos)) by lia. rewrite Hal by lia.
    rewrite store_in by (unfold fits; lia). destruct (Z.leb_spec a (a + (k - pos))); [|lia].
    destruct (Z.ltb_spec (a + (k - pos)) (a + zlen l)); [|lia]. cbn [andb].
    replace (a + (k - pos) - a) with (k - pos) by lia. rewrite Hf by lia. f_equal. lia.
  - intros x Hx Hne. rewrite store_in by (done || lia).
    destruct (Z.leb_spec a x); [|done]. destruct (Z.ltb_spec x (a + zlen l)); [|done].
    exfalso. apply (Hne (pos + (x - a))); [lia|]. replace (v + (pos + (x - a))) with (v + pos + (x - a)) by lia.
    rewrite Hal by lia. lia.
Qed.

(** ** A card without errors *)

Context {F : Type} {HF : Fs F} (file : list Z) (at_ : F -> Z -> Prop).

(** FatFs on an open, readable file: a read delivers what is left up to the size asked for
    and moves on by it, a seek inside the file goes there. *)
Record fs_ok : Prop := {
  ok_open : forall f, exists f', f_open f = (0, f') /\ at_ f' 0;
  ok_read : forall f p n, at_ f p -> 0 <= n ->
    exists f', f_read f n = (0, take (Z.to_nat n) (drop (Z.to_nat p) file), f') /\
      at_ f' (p + zlen (take (Z.to_nat n) (drop (Z.to_nat p) file)));
  ok_lseek : forall f p q, at_ f p -> 0 <= q <= zlen file -> exists f', f_lseek f q = (0, f') /\ at_ f' q;
  ok_tell : forall f p, at_ f p -> f_tell f = p;
  ok_close : forall f p, at_ f p -> exists f', f_close f = (0, f') }.
Hypothesis Hfs : fs_ok.
Hypothesis Hbytes : Forall (fun b => 0 <= b < 256) file.

Implicit Types s : rom (F:=F).

(** Open at [p], no error. *)
Definition at_pos s (p : Z) : Prop := at_ (fd s) p /\ errno s = 0.

Lemma read_spec s p n : at_pos s p -> 0 <= p -> 0 <= n -> p + n <= zlen file ->
  exists s', read n s = Ret (take (Z.to_nat n) (drop (Z.to_nat p) file), s') /\
    at_pos s' (p + n) /\ mem s' = mem s /\ alt_mem s' = alt_mem s /\
    zlen (take (Z.to_nat n) (drop (Z.to_nat p) file)) = n.
Proof.
  intros [Ha He] Hp Hn Hl. destruct (ok_read Hfs _ _ n Ha Hn) as (f' & E & Ha'). unfold read. rewrite E.
  assert (zlen (take (Z.to_nat n) (drop (Z.to_nat p) file)) = n) as Hlen.
  { unfold zlen in *. rewrite length_take, length_drop. lia. }
  eexists. split; [reflexivity|]. cbn. rewrite Hlen in Ha'. by split_and!.
Qed.

Lemma lseek_spec s p q : at_pos s p -> 0 <= q <= zlen file ->
  exists s', lseek q s = Ret (tt, s') /\ at_pos s' q /\ mem s' = mem s /\ alt_mem s' = alt_mem s.
Proof.
  intros [Ha He] Hq. destruct (ok_lseek Hfs _ _ q Ha Hq) as (f' & E & Ha'). unfold lseek. rewrite E.
  eexists. split; [reflexivity|]. by split_and!.
Qed.

Lemma failed_spec s p : at_pos s p -> failed s = Ret (false, s).
Proof. intros [_ He]. unfold failed, get_errno, gets, mbind, prog_bind. rewrite He. done. Qed.

(** The field of [n] bytes at [p]. *)
Definition field (p n : Z) : Z := le (take (Z.to_nat n) (drop (Z.to_nat p) file)).

Lemma le_range l : Forall (fun b => 0 <= b < 256) l -> 0 <= le l < 2 ^ (8 * zlen l).
Proof.
  induction 1 as [|b l Hb Hl IH]; [change (0 <= 0 < 1); lia|]. cbn [le].
  assert (2 ^ (8 * zlen (b :: l)) = 2 ^ 8 * 2 ^ (8 * zlen l)) as ->.
  { rewrite <-Z.pow_add_r by (unfold zlen; lia). f_equal. unfold zlen. cbn [length]. lia. }
  lia.
Qed.

Lemma field_range p n : 0 <= p -> 0 <= n -> p + n <= zlen file -> 0 <= field p n < 2 ^ (8 * n).
Proof.
  intros Hp Hn Hl. unfold field.
  assert (zlen (take (Z.to_nat n) (drop (Z.to_nat p) file)) = n) as Hlen.
  { unfold zlen in *. rewrite length_take, length_drop. lia. }
  pose proof (le_range (take (Z.to_nat n) (drop (Z.to_nat p) file))) as H. rewrite Hlen in H. apply H.
  by apply Forall_take, Forall_drop.
Qed.

Lemma read_num_spec s p n : at_pos s p -> 0 <= p -> 0 <= n -> p + n <= zlen file ->
  exists s', read_num n s = Ret (field p n, s') /\ at_pos s' (p + n) /\ mem s' = mem s /\ alt_mem s' = alt_mem s.
Proof.
  intros Ha Hp Hn Hl. destruct (read_spec s p n Ha Hp Hn Hl) as (s' & E & Ha' & Hm & Hal & Hlen).
  exists s'. split; [|done]. unfold read_num, get_errno.
  rewrite (bind_ret _ _ s (errno s) s) by done. destruct Ha as [_ ->]. cbn [negb Z.eqb].
  rewrite (bind_ret _ _ _ _ _ E), (bind_ret _ _ s' (errno s') s') by done. destruct Ha' as [_ ->]. cbn [negb Z.eqb].
  rewrite Hlen, Z.ltb_irrefl. unfold field. rewrite take_take, Nat.min_id. done.
Qed.

Lemma nth_take_drop p n i : 0 <= p -> 0 <= i < n -> p + n <= zlen file ->
  nth (Z.to_nat i) (take (Z.to_nat n) (drop (Z.to_nat p) file)) 0 = nth (Z.to_nat (p + i)) file 0.
Proof.
  intros Hp Hi Hl. unfold zlen in Hl. rewrite !nth_lookup. f_equal.
  rewrite lookup_take_lt by lia. rewrite lookup_drop. f_equal. lia.
Qed.

Definition alt_after (alt : bool) (addr pos n : Z) : bool := alt || ((addr <? END) && (pos <? n)).

(** The size a round asks for. *)
Lemma chunk_size a b : 0 < a -> 0 < b ->
  let size := if 0x10000 >? a then a else 0x10000 in
  let size := if size >? b then b else size in 0 < size <= Z.min a b.
Proof. intros Ha Hb. cbn zeta. rewrite !Z.gtb_ltb. repeat case_match; lia. Qed.

Lemma copy_file_ok off v fs ms : BASE <= v -> 0 <= fs < 2 ^ 64 -> 0 <= ms -> v + ms <= ALT ->
  0 <= off -> off + Z.min fs ms <= zlen file -> forall fuel pos s,
  0 <= pos <= Z.min fs ms -> at_pos s (off + pos) -> Z.min fs ms - pos < Z.of_nat fuel ->
  exists s', copy_file BASE SIZE fuel fs ms (v + pos) pos s = Ret ((false, v + Z.min fs ms, Z.min fs ms), s') /\
    at_pos s' (off + Z.min fs ms) /\ filled v pos (Z.min fs ms) (fun k => nth (Z.to_nat (off + k)) file 0) (mem s) (mem s') /\
    alt_mem s' = alt_after (alt_mem s) (v + pos) pos (Z.min fs ms).
Proof.
  pose proof layout_eq as [E1 E2]. intros Hv Hfs' Hms Hend Hoff Hfile.
  induction fuel as [|fuel IH]; intros pos s Hpos Ha Hf; [lia|]. cbn [copy_file].
  destruct (Z.lt_ge_cases pos (Z.min fs ms)) as [Hlt|Hge].
  2:{ destruct (Z.ltb_spec pos fs), (Z.ltb_spec pos ms); try lia; cbn [andb negb].
      all: exists s; replace (Z.min fs ms) with pos by lia; split; [done|].
      all: split; [done|]; split; [by apply filled_refl|]; unfold alt_after; rewrite Z.ltb_irrefl, andb_false_r, orb_false_r; done. }
  destruct (Z.ltb_spec pos fs); [|lia]. destruct (Z.ltb_spec pos ms); [|lia]. cbn [andb negb].
  pose proof (chunk_size (fs - pos) (ms - pos) ltac:(lia) ltac:(lia)) as Hcs. cbn zeta in Hcs |- *.
  set (size := if (if 0x10000 >? fs - pos then fs - pos else 0x10000) >? ms - pos then _ else _) in *. clearbody size.
  pose proof (place_spec (v + pos) size ltac:(lia) ltac:(lia) ltac:(lia)) as Hp.
  destruct (place BASE SIZE (v + pos) size) as [a n]. destruct Hp as (Hn & Hr & Hwin & Ha0 & Htop' & Hal).
  rewrite Hr.
  set (s1 := Rom (fd s) (errno s) (mem s) (alt_mem s || (v + pos <? END))).
  rewrite (bind_ret _ _ s tt s1) by (unfold s1; destruct (v + pos <? END); cbn; [by rewrite orb_true_r|destruct s; cbn; by rewrite orb_false_r]).
  destruct (read_spec s1 (off + pos) n Ha ltac:(lia) ltac:(lia) ltac:(lia)) as (s2 & Er & Ha2 & Hm2 & Hal2 & Hlen).
  rewrite (bind_ret _ _ _ _ _ Er). set (data := take (Z.to_nat n) (drop (Z.to_nat (off + pos)) file)) in *.
  set (s3 := Rom (fd s2) (errno s2) (store a data (mem s2)) (alt_mem s2)).
  rewrite (bind_ret _ _ s2 tt s3) by done.
  rewrite (bind_ret _ _ _ _ _ (failed_spec s3 (off + pos + n) Ha2)). rewrite Hlen.
  destruct (Z.eqb_spec n 0); [lia|]. replace (if n >? n then n else n) with n by (by case_match).
  rewrite !wrap_small by (unfold fits; lia). replace (v + pos + n) with (v + (pos + n)) by lia.
  destruct (IH (pos + n) s3 ltac:(lia) ltac:(by rewrite Z.add_assoc) ltac:(lia)) as (s' & E & Ha' & Hfill & Halt).
  exists s'. split; [done|]. split; [done|]. split.
  - apply (filled_trans v pos (pos + n) _ _ _ (mem s3)); [done|lia|lia|lia| |done].
    cbn. rewrite Hm2. apply store_filled; try done; try lia.
    intros i Hi. unfold data. rewrite nth_take_drop by lia. do 2 f_equal. lia.
  - rewrite Halt. unfold alt_after. cbn. rewrite Hal2. cbn.
    destruct (Z.ltb_spec (v + pos) END), (Z.ltb_spec (v + (pos + n)) END), (Z.ltb_spec pos (Z.min fs ms)); try lia;
      destruct (alt_mem s); cbn; try done; by rewrite ?orb_false_r, ?orb_true_r.
Qed.

Lemma zero_fill_ok v ms : BASE <= v -> v + ms <= ALT -> forall fuel pos s,
  0 <= pos <= ms -> ms - pos < Z.of_nat fuel ->
  exists s', zero_fill BASE SIZE fuel ms (v + pos) pos s = Ret (tt, s') /\
    fd s' = fd s /\ errno s' = errno s /\ filled v pos ms (fun _ => 0) (mem s) (mem s') /\
    alt_mem s' = alt_after (alt_mem s) (v + pos) pos ms.
Proof.
  pose proof layout_eq as [E1 E2]. intros Hv Hend.
  induction fuel as [|fuel IH]; intros pos s Hpos Hf; [lia|]. cbn [zero_fill].
  destruct (Z.ltb_spec pos ms) as [Hlt|Hge]; cbn [negb].
  2:{ exists s. split; [done|]. split; [done|]. split; [done|]. split; [apply filled_refl; lia|].
      unfold alt_after. destruct (Z.ltb_spec pos ms); [lia|]. by rewrite andb_false_r, orb_false_r. }
  cbn zeta. set (size := if 0x10000 >? ms - pos then _ else _).
  assert (0 < size <= ms - pos) as Hsz by (unfold size; rewrite Z.gtb_ltb; case_match; lia). clearbody size.
  pose proof (place_spec (v + pos) size ltac:(lia) ltac:(lia) ltac:(lia)) as Hp.
  destruct (place BASE SIZE (v + pos) size) as [a n]. destruct Hp as (Hn & Hr & Hwin & Ha0 & Htop' & Hal).
  rewrite Hr. set (s1 := Rom (fd s) (errno s) (mem s) (alt_mem s || (v + pos <? END))).
  rewrite (bind_ret _ _ s tt s1) by (unfold s1; destruct (v + pos <? END); cbn; [by rewrite orb_true_r|destruct s; cbn; by rewrite orb_false_r]).
  set (s3 := Rom (fd s) (errno s) (store a (replicate (Z.to_nat n) 0) (mem s)) (alt_mem s1)).
  rewrite (bind_ret _ _ s1 tt s3) by done.
  rewrite !wrap_small by (unfold fits; lia). replace (v + pos + n) with (v + (pos + n)) by lia.
  destruct (IH (pos + n) s3 ltac:(lia) ltac:(lia)) as (s' & E & Hfd & Her & Hfill & Halt).
  exists s'. split; [done|]. split; [done|]. split; [done|]. split.
  - apply (filled_trans v pos (pos + n) _ _ _ (mem s3)); [done|lia|lia|lia| |done].
    apply store_filled; try done; try lia.
    + unfold zlen. rewrite length_replicate. lia.
    + intros i Hi. rewrite nth_lookup, lookup_replicate_2 by lia. done.
  - rewrite Halt. unfold alt_after. cbn.
    destruct (Z.ltb_spec (v + pos) END), (Z.ltb_spec (v + (pos + n)) END), (Z.ltb_spec pos ms); try lia;
      destruct (alt_mem s); cbn; try done; by rewrite ?orb_false_r, ?orb_true_r.
Qed.

(** ** Segments *)

Record segment := Segment { sg_offset : Z; sg_vaddr : Z; sg_filesz : Z; sg_memsz : Z }.
(** The program header at [off], if it is loadable. *)
Definition header (off : Z) : option segment :=
  if field off 4 =? PT_LOAD
  then Some (Segment (field (off + 8) 8) (field (off + 16) 8) (field (off + 32) 8) (field (off + 40) 8)) else None.

(** Byte [k] of a segment: from the file, then zeros. *)
Definition seg_byte (g : segment) (k : Z) : Z :=
  if k <? sg_filesz g then nth (Z.to_nat (sg_offset g + k)) file 0 else 0.

(** The image the segments describe; a later one wins. *)
Definition image_add (e : Z -> option Z) (g : segment) : Z -> option Z := fun x =>
  if (sg_vaddr g <=? x) && (x <? sg_vaddr g + sg_memsz g) then Some (seg_byte g (x - sg_vaddr g)) else e x.
Definition image (gs : list segment) : Z -> option Z := foldl image_add (fun _ => None) gs.

(** A header whose segment lies between the start of RAM and [lim], with its bytes in the file. *)
Definition header_ok (lim off : Z) : Prop :=
  0 <= off /\ off + 48 <= zlen file /\
  forall g, header off = Some g ->
    BASE <= sg_vaddr g /\ sg_vaddr g + sg_memsz g <= lim /\
    sg_offset g + Z.min (sg_filesz g) (sg_memsz g) <= zlen file.

Lemma filled_ext v lo hi f g m m' : (forall k, lo <= k < hi -> f k = g k) -> filled v lo hi f m m' -> filled v lo hi g m m'.
Proof. intros Hfg [A B]. split; [|done]. intros k Hk. rewrite A by done. by apply Hfg. Qed.

Lemma segment_ok_intro v ms : BASE <= v -> 0 <= ms -> v + ms <= ALT -> segment_ok BASE SIZE v ms = true.
Proof.
  pose proof layout_eq as [E1 E2]. intros. unfold segment_ok. rewrite wrap_small by (unfold fits; lia).
  rewrite Z.gtb_ltb. destruct (Z.ltb_spec v BASE); [lia|]. by destruct (Z.ltb_spec (BASE + SIZE) (v + ms)); [lia|].
Qed.

Definition new_end (load_end : Z) (g : segment) : Z := Z.max load_end (sg_vaddr g + sg_memsz g).

Lemma load_segment_ok fuel off load_end s p :
  at_pos s p -> header_ok ALT off -> 0 <= load_end -> SIZE <= Z.of_nat fuel ->
  exists s' p', at_pos s' p' /\
    match header off with
    | None => load_segment BASE SIZE fuel off load_end s = Ret (Some load_end, s') /\ mem s' = mem s /\ alt_mem s' = alt_mem s
    | Some g => load_segment BASE SIZE fuel off load_end s = Ret (Some (new_end load_end g), s') /\
        filled (sg_vaddr g) 0 (sg_memsz g) (seg_byte g) (mem s) (mem s') /\
        alt_mem s' = alt_mem s || ((sg_vaddr g <? END) && (0 <? sg_memsz g))
    end.
Proof.
  pose proof layout_eq as [E1 E2]. intros Ha (Hoff & Hlen & Hok) Hle Hfuel. unfold load_segment.
  destruct (lseek_spec s p off Ha ltac:(lia)) as (s1 & L1 & A1 & M1 & T1). rewrite (bind_ret _ _ _ _ _ L1).
  destruct (read_num_spec s1 off 4 A1 ltac:(lia) ltac:(lia) ltac:(lia)) as (s2 & L2 & A2 & M2 & T2).
  pose proof (field_range off 4 Hoff ltac:(lia) ltac:(lia)) as R4.
  assert (read_uint32 s1 = Ret (field off 4, s2)) as L2'.
  { unfold read_uint32. rewrite (bind_ret _ _ _ _ _ L2). rewrite wrap_small by (unfold fits; lia). done. }
  rewrite (bind_ret _ _ _ _ _ L2'), (bind_ret _ _ _ _ _ (failed_spec _ _ A2)).
  unfold header in *. destruct (Z.eqb_spec (field off 4) PT_LOAD) as [Et|Et]; cbn [negb].
  2:{ exists s2, (off + 4). split; [done|]. split; [done|]. split; congruence. }
  destruct (Hok _ eq_refl) as (Hv & Hend & Hfile). cbn [sg_vaddr sg_memsz sg_offset sg_filesz] in *.
  rewrite (bind_ret (gets _) _ s2 (off + 4) s2) by (unfold gets; by rewrite (ok_tell Hfs _ _ (proj1 A2))).
  destruct (lseek_spec s2 _ (off + 4 + 4) A2 ltac:(lia)) as (s3 & L3 & A3 & M3 & T3). rewrite (bind_ret _ _ _ _ _ L3).
  unfold read_addr.
  destruct (read_num_spec s3 _ 8 A3 ltac:(lia) ltac:(lia) ltac:(lia)) as (s4 & L4 & A4 & M4 & T4). rewrite (bind_ret _ _ _ _ _ L4).
  destruct (read_num_spec s4 _ 8 A4 ltac:(lia) ltac:(lia) ltac:(lia)) as (s5 & L5 & A5 & M5 & T5). rewrite (bind_ret _ _ _ _ _ L5).
  destruct (read_num_spec s5 _ 8 A5 ltac:(lia) ltac:(lia) ltac:(lia)) as (s6 & L6 & A6 & M6 & T6). rewrite (bind_ret _ _ _ _ _ L6).
  destruct (read_num_spec s6 _ 8 A6 ltac:(lia) ltac:(lia) ltac:(lia)) as (s7 & L7 & A7 & M7 & T7). rewrite (bind_ret _ _ _ _ _ L7).
  destruct (read_num_spec s7 _ 8 A7 ltac:(lia) ltac:(lia) ltac:(lia)) as (s8 & L8 & A8 & M8 & T8). rewrite (bind_ret _ _ _ _ _ L8).
  rewrite (bind_ret _ _ _ _ _ (failed_spec _ _ A8)).
  replace (off + 4 + 4 + 8 + 8 + 8 + 8) with (off + 40) in * by lia.
  replace (off + 4 + 4 + 8 + 8 + 8) with (off + 32) in * by lia.
  replace (off + 4 + 4 + 8) with (off + 16) in * by lia. replace (off + 4 + 4) with (off + 8) in * by lia.
  pose proof (field_range (off + 8) 8 ltac:(lia) ltac:(lia) ltac:(lia)) as R8.
  pose proof (field_range (off + 32) 8 ltac:(lia) ltac:(lia) ltac:(lia)) as R32.
  pose proof (field_range (off + 40) 8 ltac:(lia) ltac:(lia) ltac:(lia)) as R40.
  set (po := field (off + 8) 8) in *. set (v := field (off + 16) 8) in *.
  set (fs := field (off + 32) 8) in *. set (ms := field (off + 40) 8) in *. clearbody po v fs ms.
  rewrite segment_ok_intro by lia. cbn [negb]. rewrite (bind_ret (fail_if _ _) _ s8 false s8) by done.
  rewrite wrap_small by (unfold fits; lia).
  destruct (lseek_spec s8 _ po A8 ltac:(lia)) as (s9 & L9 & A9 & M9 & T9). rewrite (bind_ret _ _ _ _ _ L9).
  rewrite (bind_ret _ _ _ _ _ (failed_spec _ _ A9)).
  destruct (copy_file_ok po v fs ms Hv ltac:(lia) ltac:(lia) Hend ltac:(lia) Hfile fuel 0 s9 ltac:(lia) ltac:(by rewrite Z.add_0_r) ltac:(lia))
    as (s10 & L10 & A10 & F10 & T10). rewrite Z.add_0_r in L10. rewrite (bind_ret _ _ _ _ _ L10).
  destruct (zero_fill_ok v ms Hv Hend fuel (Z.min fs ms) s10 ltac:(lia) ltac:(lia)) as (s11 & L11 & D11 & R11 & F11 & T11).
  rewrite (bind_ret _ _ _ _ _ L11). exists s11, (po + Z.min fs ms).
  split; [split; [by rewrite D11; apply A10|by rewrite R11; apply A10]|]. split; [|split].
  - unfold new_end. cbn [sg_vaddr sg_memsz]. rewrite Z.gtb_ltb.
    by replace (if load_end <? v + ms then v + ms else load_end) with (Z.max load_end (v + ms)) by (zcase; lia).
  - apply (filled_trans v 0 (Z.min fs ms) _ _ _ (mem s10)); [done|lia|lia|lia| |].
    + replace (mem s) with (mem s9) by congruence. eapply filled_ext; [|exact F10]. intros k Hk. unfold seg_byte. cbn.
      destruct (Z.ltb_spec k fs); [done|lia].
    + eapply filled_ext; [|exact F11]. intros k Hk. unfold seg_byte. cbn. destruct (Z.ltb_spec k fs); [lia|done].
  - rewrite T11, T10. replace (alt_mem s9) with (alt_mem s) by congruence. unfold alt_after. rewrite Z.add_0_r.
    destruct (Z.ltb_spec v END), (Z.ltb_spec 0 (Z.min fs ms)), (Z.ltb_spec (v + Z.min fs ms) END),
      (Z.ltb_spec (Z.min fs ms) ms), (Z.ltb_spec 0 ms); try lia; destruct (alt_mem s); done.
Qed.

(** Memory holds the image: each of its bytes at its alias, and the scratch flag set when the
    image reaches into the scratch. *)
Definition holds_image (e : Z -> option Z) (lim : Z) (m : memory) (alt : bool) : Prop :=
  forall x b, e x = Some b -> BASE <= x < lim /\ m (alias x) = b /\ (x < END -> alt = true).

Lemma holds_image_add e lim g m alt m' :
  lim <= ALT -> BASE <= sg_vaddr g -> sg_vaddr g + sg_memsz g <= lim ->
  holds_image e lim m alt -> filled (sg_vaddr g) 0 (sg_memsz g) (seg_byte g) m m' ->
  holds_image (image_add e g) lim m' (alt || ((sg_vaddr g <? END) && (0 <? sg_memsz g))).
Proof.
  pose proof layout_eq as [E1 E2]. intros Hlim Hv Hend Hm [A B] x b. unfold image_add.
  destruct (Z.leb_spec (sg_vaddr g) x), (Z.ltb_spec x (sg_vaddr g + sg_memsz g)); cbn [andb].
  2,3,4: intros Hx; destruct (Hm x b Hx) as (H1 & H2 & H3); split; [done|]; split; [|intros Hxe; by rewrite H3];
    rewrite B; [done|unfold alias, fits; case_match; lia|]; intros k Hk E; apply alias_inj in E; lia.
  - intros [= <-]. split; [lia|]. split.
    + rewrite <-A by lia. do 2 f_equal. lia.
    + intros Hx. destruct (Z.ltb_spec (sg_vaddr g) END), (Z.ltb_spec 0 (sg_memsz g)); lia || apply orb_true_r.
Qed.

(** The loadable segments among [n] headers from the [i]th on. *)
Fixpoint segments (n : nat) (phoff phentsize i : Z) : list segment :=
  match n with
  | O => []
  | S n => (match header (phoff + i * phentsize) with Some g => [g] | None => [] end) ++ segments n phoff phentsize (i + 1)
  end.

Lemma load_segments_ok fuel lim phoff phentsize n : lim <= ALT -> SIZE <= Z.of_nat fuel -> 0 <= phoff -> 0 <= phentsize -> zlen file < 2 ^ 64 ->
  forall i load_end e s p, 0 <= i ->
  (forall j, i <= j < i + Z.of_nat n -> header_ok lim (phoff + j * phentsize)) ->
  at_pos s p -> 0 <= load_end -> holds_image e lim (mem s) (alt_mem s) ->
  exists s' p', load_segments BASE SIZE fuel n phoff phentsize i load_end s
      = Ret (Some (foldl new_end load_end (segments n phoff phentsize i)), s') /\
    at_pos s' p' /\ holds_image (foldl image_add e (segments n phoff phentsize i)) lim (mem s') (alt_mem s').
Proof.
  intros Hlim Hfuel Hph Hpe Hfl. induction n as [|n IH]; intros i load_end e s p Hi Hok Ha Hle Him.
  - exists s, p. by split_and!.
  - cbn [load_segments segments]. pose proof (Hok i ltac:(lia)) as Hoki.
    rewrite wrap_small by (unfold fits; destruct Hoki as (? & ? & _); lia).
    assert (header_ok ALT (phoff + i * phentsize)) as Hoka.
    { destruct Hoki as (? & ? & Hg). split_and!; [done|done|]. intros g Eg. destruct (Hg g Eg) as (? & ? & ?). split_and!; lia. }
    destruct (load_segment_ok fuel _ load_end s p Ha Hoka Hle Hfuel) as (s1 & p1 & A1 & H1).
    destruct Hoki as (_ & _ & Hg). destruct (header (phoff + i * phentsize)) as [g|].
    + destruct H1 as (L1 & F1 & T1). rewrite (bind_ret _ _ _ _ _ L1). destruct (Hg g eq_refl) as (Hv & Hend & _).
      cbn [app foldl]. apply (IH (i + 1) _ _ s1 p1); [lia|intros; apply Hok; lia|done|unfold new_end; lia|].
      rewrite T1. by apply (holds_image_add _ _ _ (mem s)).
    + destruct H1 as (L1 & M1 & T1). rewrite (bind_ret _ _ _ _ _ L1). cbn [app].
      apply (IH (i + 1) _ _ s1 p1); [lia|intros; apply Hok; lia|done|done|]. by rewrite M1, T1.
Qed.

(** ** The device tree and the final move *)

Lemma dtb_dst_spec : END <= dtb_dst BASE SIZE dtb /\ dtb_dst BASE SIZE dtb + zlen dtb + dtb_slack <= ALT /\
  dtb_dst BASE SIZE dtb mod 0x1000 = 0.
Proof.
  pose proof layout_eq as [E1 E2]. pose proof (zlen_nonneg dtb). unfold dtb_dst, dtb_slack.
  rewrite wrap_small by (unfold fits; lia). set (x := ALT - zlen dtb - 4096).
  change 0xFFF with (Z.ones 12). rewrite align_down by (unfold x, fits; lia).
  pose proof (Z.mod_pos_bound x (2 ^ 12)). change 0x1000 with (2 ^ 12).
  split_and!; [unfold x in *; lia|unfold x in *; lia|]. Z.div_mod_to_equations. lia.
Qed.

Abbreviation dst := (dtb_dst BASE SIZE dtb).

(** The tree's own idea of its size. *)
Definition dtb_total : Z := be_load 4 (fun i => nth (Z.to_nat i) dtb 0).

Lemma be_load_ext a b m m' : (forall i, 0 <= i < 4 -> m (a + i) = m' (b + i)) -> be_load a m = be_load b m'.
Proof.
  intros H. unfold be_load. rewrite (H 1), (H 2), (H 3) by lia.
  pose proof (H 0 ltac:(lia)) as H0. rewrite !Z.add_0_r in H0. by rewrite H0.
Qed.

(** Four bytes, most significant first. *)
Lemma be_pack p q r t : 0 <= p < 2 ^ 8 -> 0 <= q < 2 ^ 8 -> 0 <= r < 2 ^ 8 -> 0 <= t < 2 ^ 8 ->
  u32 (p .<< 24) .| (q .<< 16) .| (r .<< 8) .| t = p * 2 ^ 24 + q * 2 ^ 16 + r * 2 ^ 8 + t.
Proof.
  intros. rewrite !Z.shiftl_mul_pow2 by lia. rewrite wrap_small by (unfold fits; lia).
  rewrite (lor_hi_lo (p * _) _ 24) by (unfold fits; Z.div_mod_to_equations; lia).
  rewrite (lor_hi_lo (_ + _) _ 16) by (unfold fits; Z.div_mod_to_equations; lia).
  rewrite (lor_hi_lo (_ + _) _ 8) by (unfold fits; Z.div_mod_to_equations; lia). done.
Qed.

Lemma be_round v m a : fits 32 v -> 0 <= a -> a + 4 < 2 ^ 64 -> be_load a (be_store a v m) = v.
Proof.
  intros Hv Ha Ht. unfold be_load, be_store.
  rewrite !store_in by (rewrite ?zlen4; unfold fits; lia). rewrite zlen4.
  assert (forall i, 0 <= i < 4 -> (a <=? a + i) && (a + i <? a + 4) = true) as Hin by (intros; zcases; done).
  pose proof (Hin 0 ltac:(lia)) as H0. rewrite !Z.add_0_r in H0. rewrite H0, !Hin by lia.
  rewrite Z.sub_diag, !Z.add_simpl_l.
  change (Z.to_nat 0) with 0%nat. change (Z.to_nat 1) with 1%nat. change (Z.to_nat 2) with 2%nat. change (Z.to_nat 3) with 3%nat.
  cbn [nth].
  unfold fits in Hv. rewrite be_pack by (apply wrap_range; lia).
  unfold wrap. rewrite !Z.shiftr_div_pow2 by lia. Z.div_mod_to_equations. lia.
Qed.

Lemma copy_dtb_outside m x : 8 <= zlen dtb -> 0 <= dtb_total <= zlen dtb -> fits 64 x -> (x < dst \/ ALT <= x) ->
  copy_dtb BASE SIZE dtb m x = m x.
Proof.
  pose proof layout_eq as [E1 E2]. pose proof dtb_dst_spec as (D1 & D2 & _). unfold dtb_slack in D2.
  intros Hlen Htot Hx Hout. unfold copy_dtb.
  assert (be_load (dst + 4) (store dst dtb m) = dtb_total) as ->.
  { apply be_load_ext. intros i Hi. rewrite store_in by (try unfold fits; lia).
    destruct (Z.leb_spec dst (dst + 4 + i)); [|lia]. destruct (Z.ltb_spec (dst + 4 + i) (dst + zlen dtb)); [|lia].
    cbn [andb]. f_equal. lia. }
  assert (zlen (replicate (Z.to_nat dtb_slack) 0) = 4096) as Hz by reflexivity.
  unfold be_store. rewrite store_in by (done || (rewrite ?zlen4; lia)).
  rewrite store_in by (done || rewrite ?Hz; lia). rewrite store_in by (done || lia).
  rewrite zlen4, Hz. zcases; done.
Qed.

(** Eight bytes at a time, from the alternate to the scratch. *)
Lemma memcpy_ok k : forall fuel m, (0 < k)%nat -> (k <= fuel)%nat -> Z.of_nat k * 8 <= 0x8000 ->
  exists m', boot_rom_memcpy fuel (END - Z.of_nat k * 8) END (ALT + 0x8000 - Z.of_nat k * 8) m = Ret m' /\
    forall x, fits 64 x -> m' x = if (END - Z.of_nat k * 8 <=? x) && (x <? END) then m (x - BASE + ALT) else m x.
Proof.
  pose proof layout_eq as [E1 E2].
  induction k as [|k IH]; intros fuel m Hk Hf H8; [lia|]. destruct fuel as [|fuel]; [lia|]. cbn [boot_rom_memcpy].
  rewrite !wrap_small by (unfold fits; lia).
  set (t0 := END - Z.of_nat (S k) * 8). set (t2 := ALT + 0x8000 - Z.of_nat (S k) * 8).
  set (m1 := store t0 (load 8 t2 m) m).
  assert (forall x, fits 64 x -> m1 x = if (t0 <=? x) && (x <? t0 + 8) then m (x - BASE + ALT) else m x) as Hm1.
  { intros x Hx. unfold m1. assert (zlen (load 8 t2 m) = 8) as Hl by done.
    rewrite store_in by (done || lia). rewrite Hl. destruct (Z.leb_spec t0 x), (Z.ltb_spec x (t0 + 8)); cbn [andb]; try done.
    unfold load. rewrite nth_lookup. change (map ?f ?l) with (f <$> l). rewrite list_lookup_fmap.
    rewrite lookup_seqZ_lt by lia. cbn. rewrite wrap_small by (unfold fits; lia). f_equal. lia. }
  destruct (Z.eqb_spec (t0 + 8) END) as [Et|Et].
  - assert (k = 0%nat) as -> by lia. exists m1. split; [done|]. intros x Hx. rewrite Hm1 by done. by rewrite Et.
  - destruct (IH fuel m1 ltac:(lia) ltac:(lia) ltac:(lia)) as (m' & E & Hm').
    replace (END - Z.of_nat k * 8) with (t0 + 8) in E, Hm' by lia.
    replace (ALT + 0x8000 - Z.of_nat k * 8) with (t2 + 8) in E by lia.
    exists m'. split; [done|]. intros x Hx. rewrite Hm' by done.
    destruct (Z.leb_spec (t0 + 8) x), (Z.ltb_spec x END), (Z.leb_spec t0 x); cbn [andb]; try lia.
    all: rewrite Hm1 by (done || (unfold fits in *; lia)); zcases; done || lia.
Qed.

Lemma copy_dtb_inside m : 8 <= zlen dtb -> dtb_total = zlen dtb ->
  (forall i, 0 <= i < zlen dtb -> ~ 4 <= i < 8 -> copy_dtb BASE SIZE dtb m (dst + i) = nth (Z.to_nat i) dtb 0) /\
  be_load (dst + 4) (copy_dtb BASE SIZE dtb m) = zlen dtb + dtb_slack.
Proof.
  pose proof layout_eq as [E1 E2]. pose proof dtb_dst_spec as (D1 & D2 & _). unfold dtb_slack in *.
  intros Hlen Htot. unfold copy_dtb.
  assert (be_load (dst + 4) (store dst dtb m) = zlen dtb) as ->.
  { rewrite <-Htot. apply be_load_ext. intros i Hi. rewrite store_in by (try unfold fits; lia).
    destruct (Z.leb_spec dst (dst + 4 + i)); [|lia]. destruct (Z.ltb_spec (dst + 4 + i) (dst + zlen dtb)); [|lia].
    cbn [andb]. f_equal. lia. }
  unfold dtb_slack. rewrite (wrap_small 32) by (unfold fits; lia). split.
  - intros i Hi Hn. assert (zlen (replicate (Z.to_nat 4096) 0) = 4096) as Hz by reflexivity.
    unfold be_store. rewrite store_in by (rewrite ?zlen4; unfold fits; lia). rewrite zlen4.
    replace ((dst + 4 <=? dst + i) && (dst + i <? dst + 4 + 4)) with false by (zcases; done).
    rewrite store_in by (unfold fits; rewrite ?Hz; lia). rewrite Hz.
    replace ((dst + zlen dtb <=? dst + i) && (dst + i <? dst + zlen dtb + 4096)) with false by (zcases; done).
    rewrite store_in by (unfold fits; lia). replace ((dst <=? dst + i) && (dst + i <? dst + zlen dtb)) with true by (zcases; done).
    f_equal. lia.
  - apply be_round; [unfold fits; lia|lia|lia].
Qed.

(** ** The whole load *)

Definition phoff : Z := field 32 8.
Definition phentsize : Z := field 54 2.
Definition phnum : Z := field 56 2.
Definition elf_segments : list segment := segments (Z.to_nat phnum) phoff phentsize 0.

(** A 64-bit little-endian ELF whose loadable segments lie between the start of RAM and the
    place of the device tree, with at least one that ends above the start of RAM. *)
Record elf_ok : Prop := {
  elf_len : 64 <= zlen file < 2 ^ 64;
  elf_magic : take 6 file = [0x7f; 69; 76; 70; 2; 1];
  elf_headers : forall j, 0 <= j < phnum -> header_ok dst (phoff + j * phentsize);
  elf_loads : exists g, In g elf_segments /\ BASE <= sg_vaddr g + sg_memsz g }.

Lemma new_end_bound lim gs : forall e, e <= lim -> Forall (fun g => sg_vaddr g + sg_memsz g <= lim) gs ->
  e <= foldl new_end e gs <= lim.
Proof.
  induction gs as [|g gs IH]; intros e He Hg; cbn; [lia|]. inversion Hg; subst.
  specialize (IH (new_end e g) ltac:(unfold new_end; lia) ltac:(done)). unfold new_end in *. lia.
Qed.

Lemma new_end_ge gs g : forall e, In g gs -> sg_vaddr g + sg_memsz g <= foldl new_end e gs.
Proof.
  induction gs as [|h gs IH]; intros e Hin; [done|]. cbn. destruct Hin as [->|Hin]; [|by apply IH].
  assert (forall l a, a <= foldl new_end a l) as Hmono.
  { induction l as [|x l IHl]; intros a; cbn; [lia|]. specialize (IHl (new_end a x)). unfold new_end in *. lia. }
  specialize (Hmono gs (new_end e g)). unfold new_end in *. lia.
Qed.

Lemma segments_in lim n po pe : forall i, (forall j, i <= j < i + Z.of_nat n -> header_ok lim (po + j * pe)) ->
  Forall (fun g => sg_vaddr g + sg_memsz g <= lim) (segments n po pe i).
Proof.
  induction n as [|n IH]; intros i H; [constructor|]. cbn. apply Forall_app. split.
  - destruct (H i ltac:(lia)) as (_ & _ & Hg). destruct (header _) as [g|]; [|constructor].
    constructor; [|constructor]. by destruct (Hg g eq_refl) as (_ & ? & _).
  - apply IH. intros. apply H. lia.
Qed.

(** Reading the file header: the entry point and the table of program headers. *)
Lemma elf_header s : elf_ok -> exists s1, at_pos s1 58 /\ mem s1 = mem s /\ alt_mem s1 = alt_mem s /\
  forall fuel, download BASE SIZE dtb fuel s = (r ← load_segments BASE SIZE fuel (Z.to_nat phnum) phoff phentsize 0 0;
    match r with
    | None => mret Failed
    | Some load_end =>
        close;; f ← failed; if f : bool then mret Failed else
        f ← fail_if ((load_end <? BASE) || (load_end >? dst)) ERR_SEGMENT_ADDR;
        if f : bool then mret Failed else
        m ← gets mem; set_mem (copy_dtb BASE SIZE dtb m);;
        alt ← gets alt_mem;
        (if alt : bool then m ← gets mem; m ← lift (boot_rom_memcpy fuel BASE END ALT m); set_mem m else mret tt);;
        mret (Jump (field 24 8) dst)
    end) s1.
Proof.
  intros [Hlen Hmag _ _]. destruct (ok_open Hfs (fd s)) as (f0 & Eo & A0).
  set (s0 := Rom f0 0 (mem s) (alt_mem s)). assert (at_pos s0 0) as P0 by (by split).
  destruct (read_spec s0 0 6 P0 ltac:(lia) ltac:(lia) ltac:(lia)) as (sa & La & Pa & Ma & Ta & _).
  destruct (lseek_spec sa _ 24 Pa ltac:(lia)) as (sb & Lb & Pb & Mb & Tb).
  destruct (read_num_spec sb 24 8 Pb ltac:(lia) ltac:(lia) ltac:(lia)) as (sc & Lc & Pc & Mc & Tc).
  destruct (read_num_spec sc 32 8 Pc ltac:(lia) ltac:(lia) ltac:(lia)) as (sd & Ld & Pd & Md & Td).
  destruct (lseek_spec sd _ (40 + 14) Pd ltac:(lia)) as (se & Le & Pe & Me & Te).
  destruct (read_num_spec se 54 2 Pe ltac:(lia) ltac:(lia) ltac:(lia)) as (sf & Lf & Pf & Mf & Tf).
  destruct (read_num_spec sf 56 2 Pf ltac:(lia) ltac:(lia) ltac:(lia)) as (sg & Lg & Pg & Mg & Tg).
  pose proof (field_range 54 2 ltac:(lia) ltac:(lia) ltac:(lia)) as R54.
  pose proof (field_range 56 2 ltac:(lia) ltac:(lia) ltac:(lia)) as R56.
  exists sg. split; [done|]. split; [cbn in *; congruence|]. split; [cbn in *; congruence|]. intros fuel.
  unfold download. rewrite (bind_ret open_ _ s tt s0) by (unfold open_; by rewrite Eo).
  rewrite (bind_ret _ _ _ _ _ (failed_spec _ _ P0)), (bind_ret _ _ _ _ _ La), (bind_ret _ _ _ _ _ (failed_spec _ _ Pa)).
  change (Z.to_nat 6) with 6%nat. change (drop (Z.to_nat 0) file) with file. rewrite Hmag. cbn [nth].
  do 4 (rewrite (bind_ret (fail_if _ _) _ sa false sa) by done).
  rewrite (bind_ret _ _ _ _ _ Lb). unfold read_addr. rewrite (bind_ret _ _ _ _ _ Lc), (bind_ret _ _ _ _ _ Ld).
  rewrite (bind_ret _ _ _ _ _ (failed_spec _ _ Pd)).
  rewrite (bind_ret (gets _) _ sd 40 sd) by (unfold gets; by rewrite (ok_tell Hfs _ _ (proj1 Pd))).
  rewrite (bind_ret _ _ _ _ _ Le). unfold read_uint16.
  rewrite (bind_ret (v ← read_num 2; mret (u16 v)) _ se phentsize sf)
    by (rewrite (bind_ret _ _ _ _ _ Lf), wrap_small by (unfold fits; lia); done).
  rewrite (bind_ret (v ← read_num 2; mret (u16 v)) _ sf phnum sg)
    by (rewrite (bind_ret _ _ _ _ _ Lg), wrap_small by (unfold fits; lia); done).
  by rewrite (bind_ret _ _ _ _ _ (failed_spec _ _ Pg)).
Qed.

Lemma download_ok fuel s : elf_ok -> 8 <= zlen dtb -> dtb_total = zlen dtb -> SIZE <= Z.of_nat fuel -> alt_mem s = false ->
  exists s', download BASE SIZE dtb fuel s = Ret (Jump (field 24 8) dst, s') /\
    (forall x b, image elf_segments x = Some b -> mem s' x = b) /\
    (forall i, 0 <= i < zlen dtb -> ~ 4 <= i < 8 -> mem s' (dst + i) = nth (Z.to_nat i) dtb 0) /\
    be_load (dst + 4) (mem s') = zlen dtb + dtb_slack.
Proof.
  pose proof layout_eq as [E1 E2]. pose proof dtb_dst_spec as (D1 & D2 & _). pose proof (zlen_nonneg dtb). unfold dtb_slack in D2.
  intros Helf Hd8 Htot Hfuel Halt. destruct (elf_header s Helf) as (s1 & P1 & M1 & T1 & ->).
  destruct Helf as [Hlen _ Hhdr (g & Hg & Hgb)].
  pose proof (field_range 32 8 ltac:(lia) ltac:(lia) ltac:(lia)) as R32.
  pose proof (field_range 54 2 ltac:(lia) ltac:(lia) ltac:(lia)) as R54.
  pose proof (field_range 56 2 ltac:(lia) ltac:(lia) ltac:(lia)) as R56.
  destruct (load_segments_ok fuel dst phoff phentsize (Z.to_nat phnum) ltac:(lia) Hfuel ltac:(unfold phoff; lia) ltac:(unfold phentsize; lia) ltac:(lia)
    0 0 (fun _ => None) s1 58 ltac:(lia) ltac:(intros j Hj; apply Hhdr; unfold phnum in *; lia) P1 ltac:(lia) ltac:(done))
    as (s2 & p2 & L2 & P2 & I2).
  rewrite (bind_ret _ _ _ _ _ L2). fold elf_segments in *. set (le_ := foldl new_end 0 elf_segments) in *.
  assert (BASE <= le_ <= dst) as Hle.
  { split; [pose proof (new_end_ge elf_segments g 0 Hg); lia|].
    apply new_end_bound; [lia|]. apply segments_in. intros j Hj. apply Hhdr. unfold phnum in *. lia. }
  destruct (ok_close Hfs _ _ (proj1 P2)) as (f3 & Ec). set (s3 := Rom f3 0 (mem s2) (alt_mem s2)).
  rewrite (bind_ret close _ s2 tt s3) by (unfold close; by rewrite Ec).
  rewrite (bind_ret failed _ s3 false s3) by done.
  rewrite (bind_ret (fail_if _ _) _ s3 false s3)
    by (rewrite Z.gtb_ltb; destruct (Z.ltb_spec le_ BASE); [lia|]; by destruct (Z.ltb_spec dst le_); [lia|]).
  rewrite (bind_ret (gets mem) _ s3 (mem s2) s3) by done.
  set (m4 := copy_dtb BASE SIZE dtb (mem s2)). set (s4 := Rom f3 0 m4 (alt_mem s2)).
  rewrite (bind_ret (set_mem _) _ s3 tt s4) by done. rewrite (bind_ret (gets alt_mem) _ s4 (alt_mem s2) s4) by done.
  destruct (copy_dtb_inside (mem s2) Hd8 Htot) as [Din Dtot]. fold m4 in Din, Dtot.
  assert (forall x, fits 64 x -> x < dst \/ ALT <= x -> m4 x = mem s2 x) as Hm4
    by (intros; apply copy_dtb_outside; done || lia).
  destruct (memcpy_ok 4096 fuel m4 ltac:(lia) ltac:(lia) ltac:(lia)) as (m5 & L5 & Hm5).
  replace (END - Z.of_nat 4096 * 8) with BASE in L5, Hm5 by lia. replace (ALT + 0x8000 - Z.of_nat 4096 * 8) with ALT in L5 by lia.
  destruct (alt_mem s2) eqn:Ealt.
  - set (s5 := Rom f3 0 m5 true). exists s5. split; [|split; [|split]].
    + rewrite (bind_ret (_ ← gets mem; _) _ s4 tt s5); [done|].
      rewrite (bind_ret (gets mem) _ s4 m4 s4) by done. rewrite (bind_ret (lift _) _ s4 m5 s4) by (unfold lift; by rewrite L5). done.
    + intros x b Hx. destruct (I2 x b Hx) as (Hr & Hb & _). cbn. rewrite Hm5 by (unfold fits; lia).
      unfold alias in Hb. destruct (Z.leb_spec BASE x); [|lia]. destruct (Z.ltb_spec x END); cbn [andb];
        rewrite Hm4 by (unfold fits; lia); done.
    + intros i Hi Hn. cbn. rewrite Hm5 by (unfold fits; lia). destruct (Z.ltb_spec (dst + i) END); [lia|]. rewrite andb_false_r. by apply Din.
    + cbn. rewrite <-Dtot. apply be_load_ext. intros i Hi. rewrite Hm5 by (unfold fits; lia).
      destruct (Z.ltb_spec (dst + 4 + i) END); [lia|]. by rewrite andb_false_r.
  - exists s4. split; [done|]. split; [|by split]. intros x b Hx. destruct (I2 x b Hx) as (Hr & Hb & Ht). cbn.
    unfold alias in Hb. destruct (Z.ltb_spec x END) as [Hlt|]; [by specialize (Ht Hlt)|].
    by rewrite Hm4 by (unfold fits; lia).
Qed.
End rom.

(** ** The properties *)

(** C2. A well-formed ELF on a card without errors is loaded whole.  [download] terminates and
    jumps to the file's entry point with the device tree's copy in a1; at that moment every
    byte of every loadable segment (the file's bytes, then zeros up to the memory size, a
    later segment winning) is at its virtual address, including what fell on the ROM's own
    scratch, and the device tree is in RAM above the image, its totalsize raised by the
    slack. *)
Theorem download_loads BASE SIZE dtb {F} {HF : Fs F} file at_ fuel (s : rom (F:=F)) :
  0 <= BASE -> 0x40000 <= SIZE -> BASE + SIZE < 2 ^ 64 -> 8 <= zlen dtb <= 0x10000 -> dtb_total dtb = zlen dtb ->
  fs_ok file at_ -> Forall (fun b => 0 <= b < 256) file -> elf_ok BASE SIZE dtb file ->
  SIZE <= Z.of_nat fuel -> alt_mem s = false ->
  exists s', download BASE SIZE dtb fuel s = Ret (Jump (field file 24 8) (dtb_dst BASE SIZE dtb), s') /\
    (forall x b, image file (elf_segments file) x = Some b -> mem s' x = b) /\
    (forall i, 0 <= i < zlen dtb -> ~ 4 <= i < 8 -> mem s' (dtb_dst BASE SIZE dtb + i) = nth (Z.to_nat i) dtb 0) /\
    be_load (dtb_dst BASE SIZE dtb + 4) (mem s') = zlen dtb + dtb_slack.
Proof.
  intros Hb Hs Ht [Hd8 Hd] Htot Hfs Hby Helf Hf Ha. by eapply (download_ok BASE SIZE dtb Hb Hs Ht Hd).
Qed.

(** The RAM check on a segment accepts what fits in RAM, and also, because the end address is
    computed in 64 bits, every segment so long that its end wraps past zero to at most the
    end of RAM: such a segment starts in or above RAM and runs through the whole address
    space. *)
Theorem segment_check_exact BASE SIZE v m :
  0 <= BASE -> 0 <= SIZE -> BASE + SIZE < 2 ^ 64 -> fits 64 v -> fits 64 m ->
  segment_ok BASE SIZE v m = true <->
  BASE <= v /\ (v + m <= BASE + SIZE \/ 2 ^ 64 <= v + m <= 2 ^ 64 + (BASE + SIZE)).
Proof.
  unfold fits. intros Hb Hs Ht Hv Hm. unfold segment_ok. rewrite negb_true_iff, orb_false_iff, Z.gtb_ltb, !Z.ltb_ge.
  destruct (wrap_add_cases 64 v m) as [[H ->]|[H ->]]; lia.
Qed.

(** ** A card in memory *)

(** The state is the position in [file]. *)
#[export] Instance card (file : list Z) : Fs Z := {
  f_open p := (0, 0);
  f_read p n := (0, take (Z.to_nat n) (drop (Z.to_nat p) file), p + zlen (take (Z.to_nat n) (drop (Z.to_nat p) file)));
  f_lseek p q := (0, Z.min q (zlen file));
  f_tell p := p;
  f_close p := (0, p) }.

Lemma card_ok file : fs_ok (HF := card file) file eq.
Proof.
  constructor; cbn.
  - intros f. by exists 0.
  - intros f p n <- Hn. by eexists.
  - intros f p q _ Hq. eexists. split; [reflexivity|]. by rewrite Z.min_l by lia.
  - done.
  - intros f p _. by eexists.
Qed.

Definition u64_le (x : Z) : list Z := map (fun i => (x .>> (8 * i)) .& 0xFF) (seqZ 0 8).

(** One segment of 8 file bytes and 16 in memory, on the scratch of the ROM. *)
Definition ex_elf : list Z :=
  [0x7f; 69; 76; 70; 2; 1] ++ replicate 18 0 ++ u64_le 0x80000100 ++ u64_le 64 ++ replicate 14 0 ++ [56; 0; 1; 0]
  ++ replicate 6 0
  ++ [1; 0; 0; 0; 5; 0; 0; 0] ++ u64_le 120 ++ u64_le 0x80000100 ++ u64_le 0x80000100 ++ u64_le 8 ++ u64_le 16 ++ u64_le 8
  ++ [11; 22; 33; 44; 55; 66; 77; 88].
Definition ex_dtb : list Z := [0xd0; 0x0d; 0xfe; 0xed; 0; 0; 0; 16] ++ replicate 8 7.
Definition ex_rom : rom (F := Z) := Rom 0 0 (fun _ => 170) false.

Lemma ex_segments : elf_segments ex_elf = [Segment 120 0x80000100 8 16].
Proof. vm_compute. reflexivity. Qed.

Lemma ex_elf_ok : elf_ok 0x80000000 0x40000 ex_dtb ex_elf.
Proof.
  constructor.
  - vm_compute. split; [discriminate|reflexivity].
  - reflexivity.
  - intros j Hj. assert (phnum ex_elf = 1) as E by (vm_compute; reflexivity). rewrite E in Hj. assert (j = 0) as -> by lia.
    split; [vm_compute; discriminate|]. split; [vm_compute; discriminate|]. intros g Hg. vm_compute in Hg. injection Hg as <-.
    vm_compute. repeat split; discriminate.
  - rewrite ex_segments. eexists. split; [by left|]. vm_compute. discriminate.
Qed.

Lemma download_loads_witness : exists s',
  download (HF := card ex_elf) 0x80000000 0x40000 ex_dtb (Z.to_nat 0x40000) ex_rom = Ret (Jump 0x80000100 0x80034000, s') /\
  mem s' 0x80000100 = 11 /\ mem s' 0x80000108 = 0.
Proof.
  destruct (download_loads (HF := card ex_elf) 0x80000000 0x40000 ex_dtb ex_elf eq (Z.to_nat 0x40000) ex_rom)
    as (s' & E & Him & _); [lia|lia|lia|vm_compute; split; discriminate|vm_compute; reflexivity|apply card_ok| |apply ex_elf_ok|lia|reflexivity|].
  - repeat (constructor; [vm_compute; split; [discriminate|reflexivity]|]). constructor.
  - exists s'. split; [|split].
    + replace (field ex_elf 24 8) with 0x80000100 in E by (vm_compute; reflexivity).
      replace (dtb_dst 0x80000000 0x40000 ex_dtb) with 0x80034000 in E by (vm_compute; reflexivity). exact E.
    + apply Him. rewrite ex_segments. vm_compute. reflexivity.
    + apply Him. rewrite ex_segments. vm_compute. reflexivity.
Defined.

(** A segment that starts at the first byte above RAM and is accepted. *)
Lemma segment_check_exact_witness :
  segment_ok 0x80000000 0x40000 0x80040000 (2 ^ 64 - 0x40000) = true /\ ~ 0x80040000 < 0x80000000 + 0x40000.
Proof.
  split; [|lia]. apply (segment_check_exact 0x80000000 0x40000 0x80040000 (2 ^ 64 - 0x40000)); unfold fits; lia.
Defined.
