(* ===== verification/Htif.v ===== *)
(** * The host mailbox (soctglue/src/syscall-htif.c)

    A simulated board makes its system calls through two words of memory, tohost and fromhost,
    that the front-end server on the host polls.  Every hart has the same two words, so a call
    holds a spinlock (soctglue/include/spinlock.h) from the request to the reply.  The server's
    side is the loop of risc-v-isa-sim/fesvr/htif.hpp with the commands of device.hpp and
    syscall_device.cpp.

    Harts and server are one step machine: each step is one access to a shared word (a fence or
    the lock's ordering stands between any two that matter), [run] executes a schedule, and
    everything below is about all schedules. *)
From S2P Require Import Prelude.

Definition SOCT_HTIF_DEV_SHIFT : Z := 56.
Definition SOCT_HTIF_DEV_MASK : Z := 0xff.
Definition SOCT_HTIF_CMD_SHIFT : Z := 48.
Definition SOCT_HTIF_CMD_MASK : Z := 0xff.
Definition SOCT_HTIF_PAYLOAD_MASK : Z := (1 .<< SOCT_HTIF_CMD_SHIFT) - 1.
Definition SOCT_HTIF_PROBE_TIMEOUT_CYCLES : Z := 100000.
Definition SOCT_HTIF_DEV_TEST : Z := 2012.

(** A shift of an int.  C leaves a count of 32 or more undefined; this is RISC-V's sllw. *)
Definition shl_int (x n : Z) : Z := s32 (u32 (x .<< (n mod 32))).

Definition htif_tohost (dev cmd payload : Z) : Z :=
  u64 (shl_int (u8 dev .& SOCT_HTIF_DEV_MASK) SOCT_HTIF_DEV_SHIFT .| shl_int (u8 cmd .& SOCT_HTIF_CMD_MASK) SOCT_HTIF_CMD_SHIFT)
  .| (payload .& SOCT_HTIF_PAYLOAD_MASK).

(** ** The request blocks: eight 64-bit words on the caller's stack, by their addresses *)

Definition words_at (m : Z -> Z) (a : Z) : list Z := map (fun i => m (a + 8 * i)) (seqZ 0 8).
Definition put_words (a : Z) (ws : list Z) (m : Z -> Z) : Z -> Z := fun x =>
  if (a <=? x) && (x <? a + 8 * zlen ws) then nth (Z.to_nat ((x - a) / 8)) ws 0 else m x.

(** A call of [htif_syscall]: the block and what the caller put in it, whether it waits for
    ever, and the cycle counter it read first. *)
Record call := Call { addr : Z; block : list Z; wait : bool; start : Z }.

(** Where a hart is: outside, or before the step named. *)
Inductive pc :=
| Out
| Look (c : call) | Swap (c : call)
| Post (c : call)
| Wait (c : call) | Clock (c : call)
| Take (c : call)
| Unlock (c : call) (ok : bool)
| Reply (c : call) (ok : bool).

(** Where the server is in its loop; [Halt] is after the loop ended or an exception left it. *)
Inductive spc := Poll | Clear (v : Z) | Fetch (v : Z) | Serve (v : Z) (ws : list Z) | Deliver | Put | Halt.

(** A system call the server executed: the block, its words, the result. *)
Record served := Served { s_addr : Z; s_block : list Z; s_res : Z }.

Section mailbox.
(** The server's system calls on what they act on: [None] is one it does not implement (it
    throws); [exited] is whether the exit code was set. *)
Context {HS : Type} (syscall_table : Z -> list Z -> HS -> option (Z * HS)) (exited : HS -> bool).
(** The stack of each hart. *)
Context (lo hi : nat -> Z).

(** The shared words, memory, where everyone is, the server's queue and state.  The rest is a
    record of what happened: the calls served, what each hart's calls returned, and how many
    callers gave up. *)
Record world := World {
  lock : Z; tohost : Z; fromhost : Z; mem : Z -> Z; hart : nat -> pc;
  server : spc; queue : list Z; host : HS;
  ran : list served; rets : nat -> list (list Z * Z); given_up : nat }.

Definition at_ (h : nat) (p : pc) (w : world) : world :=
  World (lock w) (tohost w) (fromhost w) (mem w) (fun h' => if (h' =? h)%nat then p else hart w h') (server w) (queue w) (host w) (ran w) (rets w) (given_up w).
Definition set_lock l w := World l (tohost w) (fromhost w) (mem w) (hart w) (server w) (queue w) (host w) (ran w) (rets w) (given_up w).
Definition set_tohost x w := World (lock w) x (fromhost w) (mem w) (hart w) (server w) (queue w) (host w) (ran w) (rets w) (given_up w).
Definition set_fromhost x w := World (lock w) (tohost w) x (mem w) (hart w) (server w) (queue w) (host w) (ran w) (rets w) (given_up w).
Definition set_words m w := World (lock w) (tohost w) (fromhost w) m (hart w) (server w) (queue w) (host w) (ran w) (rets w) (given_up w).
Definition set_server p w := World (lock w) (tohost w) (fromhost w) (mem w) (hart w) p (queue w) (host w) (ran w) (rets w) (given_up w).
Definition set_queue q w := World (lock w) (tohost w) (fromhost w) (mem w) (hart w) (server w) q (host w) (ran w) (rets w) (given_up w).
Definition set_host s l w := World (lock w) (tohost w) (fromhost w) (mem w) (hart w) (server w) (queue w) s (ran w ++ [l]) (rets w) (given_up w).
Definition add_ret h r w := World (lock w) (tohost w) (fromhost w) (mem w) (hart w) (server w) (queue w) (host w) (ran w)
  (fun h' => if (h' =? h)%nat then rets w h' ++ [r] else rets w h') (given_up w).
Definition abandon w := World (lock w) (tohost w) (fromhost w) (mem w) (hart w) (server w) (queue w) (host w) (ran w) (rets w) (S (given_up w)).

(** ** The hart *)

(** The beginning of a call: a block of eight words on the hart's own stack. *)
Definition call_ok (h : nat) (c : call) : bool :=
  (lo h <=? addr c) && (addr c + 64 <=? hi h) && (addr c mod 8 =? 0) && (length (block c) =? 8)%nat.
Definition begin_call (h : nat) (c : call) (w : world) : world :=
  match hart w h with
  | Out => if call_ok h c then at_ h (Look c) (set_words (put_words (addr c) (block c) (mem w)) w) else w
  | _ => w
  end.

(** [htif_syscall], one access at a time; [now] is what the cycle counter says.  At the end
    the block's first word is the call's result. *)
Definition hart_step (h : nat) (now : Z) (w : world) : world :=
  match hart w h with
  | Out => w
  | Look c => if lock w =? 0 then at_ h (Swap c) w else w
  | Swap c => at_ h (if lock w =? 0 then Post c else Look c) (set_lock (-1) w)
  | Post c => at_ h (Wait c) (set_tohost (htif_tohost 0 0 (addr c)) w)
  | Wait c =>
      if fromhost w =? 0 then if wait c then w else at_ h (Clock c) w
      else at_ h (Take c) w
  | Clock c =>
      if u64 (now - start c) >? SOCT_HTIF_PROBE_TIMEOUT_CYCLES then at_ h (Unlock c false) (abandon w)
      else at_ h (Wait c) w
  | Take c => at_ h (Unlock c true) (set_fromhost 0 w)
  | Unlock c ok => at_ h (Reply c ok) (set_lock 0 w)
  | Reply c ok => at_ h Out (if ok then add_ret h (block c, s64 (mem w (addr c))) w else w)
  end.

(** ** The server *)

Definition device (v : Z) : Z := u8 (v .>> 56).
Definition cmd (v : Z) : Z := u8 (v .>> 48).
Definition payload (v : Z) : Z := u64 (v .<< 16) .>> 16.
Definition respond (v resp : Z) : Z := u64 ((v .>> 48) .<< 48) .| (u64 (resp .<< 16) .>> 16).

Definition loop_end (w : world) : world := set_server (if exited (host w) then Halt else Poll) w.

(** [htif_t::run]; one device, the system calls, with one command, 0. *)
Definition server_step (w : world) : world :=
  match server w with
  | Poll => set_server (if tohost w =? 0 then Deliver else Clear (tohost w)) w
  | Clear v => set_server (if negb (device v =? 0) then Deliver else if negb (cmd v =? 0) then Halt else Fetch v) (set_tohost 0 w)
  | Fetch v => set_server (Serve v (words_at (mem w) (payload v))) w
  | Serve v ws =>
      match syscall_table (u32 (hd 0 ws)) (tl ws) (host w) with
      | None => set_server Halt w
      | Some (r, s) =>
          set_server Deliver (set_queue (queue w ++ [respond v 1])
            (set_host s (Served (payload v) ws (s64 (u64 r))) (set_words (put_words (payload v) (u64 r :: tl ws) (mem w)) w)))
      end
  | Deliver => if negb (bool_decide (queue w = [])) && (fromhost w =? 0) then set_server Put w else loop_end w
  | Put => loop_end (set_queue (tl (queue w)) (set_fromhost (hd 0 (queue w)) w))
  | Halt => w
  end.

(** ** Schedules *)

Inductive event := Begin (h : nat) (c : call) | Hart (h : nat) (now : Z) | Server.
Definition step (e : event) (w : world) : world :=
  match e with Begin h c => begin_call h c w | Hart h now => hart_step h now w | Server => server_step w end.
Definition run (es : list event) (w : world) : world := foldl (fun w e => step e w) w es.

Definition boot (m : Z -> Z) (s : HS) : world := World 0 0 0 m (fun _ => Out) Poll [] s [] (fun _ => []) 0.

(** ** The specification *)

(** Between taking the lock and releasing it. *)
Definition locked (p : pc) : bool :=
  match p with Post _ | Wait _ | Clock _ | Take _ | Unlock _ _ => true | _ => false end.

(** The calls of hart [h] among those served, with their results. *)
Definition mine (h : nat) (s : served) : bool := (lo h <=? s_addr s) && (s_addr s <? hi h).
Definition served_for (h : nat) (l : list served) : list (list Z * Z) :=
  map (fun s => (s_block s, s_res s)) (filter (fun s => mine h s = true) l).

(** One caller after the other. *)
Fixpoint serially (s : HS) (l : list served) : option HS :=
  match l with
  | [] => Some s
  | x :: l =>
      match syscall_table (u32 (hd 0 (s_block x))) (tl (s_block x)) s with
      | Some (r, s') => if s64 (u64 r) =? s_res x then serially s' l else None
      | None => None
      end
  end.
End mailbox.
Arguments World {HS}.
Arguments lock {HS} w.
Arguments tohost {HS} w.
Arguments fromhost {HS} w.
Arguments mem {HS} w.
Arguments hart {HS} w.
Arguments server {HS} w.
Arguments queue {HS} w.
Arguments host {HS} w.
Arguments ran {HS} w.
Arguments rets {HS} w.
Arguments given_up {HS} w.
