(* ===== verification/HtifProofs.v ===== *)
(** * Every call through the mailbox is served once

    The invariant of the mailbox of Htif.v under every schedule ([calls_served_once]), and that
    a served schedule ends each call ([call_returns]).  [late_reply] is what a caller that gave
    up leaves behind. *)
From S2P Require Import Prelude Htif.

Lemma tohost_syscall a : fits 48 a -> htif_tohost 0 0 a = a.
Proof.
  intros Ha. unfold htif_tohost, fits in *. change SOCT_HTIF_PAYLOAD_MASK with (Z.ones 48).
  change (u64 _) with 0. by rewrite Z.land_ones, Z.mod_small, Z.lor_0_l by lia.
Qed.

Lemma payload_syscall a : fits 48 a -> payload a = a.
Proof.
  intros Ha. unfold payload, fits in *. rewrite Z.shiftl_mul_pow2, wrap_small by (unfold fits; lia).
  rewrite Z.shiftr_div_pow2 by lia. by apply Z.div_mul.
Qed.

Lemma high_syscall a n : fits 48 a -> 48 <= n -> u8 (a .>> n) = 0.
Proof.
  intros Ha Hn. unfold fits in Ha. assert (2 ^ 48 <= 2 ^ n) by (apply Z.pow_le_mono_r; lia).
  rewrite Z.shiftr_div_pow2, Z.div_small by lia. done.
Qed.

Lemma respond_syscall a : fits 48 a -> respond a 1 = 1.
Proof.
  intros Ha. unfold respond. assert (a .>> 48 = 0) as ->; [|done]. unfold fits in Ha. rewrite Z.shiftr_div_pow2 by lia. by apply Z.div_small.
Qed.

(** ** Blocks *)

Lemma words_put a ws m : length ws = 8%nat -> words_at (put_words a ws m) a = ws.
Proof.
  intros Hl. do 8 (destruct ws as [|? ws]; [done|]). destruct ws; [|done].
  unfold words_at, put_words. change (seqZ 0 8) with [0; 1; 2; 3; 4; 5; 6; 7]. cbn [map].
  assert (forall i, 0 <= i < 8 -> (a <=? a + 8 * i) && (a + 8 * i <? a + 8 * 8) = true) as Hin by (intros; zcases; done).
  assert (forall i, (a + 8 * i - a) / 8 = i) as Hd by (intros i; replace (a + 8 * i - a) with (i * 8) by lia; by apply Z.div_mul).
  unfold zlen. cbn [length Z.of_nat]. change (Z.of_nat 8) with 8. rewrite !Hd. by rewrite !Hin by lia.
Qed.

Lemma put_words_out a ws m x : length ws = 8%nat -> x < a \/ a + 64 <= x -> put_words a ws m x = m x.
Proof. intros Hl Hx. unfold put_words, zlen. rewrite Hl. zcases. Qed.

Lemma words_out a b ws m : length ws = 8%nat -> a + 64 <= b \/ b + 64 <= a -> words_at (put_words a ws m) b = words_at m b.
Proof.
  intros Hl Hd. unfold words_at. apply map_ext_in. intros i Hi. apply list_elem_of_In, elem_of_seqZ in Hi. apply put_words_out; [done|lia].
Qed.

Lemma length_words m a : length (words_at m a) = 8%nat.
Proof. done. Qed.

Lemma first_word m m' a : words_at m a = words_at m' a -> m a = m' a.
Proof. unfold words_at. change (seqZ 0 8) with [0; 1; 2; 3; 4; 5; 6; 7]. cbn [map]. intros [= H _]. by rewrite Z.add_0_r in H. Qed.

Section mailbox.
Context {HS : Type} (syscall_table : Z -> list Z -> HS -> option (Z * HS)) (exited : HS -> bool).
Context (lo hi : nat -> Z).
(** The stacks lie below 2^48 and apart. *)
Hypothesis stacks : forall h, 0 < lo h /\ hi h < 2 ^ 48.
Hypothesis apart : forall h h', h <> h' -> hi h <= lo h' \/ hi h' <= lo h.

Abbreviation world := (world (HS := HS)).
Abbreviation step := (step syscall_table exited lo hi).
Abbreviation server_step := (server_step syscall_table exited).
Abbreviation served_for := (served_for lo hi).

Lemma served_for_snoc h l x : served_for h (l ++ [x]) = served_for h l ++ (if mine lo hi h x then [(s_block x, s_res x)] else []).
Proof. unfold Htif.served_for. rewrite filter_app, map_app. cbn [filter list_filter]. case_decide as E; [by rewrite E|]. by destruct (mine lo hi h x). Qed.

(** ** The invariant *)

Definition okc (h : nat) (c : call) : Prop := call_ok lo hi h c = true.
Lemma okc_spec h c : okc h c -> lo h <= addr c /\ addr c + 64 <= hi h /\ length (block c) = 8%nat.
Proof. unfold okc, call_ok. rewrite !andb_true_iff, Nat.eqb_eq. lia. Qed.
Lemma okc_fits h c : okc h c -> fits 48 (addr c).
Proof. intros H%okc_spec. pose proof (stacks h). unfold fits. lia. Qed.

(** A call that was not served yet, and one that was. *)
Definition fresh (w : world) (h : nat) (c : call) : Prop :=
  words_at (mem w) (addr c) = block c /\ served_for h (ran w) = rets w h.
Definition answered (w : world) (h : nat) (c : call) : Prop :=
  served_for h (ran w) = rets w h ++ [(block c, s64 (mem w (addr c)))].

Definition waiting (p : pc) : option call := match p with Wait c | Clock c | Take c => Some c | _ => None end.

Definition hart_inv (w : world) (h : nat) : Prop :=
  match hart w h with
  | Out => served_for h (ran w) = rets w h
  | Look c | Swap c | Post c => okc h c /\ fresh w h c
  | Wait c | Clock c => okc h c
  | Take c => okc h c /\ fromhost w <> 0
  | Unlock c true | Reply c true => okc h c /\ answered w h c
  | Unlock _ false | Reply _ false => False
  end.

Definition resting (p : spc) : Prop := p = Poll \/ p = Deliver \/ p = Halt.

(** The two words, the server and the call that waits for them. *)
Inductive box (w : world) : option (nat * call) -> Prop :=
| B_quiet : tohost w = 0 -> fromhost w = 0 -> queue w = [] -> resting (server w) -> box w None
| B_posted h c : tohost w = addr c -> fromhost w = 0 -> queue w = [] -> resting (server w) \/ server w = Clear (addr c) ->
    fresh w h c -> box w (Some (h, c))
| B_taken h c : tohost w = 0 -> fromhost w = 0 -> queue w = [] ->
    server w = Fetch (addr c) \/ server w = Serve (addr c) (block c) \/ server w = Halt -> fresh w h c -> box w (Some (h, c))
| B_done h c : tohost w = 0 -> fromhost w = 0 -> queue w = [1] -> server w = Deliver \/ server w = Put -> answered w h c -> box w (Some (h, c))
| B_replied h c : tohost w = 0 -> fromhost w = 1 -> queue w = [] -> resting (server w) -> answered w h c -> box w (Some (h, c)).

Record inv (s0 : HS) (w : world) : Prop := {
  i_harts : forall h, hart_inv w h;
  i_mutex : forall h h', locked (hart w h) = true -> locked (hart w h') = true -> h = h';
  i_lock : lock w = 0 /\ (forall h, locked (hart w h) = false) \/ lock w = -1 /\ exists h, locked (hart w h) = true;
  i_box : exists o, box w o /\ forall h c, waiting (hart w h) = Some c <-> o = Some (h, c);
  i_serial : serially syscall_table s0 (ran w) = Some (host w);
  i_owned : Forall (fun x => exists h, mine lo hi h x = true) (ran w) }.

Lemma inv_boot m s : inv s (boot m s).
Proof.
  constructor; try done.
  - by left.
  - exists None. split; [by constructor; unfold resting; auto|]. by intros.
Qed.

(** What a step of another hart, or of the server, must leave alone for hart [h]. *)
Definition same (h : nat) (w w' : world) : Prop :=
  (forall a, lo h <= a -> a + 64 <= hi h -> words_at (mem w') a = words_at (mem w) a) /\
  served_for h (ran w') = served_for h (ran w) /\ rets w' h = rets w h.

Lemma fresh_same w w' h c : same h w w' -> okc h c -> fresh w h c -> fresh w' h c.
Proof. intros (H1 & H2 & H3) (Ha & Hb & _)%okc_spec [F1 F2]. split; [by rewrite H1|]. by rewrite H2, H3. Qed.

Lemma answered_same w w' h c : same h w w' -> okc h c -> answered w h c -> answered w' h c.
Proof.
  intros (H1 & H2 & H3) (Ha & Hb & _)%okc_spec E. unfold answered. rewrite H2, H3.
  by rewrite (first_word (mem w') (mem w)) by (by apply H1).
Qed.

Lemma hart_inv_same w w' h : same h w w' -> hart w' h = hart w h -> (forall c, hart w h = Take c -> fromhost w <> 0 -> fromhost w' <> 0) ->
  hart_inv w h -> hart_inv w' h.
Proof.
  intros Hs Hh Hf H. unfold hart_inv in *. rewrite Hh. pose proof (fresh_same w w' h) as HF. pose proof (answered_same w w' h) as HA.
  destruct (hart w h) as [|c|c|c|c|c|c|c []|c []]; try done; try (destruct H; by eauto).
  by destruct Hs as (_ & -> & ->).
Qed.

Lemma hart_at h p (w : world) h' : hart (at_ h p w) h' = if (h' =? h)%nat then p else hart w h'.
Proof. done. Qed.

Lemma same_refl h (w w' : world) : mem w' = mem w -> ran w' = ran w -> rets w' = rets w -> same h w w'.
Proof. intros H1 H2 H3. unfold same. by rewrite H1, H2, H3. Qed.

Lemma box_same w w' o : box w o -> (forall h c, o = Some (h, c) -> okc h c /\ same h w w') ->
  tohost w' = tohost w -> fromhost w' = fromhost w -> queue w' = queue w -> server w' = server w -> box w' o.
Proof.
  intros H Hs E1 E2 E3 E4.
  destruct H as [? ? ? ?|h c ? ? ? ? F|h c ? ? ? ? F|h c ? ? ? ? A|h c ? ? ? ? A];
    [|destruct (Hs h c eq_refl) as [Ho Hs']..].
  - by constructor; rewrite ?E1, ?E2, ?E3, ?E4.
  - apply B_posted; rewrite ?E1, ?E2, ?E3, ?E4; [done..|by eapply fresh_same].
  - apply B_taken; rewrite ?E1, ?E2, ?E3, ?E4; [done..|by eapply fresh_same].
  - apply B_done; rewrite ?E1, ?E2, ?E3, ?E4; [done..|by eapply answered_same].
  - apply B_replied; rewrite ?E1, ?E2, ?E3, ?E4; [done..|by eapply answered_same].
Qed.

Lemma waiting_okc w h c : hart_inv w h -> waiting (hart w h) = Some c -> okc h c.
Proof. unfold hart_inv. destruct (hart w h); try done; cbn; [by intros ? [= <-]..|by intros [? _] [= <-]]. Qed.

Lemma waiting_locked p c : waiting p = Some c -> locked p = true.
Proof. by destruct p. Qed.

(** Hart [h] moves to [p]. *)
Lemma inv_move s0 w w' h p : inv s0 w -> hart w' = hart (at_ h p w) ->
  (locked p = true -> locked (hart w h) = true \/ lock w = 0) ->
  lock w' = (if locked p then -1 else if locked (hart w h) then 0 else lock w) ->
  hart_inv w' h -> (forall h', h' <> h -> same h' w w') -> (fromhost w <> 0 -> fromhost w' <> 0 \/ locked (hart w h) = true) ->
  (exists o, box w' o /\ forall h c, waiting (hart w' h) = Some c <-> o = Some (h, c)) ->
  ran w' = ran w -> host w' = host w -> inv s0 w'.
Proof.
  intros [Hh Hm Hl _ Hs Hown] Eh Hp El Hi Hsame Hf Hb Er Eo.
  assert (forall h', h' <> h -> hart w' h' = hart w h') as Hne.
  { intros h' Hn. rewrite Eh, hart_at. by destruct (Nat.eqb_spec h' h). }
  assert (hart w' h = p) as Hp' by (by rewrite Eh, hart_at, Nat.eqb_refl).
  assert (locked p = true -> forall h', h' <> h -> locked (hart w h') = false) as Hother.
  { intros Hlp h' Hn. destruct (Hp Hlp) as [Hlh|Hl0].
    - destruct (locked (hart w h')) eqn:E; [|done]. by destruct Hn; apply Hm.
    - destruct Hl as [[_ Hl]|[Hl _]]; [done|lia]. }
  constructor; try done.
  - intros h'. destruct (decide (h' = h)) as [->|Hn]; [done|]. eapply hart_inv_same; [by apply Hsame|by apply Hne| |done].
    intros c Ec Hf0. destruct (Hf Hf0) as [|Hlh]; [done|]. destruct Hn. apply Hm; [by rewrite Ec|done].
  - intros h1 h2 H1 H2. destruct (decide (h1 = h)) as [E1|N1], (decide (h2 = h)) as [E2|N2]; [congruence| | |].
    + subst h1. rewrite Hp' in H1. by rewrite Hne, (Hother H1 h2 N2) in H2.
    + subst h2. rewrite Hp' in H2. by rewrite Hne, (Hother H2 h1 N1) in H1.
    + rewrite !Hne in * by done. auto.
  - rewrite El. destruct (locked p) eqn:Elp; [right; split; [done|]; exists h; by rewrite Hp'|].
    destruct (locked (hart w h)) eqn:Elh.
    + left. split; [done|]. intros h'. destruct (decide (h' = h)) as [->|N]; [by rewrite Hp'|]. rewrite Hne by done.
      destruct (locked (hart w h')) eqn:E; [|done]. by destruct N; apply Hm.
    + destruct Hl as [[-> Hl]|[-> [h' Hl]]]; [left|right]; (split; [done|]).
      * intros h'. destruct (decide (h' = h)) as [->|N]; [by rewrite Hp'|]. by rewrite Hne.
      * exists h'. destruct (decide (h' = h)) as [->|N]; [congruence|]. by rewrite Hne.
  - by rewrite Er, Eo.
  - by rewrite Er.
Qed.

Lemma waiting_at h p (w w' : world) : hart w' = hart (at_ h p w) -> waiting p = waiting (hart w h) -> forall h', waiting (hart w' h') = waiting (hart w h').
Proof. intros E Hp h'. rewrite E, hart_at. by destruct (Nat.eqb_spec h' h) as [->|]. Qed.

(** A move that neither starts nor ends a wait. *)
Lemma box_move s0 w w' h p : inv s0 w -> hart w' = hart (at_ h p w) -> waiting p = waiting (hart w h) ->
  (forall h' c, waiting (hart w h') = Some c -> same h' w w') ->
  tohost w' = tohost w -> fromhost w' = fromhost w -> queue w' = queue w -> server w' = server w ->
  exists o, box w' o /\ forall h c, waiting (hart w' h) = Some c <-> o = Some (h, c).
Proof.
  intros [Hh _ _ (o & Hb & Ho) _ _] E Hp Hs E1 E2 E3 E4. exists o. split; [|intros h' c; rewrite (waiting_at h p w w' E Hp); apply Ho].
  eapply box_same; [done| |done..]. intros h' c ->. assert (waiting (hart w h') = Some c) as Hw by (by apply Ho).
  split; [|by eapply Hs]. eapply waiting_okc; [apply Hh|done].
Qed.

(** The waiting hart is the one that holds the lock. *)
Lemma box_of s0 w h : inv s0 w -> locked (hart w h) = true -> exists o, box w o /\ (forall h c, waiting (hart w h) = Some c <-> o = Some (h, c)) /\
  o = (fun c => (h, c)) <$> waiting (hart w h).
Proof.
  intros [_ Hm _ (o & Hb & Ho) _ _] Hl. exists o. split; [done|]. split; [done|]. destruct (waiting (hart w h)) as [c|] eqn:E; [by apply Ho|].
  destruct o as [[h' c]|]; [|done]. assert (waiting (hart w h') = Some c) as Hw by (by apply Ho).
  assert (h' = h) as -> by (apply Hm; [by eapply waiting_locked|done]). congruence.
Qed.

Lemma same_put a ws h h' w p : lo h <= a -> a + 64 <= hi h -> length ws = 8%nat -> h' <> h ->
  same h' w (at_ h p (set_words (put_words a ws (mem w)) w)).
Proof.
  intros Ha Hb Hl Hn. split; [|done]. intros b Hb1 Hb2. cbn. apply words_out; [done|].
  pose proof (apart h h' ltac:(auto)). lia.
Qed.

Lemma begin_inv s0 h c w : inv s0 w -> inv s0 (begin_call lo hi h c w).
Proof.
  intros I. unfold begin_call. destruct (hart w h) eqn:E; try done. destruct (call_ok lo hi h c) eqn:Hc; [|done].
  pose proof (okc_spec h c Hc) as (Ha & Hb & Hl). pose proof (i_harts _ _ I h) as Hh. unfold hart_inv in Hh. rewrite E in Hh.
  assert (forall h', h' <> h -> same h' w (at_ h (Look c) (set_words (put_words (addr c) (block c) (mem w)) w))) as Hs by (intros; by apply same_put).
  apply (inv_move s0 w _ h (Look c)); try done.
  - by rewrite E.
  - unfold hart_inv. rewrite hart_at, Nat.eqb_refl. split; [done|]. split; [by apply words_put|done].
  - by left.
  - apply (box_move s0 w _ h (Look c)); try done; [by rewrite E|]. intros h' c' Hw. apply Hs. intros ->. by rewrite E in Hw.
Qed.

(** The steps outside the mailbox. *)
Lemma inv_quiet_move s0 w l h p : inv s0 w -> waiting p = waiting (hart w h) ->
  (locked p = true -> locked (hart w h) = true \/ lock w = 0) ->
  l = (if locked p then -1 else if locked (hart w h) then 0 else lock w) ->
  (forall w' : world, mem w' = mem w -> ran w' = ran w -> rets w' = rets w -> fromhost w' = fromhost w -> hart w' h = p -> hart_inv w' h) ->
  inv s0 (at_ h p (set_lock l w)).
Proof.
  intros I Hw Hp Hl Hi. apply (inv_move s0 w _ h p); try done.
  - apply Hi; try done. by rewrite hart_at, Nat.eqb_refl.
  - by left.
  - by apply (box_move s0 w _ h p).
Qed.

Lemma inv_post s0 h c w : inv s0 w -> hart w h = Post c -> inv s0 (at_ h (Wait c) (set_tohost (htif_tohost 0 0 (addr c)) w)).
Proof.
  intros I E. pose proof (i_harts _ _ I h) as Hi. unfold hart_inv in Hi. rewrite E in Hi. destruct Hi as [Hok Hf].
  rewrite tohost_syscall by (by eapply okc_fits).
  apply (inv_move s0 w _ h (Wait c)); try done; rewrite ?E; try by left.
  - cbn. destruct (i_lock _ _ I) as [[_ Hl]|[-> _]]; [|done]. specialize (Hl h). by rewrite E in Hl.
  - unfold hart_inv. by rewrite hart_at, Nat.eqb_refl.
  - destruct (box_of s0 w h I) as (o & Hb & Ho & Eo); [by rewrite E|]. rewrite E in Eo. cbn in Eo. subst o.
    inversion Hb as [H1 H2 H3 H4| | | |]. exists (Some (h, c)). split; [by apply B_posted; try done; left|].
    intros h' c'. rewrite hart_at. destruct (Nat.eqb_spec h' h) as [->|Hn]; cbn; [split; congruence|].
    split; [|intros [= -> ->]; done]. intros Hw. by apply Ho in Hw.
Qed.

Lemma inv_take s0 h c w : inv s0 w -> hart w h = Take c -> inv s0 (at_ h (Unlock c true) (set_fromhost 0 w)).
Proof.
  intros I E. pose proof (i_harts _ _ I h) as Hi. unfold hart_inv in Hi. rewrite E in Hi. destruct Hi as [Hok Hf].
  destruct (box_of s0 w h I) as (o & Hb & Ho & Eo); [by rewrite E|]. rewrite E in Eo. cbn in Eo. subst o.
  inversion Hb as [|h0 c0|h0 c0|h0 c0|h0 c0 H1 H2 H3 H4 H5]; subst; [congruence..|].
  apply (inv_move s0 w _ h (Unlock c true)); try done; rewrite ?E; try by left.
  - cbn. destruct (i_lock _ _ I) as [[_ Hl]|[-> _]]; [|done]. specialize (Hl h). by rewrite E in Hl.
  - unfold hart_inv. by rewrite hart_at, Nat.eqb_refl.
  - by right.
  - exists None. split; [by constructor|]. intros h' c'. rewrite hart_at. destruct (Nat.eqb_spec h' h) as [->|Hn]; cbn; [split; congruence|].
    rewrite Ho. split; [|done]. intros [= -> ->]. done.
Qed.

Lemma inv_return s0 h c w : inv s0 w -> hart w h = Reply c true ->
  inv s0 (at_ h Out (add_ret h (block c, s64 (mem w (addr c))) w)).
Proof.
  intros I E. pose proof (i_harts _ _ I h) as Hi. unfold hart_inv in Hi. rewrite E in Hi. destruct Hi as [Hok Ha].
  assert (forall h', h' <> h -> same h' w (at_ h Out (add_ret h (block c, s64 (mem w (addr c))) w))) as Hs.
  { intros h' Hn. split; [done|]. split; [done|]. cbn. by destruct (Nat.eqb_spec h' h). }
  apply (inv_move s0 w _ h Out); try done; rewrite ?E; try done.
  - unfold hart_inv. rewrite hart_at, Nat.eqb_refl. cbn. by rewrite Nat.eqb_refl.
  - by left.
  - apply (box_move s0 w _ h Out); try done; [by rewrite E|]. intros h' c' Hw. apply Hs. intros ->. by rewrite E in Hw.
Qed.

Lemma at_lock h p (w : world) : at_ h p w = at_ h p (set_lock (lock w) w).
Proof. done. Qed.

Lemma inv_hart s0 h now w : inv s0 w -> given_up (hart_step h now w) = 0%nat -> inv s0 (hart_step h now w).
Proof.
  intros I. pose proof (i_harts _ _ I h) as Hi. unfold hart_inv in Hi. unfold hart_step.
  assert (locked (hart w h) = true -> lock w = -1) as Hlock.
  { intros Hl. destruct (i_lock _ _ I) as [[_ H]|[-> _]]; [|done]. by rewrite H in Hl. }
  destruct (hart w h) as [|c|c|c|c|c|c|c []|c []] eqn:E; cbn in Hlock; try done.
  - destruct (lock w =? 0); [|done]. intros _. rewrite at_lock. apply inv_quiet_move; try done; [by rewrite E..|].
    intros w' E1 E2 E3 _ E5. unfold hart_inv, fresh. rewrite E1, E2, E3, E5. done.
  - intros _. destruct (Z.eqb_spec (lock w) 0) as [H0|H0]; apply inv_quiet_move; rewrite ?E; try done; auto.
    + intros w' E1 E2 E3 _ E5. unfold hart_inv, fresh. rewrite E1, E2, E3, E5. done.
    + cbn. destruct (i_lock _ _ I) as [[? _]|[? _]]; [done|congruence].
    + intros w' E1 E2 E3 _ E5. unfold hart_inv, fresh. rewrite E1, E2, E3, E5. done.
  - intros _. by apply inv_post.
  - destruct (Z.eqb_spec (fromhost w) 0) as [H0|H0]; [destruct (wait c); [done|]|]; intros _; rewrite at_lock;
      (apply inv_quiet_move; rewrite ?E; try done; [by left|by apply Hlock|]); intros w' _ _ _ E4 E5; unfold hart_inv; rewrite E5; [done|]. by rewrite E4.
  - destruct (_ >? _); [done|]. intros _. rewrite at_lock. apply inv_quiet_move; rewrite ?E; try done; [by left|by apply Hlock|].
    intros w' _ _ _ _ E5. unfold hart_inv. by rewrite E5.
  - intros _. by apply inv_take.
  - intros _. apply inv_quiet_move; rewrite ?E; try done. intros w' E1 E2 E3 _ E5. unfold hart_inv, answered. by rewrite E1, E2, E3, E5.
  - intros _. by apply inv_return.
Qed.

(** ** The server *)

Lemma inv_server_move s0 w w' : inv s0 w -> hart w' = hart w -> lock w' = lock w -> mem w' = mem w -> ran w' = ran w -> rets w' = rets w ->
  host w' = host w -> (fromhost w <> 0 -> fromhost w' <> 0) -> (forall o, (forall h c, o = Some (h, c) -> okc h c) -> box w o -> box w' o) -> inv s0 w'.
Proof.
  intros [Hh Hm Hl (o & Hb & Ho) Hs Hown] E1 E2 E3 E4 E5 E6 Hf Hbox. constructor.
  - intros h. eapply hart_inv_same; [by apply same_refl|by rewrite E1| |apply Hh]. auto.
  - rewrite E1. exact Hm.
  - rewrite E1, E2. exact Hl.
  - exists o. rewrite E1. split; [|done]. apply Hbox; [|done]. intros h c ->. eapply waiting_okc; [apply Hh|by apply Ho].
  - by rewrite E4, E6.
  - by rewrite E4.
Qed.

Lemma addr_nonzero h c : okc h c -> addr c <> 0.
Proof. intros (H & _)%okc_spec. pose proof (stacks h). lia. Qed.

(** The boxes whose server is where it is. *)
Ltac box_cases Hb E := let H := fresh in
  inversion Hb as [? ? ? [H|[H|H]]|? ? ? ? ? [[H|[H|H]]|H]|? ? ? ? ? [H|[H|H]]|? ? ? ? ? [H|H]|? ? ? ? ? [H|[H|H]]]; clear Hb; subst;
  rewrite E in H; try discriminate H.

Lemma box_poll w o : (forall h c, o = Some (h, c) -> okc h c) -> server w = Poll -> box w o ->
  box (set_server (if tohost w =? 0 then Deliver else Clear (tohost w)) w) o.
Proof.
  intros Ho E Hb. unfold resting in *. box_cases Hb E.
  - replace (tohost w) with 0. apply B_quiet; try done. right; by left.
  - replace (tohost w) with (addr c). destruct (Z.eqb_spec (addr c) 0) as [Hz|_]; [by apply (addr_nonzero h c) in Hz; [|apply Ho]|].
    apply B_posted; try done. by right.
  - replace (tohost w) with 0. apply B_replied; try done. right; by left.
Qed.

Lemma box_clear w o v : (forall h c, o = Some (h, c) -> okc h c) -> server w = Clear v -> box w o ->
  box (set_server (if negb (device v =? 0) then Deliver else if negb (cmd v =? 0) then Halt else Fetch v) (set_tohost 0 w)) o.
Proof.
  intros Ho E Hb. unfold resting in *. box_cases Hb E. match goal with H : Clear _ = Clear _ |- _ => injection H as -> end.
  pose proof (okc_fits h c (Ho h c eq_refl)). unfold device, cmd. rewrite !high_syscall by (done || lia).
  apply B_taken; try done. by left.
Qed.

Lemma box_fetch w o v : (forall h c, o = Some (h, c) -> okc h c) -> server w = Fetch v -> box w o ->
  box (set_server (Serve v (words_at (mem w) (payload v))) w) o.
Proof.
  intros Ho E Hb. unfold resting in *. box_cases Hb E. match goal with H : Fetch _ = Fetch _ |- _ => injection H as -> end.
  rewrite payload_syscall by (eapply okc_fits, Ho; done). match goal with H : fresh w h c |- _ => pose proof H as [-> _] end.
  apply B_taken; try done. right; by left.
Qed.

Lemma box_halt w o v ws : server w = Serve v ws -> box w o -> box (set_server Halt w) o.
Proof. intros E Hb. unfold resting in *. box_cases Hb E. apply B_taken; auto. Qed.

Lemma end_resting w : resting (server (loop_end exited w)).
Proof. unfold loop_end, resting. cbn. destruct (exited _); auto. Qed.

Lemma box_end w o : server w = Deliver -> negb (bool_decide (queue w = [])) && (fromhost w =? 0) = false ->
  box w o -> box (loop_end exited w) o.
Proof.
  intros E Hd Hb. pose proof (end_resting w) as Hr. unfold resting in Hb. box_cases Hb E.
  - by apply B_quiet.
  - apply B_posted; try done. by left.
  - replace (queue w) with [1] in Hd. by replace (fromhost w) with 0 in Hd.
  - by apply B_replied.
Qed.

Lemma box_put w o : server w = Put -> box w o -> box (loop_end exited (set_queue (tl (queue w)) (set_fromhost (hd 0 (queue w)) w))) o.
Proof.
  intros E Hb. set (w1 := set_queue _ _). pose proof (end_resting w1) as Hr. unfold resting in Hb. box_cases Hb E.
  assert (queue w = [1]) as Hq by done. apply B_replied; cbn; rewrite ?Hq; done.
Qed.

Lemma mine_spec h h' c x : okc h c -> s_addr x = addr c -> mine lo hi h' x = bool_decide (h' = h).
Proof.
  intros (H1 & H2 & _)%okc_spec E. unfold mine. rewrite E. destruct (decide (h' = h)) as [->|Hn].
  - rewrite bool_decide_true by done. zcases.
  - rewrite bool_decide_false by done. pose proof (apart h' h Hn). zcases.
Qed.

Lemma inv_serve s0 w v ws r s : inv s0 w -> server w = Serve v ws -> syscall_table (u32 (hd 0 ws)) (tl ws) (host w) = Some (r, s) ->
  inv s0 (set_server Deliver (set_queue (queue w ++ [respond v 1])
    (set_host s (Served (payload v) ws (s64 (u64 r))) (set_words (put_words (payload v) (u64 r :: tl ws) (mem w)) w)))).
Proof.
  intros [Hh Hm Hl (o & Hb & Ho) Hs Hown] E Hsys. unfold resting in Hb. box_cases Hb E.
  match goal with H : Serve _ _ = Serve _ _ |- _ => injection H as -> -> end.
  match goal with H : fresh w h c |- _ => destruct H as [Hf1 Hf2] end.
  assert (waiting (hart w h) = Some c) as Hw by (by apply Ho).
  pose proof (waiting_okc w h c (Hh h) Hw) as Hok. rewrite payload_syscall, respond_syscall by (by eapply okc_fits).
  pose proof (okc_spec h c Hok) as (Ha & Hb & Hlen). set (x := Served _ _ _).
  assert (forall h', mine lo hi h' x = bool_decide (h' = h)) as Hmine by (intros h'; by apply (mine_spec h h' c)).
  assert (length (u64 r :: tl (block c)) = 8%nat) as Hlen' by (destruct (block c); [done|exact Hlen]).
  set (w' := set_server _ _). assert (answered w' h c) as Hans.
  { unfold answered. change (ran w') with (ran w ++ [x]). rewrite served_for_snoc, Hmine, bool_decide_true, Hf2 by done.
    change (rets w' h) with (rets w h). do 4 f_equal. unfold x. cbn. unfold put_words. rewrite Z.sub_diag. unfold zlen. rewrite Hlen'. zcases; done. }
  constructor; try done.
  - intros h'. destruct (decide (h' = h)) as [->|Hn].
    + unfold hart_inv. change (hart w' h) with (hart w h). specialize (Hh h). unfold hart_inv in Hh. destruct (hart w h); try done.
    + apply (hart_inv_same w); [|done|by intros|apply Hh]. split; [|split; [|done]].
      * intros b Hb1 Hb2. cbn. apply words_out; [done|]. pose proof (apart h h' ltac:(auto)). lia.
      * change (ran w') with (ran w ++ [x]). by rewrite served_for_snoc, Hmine, bool_decide_false, app_nil_r.
  - exists (Some (h, c)). split; [|done]. apply B_done; try done; [|by left]. cbn. by replace (queue w) with (@nil Z).
  - clear - Hs Hsys. cbn. revert s0 Hs. induction (ran w) as [|y l IH]; intros s0 Hs; cbn in *.
    + injection Hs as ->. rewrite Hsys. by rewrite Z.eqb_refl.
    + destruct (syscall_table _ _ s0) as [[r' s']|]; [|done]. destruct (_ =? _); [|done]. by apply IH.
  - change (ran w') with (ran w ++ [x]). apply Forall_app. split; [done|]. constructor; [|done]. exists h. rewrite Hmine. by apply bool_decide_true.
Qed.

Lemma inv_server s0 w : inv s0 w -> inv s0 (server_step w).
Proof.
  intros I. unfold Htif.server_step. destruct (server w) as [|v|v|v ws| | |] eqn:E; [..|done].
  - apply (inv_server_move s0 w); try done. intros o Ho. by apply box_poll.
  - apply (inv_server_move s0 w); try done. intros o Ho. by apply box_clear.
  - apply (inv_server_move s0 w); try done. intros o Ho. by apply box_fetch.
  - destruct (syscall_table _ _ _) as [[r s]|] eqn:Hs; [by apply inv_serve|]. apply (inv_server_move s0 w); try done.
    intros o Ho. by eapply box_halt.
  - destruct (_ && _) eqn:Hq; [|apply (inv_server_move s0 w); try done; intros o _; by apply box_end].
    apply (inv_server_move s0 w); try done. intros o Ho Hb. apply andb_true_iff in Hq as [Hq Hf]. unfold resting in Hb. box_cases Hb E.
    + by replace (queue w) with (@nil Z) in Hq.
    + by replace (queue w) with (@nil Z) in Hq.
    + apply B_done; try done. by right.
    + by replace (queue w) with (@nil Z) in Hq.
  - destruct (i_box _ _ I) as (o & Hb & Ho). apply (inv_server_move s0 w); try done; [|intros o' _; by apply box_put].
    intros _. unfold resting in Hb. box_cases Hb E. cbn. by replace (queue w) with [1].
Qed.

(** ** Schedules *)

Lemma given_up_step e w : (given_up w <= given_up (step e w))%nat.
Proof.
  destruct e as [h c|h now|]; cbn [Htif.step].
  - unfold begin_call. destruct (hart w h); try done. by destruct (call_ok _ _ _ _).
  - unfold hart_step. destruct (hart w h) as [|c|c|c|c|c|c|c []|c []]; try done; cbn.
    + by destruct (lock w =? 0).
    + destruct (fromhost w =? 0); [|done]. by destruct (wait c).
    + destruct (_ >? _); cbn; [|done]. lia.
  - unfold Htif.server_step, loop_end. destruct (server w); try done; [by destruct (syscall_table _ _ _) as [[? ?]|]|by destruct (_ && _)].
Qed.

Lemma given_up_run es : forall w, (given_up w <= given_up (run syscall_table exited lo hi es w))%nat.
Proof. induction es as [|e es IH]; intros w; [done|]. etrans; [apply (given_up_step e)|apply IH]. Qed.

Lemma inv_step s0 e w : inv s0 w -> given_up (step e w) = 0%nat -> inv s0 (step e w).
Proof. destruct e as [h c|h now|]; cbn [Htif.step]; intros I Hg; [by apply begin_inv|by apply inv_hart|by apply inv_server]. Qed.

Lemma inv_run s0 es : forall w, inv s0 w -> given_up (run syscall_table exited lo hi es w) = 0%nat -> inv s0 (run syscall_table exited lo hi es w).
Proof.
  induction es as [|e es IH]; intros w I Hg; [done|]. apply IH; [|done]. apply inv_step; [done|].
  pose proof (given_up_run es (step e w)). unfold run in *. cbn in Hg. lia.
Qed.

(** ** Progress *)

Section progress.
Context (h : nat) (n0 : nat).
Abbreviation returned w := (n0 < length (rets w h))%nat.

(** How many steps of the server are left until the reply is there, and of the hart after it. *)
Definition to_reply (w : world) : nat :=
  if negb (fromhost w =? 0) then 0 else
  match server w with
  | Deliver => if bool_decide (queue w = []) then 7 else 2
  | Poll => 6 | Clear _ => 5 | Fetch _ => 4 | Serve _ _ => 3 | Put => 1 | Halt => 0
  end.
Definition to_return (p : pc) : nat :=
  match p with Clock _ => 5 | Wait _ => 4 | Take _ => 3 | Unlock _ _ => 2 | Reply _ _ => 1 | _ => 0 end.

Definition at_most (n k : nat) (w : world) : Prop :=
  returned w \/ (0 < to_return (hart w h) <= k)%nat /\ ((4 <= to_return (hart w h))%nat -> (to_reply w <= n)%nat).

(** Steps of the others. *)
Lemma at_most_other n k (w w' : world) : hart w' h = hart w h -> rets w' h = rets w h ->
  ((4 <= to_return (hart w h))%nat -> (to_reply w' <= to_reply w)%nat) -> at_most n k w -> at_most n k w'.
Proof. intros E1 E2 Hd. unfold at_most. rewrite E1, E2. intros [H|[H1 H2]]; [by left|right]. split; [done|]. intros H. etrans; auto. Qed.

Lemma locked_rank p : (4 <= to_return p)%nat -> locked p = true.
Proof. destruct p; cbn; done || lia. Qed.

Lemma other_reply s0 (w : world) h' now : inv s0 w -> h' <> h -> (4 <= to_return (hart w h))%nat -> to_reply (hart_step h' now w) = to_reply w.
Proof.
  intros I Hn H%locked_rank. unfold hart_step. assert (locked (hart w h') = true -> False) as Hl by (intros ?; apply Hn; by apply (i_mutex _ _ I)).
  destruct (hart w h') as [|c|c|c|c|c|c|c []|c []] eqn:E; try done; try (by destruct (Hl eq_refl)). by destruct (lock w =? 0).
Qed.

Lemma rets_other (w : world) h' now : h' <> h -> rets (hart_step h' now w) h = rets w h /\ hart (hart_step h' now w) h = hart w h.
Proof.
  intros Hn. assert ((h =? h')%nat = false) as Hb by (by apply Nat.eqb_neq).
  unfold hart_step. destruct (hart w h') as [|c|c|c|c|c|c|c []|c []]; cbn; rewrite ?Hb; try done.
  - destruct (lock w =? 0); cbn; by rewrite ?Hb.
  - destruct (fromhost w =? 0); [destruct (wait c)|]; cbn; by rewrite ?Hb.
  - destruct (_ >? _); cbn; by rewrite ?Hb.
Qed.

Lemma rets_grow e w : (length (rets w h) <= length (rets (step e w) h))%nat.
Proof.
  destruct e as [h' c|h' now|]; cbn [Htif.step].
  - unfold begin_call. destruct (hart w h'); try done. by destruct (call_ok _ _ _ _).
  - destruct (decide (h' = h)) as [->|Hn]; [|by destruct (rets_other w h' now Hn) as [-> _]].
    unfold hart_step. destruct (hart w h) as [|c|c|c|c|c|c|c []|c []]; try done; cbn.
    + by destruct (lock w =? 0).
    + destruct (fromhost w =? 0); [by destruct (wait c)|done].
    + by destruct (_ >? _).
    + rewrite Nat.eqb_refl, length_app. lia.
  - unfold Htif.server_step, loop_end. destruct (server w); try done; [by destruct (syscall_table _ _ _) as [[? ?]|]|by destruct (_ && _)].
Qed.

(** The server's own steps. *)
Lemma server_reply s0 w : inv s0 w -> (4 <= to_return (hart w h))%nat -> server (server_step w) <> Halt ->
  (to_reply (server_step w) <= Nat.pred (to_reply w))%nat.
Proof.
  intros I Hr Hh. destruct (i_box _ _ I) as (o & Hb & Ho).
  assert (exists c, waiting (hart w h) = Some c) as [c Hw] by (destruct (hart w h); cbn in *; eauto; lia).
  pose proof (waiting_okc w h c (i_harts _ _ I h) Hw) as Hok. pose proof (addr_nonzero h c Hok) as Hz%Z.eqb_neq. pose proof (okc_fits h c Hok) as Hf.
  assert (device (addr c) = 0) as Hd by (by apply high_syscall). assert (cmd (addr c) = 0) as Hc by (by apply high_syscall).
  apply Ho in Hw as ->. unfold to_reply, Htif.server_step in *.
  inversion Hb as [|? ? H1 H2 H3 H4 _|? ? H1 H2 H3 H4 _|? ? H1 H2 H3 H4 _|? ? H1 H2 H3 H4 _]; subst; unfold resting in *; rewrite ?H1, ?H2, ?H3 in *;
    repeat match goal with H : _ \/ _ |- _ => destruct H as [H|H] end; rewrite H4 in *; unfold loop_end in *; cbn in *;
    rewrite ?Hz, ?Hd, ?Hc, ?H1, ?H2, ?H3 in *; cbn in *; try done; try lia.
  - by destruct (exited _).
  - destruct (syscall_table _ _ _) as [[? ?]|]; [|done]. cbn. by rewrite H2.
Qed.

(** The caller's own steps, once the reply is there and before. *)
Lemma own_step s0 now k w : inv s0 w -> (given_up (hart_step h now w) = 0)%nat -> server w <> Halt -> (n0 <= length (rets w h))%nat ->
  (forall n, at_most n 5 w -> at_most n 5 (hart_step h now w)) /\ (at_most 0 (S k) w -> at_most 0 k (hart_step h now w)).
Proof.
  intros I Hg Hh Hn. pose proof (rets_grow (Hart h now) w) as Hgr. cbn [Htif.step] in Hgr.
  assert (n0 < length (rets w h) -> n0 < length (rets (hart_step h now w) h))%nat as Hret by lia.
  assert (to_reply w = 0%nat -> to_return (hart w h) = 4%nat \/ to_return (hart w h) = 5%nat -> fromhost w <> 0) as Hfrom.
  { unfold to_reply. intros E1 _. destruct (Z.eqb_spec (fromhost w) 0) as [Ez|]; [|done]. cbn in E1.
    destruct (server w); try done. by destruct (bool_decide _). }
  unfold at_most. clear Hgr. revert Hg Hret. unfold hart_step.
  destruct (hart w h) as [|c|c|c|c|c|c|c []|c []] eqn:E; intros Hg Hret; cbn [to_return] in *;
    try (split; [intros n|]; (intros [H|H]; [by left; auto|lia])).
  - destruct (Z.eqb_spec (fromhost w) 0) as [Ez|Ez].
    + split; [|intros [H|[H1 H2]]; [by left; auto|by destruct Hfrom; auto with lia]].
      intros n [H|[H1 H2]]; [by left; auto|]. right. destruct (wait c); [by rewrite E|]. cbn. rewrite Nat.eqb_refl. cbn. split; [lia|auto].
    + split; [intros n|]; (intros [H|[H1 H2]]; [by left; auto|right]); cbn; rewrite Nat.eqb_refl; cbn; lia.
  - destruct (_ >? _); [done|]. split; [intros n|]; (intros [H|[H1 H2]]; [by left; auto|right]); cbn; rewrite Nat.eqb_refl; cbn; (split; [lia|]); intros _; apply H2; lia.
  - split; [intros n|]; (intros [H|[H1 H2]]; [by left; auto|right]); cbn; rewrite Nat.eqb_refl; cbn; lia.
  - split; [intros n|]; (intros [H|[H1 H2]]; [by left; auto|right]); cbn; rewrite Nat.eqb_refl; cbn; lia.
  - split; [intros n|]; (intros [H|[H1 H2]]; [by left; auto|right]); cbn; rewrite Nat.eqb_refl; cbn; lia.
  - split; [intros n|]; (intros _; left); cbn; rewrite Nat.eqb_refl, length_app; cbn; lia.
  - pose proof (i_harts _ _ I h) as Hi. unfold hart_inv in Hi. by rewrite E in Hi.
Qed.

Definition is_server (e : event) : nat := match e with Server => 1 | _ => 0 end.
Definition is_hart (e : event) : nat := match e with Hart h' _ => if (h' =? h)%nat then 1 else 0 | _ => 0 end.
Definition count (f : event -> nat) (es : list event) : nat := list_sum (map f es).

Lemma step_progress s0 e n k w : inv s0 w -> given_up (step e w) = 0%nat -> server w <> Halt -> server (step e w) <> Halt ->
  (n0 <= length (rets w h))%nat -> at_most n k w ->
  (k = 5%nat -> at_most (n - is_server e) 5 (step e w)) /\ (n = 0%nat -> at_most 0 (k - is_hart e) (step e w)).
Proof.
  intros I Hg Hh Hh' Hn. destruct e as [h' c|h' now|]; cbn [Htif.step is_server is_hart] in *; rewrite ?Nat.sub_0_r.
  - intros H. assert (at_most n k (begin_call lo hi h' c w)) as H'; [|split; [by intros ->|by intros ->]].
    unfold begin_call. destruct (hart w h') eqn:E; try done. destruct (call_ok _ _ _ _); [|done].
    destruct (decide (h' = h)) as [->|Hne].
    + destruct H as [H|[H _]]; [by left|]. rewrite E in H. cbn in H. lia.
    + revert H. apply at_most_other; [|done|intros _; apply le_n]. rewrite hart_at. destruct (Nat.eqb_spec h h'); [congruence|done].
  - destruct (Nat.eqb_spec h' h) as [->|Hne].
    + intros H. split; [intros ->; by apply (own_step s0)|intros ->]. destruct k as [|k]; [|rewrite Nat.sub_succ, Nat.sub_0_r; by apply (own_step s0)].
      left. destruct H as [H|[H _]]; [|lia]. pose proof (rets_grow (Hart h now) w) as Hgr. cbn [Htif.step] in Hgr. lia.
    + intros H. rewrite Nat.sub_0_r. destruct (rets_other w h' now Hne) as [E1 E2].
      assert (at_most n k (hart_step h' now w)) as H'; [|split; [by intros ->|by intros ->]].
      revert H. apply at_most_other; [done..|]. intros Hr. by erewrite other_reply.
  - intros H. assert (rets (server_step w) = rets w /\ hart (server_step w) = hart w) as [E1 E2].
    { unfold Htif.server_step, loop_end. destruct (server w); try done; [by destruct (syscall_table _ _ _) as [[? ?]|]|by destruct (_ && _)]. }
    assert (forall k, at_most n k w -> at_most (n - 1) k (server_step w)) as Hk; [|split; [intros ->; by apply Hk|intros ->; by apply Hk in H]].
    clear k H. intros k [H|[H1 H2]]; [left; by rewrite E1|right]. rewrite E2. split; [done|]. intros Hr.
    pose proof (server_reply s0 w I Hr Hh'). specialize (H2 Hr). lia.
Qed.

Lemma halt_run es : forall w, server w = Halt -> server (run syscall_table exited lo hi es w) = Halt.
Proof.
  induction es as [|e es IH]; intros w H; [done|]. apply (IH (step e w)). destruct e as [h' c|h' now|]; cbn [Htif.step].
  - unfold begin_call. destruct (hart w h'); try done. by destruct (call_ok _ _ _ _).
  - unfold hart_step. destruct (hart w h') as [|c|c|c|c|c|c|c []|c []]; try done; cbn.
    + by destruct (lock w =? 0).
    + destruct (fromhost w =? 0); [by destruct (wait c)|done].
    + by destruct (_ >? _).
  - unfold Htif.server_step. by rewrite H.
Qed.

Lemma run_progress s0 es : forall n k w, inv s0 w -> given_up (run syscall_table exited lo hi es w) = 0%nat ->
  server (run syscall_table exited lo hi es w) <> Halt -> (n0 <= length (rets w h))%nat -> at_most n k w ->
  (k = 5%nat -> at_most (n - count is_server es) 5 (run syscall_table exited lo hi es w)) /\
  (n = 0%nat -> at_most 0 (k - count is_hart es) (run syscall_table exited lo hi es w)).
Proof.
  induction es as [|e es IH]; intros n k w I Hg Hh Hn H.
  - unfold count. cbn. rewrite !Nat.sub_0_r. split; by intros ->.
  - pose proof (given_up_run es (step e w)) as Hg'. change (run syscall_table exited lo hi (e :: es) w) with (run syscall_table exited lo hi es (step e w)) in *.
    assert (given_up (step e w) = 0%nat) as Hg1 by lia. assert (server (step e w) <> Halt) as Hh1 by (intros Hx; by apply Hh, halt_run).
    assert (server w <> Halt) as Hh0 by (intros Hx; apply Hh1; by apply (halt_run [e])).
    destruct (step_progress s0 e n k w I Hg1 Hh0 Hh1 Hn H) as [Ha Hb].
    pose proof (rets_grow e w). pose proof (inv_step s0 e w I Hg1) as I'.
    unfold count in *. cbn [map list_sum foldr]. rewrite !Nat.sub_add_distr.
    split; intros ->; [apply (IH _ 5%nat)|apply (IH 0%nat)]; (done || lia || auto).
Qed.
End progress.
End mailbox.

(** C5. Every call through the mailbox is served exactly once and answered with its own
    result.  For every schedule of the harts (any number of them, each on its own stack) and
    the server in which no caller has given up: at most one hart is between taking the lock and
    releasing it, and while the lock is taken one is; the calls the server executed are, replayed
    one after the other from the start, what it did; and for each hart they are the
    calls that returned, with the results it was given, in its order, followed by at most one
    more, which is then the call the hart is in and is past its post.  Nothing else was executed. *)
Theorem calls_served_once {HS} (syscall_table : Z -> list Z -> HS -> option (Z * HS)) exited lo hi m s es :
  (forall h, 0 < lo h /\ hi h < 2 ^ 48) -> (forall h h', h <> h' -> hi h <= lo h' \/ hi h' <= lo h) ->
  let w := run syscall_table exited lo hi es (boot m s) in
  given_up w = 0%nat ->
  (forall h h', locked (hart w h) = true -> locked (hart w h') = true -> h = h') /\
  (lock w <> 0 <-> exists h, locked (hart w h) = true) /\
  serially syscall_table s (ran w) = Some (host w) /\
  Forall (fun x => exists h, mine lo hi h x = true) (ran w) /\
  forall h, exists more, served_for lo hi h (ran w) = rets w h ++ more /\
    (more = [] \/ exists c r, more = [(block c, r)] /\
      (waiting (hart w h) = Some c \/ hart w h = Unlock c true \/ hart w h = Reply c true /\ r = s64 (mem w (addr c)))).
Proof.
  intros Hst Hap w Hg. pose proof (inv_run syscall_table exited lo hi Hst Hap s es _ (inv_boot _ lo hi m s) Hg) as I.
  fold w in I. split; [apply I|]. split; [|split; [apply I|split; [apply I|]]].
  { destruct (i_lock _ _ _ _ _ I) as [[-> H]|[-> H]]; (split; [done|]); [|done]. intros [h E]. by rewrite H in E. }
  intros h. pose proof (i_harts _ _ _ _ _ I h) as Hi. unfold hart_inv in Hi.
  destruct (i_box _ _ _ _ _ I) as (o & Hb & Ho). specialize (Ho h).
  assert (forall c, waiting (hart w h) = Some c -> exists more, served_for lo hi h (ran w) = rets w h ++ more /\
    (more = [] \/ exists c r, more = [(block c, r)] /\
      (waiting (hart w h) = Some c \/ hart w h = Unlock c true \/ hart w h = Reply c true /\ r = s64 (mem w (addr c))))) as Hwait.
  { intros c Hc. apply Ho in Hc as Eo. subst o. inversion Hb as [|? ? _ _ _ _ F|? ? _ _ _ _ F|? ? _ _ _ _ A|? ? _ _ _ _ A]; subst.
    1,2: exists []; rewrite app_nil_r; split; [by destruct F|by left].
    all: exists [(block c, s64 (mem w (addr c)))]; split; [exact A|right; by eauto]. }
  destruct (hart w h) as [|c|c|c|c|c|c|c []|c []] eqn:E; try done; try (by apply (Hwait c));
    try (exists []; rewrite app_nil_r; split; [by apply Hi|by left]).
  all: exists [(block c, s64 (mem w (addr c)))]; split; [apply Hi|right; by eauto 10].
Qed.

(** A posted call returns.  From any reachable state in which hart [h] waits for its
    reply, every schedule (whatever the other harts do) that contains seven steps of the server
    and after them five of the hart ends the call, provided the server keeps running and nobody
    gives up; so no interleaving loses a request or a reply. *)
Theorem call_returns {HS} (syscall_table : Z -> list Z -> HS -> option (Z * HS)) exited lo hi m s es0 es1 es2 h c :
  (forall h, 0 < lo h /\ hi h < 2 ^ 48) -> (forall h h', h <> h' -> hi h <= lo h' \/ hi h' <= lo h) ->
  let run := run syscall_table exited lo hi in
  let w := run es0 (boot m s) in
  let w' := run (es1 ++ es2) w in
  waiting (hart w h) = Some c -> (7 <= count is_server es1)%nat -> (5 <= count (is_hart h) es2)%nat ->
  given_up w' = 0%nat -> server w' <> Halt -> (length (rets w h) < length (rets w' h))%nat.
Proof.
  intros Hst Hap run0 w w' Hw H1 H2 Hg Hh. pose (w1 := run0 es1 w).
  assert (w' = Htif.run syscall_table exited lo hi es2 w1) as E2 by apply foldl_app. clearbody w'. subst w'.
  pose proof (given_up_run syscall_table exited lo hi es2 w1) as Hg2.
  pose proof (given_up_run syscall_table exited lo hi es1 w) as Hg1. fold (run0 es1 w) in Hg1. fold w1 in Hg1.
  assert (inv syscall_table lo hi s w) as I by (apply (inv_run syscall_table exited); [done..|apply inv_boot|]; fold run0; fold w; lia).
  assert (inv syscall_table lo hi s w1) as I1 by (apply (inv_run syscall_table exited); [done..|]; fold run0; fold w1; lia).
  assert (server w1 <> Halt) as Hh1 by (intros Hx; by apply Hh, halt_run).
  assert (at_most h (length (rets w h)) 7 5 w) as H.
  { right. split; [destruct (hart w h); cbn in *; done || lia|]. intros _. unfold to_reply.
    destruct (negb _); [lia|]. destruct (server w); try lia. destruct (bool_decide _); lia. }
  destruct (run_progress syscall_table exited lo hi Hst Hap h (length (rets w h)) s es1 7 5 w I) as [Ha _]; [fold run0; fold w1; lia|done..|].
  specialize (Ha eq_refl). fold run0 in Ha. fold w1 in Ha. replace (7 - count is_server es1)%nat with 0%nat in Ha by lia.
  assert (length (rets w h) <= length (rets w1 h))%nat as Hgrow.
  { clear - Hst. unfold w1, run0. clearbody w. clear w1 run0. revert w. induction es1 as [|e es IH]; intros w; [done|]. etrans; [apply (rets_grow syscall_table exited lo hi h e)|apply IH]. }
  destruct (run_progress syscall_table exited lo hi Hst Hap h (length (rets w h)) s es2 0 5 w1 I1) as [_ Hb]; [lia|done..|].
  specialize (Hb eq_refl). replace (5 - count (is_hart h) es2)%nat with 0%nat in Hb by lia. destruct Hb as [Hb|[Hb _]]; [done|lia].
Qed.

(** ** Types *)

Definition call_typed (c : call) : Prop := fits 64 (addr c) /\ Forall (fits 64) (block c) /\ fits 64 (start c).
Definition pc_call (p : pc) : option call :=
  match p with Out => None | Look c | Swap c | Post c | Wait c | Clock c | Take c | Unlock c _ | Reply c _ => Some c end.
Definition spc_typed (p : spc) : Prop :=
  match p with Clear v | Fetch v => fits 64 v | Serve v ws => fits 64 v /\ Forall (fits 64) ws | _ => True end.

(** Every variable holds a value of its C type. *)
Record typed {HS} (w : world (HS := HS)) : Prop := {
  t_lock : - 2 ^ 31 <= lock w < 2 ^ 31;
  t_tohost : fits 64 (tohost w); t_fromhost : fits 64 (fromhost w);
  t_mem : forall a, fits 64 (mem w a);
  t_harts : forall h c, pc_call (hart w h) = Some c -> call_typed c;
  t_server : spc_typed (server w);
  t_queue : Forall (fits 64) (queue w);
  t_rets : forall h, Forall (fun r => Forall (fits 64) r.1 /\ - 2 ^ 63 <= r.2 < 2 ^ 63) (rets w h) }.

Lemma sgn_range x : - 2 ^ 63 <= s64 x < 2 ^ 63.
Proof. unfold sgn. pose proof (wrap_range 64 x ltac:(lia)). zcases. Qed.

Lemma fits_tohost a : fits 64 (htif_tohost 0 0 a).
Proof.
  unfold htif_tohost. change (u64 _) with 0. rewrite Z.lor_0_l. change SOCT_HTIF_PAYLOAD_MASK with (Z.ones 48).
  rewrite Z.land_ones by lia. pose proof (Z.mod_pos_bound a (2 ^ 48) ltac:(lia)). unfold fits. lia.
Qed.

Lemma fits_respond v r : fits 64 (respond v r).
Proof.
  unfold respond. apply fits_lor; [lia|apply wrap_fits; lia|apply fits_shiftr; [lia..|apply wrap_fits; lia]].
Qed.

Lemma put_words_typed a ws m : Forall (fits 64) ws -> (forall x, fits 64 (m x)) -> forall x, fits 64 (put_words a ws m x).
Proof.
  intros Hw Hm x. unfold put_words. destruct (_ && _); [|done]. rewrite Forall_forall in Hw.
  destruct (nth_in_or_default (Z.to_nat ((x - a) / 8)) ws 0) as [H| ->]; [|unfold fits; lia]. by apply Hw, list_elem_of_In.
Qed.

Lemma words_typed m a : (forall x, fits 64 (m x)) -> Forall (fits 64) (words_at m a).
Proof. intros H. unfold words_at. apply Forall_map, Forall_true. auto. Qed.

Section types.
Context {HS : Type} (syscall_table : Z -> list Z -> HS -> option (Z * HS)) (exited : HS -> bool) (lo hi : nat -> Z).

(** Moving a hart keeps everything typed, if its call is. *)
Lemma typed_at h p (w : world (HS := HS)) : typed w -> (forall c, pc_call p = Some c -> call_typed c) -> typed (at_ h p w).
Proof.
  intros [A B C E F G H I] Hp. constructor; try done. intros h' c. cbn. destruct (Nat.eqb_spec h' h); [apply Hp|apply F].
Qed.

Lemma typed_hart h now w : typed w -> typed (hart_step (HS := HS) h now w).
Proof.
  intros T. pose proof (t_harts _ T h) as Hc. unfold hart_step.
  assert (forall p, pc_call p = pc_call (hart w h) -> forall c, pc_call p = Some c -> call_typed c) as Hp by (intros p -> c; apply Hc).
  destruct (hart w h) as [|c|c|c|c|c|c|c []|c []] eqn:E; try done.
  - destruct (lock w =? 0); [|done]. apply typed_at; [done|by apply Hp].
  - apply typed_at; [destruct T; constructor; first [done|cbn; lia]|]. by destruct (lock w =? 0); apply Hp.
  - apply typed_at; [|by apply Hp]. destruct T; constructor; try done. apply fits_tohost.
  - destruct (fromhost w =? 0); [destruct (wait c); [done|]|]; (apply typed_at; [done|by apply Hp]).
  - destruct (_ >? _); (apply typed_at; [|by apply Hp]); [by destruct T|done].
  - apply typed_at; [|by apply Hp]. destruct T; constructor; done.
  - apply typed_at; [destruct T; constructor; first [done|cbn; lia]|by apply Hp].
  - apply typed_at; [destruct T; constructor; first [done|cbn; lia]|by apply Hp].
  - apply typed_at; [|done]. destruct T as [A B C F G H I J]. constructor; try done. intros h'. cbn. destruct (Nat.eqb_spec h' h); [|apply J].
    apply Forall_app. split; [apply J|]. constructor; [|done]. split; [apply (Hc c eq_refl)|apply sgn_range].
  - by apply typed_at.
Qed.

Lemma typed_at_server p (w : world (HS := HS)) : typed w -> spc_typed p -> typed (set_server p w).
Proof. intros [] Hp. by constructor. Qed.

Lemma typed_end (w : world (HS := HS)) : typed w -> typed (loop_end exited w).
Proof. intros T. apply typed_at_server; [done|]. by destruct (exited _). Qed.

Lemma typed_queue_hd (w : world (HS := HS)) : typed w -> fits 64 (hd 0 (queue w)) /\ Forall (fits 64) (tl (queue w)).
Proof. intros T. destruct (t_queue _ T); [split; [unfold fits; cbn [hd]; lia|done]|by split]. Qed.

Lemma typed_server w : typed w -> typed (server_step syscall_table exited w).
Proof.
  intros T. pose proof (t_server _ T) as Hs. unfold server_step. destruct (server w) as [|v|v|v ws| | |] eqn:E; [..|done].
  - apply typed_at_server; [done|]. destruct (tohost w =? 0); [done|apply (t_tohost _ T)].
  - apply typed_at_server; [|by destruct (negb _); [|destruct (negb _)]]. destruct T. constructor; done.
  - apply typed_at_server; [done|]. split; [exact Hs|]. apply words_typed, (t_mem _ T).
  - destruct Hs as [Hv Hws]. destruct (syscall_table _ _ _) as [[r s]|]; [|by apply typed_at_server].
    apply typed_at_server; [|done]. destruct T as [A B C F G H I J]. constructor; try done; cbn [mem queue set_queue set_host set_words].
    + apply put_words_typed; [|done]. constructor; [apply wrap_fits; lia|]. destruct Hws; done.
    + apply Forall_app. split; [done|]. constructor; [apply fits_respond|done].
  - destruct (_ && _); [by apply typed_at_server|by apply typed_end].
  - apply typed_end. destruct (typed_queue_hd w T). by destruct T; constructor.
Qed.
End types.


(** ** Two harts and a server *)

(** The server adds the first argument to what it has; the stacks are of four kilobytes. *)
Definition adder (n : Z) (ws : list Z) (s : Z) : option (Z * Z) := Some (hd 0 ws + s, hd 0 ws + s).
Definition ex_lo (h : nat) : Z := 0x1000 * (Z.of_nat (Nat.min h 64) + 1).
Definition ex_hi (h : nat) : Z := ex_lo h + (if (h <? 64)%nat then 0x1000 else 0).
Lemma ex_stacks h : 0 < ex_lo h /\ ex_hi h < 2 ^ 48.
Proof. unfold ex_hi, ex_lo. destruct (_ <? _)%nat; lia. Qed.
Lemma ex_apart h h' : h <> h' -> ex_hi h <= ex_lo h' \/ ex_hi h' <= ex_lo h.
Proof.
  unfold ex_hi, ex_lo. intros H.
  destruct (Nat.ltb_spec h 64), (Nat.ltb_spec h' 64); rewrite ?(Nat.min_l h), ?(Nat.min_r h), ?(Nat.min_l h'), ?(Nat.min_r h') by lia; lia.
Qed.

Definition ex_call (h : nat) (n : Z) : call := Call (ex_lo h + 0x100) [1; n; 0; 0; 0; 0; 0; 0] true 0.
Definition ex_run := run adder (fun _ => false) ex_lo ex_hi.
(** Both call at once; hart 1 has the lock first. *)
Definition ex_first : list event := [Begin 0 (ex_call 0 5); Begin 1 (ex_call 1 7)] ++ flat_map (fun _ => [Hart 1 0; Hart 0 0]) (seq 0 3).
Definition ex_both : list event := ex_first ++ concat (replicate 12 [Hart 1 0; Server; Hart 0 0]) ++ concat (replicate 12 [Server; Hart 0 0]).

Example ex_both_served : let w := ex_run ex_both (boot (fun _ => 0) 100) in
  (map s_res (ran w), rets w 0%nat, rets w 1%nat, lock w) =
  ([107; 112], [([1; 5; 0; 0; 0; 0; 0; 0], 112)], [([1; 7; 0; 0; 0; 0; 0; 0], 107)], 0).
Proof. vm_compute. reflexivity. Qed.

Lemma calls_served_once_witness : let w := ex_run ex_both (boot (fun _ => 0) 100) in
  serially adder 100 (ran w) = Some (host w) /\ exists more, served_for ex_lo ex_hi 0 (ran w) = [([1; 5; 0; 0; 0; 0; 0; 0], 112)] ++ more.
Proof.
  destruct (calls_served_once adder (fun _ => false) ex_lo ex_hi (fun _ => 0) 100 ex_both ex_stacks ex_apart) as (_ & _ & Hs & _ & H); [vm_compute; reflexivity|].
  split; [exact Hs|]. destruct (H 0%nat) as (more & E & _). exists more. refine (eq_trans E _). apply (f_equal (fun l => l ++ more)). vm_compute. reflexivity.
Defined.


Lemma call_returns_witness : let w := ex_run ex_first (boot (fun _ => 0) 100) in
  (length (rets w 1%nat) < length (rets (ex_run (replicate 7 Server ++ replicate 5 (Hart 1 0)) w) 1%nat))%nat.
Proof.
  exact (call_returns adder (fun _ => false) ex_lo ex_hi (fun _ => 0) 100 ex_first (replicate 7 Server) (replicate 5 (Hart 1 0)) 1 (ex_call 1 7)
    ex_stacks ex_apart eq_refl (le_n 7) (le_n 5) eq_refl ltac:(vm_compute; discriminate)).
Defined.

(** ** A caller that gives up *)

(** [soct_htif_present] asks a server that is slow and gives up; its block was on its stack.
    The request is still in tohost: when the server comes to it, it executes what lies there now
    and writes the result over it ([late_write]).  The reply stays in fromhost, so that a call
    made then returns at once with that, its own request not yet executed and its result the
    call's number ([late_reply]); soctglue.c makes none after a failed probe. *)
Definition probe : call := Call 0x1100 [SOCT_HTIF_DEV_TEST; 0; 0; 0; 0; 0; 0; 0] false 0.
Definition next_call : call := Call 0x1200 [1; 7; 0; 0; 0; 0; 0; 0] true 0.
Definition gives_up : list event := Begin 0 probe :: replicate 4 (Hart 0 0) ++ [Hart 0 200000; Hart 0 0; Hart 0 0].
Definition late : list event := gives_up ++ Begin 0 next_call :: replicate 4 Server ++ replicate 3 (Hart 0 0) ++ [Server; Server] ++ replicate 4 (Hart 0 0).

Lemma late_write : let w := ex_run gives_up (boot (fun _ => 0) 100) in
  let w' := ex_run (replicate 4 Server) w in
  hart w 0%nat = Out /\ lock w = 0 /\ mem w 0x1100 = SOCT_HTIF_DEV_TEST /\ mem w' 0x1100 = 100.
Proof. vm_compute. done. Qed.

Lemma late_reply : let w := ex_run late (boot (fun _ => 0) 100) in
  given_up w = 1%nat /\ map s_block (ran w) = [block probe] /\ rets w 0%nat = [(block next_call, 1)] /\ hart w 0%nat = Out.
Proof. vm_compute. done. Qed.

(** A device other than 0 cannot be addressed: the shift count exceeds an int's width. *)
Lemma device_lost : device (htif_tohost 1 0 0x1000) = 0 /\ htif_tohost 1 0 0x1000 = 0x1001000.
Proof. done. Qed.
