(* ===== verification/Start.v ===== *)
(** * From reset to main (soctglue/src/soctglue.c, syscall-uart.c)

    [_soct_start_main]: parse the device tree, find the UART, mount the SD cards, look for the
    host, register the handlers, print the set-up log.  It is the place where the parser (Dtb),
    the SD mounts (SdcMount), the handler table (Syscall), the console (Console) and the
    mailbox (Htif) meet.

    A mailbox call (Htif) is [host] here, a function on the machine, and the probe is [probe]. *)
From Stdlib Require Import String.
From S2P Require Import Prelude Memory Printf Mmio Syscall Heap Dtb DtbTree DtbQuery DtbCompat SdcMount.
From S2P Require Import Console.
From S2P Require BootRom.

#[local] Open Scope list_scope.
#[local] Abbreviation length := List.length.

Definition SOCT_UART_NAME_DTS : cptr := lit "riscv,axi-uart-1.0".
Definition SOCT_HTIF_NAME_DTS : cptr := lit "ucb,htif0".
Definition SOCT_GET_MAINVARS : Z := 2011.
Definition SOCT_ARG_MAX : Z := 128.

(** ** The messages of the set-up log *)

Inductive msg :=
| MWelcome (hartid : Z) (dtb_blob : Z)
| MDtb (error : string)
| MUartNoNode | MUartNoReg | MUartBase (base : Z) | MUartBadReg
| MSdc (m : setup_msg)
| MHtifNotDescribed | MHtifDetected
| MMainvarsFailed (ret : Z) | MMainvarsOk
| MEntering
| MOverflow.

Section start.
Context {D : Type} {HD : Mmio D} (PB : Z).
Abbreviation drv := (prog (bus D * sys)).
(** FatFs, the mailbox, the UART's address when the tree names none, and s_args. *)
Context {FS : Type} (f_mount : list (option Z) -> nat -> list Z -> FS -> Z * FS).
Context (host : Z -> list Z -> drv Z) (probe : drv bool) (SOCT_DEFAULT_UART_ADDR s_args : Z).

(** [soct_handle_htif] answers every call. *)
Definition soct_handle_htif : handler (bus D * sys) := fun n args => r ← host n args; mret (Some r).

(** [soct_add_setup_msg] on the messages as the code names them. *)
Definition log (l : list msg) (m : msg) : list msg := Arena.soct_add_setup_msg MOverflow l m.

(** ** syscall-uart.c *)

(** Whether the UART is to be used, its base, and the message. *)
Definition soct_init_from_dtb_uart (blob : list Z) (st : dtb_state) : res (bool * option Z * msg) :=
  node ← dtb_find_compatible blob st None (Some SOCT_UART_NAME_DTS);
  match node with
  | None => Ret (false, None, MUartNoNode)
  | Some n =>
      reg_prop ← dtb_find_prop blob st (Some n) (lit "reg");
      match reg_prop with
      | None => Ret (false, None, MUartNoReg)
      | Some _ =>
          addr_cells ← dtb_get_addr_cells_for blob st (Some n);
          pd ← deref_prop st reg_prop;
          '(count, vals) ← dtb_read_prop_1 blob pd addr_cells true;
          if 16 <? count then Undef else
          if 1 <? count then let base := u64 (hd 0 vals) in Ret (true, Some base, MUartBase base)
          else Ret (false, None, MUartBadReg)
      end
  end.

(** ** soctglue.c *)

(** What start-up leaves: the table, the mounts, the log and argc when the host gave one. *)
Record started := Started { handlers : table (bus D * sys); mounted : mounts (FS := FS); setup : list msg; argc : Z }.

Definition errno_of (e : Z) (s : bus D * sys) : bus D * sys := (s.1, set_errno e s.2).

(** The end of start-up: the mailbox, when there may be one. *)
Definition start_htif (blob : list Z) (st : dtb_state) (ready : bool) (t : table (bus D * sys)) (l : list msg)
    : drv (table (bus D * sys) * list msg * Z) :=
  in_dtb ← (if ready then o ← lift (dtb_find_compatible blob st None (Some SOCT_HTIF_NAME_DTS)); mret (bool_decide (o <> None)) else mret false);
  let l := if ready && negb in_dtb then log l MHtifNotDescribed else l in
  if negb (in_dtb || negb ready) then mret (t, l, 0) else
  present ← probe;
  if negb present then mret (t, l, 0) else
  let l := log l MHtifDetected in
  let t := (soct_register_default_handler soct_handle_htif t).2 in
  ret ← syscall t SOCT_GET_MAINVARS [s_args; 8 * SOCT_ARG_MAX];
  if negb (ret =? 0) then mret (t, log l (MMainvarsFailed ret), 0) else
  x ← get;
  mret (t, log l MMainvarsOk, s32 (u32 (BootRom.le (load 8 s_args (mem x))))).

(** [_soct_start_main] up to the call of main; [dfuel] is the parser's, [fuel] the console's. *)
Definition soct_start_main (dfuel fuel : nat) (o : dtb_ops) (blob : list Z) (dtb_blob hartid : Z) (st0 : dtb_state) (m0 : mounts (FS := FS))
    : drv started :=
  let l := log [] (MWelcome hartid dtb_blob) in
  '(ready, st) ← lift (dtb_init blob dfuel (dtb_blob =? 0) o st0);
  let l := foldl log l (map MDtb (rev (errors st))) in
  '(have_uart, base, um) ← lift (soct_init_from_dtb_uart blob st);
  (match base with Some b => put (set_base b) | None => mret tt end);;
  let l := log l um in
  let t := if have_uart || negb ready then (soct_register_default_handler (soct_handle_uart fuel) no_handlers).2 else no_handlers in
  '(_, ms) ← lift (soct_init_from_dtb_sdc blob st f_mount (Mounts (s_regs m0) (sdc_ops m0) [] (ff m0)));
  let l := foldl log l (map MSdc (msgs ms)) in
  '(t, l, argc) ← start_htif blob st ready t l;
  mret (Started t ms (log l MEntering) argc).

(** ** Printing the log *)

(** The C string at the start of a buffer. *)
Fixpoint c_string (l : list Z) : list Z := match l with [] => [] | c :: l => if c =? 0 then [] else c :: c_string l end.
Definition formatted (pf : nat) (fmt : string) (args : list varg) : res (list Z) :=
  '(l, _) ← snprintf pf 128 (bytes fmt) args; Ret (c_string l).

(** The text of a message; the formatted ones were cut to 127 characters. *)
Definition text (pf : nat) (m : msg) : res (list Z) :=
  let dflt := ALong SOCT_DEFAULT_UART_ADDR in
  match m with
  | MWelcome h b => formatted pf "Soctglue initialized from hart %d with dtb blob at %p" [AInt h; ALong b]
  | MDtb e => Ret (bytes e)
  | MUartNoNode => formatted pf "No UART node found in DTB - falling back to default address 0x%lx" [dflt]
  | MUartNoReg => formatted pf "UART node found in DTB but has no 'reg' property - falling back to default address 0x%lx" [dflt]
  | MUartBase b => formatted pf "UART node found in DTB with base address 0x%lx" [ALong b]
  | MUartBadReg => formatted pf "UART node found in DTB but failed to read base address from 'reg' property - falling back to default address 0x%lx" [dflt]
  | MSdc MsgNoVolume => Ret (bytes "SD card volume name not found in VolumeStr")
  | MSdc MsgNoReg => Ret (bytes "SD card node found in DTB but it has no 'reg' property")
  | MSdc MsgBadReg => Ret (bytes "SD card node found in DTB but failed to read base address from 'reg' property")
  | MSdc (MsgMountFailed path err) => formatted pf "%s: filesystem mount failed with error %d" [AStr (Some path); AInt err]
  | MSdc (MsgMounted path b) => formatted pf "%s: mounted from DTB node at 0x%lx" [AStr (Some path); ALong b]
  | MHtifNotDescribed => Ret (bytes "HTIF not described in the DTB - not probing for fesvr")
  | MHtifDetected => Ret (bytes "HTIF device detected, registering handler")
  | MMainvarsFailed r => formatted pf "Failed to get main vars from HTIF syscall, ret code %ld" [ALong r]
  | MMainvarsOk => Ret (bytes "Successfully retrieved main vars from HTIF syscall")
  | MEntering => Ret (bytes "Initialization complete, entering main")
  | MOverflow => Ret (bytes "Out of error message slots, recompile with increased SOCT_N_ERROR_MSGS")
  end.

(** The C library's strdup: a copy, or NULL. *)
Context (strdup : list Z -> option (list Z)).
Definition kept (m : msg) (t : list Z) : option (list Z) := match m with MOverflow => Some t | _ => strdup t end.

Fixpoint dump_lines (t : table (bus D * sys)) (pf : nat) (l : list msg) : drv unit :=
  match l with
  | [] => mret tt
  | m :: l =>
      x ← lift (text pf m);
      _ ← printf PB t pf (bytes "  - %s" ++ [LF]) [AStr (kept m x)];
      dump_lines t pf l
  end.
Definition dump_msgs (t : table (bus D * sys)) (pf : nat) (l : list msg) : drv unit :=
  match l with
  | [] => mret tt
  | _ =>
      _ ← printf PB t pf (bytes "++ Soctglue log begin ++" ++ [LF]) [];
      dump_lines t pf l;;
      _ ← printf PB t pf (bytes "++ Soctglue log end ++" ++ [LF]) []; mret tt
  end.

(** Start-up and the log; then main is called. *)
Definition boot (dfuel fuel pf : nat) (o : dtb_ops) (blob : list Z) (dtb_blob hartid : Z) (st0 : dtb_state) (m0 : mounts (FS := FS)) : drv started :=
  r ← soct_start_main dfuel fuel o blob dtb_blob hartid st0 m0;
  dump_msgs (handlers r) pf (setup r);; mret r.

(** ** The specification *)

(** Where the tree says the UART is: the first entry of the reg property, if it has two. *)
Definition uart_reg (blob : list Z) (st : dtb_state) (n : nat) : res (option Z) :=
  p ← dtb_find_prop blob st (Some n) (lit "reg");
  match p with
  | None => Ret None
  | Some _ =>
      ac ← dtb_get_addr_cells_for blob st (Some n);
      pd ← deref_prop st p;
      '(count, vals) ← dtb_read_prop_1 blob pd ac true;
      if 16 <? count then Undef else Ret (if 1 <? count then Some (u64 (hd 0 vals)) else None)
  end.

(** The first UART of the tree, its address when it has one, and whether the tree has a mailbox. *)
Definition first_uart (t : tree) : option nat := head (found (str "riscv,axi-uart-1.0") 0 (preorder t)).
Definition uart_at (blob : list Z) (st : dtb_state) (t : tree) (b : option Z) : Prop :=
  match first_uart t with None => b = None | Some n => uart_reg blob st n = Ret b end.
Definition htif_described (t : tree) : bool := bool_decide (head (found (str "ucb,htif0") 0 (preorder t)) <> None).

(** Who answers system calls, in order: the UART, then the host. *)
Definition expected (fuel : nat) (uart : option Z) (htif : bool) : list (handler (bus D * sys)) :=
  (match uart with Some _ => [soct_handle_uart fuel] | None => [] end) ++ (if htif then [soct_handle_htif] else []).

(** The state start-up and the host leave alone: the UART's registers and the line buffer. *)
Definition calm (s s' : bus D * sys) : Prop := wlog s'.1 = wlog s.1 /\ pblen s'.2 = pblen s.2.
End start.
Arguments Started {D FS}.
Arguments handlers {D FS} s.
Arguments mounted {D FS} s.
Arguments setup {D FS} s.
Arguments argc {D FS} s.
