(* ===== verification/StartProofs.v ===== *)
(** * What runs before main

    Start-up registers the UART before the host and says so in its log
    ([handlers_registered]); with a UART the log is on the wire before main runs
    ([boot_log_sent]); a null device tree leaves a program without any handler
    ([null_blob_silences]). *)
From Stdlib Require Import String Ascii.
From S2P Require Import Prelude Memory Printf PrintfProofs Mmio Syscall Heap Dtb DtbTree DtbQuery DtbCompat SdcMount.
From S2P Require Import Console ConsoleProofs Start.

#[local] Open Scope list_scope.
#[local] Abbreviation length := List.length.

(** ** Messages that format *)

(** The arguments of a message are values of their C types. *)
Definition setup_ok (m : setup_msg) : Prop :=
  match m with
  | MsgMountFailed path err => INT_MIN <= err <= INT_MAX /\ zlen path <= 2 ^ 16
  | MsgMounted path base => fits 64 base /\ zlen path <= 2 ^ 16
  | _ => True
  end.
Definition msg_ok (m : msg) : Prop :=
  match m with
  | MWelcome h b => INT_MIN <= h <= INT_MAX /\ fits 64 b
  | MUartBase b => fits 64 b
  | MSdc m => setup_ok m
  | MMainvarsFailed r => - 2 ^ 63 < r < 2 ^ 63
  | MDtb e => zlen (bytes e) <= 2 ^ 16
  | _ => True
  end.

Section formats.
Import Spec.

Definition lits (s : string) : list piece := map Lit (bytes s).

Lemma fmt_lits l ps : fmt_of (map Lit l ++ ps) = l ++ fmt_of ps.
Proof. induction l as [|c l IH]; [done|]. cbn. f_equal. exact IH. Qed.
Lemma args_lits l ps : args_of (map Lit l ++ ps) = args_of ps.
Proof. induction l as [|c l IH]; [done|exact IH]. Qed.
Lemma lits_ok l : Forall (fun c => c <> ch "%") l -> Forall piece_ok (map Lit l).
Proof. induction 1; by constructor. Qed.
Lemma prints_lits l ps out : prints (map Lit l ++ ps) out -> exists o, prints ps o /\ out = l ++ o.
Proof.
  revert out. induction l as [|c l IH]; intros out H; [by exists out|]. inversion H as [|? ? o H'|]; subst.
  destruct (IH o H') as (o' & Ho & ->). by exists o'.
Qed.

Lemma c_string_le l : zlen (c_string l) <= zlen l.
Proof. induction l as [|c l IH]; [done|]. cbn. unfold zlen in *. destruct (c =? 0); cbn [length]; lia. Qed.

(** A format of the grammar is formatted, whatever its length. *)
Lemma formatted_ok pf fmt args ps : bytes fmt = fmt_of ps -> args = args_of ps -> Forall piece_ok ps -> (length (bytes fmt) < pf)%nat ->
  exists l, formatted pf fmt args = Ret l /\ zlen l <= 2 ^ 16.
Proof.
  intros Hf -> Hp Hk. unfold formatted, snprintf. rewrite Hf in *. destruct (vx_renders pf ps [] [] Hp Hk) as (out & _ & E).
  rewrite app_nil_r in E. change (128 <=? 0) with false. unfold mbind, res_bind. rewrite E. eexists. split; [done|].
  etrans; [apply c_string_le|]. rewrite zlen_app, zlen1, snprintf_chars_take, zlen_map, zlen_take by lia. lia.
Qed.

Lemma piece_dir fs c : dir_ok (Dir [] NNone None fs c) <-> conv_ok (Dir [] NNone None fs c).
Proof. unfold dir_ok. cbn. tauto. Qed.

(** The literal parts of a format are free of percent signs, and fuel is enough. *)
Ltac format_ok ps := apply (formatted_ok _ _ _ ps); [reflexivity|reflexivity| |cbn; lia];
  repeat (apply Forall_app; split); repeat first [apply Forall_nil; done | apply lits_ok; apply (bool_decide_unpack _); vm_compute; exact I | apply Forall_cons; split; [apply piece_dir; unfold conv_ok, wide; cbn; unfold fits, INT_MIN, INT_MAX in *; try lia|]].

Lemma text_ok dflt pf m : fits 64 dflt -> msg_ok m -> (200 < pf)%nat -> exists l, Start.text dflt pf m = Ret l /\ zlen l <= 2 ^ 16.
Proof.
  intros Hd Hm Hpf. destruct m as [h b|e| | |b| |[| | |path err|path b]| | |r| | |]; cbn [Start.text msg_ok setup_ok] in *;
    try (eexists; split; [reflexivity|exact Hm || (vm_compute; discriminate)]).
  - format_ok (lits "Soctglue initialized from hart " ++ [Fmt (Dir [] NNone None [] (CInt h))] ++ lits " with dtb blob at " ++ [Fmt (Dir [] NNone None [] (CPtr b))]).
  - format_ok (lits "No UART node found in DTB - falling back to default address 0x" ++ [Fmt (Dir [] NNone None [ML] (CUint Hexadecimal dflt))]).
  - format_ok (lits "UART node found in DTB but has no 'reg' property - falling back to default address 0x" ++ [Fmt (Dir [] NNone None [ML] (CUint Hexadecimal dflt))]).
  - format_ok (lits "UART node found in DTB with base address 0x" ++ [Fmt (Dir [] NNone None [ML] (CUint Hexadecimal b))]).
  - format_ok (lits "UART node found in DTB but failed to read base address from 'reg' property - falling back to default address 0x" ++ [Fmt (Dir [] NNone None [ML] (CUint Hexadecimal dflt))]).
  - format_ok ([Fmt (Dir [] NNone None [] (CStr (Some path)))] ++ lits ": filesystem mount failed with error " ++ [Fmt (Dir [] NNone None [] (CInt err))]).
  - format_ok ([Fmt (Dir [] NNone None [] (CStr (Some path)))] ++ lits ": mounted from DTB node at 0x" ++ [Fmt (Dir [] NNone None [ML] (CUint Hexadecimal b))]).
  - format_ok (lits "Failed to get main vars from HTIF syscall, ret code " ++ [Fmt (Dir [] NNone None [ML] (CInt r))]).
Qed.
End formats.

(** ** The SD mounts return *)

(** f_mount's result is an int. *)
Definition int_mount {FS} (f_mount : list (option Z) -> nat -> list Z -> FS -> Z * FS) : Prop :=
  forall regs d p fs, INT_MIN <= (f_mount regs d p fs).1 <= INT_MAX.

Lemma mount_slot_msg {FS} blob st (f_mount : list (option Z) -> nat -> list Z -> FS -> Z * FS) vol path n s ok s' : int_mount f_mount -> zlen path <= 2 ^ 16 ->
  mount_slot blob st f_mount vol path n s = Ret (ok, s') -> exists m, msgs s' = msgs s ++ [m] /\ setup_ok m.
Proof.
  intros Hf Hp. unfold mount_slot. destruct (find_pdrv vol) as [d|]; [|intros [= <- <-]; by eexists].
  destruct (dtb_find_prop blob st (Some n) (lit "reg")) as [[p|]| |]; cbn [mbind res_bind]; [|intros [= <- <-]; by eexists|done..].
  destruct (dtb_get_addr_cells_for blob st (Some n)) as [ac| |]; cbn [mbind res_bind]; [|done..].
  destruct (deref_prop st (Some p)) as [pd| |]; cbn [mbind res_bind]; [|done..].
  destruct (dtb_read_prop_1 blob pd ac true) as [[count vals]| |]; cbn [mbind res_bind]; [|done..].
  destruct (16 <? count); [done|]. destruct (count <? 1); [intros [= <- <-]; by eexists|].
  pose proof (Hf (<[d:=Some (u64 (hd 0 vals))]> (s_regs s)) d path (ff s)) as Hr. destruct (f_mount _ _ _ _) as [r fs].
  destruct (negb _); intros [= <- <-]; eexists; (split; [done|]); (split; [|done]); [done|by apply wrap_fits].
Qed.

Lemma mount_all_returns {FS} blob st (f_mount : list (option Z) -> nat -> list Z -> FS -> Z * FS) l : int_mount f_mount ->
  Forall (fun x => (exists d, find_pdrv x.1.1 = Some d) /\ zlen x.1.2 <= 2 ^ 16 /\ fits_regs blob st x.2) l -> forall any s,
  exists any' s' ms, mount_all blob st f_mount l any s = Ret (any', s') /\ msgs s' = msgs s ++ ms /\ length ms = length l /\ Forall setup_ok ms.
Proof.
  intros Hf. induction 1 as [|[[vol path] n] l ([d Hd] & Hp & [b Hb]) _ IH]; intros any s; cbn [mount_all].
  { exists any, s, []. by rewrite app_nil_r. }
  destruct (mount_slot_spec blob st f_mount vol path n s d b Hd Hb) as (ok & s1 & E1 & _).
  destruct (mount_slot_msg blob st f_mount vol path n s ok s1 Hf Hp E1) as (m & Hm & Hok). rewrite E1. cbn [mbind res_bind].
  destruct (IH (any || ok) s1) as (any' & s' & ms & E & E2 & E3 & E4). exists any', s', (m :: ms).
  split; [done|]. rewrite E2, Hm, <-app_assoc. cbn. rewrite E3. split_and!; [done..|by constructor].
Qed.

Definition sd_nodes (t : tree) : list nat := take SDC_MAX_DRIVES (found (str "riscv,axi-sd-card-1.0") 0 (preorder t)).

Lemma mounts_return {FS} blob st t (f_mount : list (option Z) -> nat -> list Z -> FS -> Z * FS) s : int_mount f_mount -> searchable blob st t ->
  Forall (fits_regs blob st) (sd_nodes t) ->
  exists any s' ms, soct_init_from_dtb_sdc blob st f_mount s = Ret (any, s') /\ msgs s' = msgs s ++ ms /\ length ms = length (sd_nodes t) /\ Forall setup_ok ms.
Proof.
  intros Hm Hse Hf. unfold soct_init_from_dtb_sdc. rewrite (mount_from_all blob st t) by done. change (drop 0 ?l) with l.
  assert (forall l : list nat, zip slots l = zip slots (take SDC_MAX_DRIVES l) /\ length (zip slots (take SDC_MAX_DRIVES l)) = length (take SDC_MAX_DRIVES l)) as Hz by (by intros [|? [|? ?]]).
  destruct (Hz (found (str "riscv,axi-sd-card-1.0") 0 (preorder t))) as [-> El]. fold (sd_nodes t) in El |- *. rewrite <-El.
  apply mount_all_returns; [done|]. clear El Hz. unfold sd_nodes, slots, SDC_MAX_DRIVES in *.
  destruct (found _ _ _) as [|n1 [|n2 ns]]; cbn in Hf |- *.
  - done.
  - apply Forall_cons in Hf as [H1 _]. constructor; [|done]. split; [by exists 3%nat|done].
  - apply Forall_cons in Hf as [H1 [H2 _]%Forall_cons]. constructor; [split; [by exists 3%nat|done]|]. constructor; [|done]. split; [by exists 4%nat|done].
Qed.

(** ** The UART *)

Definition uart_msg (b : option Z) (m : msg) : Prop :=
  match b with Some b => m = MUartBase b | None => m = MUartNoNode \/ m = MUartNoReg \/ m = MUartBadReg end.

Lemma uart_init_spec blob st t b : searchable blob st t -> uart_at blob st t b ->
  exists m, soct_init_from_dtb_uart blob st = Ret (bool_decide (b <> None), b, m) /\ uart_msg b m /\ msg_ok m.
Proof.
  intros Hse. unfold uart_at, first_uart, soct_init_from_dtb_uart.
  assert (SOCT_UART_NAME_DTS = str "riscv,axi-uart-1.0" ++ [0]) as -> by apply lit_str.
  rewrite (find_compatible_spec blob st t) by (done || by apply nonul_dec). cbn [mbind res_bind drop].
  destruct (head _) as [n|]; [|intros ->; exists MUartNoNode; split_and!; [done|by left|done]].
  unfold uart_reg. destruct (dtb_find_prop blob st (Some n) (lit "reg")) as [[p|]| |]; cbn [mbind res_bind]; [| |done..].
  2: { intros [= <-]. exists MUartNoReg. split_and!; [done|right; by left|done]. }
  destruct (dtb_get_addr_cells_for blob st (Some n)) as [ac| |]; cbn [mbind res_bind]; [|done..].
  destruct (deref_prop st (Some p)) as [pd| |]; cbn [mbind res_bind]; [|done..].
  destruct (dtb_read_prop_1 blob pd ac true) as [[count vals]| |]; cbn [mbind res_bind]; [|done..].
  destruct (16 <? count); [done|]. intros [= <-].
  destruct (1 <? count); eexists; (split; [done|]); (split; [|first [by apply wrap_fits|done]]); [done|]. right; by right.
Qed.

Lemma htif_found blob st t : searchable blob st t ->
  exists o, dtb_find_compatible blob st None (Some SOCT_HTIF_NAME_DTS) = Ret o /\ bool_decide (o <> None) = htif_described t.
Proof.
  intros Hse. assert (SOCT_HTIF_NAME_DTS = str "ucb,htif0" ++ [0]) as -> by apply lit_str.
  rewrite (find_compatible_spec blob st t) by (done || by apply nonul_dec). by eexists.
Qed.

Section start.
Context {D : Type} {HD : Mmio D} (PB : Z) (fuel : nat).
Abbreviation state := (bus D * sys)%type.
Abbreviation drv := (prog state).
Context {FS : Type} (f_mount : list (option Z) -> nat -> list Z -> FS -> Z * FS).
Context (host : Z -> list Z -> drv Z) (probe : drv bool) (dflt s_args : Z) (present : bool).
(** The mailbox returns, with a value whose negation is a long, and touches neither the UART
    nor the line buffer; the probe answers [present]. *)
Hypothesis host_returns : forall n a s, exists r s', host n a s = Ret (r, s') /\ - 2 ^ 63 < r < 2 ^ 63 /\ calm s s' /\ uart_base s'.2 = uart_base s.2.
Hypothesis mount_int : int_mount f_mount.
Hypothesis probe_answers : forall s, exists s', probe s = Ret (present, s') /\ calm s s' /\ uart_base s'.2 = uart_base s.2.

Abbreviation expected := (expected host fuel).

(** What the mailbox part of start-up logs. *)
Definition htif_msgs (described : bool) (hm : list msg) : Prop :=
  if described then if present then hm = [MHtifDetected; MMainvarsOk] \/ exists r, r <> 0 /\ - 2 ^ 63 < r < 2 ^ 63 /\ hm = [MHtifDetected; MMainvarsFailed r] else hm = []
  else hm = [MHtifNotDescribed].

Lemma mainvars_returns uart t a s : rep t [] (expected uart true) -> exists r s', syscall t SOCT_GET_MAINVARS a s = Ret (r, s') /\ - 2 ^ 63 < r < 2 ^ 63 /\ calm s s' /\ uart_base s'.2 = uart_base s.2.
Proof.
  intros Ht. unfold syscall. rewrite (rep_dispatch _ t _ _ _ _ _ Ht). cbn [app]. set (args := map u64 a ++ _). clearbody args.
  assert (forall s, dispatch (fun e (s : state) => (s.1, set_errno e s.2)) (expected uart true) SOCT_GET_MAINVARS args s =
    dispatch (fun e (s : state) => (s.1, set_errno e s.2)) [soct_handle_htif host] SOCT_GET_MAINVARS args s) as ->.
  { intros s0. unfold Start.expected. by destruct uart. }
  cbn [dispatch]. unfold soct_handle_htif. destruct (host_returns SOCT_GET_MAINVARS args s) as (r & s1 & E & Hr & Hc & Hu).
  unfold mbind, prog_bind, mret, prog_ret. rewrite E. unfold answer. destruct (Z.ltb_spec r 0); [|by eexists _, _].
  destruct (Z.eqb_spec r (- 2 ^ 63)); [lia|]. eexists _, _. split; [done|]. split; [lia|done].
Qed.

Lemma start_htif_spec blob st t tb l uart s : searchable blob st t -> rep tb [] (expected uart false) ->
  wp (start_htif host probe s_args blob st true tb l)
     (fun r s' => rep r.1.1 [] (expected uart (htif_described t && present)) /\
       (exists hm, r.1.2 = foldl log l hm /\ htif_msgs (htif_described t) hm) /\ calm s s' /\ uart_base s'.2 = uart_base s.2) s.
Proof.
  intros Hse Ht. destruct (htif_found blob st t Hse) as (o & Ho & Hd). unfold start_htif.
  apply wp_bind. eapply wp_lift; [exact Ho|]. apply wp_ret. rewrite Hd. cbn [andb negb orb]. unfold htif_msgs.
  destruct (htif_described t); cbn [negb orb andb].
  2: { apply wp_ret. cbn [fst snd]. split; [done|]. split; [by exists [MHtifNotDescribed]|]. by split. }
  destruct (probe_answers s) as (s1 & Ep & Hc1 & Hu1). apply wp_bind. unfold wp at 1. rewrite Ep. destruct present; cbn [negb].
  2: { apply wp_ret. cbn [fst snd]. split; [done|]. split; [by exists []|]. by split. }
  destruct (rep_default tb [] (expected uart false) (soct_handle_htif host) Ht) as (t' & -> & Ht'); [unfold Start.expected; destruct uart; cbn; unfold SOCT_N_SYSCALL_HANDLERS; lia|].
  assert (expected uart false ++ [soct_handle_htif host] = expected uart true) as He by (unfold Start.expected; by destruct uart).
  cbn [snd]. rewrite He in Ht'. destruct (mainvars_returns uart t' [s_args; 8 * SOCT_ARG_MAX] s1 Ht') as (r & s2 & Es & Hlong & Hc2 & Hu2).
  apply wp_bind. unfold wp at 1. rewrite Es.
  assert (calm s s2) as Hc by (destruct Hc1 as [A1 A2], Hc2 as [B1 B2]; split; congruence).
  assert (uart_base s2.2 = uart_base s.2) as Hu by congruence.
  destruct (Z.eqb_spec r 0) as [->|Hr]; cbn [negb].
  - apply wp_get, wp_ret. cbn [fst snd]. split; [done|]. split; [|by split]. exists [MHtifDetected; MMainvarsOk]. split; [done|by left].
  - apply wp_ret. cbn [fst snd]. split; [done|]. split; [|by split]. exists [MHtifDetected; MMainvarsFailed r]. split; [done|]. right. by exists r.
Qed.

Lemma log_all (ms : list msg) : (length ms <= 15)%nat -> foldl log [] ms = ms.
Proof. intros H. change (foldl log [] ms) with (foldl (Arena.soct_add_setup_msg MOverflow) [] ms). rewrite (Arena.setup_log_contents MOverflow ms). destruct (Nat.leb_spec (length ms) 15); [done|lia]. Qed.

Lemma first_handler (b : option Z) : rep (if bool_decide (b <> None) || negb true then (soct_register_default_handler (soct_handle_uart fuel) no_handlers).2 else no_handlers : table state) []
  (expected b false).
Proof.
  unfold Start.expected. rewrite app_nil_r. destruct b as [b|]; cbn [negb orb].
  - rewrite bool_decide_true by done. cbn [orb].
    destruct (rep_default (no_handlers : table state) [] [] (soct_handle_uart fuel) rep_empty) as (t' & -> & H); [cbn; unfold SOCT_N_SYSCALL_HANDLERS; lia|done].
  - rewrite bool_decide_false by (intros H; by apply H). apply rep_empty.
Qed.

Lemma start_spec dfuel o blob st0 st t b dtb_blob hartid (m0 : mounts (FS := FS)) s :
  dtb_init blob dfuel (dtb_blob =? 0) o st0 = Ret (true, st) -> errors st = [] -> searchable blob st t -> uart_at blob st t b ->
  Forall (fits_regs blob st) (sd_nodes t) ->
  wp (soct_start_main f_mount host probe s_args dfuel fuel o blob dtb_blob hartid st0 m0) (fun r s' =>
    rep (handlers r) [] (expected b (htif_described t && present)) /\
    (exists um sd hm, setup r = MWelcome hartid dtb_blob :: um :: map MSdc sd ++ hm ++ [MEntering] /\
      uart_msg b um /\ length sd = length (sd_nodes t) /\ htif_msgs (htif_described t) hm /\ msg_ok um /\ Forall setup_ok sd) /\
    calm s s' /\ uart_base s'.2 = default (uart_base s.2) b) s.
Proof.
  intros Hinit Herr Hse Hu Hsd. unfold soct_start_main. eapply wp_lift; [exact Hinit|]. cbn beta iota. rewrite Herr. cbn [rev map foldl].
  destruct (uart_init_spec blob st t b Hse Hu) as (um & E & Hum & Hok). eapply wp_lift; [exact E|]. cbn beta iota.
  set (tb := if _ || negb true then _ else _). assert (rep tb [] (expected b false)) as Htb by apply first_handler. clearbody tb.
  apply wp_bind. assert (wp (match b with Some b => put (set_base b) | None => mret tt end : drv unit)
    (fun _ s1 => calm s s1 /\ uart_base s1.2 = default (uart_base s.2) b) s) as Hbase by (by destruct b).
  eapply wp_mono; [exact Hbase|]. cbn beta. intros _ s1 [[C1 C2] U1].
  destruct (mounts_return blob st t f_mount (Mounts (s_regs m0) (sdc_ops m0) [] (ff m0)) mount_int Hse Hsd) as (any & ms & sd & Em & Emsgs & Esd & Hsdok).
  eapply wp_lift; [exact Em|]. cbn beta iota. cbn [msgs app] in Emsgs. rewrite Emsgs.
  wp_next (start_htif_spec blob st t tb (foldl log (log (log [] (MWelcome hartid dtb_blob)) um) (map MSdc sd)) b s1 Hse Htb).
  intros [[t' l'] argc] s2. cbn [fst snd]. intros (Ht' & (hm & -> & Hhm) & [C3 C4] & U2). apply wp_ret. cbn [handlers setup].
  split; [done|]. split; [|split; [by split; congruence|congruence]]. exists um, sd, hm. split; [|done].
  change (log ?l MEntering) with (foldl log l [MEntering]). rewrite <-!foldl_app.
  change (foldl log (log (log [] ?w) um) ?l) with (foldl log [] (w :: um :: l)). apply log_all.
  assert (length hm <= 2)%nat as H2.
  { unfold htif_msgs in Hhm. destruct (htif_described t); [|by subst; cbn; lia]. destruct present; [|by subst; cbn; lia]. destruct Hhm as [-> |(r & _ & _ & ->)]; cbn; lia. }
  assert (length (sd_nodes t) <= 2)%nat by (unfold sd_nodes; rewrite length_take; unfold SDC_MAX_DRIVES; lia).
  cbn [length]. rewrite !length_app, length_map. cbn [length]. lia.
Qed.
End start.

(** ** The log on the wire *)

(** The log as printed; a text strdup had no memory for prints as printf prints NULL. *)
Definition log_line (x : option (list Z)) : list Z := bytes "  - " ++ default (bytes "(null)") x ++ [LF].
Definition log_text (strdup : list Z -> option (list Z)) (l : list msg) (xs : list (list Z)) : list Z :=
  bytes "++ Soctglue log begin ++" ++ [LF] ++ concat (zip_with (fun m x => log_line (kept strdup m x)) l xs) ++ bytes "++ Soctglue log end ++" ++ [LF].

Section dump.
Context {D : Type} {HD : Mmio D} (PB B : Z) (fuel : nat).
Hypothesis drains : forall s : bus D * sys, exists v s', poll fuel (u64 (B + STATUS)) tx_free s = Ret (v, s').
Context (t : table (bus D * sys)) (more : list (handler (bus D * sys))).
Hypothesis Htab : rep t [] (soct_handle_uart fuel :: more).
Context (m0 : Memory.memory) (w0 : list (Z * Z)).
Hypothesis HPB : 0 < PB /\ PB + 128 < 2 ^ 64.
Context (dflt : Z) (strdup : list Z -> option (list Z)) (pf : nat).
Hypothesis Hdflt : fits 64 dflt.
Hypothesis Hpf : (200 < pf)%nat.
Hypothesis Hdup : forall x, strdup x = None \/ strdup x = Some x.

Abbreviation says_so := (console PB B m0 w0).

Lemma printf_literal l txt s : Forall (fun c => c <> ch "%") l -> (length l < pf)%nat -> says_so txt s ->
  wp (printf PB t pf l []) (fun _ s' => says_so (txt ++ map u8 l) s') s.
Proof.
  intros Hl Hk Hs. pose proof (fmt_lits l []) as Ef. pose proof (args_lits l []) as Ea. rewrite app_nil_r in *. cbn in Ef, Ea. rewrite app_nil_r in Ef.
  rewrite <-Ef in Hk |- *. rewrite <-Ea at 1. eapply wp_mono; [apply (printf_spec PB B fuel drains t [] more Htab (List.Forall_nil _) m0 w0 HPB); [done|by apply lits_ok|done]|].
  intros _ s' (out & Ho & H). rewrite <-(app_nil_r (map _ l)) in Ho. apply prints_lits in Ho as (o & Ho & ->). inversion Ho; subst. by rewrite app_nil_r, Ef in *.
Qed.

Lemma printf_line x txt s : zlen (default (bytes "(null)") x) <= 2 ^ 16 -> says_so txt s ->
  wp (printf PB t pf (bytes "  - %s" ++ [LF]) [AStr x]) (fun _ s' => says_so (txt ++ map u8 (log_line x)) s') s.
Proof.
  intros Hx Hs. set (ps := map Spec.Lit (bytes "  - ") ++ [Spec.Fmt (Spec.Dir [] Spec.NNone None [] (Spec.CStr x)); Spec.Lit LF]).
  change (bytes "  - %s" ++ [LF]) with (Spec.fmt_of ps). change [AStr x] with (Spec.args_of ps).
  eapply wp_mono; [apply (printf_spec PB B fuel drains t [] more Htab (List.Forall_nil _) m0 w0 HPB); [done| |cbn; lia]|].
  - apply Forall_app. split; [apply lits_ok; by apply (bool_decide_unpack _)|]. apply Forall_cons. split; [|by apply Forall_cons].
    apply piece_dir. unfold Spec.conv_ok. cbn [Spec.dconv]. change (Spec.eff_width _) with (-1). unfold INT_MAX. lia.
  - intros _ s' (out & Ho & H). apply prints_lits in Ho as (o & Ho & ->). inversion Ho as [| |d ps' o1 o2 Hr Ho2]; subst.
    inversion Ho2 as [|c ps' o3 Ho3|]; subst. inversion Ho3; subst. unfold Spec.renders in Hr. cbn [Spec.dconv] in Hr. subst o1.
    unfold log_line. revert H. unfold Spec.justified, Spec.padded, Spec.str_body. cbn [Spec.flags Spec.pad_char foldl].
    change (Spec.eff_width _) with (-1). change (Spec.eff_prec _ <? 0) with true. cbn iota. pose proof (zlen_nonneg (default (bytes "(null)") x)).
    replace (Z.to_nat (-1 - zlen (default (bytes "(null)") x))) with 0%nat by lia. done.
Qed.

Lemma dump_lines_spec l : Forall msg_ok l -> forall txt (s : bus D * sys), says_so txt s ->
  wp (dump_lines PB dflt strdup t pf l) (fun _ s' => exists xs, Forall2 (fun m x => text dflt pf m = Ret x) l xs /\
    says_so (txt ++ map u8 (concat (zip_with (fun m x => log_line (kept strdup m x)) l xs))) s') s.
Proof.
  induction 1 as [|m l Hm _ IH]; intros txt s Hs; cbn [dump_lines].
  { apply wp_ret. exists []. split; [done|]. cbn. by rewrite app_nil_r. }
  destruct (text_ok dflt pf m Hdflt Hm Hpf) as (x & Ex & Hx). eapply wp_lift; [exact Ex|].
  assert (zlen (default (bytes "(null)") (kept strdup m x)) <= 2 ^ 16) as Hlen.
  { assert (kept strdup m x = None \/ kept strdup m x = Some x) as [-> | ->] by (destruct m; auto); [|done]. vm_compute. discriminate. }
  wp_next (printf_line (kept strdup m x) txt s Hlen Hs). cbn beta. intros _ s1 H1. eapply wp_mono; [by apply IH|].
  intros _ s2 (xs & Hxs & H2). exists (x :: xs). split; [by constructor|]. cbn [zip_with concat]. by rewrite map_app, app_assoc.
Qed.

(** Text that ends its line is all on the wire. *)
Lemma console_ended txt (s : bus D * sys) : says_so (txt ++ [LF]) s -> wlog s.1 = w0 ++ map (Datatypes.pair (u64 (B + TX_FIFO))) (crlf (txt ++ [LF])) /\ pblen s.2 = 0.
Proof.
  intros (fl & pend & E & (Hw & _) & Hp & _ & Hn). assert (pend = []) as ->.
  { destruct pend as [|c pend _] using rev_ind; [done|]. rewrite app_assoc in E. apply app_inj_tail in E as [_ <-].
    apply Forall_app in Hn as [_ Hn]. by apply Forall_cons in Hn as [Hn _]. }
  rewrite app_nil_r in E. by rewrite E.
Qed.

Lemma dump_msgs_spec l (s : bus D * sys) : l <> [] -> Forall msg_ok l -> says_so [] s ->
  wp (dump_msgs PB dflt strdup t pf l) (fun _ s' => exists xs, Forall2 (fun m x => text dflt pf m = Ret x) l xs /\
    wlog s'.1 = w0 ++ map (Datatypes.pair (u64 (B + TX_FIFO))) (crlf (map u8 (log_text strdup l xs))) /\ pblen s'.2 = 0) s.
Proof.
  intros Hne Hl Hs. unfold dump_msgs. destruct l as [|m l]; [done|]. clear Hne.
  wp_next (printf_literal (bytes "++ Soctglue log begin ++" ++ [LF]) [] s); [by apply (bool_decide_unpack _)|cbn; lia|done|]. cbn beta. intros _ s1 H1.
  wp_next (dump_lines_spec (m :: l) Hl _ s1 H1). cbn beta. intros _ s2 (xs & Hxs & H2).
  apply wp_bind. eapply wp_mono; [eapply printf_literal; [|cbn; lia|exact H2]; by apply (bool_decide_unpack _)|]. cbn beta. intros _ s3 H3.
  apply wp_ret. exists xs. split; [done|].
  assert (map u8 (log_text strdup (m :: l) xs) = (map u8 (bytes "++ Soctglue log begin ++" ++ [LF]) ++
    map u8 (concat (zip_with (fun m x => log_line (kept strdup m x)) (m :: l) xs)) ++ map u8 (bytes "++ Soctglue log end ++")) ++ [LF]) as ->.
  { unfold log_text. rewrite !map_app, <-!app_assoc. done. }
  apply console_ended. rewrite map_app in H3. cbn [app] in H3. by rewrite <-!app_assoc in *.
Qed.
End dump.

(** C20. What start-up registers.  For every parsed device tree whose UART and SD registers
    fit the drivers' buffers, whatever the mount calls and the host answer: start-up comes to
    main with a handler table in which the UART is first, when the tree's first UART has an
    address and a size, and the host second, when the tree describes it and it answered the
    probe; nothing else.  So each later system call is answered by the first of these that does
    not pass, and by ENOSYS if there is none.  The UART's address is the tree's, if there is
    one, else unchanged; the log names in order what was found and done, and nothing is dropped. *)
Theorem handlers_registered {D} {HD : Mmio D} {FS} fuel f_mount host probe s_args present dfuel o blob st0 st t b dtb_blob hartid
    (m0 : mounts (FS := FS)) (s : bus D * sys) :
  (forall n a s, exists r s', host n a s = Ret (r, s') /\ - 2 ^ 63 < r < 2 ^ 63 /\ calm s s' /\ uart_base s'.2 = uart_base s.2) ->
  int_mount f_mount -> (forall s, exists s', probe s = Ret (present, s') /\ calm s s' /\ uart_base s'.2 = uart_base s.2) ->
  dtb_init blob dfuel (dtb_blob =? 0) o st0 = Ret (true, st) -> errors st = [] -> searchable blob st t -> uart_at blob st t b ->
  Forall (fits_regs blob st) (sd_nodes t) ->
  exists r s', soct_start_main f_mount host probe s_args dfuel fuel o blob dtb_blob hartid st0 m0 s = Ret (r, s') /\
    (forall num args s, soct_syscall errno_of (handlers r) num args s = dispatch errno_of (expected host fuel b (htif_described t && present)) num args s) /\
    uart_base s'.2 = default (uart_base s.2) b /\ calm s s' /\
    exists um sd hm, setup r = MWelcome hartid dtb_blob :: um :: map MSdc sd ++ hm ++ [MEntering] /\
      uart_msg b um /\ length sd = length (sd_nodes t) /\ htif_msgs present (htif_described t) hm.
Proof.
  intros Hhost Hmount Hprobe Hinit Herr Hse Hu Hsd.
  destruct (wp_run _ _ _ (start_spec fuel f_mount host probe s_args present Hhost Hmount Hprobe dfuel o blob st0 st t b dtb_blob hartid m0 s Hinit Herr Hse Hu Hsd))
    as (r & s' & E & Hrep & (um & sd & hm & H1 & H2 & H3 & H4 & _) & Hc & Hb).
  exists r, s'. split; [done|]. split; [intros; by apply (rep_dispatch _ _ [])|]. split_and!; [done..|]. by exists um, sd, hm.
Qed.

(** C7. The log is on the wire before main runs.  Under the same conditions, with a UART in
    the tree whose transmitter drains and an empty line buffer: [boot] reaches main, and what
    start-up put on the UART is exactly the log's text, the frame and one line per message with
    a carriage return before each line feed, wherever strdup failed to keep a message with
    "(null)" in its place; the line buffer is empty again. *)
Theorem boot_log_sent {D} {HD : Mmio D} {FS} PB fuel pf f_mount host probe dflt s_args strdup present dfuel o blob st0 st t B dtb_blob hartid
    (m0 : mounts (FS := FS)) (s : bus D * sys) :
  (forall n a s, exists r s', host n a s = Ret (r, s') /\ - 2 ^ 63 < r < 2 ^ 63 /\ calm s s' /\ uart_base s'.2 = uart_base s.2) ->
  int_mount f_mount -> (forall s, exists s', probe s = Ret (present, s') /\ calm s s' /\ uart_base s'.2 = uart_base s.2) ->
  dtb_init blob dfuel (dtb_blob =? 0) o st0 = Ret (true, st) -> errors st = [] -> searchable blob st t -> uart_at blob st t (Some B) ->
  Forall (fits_regs blob st) (sd_nodes t) ->
  (forall s : bus D * sys, exists v s', poll fuel (u64 (B + STATUS)) tx_free s = Ret (v, s')) ->
  (forall x, strdup x = None \/ strdup x = Some x) ->
  0 < PB /\ PB + 128 < 2 ^ 64 -> fits 64 dflt -> (200 < pf)%nat -> pblen s.2 = 0 -> INT_MIN <= hartid <= INT_MAX -> fits 64 dtb_blob ->
  exists r s' xs, boot PB f_mount host probe dflt s_args strdup dfuel fuel pf o blob dtb_blob hartid st0 m0 s = Ret (r, s') /\
    Forall2 (fun m x => text dflt pf m = Ret x) (setup r) xs /\
    wlog s'.1 = wlog s.1 ++ map (Datatypes.pair (u64 (B + TX_FIFO))) (crlf (map u8 (log_text strdup (setup r) xs))) /\ pblen s'.2 = 0.
Proof.
  intros Hhost Hmount Hprobe Hinit Herr Hse Hu Hsd Hdr Hdup HPB Hd Hpf Hp Hh Hblob.
  assert (wp (boot PB f_mount host probe dflt s_args strdup dfuel fuel pf o blob dtb_blob hartid st0 m0) (fun r s' =>
    exists xs, Forall2 (fun m x => text dflt pf m = Ret x) (setup r) xs /\
      wlog s'.1 = wlog s.1 ++ map (Datatypes.pair (u64 (B + TX_FIFO))) (crlf (map u8 (log_text strdup (setup r) xs))) /\ pblen s'.2 = 0) s) as H.
  2: { apply wp_run in H as (r & s' & E & xs & H). by exists r, s', xs. }
  unfold boot. wp_next (start_spec fuel f_mount host probe s_args present Hhost Hmount Hprobe dfuel o blob st0 st t (Some B) dtb_blob hartid m0 s Hinit Herr Hse Hu Hsd).
  intros r s1 (Hrep & (um & sd & hm & E & _ & _ & Hhm & Hum & Hsdok) & [Hw Hp1] & Hb). cbn [default] in Hb.
  assert (Forall msg_ok (setup r)) as Hok.
  { rewrite E. constructor; [done|]. constructor; [done|]. apply Forall_app. split; [by apply Forall_map|]. apply Forall_app. split; [|by constructor].
    unfold htif_msgs in Hhm. destruct (htif_described t); [|subst; by constructor]. destruct present; [|by subst].
    destruct Hhm as [-> |(v & _ & Hv & ->)]; (apply Forall_cons; split; [done|]); (apply Forall_cons; split; [|done]); [done|exact Hv]. }
  assert (says_so : console PB B (mem s1.2) (wlog s.1) [] s1).
  { exists [], []. split_and!; try done; [|by change (pblen s1.2 = 0); rewrite Hp1]. unfold filled. cbn. rewrite app_nil_r. by split_and!. }
  wp_next (dump_msgs_spec PB B fuel Hdr (handlers r) _ Hrep (mem s1.2) (wlog s.1) HPB dflt strdup pf Hd Hpf Hdup (setup r) s1); [by rewrite E|done..|].
  cbn beta. intros _ s2 H2. by apply wp_ret.
Qed.

(** ** A simulated board: a UART, a host and an SD card *)

Definition sim : tree :=
  Tree [] [INode (Tree (str "serial@60000000") [IProp 0 (str "compatible") (flat [str "riscv,axi-uart-1.0"]);
             IProp 11 (str "reg") (be_bytes 0 ++ be_bytes 0x60000000 ++ be_bytes 0 ++ be_bytes 0x10000)]);
           INode (Tree (str "memory@0") [IProp 11 (str "reg") (be_bytes 3)]);
           INode (Tree (str "htif") [IProp 0 (str "compatible") (flat [str "ucb,htif0"])]);
           INode (dev "mmc@60010000" 0x60010000 [str "riscv,axi-sd-card-1.0"])].
Definition sim_blob : list Z := mk_blob sim io_strings.

Lemma sim_fdt : is_fdt sim_blob 56 312 40 sim.
Proof. concrete_fdt. Qed.

Lemma sim_state : exists st, dtb_init sim_blob 200 false grant_all state0 = Ret (true, st) /\ st = parsed sim_blob /\
  Z.of_nat (node_alloc_head st) = nnodes sim /\ repr sim_blob (Info 56 312 64) st (node_alloc_head st) (prop_alloc_head st) 0 sim /\
  (node_alloc_head st <= length (node_buff st))%nat /\ (prop_alloc_head st <= length (prop_buff st))%nat.
Proof.
  destruct (init_parses sim_blob 56 312 40 _ sim grant_all 6 7 (fdt_blob _ _ _ _ _ sim_fdt) grant_all_granting) with (fuel := 200%nat)
    as (st & E & R & Hn & _ & Hr & H1 & H2 & _); [vm_compute; reflexivity..|vm_compute; discriminate|].
  exists st. unfold parsed. rewrite E. by split_and!.
Qed.

Lemma sim_good : good sim_blob (Info 56 312 64) sim.
Proof. split; [exact (fdt_wf _ _ _ _ _ sim_fdt)|]. cbn. repeat split; discriminate. Qed.

Lemma sim_searchable : searchable sim_blob (parsed sim_blob) sim.
Proof.
  destruct sim_state as (st & E & <- & Hn & Hr & H1 & H2). split; [exact H1|exact H2| |exact Hn|by apply (forallb_Forall _ _ _ well_listedb_true)|].
  - exists (Info 56 312 64). split; [exact Hr|exact sim_good].
  - apply (forallb_Forall _ _ _ (roomyb_true sim_blob)). unfold parsed in *. assert (st = parsed sim_blob) as -> by (unfold parsed; by rewrite E). vm_compute. reflexivity.
Qed.

(** The host gives no arguments and every mount succeeds. *)
Definition sim_host (n : Z) (a : list Z) : prog (bus fifo * sys) Z := mret 0.
Definition sim_probe : prog (bus fifo * sys) bool := mret true.
Definition sim_mount (regs : list (option Z)) (d : nat) (path : list Z) (fs : nat) : Z * nat := (0, S fs).
Definition sim_mounts : mounts (FS := nat) := Mounts (replicate 8 None) false [] 0%nat.
Definition sim_start : bus fifo * sys := (Bus 0 [], Sys (fun _ => 0) 0 0 0).

Lemma sim_host_returns : forall n a s, exists r s', sim_host n a s = Ret (r, s') /\ - 2 ^ 63 < r < 2 ^ 63 /\ calm s s' /\ uart_base s'.2 = uart_base s.2.
Proof. intros n a s. by exists 0, s. Qed.
Lemma sim_probe_answers : forall s, exists s', sim_probe s = Ret (true, s') /\ calm s s' /\ uart_base s'.2 = uart_base s.2.
Proof. intros s. by exists s. Qed.
Lemma sim_mount_int : int_mount sim_mount.
Proof. intros regs d p fs. cbn. unfold INT_MIN, INT_MAX. lia. Qed.
Lemma sim_init : dtb_init sim_blob 200 (0x80000000 =? 0) grant_all state0 = Ret (true, parsed sim_blob) /\ errors (parsed sim_blob) = [].
Proof. vm_compute. split; reflexivity. Qed.
Lemma sim_uart : uart_at sim_blob (parsed sim_blob) sim (Some 0x60000000).
Proof. vm_compute. reflexivity. Qed.
Lemma sim_sd : Forall (fits_regs sim_blob (parsed sim_blob)) (sd_nodes sim).
Proof.
  assert (sd_nodes sim = [4%nat]) as -> by (vm_compute; reflexivity). constructor; [|done]. eexists. vm_compute. reflexivity.
Qed.

Lemma handlers_registered_witness : exists r s',
  soct_start_main sim_mount sim_host sim_probe 0x80100000 200 2 grant_all sim_blob 0x80000000 0 state0 sim_mounts sim_start = Ret (r, s') /\
  uart_base s'.2 = 0x60000000 /\
  forall num args s, soct_syscall errno_of (handlers r) num args s = dispatch errno_of [soct_handle_uart 2; soct_handle_htif sim_host] num args s.
Proof.
  destruct (handlers_registered 2 sim_mount sim_host sim_probe 0x80100000 true 200 grant_all sim_blob state0 (parsed sim_blob) sim (Some 0x60000000) 0x80000000 0 sim_mounts sim_start
    sim_host_returns sim_mount_int sim_probe_answers (proj1 sim_init) (proj2 sim_init) sim_searchable sim_uart sim_sd) as (r & s' & E & Hd & Hb & _).
  exists r, s'. split; [exact E|]. split; [exact Hb|]. exact Hd.
Defined.

Lemma boot_log_sent_witness : exists r s' xs,
  boot 0x80001000 sim_mount sim_host sim_probe 0 0x80100000 Some 200 2 300 grant_all sim_blob 0x80000000 0 state0 sim_mounts sim_start = Ret (r, s') /\
  Forall2 (fun m x => text 0 300 m = Ret x) (setup r) xs /\
  wlog s'.1 = map (Datatypes.pair 0x60000004) (crlf (map u8 (log_text Some (setup r) xs))).
Proof.
  destruct (boot_log_sent 0x80001000 2 300 sim_mount sim_host sim_probe 0 0x80100000 Some true 200 grant_all sim_blob state0 (parsed sim_blob) sim 0x60000000 0x80000000 0 sim_mounts sim_start
    sim_host_returns sim_mount_int sim_probe_answers (proj1 sim_init) (proj2 sim_init) sim_searchable sim_uart sim_sd (fifo_drains (0x60000000 + STATUS)) (fun x => or_intror eq_refl))
    as (r & s' & xs & E & H1 & H2 & _); [lia|unfold fits; lia|lia|reflexivity|unfold INT_MIN, INT_MAX; lia|unfold fits; lia|].
  exists r, s', xs. split; [exact E|]. split; [exact H1|exact H2].
Defined.

(** What the terminal shows. *)
Example sim_wire :
  match boot 0x80001000 sim_mount sim_host sim_probe 0 0x80100000 Some 200 2 300 grant_all sim_blob 0x80000000 0 state0 sim_mounts sim_start with
  | Ret (_, s) => map snd (wlog s.1)
  | _ => []
  end = crlf (flat_map (fun l => bytes l ++ [LF])
    ["++ Soctglue log begin ++"; "  - Soctglue initialized from hart 0 with dtb blob at 0x80000000";
     "  - UART node found in DTB with base address 0x60000000"; "  - /SD: mounted from DTB node at 0x160010000";
     "  - HTIF device detected, registering handler"; "  - Successfully retrieved main vars from HTIF syscall";
     "  - Initialization complete, entering main"; "++ Soctglue log end ++"]%string).
Proof. vm_compute. reflexivity. Qed.

(** ** Without a tree *)

Section no_tree.
Context {D : Type} {HD : Mmio D} {FS : Type} (fuel : nat) (f_mount : list (option Z) -> nat -> list Z -> FS -> Z * FS).
Context (host : Z -> list Z -> prog (bus D * sys) Z) (probe : prog (bus D * sys) bool) (s_args : Z).

Lemma no_nodes blob st name : node_alloc_head st = 0%nat -> dtb_find_compatible blob st None name = Ret None.
Proof. intros H. unfold dtb_find_compatible. by rewrite H. Qed.

Lemma no_uart blob st : node_alloc_head st = 0%nat -> soct_init_from_dtb_uart blob st = Ret (false, None, MUartNoNode).
Proof. intros H. unfold soct_init_from_dtb_uart. by rewrite no_nodes. Qed.

Lemma no_cards blob st (m : mounts (FS := FS)) : node_alloc_head st = 0%nat -> soct_init_from_dtb_sdc blob st f_mount m = Ret (false, m).
Proof. intros H. unfold soct_init_from_dtb_sdc, slots. cbn [mount_from]. by rewrite no_nodes. Qed.

(** A null pointer counts as a tree, an empty one: start-up registers nothing and does not
    probe for the host, whatever they are, and every system call of the program, the printing
    of the log included, fails with ENOSYS. *)
Lemma null_blob_silences dfuel o blob hartid (m0 : mounts (FS := FS)) (s : bus D * sys) : malloc o <> None ->
  exists r, soct_start_main f_mount host probe s_args dfuel fuel o blob 0 hartid state0 m0 s = Ret (r, s) /\
    handlers r = no_handlers /\ setup r = [MWelcome hartid 0; MUartNoNode; MHtifNotDescribed; MEntering] /\
    forall num args s, soct_syscall errno_of (handlers r) num args s = Ret (-1, errno_of ENOSYS s).
Proof.
  intros Ho. unfold soct_start_main, dtb_init. cbn [ops set_ops Z.eqb]. destruct (malloc o) eqn:E; [|done]. clear Ho.
  set (st := set_root None _). assert (node_alloc_head st = 0%nat) as Hn by done. assert (errors st = []) as He by done. clearbody st.
  unfold mbind at 1, prog_bind at 1, lift at 1. rewrite He. cbn [rev map foldl].
  unfold mbind at 1, prog_bind at 1, lift at 1. rewrite no_uart by done. cbn beta iota.
  unfold mbind at 1, prog_bind at 1. unfold mret at 1, prog_ret at 1. cbn beta iota.
  unfold mbind at 1, prog_bind at 1, lift at 1. rewrite no_cards by done. cbn beta iota.
  unfold start_htif. unfold mbind at 1, prog_bind at 1, mbind at 1, prog_bind at 1, mbind at 1, prog_bind at 1, lift at 1. rewrite no_nodes by done.
  eexists. split; [done|]. split; [done|]. split; [done|]. done.
Qed.

(** A blob without the magic number is no tree: the UART is registered at its default address
    and the host is probed for. *)
Lemma bad_magic_falls_back dfuel o blob dtb_blob hartid (m0 : mounts (FS := FS)) magic (s : bus D * sys) : malloc o <> None -> dtb_blob <> 0 ->
  hdr blob hdr_magic = Ret magic -> magic <> FDT_MAGIC -> probe s = Ret (false, s) ->
  exists r, soct_start_main f_mount host probe s_args dfuel fuel o blob dtb_blob hartid state0 m0 s = Ret (r, s) /\
    forall num args s, soct_syscall errno_of (handlers r) num args s = dispatch errno_of [soct_handle_uart fuel] num args s.
Proof.
  intros Ho Hb Hm Hmagic Hp. unfold soct_start_main, dtb_init. cbn [ops set_ops]. destruct (malloc o) eqn:E; [|done]. clear Ho.
  apply Z.eqb_neq in Hb as ->. rewrite Hm. unfold mbind at 1, prog_bind at 1, lift at 1. unfold mbind at 1, res_bind at 1.
  apply Z.eqb_neq in Hmagic as ->. cbn [negb]. set (st := LOG_ERROR _ _).
  assert (node_alloc_head st = 0%nat) as Hn by (unfold st, LOG_ERROR; by destruct (on_error _)). clearbody st.
  unfold mbind at 1, prog_bind at 1, lift at 1. rewrite no_uart by done. cbn beta iota.
  unfold mbind at 1, prog_bind at 1. unfold mret at 1, prog_ret at 1. cbn beta iota.
  unfold mbind at 1, prog_bind at 1, lift at 1. rewrite no_cards by done. cbn beta iota.
  unfold start_htif. unfold mbind at 1, prog_bind at 1, mbind at 1, prog_bind at 1, mret at 1, prog_ret at 1. cbn beta iota. cbn [andb negb orb].
  unfold mbind at 1, prog_bind at 1. rewrite Hp. cbn [negb].
  eexists. split; [done|]. intros num args s'. cbn [handlers].
  destruct (rep_default (no_handlers : table (bus D * sys)) [] [] (soct_handle_uart fuel) rep_empty) as (t' & -> & Ht); [cbn; unfold SOCT_N_SYSCALL_HANDLERS; lia|].
  by apply (rep_dispatch _ t' [] [soct_handle_uart fuel]).
Qed.
End no_tree.

(** A UART whose reg property is an address alone is refused, an SD controller is not. *)
Lemma uart_needs_size : soct_init_from_dtb_uart io_blob (parsed io_blob) = Ret (false, None, MUartBadReg) /\
  base_of io_blob (parsed io_blob) 3 = Ret (Some 0x160000000).
Proof. vm_compute. split; reflexivity. Qed.
