(* ===== verification/AxiSdc.v ===== *)
(** * The Linux driver of the SD controller (binaries/linux/drivers/sdc/fpga-axi-sdc.c)

    The handlers the MMC core and the interrupt call, each a run under the host lock over
    any controller ([Mmio]).  Deadlines are numbers of polls, which are arguments: the
    driver's waits are total functions.  Calls into the kernel that matter here (mapping,
    unmapping, completing a request, reporting a card change) are logged. *)
From S2P Require Import Prelude Mmio Sdc.

(** Flags of the MMC core (include/linux/mmc). *)
Definition MMC_RSP_PRESENT : Z := 0x01.
Definition MMC_RSP_136 : Z := 0x02.
Definition MMC_RSP_CRC : Z := 0x04.
Definition MMC_RSP_BUSY : Z := 0x08.
Definition MMC_RSP_OPCODE : Z := 0x10.
Definition MMC_DATA_WRITE : Z := 0x100.
Definition MMC_DATA_READ : Z := 0x200.
Definition MMC_POWER_UP : Z := 1.
Definition MMC_BUS_WIDTH_4 : Z := 2.

Definition EIO : Z := 5.
Definition EINVAL : Z := 22.
Definition ETIME : Z := 62.
Definition ETIMEDOUT : Z := 110.

Definition CMD_TIMEOUT_MS : Z := 1000.
Definition BUSY_TIMEOUT_MS : Z := 500.
Definition SDC_CONTROL_SD_4BIT : Z := 0x0001.
Definition SDC_CARD_INSERT_INT_EN : Z := 0x0001.
Definition SDC_CARD_INSERT_INT_REQ : Z := 0x0002.
Definition SDC_CARD_REMOVE_INT_EN : Z := 0x0004.
Definition SDC_CARD_REMOVE_INT_REQ : Z := 0x0008.
Definition SDC_DAT_INT_STATUS_ERR : Z := 0x0002.
Definition r_cmd_int_enable : Z := 0x38.
Definition r_dat_int_enable : Z := 0x40.
Definition r_card_detect : Z := 0x4c.

(** [struct mmc_command], [struct mmc_data] and [struct mmc_request], as far as they are used.
    What [dma_map_sg] answers for the data's scatter list is part of the data. *)
Record mmc_command := Cmd { opcode : Z; arg : Z; flags : Z; error : Z; resp : list Z }.
Record mmc_data := Data {
  dflags : Z; blksz : Z; blocks : Z; sg_length : Z; derror : Z; bytes_xfered : Z;
  map_count : Z; map_addr : Z; map_len : Z }.
Record mmc_request := Request { rid : nat; sbc : option mmc_command; cmd : mmc_command; data : option mmc_data; stop : option mmc_command }.

Definition cmd_error e (c : mmc_command) := Cmd (opcode c) (arg c) (flags c) e (resp c).
Definition cmd_resp r (c : mmc_command) := Cmd (opcode c) (arg c) (flags c) (error c) r.
Definition data_error e (d : mmc_data) := Data (dflags d) (blksz d) (blocks d) (sg_length d) e (bytes_xfered d) (map_count d) (map_addr d) (map_len d).
Definition data_bytes b (d : mmc_data) := Data (dflags d) (blksz d) (blocks d) (sg_length d) (derror d) b (map_count d) (map_addr d) (map_len d).

(** The kernel calls, newest last. *)
Inductive kcall := KMap (r : nat) | KUnmap (r : nat) | KDone (r : mmc_request) | KDetect.

(** [struct sdc_host]: the current request, and its data while a transfer runs. *)
Record sdc_host := Host {
  mrq : option mmc_request; hdata : option mmc_data;
  dma_count : Z; dma_addr : Z; dma_size : Z; klog : list kcall }.
Definition set_mrq m h := Host m (hdata h) (dma_count h) (dma_addr h) (dma_size h) (klog h).
Definition set_hdata d h := Host (mrq h) d (dma_count h) (dma_addr h) (dma_size h) (klog h).
Definition set_dma c a s h := Host (mrq h) (hdata h) c a s (klog h).
Definition kcalls l h := Host (mrq h) (hdata h) (dma_count h) (dma_addr h) (dma_size h) (klog h ++ l).

(** The address width [axi_sdc_probe] takes from the capability register. *)
Definition SDC_CAPABILITY_ADDR : Z := 0xff00.
Definition probe_addr_bits (capability : Z) : Z :=
  if tst capability SDC_CAPABILITY_ADDR then (capability .& SDC_CAPABILITY_ADDR) .>> 8 else 32.

Section axi.
Context {D : Type} {HD : Mmio D}.
Abbreviation drv := (prog (bus D * sdc_host)).

(** Set at probe: the controller's clock and address width. *)
Context (clk_freq dma_addr_bits : Z).
(** [mmc->ios]. *)
Record mmc_ios := Ios { clock : Z; bus_width : Z; power_mode : Z }.

Definition sdc_wait_sw_reset (n : nat) (set : bool) : drv unit :=
  _ ← poll_until n r_software_reset (fun reg => if set then negb (reg .& 1 =? 0) else reg =? 0); mret tt.

Definition clk_div (clock : Z) : Z :=
  let clock := if clock <? 400000 then 400000 else clock in
  let clk_div := clk_freq / u32 (2 * clock) in
  let clk_div := if clk_div >? 0x100 then 0x100 else clk_div in
  if clk_div <? 1 then 1 else clk_div.

Definition sdc_set_clock (clock : Z) : drv unit :=
  if u32 (2 * Z.max clock 400000) =? 0 then undef (* the division *) else
  cur ← rd r_clock_divider;
  if negb (cur =? clk_div clock - 1) then wr r_clock_divider (clk_div clock - 1) else mret tt.

(** The answer is the command as it is left. *)
Definition sdc_cmd_finish (n : nat) (c : mmc_command) : drv mmc_command :=
  st ← poll_until n r_cmd_int_status (fun v => negb (v =? 0));
  match st with
  | None => mret (cmd_error (- ETIMEDOUT) c)
  | Some status =>
      wr r_cmd_int_status 0;;
      sdc_wait_sw_reset n false;;
      if status =? SDC_CMD_INT_STATUS_CC then
        a ← rd r_response1;
        if tst (flags c) MMC_RSP_136 then
          b ← rd r_response2; e ← rd r_response3; d ← rd r_response4; mret (cmd_resp [a; b; e; d] c)
        else mret (cmd_resp (a :: tl (resp c)) c)
      else mret (cmd_error (if tst status SDC_CMD_INT_STATUS_CTE then - ETIME else - EIO) c)
  end.

(** What [sdc_setup_data_xfer] refuses: a shape the controller cannot do, a buffer outside
    its address range or shorter than the transfer. *)
Definition shape_ok (h : sdc_host) (d : mmc_data) : bool :=
  negb (tst (dma_addr h) 3 || tst (blksz d) 3 || (blksz d <? 4) || (blksz d >? 0x1000) || (blocks d >? 0x10000)).
Definition room_ok (h : sdc_host) (d : mmc_data) : bool :=
  negb ((u64 (dma_addr h + u32 (blksz d * blocks d)) >? 1 .<< dma_addr_bits) || (sg_length d <? u32 (blksz d * blocks d))).

Definition data_timeout_of (ios : mmc_ios) (d : mmc_data) : Z :=
  u64 (u32 (blocks d * blksz d * 8) / (1 .<< bus_width ios)
       + u64 (u64 (clock ios * BUSY_TIMEOUT_MS) / 1000 * blocks d)).

(** A watchdog register: the value, or all ones when it does not read back. *)
Definition arm (r timeout : Z) : drv unit :=
  wr r (u32 timeout);;
  v ← rd r;
  if negb (v =? timeout) then wr r 0xFFFFFFFF else mret tt.

Definition sdc_setup_data_xfer (ios : mmc_ios) (d : mmc_data) : drv Z :=
  h ← get;
  if negb (shape_ok h d) then mret (- EINVAL) else
  if 64 <=? dma_addr_bits then undef (* the shift *) else
  if negb (room_ok h d) then mret (- EINVAL) else
  wr r_dma_addres (dma_addr h);;
  wr r_block_size (blksz d - 1);;
  wr r_block_count (u32 (blocks d - 1));;
  arm r_data_timeout (data_timeout_of ios d);;
  mret 0.

Definition command_word (c : mmc_command) : Z :=
  (opcode c .<< 8)
  .| (if tst (flags c) MMC_RSP_PRESENT then if tst (flags c) MMC_RSP_136 then 2 else 1 else 0)
  .| (if tst (flags c) MMC_RSP_BUSY then 1 .<< 2 else 0)
  .| (if tst (flags c) MMC_RSP_CRC then 1 .<< 3 else 0)
  .| (if tst (flags c) MMC_RSP_OPCODE then 1 .<< 4 else 0).
Definition data_bits (d : mmc_data) : Z :=
  (if tst (dflags d) MMC_DATA_READ then 1 .<< 5 else 0) .| (if tst (dflags d) MMC_DATA_WRITE then 1 .<< 6 else 0).

(** The mapping and set-up of a data command: the error and, when there is none, the extra
    command bits. *)
Definition map_data (r : nat) (ios : mmc_ios) (d : mmc_data) : drv (Z * mmc_data * Z) :=
  put (kcalls [KMap r]);;
  put (fun h => set_dma (map_count d) (dma_addr h) (dma_size h) h);;
  if negb (map_count d =? 1) then put (kcalls [KUnmap r]);; mret (- EIO, data_error (- EIO) d, 0) else
  put (fun h => set_dma (dma_count h) (map_addr d) (map_len d) h);;
  let d := data_bytes 0 d in
  e ← sdc_setup_data_xfer ios d;
  if e <? 0 then put (kcalls [KUnmap r]);; mret (e, data_error e d, 0)
  else mret (0, data_error e d, data_bits d).

Definition has_xfer (d : option mmc_data) : option mmc_data :=
  match d with
  | Some d => if tst (dflags d) (MMC_DATA_READ .| MMC_DATA_WRITE) && negb (blocks d =? 0) then Some d else None
  | None => None
  end.

(** The registers of a command and its end.  The answer is the return value and the command
    and data as they are left. *)
Definition issue_cmd (n : nat) (r : nat) (ios : mmc_ios) (c : mmc_command) (od : option mmc_data) (extra : Z) (xfer : bool)
    : drv (Z * mmc_command * option mmc_data) :=
  wr r_command (command_word c .| extra);;
  arm r_cmd_timeout (u64 (clock ios * CMD_TIMEOUT_MS) / 1000);;
  wr r_argument (arg c);;
  c ← sdc_cmd_finish n c;
  if error c <? 0 then
    (if xfer then put (kcalls [KUnmap r]) else mret tt);; mret (error c, c, od)
  else
    (if xfer then put (set_hdata od) else mret tt);; mret (0, c, od).

Definition sdc_send_cmd (n : nat) (r : nat) (ios : mmc_ios) (c : mmc_command) (od : option mmc_data)
    : drv (Z * mmc_command * option mmc_data) :=
  '(e, od, extra, xfer) ← match has_xfer od with
    | None => mret (0, od, 0, false)
    | Some d => '(e, d, bits) ← map_data r ios d; mret (e, Some d, bits, true)
    end;
  if e <? 0 then mret (e, c, od) else issue_cmd n r ios c od extra xfer.

Definition clear_errors (q : mmc_request) : mmc_request :=
  Request (rid q) (cmd_error 0 <$> sbc q) (cmd_error 0 (cmd q)) (data_error 0 <$> data q) (cmd_error 0 <$> stop q).

Definition sdc_request (n : nat) (ios : mmc_ios) (q : mmc_request) : drv unit :=
  let q := clear_errors q in
  put (set_hdata None);;
  put (set_mrq (Some q));;
  '(go, q) ← match sbc q with
    | None => mret (true, q)
    | Some c => '(e, c, _) ← sdc_send_cmd n (rid q) ios c None;
                mret (e =? 0, Request (rid q) (Some c) (cmd q) (data q) (stop q))
    end;
  q ← (if go : bool then
         '(_, c, d) ← sdc_send_cmd n (rid q) ios (cmd q) (data q);
         mret (Request (rid q) (sbc q) c d (stop q))
       else mret q);
  h ← get;
  match hdata h with
  | None => put (kcalls [KDone q]);; put (set_mrq None)
  | Some _ =>
      put (set_mrq (Some q));;
      wr r_dat_int_enable (SDC_DAT_INT_STATUS_TRS .| SDC_DAT_INT_STATUS_ERR)
  end.

Definition sdc_reset_locked (n : nat) : drv unit :=
  sdc_set_clock 400000;;
  wr r_software_reset 1;;
  sdc_wait_sw_reset n true;;
  wr r_software_reset 0;;
  sdc_wait_sw_reset n false;;
  wr r_control 0;;
  wr r_cmd_int_enable 0;;
  wr r_dat_int_enable 0;;
  wr r_cmd_int_status 0;;
  wr r_dat_int_status 0;;
  card_detect ← rd r_card_detect;
  (if tst card_detect SDC_CARD_INSERT_INT_REQ then wr r_card_detect SDC_CARD_REMOVE_INT_EN
   else if tst card_detect SDC_CARD_REMOVE_INT_REQ then wr r_card_detect SDC_CARD_INSERT_INT_EN
   else mret tt);;
  sdc_wait_sw_reset n false.

Definition sdc_set_ios (n : nat) (ios : mmc_ios) : drv unit :=
  (if power_mode ios =? MMC_POWER_UP then sdc_reset_locked n else mret tt);;
  sdc_set_clock (clock ios);;
  wr r_control (if bus_width ios =? MMC_BUS_WIDTH_4 then SDC_CONTROL_SD_4BIT else 0).

Definition sdc_card_reset : drv unit :=
  control ← rd r_control;
  wr r_control (control .| SDC_CONTROL_SD_RESET);;
  wr r_control (control .& cnot 32 SDC_CONTROL_SD_RESET).

(** [inverted] is MMC_CAP2_CD_ACTIVE_HIGH. *)
Definition sdc_get_cd (inverted : bool) : drv bool :=
  card_detect ← rd r_card_detect;
  mret (if card_detect =? 0 then true
        else tst card_detect (if inverted then SDC_CARD_REMOVE_INT_REQ else SDC_CARD_INSERT_INT_REQ)).

(** The card-detect half of the interrupt handler. *)
Definition isr_detect : drv unit :=
  card_detect ← rd r_card_detect;
  if tst card_detect SDC_CARD_INSERT_INT_REQ then
    if tst card_detect SDC_CARD_INSERT_INT_EN then wr r_card_detect SDC_CARD_REMOVE_INT_EN;; put (kcalls [KDetect]) else mret tt
  else if tst card_detect SDC_CARD_REMOVE_INT_REQ then
    if tst card_detect SDC_CARD_REMOVE_INT_EN then wr r_card_detect SDC_CARD_INSERT_INT_EN;; put (kcalls [KDetect]) else mret tt
  else mret tt.

Definition data_result (data_status : Z) (d : mmc_data) : mmc_data :=
  if data_status =? SDC_DAT_INT_STATUS_TRS then data_bytes (u32 (blksz d * blocks d)) d
  else data_error (if tst data_status SDC_DAT_INT_STATUS_CTE then - ETIME else - EIO) d.

Definition sdc_isr (n : nat) (ios : mmc_ios) : drv unit :=
  isr_detect;;
  data_status ← rd r_dat_int_status;
  if data_status =? 0 then mret tt else
  wr r_dat_int_enable 0;;
  wr r_dat_int_status 0;;
  sdc_wait_sw_reset n false;;
  h ← get;
  match hdata h, mrq h with
  | Some d, Some q =>
      let d := data_result data_status d in
      st ← match stop q with
        | None => mret None
        | Some c => '(_, c, _) ← sdc_send_cmd n (rid q) ios c None; mret (Some c)
        end;
      put (kcalls [KUnmap (rid q)]);;
      put (set_hdata None);;
      put (set_mrq None);;
      put (kcalls [KDone (Request (rid q) (sbc q) (cmd q) (Some d) st)])
  | Some _, None => undef (* [mrq->stop] with [mrq] NULL *)
  | None, _ => mret tt
  end.

(** ** The driver as a machine *)

(** What can happen to the driver.  [budget] is the number of polls before each deadline. *)
Inductive event :=
| EReq (q : mmc_request)
| EIsr
| EIos
| ECardReset.
Definition handle (budget : nat) (ios : mmc_ios) (e : event) : drv unit :=
  match e with
  | EReq q => sdc_request budget ios q
  | EIsr => sdc_isr budget ios
  | EIos => sdc_set_ios budget ios
  | ECardReset => sdc_card_reset
  end.
End axi.
