(* ===== verification/AxiSdcProofs.v ===== *)
(** * The Linux SD driver: its requests, its DMA mappings, its watchdogs

    Total-correctness specifications ([wp]) of the handlers of [AxiSdc], bottom up, and the
    theorems over histories: every request completes exactly once, every mapping is undone
    before its request completes, no handler hangs. *)
From S2P Require Import Prelude Mmio Sdc AxiSdc.

Section specs.
Context {D : Type} {HD : Mmio D} (clk_freq dma_addr_bits : Z).
Implicit Types (s : bus D * sdc_host) (h : sdc_host).
Abbreviation drv := (prog (bus D * sdc_host)).
Abbreviation quiet := (still (snd : bus D * sdc_host -> sdc_host)).

Lemma quiet_wait n b : quiet (sdc_wait_sw_reset n b).
Proof. unfold sdc_wait_sw_reset. still. Qed.
Hint Resolve quiet_wait : still.

Lemma quiet_arm r t : quiet (arm r t).
Proof. unfold arm. still. Qed.

Lemma quiet_finish n c : quiet (sdc_cmd_finish n c).
Proof. unfold sdc_cmd_finish. still. destruct a; still. Qed.

Lemma quiet_set_clock c : u32 (2 * Z.max c 400000) <> 0 -> quiet (sdc_set_clock clk_freq c).
Proof. intros Hc. unfold sdc_set_clock. destruct (Z.eqb_spec (u32 (2 * Z.max c 400000)) 0); [done|]. still. Qed.
Hint Resolve quiet_arm quiet_finish quiet_set_clock : still.

Lemma quiet_card_reset : quiet sdc_card_reset.
Proof. unfold sdc_card_reset. still. Qed.

Lemma quiet_set_ios n ios : u32 (2 * Z.max (clock ios) 400000) <> 0 -> quiet (sdc_set_ios clk_freq n ios).
Proof.
  intros Hc. assert (quiet (sdc_set_clock clk_freq 400000)) by (apply quiet_set_clock; by vm_compute).
  unfold sdc_set_ios, sdc_reset_locked. still.
Qed.

(** ** Data set-up *)

Lemma quiet_setup ios d : dma_addr_bits < 64 -> quiet (sdc_setup_data_xfer dma_addr_bits ios d).
Proof.
  intros Hb s. unfold sdc_setup_data_xfer. apply wp_get. destruct (negb (shape_ok _ _)); [done|].
  destruct (Z.leb_spec 64 dma_addr_bits); [lia|]. destruct (negb (room_ok _ _ _)); [done|].
  assert (quiet (wr r_dma_addres (dma_addr s.2);; wr r_block_size (blksz d - 1);; wr r_block_count (u32 (blocks d - 1));;
    arm r_data_timeout (data_timeout_of ios d);; mret 0)) as Hq by still. apply Hq.
Qed.

(** What a piece of the driver leaves of the request: nothing but mapping entries in the log. *)
Definition mapped (h h' : sdc_host) (l : list kcall) : Prop :=
  mrq h' = mrq h /\ hdata h' = hdata h /\ klog h' = klog h ++ l.

Lemma map_data_spec r ios d s : dma_addr_bits < 64 ->
  wp (map_data dma_addr_bits r ios d)
     (fun '(e, d', _) s' => mapped s.2 s'.2 (if e <? 0 then [KMap r; KUnmap r] else [KMap r])) s.
Proof.
  intros Hb. unfold map_data. apply wp_put, wp_put. destruct (negb (map_count d =? 1)).
  { apply wp_put, wp_ret. change (- EIO <? 0) with true. unfold mapped. cbn. split_and!; [done|done|]. by rewrite <-app_assoc. }
  apply wp_put. apply wp_still with (f := snd : bus D * sdc_host -> sdc_host); [by apply quiet_setup|]. cbn. intros e s1 E.
  destruct (Z.ltb_spec e 0) as [He|He].
  - apply wp_put, wp_ret. destruct (Z.ltb_spec e 0); [|lia]. unfold mapped. cbn. rewrite E. cbn.
    split_and!; [done|done|]. by rewrite <-app_assoc.
  - apply wp_ret. unfold mapped. rewrite E. done.
Qed.

(** ** Commands *)

(** After a command: its data is being transferred, or nothing is left of it. *)
Definition sent (r : nat) (od : option mmc_data) (h h' : sdc_host) : Prop :=
  mrq h' = mrq h /\
  ((od <> None /\ hdata h' <> None /\ klog h' = klog h ++ [KMap r]) \/
   (hdata h' = hdata h /\ (klog h' = klog h \/ klog h' = klog h ++ [KMap r; KUnmap r]))).

Lemma issue_cmd_spec xfer n r ios c od bits s h : od <> None \/ xfer = false ->
  mapped h s.2 (if xfer then [KMap r] else []) ->
  wp (issue_cmd (D:=D) n r ios c od bits xfer) (fun _ s' => sent r od h s'.2 /\ (xfer = false -> s'.2 = s.2)) s.
Proof.
  intros Hod (H1 & H2 & H3). unfold issue_cmd, sent.
  do 3 (apply wp_still with (f := snd : bus D * sdc_host -> sdc_host); [still|]; intros ? ? ?). apply wp_still with (f := snd : bus D * sdc_host -> sdc_host); [still|]. intros c' s4 E4.
  assert (s4.2 = s.2) as Es by congruence. destruct (error c' <? 0), xfer; apply wp_bind, wp_ret; cbn; rewrite Es.
  - split; [|done]. split; [done|]. right. split; [done|]. right. by rewrite H3, <-app_assoc.
  - rewrite app_nil_r in H3. auto 8.
  - split; [|done]. split; [done|]. left. destruct Hod; [auto|done].
  - rewrite app_nil_r in H3. auto 8.
Qed.

(** A command without data leaves the driver's variables alone. *)
Lemma send_cmd_spec n r ios c od s : dma_addr_bits < 64 ->
  wp (sdc_send_cmd dma_addr_bits n r ios c od) (fun _ s' => sent r od s.2 s'.2 /\ (od = None -> s'.2 = s.2)) s.
Proof.
  intros Hb. unfold sdc_send_cmd. destruct (has_xfer od) as [d|] eqn:Hx.
  - assert (od <> None) as Hod by (by intros ->). apply wp_bind, wp_bind.
    eapply wp_mono; [by apply map_data_spec|]. intros [[e d'] bits] s1 Hm. apply wp_ret. cbn beta iota.
    destruct (Z.ltb_spec e 0).
    + apply wp_ret. destruct Hm as (H1 & H2 & H3). split; [|done]. split; auto.
    + eapply wp_mono; [apply issue_cmd_spec with (h := s.2); [by left|done]|].
      cbn. intros _ s' [Hs _]. split; [|done]. unfold sent in *. destruct Hs as [-> [Hs|Hs]]; intuition (done || auto).
  - apply wp_bind, wp_ret. cbn beta iota. change (0 <? 0) with false. cbn iota.
    eapply wp_mono; [apply (issue_cmd_spec false) with (h := s.2); [by right|]|].
    + split_and!; [done|done|by rewrite app_nil_r].
    + cbn. intros _ s' [Hs ?]. auto.
Qed.

(** ** The log *)

(** The buffer mapped after the log, when it is in order: mappings never nest, an unmapping
    undoes the mapping that is live, and no request completes while one is. *)
Fixpoint audit (live : option nat) (l : list kcall) : option (option nat) :=
  match l, live with
  | [], _ => Some live
  | KMap r :: l, None => audit (Some r) l
  | KUnmap r :: l, Some r' => if Nat.eqb r r' then audit None l else None
  | KDone _ :: l, None => audit None l
  | KDetect :: l, _ => audit live l
  | _, _ => None
  end.
Definition completed (l : list kcall) : list nat := omap (fun k => match k with KDone q => Some (rid q) | _ => None end) l.

Lemma audit_app a b : forall live, audit live (a ++ b) = audit live a ≫= fun o => audit o b.
Proof. induction a as [|[r|r|q|] a IH]; intros [l|]; cbn; auto. destruct (Nat.eqb r l); auto. Qed.

(** The driver between two handlers, [issued] being the requests it was given. *)
Definition in_order (issued : list nat) (h : sdc_host) : Prop :=
  match mrq h, hdata h with
  | None, None => completed (klog h) = issued /\ audit None (klog h) = Some None
  | Some q, Some _ => completed (klog h) ++ [rid q] = issued /\ audit None (klog h) = Some (Some (rid q))
  | _, _ => False
  end.
Definition idle (h : sdc_host) : Prop := mrq h = None.

Lemma completed_app a b : completed (a ++ b) = completed a ++ completed b.
Proof. apply omap_app. Qed.

(** ** The handlers *)

Lemma sent_pairs r od h h' : sent r od h h' -> hdata h = None -> audit None (klog h) = Some None ->
  mrq h' = mrq h /\ completed (klog h') = completed (klog h) /\
  match hdata h' with
  | Some _ => od <> None /\ audit None (klog h') = Some (Some r)
  | None => audit None (klog h') = Some None
  end.
Proof.
  intros [Hm Hs] Hd Ha. split; [done|].
  destruct Hs as [(Ho & Hh & ->)|(Hh & [->| ->])]; rewrite ?completed_app, ?audit_app, Ha; cbn;
    rewrite ?app_nil_r, ?Nat.eqb_refl; (split; [done|]).
  - destruct (hdata h'); [done|done].
  - by rewrite Hh, Hd.
  - by rewrite Hh, Hd.
Qed.

(** The host while a request is being issued. *)
Definition issuing (q : mmc_request) (od : option mmc_data) (issued : list nat) (h : sdc_host) : Prop :=
  mrq h = Some q /\ completed (klog h) = issued /\
  match hdata h with
  | Some _ => od <> None /\ audit None (klog h) = Some (Some (rid q))
  | None => audit None (klog h) = Some None
  end.

Lemma issuing_any q od issued h : issuing q None issued h -> issuing q od issued h.
Proof. unfold issuing. destruct (hdata h); [|done]. by intros (? & ? & ? & ?). Qed.

Lemma sent_issuing q od issued h h' : issuing q None issued h -> sent (rid q) od h h' -> issuing q od issued h'.
Proof.
  unfold issuing. intros (Hq & Hc & Hh) Hs. destruct (hdata h) as [d|] eqn:Hd; [by destruct Hh|].
  destruct (sent_pairs _ _ _ _ Hs Hd Hh) as (-> & -> & ?). by split_and!.
Qed.

#[local] Opaque sdc_send_cmd.

Lemma request_spec n ios q issued s : dma_addr_bits < 64 -> idle s.2 -> in_order issued s.2 ->
  wp (sdc_request dma_addr_bits n ios q) (fun _ s' => in_order (issued ++ [rid q]) s'.2) s.
Proof.
  intros Hb Hi Ho. unfold sdc_request. remember (clear_errors q) as q' eqn:Hq.
  assert (rid q' = rid q) as Er by (by rewrite Hq). do 2 apply wp_put. cbn.
  assert (issuing q' None issued (set_mrq (Some q') (set_hdata None s.2))) as H0.
  { unfold in_order, idle in *. rewrite Hi in Ho. destruct (hdata s.2); [done|]. destruct Ho. by split_and!. }
  apply wp_bind. apply wp_mono with (Q := fun '(_, p) s' => rid p = rid q' /\ issuing q' None issued s'.2).
  { destruct (sbc q') as [c|]; [|by apply wp_ret]. wp_next send_cmd_spec; [done|].
    intros [[e c'] o] s1 [Hs _]. apply wp_ret. split; [done|]. by eapply sent_issuing. }
  intros [go p] s1 [Hp H1]. cbn beta iota. apply wp_bind.
  apply wp_mono with (Q := fun p' s' => rid p' = rid q' /\ issuing q' (data p) issued s'.2).
  { destruct go; [|apply wp_ret; split; [done|]; by apply issuing_any].
    wp_next send_cmd_spec; [done|]. intros [[e c'] o] s2 [Hs _]. apply wp_ret. split; [done|].
    rewrite Hp in Hs. by eapply sent_issuing. }
  intros p' s2 [Hp' (H2 & H3 & H4)]. apply wp_get. destruct (hdata s2.2) as [d|] eqn:Hd.
  - apply wp_put, wp_mono with (Q := fun _ s' => s'.2 = set_mrq (Some p') s2.2); [apply wr_quiet|].
    intros _ s3 ->. unfold in_order. cbn [mrq hdata klog set_mrq]. rewrite Hd. destruct H4 as [_ H4].
    by rewrite H3, H4, Hp', Er.
  - apply wp_put, wp_put_last. unfold in_order. cbn [fst snd mrq hdata klog set_mrq kcalls].
    rewrite Hd, completed_app, audit_app, H4, H3. cbn. by rewrite Hp', Er.
Qed.

Lemma isr_spec n ios issued s : dma_addr_bits < 64 -> in_order issued s.2 ->
  wp (sdc_isr dma_addr_bits n ios) (fun _ s' => in_order issued s'.2) s.
Proof.
  intros Hb Ho. unfold sdc_isr. apply wp_bind.
  apply wp_mono with (Q := fun _ s' => in_order issued s'.2).
  { assert (Hk : in_order issued (kcalls [KDetect] s.2)).
    { unfold in_order in *. cbn [mrq hdata klog kcalls]. rewrite completed_app, audit_app. cbn. rewrite app_nil_r.
      destruct (mrq s.2), (hdata s.2); try done; by destruct Ho as [-> ->]. }
    unfold isr_detect. apply wp_still with (f := snd : bus D * sdc_host -> sdc_host); [still|]. intros cd s1 E.
    repeat case_match; try (by apply wp_ret; rewrite E);
      (apply wp_still with (f := snd : bus D * sdc_host -> sdc_host); [still|]; intros ? s2 E2; apply wp_ret; cbn; by rewrite E2, E). }
  intros _ s1 H1. apply wp_still with (f := snd : bus D * sdc_host -> sdc_host); [still|]. intros st s2 E2. rewrite <-E2 in H1. clear E2.
  destruct (st =? 0); [done|]. do 3 (apply wp_still with (f := snd : bus D * sdc_host -> sdc_host); [still|]; intros ? ? ?).
  assert (s4.2 = s2.2) as Es by congruence. rewrite <-Es in H1. apply wp_get. unfold in_order in H1.
  destruct (hdata s4.2) as [d|] eqn:Hd, (mrq s4.2) as [q|] eqn:Hq; try done.
  2: { apply wp_ret. unfold in_order. by rewrite Hd, Hq. }
  destruct H1 as [H1 H5]. apply wp_bind. apply wp_mono with (Q := fun _ s' => s'.2 = s4.2).
  { destruct (stop q) as [c|]; [|by apply wp_ret]. wp_next send_cmd_spec; [done|].
    intros [[e c'] o] s5 [_ Hs]. apply wp_ret. by apply Hs. }
  intros sp s5 E5. do 3 apply wp_put. apply wp_put_last. unfold in_order.
  cbn [fst snd mrq hdata klog set_mrq set_hdata kcalls]. rewrite E5, !completed_app, !audit_app, H5. cbn.
  rewrite Nat.eqb_refl. cbn. by rewrite app_nil_r.
Qed.

(** ** Histories *)

(** The requests of a history; the MMC core gives the driver one only when it is idle. *)
Definition issued_by (evs : list event) : list nat := omap (fun e => match e with EReq q => Some (rid q) | _ => None end) evs.

(** A history: each event with the polls its waits are given and the settings in force. *)
Inductive history : list event -> bus D * sdc_host -> Prop :=
| history_start b : history [] (b, Host None None 0 0 0 [])
| history_step evs s n ios e s' :
    history evs s ->
    (match e with EReq _ => idle s.2 | _ => True end) ->
    u32 (2 * Z.max (clock ios) 400000) <> 0 ->
    handle clk_freq dma_addr_bits n ios e s = Ret (tt, s') ->
    history (evs ++ [e]) s'.

Lemma handle_spec n ios e issued s : dma_addr_bits < 64 -> (match e with EReq _ => idle s.2 | _ => True end) ->
  u32 (2 * Z.max (clock ios) 400000) <> 0 -> in_order issued s.2 ->
  wp (handle clk_freq dma_addr_bits n ios e) (fun _ s' => in_order (issued ++ issued_by [e]) s'.2) s.
Proof.
  intros Hb Hi Hc Ho. destruct e as [q| | |]; cbn [handle issued_by omap list_omap]; rewrite ?app_nil_r.
  - by apply request_spec.
  - by apply isr_spec.
  - eapply wp_mono; [by apply quiet_set_ios|]. cbn. by intros _ s' ->.
  - eapply wp_mono; [apply quiet_card_reset|]. cbn. by intros _ s' ->.
Qed.

Lemma history_in_order evs s : dma_addr_bits < 64 -> history evs s -> in_order (issued_by evs) s.2.
Proof.
  intros Hb. induction 1 as [b|evs s n ios e s' H IH Hi Hc E]; [done|].
  unfold issued_by. rewrite omap_app. pose proof (handle_spec n ios e _ s Hb Hi Hc IH) as W.
  unfold wp in W. by rewrite E in W.
Qed.

(** ** Watchdogs *)

(** A controller whose register [r] keeps the low [w] bits of what is written to it, [cur]
    being what it holds. *)
Record keeps_low (r w : Z) (cur : D -> Z) : Prop := {
  low_write : forall d v, cur (mmio_write d r v) = wrap w v;
  low_other : forall d r' v, r' <> r -> cur (mmio_write d r' v) = cur d;
  low_read : forall d, (mmio_read d r).1 = cur d;
  low_reads : forall d r', cur (mmio_read d r').2 = cur d }.

Section watchdog.
Context (r w : Z) (cur : D -> Z) (Hk : keeps_low r w cur) (Hw : 0 < w <= 32).
Abbreviation holding := (still (fun s : bus D * sdc_host => cur (dev s.1))).

Lemma holding_rd r' : holding (rd r').
Proof. intros s. unfold wp, rd. pose proof (low_reads r w cur Hk (dev s.1) r'). by destruct (mmio_read _ _). Qed.

Lemma holding_wr r' v : r' <> r -> holding (wr r' v).
Proof. intros Hr s. unfold wp. cbn. by apply (low_other r w cur Hk). Qed.

Lemma holding_put f : holding (put f).
Proof. by intros s. Qed.
Hint Resolve holding_rd holding_put : still.
Hint Extern 1 (holding (wr _ _)) => apply holding_wr : still.

Lemma holding_poll_until r' p n : holding (poll_until n r' p).
Proof. induction n; cbn; still. Qed.
Hint Resolve holding_poll_until : still.

Lemma holding_finish n c : r <> r_cmd_int_status -> holding (sdc_cmd_finish n c).
Proof. intros Hr. unfold sdc_cmd_finish. still. destruct a; unfold sdc_wait_sw_reset; still. Qed.

(** All ones reach what fits; a time that fits is kept. *)
Lemma arm_spec t s : 0 <= t < 2 ^ 64 -> wp (arm r t) (fun _ s' => cur (dev s'.1) = Z.min t (2 ^ w - 1)) s.
Proof.
  intros Ht. assert (0 < 2 ^ w <= 2 ^ 32) by (split; [apply Z.pow_pos_nonneg; lia|apply Z.pow_le_mono_r; lia]).
  unfold arm. apply wp_bind. unfold wp at 1, wr. cbn.
  apply wp_bind. unfold wp at 1, rd. cbn.
  set (d1 := mmio_write (dev s.1) r (u32 t)).
  pose proof (low_read r w cur Hk d1) as Hr. pose proof (low_reads r w cur Hk d1 r) as Hs.
  destruct (mmio_read d1 r) as [v d2]. cbn in Hr, Hs. unfold d1 in Hr, Hs. rewrite (low_write r w cur Hk) in Hr, Hs.
  assert (wrap w (u32 t) = wrap w t) as Ew.
  { unfold wrap. apply Z.mod_mod_divide. exists (2 ^ (32 - w)).
    rewrite <-Z.pow_add_r by lia. f_equal. lia. }
  rewrite Ew in Hr, Hs. subst v. pose proof (wrap_range w t ltac:(lia)).
  rewrite (wrap_small 32 (wrap w t)) by (unfold fits; lia).
  destruct (Z.eqb_spec (wrap w t) t) as [E|E]; unfold wp; cbn.
  - rewrite Hs, E. lia.
  - rewrite (low_write r w cur Hk). assert (2 ^ w <= t).
    { destruct (Z.lt_ge_cases t (2 ^ w)); [|done]. destruct E. apply wrap_small. unfold fits. lia. }
    rewrite Z.min_r by lia. unfold wrap. symmetry. apply Z.mod_unique_pos with (2 ^ (32 - w) - 1); [lia|].
    assert (2 ^ w * 2 ^ (32 - w) = 2 ^ 32) by (rewrite <-Z.pow_add_r by lia; f_equal; lia). lia.
Qed.
End watchdog.
End specs.


(** Whatever width the controller gives its command watchdog, the register counts one
    second of card clocks while the command runs, or as much of it as the register can hold;
    so the watchdog, which zero turns off, is off only for a stopped clock. *)
Theorem command_watchdog {D} {HD : Mmio D} w cur n r ios c od extra xfer (s : bus D * sdc_host) :
  keeps_low r_cmd_timeout w cur -> 0 < w <= 32 -> fits 32 (clock ios) ->
  wp (issue_cmd n r ios c od extra xfer) (fun _ s' => cur (dev s'.1) = Z.min (clock ios) (2 ^ w - 1)) s.
Proof.
  intros Hk Hw Hc. unfold fits in Hc. unfold issue_cmd.
  apply (wp_still (fun s => cur (dev s.1))); [by eapply holding_wr|]. intros _ s1 _.
  assert (u64 (clock ios * CMD_TIMEOUT_MS) / 1000 = clock ios) as ->.
  { unfold CMD_TIMEOUT_MS. rewrite wrap_small by (unfold fits; lia). apply Z.div_mul. lia. }
  apply wp_bind. eapply wp_mono; [apply (arm_spec r_cmd_timeout w cur Hk Hw); lia|]. cbn. intros _ s2 <-.
  match goal with |- wp ?m _ _ => assert (still (fun s : bus D * sdc_host => cur (dev s.1)) m) as H end; [|apply H].
  still; first [by eapply holding_put|by eapply holding_finish|by eapply holding_wr].
Qed.

(** A data transfer is set up exactly when its buffer is word-aligned, lies below the
    controller's address limit and holds the whole transfer, and the block shape is one the
    controller has; anything else is refused with [-EINVAL] and nothing is written. *)
Theorem setup_exact {D} {HD : Mmio D} dma_addr_bits ios d (s s' : bus D * sdc_host) e :
  0 <= dma_addr_bits < 64 -> 0 <= dma_addr s.2 < 2 ^ 63 -> 0 <= blksz d -> 0 <= blocks d ->
  sdc_setup_data_xfer dma_addr_bits ios d s = Ret (e, s') ->
  let ok := dma_addr s.2 mod 4 = 0 /\ blksz d mod 4 = 0 /\ 4 <= blksz d <= 4096 /\ blocks d <= 65536 /\
    dma_addr s.2 + blksz d * blocks d <= 2 ^ dma_addr_bits /\ blksz d * blocks d <= sg_length d in
  (e = 0 /\ ok) \/ (e = - EINVAL /\ ~ ok /\ s' = s).
Proof.
  intros Hb Ha Hs Hn H ok. unfold sdc_setup_data_xfer in H. prog_step H h s1 E. apply get_did in E as [-> ->].
  assert (forall x, tst x 3 = negb (x mod 4 =? 0)) as T.
  { intros x. unfold tst. change 3 with (Z.ones 2). by rewrite land_ones_mod by lia. }
  destruct (shape_ok s.2 d) eqn:Hok; unfold shape_ok in Hok; rewrite !T, !Z.gtb_ltb in Hok; cbn [negb] in H.
  2: { apply ret_did in H as [-> ->]. right. split_and!; [done| |done]. unfold ok. intros (? & ? & ? & ? & _). zcases_in Hok; done. }
  destruct (Z.leb_spec 64 dma_addr_bits); [lia|].
  assert (Hsh : dma_addr s.2 mod 4 = 0 /\ blksz d mod 4 = 0 /\ 4 <= blksz d <= 4096 /\ blocks d <= 65536)
    by (zcases_in Hok; done).
  assert (0 <= blksz d * blocks d <= 4096 * 65536) by nia.
  assert (u32 (blksz d * blocks d) = blksz d * blocks d) as E1 by (apply wrap_small; unfold fits; lia).
  assert (u64 (dma_addr s.2 + blksz d * blocks d) = dma_addr s.2 + blksz d * blocks d) as E2 by (apply wrap_small; unfold fits; lia).
  destruct (room_ok dma_addr_bits s.2 d) eqn:Hro; unfold room_ok in Hro;
    rewrite E1, E2, Z.gtb_ltb, Z.shiftl_1_l in Hro; cbn [negb] in H.
  - left. prog_step H u1 s1 E3. prog_step H u2 s2 E4. prog_step H u3 s3 E5. prog_step H u4 s4 E6. apply ret_did in H as [-> _]. split; [done|]. unfold ok. zcases_in Hro.
  - apply ret_did in H as [-> ->]. right. split_and!; [done| |done]. unfold ok. zcases_in Hro.
Qed.

(** The card is never clocked slower than it was asked to be, unless the divider cannot go
    that low: the division rounds down, so the clock is the requested one when twice it divides
    the controller's, and otherwise above it, by less than a factor of two. *)
Theorem clock_rounds_up clk_freq clock : 400000 <= clock -> 2 * clock <= clk_freq < 2 ^ 32 ->
  clk_freq / (2 * clock) <= 0x100 ->
  let made := clk_freq / (2 * clk_div clk_freq clock) in
  clock <= made < 2 * clock /\ (clk_freq mod (2 * clock) <> 0 -> 2 * clk_div clk_freq clock * clock < clk_freq).
Proof.
  intros Hc HF Hd made. unfold made, clk_div. clear made. destruct (Z.ltb_spec clock 400000); [lia|].
  replace (u32 (2 * clock)) with (2 * clock) by (symmetry; apply wrap_small; unfold fits; lia).
  pose proof (Z.div_mod clk_freq (2 * clock)) as Ed. pose proof (Z.mod_pos_bound clk_freq (2 * clock)).
  set (d := clk_freq / (2 * clock)) in *. assert (1 <= d) by (apply Z.div_le_lower_bound; lia).
  destruct (Z.gtb_spec d 256); [lia|]. destruct (Z.ltb_spec d 1); [lia|].
  split_and!; [apply Z.div_le_lower_bound; nia|apply Z.div_lt_upper_bound; nia|nia].
Qed.

(** ** The theorems at a concrete controller *)

(** A controller that finishes at once and keeps 25 bits of the command timeout. *)
#[export] Instance axi_ready : Mmio Z := {
  mmio_read d r :=
    ((if r =? r_cmd_timeout then d
      else if (r =? r_cmd_int_status) || (r =? r_dat_int_status) then 1 else 0), d);
  mmio_write d r v := if r =? r_cmd_timeout then wrap 25 v else d }.

Definition ex_data : mmc_data := Data MMC_DATA_READ 512 2 1024 0 0 1 0x80001000 1024.
Definition ex_req : mmc_request :=
  Request 7 None (Cmd 18 0x100 (MMC_RSP_PRESENT .| MMC_RSP_CRC .| MMC_RSP_OPCODE) 0 [0; 0; 0; 0]) (Some ex_data)
    (Some (Cmd 12 0 MMC_RSP_PRESENT 0 [0; 0; 0; 0])).
Definition ex_ios : mmc_ios := Ios 50000000 MMC_BUS_WIDTH_4 2.
Definition ex_start : bus Z * sdc_host := (Bus 0 [], Host None None 0 0 0 []).
Definition ex_after (e : event) (s : bus Z * sdc_host) : bus Z * sdc_host :=
  match handle 100000000 40 3 ex_ios e s with Ret (_, s') => s' | _ => s end.
Definition ex_running := ex_after (EReq ex_req) ex_start.
Definition ex_done := ex_after EIsr ex_running.

Lemma ex_keeps : keeps_low r_cmd_timeout 25 (fun d : Z => d).
Proof.
  split; try done. intros d r' v Hr. unfold mmio_write, axi_ready. by destruct (Z.eqb_spec r' r_cmd_timeout).
Qed.

Lemma ex_history : history 100000000 40 [EReq ex_req; EIsr] ex_done.
Proof.
  apply (history_step 100000000 40 [EReq ex_req] ex_running 3 ex_ios EIsr); [|done|by vm_compute|by vm_compute].
  apply (history_step 100000000 40 [] ex_start 3 ex_ios (EReq ex_req)); [constructor|done|by vm_compute|by vm_compute].
Qed.


Lemma command_watchdog_witness :
  wp (issue_cmd 3 7 ex_ios (cmd ex_req) None 0 false) (fun _ s' => dev s'.1 = 2 ^ 25 - 1) ex_start.
Proof. exact (command_watchdog 25 (fun d => d) 3 7 ex_ios (cmd ex_req) None 0 false ex_start ex_keeps ltac:(done) ltac:(done)). Defined.

Lemma setup_exact_witness :
  let s := (Bus 0 [], Host None None 1 0xfffff000 4096 []) : bus Z * sdc_host in
  let d := Data MMC_DATA_READ 512 16 8192 0 0 1 0xfffff000 8192 in
  exists e s', sdc_setup_data_xfer 32 ex_ios d s = Ret (e, s') /\ e = - EINVAL.
Proof.
  intros s d. destruct (sdc_setup_data_xfer 32 ex_ios d s) as [[e s']| |] eqn:E; [|vm_compute in E; done..].
  exists e, s'. split; [done|].
  destruct (setup_exact 32 ex_ios d s s' e ltac:(done) ltac:(done) ltac:(done) ltac:(done) E) as [[_ H]|H]; [|by apply H].
  destruct H as (_ & _ & _ & _ & H & _). by vm_compute in H.
Defined.

Lemma clock_rounds_up_witness : clk_div 90000000 25000000 = 1 /\ 2 * 1 * 25000000 < 90000000.
Proof.
  split; [by vm_compute|]. apply (clock_rounds_up 90000000 25000000); [lia|lia|by vm_compute|by vm_compute].
Defined.
