(* ===== verification/AxiProbe.v ===== *)
(** * Probe and removal of the Linux SD driver (fpga-axi-sdc.c)

    What [axi_sdc_probe] takes from the kernel, step by step, what each failing step gives
    back, and what [axi_sdc_remove] undoes.  The kernel's answers are one record; the host, the
    interrupt and the registration with the MMC core are logged as they come and go.  The
    requests of [AxiSdc] run between the two. *)
From S2P Require Import Prelude Mmio Sdc AxiSdc AxiSdcProofs.

Definition ENXIO : Z := 6.
Definition ENOMEM : Z := 12.
Definition MMC_CAP_SD_HIGHSPEED : Z := 2.
Definition MMC_CAP_MMC_HIGHSPEED : Z := 4.
Definition MMC_CAP2_NO_SDIO : Z := 0x80000.
Definition MMC_VDD_32_33 : Z := 0x100000.
Definition MMC_VDD_33_34 : Z := 0x200000.

(** What the platform answers; an error is a negative number.  [of_parse] is the error of
    [mmc_of_parse] with the limits and capabilities it read. *)
Record platform := Platform {
  ioremap_err : Z; irq : Z; allocs_host : bool; clock_prop : option Z;
  of_parse_err : Z; of_f_min : Z; of_f_max : Z; of_caps : Z; of_caps2 : Z;
  request_irq_err : Z; dma_mask_err : Z; add_host_err : Z }.

(** The fields of [struct mmc_host] the driver sets. *)
Record mmc_host := Mmc {
  f_min : Z; f_max : Z; caps : Z; caps2 : Z; ocr_avail : Z;
  max_segs : Z; max_req_size : Z; max_seg_size : Z; max_blk_size : Z; max_blk_count : Z }.

Inductive pev := PAlloc | PFree | PIrq | PFreeIrq | PAdd | PRemove.

(** What the probe settled, and the log. *)
Record card_dev := Dev { clk : Z; addr_bits : Z; mmc : option mmc_host; drvdata : bool; plog : list pev }.
Definition set_clk c x := Dev c (addr_bits x) (mmc x) (drvdata x) (plog x).
Definition set_bits b x := Dev (clk x) b (mmc x) (drvdata x) (plog x).
Definition set_mmc m x := Dev (clk x) (addr_bits x) m (drvdata x) (plog x).
Definition set_drvdata x := Dev (clk x) (addr_bits x) (mmc x) true (plog x).
Definition happened e x := Dev (clk x) (addr_bits x) (mmc x) (drvdata x) (plog x ++ [e]).

(** [mmc_host] as the probe fills it, from what the device tree gave. *)
Definition fill_host (p : platform) (clk_freq : Z) : mmc_host :=
  let sdio_off := negb (of_caps2 p .& MMC_CAP2_NO_SDIO =? 0) in
  Mmc (if of_f_min p =? 0 then clk_freq / 0x200 else of_f_min p)
      (if of_f_max p =? 0 then clk_freq / 2 else of_f_max p)
      (if sdio_off then of_caps p else of_caps p .| (MMC_CAP_SD_HIGHSPEED .| MMC_CAP_MMC_HIGHSPEED))
      (if sdio_off then of_caps2 p else of_caps2 p .| MMC_CAP2_NO_SDIO)
      (MMC_VDD_32_33 .| MMC_VDD_33_34) 1 0x2000000 0x2000000 0x1000 0x10000.

Section probe.
Context {D : Type} {HD : Mmio D} (p : platform).
Abbreviation drv := (prog ((bus D * sdc_host) * card_dev)).

(** Run a function of the driver proper; change what the probe settles. *)
Definition on_host {A} (m : prog (bus D * sdc_host) A) : drv A := fun s =>
  match m s.1 with Ret (a, q) => Ret (a, (q, s.2)) | Undef => Undef | Fuel => Fuel end.
Definition on_dev (f : card_dev -> card_dev) : drv unit := fun s => Ret (tt, (s.1, f s.2)).
Definition did_ev (e : pev) : drv unit := on_dev (happened e).

Definition sdc_reset (n : nat) (clk_freq : Z) : drv unit := on_host (sdc_reset_locked clk_freq n).

(** The host is zeroed when it is allocated, and its pointer is gone when it is freed. *)
Definition mmc_alloc_host : drv unit :=
  did_ev PAlloc;; on_host (put (fun _ => Host None None 0 0 0 []));; on_dev (set_mmc (Some (Mmc 0 0 0 0 0 0 0 0 0 0))).
Definition mmc_free_host : drv unit := did_ev PFree;; on_dev (set_mmc None).

(** The address width, and the DMA mask that goes with it; a mask wider than 64 bits is a shift
    C does not define. *)
Definition set_dma_mask : drv Z :=
  capability ← on_host (rd r_capability);
  on_dev (set_bits (probe_addr_bits capability));;
  if tst capability SDC_CAPABILITY_ADDR then
    if 64 <? probe_addr_bits capability then undef else mret (dma_mask_err p)
  else mret 0.

(** From the interrupt on. *)
Definition start_host (n : nat) (clk_freq : Z) : drv Z :=
  if negb (request_irq_err p =? 0) then mmc_free_host;; mret (request_irq_err p) else
  did_ev PIrq;;
  ret ← set_dma_mask;
  if negb (ret =? 0) then did_ev PFreeIrq;; mmc_free_host;; mret ret else
  sdc_reset n clk_freq;;
  if negb (add_host_err p =? 0) then did_ev PFreeIrq;; mmc_free_host;; mret (add_host_err p) else
  did_ev PAdd;;
  on_dev set_drvdata;; mret 0.

Definition axi_sdc_probe (n : nat) : drv Z :=
  if negb (ioremap_err p =? 0) then mret (ioremap_err p) else
  if irq p <=? 0 then mret (- ENXIO) else
  if negb (allocs_host p) then mret (- ENOMEM) else
  mmc_alloc_host;;
  let clk_freq := match clock_prop p with Some c => c | None => 100000000 end in
  on_dev (set_clk clk_freq);;
  if negb (of_parse_err p =? 0) then mmc_free_host;; mret (of_parse_err p) else
  on_dev (set_mmc (Some (fill_host p clk_freq)));;
  start_host n clk_freq.

Definition axi_sdc_remove : drv unit :=
  did_ev PFreeIrq;; did_ev PRemove;; mmc_free_host.
End probe.

(** ** The order of the events *)

(** Whether the host is allocated, its interrupt requested and the host registered. *)
Record held := Held { host_on : bool; irq_on : bool; added : bool }.
Definition pstep (h : held) (e : pev) : option held :=
  match e with
  | PAlloc => if host_on h then None else Some (Held true false false)
  | PFree => if host_on h && negb (irq_on h) && negb (added h) then Some (Held false false false) else None
  | PIrq => if host_on h && negb (irq_on h) then Some (Held true true (added h)) else None
  | PFreeIrq => if irq_on h then Some (Held (host_on h) false (added h)) else None
  | PAdd => if host_on h && irq_on h && negb (added h) then Some (Held true true true) else None
  | PRemove => if host_on h && added h then Some (Held true (irq_on h) false) else None
  end.
(** An interrupt is only ever requested for a host that exists, and a host only freed when
    neither its interrupt nor the MMC core can reach it. *)
Fixpoint psteps (h : held) (l : list pev) : option held :=
  match l with [] => Some h | e :: l => h ← pstep h e; psteps h l end.
Definition nothing : held := Held false false false.

Lemma psteps_app a b : forall h, psteps h (a ++ b) = psteps h a ≫= fun h => psteps h b.
Proof. induction a as [|e a IH]; intros h; cbn; [done|]. destruct (pstep h e); [apply IH|done]. Qed.

Section specs.
Context {D : Type} {HD : Mmio D} (p : platform).
Abbreviation state := ((bus D * sdc_host) * card_dev)%type.
Abbreviation drv := (prog state).
Implicit Types (s : state) (h : held).

(** The log is in order and leaves [h]. *)
Definition at_ h s : Prop := psteps nothing (plog s.2) = Some h.

Lemma wp_card {B} f (c : unit -> drv B) (Q : B -> state -> Prop) s : wp (c tt) Q (s.1, f s.2) -> wp (u ← on_dev f; c u) Q s.
Proof. intros H. by apply wp_bind. Qed.

Lemma wp_host {A B} (m : prog (bus D * sdc_host) A) (c : A -> drv B) (Q : B -> state -> Prop) s :
  wp m (fun a q => wp (c a) Q (q, s.2)) s.1 -> wp (a ← on_host m; c a) Q s.
Proof. intros H. apply wp_bind. unfold wp in *. unfold on_host. by destruct (m s.1) as [[a q]| |]. Qed.

Lemma at_step e h h' q s : at_ h s -> pstep h e = Some h' -> at_ h' (q, happened e s.2).
Proof. unfold at_. intros H E. cbn. rewrite psteps_app, H. cbn. by rewrite E. Qed.

(** Giving the host back when neither the interrupt nor the MMC core knows it. *)
Lemma free_spec s : at_ (Held true false false) s ->
  wp (mmc_free_host (D:=D)) (fun _ s' => s'.1 = s.1 /\ at_ nothing s' /\ mmc s'.2 = None /\ drvdata s'.2 = drvdata s.2) s.
Proof.
  intros H. unfold mmc_free_host, did_ev. apply wp_card. unfold wp, on_dev. cbn [fst snd]. split_and!; try done.
  by apply (at_step PFree (Held true false false) nothing s.1).
Qed.

(** The first thing that failed. *)
Definition first_error (l : list Z) : Z := match List.find (fun e => negb (e =? 0)) l with Some e => e | None => 0 end.
Lemma first_error_cons e l : first_error (e :: l) = if e =? 0 then first_error l else e.
Proof. unfold first_error. cbn. by destruct (e =? 0). Qed.
Definition start_errors (wide : bool) : list Z := [request_irq_err p; if wide then dma_mask_err p else 0; add_host_err p].
Definition probe_errors (wide : bool) : list Z :=
  [ioremap_err p; if irq p <=? 0 then - ENXIO else 0; if allocs_host p then 0 else - ENOMEM; of_parse_err p] ++ start_errors wide.

(** How far the probe got: everything, or nothing and the error. *)
Definition settled (m : mmc_host) (e : Z) (s' : state) : Prop :=
  if e =? 0 then at_ (Held true true true) s' /\ mmc s'.2 = Some m /\ drvdata s'.2 = true /\ s'.1.2 = Host None None 0 0 0 []
  else at_ nothing s' /\ mmc s'.2 = None /\ drvdata s'.2 = false.

(** The width a controller announces is one the kernel has a mask for. *)
Definition narrow : Prop := forall d : D, probe_addr_bits (u32 (mmio_read d r_capability).1) <= 64.

Lemma reset_quiet n clk_freq : still (snd : bus D * sdc_host -> sdc_host) (sdc_reset_locked clk_freq n).
Proof.
  pose proof (quiet_set_clock (D:=D) clk_freq 400000 ltac:(by vm_compute)). pose proof (quiet_wait (D:=D) n true). pose proof (quiet_wait (D:=D) n false).
  unfold sdc_reset_locked. still.
Qed.

Lemma host_start_spec n m s clk_freq : narrow -> at_ (Held true false false) s -> mmc s.2 = Some m -> drvdata s.2 = false ->
  s.1.2 = Host None None 0 0 0 [] ->
  wp (start_host p n clk_freq) (fun e s' => (exists wide, e = first_error (start_errors wide)) /\ settled m e s') s.
Proof.
  intros Hn H Hm Hdr Hh. unfold start_host. destruct (Z.eqb_spec (request_irq_err p) 0) as [E1|E1]; cbn [negb].
  2: { wp_next free_spec; [exact H|]. cbn beta. intros [] s1 (_ & H1 & Hm1 & Hd1). apply wp_ret. split.
       - exists false. unfold start_errors. rewrite first_error_cons. by destruct (Z.eqb_spec (request_irq_err p) 0).
       - unfold settled. destruct (Z.eqb_spec (request_irq_err p) 0); [done|]. by rewrite Hd1. }
  unfold did_ev. apply wp_card. unfold set_dma_mask. apply wp_bind, wp_host. unfold wp at 1, rd. destruct (mmio_read _ _) as [v d] eqn:Er. cbn [fst snd] in Er.
  apply wp_card. cbn [fst snd]. set (bits := probe_addr_bits (u32 v)). assert (bits <= 64) as Hb.
  { unfold bits. pose proof (Hn (dev s.1.1)) as Hw. by rewrite Er in Hw. }
  set (s1 := ((Bus d (wlog s.1.1), s.1.2), set_bits bits (happened PIrq s.2)) : state).
  assert (at_ (Held true true false) s1) as H1 by (by apply (at_step PIrq (Held true false false) _ s.1)).
  assert (exists wide : bool, forall Q : Z -> state -> Prop, Q (if wide then dma_mask_err p else 0) s1 ->
    wp ((if tst (u32 v) SDC_CAPABILITY_ADDR then if 64 <? bits then undef else mret (dma_mask_err p) else mret 0) : drv Z) Q s1) as [wide Hw].
  { exists (tst (u32 v) SDC_CAPABILITY_ADDR). intros Q HQ. destruct (tst _ _); [|done]. by destruct (Z.ltb_spec 64 bits); [lia|]. }
  apply Hw. clear Hw. set (e := if wide then dma_mask_err p else 0).
  assert (forall e' s2, e' <> 0 -> at_ (Held true true false) s2 -> drvdata s2.2 = false -> first_error (start_errors wide) = e' ->
    wp (did_ev PFreeIrq;; mmc_free_host;; mret e' : drv Z) (fun e s' => (exists wide, e = first_error (start_errors wide)) /\ settled m e s') s2) as Hfail.
  { intros e' s2 He H2 Hd2 Ew. unfold did_ev. apply wp_card.
    wp_next free_spec; [by apply (at_step PFreeIrq (Held true true false) _ s2.1)|]. cbn beta. intros [] s3 (_ & H3 & Hm3 & Hd3).
    apply wp_ret. split; [by exists wide|]. unfold settled. destruct (Z.eqb_spec e' 0); [done|]. by rewrite Hd3. }
  assert (first_error (start_errors wide) = if e =? 0 then add_host_err p else e) as Ee.
  { unfold start_errors. rewrite !first_error_cons, E1. fold e. cbn. destruct (e =? 0); [|done]. by destruct (Z.eqb_spec (add_host_err p) 0). }
  destruct (Z.eqb_spec e 0) as [E2|E2]; cbn [negb]; [|by apply Hfail].
  unfold sdc_reset. apply wp_host. eapply wp_mono; [apply reset_quiet|]. cbn beta. intros _ q Hq.
  destruct (Z.eqb_spec (add_host_err p) 0) as [E3|E3]; cbn [negb]; [|by apply Hfail].
  unfold did_ev. do 2 apply wp_card. apply wp_ret. split; [exists wide; by rewrite Ee|]. unfold settled. cbn [fst snd].
  change (0 =? 0) with true. split_and!; [by apply (at_step PAdd (Held true true false) _ q s1)|exact Hm|done|].
  rewrite Hq. exact Hh.
Qed.

Lemma probe_spec n s : narrow -> at_ nothing s -> drvdata s.2 = false -> mmc s.2 = None ->
  wp (axi_sdc_probe p n) (fun e s' => (exists wide, e = first_error (probe_errors wide)) /\
    settled (fill_host p (default 100000000 (clock_prop p))) e s') s.
Proof.
  intros Hn H Hd Hm. unfold axi_sdc_probe, probe_errors. cbn [app].
  assert (forall e m, e <> 0 -> settled m e s) as Hs by (intros e m He; unfold settled; by destruct (Z.eqb_spec e 0)).
  destruct (Z.eqb_spec (ioremap_err p) 0) as [E1|E1]; cbn [negb].
  2: { apply wp_ret. split; [|by apply Hs]. exists false. rewrite first_error_cons. by destruct (Z.eqb_spec (ioremap_err p) 0). }
  destruct (Z.leb_spec (irq p) 0) as [E2|E2].
  { apply wp_ret. split; [|by apply Hs]. exists false. by rewrite first_error_cons, E1. }
  destruct (allocs_host p); cbn [negb].
  2: { apply wp_ret. split; [|by apply Hs]. exists false. by rewrite !first_error_cons, E1. }
  unfold mmc_alloc_host, did_ev. apply wp_bind, wp_card, wp_host. unfold wp at 1, put. cbn [fst snd].
  unfold wp at 1, on_dev at 1. cbn [fst snd]. apply wp_card. cbn [fst snd].
  assert (forall f, (forall x, plog (f x) = plog x) -> at_ (Held true false false) ((s.1.1, Host None None 0 0 0 []), f (happened PAlloc s.2))) as Ha.
  { intros f Hf. unfold at_. cbn [snd]. rewrite Hf. by apply (at_step PAlloc nothing _ s.1). }
  assert (forall l, exists l', first_error (ioremap_err p :: 0 :: 0 :: l) = first_error l' /\ l' = l) as Hl.
  { intros l. exists l. by rewrite !first_error_cons, E1. }
  destruct (Z.eqb_spec (of_parse_err p) 0) as [E3|E3]; cbn [negb].
  2: { wp_next free_spec; [by apply (Ha (fun x => set_clk _ (set_mmc _ x)))|]. cbn beta. intros [] s1 (_ & H1 & Hm1 & Hd1).
       apply wp_ret. split.
       - exists false. rewrite !first_error_cons, E1. cbn. by destruct (Z.eqb_spec (of_parse_err p) 0).
       - unfold settled. destruct (Z.eqb_spec (of_parse_err p) 0); [done|]. by rewrite Hd1. }
  apply wp_card. eapply wp_mono; [apply (host_start_spec n (fill_host p (default 100000000 (clock_prop p))))|]; cbn [fst snd]; try done.
  - by apply (Ha (fun x => set_mmc _ (set_clk _ (set_mmc _ x)))).
  - cbn. intros e s' [[wide ->] Hset]. split; [|exact Hset]. exists wide. by rewrite !first_error_cons, E1, E3.
Qed.

Lemma remove_spec s : at_ (Held true true true) s -> wp (axi_sdc_remove (D:=D)) (fun _ s' => at_ nothing s' /\ mmc s'.2 = None) s.
Proof.
  intros H. unfold axi_sdc_remove, did_ev. do 2 apply wp_card. eapply wp_mono; [apply free_spec|by cbn; intros _ s' (_ & ? & ? & _)].
  apply (at_step PRemove (Held true false true) _ s.1 (s.1, happened PFreeIrq s.2)); [|done].
  by apply (at_step PFreeIrq (Held true true true) _ s.1).
Qed.
End specs.

(** C38. Whatever the platform and the controller answer, a probe ends with the first error
    there was, and then nothing is left of the host; or it succeeds, and then the host is
    filled in, its driver state is where the requests start from ([AxiSdcProofs.history]), and
    the removal gives everything back.  At no time is the interrupt requested for a host that is
    not there, or a host freed that the interrupt or the MMC core still reaches. *)
Theorem probe_balanced {D} {HD : Mmio D} p n (s : (bus D * sdc_host) * card_dev) :
  narrow (D:=D) -> plog s.2 = [] -> drvdata s.2 = false -> mmc s.2 = None ->
  wp (axi_sdc_probe p n) (fun e s' =>
    (exists wide, e = first_error (probe_errors p wide)) /\
    if e =? 0 then
      psteps nothing (plog s'.2) = Some (Held true true true) /\
      mmc s'.2 = Some (fill_host p (default 100000000 (clock_prop p))) /\
      (forall clk_freq bits, history clk_freq bits [] s'.1) /\
      wp axi_sdc_remove (fun _ s2 => psteps nothing (plog s2.2) = Some nothing /\ mmc s2.2 = None) s'
    else psteps nothing (plog s'.2) = Some nothing /\ mmc s'.2 = None /\ drvdata s'.2 = false) s.
Proof.
  intros Hn Hl Hd Hm. eapply wp_mono; [apply probe_spec; [done|by unfold at_; rewrite Hl|done|done]|]. cbn beta.
  intros e s' [He Hs]. split; [exact He|]. unfold settled in Hs. destruct (e =? 0); [|exact Hs].
  destruct Hs as (H1 & H2 & _ & H4). split_and!; [exact H1|exact H2| |by apply remove_spec].
  intros clk_freq bits. destruct s'.1 as [b h]. cbn in H4. subst h. constructor.
Qed.

(** The removal frees the interrupt before the MMC core has stopped.  A transfer in flight is
    completed by the interrupt only: once that is gone nothing else the core calls ends it. *)
Lemma remove_strands {D} {HD : Mmio D} clk_freq bits n ios e (s s' : bus D * sdc_host) :
  (e = EIos \/ e = ECardReset) -> u32 (2 * Z.max (clock ios) 400000) <> 0 ->
  handle clk_freq bits n ios e s = Ret (tt, s') -> mrq s'.2 = mrq s.2 /\ completed (klog s'.2) = completed (klog s.2).
Proof.
  intros He Hc E. assert (s'.2 = s.2) as ->; [|done].
  pose proof (quiet_set_ios clk_freq n ios Hc s) as W1. pose proof (quiet_card_reset (HD:=HD) s) as W2.
  unfold wp in W1, W2. destruct He as [-> | ->]; cbn [handle] in E; [by rewrite E in W1|by rewrite E in W2].
Qed.

(** A controller that announces 64 address bits, which the kernel has a mask for, passes the
    probe; every data command then shifts 1 by 64. *)
Lemma width_64_undefined {D} {HD : Mmio D} ios d (s : bus D * sdc_host) :
  probe_addr_bits 0x4000 = 64 /\ (shape_ok s.2 d = true -> sdc_setup_data_xfer 64 ios d s = Undef).
Proof.
  split; [by vm_compute|]. intros Hs. unfold sdc_setup_data_xfer, mbind, prog_bind, get, gets. by rewrite Hs.
Qed.

(** ** At a concrete platform *)

#[export] Instance axi_caps : Mmio Z :=
  { mmio_read d r := ((if r =? r_capability then 0x2803 else if r =? r_card_detect then SDC_CARD_INSERT_INT_REQ else 0), d);
    mmio_write d r v := d }.
Definition ex_platform (add_err : Z) : platform := Platform 0 17 true (Some 90000000) 0 0 0 0 0 0 0 add_err.
Definition ex_dev : (bus Z * sdc_host) * card_dev := ((Bus 0 [], Host None None 0 0 0 []), Dev 0 0 None false []).

Lemma axi_caps_narrow : narrow (D:=Z).
Proof. intros d. by vm_compute. Qed.

Lemma ex_failed : wp (axi_sdc_probe (ex_platform (- 5)) 3) (fun e s' => e = - 5 /\ plog s'.2 = [PAlloc; PIrq; PFreeIrq; PFree]) ex_dev.
Proof. vm_compute. by split. Qed.

Lemma probe_balanced_witness :
  wp (axi_sdc_probe (ex_platform 0) 3) (fun e s' => (exists wide, e = first_error (probe_errors (ex_platform 0) wide)) /\
    (e = 0 -> psteps nothing (plog s'.2) = Some (Held true true true))) ex_dev.
Proof.
  eapply wp_mono; [apply (probe_balanced (ex_platform 0) 3 ex_dev axi_caps_narrow); reflexivity|]. intros e s' [He Hs].
  split; [exact He|]. intros E. rewrite E in Hs. apply Hs.
Defined.
