(* ===== verification/DpMode.v ===== *)
(** * The DisplayPort pipeline (binaries/linux/drivers/dp/dp-main.c, dp.h)

    Modes, their validation against the pixel clock's budget, and the switch of the whole
    pipeline: the frame fetch (VDMA), the pixel clock, the timing generator (VTC) and the
    DisplayPort stream.  The four register windows the module maps are one address space
    here; the vendor's DisplayPort driver is the log of the streams it was asked for. *)
From Stdlib Require Import String.
From S2P Require Import Prelude Mmio ClkWzrd.
#[local] Abbreviation length := List.length.

(** ** Modes *)

(** [struct soct_dp_mode]: all fields are u32. *)
Record soct_dp_mode := Mode {
  hactive : Z; hfront_porch : Z; hsync_len : Z; hback_porch : Z;
  vactive : Z; vfront_porch : Z; vsync_len : Z; vback_porch : Z;
  hsync_active : Z; vsync_active : Z; fps : Z; pixel_clock_hz : Z }.
#[export] Instance mode_eq_dec : EqDecision soct_dp_mode.
Proof. solve_decision. Defined.

Definition soct_dp_mode_equal (a b : soct_dp_mode) : bool := bool_decide (a = b).
Definition with_clock (c : Z) (m : soct_dp_mode) : soct_dp_mode :=
  Mode (hactive m) (hfront_porch m) (hsync_len m) (hback_porch m) (vactive m) (vfront_porch m) (vsync_len m) (vback_porch m)
       (hsync_active m) (vsync_active m) (fps m) c.
Definition zero_mode : soct_dp_mode := Mode 0 0 0 0 0 0 0 0 0 0 0 0.

Definition mode_htotal (m : soct_dp_mode) : Z := u32 (hactive m + hfront_porch m + hsync_len m + hback_porch m).
Definition mode_vtotal (m : soct_dp_mode) : Z := u32 (vactive m + vfront_porch m + vsync_len m + vback_porch m).

(** A device-tree node as the u32 properties it has. *)
Definition props : Type := string -> option Z.
Definition mode_prop (np : props) (name : string) (alt : option string) : option Z :=
  match np name, alt with Some v, _ => Some v | None, Some a => np a | None, None => None end.
Definition of_read_mode (np : props) : option soct_dp_mode :=
  a ← mode_prop np "hactive" (Some "soct,hactive"%string);
  b ← mode_prop np "hfront-porch" None;
  c ← mode_prop np "hsync-len" None;
  d ← mode_prop np "hback-porch" None;
  e ← mode_prop np "vactive" (Some "soct,vactive"%string);
  f ← mode_prop np "vfront-porch" None;
  g ← mode_prop np "vsync-len" None;
  h ← mode_prop np "vback-porch" None;
  i ← mode_prop np "hsync-active" None;
  j ← mode_prop np "vsync-active" None;
  k ← mode_prop np "fps" (Some "soct,fps"%string);
  l ← mode_prop np "clock-frequency" None;
  Some (Mode a b c d e f g h i j k l).

(** The retune budget of the pixel-clkwiz node, when it is complete. *)
Definition parse_pixclk (np : props) : option (soct_clk_wzrd_limits * Z) :=
  input ← np "soct,input-frequency"%string;
  max_hz ← np "soct,max-frequency"%string;
  vmin ← np "soct,vco-min"%string;
  vmax ← np "soct,vco-max"%string;
  pmin ← np "soct,pfd-min"%string;
  pmax ← np "soct,pfd-max"%string;
  Some (Limits input vmin vmax pmin pmax, max_hz).

(** ** Validation *)

Definition EIO : Z := 5.
Definition EINVAL : Z := 22.
Definition EDOM : Z := 33.
Definition EOPNOTSUPP : Z := 95.

Section validate.
(** [s.lim] and [s.max_hz]. *)
Context (lim : soct_clk_wzrd_limits) (max_hz : Z).

(** The return value and the mode as it is left. *)
Definition soct_dp_validate_mode (retunable : bool) (cur m : soct_dp_mode) : Z * soct_dp_mode :=
  if (hactive m =? 0) || (vactive m =? 0) || (fps m =? 0) || (pixel_clock_hz m =? 0) then (- EINVAL, m) else
  if negb retunable then
    let t := with_clock (pixel_clock_hz cur) m in
    if (u64 (Z.abs (pixel_clock_hz m - pixel_clock_hz cur) * 200) >? pixel_clock_hz cur) || negb (soct_dp_mode_equal t cur)
    then (- EOPNOTSUPP, m)
    else (0, t)
  else
  if pixel_clock_hz m >? u32 (max_hz + max_hz / 200) then (- EDOM, m) else
  let m := if pixel_clock_hz m >? max_hz then with_clock max_hz m else m in
  match soct_clk_wzrd_solve lim (pixel_clock_hz m) with
  | None => (- EDOM, m)
  | Some set => if achieved_hz set >? max_hz then (- EDOM, m) else (0, with_clock (achieved_hz set) m)
  end.
End validate.

(** ** The pipeline *)

(** The windows, each 64 KiB of the address space. *)
Definition vdma : Z := 0x00000.
Definition vtc : Z := 0x10000.
Definition vidstat : Z := 0x20000.
Definition pixclk : Z := 0x30000.

Definition VDMA_MM2S_DMACR : Z := 0x00.
Definition VDMA_MM2S_DMASR : Z := 0x04.
Definition VDMA_PARK_PTR : Z := 0x28.
Definition VDMA_MM2S_VSIZE : Z := 0x50.
Definition VDMA_MM2S_HSIZE : Z := 0x54.
Definition VDMA_MM2S_FRMDLY_STRIDE : Z := 0x58.
Definition VDMA_MM2S_START_ADDR1 : Z := 0x5C.
Definition VDMA_DMACR_RS : Z := 1.
Definition VDMA_DMACR_CIRCULAR : Z := 2.
Definition VDMA_DMACR_RESET : Z := 4.
Definition VDMA_DMASR_HALTED : Z := 1.
Definition VDMA_NUM_FSTORES : Z := 3.

Definition VTC_CTL : Z := 0x000.
Definition VTC_GASIZE : Z := 0x060.
Definition VTC_GFENC : Z := 0x068.
Definition VTC_GPOL : Z := 0x06C.
Definition VTC_GHSIZE : Z := 0x070.
Definition VTC_GVSIZE : Z := 0x074.
Definition VTC_GHSYNC : Z := 0x078.
Definition VTC_GVBHOFF : Z := 0x07C.
Definition VTC_GVSYNC : Z := 0x080.
Definition VTC_GVSHOFF : Z := 0x084.
Definition VTC_GVBHOFF_F1 : Z := 0x088.
Definition VTC_GVSYNC_F1 : Z := 0x08C.
Definition VTC_GVSHOFF_F1 : Z := 0x090.
Definition VTC_GASIZE_F1 : Z := 0x094.
Definition VTC_CTL_ALLSS : Z := 0x03FDEF00.
Definition VTC_CTL_GE : Z := 4.
Definition VTC_CTL_RU : Z := 2.
Definition VTC_CTL_SW : Z := 1.
Definition VTC_POL_BASE : Z := 0x73.
Definition VTC_POL_HSP : Z := 8.
Definition VTC_POL_VSP : Z := 4.

(** The timing generator's registers for a mode, in the order they are written. *)
Definition vtc_words (m : soct_dp_mode) : list (Z * Z) :=
  let hss := u32 (hactive m + hfront_porch m) in
  let hbs := u32 (hss + hsync_len m) in
  let vss := u32 (vactive m + vfront_porch m) in
  let vbs := u32 (vss + vsync_len m) in
  let pair a b := a .| u32 (b .<< 16) in
  [(vtc + VTC_GHSIZE, mode_htotal m);
   (vtc + VTC_GVSIZE, pair (mode_vtotal m) (mode_vtotal m));
   (vtc + VTC_GASIZE, pair (hactive m) (vactive m));
   (vtc + VTC_GASIZE_F1, u32 (vactive m .<< 16));
   (vtc + VTC_GHSYNC, pair hss hbs);
   (vtc + VTC_GVSYNC, pair vss vbs);
   (vtc + VTC_GVSYNC_F1, pair vss vbs);
   (vtc + VTC_GFENC, 0);
   (vtc + VTC_GVBHOFF, pair (hactive m) (hactive m));
   (vtc + VTC_GVSHOFF, pair hss hss);
   (vtc + VTC_GVBHOFF_F1, pair (hactive m) (hactive m));
   (vtc + VTC_GVSHOFF_F1, pair hss hss);
   (vtc + VTC_GPOL, VTC_POL_BASE .| (if hsync_active m =? 0 then 0 else VTC_POL_HSP) .| (if vsync_active m =? 0 then 0 else VTC_POL_VSP));
   (vtc + VTC_CTL, VTC_CTL_ALLSS .| VTC_CTL_RU .| VTC_CTL_GE .| VTC_CTL_SW)].

(** The main stream attributes [dp_start_stream] hands the vendor driver. *)
Record msa := Msa {
  PixelClockHz : Z; FrameRate : Z;
  HActive : Z; HFrontPorch : Z; HSyncWidth : Z; HBackPorch : Z; HTotal : Z; HSyncPolarity : Z;
  VActive : Z; F0PVFrontPorch : Z; F0PVSyncWidth : Z; F0PVBackPorch : Z; F0PVTotal : Z; VSyncPolarity : Z }.
Definition msa_of (m : soct_dp_mode) : msa :=
  Msa (pixel_clock_hz m) (fps m)
      (hactive m) (hfront_porch m) (hsync_len m) (hback_porch m) (mode_htotal m) (hsync_active m)
      (vactive m) (vfront_porch m) (vsync_len m) (vback_porch m) (mode_vtotal m) (vsync_active m).

(** The module's variables: what is being scanned, whether the clock can be retuned, and the
    streams started, newest last. *)
Record pipe := Pipe { cur : soct_dp_mode; retunable : bool; streams : list msa }.
Definition set_cur m x := Pipe m (retunable x) (streams x).
Definition set_retunable b x := Pipe (cur x) b (streams x).
Definition stream m x := Pipe (cur x) (retunable x) (streams x ++ [m]).

Section pipeline.
Context {D : Type} {HD : Mmio D} (lim : soct_clk_wzrd_limits) (max_hz fb fb_size : Z).
Abbreviation drv := (prog (bus D * pipe)).

Fixpoint writes (l : list (Z * Z)) : drv unit :=
  match l with [] => mret tt | (r, v) :: l => wr r v;; writes l end.

Definition vdma_halt (n : nat) : drv Z :=
  wr (vdma + VDMA_MM2S_DMACR) VDMA_DMACR_RESET;;
  sr ← poll_until n (vdma + VDMA_MM2S_DMACR) (fun sr => negb (tst sr VDMA_DMACR_RESET));
  mret (match sr with Some _ => 0 | None => - EIO end).

(** The frame stores and the geometry; the size is written last and starts the transfers. *)
Definition store_of (width height i : Z) : Z :=
  let frame := u64 (width * 3 * height) in
  if (i =? 1) && (u64 (2 * frame) <=? fb_size) then u64 (fb + frame) else fb.
Definition vdma_words (width height : Z) : list (Z * Z) :=
  map (fun i => (vdma + VDMA_MM2S_START_ADDR1 + 4 * i, u32 (store_of width height i))) (seqZ 0 VDMA_NUM_FSTORES)
  ++ [(vdma + VDMA_MM2S_HSIZE, u32 (width * 3));
      (vdma + VDMA_MM2S_FRMDLY_STRIDE, u32 (width * 3));
      (vdma + VDMA_MM2S_VSIZE, height)].

Definition vdma_start (n : nat) (width height : Z) : drv Z :=
  err ← vdma_halt n;
  if negb (err =? 0) then mret err else
  cr ← rd (vdma + VDMA_MM2S_DMACR);
  wr (vdma + VDMA_MM2S_DMACR) ((cr .| VDMA_DMACR_RS) .& cnot 32 VDMA_DMACR_CIRCULAR);;
  wr (vdma + VDMA_PARK_PTR) 0;;
  writes (vdma_words width height);;
  sr ← rd (vdma + VDMA_MM2S_DMASR);
  mret (if tst sr VDMA_DMASR_HALTED then - EIO else 0).

Definition soct_dp_set_scanout_frame (frame : Z) : drv unit := wr (vdma + VDMA_PARK_PTR) (frame .& 0x1f).

Definition vtc_start (m : soct_dp_mode) : drv unit := writes (vtc_words m).
Definition dp_start_stream (m : soct_dp_mode) : drv unit := put (stream (msa_of m)).

(** The wizard's answers to the two polls of LOCKED are [locks]. *)
Definition pixclk_retune (locks : list Z * list Z) (set : soct_clk_wzrd_setting) : drv Z :=
  let '(ws, err) := soct_clk_wzrd_retune set locks.1 locks.2 in
  writes (map (fun '(r, v) => (pixclk + r, v)) ws);; mret err.

(** From the halt to the stream: what [soct_dp_switch_mode] does before [s.cur = want]. *)
Definition restart (n : nat) (locks : list Z * list Z) (set : option soct_clk_wzrd_setting) (want : soct_dp_mode) : drv Z :=
  err ← vdma_halt n;
  if negb (err =? 0) then mret err else
  err ← match set with Some set => pixclk_retune locks set | None => mret 0 end;
  if negb (err =? 0) then mret err else
  err ← vdma_start n (hactive want) (vactive want);
  if negb (err =? 0) then mret err else
  vtc_start want;; dp_start_stream want;; mret 0.

Definition soct_dp_switch_mode (n : nat) (locks : list Z * list Z) (m : soct_dp_mode) : drv Z :=
  x ← get;
  let '(err, want) := soct_dp_validate_mode lim max_hz (retunable x) (cur x) m in
  if negb (err =? 0) then mret err else
  if soct_dp_mode_equal want (cur x) then mret 0 else
  let retune := negb (pixel_clock_hz want =? pixel_clock_hz (cur x)) in
  let set := if retune then soct_clk_wzrd_solve lim (pixel_clock_hz want) else None in
  if retune && match set with None => true | Some _ => false end then mret (- EDOM) else
  err ← restart n locks set want;
  if err =? 0 then
    put (set_cur want);;
    _ ← poll_until n vidstat (fun flags => tst flags 1);
    mret 0
  else put (set_cur zero_mode);; mret err.
End pipeline.

(** ** Validation settles *)

Lemma solve_zero lim : soct_clk_wzrd_solve lim 0 = None.
Proof. unfold soct_clk_wzrd_solve. by rewrite orb_true_r. Qed.

(** A frequency the solver reached is one it reaches exactly. *)
Lemma solve_settles lim target set :
  u32_limits lim -> fits 32 target -> 106 * 1024 <= input_hz lim -> fits 32 (achieved_hz set) ->
  soct_clk_wzrd_solve lim target = Some set ->
  exists set', soct_clk_wzrd_solve lim (achieved_hz set) = Some set' /\ achieved_hz set' = achieved_hz set.
Proof.
  intros Hl Ht Hi Ha Hs. destruct (solver_sound lim target set Hl Ht Hs) as (Hg & Ef & Hd).
  assert (0 < target) as Hp.
  { destruct (Z.eq_dec target 0) as [->|]; [by rewrite solve_zero in Hs|unfold fits in Ht; lia]. }
  set (A := achieved_hz set) in *. assert (0 < A) as HA by lia.
  assert (candidate lim A (div set) (odiv_eighths set) (mult_eighths set)) as Hc.
  { split; [done|]. destruct Hg as (H1 & H2 & _ & H3 & _). unfold freq in Ef.
    set (k := div set * odiv_eighths set) in *. assert (0 < k <= 106 * 1024) as Hk by (unfold k; nia).
    pose proof (Z.div_mod (input_hz lim * mult_eighths set) k). pose proof (Z.mod_pos_bound (input_hz lim * mult_eighths set) k).
    pose proof (Z.div_mod (A * k) (input_hz lim)). pose proof (Z.mod_pos_bound (A * k) (input_hz lim)).
    set (q := A * k / input_hz lim) in *. unfold bracket, floor8.
    replace (A * div set * odiv_eighths set) with (A * k) by (unfold k; lia). fold q.
    assert (0 <= input_hz lim * (mult_eighths set - q) < input_hz lim * 2) by lia.
    assert (0 <= mult_eighths set - q < 2) by nia. lia. }
  assert (dist lim A (div set) (odiv_eighths set) (mult_eighths set) = 0) as Hz by (unfold dist; lia).
  destruct (solver_best lim A Hl Ha ltac:(lia) HA) as [Hn Ho].
  destruct (soct_clk_wzrd_solve lim A) as [set'|] eqn:E.
  - exists set'. split; [done|]. specialize (Ho set' eq_refl _ _ _ Hc). lia.
  - pose proof (proj1 Hn eq_refl _ _ _ Hc). lia.
Qed.

(** ** Lemmas: the register log *)

Lemma reg_app l l' r : reg (l ++ l') r = match reg l' r with Some v => Some v | None => reg l r end.
Proof.
  unfold reg. rewrite rev_app_distr. induction (rev l') as [|w t IH]; cbn; [done|].
  by destruct (w.1 =? r).
Qed.

Lemma reg_in l r v : NoDup (map fst l) -> In (r, v) l -> reg l r = Some v.
Proof.
  induction l as [|[a b] l IH] using rev_ind; [done|]. rewrite map_app, in_app_iff. intros Hn Hin.
  apply NoDup_app in Hn as (Hn & Hd & _). rewrite reg_app. unfold reg at 1. cbn.
  destruct Hin as [Hin|[[= <- <-]|[]]]; [|by rewrite Z.eqb_refl].
  destruct (Z.eqb_spec a r) as [<-|]; [|cbn; by apply IH].
  exfalso. apply (Hd a); [|by left]. apply list_elem_of_In, in_map_iff. by exists (a, v).
Qed.

Lemma reg_notin l r : ~ In r (map fst l) -> reg l r = None.
Proof.
  induction l as [|[a b] l IH] using rev_ind; [done|]. rewrite map_app, in_app_iff. intros Hn.
  rewrite reg_app. unfold reg at 1. cbn. destruct (Z.eqb_spec a r) as [<-|]; [|cbn; apply IH; tauto].
  exfalso. apply Hn. right. by left.
Qed.

Section programming.
Context {D : Type} {HD : Mmio D} (lim : soct_clk_wzrd_limits) (max_hz fb fb_size : Z).
Implicit Types (s : bus D * pipe).
Abbreviation drv := (prog (bus D * pipe)).

Lemma writes_did ws : forall s0 s l x, did s0 s l x ->
  wp (writes (D:=D) ws) (fun _ s' => did s0 s' (l ++ ws) x) s.
Proof.
  induction ws as [|[r v] ws IH]; intros s0 s l x H; cbn [writes].
  - apply wp_ret. by rewrite app_nil_r.
  - eapply wp_wr; [exact H|]. intros s1 H1. eapply wp_mono; [exact (IH s0 s1 _ x H1)|].
    cbn. intros _ s2. by rewrite <-app_assoc.
Qed.

Lemma wp_writes {B} ws (k : unit -> drv B) (Q : B -> bus D * pipe -> Prop) s0 s l x : did s0 s l x ->
  (forall s1, did s0 s1 (l ++ ws) x -> wp (k tt) Q s1) -> wp (u ← writes ws; k u) Q s.
Proof. intros H Hk. apply wp_bind. eapply wp_mono; [by apply writes_did|]. intros [] s1. apply Hk. Qed.

(** ** The restart *)

(** What a run of the retune adds to the log when it is not an error. *)
Lemma retune_did locks set s0 s l x : did s0 s l x ->
  wp (pixclk_retune (D:=D) locks set) (fun e s' => exists ws, did s0 s' (l ++ ws) x /\ (e = 0 -> ws =
    [(pixclk + WZRD_CFG_CLKOUT0, clkout0_word set); (pixclk + WZRD_CFG_MULT_DIV, mult_div_word set);
     (pixclk + WZRD_CFG_CLKOUT0_PHASE, 0); (pixclk + WZRD_APPLY, WZRD_APPLY_LOAD_SEN)])) s.
Proof.
  intros H. unfold pixclk_retune, soct_clk_wzrd_retune. destruct (poll_locked locks.1 =? 0); cbn [negb];
    (eapply wp_writes; [exact H|]); intros s1 H1; apply wp_ret; (eexists; split; [exact H1|]); intros E; done.
Qed.

Lemma halt_did n s0 s l x : did s0 s l x ->
  wp (vdma_halt (D:=D) n) (fun _ s' => did s0 s' (l ++ [(vdma + VDMA_MM2S_DMACR, VDMA_DMACR_RESET)]) x) s.
Proof. intros H. unfold vdma_halt. eapply wp_wr; [exact H|]. intros s1 H1. eapply wp_poll; [exact H1|]. intros v s2 H2. by apply wp_ret. Qed.

Lemma start_did n w h s0 s l x : did s0 s l x ->
  wp (vdma_start (D:=D) fb fb_size n w h)
     (fun e s' => exists ws, did s0 s' (l ++ ws) x /\ (e = 0 -> exists cr, ws =
        [(vdma + VDMA_MM2S_DMACR, VDMA_DMACR_RESET); (vdma + VDMA_MM2S_DMACR, cr); (vdma + VDMA_PARK_PTR, 0)] ++ vdma_words fb fb_size w h)) s.
Proof.
  intros H. unfold vdma_start. wp_next halt_did; [exact H|]. cbn beta. intros e s1 H1.
  destruct (Z.eqb_spec e 0) as [->|He]; cbn [negb]; [|apply wp_ret; eexists; split; [exact H1|done]].
  eapply wp_rd; [exact H1|]. intros cr s2 H2. do 2 (eapply wp_wr; [eassumption|]; clear H2; intros ? H2).
  eapply wp_writes; [exact H2|]. intros s5 H5. eapply wp_rd; [exact H5|]. intros sr s6 H6. apply wp_ret.
  rewrite <-!app_assoc in H6. eexists. split; [exact H6|]. intros _. by eexists.
Qed.

Definition clock_words (set : option soct_clk_wzrd_setting) : list (Z * Z) :=
  match set with
  | Some set => [(pixclk + WZRD_CFG_CLKOUT0, clkout0_word set); (pixclk + WZRD_CFG_MULT_DIV, mult_div_word set);
                 (pixclk + WZRD_CFG_CLKOUT0_PHASE, 0); (pixclk + WZRD_APPLY, WZRD_APPLY_LOAD_SEN)]
  | None => []
  end.

Definition scan_words (m : soct_dp_mode) : list (Z * Z) := vdma_words fb fb_size (hactive m) (vactive m) ++ vtc_words m.
(** From the second halt on; [cr] is what the control register held. *)
Definition start_words (cr : Z) (m : soct_dp_mode) : list (Z * Z) :=
  [(vdma + VDMA_MM2S_DMACR, VDMA_DMACR_RESET); (vdma + VDMA_MM2S_DMACR, cr); (vdma + VDMA_PARK_PTR, 0)] ++ scan_words m.

(** A restart that works writes everything, in the order the hardware needs: the fetch is
    halted before the clock is touched, and restarted only after it. *)
Lemma restart_did n locks set want s :
  wp (restart (D:=D) fb fb_size n locks set want)
     (fun e s' => (e = 0 -> exists cr,
        did s s' ([(vdma + VDMA_MM2S_DMACR, VDMA_DMACR_RESET)] ++ clock_words set ++ start_words cr want) (stream (msa_of want) s.2))) s.
Proof.
  unfold restart. wp_next halt_did; [apply did_refl|]. cbn beta. intros e s1 H1.
  destruct (Z.eqb_spec e 0) as [->|He]; cbn [negb]; [|by apply wp_ret].
  apply wp_bind. apply wp_mono with (Q := fun e s' => exists ws, did s s' ([(vdma + VDMA_MM2S_DMACR, VDMA_DMACR_RESET)] ++ ws) s.2 /\ (e = 0 -> ws = clock_words set)).
  { destruct set as [set|].
    - eapply wp_mono; [by apply (retune_did _ _ s)|]. cbn beta. intros e s2 (ws & Hd & Hw). by exists ws.
    - apply wp_ret. exists []. by rewrite app_nil_r. }
  intros e s2 (ws & H2 & Hw). destruct (Z.eqb_spec e 0) as [->|He]; cbn [negb]; [|by apply wp_ret].
  rewrite Hw in H2 by done. wp_next start_did; [exact H2|]. cbn beta. intros e s3 (ws' & H3 & Hw').
  destruct (Z.eqb_spec e 0) as [->|He]; cbn [negb]; [|by apply wp_ret].
  destruct Hw' as [cr ->]; [done|]. unfold vtc_start, dp_start_stream.
  eapply wp_writes; [exact H3|]. intros s4 H4. eapply wp_putd; [exact H4|]. intros s5 H5. apply wp_ret. intros _.
  exists cr. unfold start_words, scan_words. rewrite <-!app_assoc in H5. exact H5.
Qed.

(** ** What the hardware was last told *)

Lemma scan_words_keys m : NoDup (map fst (scan_words m)).
Proof.
  assert (map fst (scan_words m) = map fst (vdma_words 0 0 0 0) ++ map fst (vtc_words zero_mode)) as ->.
  { unfold scan_words. rewrite map_app. f_equal. }
  apply (bool_decide_unpack _). by vm_compute.
Qed.

(** The registers describe [m]: geometry, frame stores and timing. *)
Definition shows (log : list (Z * Z)) (m : soct_dp_mode) : Prop :=
  forall r v, In (r, v) (scan_words m) -> reg log r = Some v.

(** The pixel clock was last loaded with a solved setting for [hz]. *)
Definition clocked (log : list (Z * Z)) (hz : Z) : Prop :=
  exists set, soct_clk_wzrd_solve lim hz = Some set /\ achieved_hz set = hz /\
    forall r v, In (r, v) (clock_words (Some set)) -> reg log r = Some v.

(** The cached mode is what the hardware was told, or forgotten. *)
Definition honest s : Prop :=
  cur s.2 = zero_mode \/
  (shows (wlog s.1) (cur s.2) /\ last (streams s.2) = Some (msa_of (cur s.2)) /\
   (retunable s.2 = true -> clocked (wlog s.1) (pixel_clock_hz (cur s.2)))).

Lemma shows_after log cr m : shows (log ++ start_words cr m) m.
Proof. intros r v Hin. unfold start_words. by rewrite app_assoc, reg_app, (reg_in _ _ _ (scan_words_keys m) Hin). Qed.

(** The clock's registers are apart from the pipeline's. *)
Lemma scan_words_low m r : In r (map fst (scan_words m)) -> r < pixclk.
Proof.
  assert (map fst (scan_words m) = map fst (vdma_words 0 0 0 0) ++ map fst (vtc_words zero_mode)) as ->.
  { unfold scan_words. rewrite map_app. f_equal. }
  intros Hin. assert (Forall (fun r => r < pixclk) (map fst (vdma_words 0 0 0 0) ++ map fst (vtc_words zero_mode))) as Hf
    by (apply (bool_decide_unpack _); by vm_compute).
  rewrite List.Forall_forall in Hf. by apply Hf.
Qed.

Lemma clock_words_keys set : NoDup (map fst (clock_words (Some set))) /\ Forall (fun r => pixclk <= r) (map fst (clock_words (Some set))).
Proof. split; apply (bool_decide_unpack _); by vm_compute. Qed.

Lemma clock_reg l set cr m r v :
  In (r, v) (clock_words (Some set)) ->
  reg (l ++ start_words cr m) r = reg l r.
Proof.
  intros Hin. destruct (clock_words_keys set) as [_ Hk]. rewrite List.Forall_forall in Hk.
  specialize (Hk r ltac:(apply in_map_iff; by exists (r, v))).
  unfold start_words. rewrite reg_app, reg_notin; [done|]. rewrite map_app, in_app_iff. intros [Hr|Hr].
  - unfold pixclk, vdma, VDMA_MM2S_DMACR, VDMA_PARK_PTR in *. cbn in Hr. lia.
  - apply scan_words_low in Hr. lia.
Qed.

(** The budget of a design: 32-bit fields, a reference clock above 108544 Hz and room for
    half a percent over the ceiling. *)
Definition sane : Prop := u32_limits lim /\ (0 <= max_hz /\ max_hz + max_hz / 200 < 2 ^ 32) /\ 106 * 1024 <= input_hz lim.
Definition mode_ok (m : soct_dp_mode) : Prop := fits 32 (pixel_clock_hz m).

Lemma with_clock_id m : with_clock (pixel_clock_hz m) m = m.
Proof. by destruct m. Qed.

(** Validation touches the clock only. *)
Lemma validate_shape rt c m e m' : soct_dp_validate_mode lim max_hz rt c m = (e, m') -> m' = with_clock (pixel_clock_hz m') m.
Proof.
  unfold soct_dp_validate_mode. intros H. repeat case_match; simplify_eq; try done; by rewrite with_clock_id.
Qed.

Lemma validate_live rt c m m' : soct_dp_validate_mode lim max_hz rt c m = (0, m') ->
  ((hactive m' =? 0) || (vactive m' =? 0) || (fps m' =? 0)) = false.
Proof.
  intros H. rewrite (validate_shape _ _ _ _ _ H). cbn. unfold soct_dp_validate_mode in H.
  destruct ((hactive m =? 0) || (vactive m =? 0) || (fps m =? 0)); [|done]. by cbn [orb] in H.
Qed.

Lemma validate_static c m m' : soct_dp_validate_mode lim max_hz false c m = (0, m') -> m' = c.
Proof.
  unfold soct_dp_validate_mode. cbn [negb]. intros H. do 2 (case_match; [done|]). simplify_eq.
  match goal with H : (_ || _) = false |- _ => apply orb_false_iff in H as [_ H]; apply negb_false_iff in H; by apply bool_decide_eq_true in H end.
Qed.

(** A validated mode has a clock the solver makes. *)
Lemma validate_clock c m m' : sane -> mode_ok m -> soct_dp_validate_mode lim max_hz true c m = (0, m') ->
  fits 32 (pixel_clock_hz m') /\ pixel_clock_hz m' <= max_hz /\
  exists set, soct_clk_wzrd_solve lim (pixel_clock_hz m') = Some set /\ achieved_hz set = pixel_clock_hz m'.
Proof.
  intros (Hl & Hm & Hi) Ho. assert (fits 32 max_hz) as Hm32 by (unfold fits; pose proof (Z.div_pos max_hz 200); lia).
  unfold soct_dp_validate_mode. cbn [negb]. intros H. do 2 (case_match; [done|]).
  set (m1 := if _ : bool then _ else _) in H.
  assert (fits 32 (pixel_clock_hz m1)) as Hf by (unfold m1; destruct (pixel_clock_hz m >? max_hz); [exact Hm32|exact Ho]).
  destruct (soct_clk_wzrd_solve lim (pixel_clock_hz m1)) as [set|] eqn:E; [|done].
  destruct (Z.gtb_spec (achieved_hz set) max_hz); [done|]. injection H as <-. cbn.
  destruct (solver_sound _ _ _ Hl Hf E) as (_ & _ & Hd).
  assert (fits 32 (achieved_hz set)) as Ha by (unfold fits, mode_ok in *; lia).
  split_and!; [done|done|]. exact (solve_settles lim _ set Hl Hf Hi Ha E).
Qed.
End programming.

(** Validation after validation changes nothing. *)
Lemma validate_settles lim max_hz retunable cur m m' :
  sane lim max_hz -> mode_ok cur -> mode_ok m ->
  soct_dp_validate_mode lim max_hz retunable cur m = (0, m') ->
  soct_dp_validate_mode lim max_hz retunable cur m' = (0, m').
Proof.
  intros Hs Hk Ho H. pose proof (validate_live _ _ _ _ _ _ H) as Hz. destruct retunable.
  - destruct (validate_clock lim max_hz cur m m' Hs Ho H) as (Hf & Hc & set & E & Ea).
    destruct Hs as (_ & Hm & _). pose proof (Z.div_pos max_hz 200). unfold soct_dp_validate_mode. rewrite Hz. cbn [orb negb].
    destruct (Z.eqb_spec (pixel_clock_hz m') 0) as [E0|].
    { by rewrite E0, solve_zero in E. }
    rewrite (wrap_small 32 (max_hz + _)), !Z.gtb_ltb by (unfold fits; lia).
    destruct (Z.ltb_spec (max_hz + max_hz / 200) (pixel_clock_hz m')); [lia|].
    destruct (Z.ltb_spec max_hz (pixel_clock_hz m')); [lia|]. rewrite E, Ea, Z.gtb_ltb.
    destruct (Z.ltb_spec max_hz (pixel_clock_hz m')); [lia|]. by rewrite with_clock_id.
  - pose proof (validate_static _ _ _ _ _ H) as ->. unfold soct_dp_validate_mode in *. rewrite Hz. cbn [orb negb].
    destruct (Z.eqb_spec (pixel_clock_hz cur) 0) as [E0|E0].
    + exfalso. rewrite E0 in H. unfold mode_ok, fits in Ho. case_match eqn:Hn; [done|]. apply orb_false_iff in Hn as [_ Hn].
      cbn [negb] in H. rewrite wrap_small in H by (unfold fits; lia). zcases_in Hn. rewrite Z.gtb_ltb in H. destruct (Z.ltb_spec 0 (Z.abs (pixel_clock_hz m - 0) * 200)); [done|lia].
    + rewrite with_clock_id, Z.sub_diag. unfold soct_dp_mode_equal. rewrite bool_decide_true by done. cbn.
      unfold mode_ok, fits in Hk. rewrite wrap_small, Z.gtb_ltb by (unfold fits; lia).
      change (Z.abs 0 * 200) with 0. by destruct (Z.ltb_spec (pixel_clock_hz cur) 0); [lia|].
Qed.

(** A validated mode validates to itself: the clock the first solve achieved is one the
    second achieves exactly, so asking again for what the pipeline runs is recognised as no
    change. *)
Theorem validate_idempotent lim max_hz retunable cur m m' :
  sane lim max_hz -> mode_ok cur -> mode_ok m ->
  soct_dp_validate_mode lim max_hz retunable cur m = (0, m') ->
  soct_dp_validate_mode lim max_hz retunable cur m' = (0, m').
Proof. apply validate_settles. Qed.

(** What a switch leaves. *)
Lemma switch_mode_spec {D} {HD : Mmio D} lim max_hz fb fb_size n locks m (s : bus D * pipe) :
  sane lim max_hz -> mode_ok m -> honest lim fb fb_size s ->
  wp (soct_dp_switch_mode lim max_hz fb fb_size n locks m)
     (fun err s' => honest lim fb fb_size s' /\
        let '(e, want) := soct_dp_validate_mode lim max_hz (retunable s.2) (cur s.2) m in
        if negb (e =? 0) || soct_dp_mode_equal want (cur s.2) then err = e /\ s' = s
        else if err =? 0 then cur s'.2 = want else cur s'.2 = zero_mode) s.
Proof.
  intros Hs Ho Hh. unfold soct_dp_switch_mode. apply wp_get.
  destruct (soct_dp_validate_mode lim max_hz (retunable s.2) (cur s.2) m) as [e want] eqn:Hv.
  destruct (Z.eqb_spec e 0) as [->|He]; cbn [negb orb]; [|by apply wp_ret].
  destruct (soct_dp_mode_equal want (cur s.2)) eqn:Hq; [by apply wp_ret|].
  destruct (retunable s.2) eqn:Hr.
  2: { rewrite (validate_static _ _ _ _ _ Hv) in Hq. unfold soct_dp_mode_equal in Hq. by rewrite bool_decide_true in Hq. }
  destruct (validate_clock _ _ _ _ _ Hs Ho Hv) as (_ & _ & set & E & Ea). rewrite E.
  set (o := if negb (pixel_clock_hz want =? pixel_clock_hz (cur s.2)) then Some set else None).
  assert ((negb (pixel_clock_hz want =? pixel_clock_hz (cur s.2)) &&
           match o with None => true | Some _ => false end) = false) as ->.
  { unfold o. by destruct (pixel_clock_hz want =? pixel_clock_hz (cur s.2)). }
  wp_next restart_did. cbn beta. intros err s1 Hd. destruct (Z.eqb_spec err 0) as [->|He].
  2: { apply wp_put, wp_ret. split; [by left|]. by destruct (Z.eqb_spec err 0). }
  destruct (Hd eq_refl) as [cr [Hlog Hx]]. eapply wp_putd; [apply did_refl|]. intros s2 [Hl2 Hx2].
  eapply wp_poll; [apply did_refl|]. intros v s3 [Hl3 Hx3]. apply wp_ret. rewrite app_nil_r in Hl2, Hl3.
  rewrite Hx in Hx2. rewrite Hl2, Hlog in Hl3. rewrite Hx2 in Hx3. split; [|by rewrite Hx3].
  right. rewrite Hl3, Hx3. cbn [cur set_cur stream streams retunable pixel_clock_hz]. split_and!.
  - rewrite !app_assoc. apply shows_after.
  - by rewrite last_snoc.
  - intros _. rewrite !app_assoc. unfold o. destruct (Z.eqb_spec (pixel_clock_hz want) (pixel_clock_hz (cur s.2))) as [Ec|]; cbn [negb].
    + destruct Hh as [Hz|(_ & _ & Hc)]; [|destruct (Hc Hr) as (set' & E' & Ea' & Hw)].
      { exfalso. rewrite Hz in Ec. cbn in Ec. by rewrite Ec, solve_zero in E. }
      rewrite <-Ec in E', Ea'. exists set'. split_and!; [done|done|]. intros r w Hin.
      rewrite (clock_reg fb fb_size _ set' _ _ _ w) by done. cbn [clock_words]. rewrite app_nil_r, reg_app, (reg_notin [_]); [by apply Hw|].
      destruct (clock_words_keys set') as [_ Hk]. rewrite List.Forall_forall in Hk.
      specialize (Hk r ltac:(apply in_map_iff; by exists (r, w))). intros [<-|[]].
      unfold pixclk, vdma, VDMA_MM2S_DMACR in Hk. cbn in Hk. lia.
    + exists set. split_and!; [done|done|]. intros r w Hin. rewrite (clock_reg fb fb_size _ set _ _ _ w) by done.
      by rewrite reg_app, (reg_in _ _ _ (proj1 (clock_words_keys set)) Hin).
Qed.

(** C22. Switching modes, whatever the hardware answers.  A refused or unneeded switch writes
    nothing and changes nothing.  Otherwise the cached mode afterwards is either the validated
    one, with every register of the frame fetch, the timing generator and, on a retunable
    design, the pixel clock last written for it and its stream started; or, when any step
    failed, it is forgotten, so that the next request is not dismissed as already current. *)
Theorem switch_mode_honest {D} {HD : Mmio D} lim max_hz fb fb_size n locks m (s : bus D * pipe) :
  sane lim max_hz -> mode_ok m -> honest lim fb fb_size s ->
  wp (soct_dp_switch_mode lim max_hz fb fb_size n locks m)
     (fun err s' => honest lim fb fb_size s' /\
        let '(e, want) := soct_dp_validate_mode lim max_hz (retunable s.2) (cur s.2) m in
        if negb (e =? 0) || soct_dp_mode_equal want (cur s.2) then err = e /\ s' = s
        else if err =? 0 then cur s'.2 = want else cur s'.2 = zero_mode) s.
Proof. apply switch_mode_spec. Qed.

(** The frames the VDMA may fetch lie in the carve-out, and the second store is a second frame
    exactly when two fit; see DpFb for the other side of this arithmetic. *)
Lemma store_in_carveout fb fb_size w h i : 0 <= fb -> fb + fb_size < 2 ^ 64 -> fits 32 w -> fits 32 h ->
  w * 3 * h <= fb_size < 2 ^ 63 ->
  fb <= store_of fb fb_size w h i /\ store_of fb fb_size w h i + w * 3 * h <= fb + fb_size.
Proof.
  intros Hf Hs Hw Hh Hz. unfold store_of, fits in *. assert (0 <= w * 3 * h) by nia.
  rewrite (wrap_small 64 (w * 3 * h)), (wrap_small 64 (2 * _)), (wrap_small 64 (fb + _)) by (unfold fits; lia).
  destruct (i =? 1); cbn [andb]; [zcases|lia].
Qed.

(** ** At a concrete design *)

Definition m720p : soct_dp_mode := Mode 1280 110 40 220 720 5 5 20 1 1 60 74250000.
#[export] Instance dp_ready : Mmio unit := { mmio_read d r := (if r =? vidstat then 1 else 0, d); mmio_write d r v := d }.

Lemma zcu104_sane : sane zcu104 148500000.
Proof. unfold sane, u32_limits, fits. cbn. repeat split; lia. Qed.

Lemma valid_720p : soct_dp_validate_mode zcu104 148500000 true zero_mode m720p = (0, m720p).
Proof. unfold soct_dp_validate_mode. cbn -[soct_clk_wzrd_solve]. destruct solve_720p as (s & -> & ->). reflexivity. Qed.

(** What 74.25 MHz becomes in the picoseconds of the fbdev interface. *)
Lemma validate_idempotent_witness : exists m',
  soct_dp_validate_mode zcu104 148500000 true zero_mode (with_clock 74250074 m720p) = (0, m') /\
  soct_dp_validate_mode zcu104 148500000 true zero_mode m' = (0, m').
Proof.
  destruct (solve_near zcu104 74250074 4 100 297 zcu104_limits) as (s & E & Hs);
    [unfold fits; lia|cbn; lia|lia|split; [unfold legal; cbn; lia|by left]|by vm_compute|].
  change (dist zcu104 74250074 4 100 297) with 74 in Hs.
  assert (soct_dp_validate_mode zcu104 148500000 true zero_mode (with_clock 74250074 m720p) = (0, with_clock (achieved_hz s) m720p)) as H.
  { unfold soct_dp_validate_mode. cbn -[soct_clk_wzrd_solve]. rewrite E, !Z.gtb_ltb. clear E. destruct (Z.ltb_spec 148500000 (achieved_hz s)); [lia|reflexivity]. }
  exists (with_clock (achieved_hz s) m720p). split; [exact H|].
  apply (validate_idempotent zcu104 148500000 true zero_mode (with_clock 74250074 m720p) _ zcu104_sane);
    [unfold mode_ok, fits; cbn; lia..|exact H].
Defined.

Lemma switch_mode_honest_witness :
  let s : bus unit * pipe := (Bus tt [], Pipe zero_mode true []) in
  wp (soct_dp_switch_mode zcu104 148500000 0x80000000 0x600000 3 ([1], [1]) m720p)
     (fun err s' => honest zcu104 0x80000000 0x600000 s' /\ (if err =? 0 then cur s'.2 = m720p else cur s'.2 = zero_mode)) s.
Proof.
  intros s. eapply wp_mono.
  - apply (switch_mode_honest zcu104 148500000 0x80000000 0x600000 3 ([1], [1]) m720p s zcu104_sane);
      [unfold mode_ok, fits; cbn; lia|by left].
  - cbn [retunable cur snd s]. rewrite valid_720p. cbn [negb orb]. change (0 =? 0) with true. cbn [negb orb].
    intros err s' [H1 H2]. split; [exact H1|]. unfold soct_dp_mode_equal in H2. rewrite bool_decide_false in H2 by done. exact H2.
Defined.
