(* ===== verification/DpFb.v ===== *)
(** * The console framebuffer (binaries/linux/drivers/dp/fb.c)

    The scanout reads DRAM past the caches, so a pixel the CPU stored is seen only once its
    cache line was flushed.  Two memories, then, indexed by physical address: what the CPU
    sees ([virt]) and what the scanout fetches ([dram]); a flush copies one line from the
    first to the second.  Drawing records a dirty rectangle, and a worker flushes it. *)
From S2P Require Import Prelude Mmio ClkWzrd DpMode.

Definition CACHE_LINE : Z := 64.
Definition BYTES_PER_PIXEL : Z := 3.
Definition PAGE_SIZE : Z := 4096.
Definition ENOMEM : Z := 12.
Definition EFAULT : Z := 14.
Definition ENODEV : Z := 19.
Definition EFBIG : Z := 27.
Definition ENOSPC : Z := 28.

Definition memory : Type := Z -> Z.
Definition memcpy (dst : Z) (l : list Z) (m : memory) : memory :=
  fun p => if (dst <=? p) && (p <? dst + zlen l) then nth (Z.to_nat (p - dst)) l 0 else m p.
Definition memset (dst v n : Z) (m : memory) : memory := fun p => if (dst <=? p) && (p <? dst + n) then v else m p.

(** ** State *)

(** Corners of the dirty rectangle, inclusive. *)
Record rect := Rect { x0 : Z; y0 : Z; x1 : Z; y1 : Z }.
(** [static struct glyph]: one pattern per source byte. *)
Record glyph_table := Glyph { gfg : Z; gbg : Z; valid : bool; pat : list (list Z) }.

(** [static struct fbs].  [dirty] and [park] are the fields of that name with the flags that
    say whether they are valid; [shown] is the frame the scanout was last parked on. *)
Record fbs := Fbs {
  virt : memory; dram : memory;
  fmode : soct_dp_mode; width : Z; height : Z; stride : Z; frames : Z;
  dirty : option rect; park : option Z; shown : Z;
  palette : list Z; glyph : glyph_table }.

Definition set_virt v s := Fbs v (dram s) (fmode s) (width s) (height s) (stride s) (frames s) (dirty s) (park s) (shown s) (palette s) (glyph s).
Definition set_dram v s := Fbs (virt s) v (fmode s) (width s) (height s) (stride s) (frames s) (dirty s) (park s) (shown s) (palette s) (glyph s).
Definition set_geometry m w h st fr s := Fbs (virt s) (dram s) m w h st fr (dirty s) (park s) (shown s) (palette s) (glyph s).
Definition set_dirty d s := Fbs (virt s) (dram s) (fmode s) (width s) (height s) (stride s) (frames s) d (park s) (shown s) (palette s) (glyph s).
Definition set_park p s := Fbs (virt s) (dram s) (fmode s) (width s) (height s) (stride s) (frames s) (dirty s) p (shown s) (palette s) (glyph s).
Definition set_shown f s := Fbs (virt s) (dram s) (fmode s) (width s) (height s) (stride s) (frames s) (dirty s) (park s) f (palette s) (glyph s).
Definition set_palette p s := Fbs (virt s) (dram s) (fmode s) (width s) (height s) (stride s) (frames s) (dirty s) (park s) (shown s) p (glyph s).
Definition set_glyph g s := Fbs (virt s) (dram s) (fmode s) (width s) (height s) (stride s) (frames s) (dirty s) (park s) (shown s) (palette s) g.

Section fb.
(** The carve-out, and what registration fixed: whether pages can be tracked and for how many
    bytes. *)
Context (phys carveout_size : Z) (mmap_ok : bool) (defio_size : Z).

Definition fb_nframes (stride height : Z) : Z := if u64 (u64 (2 * stride) * height) <=? carveout_size then 2 else 1.

(** ** Flushing *)

(** The addresses the loop writes to Flush64, in order. *)
Fixpoint flush_from (fuel : nat) (a e : Z) : list Z :=
  match fuel with
  | O => []
  | S fuel => if a <? e then a :: flush_from fuel (u64 (a + CACHE_LINE)) e else []
  end.
Definition flush_range (start len : Z) : list Z :=
  flush_from (Z.to_nat (len / CACHE_LINE + 2)) (start .& cnot 64 (CACHE_LINE - 1)) (u64 (start + len)).

(** What one write to Flush64 does. *)
Definition flush_line (s : fbs) (a : Z) : fbs :=
  set_dram (fun p => if (a <=? p) && (p <? a + CACHE_LINE) then virt s p else dram s p) s.
Definition flush_lines (l : list Z) (s : fbs) : fbs := foldl flush_line s l.

(** The lines of the damage, row by row. *)
Definition row_lines (st : Z) (r : rect) (y : Z) : list Z :=
  flush_range (u64 (phys + y * st + u32 (x0 r * BYTES_PER_PIXEL))) (u64 (u32 (x1 r - x0 r + 1) * BYTES_PER_PIXEL)).
Definition damage_lines (st : Z) (r : rect) : list Z :=
  flat_map (row_lines st r) (seqZ (y0 r) (y1 r - y0 r + 1)).

(** The worker's critical section: the lines to flush, then the frame to park on. *)
Definition take_damage (s : fbs) : (list Z * option Z) * fbs :=
  (match dirty s with Some r => damage_lines (stride s) r | None => [] end, park s, set_park None (set_dirty None s)).

Definition apply_park (p : option Z) (s : fbs) : fbs := match p with Some f => set_shown f s | None => s end.

Definition soct_dp_fb_flush_work (s : fbs) : fbs :=
  let '((lines, p), s) := take_damage s in apply_park p (flush_lines lines s).

(** ** Damage *)

Definition vheight (s : fbs) : Z := u32 (height s * frames s).

Definition union (o : option rect) (r : rect) : rect :=
  match o with
  | Some d => Rect (Z.min (x0 d) (x0 r)) (Z.min (y0 d) (y0 r)) (Z.max (x1 d) (x1 r)) (Z.max (y1 d) (y1 r))
  | None => r
  end.

(** [oops] is oops_in_progress: flush at once instead of scheduling the worker. *)
Definition soct_dp_fb_damage_area (oops : bool) (x y w h : Z) (s : fbs) : fbs :=
  if (w =? 0) || (h =? 0) || (x >=? width s) || (y >=? vheight s) then s else
  let r := Rect x y (Z.min (u32 (x + w - 1)) (u32 (width s - 1))) (Z.min (u32 (y + h - 1)) (u32 (vheight s - 1))) in
  let s := set_dirty (Some (union (dirty s) r)) s in
  if oops then soct_dp_fb_flush_work s else s.

Definition soct_dp_fb_damage_range (oops : bool) (off len : Z) (s : fbs) : fbs :=
  let y0 := u32 (off / stride s) in
  let y1 := u32 ((off + len - 1) / stride s) in
  soct_dp_fb_damage_area oops 0 y0 (width s) (u32 (y1 - y0 + 1)) s.

(** ** Reading and writing *)

(** [info->fix.smem_len], as [soct_dp_fb_register] and [soct_dp_fb_set_par] leave it. *)
Definition smem_len (s : fbs) : Z := u32 (stride s * height s * frames s).

(** The return value, the bytes handed to the user and the new position.  A fault part way
    is the user buffer's doing: [room] is how many bytes it can take. *)
Definition soct_dp_fb_read (room count pos : Z) (s : fbs) : Z * list Z * Z :=
  let total := smem_len s in
  if pos <? 0 then (- EFBIG, [], pos) else
  if (pos >=? total) || (count =? 0) then (0, [], pos) else
  let count := if count >? total - pos then total - pos else count in
  if room <? count then (- EFAULT, map (fun i => virt s (phys + pos + i)) (seqZ 0 room), pos)
  else (count, map (fun i => virt s (phys + pos + i)) (seqZ 0 count), pos + count).

(** [buf] is what the user's buffer holds up to the byte that faults, [count] its length. *)
Definition soct_dp_fb_write (oops : bool) (buf : list Z) (count pos : Z) (s : fbs) : Z * Z * fbs :=
  let total := smem_len s in
  if (pos <? 0) || (pos >? total) then (- EFBIG, pos, s) else
  let count := if count >? total - pos then total - pos else count in
  if count =? 0 then (- ENOSPC, pos, s) else
  let s := set_virt (memcpy (phys + pos) (take (Z.to_nat count) buf) (virt s)) s in
  if zlen buf <? count then (- EFAULT, pos, s)
  else (count, pos + count, soct_dp_fb_damage_range oops pos count s).

(** ** Drawing *)

(** [struct fb_image], [fb_fillrect] and [fb_copyarea], as far as they are used. *)
Record fb_image := Image { idx : Z; idy : Z; iwidth : Z; iheight : Z; fg_color : Z; bg_color : Z; depth : Z; idata : list Z }.
Record fb_fillrect := Fill { fdx : Z; fdy : Z; fwidth : Z; fheight : Z; color : Z; rop : Z }.
Record fb_copyarea := Copy { cdx : Z; cdy : Z; cwidth : Z; cheight : Z; sx : Z; sy : Z }.
Definition ROP_COPY : Z := 0.

(** The generic helpers of the kernel. *)
Context (cfb_fillrect : fb_fillrect -> memory -> memory) (cfb_copyarea : fb_copyarea -> memory -> memory)
        (cfb_imageblit : fb_image -> memory -> memory).

Definition soct_dp_fb_defio_fillrect (oops : bool) (r : fb_fillrect) (s : fbs) : fbs :=
  soct_dp_fb_damage_area oops (fdx r) (fdy r) (fwidth r) (fheight r) (set_virt (cfb_fillrect r (virt s)) s).
Definition soct_dp_fb_defio_copyarea (oops : bool) (a : fb_copyarea) (s : fbs) : fbs :=
  soct_dp_fb_damage_area oops (cdx a) (cdy a) (cwidth a) (cheight a) (set_virt (cfb_copyarea a (virt s)) s).
Definition soct_dp_fb_defio_imageblit (oops : bool) (i : fb_image) (s : fbs) : fbs :=
  soct_dp_fb_damage_area oops (idx i) (idy i) (iwidth i) (iheight i) (set_virt (cfb_imageblit i (virt s)) s).

Definition pixel (c : Z) : list Z := [c .& 0xff; (c .>> 8) .& 0xff; (c .>> 16) .& 0xff].
Definition pattern (fg bg b : Z) : list Z :=
  flat_map (fun bit => pixel (if tst b (0x80 .>> bit) then fg else bg)) (seqZ 0 8).
Definition rebuild (fg bg : Z) : glyph_table := Glyph fg bg true (map (pattern fg bg) (seqZ 0 256)).
Definition glyph_for (fg bg : Z) (g : glyph_table) : glyph_table :=
  if negb (valid g) || negb (gfg g =? fg) || negb (gbg g =? bg) then rebuild fg bg else g.

(** One line of the image: [n] source bytes, [rem] pixels still to draw. *)
Fixpoint blit_row (pats : list (list Z)) (src : list Z) (rem dst : Z) (m : memory) : memory :=
  match src with
  | [] => m
  | b :: src =>
      let px := Z.min rem 8 in
      blit_row pats src (rem - px) (dst + px * BYTES_PER_PIXEL)
        (memcpy dst (take (Z.to_nat (px * BYTES_PER_PIXEL)) (nth (Z.to_nat b) pats [])) m)
  end.
Definition row_start (s : fbs) (x y : Z) : Z := phys + y * stride s + x * BYTES_PER_PIXEL.
Definition spitch (i : fb_image) : Z := (iwidth i + 7) / 8.
Definition blit_rows (pats : list (list Z)) (i : fb_image) (s : fbs) (m : memory) : memory :=
  foldl (fun m y => blit_row pats (take (Z.to_nat (spitch i)) (drop (Z.to_nat (y * spitch i)) (idata i)))
                             (iwidth i) (row_start s (idx i) (idy i + y)) m)
        m (seqZ 0 (iheight i)).

Definition pal (s : fbs) (c : Z) : Z := nth (Z.to_nat c) (palette s) 0.

Definition soct_dp_fb_imageblit (oops : bool) (i : fb_image) (s : fbs) : fbs :=
  if negb (depth i =? 1) then soct_dp_fb_defio_imageblit oops i s else
  let g := glyph_for (pal s (fg_color i)) (pal s (bg_color i)) (glyph s) in
  let s := set_glyph g s in
  soct_dp_fb_damage_area oops (idx i) (idy i) (iwidth i) (iheight i) (set_virt (blit_rows (pat g) i s (virt s)) s).

Definition soct_dp_fb_fillrect (oops : bool) (r : fb_fillrect) (s : fbs) : fbs :=
  let c := pal s (color r) in
  let b := c .& 0xff in
  if negb (rop r =? ROP_COPY) || negb (b =? (c .>> 8) .& 0xff) || negb (b =? (c .>> 16) .& 0xff)
  then soct_dp_fb_defio_fillrect oops r s
  else soct_dp_fb_damage_area oops (fdx r) (fdy r) (fwidth r) (fheight r)
         (set_virt (foldl (fun m y => memset (row_start s (fdx r) (fdy r + y)) b (fwidth r * BYTES_PER_PIXEL) m)
                          (virt s) (seqZ 0 (fheight r))) s).

(** The offsets of the three channels in [info->var]. *)
Definition soct_dp_fb_setcolreg (regno red green blue : Z) (s : fbs) : Z * fbs :=
  if regno >=? 16 then (- EINVAL, s)
  else (0, set_palette (<[Z.to_nat regno := u32 ((red .>> 8) .<< 16) .| u32 ((green .>> 8) .<< 8) .| u32 ((blue .>> 8) .<< 0)]> (palette s)) s).

(** ** Panning and mapped pages *)

Definition soct_dp_fb_pan_display (xoffset yoffset : Z) (s : fbs) : Z * fbs :=
  if negb (xoffset =? 0) || negb (yoffset mod height s =? 0) then (- EINVAL, s) else
  if yoffset / height s >=? frames s then (- EINVAL, s) else
  (0, set_park (Some (yoffset / height s)) s).

(** The lines flushed for the pages written since the last call: runs of adjacent pages are
    one range.  [start] and [len] are the run being collected. *)
Fixpoint defio_lines (pages : list Z) (start len : Z) : list Z :=
  match pages with
  | [] => if len =? 0 then [] else flush_range start len
  | p :: pages =>
      if negb (len =? 0) && (phys + p =? start + len) then defio_lines pages start (len + PAGE_SIZE)
      else (if len =? 0 then [] else flush_range start len) ++ defio_lines pages (phys + p) PAGE_SIZE
  end.
Definition soct_dp_fb_deferred_io (pages : list Z) (s : fbs) : fbs := flush_lines (defio_lines pages 0 0) s.

Definition soct_dp_fb_mmap : Z := if mmap_ok then 0 else - ENODEV.

(** ** Modes and the fbdev interface *)

(** [struct fb_var_screeninfo], as far as it is used. *)
Record var := Var {
  xres : Z; yres : Z; xres_virtual : Z; yres_virtual : Z; xoffset : Z; yoffset : Z; bits_per_pixel : Z;
  pixclock : Z; left_margin : Z; right_margin : Z; upper_margin : Z; lower_margin : Z;
  vhsync_len : Z; vvsync_len : Z; sync : Z; vmode : Z }.
Definition FB_SYNC_HOR_HIGH_ACT : Z := 1.
Definition FB_SYNC_VERT_HIGH_ACT : Z := 2.
Definition FB_VMODE_MASK : Z := 255.
Definition FB_VMODE_NONINTERLACED : Z := 0.

(** The kernel's rounding divisions; the first truncates its divisor to 32 bits. *)
Definition DIV_ROUND_CLOSEST_ULL (x d : Z) : Z := u64 (x + d / 2) / u32 d.
Definition DIV64_U64_ROUND_CLOSEST (x d : Z) : Z := u64 (x + d / 2) / d.
Definition PS : Z := 1000000000000.

Definition soct_dp_fb_fill_var (m : soct_dp_mode) : var :=
  Var (hactive m) (vactive m) (hactive m) (u32 (vactive m * fb_nframes (u32 (hactive m * BYTES_PER_PIXEL)) (vactive m))) 0 0 24
      (u32 (DIV_ROUND_CLOSEST_ULL PS (pixel_clock_hz m)))
      (hback_porch m) (hfront_porch m) (vback_porch m) (vfront_porch m) (hsync_len m) (vsync_len m)
      ((if hsync_active m =? 0 then 0 else FB_SYNC_HOR_HIGH_ACT) .| (if vsync_active m =? 0 then 0 else FB_SYNC_VERT_HIGH_ACT))
      FB_VMODE_NONINTERLACED.

(** [Ret None] is -EINVAL; a frame time of zero is divided by. *)
Definition soct_dp_fb_var_to_mode (v : var) : res (option soct_dp_mode) :=
  if (pixclock v =? 0) || negb (vmode v .& FB_VMODE_MASK =? FB_VMODE_NONINTERLACED) then Ret None else
  let m f := Mode (xres v) (right_margin v) (vhsync_len v) (left_margin v) (yres v) (lower_margin v) (vvsync_len v) (upper_margin v)
                  (b2z (tst (sync v) FB_SYNC_HOR_HIGH_ACT)) (b2z (tst (sync v) FB_SYNC_VERT_HIGH_ACT)) f
                  (u32 (DIV_ROUND_CLOSEST_ULL PS (pixclock v))) in
  let dots := u64 (u64 (pixclock v * mode_htotal (m 0)) * mode_vtotal (m 0)) in
  if dots =? 0 then Undef else
  let f := u32 (DIV64_U64_ROUND_CLOSEST PS dots) in
  Ret (if f =? 0 then None else Some (m f)).

Section pipeline.
Context {D : Type} {HD : Mmio D} (lim : soct_clk_wzrd_limits) (max_hz : Z).
Abbreviation drv := (prog ((bus D * pipe) * fbs)).

(** Run a function of dp-main.c; change this file's variables. *)
Definition on_pipe {A} (m : prog (bus D * pipe) A) : drv A := fun s =>
  match m s.1 with Ret (a, p) => Ret (a, (p, s.2)) | Undef => Undef | Fuel => Fuel end.
Definition on_fb (f : fbs -> fbs) : drv unit := fun s => Ret (tt, (s.1, f s.2)).

Definition frame_size (m : soct_dp_mode) : Z := u64 (u64 (hactive m * vactive m) * BYTES_PER_PIXEL).

(** The answer is the adjusted var, or [None] for -EINVAL. *)
Definition soct_dp_fb_check_var (v : var) (x : pipe) : res (option var) :=
  m ← soct_dp_fb_var_to_mode v;
  match m with
  | None => mret None
  | Some m =>
      if frame_size m >? carveout_size then mret None else
      if mmap_ok && (u64 (frame_size m * fb_nframes (u32 (hactive m * BYTES_PER_PIXEL)) (vactive m)) >? defio_size) then mret None else
      let '(err, m) := soct_dp_validate_mode lim max_hz (retunable x) (cur x) m in
      mret (if negb (err =? 0) then None else Some (soct_dp_fb_fill_var m))
  end.

(** The state a mode switch leaves: the new geometry, both frames black and pushed out. *)
Definition adopt (m : soct_dp_mode) (s : fbs) : fbs :=
  let st := u32 (hactive m * BYTES_PER_PIXEL) in
  let fr := fb_nframes st (vactive m) in
  let size := u64 (u64 (st * vactive m) * fr) in
  let s := set_geometry m (hactive m) (vactive m) st fr s in
  flush_lines (flush_range phys size) (set_virt (memset phys 0 size (virt s)) s).

Definition soct_dp_fb_set_par (n : nat) (locks : list Z * list Z) (v : var) : drv Z :=
  x ← on_pipe get;
  s ← gets snd;
  m ← lift (soct_dp_fb_var_to_mode v);
  match m with
  | None => mret (- EINVAL)
  | Some m =>
      let '(err, m) := soct_dp_validate_mode lim max_hz (retunable x) (cur x) m in
      if negb (err =? 0) then mret (- EINVAL) else
      if soct_dp_mode_equal m (fmode s) then mret 0 else
      on_fb (fun s => set_park None (set_dirty None s));;
      err ← on_pipe (soct_dp_switch_mode lim max_hz phys carveout_size n locks m);
      if negb (err =? 0) then
        on_fb (fun s => set_geometry zero_mode (width s) (height s) (stride s) (frames s) s);; mret err
      else on_fb (adopt m);; mret 0
  end.

(** [soct_dp_fb_prepare], its two mappings having succeeded: the state it sets up, or [None]
    when one frame does not fit the carve-out.  [s] is what the memories held. *)
Definition soct_dp_fb_prepare (m : soct_dp_mode) (s : fbs) : option fbs :=
  if u64 (u64 (hactive m * BYTES_PER_PIXEL) * vactive m) >? carveout_size then None
  else Some (adopt m s).
End pipeline.
End fb.
