(* ===== verification/DpFbProofs.v ===== *)
(** * The framebuffer is coherent: proofs for fb.c

    What flushing reaches, the machine of drawers, worker and scanout running at once, and the
    theorem that nothing the CPU drew is ever stale in DRAM without being accounted for. *)
From stdpp Require Import relations.
From S2P Require Import Prelude Mmio ClkWzrd DpMode DpFb.

(** ** Cache lines *)

(** Byte [p] is in one of the lines [l]. *)
Definition covers (l : list Z) (p : Z) : Prop := exists a, In a l /\ a <= p < a + CACHE_LINE.

Lemma covers_app l l' p : covers (l ++ l') p <-> covers l p \/ covers l' p.
Proof. unfold covers. setoid_rewrite in_app_iff. firstorder. Qed.

Lemma flush_from_In fuel : forall b e a, 0 <= b -> e + CACHE_LINE <= 2 ^ 64 -> e - b <= CACHE_LINE * Z.of_nat fuel ->
  In a (flush_from fuel b e) <-> exists k, 0 <= k /\ a = b + CACHE_LINE * k /\ a < e.
Proof.
  unfold CACHE_LINE. induction fuel as [|fuel IH]; intros b e a Hb He Hf; cbn [flush_from].
  - split; [done|]. intros (k & Hk & -> & Hlt). lia.
  - destruct (Z.ltb_spec b e) as [Hlt|Hge].
    + unfold CACHE_LINE. rewrite wrap_small by (unfold fits; lia). cbn [In]. rewrite IH by lia. split.
      * intros [<-|(k & Hk & -> & Hlt')]; [exists 0; lia|exists (k + 1); lia].
      * intros (k & Hk & -> & Hlt'). destruct (Z.eq_dec k 0) as [->|]; [left; lia|right; exists (k - 1); lia].
    + split; [done|]. intros (k & Hk & -> & Hlt). lia.
Qed.

(** The lines of a range: every line that meets it, and no other. *)
Lemma flush_range_In start len a : 0 <= start -> 0 <= len -> start + len + CACHE_LINE <= 2 ^ 64 ->
  In a (flush_range start len) <-> a mod CACHE_LINE = 0 /\ start - start mod CACHE_LINE <= a < start + len.
Proof.
  intros Hs Hl He. unfold CACHE_LINE in *. unfold flush_range. rewrite (wrap_small 64 (start + len)) by (unfold fits; lia).
  change (CACHE_LINE - 1) with (Z.ones 6). rewrite align_down by (unfold fits; lia). change (2 ^ 6) with 64.
  pose proof (Z.mod_pos_bound start 64). pose proof (Z.div_mod start 64). pose proof (Z.div_mod len 64).
  pose proof (Z.mod_pos_bound len 64). pose proof (Z.div_pos len 64). pose proof (Z.div_pos start 64).
  rewrite flush_from_In; unfold CACHE_LINE; [|lia..]. split.
  - intros (k & Hk & -> & Hlt). split; [|lia]. replace (start - start mod 64 + 64 * k) with ((start / 64 + k) * 64) by lia.
    apply Z.mod_mul. lia.
  - intros [Hm Hr]. pose proof (Z.div_mod a 64). exists (a / 64 - start / 64). split; [|lia].
    assert (start / 64 * 64 <= a / 64 * 64) by lia. lia.
Qed.

Lemma flush_range_covers start len p : 0 <= start -> start + len + CACHE_LINE <= 2 ^ 64 ->
  start <= p < start + len -> covers (flush_range start len) p.
Proof.
  intros Hs He Hp. unfold CACHE_LINE in *. pose proof (Z.mod_pos_bound p 64). pose proof (Z.div_mod p 64).
  pose proof (Z.div_mod start 64). pose proof (Z.mod_pos_bound start 64).
  exists (p - p mod 64). split; [|unfold CACHE_LINE; lia]. apply flush_range_In; unfold CACHE_LINE; [lia..|]. split.
  - replace (p - p mod 64) with (p / 64 * 64) by lia. apply Z.mod_mul. lia.
  - assert (start / 64 <= p / 64) by (apply Z.div_le_mono; lia). lia.
Qed.

(** ** What flushing does to the two memories *)

Lemma flush_line_dram s a p :
  dram (flush_line s a) p = if (a <=? p) && (p <? a + CACHE_LINE) then virt s p else dram s p.
Proof. done. Qed.

Lemma flush_lines_virt l : forall s, virt (flush_lines l s) = virt s.
Proof. induction l as [|a l IH]; intros s; cbn; [done|]. unfold flush_lines in IH. by rewrite IH. Qed.

(** Flushing never makes a byte stale. *)
Lemma flush_lines_fresh l : forall s p, dram s p = virt s p -> dram (flush_lines l s) p = virt s p.
Proof.
  induction l as [|a l IH]; intros s p H; cbn; [done|]. apply (IH (flush_line s a)).
  rewrite flush_line_dram. by destruct (_ && _).
Qed.

Lemma flush_lines_covers l : forall s p, covers l p -> dram (flush_lines l s) p = virt s p.
Proof.
  induction l as [|a l IH]; intros s p (b & Hin & Hp); [done|]. cbn. destruct Hin as [<-|Hin].
  - apply (flush_lines_fresh l (flush_line s a)). rewrite flush_line_dram.
    destruct (Z.leb_spec a p), (Z.ltb_spec p (a + CACHE_LINE)); cbn; [done|lia..].
  - apply (IH (flush_line s a)). by exists b.
Qed.

Lemma flush_lines_other l : forall s p, ~ covers l p -> dram (flush_lines l s) p = dram s p.
Proof.
  induction l as [|a l IH]; intros s p H; cbn; [done|]. unfold flush_lines in IH. rewrite IH, flush_line_dram.
  - destruct (Z.leb_spec a p), (Z.ltb_spec p (a + CACHE_LINE)); cbn; try done.
    destruct H. exists a. split; [by left|done].
  - intros (b & Hin & Hb). apply H. exists b. split; [by right|done].
Qed.

Section machine.
Context (phys carveout_size : Z).

(** ** Areas of the screen *)

(** The geometry is what a mode that fits the carve-out gives. *)
Definition geo (s : fbs) : Prop :=
  0 <= phys /\ 0 < width s /\ 0 < height s /\ stride s = BYTES_PER_PIXEL * width s /\ stride s < 2 ^ 32 /\
  (frames s = 1 \/ frames s = 2) /\ height s * frames s < 2 ^ 32 /\
  phys + stride s * (height s * frames s) + CACHE_LINE <= 2 ^ 64.

Definition rect_ok (s : fbs) (r : rect) : Prop :=
  0 <= x0 r <= x1 r /\ x1 r < width s /\ 0 <= y0 r <= y1 r /\ y1 r < height s * frames s.

(** The bytes of an area, and of the whole screen, both frames. *)
Definition in_rect (s : fbs) (r : rect) (p : Z) : Prop :=
  exists y, y0 r <= y <= y1 r /\
    BYTES_PER_PIXEL * x0 r <= p - (phys + y * stride s) < BYTES_PER_PIXEL * (x1 r + 1).
Definition on_screen (s : fbs) (p : Z) : Prop := phys <= p < phys + stride s * (height s * frames s).

(** Membership of an area is decided by its rows. *)
Lemma in_rect_dec s r p : in_rect s r p \/ ~ in_rect s r p.
Proof.
  unfold in_rect. assert (forall n, (exists y, y0 r <= y < y0 r + Z.of_nat n /\
    BYTES_PER_PIXEL * x0 r <= p - (phys + y * stride s) < BYTES_PER_PIXEL * (x1 r + 1)) \/
    ~ (exists y, y0 r <= y < y0 r + Z.of_nat n /\
    BYTES_PER_PIXEL * x0 r <= p - (phys + y * stride s) < BYTES_PER_PIXEL * (x1 r + 1))) as H.
  { induction n as [|n IH]; [right; intros (y & Hy & _); lia|]. destruct IH as [(y & Hy & Hp)|IH].
    - left. exists y. split; [lia|done].
    - set (y := y0 r + Z.of_nat n). destruct (Z.le_gt_cases (BYTES_PER_PIXEL * x0 r) (p - (phys + y * stride s))),
        (Z.lt_ge_cases (p - (phys + y * stride s)) (BYTES_PER_PIXEL * (x1 r + 1)));
        [left; exists y; lia|right; intros (z & Hz & Hp); destruct (Z.eq_dec z y) as [->|]; [lia|]; apply IH; exists z; lia..]. }
  destruct (H (Z.to_nat (y1 r + 1 - y0 r))) as [(y & Hy & Hp)|Hn]; [left; exists y; lia|].
  right. intros (y & Hy & Hp). apply Hn. exists y. lia.
Qed.

Lemma damage_covers s r p : geo s -> rect_ok s r -> in_rect s r p -> covers (damage_lines phys (stride s) r) p.
Proof.
  intros (Hp & Hw & Hh & Hst & Hs & Hf & Hv & He) (Hx & Hx' & Hy & Hy') (y & Hyr & Hb).
  unfold BYTES_PER_PIXEL, CACHE_LINE in *.
  assert (0 <= y * stride s <= (height s * frames s - 1) * stride s) by nia.
  assert (covers (row_lines phys (stride s) r y) p) as (a & Hin & Ha).
  { unfold row_lines, BYTES_PER_PIXEL. rewrite (wrap_small 32 (x0 r * 3)), (wrap_small 32 (x1 r - _ + 1)) by (unfold fits; lia).
    rewrite (wrap_small 64 (phys + _ + _)), (wrap_small 64 (_ * 3)) by (unfold fits; lia).
    apply flush_range_covers; unfold CACHE_LINE; lia. }
  exists a. split; [|done]. unfold damage_lines. apply in_flat_map. exists y. split; [|done].
  apply list_elem_of_In, elem_of_seqZ. lia.
Qed.

Lemma vheight_eq s : geo s -> vheight s = height s * frames s.
Proof. intros (_ & _ & Hh & _ & _ & Hf & Hv & _). unfold vheight. apply wrap_small. unfold fits. nia. Qed.

(** Recorded damage: the new area and everything recorded before. *)
Lemma damage_area_spec s r : geo s -> rect_ok s r ->
  soct_dp_fb_damage_area phys false (x0 r) (y0 r) (x1 r - x0 r + 1) (y1 r - y0 r + 1) s
  = set_dirty (Some (union (dirty s) r)) s.
Proof.
  intros Hg (Hx & Hx' & Hy & Hy'). unfold soct_dp_fb_damage_area. rewrite (vheight_eq s Hg).
  destruct Hg as (Hp & Hw & Hh & Hst & Hs & Hf & Hv & _). unfold BYTES_PER_PIXEL in *.
  rewrite !(wrap_small 32) by (unfold fits; lia). rewrite !Z.geb_leb. zcases. do 3 f_equal.
  destruct r; cbn in *. f_equal; lia.
Qed.

Lemma union_ok s o r : rect_ok s r -> (forall d, o = Some d -> rect_ok s d) -> rect_ok s (union o r).
Proof.
  intros Hr Hd. destruct o as [d|]; [|done]. specialize (Hd d eq_refl). unfold rect_ok in *. cbn. lia.
Qed.

Lemma union_covers s o r p : in_rect s r p \/ (exists d, o = Some d /\ in_rect s d p) -> in_rect s (union o r) p.
Proof.
  unfold in_rect, BYTES_PER_PIXEL. destruct o as [d|]; cbn.
  - intros [(y & Hy & Hp)|(? & [= <-] & y & Hy & Hp)]; exists y; lia.
  - intros [H|(? & ? & _)]; [exact H|done].
Qed.

(** ** Drawers, worker and scanout at once *)

(** [drawing]: the areas of the operations that are storing pixels and have not recorded them.
    [jobs]: for each running flush the lines it still has to write and the frame it parks
    on when it is done; there is one per worker and one per console operation of a dying
    kernel. *)
Record world := World { fb : fbs; drawing : list rect; jobs : list (list Z * option Z) }.

Inductive step : world -> world -> Prop :=
| step_begin f dr js r : rect_ok f r -> step (World f dr js) (World f (r :: dr) js)
| step_store f dr js r m g : In r dr -> (forall p, ~ in_rect f r p -> m p = virt f p) ->
    step (World f dr js) (World (set_glyph g (set_virt m f)) dr js)
| step_damage f dr1 r dr2 js :
    step (World f (dr1 ++ r :: dr2) js)
         (World (soct_dp_fb_damage_area phys false (x0 r) (y0 r) (x1 r - x0 r + 1) (y1 r - y0 r + 1) f) (dr1 ++ dr2) js)
| step_take f dr js : step (World f dr js) (World (take_damage phys f).2 dr ((take_damage phys f).1 :: js))
| step_line f dr js1 a l p js2 :
    step (World f dr (js1 ++ (a :: l, p) :: js2)) (World (flush_line f a) dr (js1 ++ (l, p) :: js2))
| step_park f dr js1 p js2 : step (World f dr (js1 ++ ([], p) :: js2)) (World (apply_park p f) dr (js1 ++ js2))
| step_pan f dr js x y f' : soct_dp_fb_pan_display x y f = (0, f') -> step (World f dr js) (World f' dr js)
| step_evict f dr js a : step (World f dr js) (World (flush_line f a) dr js).

(** A byte that is stale in DRAM is accounted for: recorded, being drawn or being flushed. *)
Definition pending (w : world) (p : Z) : Prop :=
  (exists r, dirty (fb w) = Some r /\ in_rect (fb w) r p) \/
  (exists r, In r (drawing w) /\ in_rect (fb w) r p) \/
  (exists j, In j (jobs w) /\ covers j.1 p).

Record good (w : world) : Prop := {
  good_geo : geo (fb w);
  good_dirty : forall r, dirty (fb w) = Some r -> rect_ok (fb w) r;
  good_drawing : forall r, In r (drawing w) -> rect_ok (fb w) r;
  good_stale : forall p, on_screen (fb w) p -> dram (fb w) p = virt (fb w) p \/ pending w p }.

(** Steps that leave the geometry alone leave areas alone. *)
Definition same_geo (s s' : fbs) : Prop :=
  width s' = width s /\ height s' = height s /\ stride s' = stride s /\ frames s' = frames s.

Lemma same_geo_areas s s' : same_geo s s' ->
  (geo s -> geo s') /\ (forall r, rect_ok s r -> rect_ok s' r) /\
  (forall r p, in_rect s' r p <-> in_rect s r p) /\ (forall p, on_screen s' p <-> on_screen s p).
Proof. intros (H1 & H2 & H3 & H4). unfold geo, rect_ok, in_rect, on_screen. rewrite H1, H2, H3, H4. tauto. Qed.

(** One step at a time: what may be stale afterwards must have been, or have been stored to. *)
Lemma good_step w w' : good w -> same_geo (fb w) (fb w') ->
  (forall r, dirty (fb w') = Some r -> rect_ok (fb w) r) ->
  (forall r, In r (drawing w') -> rect_ok (fb w) r) ->
  (forall p, (dram (fb w') p = virt (fb w') p) \/ (dram (fb w) p <> virt (fb w) p /\ (pending w p -> pending w' p)) \/ pending w' p) ->
  good w'.
Proof.
  intros [Hg Hd Hr Hs] Hsame Hd' Hr' Hp. destruct (same_geo_areas _ _ Hsame) as (G & R & _ & S). split; auto.
  intros p Hon. apply S in Hon. destruct (Hp p) as [H|[[H1 H2]|H]]; [by left| |by right].
  destruct (Hs p Hon) as [|H]; [done|]. right. auto.
Qed.

Lemma stale_dec (a b : Z) : a = b \/ a <> b.
Proof. destruct (Z.eq_dec a b); auto. Qed.

(** What a flush in progress, or done, still accounts for. *)
Lemma line_pending f dr js1 a l p js2 q : ~ (a <= q < a + CACHE_LINE) ->
  pending (World f dr (js1 ++ (a :: l, p) :: js2)) q -> pending (World (flush_line f a) dr (js1 ++ (l, p) :: js2)) q.
Proof.
  intros Hq [H|[H|(j & Hin & b & Hb & Hbq)]]; [by left|by right; left|]. do 2 right.
  cbn in Hin. apply in_app_iff in Hin as [Hin|[<-|Hin]].
  - exists j. split; [apply in_app_iff; by left|by exists b].
  - exists (l, p). split; [apply in_elt|]. destruct Hb as [<-|Hb]; [lia|by exists b].
  - exists j. split; [apply in_app_iff; by right; right|by exists b].
Qed.

Lemma park_pending f dr js1 p js2 q :
  pending (World f dr (js1 ++ ([], p) :: js2)) q -> pending (World (apply_park p f) dr (js1 ++ js2)) q.
Proof.
  assert (dirty (apply_park p f) = dirty f /\ stride (apply_park p f) = stride f) as [Ed Es] by (by destruct p).
  unfold pending, in_rect. cbn. rewrite Ed, Es. intros [H|[H|(j & Hin & H)]]; [by left|by right; left|]. do 2 right.
  apply in_app_iff in Hin as [Hin|[<-|Hin]]; [|by destruct H as (? & [] & _)|];
    exists j; (split; [apply in_app_iff; auto|done]).
Qed.

Lemma step_good w w' : step w w' -> good w -> good w'.
Proof.
  intros Hstep Hw. pose proof Hw as [Hg Hd Hr Hs]. destruct Hstep as
    [f dr js r Hok|f dr js r m g Hin Hm|f dr1 r dr2 js|f dr js|f dr js1 a l p js2|f dr js1 p js2|f dr js x y f' Hpan|f dr js a];
    cbn [fb drawing jobs] in *.
  - apply (good_step _ _ Hw); cbn; try done.
    { intros r' [<-|]; auto. }
    intros q. destruct (stale_dec (dram f q) (virt f q)); [by left|]. right; left. split; [done|].
    intros [H'|[(r' & ? & ?)|H']]; [by left|right; left; exists r'; split; [by right|done]|by do 2 right].
  - apply (good_step _ _ Hw); cbn; try done. intros q. destruct (in_rect_dec f r q) as [Hq|Hq].
    + do 2 right. right. left. by exists r.
    + rewrite (Hm q Hq). destruct (stale_dec (dram f q) (virt f q)); [by left|]. right; left. by split.
  - rewrite damage_area_spec by (auto; apply Hr, in_elt). apply (good_step _ _ Hw); cbn; try done.
    { intros r' [= <-]. apply union_ok; [apply Hr, in_elt|auto]. }
    { intros r' Hin. apply Hr. apply in_app_iff in Hin as [|]; apply in_app_iff; [by left|by right; right]. }
    intros q. destruct (stale_dec (dram f q) (virt f q)); [by left|]. right; left. split; [done|].
    intros [(d & Hq & H')|[(r' & Hin & H')|H']]; [left|cbn in Hin|by do 2 right].
    + eexists. split; [done|]. apply (union_covers f). right. by exists d.
    + apply in_app_iff in Hin as [Hin|[<-|Hin]].
      * right; left. exists r'. split; [apply in_app_iff; by left|done].
      * left. eexists. split; [done|]. apply (union_covers f). by left.
      * right; left. exists r'. split; [apply in_app_iff; by right|done].
  - apply (good_step _ _ Hw); cbn; try done.
    intros q. destruct (stale_dec (dram f q) (virt f q)); [by left|]. right; left. split; [done|].
    intros [(d & Hq & H')|[H'|(j & Hin & H')]]; [|by right; left|do 2 right; exists j; split; [by right|done]].
    cbn in Hq. do 2 right. eexists. split; [by left|]. cbn. rewrite Hq. by apply damage_covers; auto.
  - apply (good_step _ _ Hw); cbn; try done. intros q.
    destruct (Z.leb_spec a q), (Z.ltb_spec q (a + CACHE_LINE)); cbn; [by left| | |];
      (destruct (stale_dec (dram f q) (virt f q)); [by left|]; right; left; split; [done|]);
      intros H'; apply line_pending; auto; lia.
  - apply (good_step _ _ Hw); [by destruct p|by destruct p|done|]. cbn. intros q.
    assert (dram (apply_park p f) = dram f /\ virt (apply_park p f) = virt f) as [E1 E2] by (by destruct p).
    rewrite E1, E2. destruct (stale_dec (dram f q) (virt f q)); [by left|]. right; left. split; [done|]. apply park_pending.
  - assert (exists fr, f' = set_park fr f) as [fr ->].
    { unfold soct_dp_fb_pan_display in Hpan. repeat case_match; simplify_eq; try (by eexists); done. }
    apply (good_step _ _ Hw); cbn; try done. intros q.
    destruct (stale_dec (dram f q) (virt f q)); [by left|]. right; left. by split.
  - apply (good_step _ _ Hw); cbn; try done. intros q.
    destruct (Z.leb_spec a q), (Z.ltb_spec q (a + CACHE_LINE)); cbn; [by left| | |];
      (destruct (stale_dec (dram f q) (virt f q)); [by left|]; right; left; by split).
Qed.

Lemma steps_good w w' : rtc step w w' -> good w -> good w'.
Proof. induction 1; eauto using step_good. Qed.

(** No step changes the geometry. *)
Lemma step_geo w w' : step w w' -> same_geo (fb w) (fb w').
Proof.
  intros Hs. destruct Hs as [| |f dr1 r dr2 js| | |f dr js1 p js2|f dr js x y f' Hpan|]; try done.
  - cbn. unfold soct_dp_fb_damage_area, same_geo. by destruct (_ || _).
  - by destruct p.
  - cbn. unfold soct_dp_fb_pan_display in Hpan. repeat case_match; by simplify_eq.
Qed.

Lemma steps_geo w w' : rtc step w w' -> same_geo (fb w) (fb w').
Proof.
  induction 1 as [|x y z Hs _ (? & ? & ? & ?)]; [done|]. destruct (step_geo _ _ Hs) as (? & ? & ? & ?). unfold same_geo. split_and!; congruence.
Qed.

(** ** Coming to rest *)

Lemma finish_lines f dr l p js : exists f', rtc step (World f dr ((l, p) :: js)) (World f' dr js) /\
  virt f' = virt f /\ dirty f' = dirty f.
Proof.
  revert f. induction l as [|a l IH]; intros f.
  - exists (apply_park p f). split; [apply rtc_once, (step_park f dr [] p js)|by destruct p].
  - destruct (IH (flush_line f a)) as (f' & Hs & Hv & Hd). exists f'. split; [|done].
    eapply rtc_l; [apply (step_line f dr [] a l p js)|exact Hs].
Qed.

Lemma finish_jobs f dr js : exists f', rtc step (World f dr js) (World f' dr []) /\ virt f' = virt f /\ dirty f' = dirty f.
Proof.
  revert f. induction js as [|[l p] js IH]; intros f; [by exists f|].
  destruct (finish_lines f dr l p js) as (f1 & H1 & Hv1 & Hd1). destruct (IH f1) as (f2 & H2 & Hv2 & Hd2).
  exists f2. split; [by etrans|]. by rewrite Hv2, Hd2.
Qed.

Lemma finish_drawing f dr js : exists f', rtc step (World f dr js) (World f' [] js) /\ virt f' = virt f.
Proof.
  revert f. induction dr as [|r dr IH]; intros f; [by exists f|].
  destruct (IH (soct_dp_fb_damage_area phys false (x0 r) (y0 r) (x1 r - x0 r + 1) (y1 r - y0 r + 1) f)) as (f' & H & Hv).
  exists f'. split; [eapply rtc_l; [apply (step_damage f [] r dr js)|exact H]|].
  rewrite Hv. unfold soct_dp_fb_damage_area. by case_match.
Qed.

(** The operations that are drawing finish, the worker runs: nothing is left to account for. *)
Lemma finish w : exists f', rtc step w (World f' [] []) /\ virt f' = virt (fb w) /\ dirty f' = None.
Proof.
  destruct w as [f dr js]. cbn. destruct (finish_drawing f dr js) as (f1 & H1 & Hv1).
  destruct (finish_jobs (take_damage phys f1).2 [] ((take_damage phys f1).1 :: js)) as (f2 & H2 & Hv2 & Hd2).
  exists f2. split; [|by rewrite Hv2, Hd2]. etrans; [exact H1|]. eapply rtc_l; [apply step_take|exact H2].
Qed.

Definition coherent (f : fbs) : Prop := forall p, on_screen f p -> dram f p = virt f p.

(** A freshly prepared framebuffer, nobody drawing. *)
Definition fresh (w : world) : Prop :=
  geo (fb w) /\ dirty (fb w) = None /\ drawing w = [] /\ jobs w = [] /\ coherent (fb w).

Lemma fresh_good w : fresh w -> good w.
Proof. intros (Hg & Hd & Hr & Hj & Hc). split; [done|by rewrite Hd|by rewrite Hr|]. intros p Hp. left. by apply Hc. Qed.

Lemma good_rest w : good w -> drawing w = [] -> dirty (fb w) = None -> Forall (fun j => j.1 = []) (jobs w) -> coherent (fb w).
Proof.
  intros [_ _ _ Hs] Hr Hd Hj p Hp. destruct (Hs p Hp) as [|[(r & E & _)|[(r & E & _)|(j & Hin & a & Ha & _)]]]; [done|..].
  - by rewrite Hd in E.
  - by rewrite Hr in E.
  - rewrite List.Forall_forall in Hj. by rewrite (Hj j Hin) in Ha.
Qed.
End machine.

(** ** What the drawing operations store *)

Lemma memcpy_out dst l m p : ~ (dst <= p < dst + zlen l) -> memcpy dst l m p = m p.
Proof. intros H. unfold memcpy. destruct (Z.leb_spec dst p), (Z.ltb_spec p (dst + zlen l)); cbn; [lia|done..]. Qed.

Lemma memcpy_in dst l m d : 0 <= d < zlen l -> memcpy dst l m (dst + d) = nth (Z.to_nat d) l 0.
Proof.
  intros H. unfold memcpy. destruct (Z.leb_spec dst (dst + d)), (Z.ltb_spec (dst + d) (dst + zlen l)); cbn; try lia.
  f_equal. lia.
Qed.

Lemma memset_out dst v n m p : ~ (dst <= p < dst + n) -> memset dst v n m p = m p.
Proof. intros H. unfold memset. destruct (Z.leb_spec dst p), (Z.ltb_spec p (dst + n)); cbn; [lia|done..]. Qed.

Lemma memset_in dst v n m d : 0 <= d < n -> memset dst v n m (dst + d) = v.
Proof. intros H. unfold memset. destruct (Z.leb_spec dst (dst + d)), (Z.ltb_spec (dst + d) (dst + n)); cbn; [done|lia..]. Qed.

(** Rows drawn one after another, each within its own bytes. *)
Section rows.
Context (F : memory -> Z -> memory) (base st len : Z).
Hypothesis Hst : 0 <= len <= st.
Hypothesis Hout : forall m y p, ~ (base + y * st <= p < base + y * st + len) -> F m y p = m p.

Lemma seqZ_S n : seqZ 0 (Z.of_nat (S n)) = seqZ 0 (Z.of_nat n) ++ [Z.of_nat n].
Proof. replace (Z.of_nat (S n)) with (Z.of_nat n + 1) by lia. rewrite seqZ_app by lia. done. Qed.

Lemma rows_out n m p : (forall y, 0 <= y < Z.of_nat n -> ~ (base + y * st <= p < base + y * st + len)) ->
  foldl F m (seqZ 0 (Z.of_nat n)) p = m p.
Proof.
  induction n as [|n IH]; intros H; [done|]. rewrite seqZ_S, foldl_app. cbn. rewrite Hout by (apply H; lia).
  apply IH. intros y Hy. apply H. lia.
Qed.

Lemma rows_in n m y d v : (forall m, F m y (base + y * st + d) = v) ->
  0 <= y < Z.of_nat n -> 0 <= d < len -> foldl F m (seqZ 0 (Z.of_nat n)) (base + y * st + d) = v.
Proof.
  induction n as [|n IH]; intros Hin Hy Hd; [lia|]. rewrite seqZ_S, foldl_app. cbn.
  destruct (Z.eq_dec y (Z.of_nat n)) as [->|]; [apply Hin|]. rewrite Hout by nia. apply IH; [done|lia|done].
Qed.
End rows.

(** ** Glyphs *)

Definition glyph_ok (g : glyph_table) : Prop := valid g = true -> pat g = map (pattern (gfg g) (gbg g)) (seqZ 0 256).

Lemma glyph_for_ok fg bg g : glyph_ok g -> glyph_ok (glyph_for fg bg g) /\ pat (glyph_for fg bg g) = map (pattern fg bg) (seqZ 0 256).
Proof.
  intros H. unfold glyph_for. destruct (valid g) eqn:Hv; cbn [negb orb]; [|by split].
  destruct (Z.eqb_spec (gfg g) fg) as [Ef|]; cbn [negb orb]; [|by split].
  destruct (Z.eqb_spec (gbg g) bg) as [Eb|]; cbn [negb orb]; [|by split].
  split; [done|]. by rewrite (H Hv), Ef, Eb.
Qed.

(** The colour of pixel [i] of a source byte. *)
Definition bit_color (fg bg b i : Z) : Z := if tst b (0x80 .>> i) then fg else bg.

Lemma pattern_len fg bg b : zlen (pattern fg bg b) = 24.
Proof. done. Qed.

Lemma pattern_nth fg bg b i k : 0 <= i < 8 -> 0 <= k < 3 ->
  nth (Z.to_nat (3 * i + k)) (pattern fg bg b) 0 = nth (Z.to_nat k) (pixel (bit_color fg bg b i)) 0.
Proof.
  intros Hi Hk. assert (i = 0 \/ i = 1 \/ i = 2 \/ i = 3 \/ i = 4 \/ i = 5 \/ i = 6 \/ i = 7) as Hi' by lia.
  assert (k = 0 \/ k = 1 \/ k = 2) as Hk' by lia.
  destruct Hk' as [->|[->| ->]]; repeat (destruct Hi' as [->|Hi']; [reflexivity|]); subst; reflexivity.
Qed.

Lemma table_nth fg bg b : 0 <= b < 256 -> nth (Z.to_nat b) (map (pattern fg bg) (seqZ 0 256)) [] = pattern fg bg b.
Proof.
  intros Hb. apply nth_error_nth. rewrite nth_error_map. unfold seqZ. rewrite nth_error_map, nth_error_seq.
  destruct (Nat.ltb_spec (Z.to_nat b) (Z.to_nat 256)); [|lia]. cbn. do 2 f_equal. lia.
Qed.

Lemma nth_take_lt {A} n k (l : list A) d : (k < n)%nat -> nth k (take n l) d = nth k l d.
Proof. revert k l. induction n as [|n IH]; intros [|k] [|x l] H; try lia; try done. cbn. apply IH. lia. Qed.

Lemma blit_row_out pats src : forall rem dst m p, 0 <= rem -> ~ (dst <= p < dst + 3 * rem) -> blit_row pats src rem dst m p = m p.
Proof.
  induction src as [|b src IH]; intros rem dst m p Hr Hp; cbn [blit_row]; [done|]. unfold BYTES_PER_PIXEL in *.
  rewrite IH by lia. apply memcpy_out.
  pose proof (zlen_take (Z.min rem 8 * 3) (nth (Z.to_nat b) pats []) ltac:(lia)). lia.
Qed.

Lemma blit_row_in fg bg src : forall rem dst m i k, Forall (fun b => 0 <= b < 256) src -> rem <= 8 * zlen src ->
  0 <= i < rem -> 0 <= k < 3 ->
  blit_row (map (pattern fg bg) (seqZ 0 256)) src rem dst m (dst + 3 * i + k)
  = nth (Z.to_nat k) (pixel (bit_color fg bg (nth (Z.to_nat (i / 8)) src 0) (i mod 8))) 0.
Proof.
  induction src as [|b src IH]; intros rem dst m i k Hb Hr Hi Hk; cbn [blit_row]; [unfold zlen in Hr; cbn in Hr; lia|].
  apply Forall_cons in Hb as [Hb Hbs]. unfold BYTES_PER_PIXEL. rewrite table_nth by done.
  assert (zlen (b :: src) = zlen src + 1) as El by (unfold zlen; cbn; lia). rewrite El in Hr.
  destruct (Z.lt_ge_cases i 8) as [Hlt|Hge].
  - rewrite blit_row_out by lia. rewrite (Z.div_small i 8), (Z.mod_small i 8) by lia. cbn [nth Z.to_nat].
    assert (zlen (take (Z.to_nat (Z.min rem 8 * 3)) (pattern fg bg b)) = Z.min rem 8 * 3) as Et.
    { unfold zlen. rewrite length_take. pose proof (pattern_len fg bg b). unfold zlen in *. lia. }
    replace (dst + 3 * i + k) with (dst + (3 * i + k)) by lia. rewrite memcpy_in by lia.
    rewrite nth_take_lt by lia. apply pattern_nth; lia.
  - rewrite Z.min_r by lia. replace (dst + 3 * i + k) with (dst + 8 * 3 + 3 * (i - 8) + k) by lia.
    rewrite IH by (done || lia).
    assert (i mod 8 = (i - 8) mod 8) as -> by (rewrite <-(Z.mod_add (i - 8) 1 8) by lia; f_equal; lia).
    assert (i / 8 = (i - 8) / 8 + 1) as -> by (rewrite <-(Z.div_add (i - 8) 1 8) by lia; f_equal; lia).
    pose proof (Z.div_pos (i - 8) 8). rewrite Z2Nat.inj_add by lia. rewrite Nat.add_comm. cbn. done.
Qed.
Lemma flush_lines_geo l : forall s, same_geo s (flush_lines l s) /\ fmode (flush_lines l s) = fmode s /\
  dirty (flush_lines l s) = dirty s /\ park (flush_lines l s) = park s.
Proof. induction l as [|a l IH]; intros s; [done|]. exact (IH (flush_line s a)). Qed.

Section ops.
Context (phys : Z) (s : fbs) (Hg : geo phys s).

(** The area of an operation, and its rows in memory. *)
Definition area (x y w h : Z) : rect := Rect x y (x + w - 1) (y + h - 1).

Lemma row_start_eq x y j : row_start phys s x (y + j) = row_start phys s x y + j * stride s.
Proof. unfold row_start, BYTES_PER_PIXEL. lia. Qed.

Lemma area_row x y w h p j : 0 <= j < h -> row_start phys s x y + j * stride s <= p < row_start phys s x y + j * stride s + BYTES_PER_PIXEL * w ->
  in_rect phys s (area x y w h) p.
Proof. intros Hj Hp. exists (y + j). unfold row_start, BYTES_PER_PIXEL in *. cbn. lia. Qed.

Lemma row_fits x y w h : rect_ok s (area x y w h) -> 0 <= BYTES_PER_PIXEL * w <= stride s.
Proof. destruct Hg as (_ & _ & _ & -> & _). unfold rect_ok, BYTES_PER_PIXEL. cbn. lia. Qed.

Lemma blit_rows_out pats i m p : rect_ok s (area (idx i) (idy i) (iwidth i) (iheight i)) ->
  ~ in_rect phys s (area (idx i) (idy i) (iwidth i) (iheight i)) p -> blit_rows phys pats i s m p = m p.
Proof.
  intros Hr Hp. unfold blit_rows. pose proof Hr as (Hx & _ & Hy & _). cbn in Hx, Hy.
  replace (iheight i) with (Z.of_nat (Z.to_nat (iheight i))) by lia.
  apply (rows_out _ (row_start phys s (idx i) (idy i)) (stride s) (BYTES_PER_PIXEL * iwidth i)).
  - intros m' y q Hq. rewrite row_start_eq. apply blit_row_out; [lia|done].
  - intros y Hy' Hq. apply Hp. apply (area_row _ _ _ _ _ y); [lia|done].
Qed.

Lemma blit_rows_in fg bg i m x y k : rect_ok s (area (idx i) (idy i) (iwidth i) (iheight i)) ->
  Forall (fun b => 0 <= b < 256) (idata i) -> spitch i * iheight i <= zlen (idata i) ->
  0 <= x < iwidth i -> 0 <= y < iheight i -> 0 <= k < 3 ->
  blit_rows phys (map (pattern fg bg) (seqZ 0 256)) i s m (row_start phys s (idx i + x) (idy i + y) + k)
  = nth (Z.to_nat k) (pixel (bit_color fg bg (nth (Z.to_nat (y * spitch i + x / 8)) (idata i) 0) (x mod 8))) 0.
Proof.
  intros Hr Hb Hl Hx Hy Hk. unfold blit_rows. set (sp := spitch i) in *.
  assert (8 * sp >= iwidth i /\ 0 <= sp) as [Hsp Hsp0].
  { unfold sp, spitch. pose proof (Z.div_mod (iwidth i + 7) 8). pose proof (Z.mod_pos_bound (iwidth i + 7) 8). lia. }
  replace (row_start phys s (idx i + x) (idy i + y) + k)
    with (row_start phys s (idx i) (idy i) + y * stride s + (3 * x + k)) by (unfold row_start, BYTES_PER_PIXEL; lia).
  replace (iheight i) with (Z.of_nat (Z.to_nat (iheight i))) by lia.
  apply (rows_in _ _ _ (BYTES_PER_PIXEL * iwidth i)); [by apply (row_fits (idx i) (idy i) _ (iheight i))| | |lia|unfold BYTES_PER_PIXEL; lia].
  - intros m' j p Hp. rewrite row_start_eq. apply blit_row_out; [lia|done].
  - intros m'. rewrite row_start_eq, Z.add_assoc.
    assert (0 <= y * sp /\ (y + 1) * sp <= iheight i * sp) as [Hys Hys'] by nia.
    assert (zlen (take (Z.to_nat sp) (drop (Z.to_nat (y * sp)) (idata i))) = sp) as El.
    { unfold zlen in *. rewrite length_take, length_drop. lia. }
    rewrite (blit_row_in fg bg); [|by apply Forall_take, Forall_drop|lia..].
    assert (0 <= x / 8 < sp) by (split; [apply Z.div_pos; lia|apply Z.div_lt_upper_bound; lia]).
    rewrite nth_take_lt by lia. rewrite nth_skipn. do 4 f_equal. lia.
Qed.

(** One operation, alone: it begins, stores within its area and records it. *)
Lemma draw_run x y w h m g dr js : rect_ok s (area x y w h) ->
  (forall p, ~ in_rect phys s (area x y w h) p -> m p = virt s p) ->
  rtc (step phys) (World s dr js)
      (World (soct_dp_fb_damage_area phys false x y w h (set_glyph g (set_virt m s))) dr js).
Proof.
  intros Hr Hm. eapply rtc_l; [by apply (step_begin phys s dr js (area x y w h))|].
  eapply rtc_l; [apply (step_store phys s _ js (area x y w h) m g); [by left|done]|].
  pose proof (step_damage phys (set_glyph g (set_virt m s)) [] (area x y w h) dr js) as Hd. cbn in Hd.
  replace (x + w - 1 - x + 1) with w in Hd by lia. replace (y + h - 1 - y + 1) with h in Hd by lia.
  by apply rtc_once.
Qed.

Lemma fill_rows_out x y w h b m p : rect_ok s (area x y w h) -> ~ in_rect phys s (area x y w h) p ->
  foldl (fun m j => memset (row_start phys s x (y + j)) b (w * BYTES_PER_PIXEL) m) m (seqZ 0 h) p = m p.
Proof.
  intros Hr Hp. pose proof Hr as (_ & _ & Hy & _). cbn in Hy. replace h with (Z.of_nat (Z.to_nat h)) by lia.
  apply (rows_out _ (row_start phys s x y) (stride s) (BYTES_PER_PIXEL * w)).
  - intros m' j q Hq. rewrite row_start_eq. apply memset_out. lia.
  - intros j Hj Hq. apply Hp. apply (area_row _ _ _ _ _ j); [lia|done].
Qed.

(** The rows a write touches, all their width. *)
Lemma write_area pos len : 0 <= pos -> 0 < len -> pos + len <= smem_len s -> stride s * height s * frames s < 2 ^ 32 ->
  let ra := pos / stride s in let rb := (pos + len - 1) / stride s in
  rect_ok s (area 0 ra (width s) (rb - ra + 1)) /\ u32 ra = ra /\ u32 (u32 rb - u32 ra + 1) = rb - ra + 1 /\
  forall p, phys + pos <= p < phys + pos + len -> in_rect phys s (area 0 ra (width s) (rb - ra + 1)) p.
Proof.
  intros Hp Hl Ht Hs ra rb. destruct Hg as (_ & Hw & Hh & Hst & Hs32 & Hf & Hv & _). unfold BYTES_PER_PIXEL in *.
  assert (0 < stride s) by lia.
  unfold smem_len in Ht. rewrite wrap_small in Ht by (unfold fits; nia).
  pose proof (Z.div_mod pos (stride s)) as Ea. pose proof (Z.mod_pos_bound pos (stride s)).
  pose proof (Z.div_mod (pos + len - 1) (stride s)) as Eb. pose proof (Z.mod_pos_bound (pos + len - 1) (stride s)).
  fold ra in Ea. fold rb in Eb. assert (0 <= ra) by (apply Z.div_pos; lia). assert (ra <= rb) by (apply Z.div_le_mono; lia).
  assert (rb < height s * frames s) by (apply Z.div_lt_upper_bound; lia).
  rewrite (wrap_small 32 ra), (wrap_small 32 rb), (wrap_small 32 (rb - ra + 1)) by (unfold fits; lia).
  split_and!; [unfold rect_ok; cbn; lia|done|done|]. intros p Hb.
  pose proof (Z.div_mod (p - phys) (stride s)). pose proof (Z.mod_pos_bound (p - phys) (stride s)).
  assert (ra <= (p - phys) / stride s) by (apply Z.div_le_mono; lia).
  assert ((p - phys) / stride s <= rb) by (apply Z.div_le_mono; lia).
  exists ((p - phys) / stride s). unfold BYTES_PER_PIXEL. cbn. lia.
Qed.

(** Recording damage without flushing changes no byte and no geometry. *)
Lemma damage_area_keeps x y w h f : virt (soct_dp_fb_damage_area phys false x y w h f) = virt f /\
  same_geo f (soct_dp_fb_damage_area phys false x y w h f).
Proof. unfold soct_dp_fb_damage_area, same_geo. by destruct (_ || _). Qed.

(** A write that does not fault: all of it is stored, nothing else, and it is a run of the machine. *)
Lemma write_run buf pos dr js : 0 <= pos -> 0 < zlen buf -> pos + zlen buf <= smem_len s -> stride s * height s * frames s < 2 ^ 32 ->
  exists s', soct_dp_fb_write phys false buf (zlen buf) pos s = (zlen buf, pos + zlen buf, s') /\
    virt s' = memcpy (phys + pos) buf (virt s) /\ same_geo s s' /\ rtc (step phys) (World s dr js) (World s' dr js).
Proof.
  intros Hp Hl Ht Hs. unfold soct_dp_fb_write. rewrite !Z.gtb_ltb.
  destruct (Z.ltb_spec pos 0), (Z.ltb_spec (smem_len s) pos); cbn [orb]; try lia.
  destruct (Z.ltb_spec (smem_len s - pos) (zlen buf)); [lia|].
  destruct (Z.eqb_spec (zlen buf) 0); [lia|]. rewrite Z.ltb_irrefl. rewrite firstn_all2 by (unfold zlen; lia).
  destruct (write_area pos (zlen buf) Hp Hl Ht Hs) as (Hr & E0 & E1 & Hin).
  eexists. split; [reflexivity|]. unfold soct_dp_fb_damage_range. cbn [stride width set_virt]. rewrite E1, E0.
  destruct (damage_area_keeps 0 (pos / stride s) (width s) ((pos + zlen buf - 1) / stride s - pos / stride s + 1)
    (set_virt (memcpy (phys + pos) buf (virt s)) s)) as [-> Hgeo].
  split_and!; [done|exact Hgeo|]. apply (draw_run _ _ _ _ _ (glyph s)); [done|]. intros p Hp'. apply memcpy_out.
  intros Hq. apply Hp', Hin. lia.
Qed.
End ops.

(** C3. However the drawing operations, the flush worker, the panning and the caches' own
    write-backs interleave: a byte of either frame that the scanout would read stale is always
    inside recorded damage, inside an operation still drawing, or on a line a running flush has
    yet to write; so when nothing is pending (a worker about to park the scanout with no newer
    damage included) the scanout sees exactly what was drawn; and from wherever it is, the
    system can come to that rest without losing a pixel. *)
Theorem screen_coherent phys w0 w : fresh phys w0 -> rtc (step phys) w0 w ->
  (forall p, on_screen phys (fb w) p -> dram (fb w) p = virt (fb w) p \/ pending phys w p) /\
  (drawing w = [] -> dirty (fb w) = None -> Forall (fun j => j.1 = []) (jobs w) -> coherent phys (fb w)) /\
  exists w', rtc (step phys) w w' /\ virt (fb w') = virt (fb w) /\ coherent phys (fb w').
Proof.
  intros Hf Hs. pose proof (steps_good phys _ _ Hs (fresh_good phys _ Hf)) as Hg. split_and!.
  - apply Hg.
  - by apply good_rest.
  - destruct (finish phys w) as (f' & Hr & Hv & Hd). exists (World f' [] []). split_and!; [done|done|].
    apply (good_rest phys (World f' [] [])); [by apply (steps_good phys w)|done..|by constructor].
Qed.

(** Every drawing operation of the device is a run of that machine: it stores only inside
    the area it then records.  So are glyphs and fills on their fast paths, the generic helpers
    as long as they keep to their area, and a write that does not fault. *)
Theorem drawing_refines phys s cfb_fillrect cfb_copyarea cfb_imageblit dr js :
  geo phys s -> stride s * height s * frames s < 2 ^ 32 ->
  (forall r m p, ~ in_rect phys s (area (fdx r) (fdy r) (fwidth r) (fheight r)) p -> cfb_fillrect r m p = m p) ->
  (forall r m p, ~ in_rect phys s (area (cdx r) (cdy r) (cwidth r) (cheight r)) p -> cfb_copyarea r m p = m p) ->
  (forall i m p, ~ in_rect phys s (area (idx i) (idy i) (iwidth i) (iheight i)) p -> cfb_imageblit i m p = m p) ->
  let runs s' := rtc (step phys) (World s dr js) (World s' dr js) in
  (forall i, rect_ok s (area (idx i) (idy i) (iwidth i) (iheight i)) -> runs (soct_dp_fb_imageblit phys cfb_imageblit false i s)) /\
  (forall r, rect_ok s (area (fdx r) (fdy r) (fwidth r) (fheight r)) -> runs (soct_dp_fb_fillrect phys cfb_fillrect false r s)) /\
  (forall a, rect_ok s (area (cdx a) (cdy a) (cwidth a) (cheight a)) -> runs (soct_dp_fb_defio_copyarea phys cfb_copyarea false a s)) /\
  (forall buf pos, 0 <= pos -> 0 < zlen buf -> pos + zlen buf <= smem_len s ->
     let '(n, pos', s') := soct_dp_fb_write phys false buf (zlen buf) pos s in n = zlen buf /\ pos' = pos + zlen buf /\ runs s').
Proof.
  intros Hg Hs Hfill Hcopy Hblit runs. split_and!.
  - intros i Hr. unfold soct_dp_fb_imageblit. destruct (negb (depth i =? 1)).
    + apply (draw_run phys s _ _ _ _ _ (glyph s)); [done|]. intros p. apply Hblit.
    + apply (draw_run phys s _ _ _ _ (blit_rows phys _ i s (virt s))); [done|]. intros p. by apply blit_rows_out.
  - intros r Hr. unfold soct_dp_fb_fillrect. destruct (_ || _).
    + apply (draw_run phys s _ _ _ _ _ (glyph s)); [done|]. intros p. apply Hfill.
    + apply (draw_run phys s _ _ _ _ _ (glyph s)); [done|]. intros p. by apply fill_rows_out.
  - intros a Hr. apply (draw_run phys s _ _ _ _ _ (glyph s)); [done|]. intros p. apply Hcopy.
  - intros buf pos Hp Hl Ht. destruct (write_run phys s Hg buf pos dr js Hp Hl Ht Hs) as (s' & -> & _ & _ & Hr). done.
Qed.

(** A glyph comes out as its bitmap: on the fast path every pixel of the image is the
    foreground colour where its bit is set and the background colour where it is not, byte by
    byte, nothing outside the image changes, the image is recorded as damage, and the cached
    pattern table stays the one for the colours it remembers. *)
Theorem imageblit_draws phys cfb i s :
  geo phys s -> glyph_ok (glyph s) -> depth i = 1 ->
  rect_ok s (area (idx i) (idy i) (iwidth i) (iheight i)) ->
  Forall (fun b => 0 <= b < 256) (idata i) -> spitch i * iheight i <= zlen (idata i) ->
  let s' := soct_dp_fb_imageblit phys cfb false i s in
  (forall x y k, 0 <= x < iwidth i -> 0 <= y < iheight i -> 0 <= k < 3 ->
     virt s' (row_start phys s (idx i + x) (idy i + y) + k)
     = nth (Z.to_nat k) (pixel (bit_color (pal s (fg_color i)) (pal s (bg_color i))
         (nth (Z.to_nat (y * spitch i + x / 8)) (idata i) 0) (x mod 8))) 0) /\
  (forall p, ~ in_rect phys s (area (idx i) (idy i) (iwidth i) (iheight i)) p -> virt s' p = virt s p) /\
  dirty s' = Some (union (dirty s) (area (idx i) (idy i) (iwidth i) (iheight i))) /\ glyph_ok (glyph s').
Proof.
  intros Hg Hk Hd Hr Hb Hl s'. unfold s', soct_dp_fb_imageblit. rewrite Hd. cbn [Z.eqb Pos.eqb negb].
  destruct (glyph_for_ok (pal s (fg_color i)) (pal s (bg_color i)) (glyph s) Hk) as [Hok Hpat].
  set (g := glyph_for _ _ _) in *. set (s1 := set_virt _ _).
  assert (E : soct_dp_fb_damage_area phys false (idx i) (idy i) (iwidth i) (iheight i) s1
              = set_dirty (Some (union (dirty s) (area (idx i) (idy i) (iwidth i) (iheight i)))) s1).
  { pose proof (damage_area_spec phys s1 (area (idx i) (idy i) (iwidth i) (iheight i)) Hg Hr) as E. cbn [x0 y0 x1 y1 area] in E.
    replace (idx i + iwidth i - 1 - idx i + 1) with (iwidth i) in E by lia.
    replace (idy i + iheight i - 1 - idy i + 1) with (iheight i) in E by lia. exact E. }
  rewrite E. unfold s1. change (blit_rows phys (pat g) i (set_glyph g s) (virt (set_glyph g s))) with (blit_rows phys (pat g) i s (virt s)).
  split_and!; [| |done|done].
  - intros x y k Hx Hy Hk'. cbn [virt set_dirty set_virt]. rewrite Hpat. by apply blit_rows_in.
  - intros p Hp. cbn [virt set_dirty set_virt]. by apply blit_rows_out.
Qed.
