(* ===== verification/DpFbModes.v ===== *)
(** * The framebuffer's modes: proofs for the fbdev half of fb.c

    The picosecond round trip of the fbdev interface, the mode switch that keeps the
    framebuffer and the pipeline in step, the flush of mapped pages. *)
From stdpp Require Import relations.
From S2P Require Import Prelude Mmio ClkWzrd DpMode DpFb DpFbProofs.

(** ** Rounding *)

Lemma div_round x d : 0 < d -> 0 <= x -> x + d / 2 < 2 ^ 64 -> d < 2 ^ 32 ->
  let q := DIV_ROUND_CLOSEST_ULL x d in 0 <= q /\ 2 * Z.abs (x - q * d) <= d.
Proof.
  intros Hd Hx Hw H32 q. unfold q, DIV_ROUND_CLOSEST_ULL.
  pose proof (Z.div_mod d 2). pose proof (Z.mod_pos_bound d 2).
  rewrite (wrap_small 64), (wrap_small 32) by (unfold fits; lia).
  pose proof (Z.div_mod (x + d / 2) d). pose proof (Z.mod_pos_bound (x + d / 2) d).
  split; [apply Z.div_pos; lia|]. lia.
Qed.

Section roundtrip.
Context (carveout_size : Z) (m : soct_dp_mode).
Hypothesis Hclk : 1000000 <= pixel_clock_hz m <= 1000000000.
Abbreviation T := (mode_htotal m * mode_vtotal m).
Hypothesis HT : 0 < T.
(** The refresh the mode names is the one its clock gives, to a quarter of a hertz. *)
Hypothesis Hfps : 1 <= fps m <= 240 /\ 4 * Z.abs (pixel_clock_hz m - fps m * T) <= T.
Hypothesis Hsync : (hsync_active m = 0 \/ hsync_active m = 1) /\ (vsync_active m = 0 \/ vsync_active m = 1).

Let ps := DIV_ROUND_CLOSEST_ULL PS (pixel_clock_hz m).

Lemma ps_spec : 1000 <= ps <= 1000000 /\ 2 * Z.abs (PS - ps * pixel_clock_hz m) <= pixel_clock_hz m.
Proof.
  pose proof (Z.div_le_upper_bound (pixel_clock_hz m) 2 (pixel_clock_hz m)).
  destruct (div_round PS (pixel_clock_hz m)) as [Hp Hr]; [lia|unfold PS; lia..|]. fold ps in Hp, Hr.
  split; [|done]. unfold PS in *. nia.
Qed.

Lemma clock_back : let c := DIV_ROUND_CLOSEST_ULL PS ps in
  0 <= c < 2 ^ 32 /\ 200 * Z.abs (c - pixel_clock_hz m) <= pixel_clock_hz m.
Proof.
  intros c. destruct ps_spec as [Hp Hr]. pose proof (Z.div_le_upper_bound ps 2 ps).
  destruct (div_round PS ps) as [Hc Hr']; [lia|unfold PS; lia..|]. fold c in Hc, Hr'.
  assert (Z.abs (c - pixel_clock_hz m) * ps <= (ps + pixel_clock_hz m) / 2 + 1) as He.
  { assert (2 * Z.abs (c * ps - ps * pixel_clock_hz m) <= ps + pixel_clock_hz m) by lia.
    replace (c * ps - ps * pixel_clock_hz m) with ((c - pixel_clock_hz m) * ps) in * by lia.
    rewrite Z.abs_mul, (Z.abs_eq ps) in * by lia. pose proof (Z.div_mod (ps + pixel_clock_hz m) 2).
    pose proof (Z.mod_pos_bound (ps + pixel_clock_hz m) 2). lia. }
  assert (200 * Z.abs (c - pixel_clock_hz m) <= pixel_clock_hz m).
  { apply Z.le_ngt. intros Hn. pose proof (Z.div_mod (ps + pixel_clock_hz m) 2).
    pose proof (Z.mod_pos_bound (ps + pixel_clock_hz m) 2).
    assert (pixel_clock_hz m * ps <= (200 * Z.abs (c - pixel_clock_hz m)) * ps) by (apply Z.mul_le_mono_nonneg_r; lia).
    assert (900 * 999900 <= (ps - 100) * (pixel_clock_hz m - 100)) by (apply Z.mul_le_mono_nonneg; lia). lia. }
  lia.
Qed.

Lemma fps_back : T < 2 ^ 40 -> u32 (DIV64_U64_ROUND_CLOSEST PS (u64 (u64 (ps * mode_htotal m) * mode_vtotal m))) = fps m /\
  u64 (u64 (ps * mode_htotal m) * mode_vtotal m) <> 0.
Proof.
  intros Hm. destruct ps_spec as [Hp Hr]. destruct Hfps as [Hf Ht].
  rewrite wrap_mul_l, <-Z.mul_assoc. rewrite (wrap_small 64) by (unfold fits; nia).
  set (d := ps * T). assert (1000 * T <= d) by (unfold d; nia). split; [|lia].
  unfold DIV64_U64_ROUND_CLOSEST. pose proof (Z.div_mod d 2). pose proof (Z.mod_pos_bound d 2).
  assert (d <= 1000000 * T) by (unfold d; nia).
  assert (Z.abs (PS - fps m * d) <= pixel_clock_hz m / 2 + d / 4 + 1) as He.
  { unfold d. pose proof (Z.div_mod (pixel_clock_hz m) 2). pose proof (Z.mod_pos_bound (pixel_clock_hz m) 2).
    pose proof (Z.div_mod (ps * T) 4). pose proof (Z.mod_pos_bound (ps * T) 4).
    assert (4 * Z.abs (ps * pixel_clock_hz m - ps * (fps m * T)) <= ps * T).
    { rewrite <-Z.mul_sub_distr_l, Z.abs_mul, (Z.abs_eq ps) by lia. nia. }
    replace (fps m * (ps * T)) with (ps * (fps m * T)) by lia. lia. }
  pose proof (Z.div_mod (pixel_clock_hz m) 2). pose proof (Z.mod_pos_bound (pixel_clock_hz m) 2).
  pose proof (Z.div_mod d 4). pose proof (Z.mod_pos_bound d 4).
  rewrite (wrap_small 64) by (unfold fits, PS in *; lia).
  assert (0 <= fps m * T <= 240 * T) by (split; [nia|apply Z.mul_le_mono_nonneg_r; lia]).
  assert (pixel_clock_hz m <= 241 * T) by lia.
  assert ((PS + d / 2) / d = fps m) as ->; [|apply wrap_small; unfold fits; lia].
  symmetry. apply Z.div_unique_pos with (PS + d / 2 - fps m * d); lia.
Qed.
End roundtrip.

(** ** The mode switch *)

Section set_par.
Context {D : Type} {HD : Mmio D} (lim : soct_clk_wzrd_limits) (max_hz phys carveout_size : Z).
Abbreviation drv := (prog ((bus D * pipe) * fbs)).

Lemma wp_on_pipe {A B} (m : prog (bus D * pipe) A) (k : A -> drv B) (Q : B -> (bus D * pipe) * fbs -> Prop) s :
  wp m (fun a p => wp (k a) Q (p, s.2)) s.1 -> wp (x ← on_pipe m; k x) Q s.
Proof. intros H. apply wp_bind. unfold wp in *. unfold on_pipe. by destruct (m s.1) as [[a p]| |]. Qed.

Lemma wp_on_fb {B} f (k : unit -> drv B) (Q : B -> (bus D * pipe) * fbs -> Prop) s :
  wp (k tt) Q (s.1, f s.2) -> wp (x ← on_fb f; k x) Q s.
Proof. intros H. by apply wp_bind. Qed.

(** The framebuffer's idea of the mode is the pipeline's, and its geometry is that mode's. *)
Definition shaped (f : fbs) (m : soct_dp_mode) : Prop :=
  width f = hactive m /\ height f = vactive m /\ stride f = BYTES_PER_PIXEL * hactive m /\
  frames f = fb_nframes carveout_size (stride f) (height f).
Definition in_step (p : pipe) (f : fbs) : Prop :=
  fmode f = cur p /\ (cur p = zero_mode \/ (shaped f (cur p) /\ geo phys f /\ stride f * (height f * frames f) <= carveout_size)).

(** A mode whose frame fits the carve-out. *)
Definition fits_carveout (m : soct_dp_mode) : Prop :=
  0 < hactive m /\ 0 < vactive m /\ hactive m * vactive m * 3 <= carveout_size.
Hypothesis Hphys : 0 <= phys /\ phys + carveout_size + CACHE_LINE <= 2 ^ 64 /\ carveout_size < 2 ^ 31.

Lemma nframes_fits st h : 0 <= st -> 0 <= h -> st * h <= carveout_size ->
  (fb_nframes carveout_size st h = 1 \/ fb_nframes carveout_size st h = 2) /\
  0 <= st * (h * fb_nframes carveout_size st h) <= carveout_size.
Proof.
  intros Hst Hh Hz. unfold fb_nframes. destruct Hphys as (_ & _ & Hc). rewrite wrap_mul_l.
  rewrite (wrap_small 64) by (unfold fits; nia). destruct (Z.leb_spec (2 * st * h) carveout_size); split; auto; nia.
Qed.

(** Adopting a mode: its geometry, and both frames black where the scanout reads. *)
Lemma adopt_spec m f : fits_carveout m ->
  let f' := adopt phys carveout_size m f in
  fmode f' = m /\ shaped f' m /\ geo phys f' /\ stride f' * (height f' * frames f') <= carveout_size /\
  dirty f' = dirty f /\ park f' = park f /\ (forall p, on_screen phys f' p -> virt f' p = 0 /\ dram f' p = 0).
Proof.
  intros (Hh & Hv & Hz) f'. destruct Hphys as (Hp & He & Hc). unfold BYTES_PER_PIXEL in *.
  assert (0 < hactive m * 3 <= carveout_size /\ vactive m <= carveout_size) as [Hst Hva] by nia.
  assert (u32 (hactive m * 3) = hactive m * 3) as E by (apply wrap_small; unfold fits; lia).
  set (g := set_geometry m (hactive m) (vactive m) (hactive m * 3) (fb_nframes carveout_size (hactive m * 3) (vactive m)) f).
  destruct (nframes_fits (hactive m * 3) (vactive m)) as [Hf Hs]; [lia|lia|nia|].
  set (fr := fb_nframes carveout_size (hactive m * 3) (vactive m)) in *.
  set (size := hactive m * 3 * (vactive m * fr)).
  assert (f' = flush_lines (flush_range phys size) (set_virt (memset phys 0 size (virt g)) g)) as Ef.
  { unfold f', adopt, BYTES_PER_PIXEL. rewrite E. fold fr. rewrite wrap_mul_l, <-Z.mul_assoc. fold size.
    rewrite (wrap_small 64 size) by (unfold fits, size; lia). reflexivity. }
  destruct (flush_lines_geo (flush_range phys size) (set_virt (memset phys 0 size (virt g)) g)) as ((Gw & Gh & Gs & Gf) & Gm & Gd & Gp).
  rewrite <-Ef in Gw, Gh, Gs, Gf, Gm, Gd, Gp. cbn in Gw, Gh, Gs, Gf, Gm, Gd, Gp. fold fr in Gf.
  split; [done|]. split; [unfold shaped, BYTES_PER_PIXEL; rewrite Gw, Gh, Gs, Gf; split_and!; [done|done|lia|done]|].
  split; [unfold geo, BYTES_PER_PIXEL, CACHE_LINE in *; rewrite Gw, Gh, Gs, Gf; split_and!; first [done|lia|nia]|].
  split; [rewrite Gs, Gh, Gf; lia|]. split; [done|]. split; [done|]. unfold on_screen. rewrite Gs, Gh, Gf. fold size. intros p Hpz.
  assert (virt f' p = 0) as Hv0.
  { rewrite Ef, flush_lines_virt. cbn. replace p with (phys + (p - phys)) by lia. apply memset_in. lia. }
  split; [done|]. rewrite <-Hv0, Ef, flush_lines_virt. apply flush_lines_covers.
  apply flush_range_covers; unfold CACHE_LINE in *; lia.
Qed.
End set_par.

(** The picoseconds of the fbdev interface lose the exact clock, and the driver gets the
    mode back all the same: the var of a mode converts to a mode with the same timing and
    refresh whose clock is within half a percent, so on a design with a fixed clock it
    validates to the very mode it came from. *)
Theorem var_roundtrip lim max_hz carveout_size m :
  1000000 <= pixel_clock_hz m <= 1000000000 -> 0 < mode_htotal m * mode_vtotal m < 2 ^ 40 ->
  1 <= fps m <= 240 /\ 4 * Z.abs (pixel_clock_hz m - fps m * (mode_htotal m * mode_vtotal m)) <= mode_htotal m * mode_vtotal m ->
  (hsync_active m = 0 \/ hsync_active m = 1) /\ (vsync_active m = 0 \/ vsync_active m = 1) ->
  hactive m <> 0 -> vactive m <> 0 ->
  exists c, soct_dp_fb_var_to_mode (soct_dp_fb_fill_var carveout_size m) = Ret (Some (with_clock c m)) /\
    200 * Z.abs (c - pixel_clock_hz m) <= pixel_clock_hz m /\
    soct_dp_validate_mode lim max_hz false m (with_clock c m) = (0, m).
Proof.
  intros Hc HT Hf Hs Hh Hv. destruct (ps_spec m Hc ltac:(lia) Hf) as [Hp _]. destruct (clock_back m Hc ltac:(lia) Hf) as [Hc32 Hcl].
  destruct (fps_back m Hc ltac:(lia) Hf (proj2 HT)) as [Ef Ed].
  set (ps := DIV_ROUND_CLOSEST_ULL PS (pixel_clock_hz m)) in *. set (c := DIV_ROUND_CLOSEST_ULL PS ps) in *.
  assert (u32 ps = ps) as Eps by (apply wrap_small; unfold fits; lia).
  assert (u32 c = c) as Ec by (apply wrap_small; unfold fits; lia).
  exists c. split_and!; [|done|].
  - unfold soct_dp_fb_var_to_mode, soct_dp_fb_fill_var.
    cbn [pixclock vmode xres yres right_margin left_margin upper_margin lower_margin vhsync_len vvsync_len sync]. fold ps.
    rewrite Eps. destruct (Z.eqb_spec ps 0); [lia|]. change (negb (FB_VMODE_NONINTERLACED .& FB_VMODE_MASK =? FB_VMODE_NONINTERLACED)) with false.
    cbn [orb]. fold c. rewrite Ec.
    change (mode_htotal _) with (mode_htotal m). change (mode_vtotal _) with (mode_vtotal m).
    destruct (Z.eqb_spec (u64 (u64 (ps * mode_htotal m) * mode_vtotal m)) 0); [done|]. rewrite Ef.
    destruct (Z.eqb_spec (fps m) 0); [lia|]. do 2 f_equal. unfold with_clock.
    destruct Hs as [[Eh|Eh] [Ev|Ev]]; rewrite Eh, Ev; reflexivity.
  - unfold soct_dp_validate_mode. cbn [hactive vactive fps pixel_clock_hz with_clock negb].
    destruct (Z.eqb_spec (hactive m) 0), (Z.eqb_spec (vactive m) 0), (Z.eqb_spec (fps m) 0), (Z.eqb_spec c 0); try lia.
    cbn [orb]. rewrite (wrap_small 64), Z.gtb_ltb by (unfold fits; lia).
    destruct (Z.ltb_spec (pixel_clock_hz m) (Z.abs (c - pixel_clock_hz m) * 200)); [lia|].
    assert (with_clock (pixel_clock_hz m) (with_clock c m) = m) as -> by (by destruct m).
    unfold soct_dp_mode_equal. by rewrite bool_decide_true.
Qed.

(** C13. Setting a mode keeps the framebuffer and the pipeline in step, whatever the hardware
    answers: afterwards both name the same mode, or neither names any; the geometry is that
    mode's, both frames lie in the carve-out, and the registers hold it ([honest]).  Success
    means a mode is running, and a new one starts with every visible byte black in both memories
    and no damage owed. *)
Theorem set_par_in_step {D} {HD : Mmio D} lim max_hz phys carveout_size n locks v o (s : (bus D * pipe) * fbs) :
  sane lim max_hz -> 0 <= phys /\ phys + carveout_size + CACHE_LINE <= 2 ^ 64 /\ carveout_size < 2 ^ 31 ->
  soct_dp_fb_var_to_mode v = Ret o -> (forall m, o = Some m -> mode_ok m /\ fits_carveout carveout_size m) ->
  mode_ok (cur s.1.2) -> honest lim phys carveout_size s.1 -> in_step phys carveout_size s.1.2 s.2 ->
  wp (soct_dp_fb_set_par phys carveout_size lim max_hz n locks v)
     (fun err s' => honest lim phys carveout_size s'.1 /\ in_step phys carveout_size s'.1.2 s'.2 /\
        (err = 0 -> cur s'.1.2 <> zero_mode) /\
        (s' = s \/ err <> 0 \/ (dirty s'.2 = None /\ park s'.2 = None /\
           forall p, on_screen phys s'.2 p -> virt s'.2 p = 0 /\ dram s'.2 p = 0))) s.
Proof.
  intros Hs Hp Ev Ho Hk Hh Hi. unfold soct_dp_fb_set_par. apply wp_on_pipe. unfold wp at 1. cbn [get gets snd fst].
  apply wp_bind. unfold wp at 1, gets. apply wp_bind. unfold wp at 1, lift. rewrite Ev. cbn [snd fst].
  rewrite <-surjective_pairing. destruct o as [m|]; [|apply wp_ret; split_and!; auto; done].
  destruct (Ho m eq_refl) as [Hok Hfit].
  destruct (soct_dp_validate_mode lim max_hz (retunable s.1.2) (cur s.1.2) m) as [err m'] eqn:Hv.
  destruct (Z.eqb_spec err 0) as [->|]; cbn [negb]; [|apply wp_ret; split_and!; auto; done].
  pose proof (validate_live _ _ _ _ _ _ Hv) as Hl. pose proof (validate_shape _ _ _ _ _ _ _ Hv) as Hsh.
  assert (m' <> zero_mode) as Hnz by (intros E; rewrite E in Hl; done).
  destruct Hi as [Hi1 Hi2]. destruct (soct_dp_mode_equal m' (fmode s.2)) eqn:Hq.
  { apply wp_ret. split_and!; [done|by split| |by left]. intros _. unfold soct_dp_mode_equal in Hq.
    apply bool_decide_eq_true in Hq. by rewrite <-Hi1, <-Hq. }
  apply wp_on_fb, wp_on_pipe. cbn [fst snd].
  assert (mode_ok m') as Hok'.
  { destruct (retunable s.1.2) eqn:Hr; [by destruct (validate_clock _ _ _ _ _ Hs Hok Hv)|by rewrite (validate_static _ _ _ _ _ Hv)]. }
  eapply wp_mono; [apply (switch_mode_spec lim max_hz phys carveout_size n locks m' s.1 Hs Hok' Hh)|].
  rewrite (validate_settles lim max_hz _ _ _ _ Hs Hk Hok Hv), <-Hi1, Hq. cbn. intros err p [Hhon Hcur].
  destruct (Z.eqb_spec err 0) as [->|He]; cbn [negb].
  2: { apply wp_on_fb, wp_ret. cbn. split_and!; [done|split; [by rewrite Hcur|by left]|done|by right; left]. }
  apply wp_on_fb, wp_ret. cbn [fst snd].
  assert (fits_carveout carveout_size m') as Hfit' by (rewrite Hsh; exact Hfit).
  destruct (adopt_spec phys carveout_size Hp m' (set_park None (set_dirty None s.2)) Hfit') as (A1 & A2 & A3 & A4 & A5 & A6 & A7).
  split_and!; [done|split; [by rewrite A1, Hcur|right; by rewrite Hcur]|by rewrite Hcur|].
  do 2 right. split_and!; [by rewrite A5|by rewrite A6|exact A7].
Qed.

(** ** Mapped pages *)

Lemma exists_cons {A} (x : A) l (Q : A -> Prop) : (exists y, In y (x :: l) /\ Q y) <-> Q x \/ exists y, In y l /\ Q y.
Proof.
  split.
  - intros (y & [<-|Hin] & Hq); [by left|right; by exists y].
  - intros [Hq|(y & Hin & Hq)]; [exists x; split; [by left|done]|exists y; split; [by right|done]].
Qed.

Section pages.
Context (phys : Z).

(** A run of whole pages below the top of memory. *)
Definition page_run (start len : Z) : Prop :=
  0 <= start /\ 0 <= len /\ start mod PAGE_SIZE = 0 /\ start + len + CACHE_LINE <= 2 ^ 64.

Lemma page_line start : start mod PAGE_SIZE = 0 -> start mod CACHE_LINE = 0.
Proof.
  unfold PAGE_SIZE, CACHE_LINE. intros H. pose proof (Z.div_mod start 4096).
  replace start with (start / 4096 * 64 * 64) by lia. apply Z.mod_mul. lia.
Qed.

(** Two adjacent runs flush as one. *)
Lemma flush_range_join start len a : page_run start (len + PAGE_SIZE) -> 0 <= len -> (start + len) mod PAGE_SIZE = 0 ->
  In a (flush_range start (len + PAGE_SIZE)) <-> In a (flush_range start len) \/ In a (flush_range (start + len) PAGE_SIZE).
Proof.
  unfold page_run. intros (H1 & H2 & H3 & H4) Hl Hm.
  assert (0 < PAGE_SIZE) by done. assert (0 < CACHE_LINE) by done.
  rewrite !flush_range_In by lia. rewrite (page_line start H3), (page_line _ Hm). lia.
Qed.

Lemma defio_lines_In pages a : forall start len,
  Forall (fun o => page_run (phys + o) PAGE_SIZE) pages -> len = 0 \/ (page_run start len /\ (start + len) mod PAGE_SIZE = 0) ->
  In a (defio_lines phys pages start len) <->
  (len <> 0 /\ In a (flush_range start len)) \/ exists o, In o pages /\ In a (flush_range (phys + o) PAGE_SIZE).
Proof.
  induction pages as [|o pages IH]; intros start len Hp Hr; cbn [defio_lines].
  - destruct (Z.eqb_spec len 0); cbn; split; try tauto; [by intros [[]|(? & [] & _)]|by intros [[]|(? & [] & _)]].
  - apply Forall_cons in Hp as [Ho Hp]. assert (0 < PAGE_SIZE) by done. assert (PAGE_SIZE <> 0) by done. pose proof Ho as (O1 & O2 & O3 & O4).
    rewrite exists_cons.
    assert (Hend : (phys + o + PAGE_SIZE) mod PAGE_SIZE = 0).
    { rewrite <-Zplus_mod_idemp_r, Z.mod_same, Z.add_0_r by lia. exact O3. }
    destruct (Z.eqb_spec len 0) as [->|Hn]; cbn [negb andb].
    + cbn [app]. rewrite (IH (phys + o) PAGE_SIZE Hp) by (by right). tauto.
    + destruct Hr as [|[Hr Hm]]; [done|]. pose proof Hr as (R1 & R2 & R3 & R4). destruct (Z.eqb_spec (phys + o) (start + len)) as [E|E].
      * rewrite (IH start (len + PAGE_SIZE) Hp). 2: { right. rewrite E in *. unfold page_run. split_and!; [lia..|]. by rewrite Z.add_assoc. }
        assert (page_run start (len + PAGE_SIZE)) as Hj by (rewrite E in *; unfold page_run; split_and!; lia).
        rewrite (flush_range_join start len a Hj R2 Hm), <-E. assert (len + PAGE_SIZE <> 0) by lia. tauto.
      * rewrite in_app_iff, (IH (phys + o) PAGE_SIZE Hp) by (by right). tauto.
Qed.
End pages.

(** Mapped pages: whatever pages were written and in whatever order they arrive, the lines
    flushed are exactly those of the pages; merging neighbours loses none and adds none. *)
Theorem defio_flushes_pages phys pages a :
  Forall (fun o => page_run (phys + o) PAGE_SIZE) pages ->
  In a (defio_lines phys pages 0 0) <-> exists o, In o pages /\ In a (flush_range (phys + o) PAGE_SIZE).
Proof. intros H. rewrite defio_lines_In by auto. tauto. Qed.

(** ** Where the code falls short *)

(** A write whose buffer faults part way has stored the bytes before the fault and records no
    damage for them: nothing will push them out. *)
Lemma write_fault_stale phys buf count pos s :
  0 <= pos -> zlen buf < count -> pos + count <= smem_len s -> 0 < count ->
  let '(e, pos', s') := soct_dp_fb_write phys false buf count pos s in
  e = - EFAULT /\ pos' = pos /\ dirty s' = dirty s /\ dram s' = dram s /\
  forall d, 0 <= d < zlen buf -> virt s' (phys + pos + d) = nth (Z.to_nat d) buf 0.
Proof.
  intros Hp Hb Ht Hc. pose proof (zlen_nonneg buf). unfold soct_dp_fb_write. rewrite !Z.gtb_ltb.
  destruct (Z.ltb_spec pos 0), (Z.ltb_spec (smem_len s) pos); cbn [orb]; try lia.
  destruct (Z.ltb_spec (smem_len s - pos) count); [lia|]. destruct (Z.eqb_spec count 0); [lia|].
  destruct (Z.ltb_spec (zlen buf) count); [|lia]. split_and!; [done..|]. intros d Hd.
  rewrite firstn_all2 by (unfold zlen in *; lia). by apply memcpy_in.
Qed.

(** A timing whose sums wrap to zero is divided by: 640 pixels and the margin that completes
    them to 2^32. *)
Lemma var_to_mode_divides_by_zero :
  soct_dp_fb_var_to_mode (Var 640 480 640 480 0 0 24 39722 0 (2 ^ 32 - 640) 33 10 0 2 0 0) = Undef.
Proof. by vm_compute. Qed.

(** The budget the generator writes (MmcmSolver.scala) for a 100 MHz reference. *)
Definition gen_limits : soct_clk_wzrd_limits := Limits 100000000 800000000 1600000000 10000000 500000000.

(** XGA at 65 MHz: a retunable design runs it exactly, but what comes back through the fbdev
    interface solves to another clock, so re-activating the running mode retunes the pipeline. *)
Definition xga : soct_dp_mode := Mode 1024 24 136 160 768 3 6 29 0 0 60 65000000.

Lemma reactivation_retunes : exists m m',
  soct_dp_validate_mode gen_limits 148500000 true xga xga = (0, xga) /\
  soct_dp_fb_var_to_mode (soct_dp_fb_fill_var 0x600000 xga) = Ret (Some m) /\
  soct_dp_validate_mode gen_limits 148500000 true xga m = (0, m') /\ soct_dp_mode_equal m' xga = false.
Proof.
  assert (u32_limits gen_limits) as Hl by (unfold u32_limits, fits; cbn; lia).
  destruct (solve_near gen_limits 65000000 1 100 65 Hl) as (s & E & Hs);
    [unfold fits; lia|cbn; lia|lia|split; [unfold legal; cbn; lia|by left]|by vm_compute|].
  change (dist gen_limits 65000000 1 100 65) with 0 in Hs.
  destruct (solve_near gen_limits 64998375 9 173 1012 Hl) as (s' & E' & Hs');
    [unfold fits; lia|cbn; lia|lia|split; [unfold legal; cbn; lia|by vm_compute; auto]|by vm_compute|].
  change (dist gen_limits 64998375 9 173 1012) with 1587 in Hs'.
  exists (with_clock 64998375 xga), (with_clock (achieved_hz s') xga).
  split; [|split; [vm_compute; reflexivity|split]].
  - unfold soct_dp_validate_mode. cbn -[soct_clk_wzrd_solve]. rewrite E. replace (achieved_hz s) with 65000000 by lia. reflexivity.
  - unfold soct_dp_validate_mode. cbn -[soct_clk_wzrd_solve]. rewrite E', !Z.gtb_ltb. 
    clear E E'. destruct (Z.ltb_spec 148500000 (achieved_hz s')); [lia|reflexivity].
  - unfold soct_dp_mode_equal. apply bool_decide_eq_false. intros Heq.
    assert (achieved_hz s' = 65000000) by exact (f_equal pixel_clock_hz Heq). lia.
Qed.

(** ** At a concrete screen *)

Definition ex_fb : fbs :=
  Fbs (fun _ => 0) (fun _ => 0) zero_mode 8 2 24 1 None None 0 [0x000000; 0xffffff] (Glyph 0 0 false []).

Lemma ex_geo : geo 4096 ex_fb.
Proof. unfold geo, BYTES_PER_PIXEL, CACHE_LINE. cbn. lia. Qed.

Lemma ex_fresh : fresh 4096 (World ex_fb [] []).
Proof. split_and!; [exact ex_geo|done..]. Qed.

Definition ex_glyph : fb_image := Image 0 1 8 1 1 0 1 [0xa5].

Lemma ex_glyph_ok : rect_ok ex_fb (area (idx ex_glyph) (idy ex_glyph) (iwidth ex_glyph) (iheight ex_glyph)).
Proof. unfold rect_ok. cbn. lia. Qed.

Lemma imageblit_draws_witness :
  virt (soct_dp_fb_imageblit 4096 (fun _ m => m) false ex_glyph ex_fb) (4096 + 24 + 3 * 2 + 1) = 0xff.
Proof.
  destruct (imageblit_draws 4096 (fun _ m => m) ex_glyph ex_fb ex_geo) as [H _];
    [done|done|exact ex_glyph_ok|repeat constructor; lia|by vm_compute|].
  change (4096 + 24 + 3 * 2 + 1) with (row_start 4096 ex_fb (idx ex_glyph + 2) (idy ex_glyph + 0) + 1).
  rewrite (H 2 0 1) by (cbn; lia). by vm_compute.
Defined.

Lemma drawing_refines_witness :
  rtc (step 4096) (World ex_fb [] []) (World (soct_dp_fb_imageblit 4096 (fun _ m => m) false ex_glyph ex_fb) [] []).
Proof.
  apply (drawing_refines 4096 ex_fb (fun _ m => m) (fun _ m => m) (fun _ m => m) [] [] ex_geo);
    [cbn; lia|done|done|done|exact ex_glyph_ok].
Defined.

Definition ex_drawn : fbs := soct_dp_fb_imageblit 4096 (fun _ m => m) false ex_glyph ex_fb.

Lemma ex_run : rtc (step 4096) (World ex_fb [] []) (World ex_drawn [] []).
Proof.
  apply (draw_run 4096 ex_fb _ _ _ _ (virt ex_drawn) (glyph ex_drawn)); [exact ex_glyph_ok|].
  intros p Hp. exact (blit_rows_out 4096 ex_fb (pat (glyph ex_drawn)) ex_glyph (virt ex_fb) p ex_glyph_ok Hp).
Qed.

Lemma screen_coherent_witness : exists w',
  rtc (step 4096) (World ex_drawn [] []) w' /\ (on_screen 4096 (fb w') 4126 -> dram (fb w') 4126 = virt ex_drawn 4126).
Proof.
  destruct (screen_coherent 4096 _ _ ex_fresh ex_run) as (_ & _ & w' & Hs & Hv & Hc).
  exists w'. split; [exact Hs|]. intros Hp. rewrite (Hc _ Hp). cbn [fb] in Hv. by rewrite Hv.
Defined.

Lemma var_roundtrip_witness : exists c,
  soct_dp_validate_mode zcu104 148500000 false m720p (with_clock c m720p) = (0, m720p) /\
  200 * Z.abs (c - 74250000) <= 74250000.
Proof.
  destruct (var_roundtrip zcu104 148500000 0x600000 m720p) as (c & _ & H1 & H2);
    [cbn; lia|split; by vm_compute|split; [cbn; lia|by vm_compute]|split; by right|done|done|].
  exists c. by split.
Defined.

Lemma defio_flushes_pages_witness : In (0x80001040) (defio_lines 0x80000000 [0; 4096; 20480] 0 0).
Proof.
  apply (defio_flushes_pages 0x80000000 [0; 4096; 20480]).
  - repeat constructor; unfold PAGE_SIZE, CACHE_LINE; (reflexivity || lia).
  - exists 4096. split; [by right; left|]. apply flush_range_In; unfold PAGE_SIZE, CACHE_LINE; [lia..|].
    split; [reflexivity|split; by vm_compute].
Defined.

Definition ex_pipe : pipe := Pipe zero_mode true [].
Definition ex_var : var := soct_dp_fb_fill_var 0x600000 m720p.

Lemma ex_var_mode : soct_dp_fb_var_to_mode ex_var = Ret (Some (with_clock 74250074 m720p)).
Proof. by vm_compute. Qed.

Lemma set_par_in_step_witness :
  wp (soct_dp_fb_set_par 0x80000000 0x600000 zcu104 148500000 3 ([1], [1]) ex_var)
     (fun err s' => in_step 0x80000000 0x600000 s'.1.2 s'.2 /\ (err = 0 -> cur s'.1.2 <> zero_mode))
     ((Bus tt [], ex_pipe), ex_fb).
Proof.
  eapply wp_mono.
  - apply (set_par_in_step zcu104 148500000 0x80000000 0x600000 3 ([1], [1]) ex_var _ ((Bus tt [], ex_pipe), ex_fb)
      zcu104_sane ltac:(unfold CACHE_LINE; lia) ex_var_mode).
    + intros m [= <-]. split; [unfold mode_ok, fits; cbn; lia|unfold fits_carveout; cbn; lia].
    + unfold mode_ok, fits. cbn. lia.
    + by left.
    + split; [done|by left].
  - intros err s' (_ & H1 & H2 & _). by split.
Defined.
