(* ===== verification/DpProbe.v ===== *)
(** * The life of the DisplayPort module (binaries/linux/drivers/dp/dp-main.c, fb.c)

    From the work that brings the display up ([soct_dp_work]) to the exit of the module,
    over [DpMode] (the pipeline) and [DpFb] (the framebuffer): the nodes looked up, the windows
    mapped, the framebuffer prepared and registered, and what every early return leaves to
    [soct_dp_exit].  The device tree, the answers of the kernel and those of the vendored
    DisplayPort driver are one record, [kernel]; the resources taken and given back, and the
    accesses through them, are a log. *)
From Stdlib Require Import String.
From S2P Require Import Prelude Mmio ClkWzrd DpMode DpFb.
#[local] Abbreviation length := List.length.

(** ** What the module is given *)

(** A device node: whether its registers can be mapped, its u32 properties, its first region. *)
Record node := Node { mappable : bool; np : props; region : option (Z * Z) }.

Record kernel := Kernel {
  dt_vdma : option node; incoherent : bool;
  dt_carveout : option node; (* /reserved-memory/framebuffer *)
  dt_chosen : option node; (* the simple-framebuffer under /chosen *)
  dt_vtc : option node; dt_vidstat : option node; dt_window : option node;
  dt_pixclk : option node; dt_l2 : option node;
  maps_window : bool; maps_carveout : bool; pfn_valid : bool;
  allocs_info : bool; defio_err : Z; register_err : Z;
  hpd_timeout_ms : Z;
  tx_ok : bool; connected : nat -> bool; caps_ok : bool; link_ok : bool;
  live_format_ok : bool; output_format_ok : bool }.

(** The windows, and everything that is taken and must be given back. *)
Inductive window := WVdma | WVtc | WVidstat | WPs | WPixclk | WL2 | WVirt.
Inductive res := RMap (w : window) | RInfo | RDefio | RFramebuffer.
#[export] Instance window_eq_dec : EqDecision window.
Proof. solve_decision. Defined.
#[export] Instance res_eq_dec : EqDecision res.
Proof. solve_decision. Defined.

(** An access through a window is logged as [Use]. *)
Inductive kev := Acq (r : res) | Rel (r : res) | Use (w : window).

(** The module's own variables: the pointers of [s] and [fbs] that may be NULL, [fbs.info],
    [fbs.mmap_ok], [fbs.defio_size]. *)
Record module := Module { ptr : window -> bool; info : bool; mmap_ok : bool; defio_size : Z; klog : list kev }.
Definition set_ptr w b x := Module (fun v => if decide (v = w) then b else ptr x v) (info x) (mmap_ok x) (defio_size x) (klog x).
Definition set_info b x := Module (ptr x) b (mmap_ok x) (defio_size x) (klog x).
Definition set_mmap b x := Module (ptr x) (info x) b (defio_size x) (klog x).
Definition set_defio z x := Module (ptr x) (info x) (mmap_ok x) z (klog x).
Definition add_ev e x := Module (ptr x) (info x) (mmap_ok x) (defio_size x) (klog x ++ [e]).
Definition module0 : module := Module (fun _ => false) false false 0 [].

(** How the bring-up ends; the negative numbers are the errors of the step that failed. *)
Inductive outcome :=
| NoPipeline | NoFramebuffer | NodesMissing | NoWindow | NoTiming | Disagree
| NotPrepared (e : Z) | NotScanning (e : Z) | NoFormat (e : Z) | NoLink (e : Z) | Up (locked : bool) (registered : option Z).

Section module.
Context {D : Type} {HD : Mmio D} (k : kernel).
Abbreviation drv := (prog (((bus D * pipe) * fbs) * module)).

Definition on_dev {A} (m : prog ((bus D * pipe) * fbs) A) : drv A := fun s =>
  match m s.1 with Ret (a, p) => Ret (a, (p, s.2)) | Undef => Undef | Fuel => Fuel end.
Definition on_pipe {A} (m : prog (bus D * pipe) A) : drv A := on_dev (DpFb.on_pipe m).
Definition on_mod (f : module -> module) : drv unit := fun s => Ret (tt, (s.1, f s.2)).
Definition ev (e : kev) : drv unit := on_mod (add_ev e).

(** Mapping sets the pointer, or leaves it NULL. *)
Definition map_window (w : window) (ok : bool) : drv bool :=
  on_mod (set_ptr w ok);; (if ok then ev (Acq (RMap w)) else mret tt);; mret ok.
Definition iomap_compatible (w : window) (n : option node) : drv bool :=
  map_window w (match n with Some n => mappable n | None => false end).
(** [iounmap] followed by the reset of the pointer. *)
Definition unmap (w : window) : drv unit := ev (Rel (RMap w));; on_mod (set_ptr w false).

(** ** The framebuffer device *)

Definition soct_dp_fb_prepare (fb fb_size : Z) (m : soct_dp_mode) : drv Z :=
  match dt_l2 k with
  | None => mret (- ENODEV)
  | Some _ =>
      ok ← iomap_compatible WL2 (dt_l2 k);
      if negb ok then mret (- ENOMEM) else
      s ← gets (fun s => s.1.2);
      match DpFb.soct_dp_fb_prepare fb fb_size m s with
      | None => unmap WL2;; mret (- EINVAL)
      | Some s =>
          ok ← map_window WVirt (maps_carveout k);
          if negb ok then unmap WL2;; mret (- EINVAL) else
          on_mod (set_mmap (pfn_valid k));;
          ev (Use WVirt);; ev (Use WL2);;
          on_dev (on_fb (fun _ => s));;
          mret 0
      end
  end.

Definition defio_cleanup : drv unit :=
  x ← gets snd;
  (if mmap_ok x then ev (Use WL2);; ev (Rel RDefio) else mret tt).

Definition soct_dp_fb_register : drv Z :=
  if negb (allocs_info k) then mret (- ENOMEM) else
  ev (Acq RInfo);;
  x ← gets snd;
  s ← gets (fun s => s.1.2);
  err ← (if mmap_ok x then
           if negb (defio_err k =? 0) then ev (Rel RInfo);; mret (defio_err k)
           else ev (Acq RDefio);; on_mod (set_defio (smem_len s));; mret 0
         else mret 0);
  if negb (err =? 0) then mret err else
  if negb (register_err k =? 0) then defio_cleanup;; ev (Rel RInfo);; mret (register_err k) else
  ev (Acq RFramebuffer);; on_mod (set_info true);; mret 0.

(** The last reference to the device dropped; the flush worker is stopped first. *)
Definition soct_dp_fb_destroy : drv unit :=
  defio_cleanup;; unmap WVirt;; unmap WL2;; ev (Rel RInfo).

(** No file is open when the module goes, so unregistering drops the last reference. *)
Definition soct_dp_fb_teardown : drv unit :=
  x ← gets snd;
  if info x then ev (Rel RFramebuffer);; soct_dp_fb_destroy;; on_mod (set_info false)
  else
    (if ptr x WVirt then unmap WVirt else mret tt);;
    (if ptr x WL2 then unmap WL2 else mret tt).

(** ** The bring-up *)

(** The wait for a monitor, [i] polls in; [waited] is an unsigned int.  [link_ok] is both
    steps of the training. *)
Fixpoint wait_monitor (fuel : nat) (i : nat) (waited : Z) : Prelude.res bool :=
  match fuel with
  | O => Fuel
  | S fuel =>
      if connected k i then Ret true else
      if waited >=? hpd_timeout_ms k then Ret false else
      wait_monitor fuel (S i) (u32 (waited + 100))
  end.

Definition dp_link_up (fuel : nat) : Prelude.res Z :=
  if negb (tx_ok k) then Ret (- EIO) else
  found ← wait_monitor fuel 0 0;
  if negb found then Ret (- ENODEV) else
  if negb (caps_ok k) then Ret (- EIO) else
  if negb (link_ok k) then Ret (- EIO) else Ret 0.

(** What the vendored driver answers to the two formats. *)
Definition avbuf_select_live_video : Z :=
  if negb (live_format_ok k) then - EINVAL else if negb (output_format_ok k) then - EINVAL else 0.

(** The retune budget of the pixel-clkwiz node, when there is one and it is complete. *)
Definition dt_budget : option (soct_clk_wzrd_limits * Z) := n ← dt_pixclk k; DpMode.parse_pixclk (np n).
Definition budget : soct_clk_wzrd_limits * Z := default (Limits 0 0 0 0 0, 0) dt_budget.

Definition parse_pixclk : drv unit :=
  match dt_pixclk k with
  | None => mret tt
  | Some n =>
      match DpMode.parse_pixclk (np n) with
      | None => mret tt
      | Some _ => ok ← iomap_compatible WPixclk (Some n);
                  if (ok : bool) then on_pipe (put (set_retunable true)) else mret tt
      end
  end.

(** The boot clock is normalised to what the solver reaches, and programmed. *)
Definition boot_clock (locks : list Z * list Z) : drv unit :=
  x ← on_pipe get;
  (if retunable x then
     let '(err, m) := soct_dp_validate_mode budget.1 budget.2 true (cur x) (cur x) in
     on_pipe (put (set_cur m));;
     (if negb (err =? 0) then on_pipe (put (set_retunable false)) else mret tt)
   else mret tt);;
  x ← on_pipe get;
  if retunable x then
    match soct_clk_wzrd_solve budget.1 (pixel_clock_hz (cur x)) with
    | Some set => ev (Use WPixclk);; _ ← on_pipe (pixclk_retune locks set); mret tt
    | None => mret tt
    end
  else mret tt.

(** The framebuffer node of a coherent design must describe the synthesized mode. *)
Definition fb_agrees (n : node) (m : soct_dp_mode) : bool :=
  match np n "width"%string, np n "height"%string, np n "stride"%string with
  | Some w, Some h, Some st => (w =? hactive m) && (h =? vactive m) && (st =? u32 (hactive m * 3))
  | _, _, _ => false
  end.

(** From the first fetch on. *)
Definition start_display (n fuel : nat) (fb fb_size : Z) : drv outcome :=
  x ← on_pipe get;
  let m := cur x in
  err ← (if incoherent k then soct_dp_fb_prepare fb fb_size m else mret 0);
  if negb (err =? 0) then mret (NotPrepared err) else
  ev (Use WVdma);;
  err ← on_pipe (vdma_start fb fb_size n (hactive m) (vactive m));
  if negb (err =? 0) then mret (NotScanning err) else
  ev (Use WVtc);;
  on_pipe (vtc_start m);;
  if negb (avbuf_select_live_video =? 0) then mret (NoFormat avbuf_select_live_video) else
  err ← lift (dp_link_up fuel);
  if negb (err =? 0) then mret (NoLink err) else
  on_pipe (dp_start_stream m);;
  ev (Use WVidstat);;
  flags ← on_pipe (rd vidstat);
  reg ← (if incoherent k then err ← soct_dp_fb_register; mret (Some err) else mret None);
  mret (Up (tst flags 1) reg).

Definition soct_dp_work (n fuel : nat) (locks : list Z * list Z) : drv outcome :=
  ok ← iomap_compatible WVdma (dt_vdma k);
  if negb ok then mret NoPipeline else
  match (if incoherent k then dt_carveout k else dt_chosen k) with
  | Some (Node _ fb_np (Some (fb, fb_size)) as fbn) =>
      vtc_ok ← iomap_compatible WVtc (dt_vtc k);
      stat_ok ← iomap_compatible WVidstat (dt_vidstat k);
      match vtc_ok, stat_ok, dt_vtc k, dt_window k with
      | true, true, Some vtc_np, Some (Node _ win_np (Some _)) =>
          match win_np "soct,ps-base"%string with
          | None => mret NodesMissing
          | Some _ =>
              ok ← map_window WPs (maps_window k);
              if negb ok then mret NoWindow else
              match of_read_mode (np vtc_np) with
              | None => mret NoTiming
              | Some m =>
                  on_pipe (put (set_cur m));;
                  if negb (incoherent k) && negb (fb_agrees fbn m) then mret Disagree else
                  parse_pixclk;;
                  boot_clock locks;;
                  start_display n fuel fb fb_size
              end
          end
      | _, _, _, _ => mret NodesMissing
      end
  | _ => mret NoFramebuffer
  end.

(** ** The exit *)

(** [iounmap] of a pointer that is not NULL; the module goes, so the pointer stays. *)
Definition iounmap (w : window) : drv unit :=
  x ← gets snd;
  if ptr x w then ev (Rel (RMap w)) else mret tt.

Definition soct_dp_exit : drv unit :=
  soct_dp_fb_teardown;;
  x ← gets snd;
  (if ptr x WVdma then ev (Use WVdma);; on_pipe (wr (vdma + VDMA_MM2S_DMACR) VDMA_DMACR_RESET) else mret tt);;
  iounmap WVdma;; iounmap WVtc;; iounmap WVidstat;; iounmap WPs;; iounmap WPixclk.
End module.
