(* ===== verification/DpProbeProofs.v ===== *)
(** * The DisplayPort module gives everything back, and starts the framebuffer in step

    The audit of the module's log of resources, the wait for a monitor, and what a bring-up
    that succeeds leaves to the framebuffer's operations ([DpFbProofs], [DpFbModes]). *)
From Stdlib Require Import String.
From stdpp Require Import relations.
From S2P Require Import Prelude Mmio ClkWzrd DpMode DpFb DpFbProofs DpFbModes DpProbe.
#[local] Open Scope list_scope.
#[local] Abbreviation length := List.length.

(** ** The audit *)

Definition upd (h : res -> bool) (r : res) (b : bool) : res -> bool := fun q => if decide (q = r) then b else h q.

(** Nothing is taken twice, given back when it is not held, or used through a window that is
    not mapped; the answer is what is held at the end. *)
Fixpoint audit (h : res -> bool) (l : list kev) : option (res -> bool) :=
  match l with
  | [] => Some h
  | Acq r :: l => if h r then None else audit (upd h r true) l
  | Rel r :: l => if h r then audit (upd h r false) l else None
  | Use w :: l => if h (RMap w) then audit h l else None
  end.

Lemma log_audit_app a b : forall h, audit h (a ++ b) = audit h a ≫= fun h => audit h b.
Proof. induction a as [|[r|r|w] a IH]; intros h; cbn; [done|by destruct (h r)..|by destruct (h (RMap w))]. Qed.

(** The log so far is in order and leaves [h]. *)
Definition holds (h : res -> bool) (x : module) : Prop :=
  exists h', audit (fun _ => false) (klog x) = Some h' /\ forall r, h' r = h r.

Lemma held_ext h h' x : (forall r, h r = h' r) -> holds h x -> holds h' x.
Proof. intros He (g & H & Hg). exists g. split; [done|]. intros r. by rewrite Hg. Qed.

Lemma holds_log h x x' : klog x' = klog x -> holds h x -> holds h x'.
Proof. unfold holds. by intros ->. Qed.

Lemma holds_acq h r x : h r = false -> holds h x -> holds (upd h r true) (add_ev (Acq r) x).
Proof.
  intros Hr (g & H & Hg). exists (upd g r true). cbn. rewrite log_audit_app, H. cbn. rewrite Hg, Hr. split; [done|].
  intros q. unfold upd. by destruct (decide (q = r)).
Qed.

Lemma holds_rel h r x : h r = true -> holds h x -> holds (upd h r false) (add_ev (Rel r) x).
Proof.
  intros Hr (g & H & Hg). exists (upd g r false). cbn. rewrite log_audit_app, H. cbn. rewrite Hg, Hr. split; [done|].
  intros q. unfold upd. by destruct (decide (q = r)).
Qed.

Lemma holds_use h w x : h (RMap w) = true -> holds h x -> holds h (add_ev (Use w) x).
Proof. intros Hr (g & H & Hg). exists g. cbn. rewrite log_audit_app, H. cbn. by rewrite Hg, Hr. Qed.

(** What the module's variables say it holds. *)
Definition own (x : module) (r : res) : bool :=
  match r with RMap w => ptr x w | RInfo => info x | RDefio => info x && mmap_ok x | RFramebuffer => info x end.
Definition tidy (x : module) : Prop :=
  holds (own x) x /\ (info x = true -> ptr x WVirt = true /\ ptr x WL2 = true).

(** During the bring-up: tidy, nothing registered, [us] mapped and [ws] not. *)
Definition ready (us ws : list window) (x : module) : Prop :=
  holds (own x) x /\ info x = false /\ (forall w, In w us -> ptr x w = true) /\ (forall w, In w ws -> ptr x w = false).

Lemma ready_tidy us ws x : ready us ws x -> tidy x.
Proof. intros (H & Hi & _). split; [done|]. by rewrite Hi. Qed.

Lemma ready_incl us us' ws ws' x : (forall w, In w us' -> In w us) -> (forall w, In w ws' -> In w ws) -> ready us ws x -> ready us' ws' x.
Proof. intros Hu Hw (H & Hi & H1 & H2). split_and!; auto. Qed.

Section rules.
Context {D : Type} {HD : Mmio D} (k : kernel).
Abbreviation state := (((bus D * pipe) * fbs) * module)%type.
Abbreviation drv := (prog state).
Implicit Types (s : state) (x : module).

Lemma wp_mod {B} f (c : unit -> drv B) (Q : B -> state -> Prop) s : wp (c tt) Q (s.1, f s.2) -> wp (u ← on_mod f; c u) Q s.
Proof. intros H. by apply wp_bind. Qed.

Lemma wp_gets {A B} (f : state -> A) (c : A -> drv B) (Q : B -> state -> Prop) s : wp (c (f s)) Q s -> wp (v ← gets f; c v) Q s.
Proof. intros H. by apply wp_bind. Qed.

Lemma wp_display {A B} (m : prog ((bus D * pipe) * fbs) A) (c : A -> drv B) (Q : B -> state -> Prop) s :
  wp m (fun a p => wp (c a) Q (p, s.2)) s.1 -> wp (v ← on_dev m; c v) Q s.
Proof. intros H. apply wp_bind. unfold wp in *. unfold on_dev. by destruct (m s.1) as [[a p]| |]. Qed.

Lemma wp_pipe {A B} (m : prog (bus D * pipe) A) (c : A -> drv B) (Q : B -> state -> Prop) s :
  wp m (fun a p => wp (c a) Q ((p, s.1.2), s.2)) s.1.1 -> wp (v ← on_pipe m; c v) Q s.
Proof.
  intros H. apply wp_display. unfold wp at 1, DpFb.on_pipe. unfold wp at 1 in H. by destruct (m s.1.1) as [[a p]| |].
Qed.

Lemma ready_ptr us ws x w : ready us ws x -> In w us -> ptr x w = true.
Proof. intros H. apply H. Qed.

(** Mapping a window. *)
Lemma map_window_spec us ws w ok s : ~ In w us -> ~ In w ws -> ready us (w :: ws) s.2 ->
  wp (map_window (D:=D) w ok) (fun b s' => b = ok /\ s'.1 = s.1 /\ ready (if ok then w :: us else us) ws s'.2) s.
Proof.
  intros Hu Hw (H & Hi & H1 & H2). unfold map_window. apply wp_mod.
  assert (forall v, v <> w -> ptr (set_ptr w ok s.2) v = ptr s.2 v) as Ho by (intros v Hv; cbn; by rewrite decide_False).
  assert (ptr (set_ptr w ok s.2) w = ok) as Hp by (cbn; by rewrite decide_True).
  assert (forall us', (forall v, In v us' -> In v us \/ v = w /\ ok = true) -> (forall v, In v us' -> ptr (set_ptr w ok s.2) v = true)) as Hus.
  { intros us' Hs v Hv. destruct (decide (v = w)) as [->|Hn]; [destruct (Hs w Hv) as [|[_ E]]; [done|by rewrite Hp]|].
    rewrite (Ho v Hn). destruct (Hs v Hv) as [|[]]; [auto|done]. }
  assert (forall v, In v ws -> ptr (set_ptr w ok s.2) v = false) as Hws.
  { intros v Hv. rewrite Ho by (intros ->; done). apply H2. by right. }
  assert (own s.2 (RMap w) = false) as Hf by (apply H2; by left).
  destruct ok; cbn.
  - apply wp_mod, wp_ret. split_and!; [done..|]. split_and!; cbn [snd].
    + apply held_ext with (upd (own s.2) (RMap w) true).
      { intros r. unfold upd. destruct (decide (r = RMap w)) as [->|Hn]; [symmetry; exact Hp|].
        destruct r as [v| | |]; try done. cbn [own]. change (ptr (add_ev _ ?y) v) with (ptr y v). rewrite Ho; [done|congruence]. }
      apply (holds_acq _ _ (set_ptr w true s.2)); [done|]. by apply (holds_log _ s.2).
    + done.
    + apply (Hus (w :: us)). intros v [->|Hv]; auto.
    + exact Hws.
  - apply wp_ret. split_and!; [done..|]. split_and!; cbn [snd]; [|done|apply Hus; auto|exact Hws].
    apply held_ext with (own s.2); [|by apply (holds_log _ s.2)].
    intros [v| | |]; try done. cbn [own]. destruct (decide (v = w)) as [->|Hn]; [by rewrite Hp|by rewrite Ho].
Qed.

(** Giving one back. *)
Lemma unmap_spec us ws w s : ~ In w us -> ready (w :: us) ws s.2 ->
  wp (unmap (D:=D) w) (fun _ s' => s'.1 = s.1 /\ ready us (w :: ws) s'.2) s.
Proof.
  intros Hu (H & Hi & H1 & H2). unfold unmap, ev. apply wp_mod. cbn [fst snd]. unfold wp, on_mod. cbn [fst snd].
  assert (forall v, v <> w -> ptr (set_ptr w false (add_ev (Rel (RMap w)) s.2)) v = ptr s.2 v) as Ho
    by (intros v Hv; cbn; by rewrite decide_False).
  assert (ptr (set_ptr w false (add_ev (Rel (RMap w)) s.2)) w = false) as Hp by (cbn; by rewrite decide_True).
  split; [done|]. split_and!.
  - apply held_ext with (upd (own s.2) (RMap w) false).
    { intros r. unfold upd. destruct (decide (r = RMap w)) as [->|Hn]; [symmetry; exact Hp|].
      destruct r as [v| | |]; try done. cbn [own]. rewrite Ho; [done|congruence]. }
    apply (holds_log _ (add_ev (Rel (RMap w)) s.2)); [done|]. apply holds_rel; [|done]. apply H1. by left.
  - done.
  - intros v Hv. rewrite Ho by (intros ->; done). apply H1. by right.
  - intros v [<-|Hv]; [done|]. destruct (decide (v = w)) as [->|Hn]; [done|]. rewrite Ho by done. by apply H2.
Qed.

Lemma ready_use us ws w x : In w us -> ready us ws x -> ready us ws (add_ev (Use w) x).
Proof.
  intros Hin (H & Hi & H1 & H2). split_and!; [|done..]. apply held_ext with (own x); [done|]. apply holds_use; [|done]. by apply H1.
Qed.

(** ** The framebuffer device *)

Lemma prepare_spec us fb fb_size m s : ~ In WL2 us -> ~ In WVirt us -> ready us [WL2; WVirt] s.2 ->
  wp (soct_dp_fb_prepare (D:=D) k fb fb_size m)
     (fun e s' => s'.1.1 = s.1.1 /\
        if e =? 0 then ready (WVirt :: WL2 :: us) [] s'.2 /\ DpFb.soct_dp_fb_prepare fb fb_size m s.1.2 = Some s'.1.2
        else ready us [] s'.2) s.
Proof.
  intros Hl Hv H. unfold soct_dp_fb_prepare. destruct (dt_l2 k) as [l2|].
  2: { apply wp_ret. split; [done|]. by apply (ready_incl us us [WL2; WVirt]). }
  wp_next (map_window_spec us [WVirt]); [done|by cbn; intros [|[]]|exact H|]. cbn beta. intros b s1 (-> & E1 & H1).
  destruct (mappable l2); cbn [negb]; [|apply wp_ret; rewrite E1; split; [done|by apply (ready_incl us us [WVirt])]].
  apply wp_gets. rewrite E1. destruct (DpFb.soct_dp_fb_prepare fb fb_size m s.1.2) as [f|] eqn:Ef.
  2: { wp_next (unmap_spec us); [exact Hl|exact H1|]. cbn beta. intros [] s2 (E2 & H2). apply wp_ret. rewrite E2, E1.
       split; [done|]. by apply (ready_incl us us [WL2; WVirt]). }
  wp_next (map_window_spec (WL2 :: us) []); [by cbn; intros [|]|by intros []|exact H1|]. cbn beta. intros b s2 (-> & E2 & H2).
  destruct (maps_carveout k); cbn [negb].
  2: { wp_next (unmap_spec us); [exact Hl|exact H2|]. cbn beta. intros [] s3 (E3 & H3). apply wp_ret. rewrite E3, E2, E1.
       split; [done|]. by apply (ready_incl us us [WL2]). }
  apply wp_mod. unfold ev. do 2 apply wp_mod. apply wp_display. unfold wp at 1, on_fb. apply wp_ret. cbn [fst snd].
  rewrite E2, E1. split; [done|]. split; [|done]. do 2 (apply ready_use; [cbn; auto|]).
  destruct H2 as (A & B & C). split_and!; [|done|apply C..]. apply (holds_log _ s2.2); [done|].
  apply held_ext with (own s2.2); [|done]. intros [w| | |]; try done. cbn [own]. change (info (set_mmap _ _)) with (info s2.2). by rewrite B.
Qed.

Lemma cleanup_spec h s : holds h s.2 -> (mmap_ok s.2 = true -> h RDefio = true /\ h (RMap WL2) = true) ->
  wp (defio_cleanup (D:=D)) (fun _ s' => s'.1 = s.1 /\ holds (if mmap_ok s.2 then upd h RDefio false else h) s'.2 /\
    ptr s'.2 = ptr s.2 /\ info s'.2 = info s.2 /\ mmap_ok s'.2 = mmap_ok s.2) s.
Proof.
  intros H Hm. unfold defio_cleanup. apply wp_gets. destruct (mmap_ok s.2) eqn:E; [|apply wp_ret; by rewrite E].
  destruct (Hm eq_refl). unfold ev. apply wp_mod. split_and!; try done. apply (holds_rel h); [done|]. by apply (holds_use h).
Qed.

(** The window of the cleanup is mapped whenever it is run. *)
Lemma register_spec us s : In WL2 us -> In WVirt us -> ready us [] s.2 ->
  wp (soct_dp_fb_register (D:=D) k) (fun e s' => s'.1 = s.1 /\ tidy s'.2 /\ info s'.2 = (e =? 0)) s.
Proof.
  intros Hl Hv H. pose proof H as (Ho & Hi & Hu & _). unfold soct_dp_fb_register.
  destruct (allocs_info k); cbn [negb]; [|apply wp_ret; split_and!; [done|by apply (ready_tidy us [])|done]].
  unfold ev. apply wp_mod, wp_gets, wp_gets. cbn [fst snd].
  set (x1 := add_ev (Acq RInfo) s.2). set (h1 := upd (own s.2) RInfo true).
  assert (holds h1 x1) as H1 by (apply holds_acq; [exact Hi|exact Ho]).
  assert (forall x e, e <> 0 -> holds (upd h1 RInfo false) x -> ptr x = ptr s.2 -> info x = false ->
    s.1 = s.1 /\ tidy x /\ info x = (e =? 0)) as Hfail.
  { intros x e He Hx Ep Ex. split_and!; [done| |destruct (Z.eqb_spec e 0); [done|by rewrite Ex]]. split; [|by rewrite Ex].
    eapply held_ext; [|exact Hx]. intros r. unfold upd, h1, upd, own. rewrite Ex, Ep, Hi. by destruct r. }
  apply wp_bind. apply wp_mono with (Q := fun e s' => s'.1 = s.1 /\ ptr s'.2 = ptr s.2 /\ info s'.2 = false /\ mmap_ok s'.2 = mmap_ok s.2 /\
    if e =? 0 then holds (if mmap_ok s.2 then upd h1 RDefio true else h1) s'.2 else holds (upd h1 RInfo false) s'.2).
  { change (mmap_ok x1) with (mmap_ok s.2). destruct (mmap_ok s.2) eqn:Em; [|by apply wp_ret].
    destruct (Z.eqb_spec (defio_err k) 0) as [E|E]; cbn [negb].
    - do 2 apply wp_mod. apply wp_ret. cbn [fst snd]. split_and!; try done. apply (holds_log _ (add_ev (Acq RDefio) x1)); [done|].
      apply holds_acq; [|done]. unfold h1, upd, own. cbn. by rewrite Hi.
    - apply wp_mod, wp_ret. cbn [fst snd]. split_and!; try done. apply Z.eqb_neq in E. rewrite E. by apply holds_rel. }
  intros e s2 (E1 & Ep & Ei & Em & H2). destruct (Z.eqb_spec e 0) as [->|He]; cbn [negb].
  2: { apply wp_ret. rewrite E1. by apply Hfail. }
  assert (forall r, (if mmap_ok s.2 then upd h1 RDefio true else h1) r = match r with RInfo => true | RDefio => mmap_ok s.2 | _ => own s.2 r end) as Eh.
  { intros r. unfold h1, upd. destruct (mmap_ok s.2), r; try done; cbn; by rewrite Hi. }
  destruct (Z.eqb_spec (register_err k) 0) as [Er|Er]; cbn [negb].
  - do 2 apply wp_mod. apply wp_ret. cbn [fst snd]. split_and!; [done| |done]. split; cbn; [|rewrite Ep; auto].
    apply (holds_log _ (add_ev (Acq RFramebuffer) s2.2)); [done|]. eapply held_ext; [|apply holds_acq; [|exact H2]].
    + intros r. unfold upd. destruct (decide (r = RFramebuffer)) as [->|]; [done|]. rewrite Eh. destruct r; try done; cbn; by rewrite ?Em, ?Ep.
    + rewrite Eh. exact Hi.
  - wp_next (cleanup_spec (if mmap_ok s.2 then upd h1 RDefio true else h1)); [exact H2| |].
    { rewrite Em, !Eh. intros Hm. split; [done|]. by apply Hu. }
    cbn beta. intros [] s3 (E3 & H3 & Ep3 & Ei3 & Em3). apply wp_mod, wp_ret. cbn [fst snd]. rewrite E3, E1.
    rewrite Em in H3. apply Hfail; [done| |cbn; congruence|cbn; congruence].
    eapply held_ext; [|apply holds_rel; [|exact H3]].
    + intros r. unfold h1, upd. destruct (mmap_ok s.2), r; try done; cbn; by rewrite ?Hi.
    + unfold h1, upd. by destruct (mmap_ok s.2).
Qed.

(** ** The exit *)

Lemma unmap_raw h w s : h (RMap w) = true -> holds h s.2 ->
  wp (unmap (D:=D) w) (fun _ s' => s'.1 = s.1 /\ holds (upd h (RMap w) false) s'.2 /\
    (forall v, ptr s'.2 v = if decide (v = w) then false else ptr s.2 v) /\ info s'.2 = info s.2 /\ mmap_ok s'.2 = mmap_ok s.2) s.
Proof.
  intros Hh H. unfold unmap, ev. apply wp_mod. unfold wp, on_mod. cbn [fst snd]. split_and!; try done.
  apply (holds_log _ (add_ev (Rel (RMap w)) s.2)); [done|]. by apply holds_rel.
Qed.

Lemma destroy_spec s : holds (upd (own s.2) RFramebuffer false) s.2 -> info s.2 = true -> ptr s.2 WVirt = true -> ptr s.2 WL2 = true ->
  wp (soct_dp_fb_destroy (D:=D)) (fun _ s' => s'.1 = s.1 /\
    holds (fun r => match r with RMap w => if decide (w = WVirt \/ w = WL2) then false else ptr s.2 w | _ => false end) s'.2 /\
    (forall w, ptr s'.2 w = if decide (w = WVirt \/ w = WL2) then false else ptr s.2 w)) s.
Proof.
  intros H Hi Hv Hl. unfold soct_dp_fb_destroy. wp_next (cleanup_spec _ s H).
  { intros Hm. unfold upd. cbn. by rewrite Hi, Hm. }
  cbn beta. intros [] s1 (E1 & H1 & Ep1 & Ei1 & Em1).
  assert (forall r, (if mmap_ok s.2 then upd (upd (own s.2) RFramebuffer false) RDefio false else upd (own s.2) RFramebuffer false) r
    = match r with RMap w => ptr s.2 w | RInfo => true | _ => false end) as Eh.
  { intros r. unfold upd. destruct (mmap_ok s.2) eqn:Em, r; try done; cbn; by rewrite ?Hi, ?Em. }
  wp_next unmap_raw; [|exact H1|]; [by rewrite Eh|]. cbn beta. intros [] s2 (E2 & H2 & Ep2 & _).
  wp_next unmap_raw; [|exact H2|]; [by unfold upd; rewrite decide_False, Eh|]. cbn beta. intros [] s3 (E3 & H3 & Ep3 & _).
  unfold ev, wp, on_mod. cbn [fst snd]. rewrite E3, E2, E1. split; [done|].
  assert (forall w, ptr s3.2 w = if decide (w = WVirt \/ w = WL2) then false else ptr s.2 w) as Ep.
  { intros w. rewrite Ep3, Ep2, Ep1. by destruct w. }
  split; [|exact Ep]. eapply held_ext; [|apply holds_rel; [|exact H3]].
  - intros r. unfold upd. rewrite Eh. by destruct r as [[]| | |].
  - unfold upd. by rewrite !decide_False, Eh.
Qed.

Lemma teardown_spec s : tidy s.2 -> wp (soct_dp_fb_teardown (D:=D)) (fun _ s' => s'.1 = s.1 /\ ready [] [WVirt; WL2] s'.2 /\
  forall w, w <> WVirt -> w <> WL2 -> ptr s'.2 w = ptr s.2 w) s.
Proof.
  intros [H Hi]. unfold soct_dp_fb_teardown. apply wp_gets. destruct (info s.2) eqn:E.
  - destruct (Hi eq_refl) as [Hv Hl]. unfold ev. apply wp_mod.
    wp_next destroy_spec; cbn [snd fst]; [by apply holds_rel|done..|]. cbn beta. intros [] s1 (E1 & H1 & Ep).
    unfold wp, on_mod. cbn [fst snd] in *. split; [done|]. split; [|intros w Hw1 Hw2; cbn; rewrite Ep, decide_False; [done|by intros []]].
    split_and!; [|done|by intros w []|].
    + apply (holds_log _ s1.2); [done|]. eapply held_ext; [|exact H1]. intros [w| | |]; try done. symmetry. apply Ep.
    + intros w [<-|[<-|[]]]; cbn; by rewrite Ep.
  - apply wp_bind. apply wp_mono with (Q := fun _ s' => s'.1 = s.1 /\ ready [] [WVirt] s'.2 /\ forall w, w <> WVirt -> ptr s'.2 w = ptr s.2 w).
    { destruct (ptr s.2 WVirt) eqn:Ev; [|apply wp_ret; split; [done|split; [|done]]; split_and!; try done; by intros w [<-|[]]].
      assert (ready [WVirt] [] s.2) as Hr by (split_and!; try done; by intros w [<-|[]]).
      pose proof (unmap_spec [] [] WVirt s (fun H => H) Hr) as W. unfold wp in W |- *.
      destruct (unmap WVirt s) as [[[] s1]| |] eqn:Eu; try done. destruct W as [W1 W2]. split_and!; [done|done|].
      intros w Hw. injection Eu as <-. cbn. by rewrite decide_False. }
    intros [] s1 (E1 & H1 & Ep). destruct (ptr s.2 WL2) eqn:El.
    + assert (ready [WL2] [WVirt] s1.2) as Hr.
      { destruct H1 as (A & B & _ & C). split_and!; try done. intros w [<-|[]]. by rewrite Ep. }
      pose proof (unmap_spec [] [WVirt] WL2 s1 (fun H => H) Hr) as W. unfold wp in W |- *.
      destruct (unmap WL2 s1) as [[[] s2]| |] eqn:Eu; try done. destruct W as [W1 W2]. rewrite W1. split_and!; [done| |].
      * apply (ready_incl [] [] [WL2; WVirt]); [done| |done]. by intros w [<-|[<-|[]]]; cbn; auto.
      * intros w Hw Hw2. injection Eu as <-. cbn. rewrite decide_False by done. by apply Ep.
    + apply wp_ret. split_and!; [done| |intros w Hw _; by apply Ep]. destruct H1 as (A & B & _ & C). split_and!; try done.
      intros w [<-|[<-|[]]]; [apply C; by left|by rewrite Ep].
Qed.

(** What is still held when [gone] were given back. *)
Definition left_over (gone : list window) x (r : res) : bool :=
  match r with RMap w => ptr x w && bool_decide (w ∉ gone) | _ => false end.

Lemma iounmap_spec gone w s : w ∉ gone -> holds (left_over gone s.2) s.2 ->
  wp (iounmap (D:=D) w) (fun _ s' => s'.1 = s.1 /\ ptr s'.2 = ptr s.2 /\ holds (left_over (w :: gone) s'.2) s'.2) s.
Proof.
  intros Hw H. unfold iounmap. apply wp_gets. destruct (ptr s.2 w) eqn:E.
  - unfold ev, wp, on_mod. cbn [fst snd]. split_and!; [done|done|]. eapply held_ext; [|apply holds_rel; [|exact H]].
    + intros r. unfold upd. destruct (decide (r = RMap w)) as [->|Hn].
      * cbn. rewrite E. symmetry. apply bool_decide_eq_false. intros Hi. apply Hi. by left.
      * destruct r as [v| | |]; try done. cbn. f_equal. apply bool_decide_ext. rewrite not_elem_of_cons.
        assert (v <> w) by congruence. tauto.
    + cbn. rewrite E. by apply bool_decide_eq_true.
  - apply wp_ret. split_and!; [done|done|]. eapply held_ext; [|exact H]. intros [v| | |]; try done. cbn.
    destruct (ptr s.2 v) eqn:Ev; [|done]. cbn. apply bool_decide_ext. rewrite not_elem_of_cons.
    assert (v <> w) by congruence. tauto.
Qed.

Lemma exit_spec s : tidy s.2 -> wp (soct_dp_exit (D:=D)) (fun _ s' => holds (fun _ => false) s'.2) s.
Proof.
  intros H. unfold soct_dp_exit. wp_next teardown_spec; [exact H|]. cbn beta. intros [] s1 (_ & (Ho & Hi & _ & Hw) & _).
  apply wp_gets.
  assert (holds (left_over [WVirt; WL2] s1.2) s1.2) as H1.
  { eapply held_ext; [|exact Ho]. intros [w| | |]; cbn; rewrite ?Hi; try done.
    destruct (ptr s1.2 w) eqn:E; [|done]. symmetry. apply bool_decide_eq_true. intros Hin.
    rewrite Hw in E; [done|]. by apply list_elem_of_In. }
  apply wp_bind. apply wp_mono with (Q := fun _ s' => ptr s'.2 = ptr s1.2 /\ holds (left_over [WVirt; WL2] s'.2) s'.2).
  { destruct (ptr s1.2 WVdma) eqn:E; [|by apply wp_ret]. unfold ev. apply wp_mod.
    unfold on_pipe, on_dev, DpFb.on_pipe, wp, wr. cbn [fst snd]. split; [done|].
    apply holds_use; [cbn; by rewrite E|exact H1]. }
  intros [] s2 (Ep & H2).
  wp_next (iounmap_spec [WVirt; WL2] WVdma); [by apply (bool_decide_unpack _)|exact H2|]. cbn beta. intros [] s3 (_ & Ep3 & H3).
  wp_next iounmap_spec; [|exact H3|]; [by apply (bool_decide_unpack _)|]. cbn beta. intros [] s4 (_ & Ep4 & H4).
  wp_next iounmap_spec; [|exact H4|]; [by apply (bool_decide_unpack _)|]. cbn beta. intros [] s5 (_ & Ep5 & H5).
  wp_next iounmap_spec; [|exact H5|]; [by apply (bool_decide_unpack _)|]. cbn beta. intros [] s6 (_ & Ep6 & H6).
  eapply wp_mono; [apply iounmap_spec; [|exact H6]; by apply (bool_decide_unpack _)|]. cbn beta.
  intros _ s7 (_ & _ & H7). eapply held_ext; [|exact H7]. intros [w| | |]; try done. cbn.
  destruct (ptr s7.2 w); [|done]. cbn. apply bool_decide_eq_false. intros Hn. apply Hn. by destruct w; rewrite !elem_of_cons; tauto.
Qed.
End rules.

(** ** The wait for a monitor *)

(** The sleeps of 100 ms until the time is over. *)
Definition rounds (k : kernel) : nat := Z.to_nat ((hpd_timeout_ms k + 99) / 100).
Definition monitor_seen (k : kernel) : bool := existsb (connected k) (seq 0 (S (rounds k))).

Lemma wait_from k fuel : 0 <= hpd_timeout_ms k <= 2 ^ 32 - 100 -> forall i, (i <= rounds k < fuel + i)%nat ->
  wait_monitor k fuel i (100 * Z.of_nat i) = Ret (existsb (connected k) (seq i (S (rounds k) - i))).
Proof.
  intros Ht. induction fuel as [|fuel IH]; intros i Hi; [lia|]. cbn [wait_monitor].
  replace (S (rounds k) - i)%nat with (S (rounds k - i)) by lia. cbn [seq existsb].
  destruct (connected k i); [done|]. cbn [orb].
  assert (Z.of_nat (rounds k) = (hpd_timeout_ms k + 99) / 100) as Er by (unfold rounds; pose proof (Z.div_pos (hpd_timeout_ms k + 99) 100); lia).
  pose proof (Z.div_mod (hpd_timeout_ms k + 99) 100). pose proof (Z.mod_pos_bound (hpd_timeout_ms k + 99) 100).
  destruct (Z.geb_spec (100 * Z.of_nat i) (hpd_timeout_ms k)).
  - assert (i = rounds k) as -> by lia. by rewrite Nat.sub_diag.
  - rewrite wrap_small by (unfold fits; lia). replace (100 * Z.of_nat i + 100) with (100 * Z.of_nat (S i)) by lia.
    rewrite IH by lia. by replace (S (rounds k) - S i)%nat with (rounds k - i)%nat by lia.
Qed.

(** The link comes up or an error says why not; it takes at most [rounds] sleeps. *)
Lemma link_up_ends k fuel : 0 <= hpd_timeout_ms k <= 2 ^ 32 - 100 -> (rounds k < fuel)%nat ->
  dp_link_up k fuel = Ret (if tx_ok k then if monitor_seen k then if caps_ok k && link_ok k then 0 else - EIO else - ENODEV else - EIO).
Proof.
  intros Ht Hf. unfold dp_link_up. destruct (tx_ok k); [|done]. cbn [negb].
  change 0 with (100 * Z.of_nat 0) at 1. rewrite wait_from by lia. rewrite Nat.sub_0_r. fold (monitor_seen k). cbn [mbind res_bind].
  by destruct (monitor_seen k), (caps_ok k), (link_ok k).
Qed.

(** The sum of the waits is 32 bits wide and steps over the largest timeouts: with one of the
    three largest values and no monitor the module polls for ever. *)
Lemma wait_wraps k : 2 ^ 32 - 3 <= hpd_timeout_ms k < 2 ^ 32 -> (forall i, connected k i = false) ->
  forall fuel i w, 0 <= w < 2 ^ 32 -> w mod 4 = 0 -> wait_monitor k fuel i w = Fuel.
Proof.
  intros Ht Hc. induction fuel as [|fuel IH]; intros i w Hw Hm; [done|]. cbn [wait_monitor]. rewrite Hc.
  pose proof (Z.div_mod w 4). destruct (Z.geb_spec w (hpd_timeout_ms k)); [lia|].
  apply IH; [by apply wrap_range|]. unfold wrap. rewrite Z.mod_mod_divide by (by exists (2 ^ 30)).
  rewrite Z.add_mod, Hm by lia. done.
Qed.

(** ** The bring-up *)

Section work.
Context {D : Type} {HD : Mmio D} (k : kernel) (n fuel : nat) (locks : list Z * list Z).
Abbreviation state := (((bus D * pipe) * fbs) * module)%type.
Implicit Types (s : state).
Hypothesis Ht : 0 <= hpd_timeout_ms k <= 2 ^ 32 - 100.
Hypothesis Hfuel : (rounds k < fuel)%nat.
Abbreviation log s := (wlog s.1.1.1).
Abbreviation pi s := (s.1.1.2).

(** The log ends with the setting of the clock that runs. *)
Definition clock_set s : Prop := retunable (pi s) = true -> exists l set, log s = l ++ clock_words (Some set) /\
  soct_clk_wzrd_solve (budget k).1 (pixel_clock_hz (cur (pi s))) = Some set /\ achieved_hz set = pixel_clock_hz (cur (pi s)).

Lemma parse_pixclk_spec us ws s : ~ In WPixclk us -> ~ In WPixclk ws -> retunable (pi s) = false -> ready us (WPixclk :: ws) s.2 ->
  wp (parse_pixclk k) (fun _ s' => s'.1.2 = s.1.2 /\ cur (pi s') = cur (pi s) /\ streams (pi s') = streams (pi s) /\ log s' = log s /\
    exists us', ready us' ws s'.2 /\ incl us us' /\ (forall w, In w us' -> In w us \/ w = WPixclk) /\
      (retunable (pi s') = true -> In WPixclk us' /\ dt_budget k = Some (budget k))) s.
Proof.
  intros Hu Hw Hr H. unfold parse_pixclk, budget, dt_budget. assert (ready us ws s.2) as H0 by (eapply ready_incl; [..|exact H]; [auto|intros; by right]).
  destruct (dt_pixclk k) as [nd|]; [cbn [mbind option_bind]; destruct (DpMode.parse_pixclk (np nd)) as [bd|]|].
  2, 3: apply wp_ret; split_and!; try done; exists us; split_and!; [done|apply List.incl_refl|auto|by rewrite Hr].
  wp_next (map_window_spec (D:=D) us ws); [done..|]. cbn beta. intros b s1 (-> & E1 & H1). destruct (mappable nd).
  - unfold on_pipe, on_dev, DpFb.on_pipe, wp, put. cbn [fst snd cur set_retunable streams retunable]. rewrite E1. split_and!; try done.
    exists (WPixclk :: us). split_and!; [done|by intros w ?; right|intros w [<-|]; auto|intros _; split; [by left|done]].
  - apply wp_ret. rewrite E1. split_and!; try done. exists us. split_and!; [done|apply List.incl_refl|auto|by rewrite Hr].
Qed.

(** Whatever validation answers, the mode it leaves has a clock of 32 bits. *)
Lemma validate_ok lim max_hz rt c m e m' : sane lim max_hz -> mode_ok c -> mode_ok m ->
  soct_dp_validate_mode lim max_hz rt c m = (e, m') -> mode_ok m'.
Proof.
  intros Hs Hc Hm H. destruct (Z.eq_dec e 0) as [->|He].
  { destruct rt; [by destruct (validate_clock _ _ _ _ _ Hs Hm H)|by rewrite (validate_static _ _ _ _ _ H)]. }
  destruct Hs as (_ & Hx & _). pose proof (Z.div_pos max_hz 200). unfold soct_dp_validate_mode in H.
  repeat case_match; simplify_eq; try done; unfold mode_ok, fits; cbn; lia.
Qed.

Lemma boot_clock_spec us ws s : ready us ws s.2 -> (retunable (pi s) = true -> In WPixclk us) ->
  wp (boot_clock k locks) (fun _ s' => ready us ws s'.2 /\ s'.1.2 = s.1.2 /\ streams (pi s') = streams (pi s) /\
    (exists c, cur (pi s') = with_clock c (cur (pi s))) /\
    ((retunable (pi s) = true -> sane (budget k).1 (budget k).2) -> mode_ok (cur (pi s)) -> poll_locked locks.1 = 0 ->
      clock_set s' /\ mode_ok (cur (pi s')))) s.
Proof.
  intros H Hp. unfold boot_clock. apply wp_pipe. unfold wp at 1. cbn [get gets fst snd].
  destruct s as [[[b p] f] md]. cbn [fst snd] in *.
  destruct (soct_dp_validate_mode (budget k).1 (budget k).2 true (cur p) (cur p)) as [err m] eqn:Hv.
  pose proof (validate_shape _ _ _ _ _ _ _ Hv) as Hs. destruct (retunable p) eqn:Hr.
  2: { apply wp_bind, wp_ret. apply wp_pipe. unfold wp at 1. cbn [get gets fst snd]. rewrite Hr. apply wp_ret. cbn [fst snd].
       split_and!; try done; [exists (pixel_clock_hz (cur p)); by rewrite with_clock_id|]. intros _ Hok _. split; [|done].
       intros Hr'. cbn in Hr'. by rewrite Hr in Hr'. }
  apply wp_bind, wp_pipe. unfold wp at 1, put. cbn [fst snd]. destruct (Z.eqb_spec err 0) as [->|He]; cbn [negb].
  2: { unfold wp at 1, on_pipe at 1, on_dev, DpFb.on_pipe, put. cbn [fst snd].
       apply wp_pipe. unfold wp at 1. cbn [get gets fst snd retunable set_retunable]. apply wp_ret. cbn [fst snd streams set_retunable set_cur cur].
       split_and!; try done; [by exists (pixel_clock_hz m)|]. intros Hs0 Hok _. pose proof (Hs0 eq_refl) as Hsane. split; [done|]. by apply (validate_ok _ _ _ _ _ _ _ Hsane Hok Hok Hv). }
  apply wp_ret. apply wp_pipe. unfold wp at 1. cbn [get gets fst snd retunable set_cur cur]. rewrite Hr.
  destruct (soct_clk_wzrd_solve (budget k).1 (pixel_clock_hz m)) as [set|] eqn:E.
  2: { apply wp_ret. cbn [fst snd streams set_cur cur]. split_and!; try done; [by exists (pixel_clock_hz m)|]. intros Hs0 Hok _. pose proof (Hs0 eq_refl) as Hsane.
       destruct (validate_clock _ _ _ _ _ Hsane Hok Hv) as (_ & _ & set & E' & _). by rewrite E in E'. }
  unfold ev. apply wp_mod, wp_pipe. unfold pixclk_retune, soct_clk_wzrd_retune. cbn [fst snd].
  set (rest := if poll_locked locks.1 =? 0 then [(pixclk + WZRD_APPLY, WZRD_APPLY_LOAD_SEN)] else []).
  assert (forall (l : list (Z * Z)) (err' : Z), map (fun '(r, v) => (pixclk + r, v)) l = take 3 (clock_words (Some set)) ++ rest ->
    wp (writes (D:=D) (map (fun '(r, v) => (pixclk + r, v)) l);; mret err') (fun _ q' => wlog q'.1 = wlog b ++ take 3 (clock_words (Some set)) ++ rest /\ q'.2 = set_cur m p) (b, set_cur m p)) as Hw.
  { intros l err' El. eapply (wp_writes _ _ _ (b, set_cur m p)); [apply did_refl|]. intros s1 [Hl Hx]. apply wp_ret. by rewrite Hl, El. }
  assert (forall q, wlog q.1 = wlog b ++ take 3 (clock_words (Some set)) ++ rest /\ q.2 = set_cur m p ->
    wp (mret tt : prog state unit) (fun _ s' => ready us ws s'.2 /\ s'.1.2 = f /\ streams (pi s') = streams p /\
      (exists c, cur (pi s') = with_clock c (cur p)) /\
      ((true = true -> sane (budget k).1 (budget k).2) -> mode_ok (cur p) -> poll_locked locks.1 = 0 -> clock_set s' /\ mode_ok (cur (pi s'))))
      (q, f, add_ev (Use WPixclk) md)) as Hend.
  { intros q [Hl Hx]. apply wp_ret. cbn [fst snd]. rewrite Hx. split_and!; [by apply ready_use; [apply Hp|]|done|done|by exists (pixel_clock_hz m)|].
    intros Hs0 Hok Hlk. pose proof (Hs0 eq_refl) as Hsane. destruct (validate_clock _ _ _ _ _ Hsane Hok Hv) as (Hf32 & _ & set' & E' & Ea). rewrite E in E'. injection E' as <-.
    split; [|by apply (validate_ok _ _ _ _ _ _ _ Hsane Hok Hok Hv)]. intros _. cbn [fst snd]. exists (wlog b), set. rewrite ?Hx. split_and!; [|exact E|exact Ea].
    rewrite Hl. unfold rest. by rewrite Hlk. }
  destruct (Z.eqb_spec (poll_locked locks.1) 0) as [El|El]; cbn [negb];
    (eapply wp_mono; [apply Hw; reflexivity|]; cbn beta; intros e q Hq; by apply Hend).
Qed.

(** What a display that is up leaves, from the state before its first fetch. *)
Definition running (fb fb_size : Z) (s s' : state) (reg : option Z) : Prop :=
  pi s' = stream (msa_of (cur (pi s))) (pi s) /\
  (exists cr, log s' = log s ++ start_words fb fb_size cr (cur (pi s))) /\
  if incoherent k then exists e, reg = Some e /\ info s'.2 = (e =? 0) /\ DpFb.soct_dp_fb_prepare fb fb_size (cur (pi s)) s.1.2 = Some s'.1.2
  else reg = None.

Lemma start_pipe_did {B} fb fb_size (m : soct_dp_mode) (s1 s : state) (c : Z -> prog state B) (Q : B -> state -> Prop) :
  s.1.1 = s1.1.1 ->
  (forall e q, (e = 0 -> exists cr, did s1.1.1 q
      ([(vdma + VDMA_MM2S_DMACR, VDMA_DMACR_RESET); (vdma + VDMA_MM2S_DMACR, cr); (vdma + VDMA_PARK_PTR, 0)] ++ vdma_words fb fb_size (hactive m) (vactive m)) (pi s1)) ->
    wp (c e) Q ((q, s.1.2), s.2)) ->
  wp (e ← on_pipe (vdma_start fb fb_size n (hactive m) (vactive m)); c e) Q s.
Proof.
  intros E H. apply wp_pipe. rewrite E. eapply wp_mono; [apply (start_did fb fb_size n _ _ s1.1.1 s1.1.1 []), did_refl|].
  cbn beta. intros e q (ws & Hd & Hw). apply H. intros He. destruct (Hw He) as [cr ->]. by exists cr.
Qed.

Lemma display_start_spec us fb fb_size s : ready us [WL2; WVirt] s.2 -> ~ In WL2 us -> ~ In WVirt us -> incl [WVdma; WVtc; WVidstat] us ->
  wp (start_display k n fuel fb fb_size) (fun o s' => tidy s'.2 /\ match o with Up _ reg => running fb fb_size s s' reg | _ => True end) s.
Proof.
  intros H Hl Hv Hi. unfold start_display. apply wp_pipe. unfold wp at 1. cbn [get gets fst snd]. rewrite <-!surjective_pairing.
  set (m := cur (pi s)).
  apply wp_bind. apply wp_mono with (Q := fun e s' => s'.1.1 = s.1.1 /\ if e =? 0 then exists us', ready us' [] s'.2 /\ incl us us' /\
      (incoherent k = true -> In WL2 us' /\ In WVirt us' /\ DpFb.soct_dp_fb_prepare fb fb_size m s.1.2 = Some s'.1.2)
    else tidy s'.2).
  { destruct (incoherent k).
    - eapply wp_mono; [by apply (prepare_spec k us)|]. cbn beta. intros e s1 [E1 H1]. split; [done|].
      destruct (e =? 0); [|by eapply ready_tidy]. destruct H1 as [H1 H2]. exists (WVirt :: WL2 :: us). split_and!; [done|by intros w ?; do 2 right|].
      intros _. cbn. auto.
    - apply wp_ret. split; [done|]. cbn. exists us. split_and!; [by apply (ready_incl us us [WL2; WVirt])|apply List.incl_refl|done]. }
  intros e s1 [E1 H1]. destruct (Z.eqb_spec e 0) as [->|He]; cbn [negb]; [|by apply wp_ret].
  destruct H1 as (us' & H1 & Hu & Hinc). unfold ev. apply wp_mod.
  assert (forall w, In w [WVdma; WVtc; WVidstat] -> In w us') as Hin by (intros w Hw; by apply Hu, Hi).
  apply (start_pipe_did fb fb_size m s1); [done|]. intros e q Hq. cbn [fst snd]. destruct (Z.eqb_spec e 0) as [->|He]; cbn [negb].
  2: { apply wp_ret. split; [|done]. eapply ready_tidy, ready_use; [|exact H1]. apply Hin. by left. }
  destruct (Hq eq_refl) as [cr Hd]. apply wp_mod. cbn [fst snd]. unfold vtc_start. apply wp_pipe. cbn [fst snd].
  eapply wp_mono; [by apply (writes_did _ s1.1.1 q)|]. cbn beta. intros [] q2 Hd2. cbn [fst snd].
  assert (ready us' [] (add_ev (Use WVtc) (add_ev (Use WVdma) s1.2))) as H2 by (do 2 (apply ready_use; [apply Hin; cbn; auto|]); done).
  destruct (negb _); [apply wp_ret; split; [by eapply ready_tidy|done]|].
  eapply wp_lift; [by apply link_up_ends|]. set (e := if tx_ok k then _ else _). destruct (Z.eqb_spec e 0) as [->|He]; cbn [negb].
  2: { apply wp_ret. split; [by eapply ready_tidy|done]. }
  unfold dp_start_stream. apply wp_pipe. unfold wp at 1, put. cbn [fst snd]. apply wp_mod, wp_pipe. cbn [fst snd].
  unfold wp at 1, rd. destruct (mmio_read _ _) as [v d]. cbn [fst snd].
  set (s3 := (((Bus d (wlog q2.1), stream (msa_of m) q2.2), s1.1.2), add_ev (Use WVidstat) (add_ev (Use WVtc) (add_ev (Use WVdma) s1.2)))).
  assert (ready us' [] s3.2) as H3 by (apply ready_use; [apply Hin; cbn; auto|done]).
  assert (pi s3 = stream (msa_of m) (pi s) /\ exists cr, log s3 = log s ++ start_words fb fb_size cr m) as [Ep El].
  { destruct Hd2 as [Hlog Hx]. rewrite E1 in Hlog, Hx. unfold s3. cbn [fst snd wlog]. rewrite Hx. split; [done|]. exists cr.
    rewrite Hlog. unfold start_words, scan_words. by rewrite <-!app_assoc. }
  unfold running. destruct (incoherent k) eqn:Einc; (apply wp_bind).
  - apply wp_bind. destruct (Hinc eq_refl) as (Hl2 & Hv2 & Hf). eapply wp_mono; [by apply (register_spec k us')|]. cbn beta.
    intros e' s4 (E4 & H4 & Hi4). do 2 apply wp_ret. split; [done|]. rewrite E4. split_and!; [exact Ep|exact El|]. by exists e'.
  - do 2 apply wp_ret. split; [by eapply ready_tidy|]. split_and!; [exact Ep|exact El|done].
Qed.

(** The node the framebuffer is read from, its region, and the synthesized mode. *)
Definition dt_fb : option node := if incoherent k then dt_carveout k else dt_chosen k.
Definition dt_mode : option soct_dp_mode := v ← dt_vtc k; of_read_mode (np v).

(** The module as it is loaded. *)
Definition loaded s : Prop := s.2 = module0 /\ retunable (pi s) = false.

Definition all_windows : list window := [WVdma; WVtc; WVidstat; WPs; WPixclk; WL2; WVirt].
Lemma loaded_ready s : loaded s -> ready [] all_windows s.2.
Proof.
  intros [-> _]. split_and!; [|done|by intros w []|done]. exists (fun _ => false). split; [done|]. by intros [].
Qed.

Lemma work_spec s : loaded s ->
  wp (soct_dp_work k n fuel locks) (fun o s' => tidy s'.2 /\
    match o with
    | Up _ reg => exists fbn fb fb_size m c s1, dt_fb = Some fbn /\ region fbn = Some (fb, fb_size) /\ dt_mode = Some m /\
        s1.1.2 = s.1.2 /\ cur (pi s1) = with_clock c m /\ running fb fb_size s1 s' reg /\
        ((dt_budget k = Some (budget k) -> sane (budget k).1 (budget k).2) -> mode_ok m -> poll_locked locks.1 = 0 ->
          clock_set s1 /\ mode_ok (cur (pi s1)))
    | _ => True
    end) s.
Proof.
  intros Hld. pose proof (loaded_ready s Hld) as H. destruct Hld as [_ Hr]. unfold soct_dp_work.
  wp_next (map_window_spec (D:=D) [] (tl all_windows)); [by intros []|by cbn; intuition congruence|exact H|]. cbn beta. intros b s1 (Eb & E1 & H1).
  rewrite <-Eb in H1. clear Eb. destruct b; cbn [negb]; [|apply wp_ret; split; [by eapply ready_tidy|done]].
  fold dt_fb. destruct dt_fb as [[mp fb_np [[fb fb_size]|]]|] eqn:Efb; [|by apply wp_ret; split; [eapply ready_tidy|]..].
  wp_next (map_window_spec (D:=D) [WVdma] [WVidstat; WPs; WPixclk; WL2; WVirt]); [by cbn; intuition congruence..|exact H1|]. cbn beta. intros vtc_ok s2 (Eb & E2 & H2).
  rewrite <-Eb in H2. clear Eb.
  wp_next (map_window_spec (D:=D) (if vtc_ok then [WVtc; WVdma] else [WVdma]) [WPs; WPixclk; WL2; WVirt]);
    [by destruct vtc_ok; cbn; intuition congruence|by cbn; intuition congruence|exact H2|]. cbn beta. intros stat_ok s3 (Eb & E3 & H3).
  rewrite <-Eb in H3. clear Eb.
  destruct vtc_ok; [|by apply wp_ret; split; [eapply ready_tidy|]]. destruct stat_ok; [|by apply wp_ret; split; [eapply ready_tidy|]].
  destruct (dt_vtc k) as [vtc_np|] eqn:Evtc; [|by apply wp_ret; split; [eapply ready_tidy|]].
  destruct (dt_window k) as [[wm win_np [win|]]|]; [|by apply wp_ret; split; [eapply ready_tidy|]..].
  destruct (win_np "soct,ps-base"%string); [|by apply wp_ret; split; [eapply ready_tidy|]].
  wp_next (map_window_spec (D:=D) [WVidstat; WVtc; WVdma] [WPixclk; WL2; WVirt]); [by cbn; intuition congruence..|exact H3|]. cbn beta. intros b s4 (Eb & E4 & H4).
  rewrite <-Eb in H4. clear Eb. destruct b; cbn [negb]; [|by apply wp_ret; split; [eapply ready_tidy|]].
  destruct (of_read_mode (np vtc_np)) as [m|] eqn:Em; [|by apply wp_ret; split; [eapply ready_tidy|]].
  apply wp_pipe. unfold wp at 1, put. cbn [fst snd]. set (s5 := (((s4.1.1.1, set_cur m s4.1.1.2), s4.1.2), s4.2)).
  destruct (negb (incoherent k) && _); [by apply wp_ret; split; [eapply ready_tidy|]|].
  assert (retunable (pi s5) = false) as Hr5 by (cbn; by rewrite E4, E3, E2, E1).
  wp_next (parse_pixclk_spec [WPs; WVidstat; WVtc; WVdma] [WL2; WVirt] s5); [by cbn; intuition congruence..|exact Hr5|exact H4|]. cbn beta.
  intros [] s6 (E6 & Ec6 & _ & _ & us & H6 & Hu & Hus & Hp6).
  wp_next (boot_clock_spec us [WL2; WVirt] s6); [exact H6|by intros Hq; apply Hp6|]. cbn beta. intros [] s7 (H7 & E7 & _ & (c & Ec7) & Hclk).
  assert (~ In WL2 us /\ ~ In WVirt us) as [HL HV] by (split; intros Hin; (destruct (Hus _ Hin) as [Hin'|Hin']; [cbn in Hin'; intuition congruence|done])).
  eapply wp_mono; [apply (display_start_spec us fb fb_size s7 H7 HL HV)|].
  { intros w Hw. apply Hu. cbn in *. intuition. }
  cbn beta. intros o s' [Ht' Ho]. split; [exact Ht'|]. destruct o; try done.
  exists (Node mp fb_np (Some (fb, fb_size))), fb, fb_size, m, c, s7. unfold dt_mode. rewrite Evtc. split_and!; try done.
  - rewrite E7, E6. unfold s5. cbn [fst snd]. by rewrite E4, E3, E2, E1.
  - by rewrite Ec7, Ec6.
  - rewrite Ec6 in Hclk. intros Hsane. apply Hclk. intros Hq. by apply Hsane, Hp6.
Qed.
End work.

(** ** What the module promises *)

(** C23. Whatever the device tree holds and whatever the kernel, the vendored driver and the
    hardware answer, a module that is loaded and removed gives everything back exactly once:
    its work ends, its exit ends, nothing was taken twice, given back unheld or used unmapped,
    and nothing is left.  Between the two any amount of drawing and mode setting may run. *)
Theorem module_releases {D} {HD : Mmio D} k n fuel locks (s : ((bus D * pipe) * fbs) * module) :
  0 <= hpd_timeout_ms k <= 2 ^ 32 - 100 -> (rounds k < fuel)%nat -> loaded s ->
  exists o s1, soct_dp_work k n fuel locks s = Ret (o, s1) /\
    forall s2 : ((bus D * pipe) * fbs) * module, s2.2 = s1.2 ->
      exists s3 h, soct_dp_exit s2 = Ret (tt, s3) /\ audit (fun _ => false) (klog s3.2) = Some h /\ forall r, h r = false.
Proof.
  intros Ht Hf Hl. destruct (wp_run _ _ _ (work_spec k n fuel locks Ht Hf s Hl)) as (o & s1 & E & H1 & _).
  exists o, s1. split; [done|]. intros s2 E2. rewrite <-E2 in H1.
  destruct (wp_run _ _ _ (exit_spec s2 H1)) as ([] & s3 & E3 & h & Hh & Hr). by exists s3, h.
Qed.

(** C24. A display that is up scans the synthesized mode: every register of the frame fetch and
    the timing generator was last written for it, its stream is the last one started, and on a
    retunable design the clock was last loaded with a setting for it.  On a design with an
    incoherent fetch the framebuffer is then in step with the pipeline and at rest, black in both
    memories, and registered exactly when registration said so: the state from which
    [set_par_in_step] and [screen_coherent] go on. *)
Theorem bring_up_in_step {D} {HD : Mmio D} k n fuel locks (s : ((bus D * pipe) * fbs) * module) m :
  0 <= hpd_timeout_ms k <= 2 ^ 32 - 100 -> (rounds k < fuel)%nat -> loaded s -> dirty s.1.2 = None ->
  dt_mode k = Some m -> mode_ok m -> 0 < hactive m < 2 ^ 16 -> 0 < vactive m < 2 ^ 16 ->
  (dt_budget k = Some (budget k) -> sane (budget k).1 (budget k).2) -> poll_locked locks.1 = 0 ->
  (forall fbn fb fb_size, dt_fb k = Some fbn -> region fbn = Some (fb, fb_size) ->
     0 <= fb /\ fb + fb_size + CACHE_LINE <= 2 ^ 64 /\ fb_size < 2 ^ 31) ->
  wp (soct_dp_work k n fuel locks) (fun o s' =>
    match o with
    | Up _ reg => exists fbn fb fb_size c, dt_fb k = Some fbn /\ region fbn = Some (fb, fb_size) /\
        cur s'.1.1.2 = with_clock c m /\ mode_ok (cur s'.1.1.2) /\ honest (budget k).1 fb fb_size s'.1.1 /\
        (incoherent k = true -> reg <> None /\ (info s'.2 = true <-> reg = Some 0) /\
           in_step fb fb_size s'.1.1.2 s'.1.2 /\ fresh fb (World s'.1.2 [] []) /\
           forall p, on_screen fb s'.1.2 p -> virt s'.1.2 p = 0 /\ dram s'.1.2 p = 0)
    | _ => True
    end) s.
Proof.
  intros Ht Hf Hl Hd Em Hok Hh Hv Hsane Hlk Hreg. eapply wp_mono; [by apply work_spec|]. cbn beta.
  intros o s' [_ Ho]. destruct o as [| | | | | | | | | |locked reg]; try done.
  destruct Ho as (fbn & fb & fb_size & m' & c & s1 & Ef & Er & Em' & Efb & Ec & (Ep & (cr & El) & Hinc) & Hclk).
  rewrite Em in Em'. injection Em' as <-. destruct (Hclk Hsane Hok Hlk) as [Hset Hok1].
  assert (cur s'.1.1.2 = cur s1.1.1.2) as Ecur by (by rewrite Ep).
  exists fbn, fb, fb_size, c. split_and!; [done|done|by rewrite Ecur|by rewrite Ecur| |].
  - right. rewrite Ecur, El, Ep. split_and!; [apply shows_after|cbn [streams stream]; by rewrite last_snoc|]. intros Hr.
    destruct (Hset Hr) as (l & set & Elog & Es & Ea). exists set. split_and!; [done|done|]. intros r v Hin.
    rewrite (clock_reg fb fb_size _ set cr _ r v Hin), Elog, reg_app. by rewrite (reg_in _ _ _ (proj1 (clock_words_keys set)) Hin).
  - intros Hi. rewrite Hi in Hinc. destruct Hinc as (e & -> & Hinfo & Hp). rewrite Hinfo.
    split; [done|]. split; [rewrite Z.eqb_eq; split; [by intros ->|by intros [= ->]]|].
    destruct (Hreg _ _ _ Ef Er) as (Hg1 & Hg2 & Hg3). unfold DpFb.soct_dp_fb_prepare in Hp. rewrite Z.gtb_ltb in Hp.
    rewrite wrap_mul_l, wrap_small in Hp by (rewrite Ec; unfold fits, BYTES_PER_PIXEL; cbn; nia).
    destruct (Z.ltb_spec fb_size (hactive (cur s1.1.1.2) * BYTES_PER_PIXEL * vactive (cur s1.1.1.2))); [done|]. injection Hp as Hp.
    assert (fits_carveout fb_size (cur s1.1.1.2)) as Hfit by (unfold fits_carveout, BYTES_PER_PIXEL in *; rewrite Ec in *; cbn in *; split_and!; lia).
    destruct (adopt_spec fb fb_size ltac:(done) (cur s1.1.1.2) s1.1.2 Hfit) as (A1 & A2 & A3 & A4 & A5 & A6 & A7). rewrite Hp in *.
    split_and!; [by split; [rewrite A1, Ecur|right; rewrite Ecur]| |exact A7].
    split_and!; [exact A3|cbn; by rewrite A5, Efb, Hd|done|done|]. intros p Hps. destruct (A7 p Hps) as [B1 B2]. cbn. by rewrite B1, B2.
Qed.

(** ** At a concrete design *)

(** A design with an incoherent fetch, a fixed clock and an 8 by 2 mode, its monitor plugged in
    at the third poll. *)
Definition ex_props : props := fun name =>
  if String.eqb name "hactive" then Some 8 else if String.eqb name "vactive" then Some 2 else
  if String.eqb name "fps" then Some 60 else if String.eqb name "clock-frequency" then Some 74250000 else
  if String.eqb name "soct,ps-base" then Some 0xF0000000 else Some 1.
Definition ex_node : node := Node true ex_props (Some (0x80000000, 64)).
Definition ex_kernel : kernel :=
  Kernel (Some ex_node) true (Some ex_node) None (Some ex_node) (Some ex_node) (Some ex_node) None (Some ex_node)
    true true true true 0 0 30000 true (fun i => (2 <=? i)%nat) true true true true.
Definition ex_mode : soct_dp_mode := Mode 8 1 1 1 2 1 1 1 1 1 60 74250000.
Definition ex_loaded : ((bus unit * pipe) * fbs) * module := (((Bus tt [], Pipe zero_mode false []), ex_fb), module0).
Definition ex_outcome : option outcome :=
  match soct_dp_work ex_kernel 3 400 ([1], [1]) ex_loaded with Ret (o, _) => Some o | _ => None end.

Lemma ex_up : ex_outcome = Some (Up true (Some 0)).
Proof. by vm_compute. Qed.

Lemma module_releases_witness :
  ex_outcome = Some (Up true (Some 0)) /\
  exists o s1 s3 h, soct_dp_work ex_kernel 3 400 ([1], [1]) ex_loaded = Ret (o, s1) /\ soct_dp_exit s1 = Ret (tt, s3) /\
    audit (fun _ => false) (klog s3.2) = Some h /\ h (RMap WVirt) = false.
Proof.
  split; [exact ex_up|].
  destruct (module_releases ex_kernel 3 400 ([1], [1]) ex_loaded) as (o & s1 & E & H); [by vm_compute|by apply (bool_decide_unpack _); vm_compute|by split|].
  destruct (H s1 eq_refl) as (s3 & h & E3 & Hh & Hr). exists o, s1, s3, h. split_and!; [exact E|exact E3|exact Hh|apply Hr].
Defined.

Lemma ex_budget : dt_budget ex_kernel = None.
Proof. done. Qed.

Lemma bring_up_in_step_witness :
  ex_outcome = Some (Up true (Some 0)) /\
  wp (soct_dp_work ex_kernel 3 400 ([1], [1])) (fun o s' =>
    match o with Up _ _ => in_step 0x80000000 64 s'.1.1.2 s'.1.2 /\ fresh 0x80000000 (World s'.1.2 [] []) | _ => True end) ex_loaded.
Proof.
  split; [exact ex_up|]. eapply wp_mono.
  - apply (bring_up_in_step ex_kernel 3 400 ([1], [1]) ex_loaded ex_mode).
    + by vm_compute.
    + by apply (bool_decide_unpack _); vm_compute.
    + by split.
    + reflexivity.
    + by vm_compute.
    + unfold mode_ok, fits. cbn. lia.
    + cbn. lia.
    + cbn. lia.
    + rewrite ex_budget. intros E. discriminate E.
    + by vm_compute.
    + intros fbn fb fb_size [= <-] [= <- <-]. unfold CACHE_LINE. lia.
  - intros o s' Ho. destruct o; try exact I. destruct Ho as (fbn & fb & fb_size & c & Ef & Er & _ & _ & _ & Hi).
    injection Ef as <-. injection Er as <- <-. destruct (Hi eq_refl) as (_ & _ & H1 & H2 & _). split; [exact H1|exact H2].
Defined.
