(* ===== verification/FbMode.v ===== *)
(** * Switching the console's mode from user space (binaries/linux/userspace/fbmode)

    fbmode carries the list of standard modes, computes CVT reduced blanking for any other
    geometry and sends the timing to the framebuffer driver through fbdev's [var], which
    [DpFb] receives.  The framebuffer device is a class: it answers the two ioctls. *)
From Stdlib Require Import String Ascii.
From stdpp Require Import pretty.
From S2P Require Import Prelude ClkWzrd DpMode DpFb.
#[local] Open Scope list_scope.
#[local] Abbreviation length := List.length.

(** [strtoul] is C's, here on the characters of the argument. *)
Definition chars := list ascii.

Record mode := FbMode {
  name : string; w : Z; h : Z; mfps : Z; clock_hz : Z;
  hfp : Z; hsync : Z; hbp : Z; vfp : Z; vsync : Z; vbp : Z; hpos : Z; vpos : Z }.

(** ** The modes *)

Definition standard : list mode :=
  [ FbMode "640x480@60 (DMT)" 640 480 60 25175000 16 96 48 10 2 33 0 0;
    FbMode "800x600@60 (DMT)" 800 600 60 40000000 40 128 88 1 4 23 1 1;
    FbMode "1024x768@60 (DMT)" 1024 768 60 65000000 24 136 160 3 6 29 0 0;
    FbMode "1280x720@60 (CEA)" 1280 720 60 74250000 110 40 220 5 5 20 1 1;
    FbMode "1280x1024@60 (DMT)" 1280 1024 60 108000000 48 112 248 1 3 38 1 1;
    FbMode "1920x1080@30 (CEA)" 1920 1080 30 74250000 88 44 148 4 5 36 1 1;
    FbMode "1920x1080@60 (CEA)" 1920 1080 60 148500000 88 44 148 4 5 36 1 1 ].

(** The vertical sync width names the aspect ratio. *)
Definition cvt_vsync (w h : Z) : Z :=
  if u32 (w * 3) =? u32 (h * 4) then 4 else if u32 (w * 9) =? u32 (h * 16) then 5 else
  if u32 (w * 10) =? u32 (h * 16) then 6 else if u32 (w * 4) =? u32 (h * 5) then 7 else
  if u32 (w * 9) =? u32 (h * 15) then 7 else 10.

(** [None] is the answer -1. *)
Definition cvt_rb (w h fps : Z) : option mode :=
  let vsync := cvt_vsync w h in
  if u64 (460 * fps) >=? 1000000 then None else
  let vbi := u32 (u32 (u64 (u64 (460 * h) * fps) / u64 (1000000 - u64 (460 * fps))) + 1) in
  let min_vbi := u32 (3 + vsync + 6) in
  let vbi := if vbi <? min_vbi then min_vbi else vbi in
  Some (FbMode "custom (CVT-RB)" w h fps (u64 (u64 (u32 (w + 160) * u32 (h + vbi)) * fps))
          48 32 80 3 vsync (u32 (vbi - 3 - vsync)) 1 0).

(** [%u]. *)
Definition dec (v : Z) : string := pretty (Z.to_N v).
(** [snprintf] into the 28 bytes of [mode_names]. *)
Definition cvt_name (w h fps : Z) : string := (substring 0 27 (dec w ++ "x" ++ dec h ++ "@" ++ dec fps ++ " (CVT-RB)"))%string.
Definition with_name (n : string) (m : mode) : mode :=
  FbMode n (w m) (h m) (mfps m) (clock_hz m) (hfp m) (hsync m) (hbp m) (vfp m) (vsync m) (vbp m) (hpos m) (vpos m).

(** The last entry of the geometry and rate, as both searches take it. *)
Definition last_of (l : list mode) (gw gh fps : Z) : option mode :=
  last (List.filter (fun s => (w s =? gw) && (h s =? gh) && (mfps s =? fps)) l).

Definition geo : list (Z * Z) := [(640, 480); (800, 600); (1024, 768); (1280, 720); (1280, 1024); (1920, 1080)].
Definition built (gw gh fps : Z) : list mode :=
  match last_of standard gw gh fps with
  | Some std => [std]
  | None => match cvt_rb gw gh fps with None => [] | Some m => [with_name (cvt_name gw gh fps) m] end
  end.
Definition build_modes : list mode := flat_map (fun '(gw, gh) => flat_map (built gw gh) [30; 60]) geo.

(** ** To and from fbdev *)

Definition FB_ACTIVATE_NOW : Z := 0.

(** A clock of zero is divided by. *)
Definition mode_to_var (m : mode) : res var :=
  if clock_hz m =? 0 then Undef else
  Ret (Var (w m) (h m) (w m) (h m) 0 0 24 (u32 (u64 (2000000000000 / clock_hz m + 1) / 2))
         (hbp m) (hfp m) (vbp m) (vfp m) (hsync m) (vsync m)
         ((if hpos m =? 0 then 0 else FB_SYNC_HOR_HIGH_ACT) .| (if vpos m =? 0 then 0 else FB_SYNC_VERT_HIGH_ACT))
         FB_VMODE_NONINTERLACED).

Definition refresh_mhz1000 (v : var) : Z :=
  let htotal := u32 (xres v + left_margin v + right_margin v + vhsync_len v) in
  let vtotal := u32 (yres v + upper_margin v + lower_margin v + vvsync_len v) in
  let dots := u64 (u64 (pixclock v * htotal) * vtotal) in
  if dots =? 0 then 0 else u32 (u64 (1000000000000000 + dots / 2) / dots).

(** The mode [list_modes] stars as the current one. *)
Definition is_cur (m : mode) (cur : var) : res bool :=
  if (w m =? xres cur) && (h m =? yres cur) then
    if clock_hz m =? 0 then Undef else Ret (pixclock cur =? u64 (2000000000000 / clock_hz m + 1) / 2)
  else Ret false.

(** ** The device *)

(** FBIOGET_VSCREENINFO and FBIOPUT_VSCREENINFO; a put fails or takes the var and its [activate]. *)
Class Fbdev (D : Type) := {
  fbio_get : D -> option var * D;
  fbio_put : D -> Z -> var -> bool * D }.

Record fd (D : Type) := Fd { fdev : D; puts : list var }.
Arguments Fd {D} fdev puts.
Arguments fdev {D} f.
Arguments puts {D} f.

Section fbmode.
Context {D : Type} {HD : Fbdev D}.
Abbreviation io := (prog (fd D)).

Definition get_var : io (option var) := fun s => let '(v, d) := fbio_get (fdev s) in Ret (v, Fd d (puts s)).
Definition put_var (v : var) : io bool := fun s => let '(ok, d) := fbio_put (fdev s) FB_ACTIVATE_NOW v in Ret (ok, Fd d (puts s ++ [v])).

(** [key]: what [select] and [read] deliver within the ten seconds; [tty]: whether there is anyone to ask. *)
Definition confirm_keep (tty : bool) (key : option ascii) : bool :=
  tty && match key with Some c => bool_decide (c = "y"%char \/ c = "Y"%char) | None => false end.

(** The exit status. *)
Definition apply (m : mode) (yes tty : bool) (key : option ascii) : io Z :=
  old ← get_var;
  match old with
  | None => mret 1
  | Some old =>
      v ← lift (mode_to_var m);
      ok ← put_var v;
      if negb ok then mret 1 else
      now ← get_var;
      match now with
      | None => mret 1
      | Some now =>
          if negb (xres now =? w m) || negb (yres now =? h m) || (pixclock now =? 0) then mret 1 else
          if yes || confirm_keep tty key then mret 0 else
          ok ← put_var old;
          mret (if negb ok then 1 else 0)
      end
  end.

(** ** The command line *)

Definition is_space (c : ascii) : bool := let n := Z.of_N (N_of_ascii c) in (n =? 32) || ((9 <=? n) && (n <=? 13)).
Definition digit (c : ascii) : option Z := let n := Z.of_N (N_of_ascii c) in if (48 <=? n) && (n <=? 57) then Some (n - 48) else None.
Fixpoint skip_space (s : chars) : chars := match s with c :: t => if is_space c then skip_space t else s | [] => [] end.
Fixpoint digits (v : Z) (s : chars) : Z * chars :=
  match s with c :: t => match digit c with Some d => digits (v * 10 + d) t | None => (v, s) end | [] => (v, []) end.
(** C's [strtoul] to base 10: the value and what follows it; without a digit the whole string follows. *)
Definition ULONG_MAX : Z := 2 ^ 64 - 1.
Definition strtoul (s : chars) : Z * chars :=
  let t := skip_space s in
  let '(neg, t) := match t with c :: t' => if bool_decide (c = "-"%char) then (true, t') else if bool_decide (c = "+"%char) then (false, t') else (false, t) | [] => (false, t) end in
  match t with
  | c :: _ => match digit c with
              | Some _ => let '(v, r) := digits 0 t in (if v >? ULONG_MAX then ULONG_MAX else if neg then u64 (- v) else v, r)
              | None => (0, s)
              end
  | [] => (0, s)
  end.

(** [None] is exit(2). *)
Definition arg_num (s : chars) : option Z :=
  let '(v, r) := strtoul s in match r with [] => if v =? 0 then None else Some v | _ => None end.

Definition chars_of (s : string) : chars := list_ascii_of_string s.

(** The options of [main]: whether -y was given, and the up to eight words left. *)
Fixpoint options (argv : list chars) (yes : bool) (args : list chars) : option (bool * list chars) :=
  match argv with
  | [] => Some (yes, args)
  | a :: argv =>
      if bool_decide (a = chars_of "-y") then options argv true args else
      if bool_decide (a = chars_of "-d") then match argv with [] => None | _ :: argv => options argv yes args end else
      if (length args <? 8)%nat then options argv yes (args ++ [a]) else None
  end.

(** The mode asked for, or the exit status. *)
Definition choose (args : list chars) : mode + Z :=
  match args with
  | a :: args' =>
      if bool_decide (a = chars_of "--custom") then
        match args' with
        | [a1; a2; a3] =>
            match arg_num a1, arg_num a2, arg_num a3 with
            | Some w, Some h, Some fps =>
                match last_of build_modes w h fps with
                | Some m => inl m
                | None => match cvt_rb (u32 w) (u32 h) (u32 fps) with Some m => inl m | None => inr 2 end
                end
            | _, _, _ => inr 2
            end
        | _ => inr 2
        end
      else
        match args' with
        | [] => match arg_num a with
                | Some idx => if idx >? zlen build_modes then inr 2 else
                              match nth_error build_modes (Z.to_nat (idx - 1)) with Some m => inl m | None => inr 2 end
                | None => inr 2
                end
        | _ => inr 2
        end
  | [] => inr 0
  end.

(** [opened]: whether the device could be opened. *)
Definition main (argv : list chars) (opened tty : bool) (key : option ascii) : io Z :=
  match options argv false [] with
  | None => mret 2
  | Some (yes, args) =>
      if negb opened then mret 1 else
      cur ← get_var;
      match cur with
      | None => mret 1
      | Some _ => match choose args with inl m => apply m yes tty key | inr code => mret code end
      end
  end.
End fbmode.
