(* ===== verification/FbModeProofs.v ===== *)
(** * Switching the console's mode from user space: proofs

    What the computed timings are, that the driver decodes every request to the mode it was
    made from, and that a mode is kept only when somebody asked for it. *)
From Stdlib Require Import String Ascii.
From S2P Require Import Prelude Mmio ClkWzrd DpMode DpFb DpFbProofs DpFbModes FbMode.
#[local] Open Scope list_scope.
#[local] Abbreviation length := List.length.

(** ** Reduced blanking *)

Definition vblank (m : mode) : Z := vfp m + vsync m + vbp m.
Definition htotal (m : mode) : Z := w m + hfp m + hsync m + hbp m.
Definition vtotal (m : mode) : Z := h m + vblank m.
(** 460 microseconds of a frame of [v] lines at [fps], in lines: [n] lines last longer. *)
Definition lasts_460us (fps v n : Z) : Prop := 460 * fps * v < 1000000 * n.

Lemma cvt_vsync_range gw gh : 4 <= cvt_vsync gw gh <= 10.
Proof. unfold cvt_vsync. repeat case_match; lia. Qed.

(** The lines of [cvt_rb]: one more than the quotient, the least that last long enough. *)
Lemma blank_lines gh fps : 0 <= gh -> 0 <= fps -> 460 * fps < 1000000 ->
  let n := 460 * gh * fps / (1000000 - 460 * fps) + 1 in
  lasts_460us fps (gh + n) n /\ ~ lasts_460us fps (gh + (n - 1)) (n - 1).
Proof.
  intros Hh Hf Hl n. unfold lasts_460us. set (d := 1000000 - 460 * fps) in *. set (x := 460 * gh * fps) in *.
  pose proof (Z.div_mod x d). pose proof (Z.mod_pos_bound x d). set (q := x / d) in *.
  assert (x = d * q + x mod d) as E by lia. assert (d * q = 1000000 * q - 460 * fps * q) as Eq by (unfold d; lia).
  unfold n. assert (460 * fps * (gh + (q + 1)) = x + 460 * fps * q + 460 * fps) as -> by (unfold x; lia).
  assert (460 * fps * (gh + (q + 1 - 1)) = x + 460 * fps * q) as -> by (unfold x; lia). lia.
Qed.

Lemma lasts_longer fps gh n n' : 460 * fps < 1000000 -> n <= n' -> lasts_460us fps (gh + n) n -> lasts_460us fps (gh + n') n'.
Proof.
  unfold lasts_460us. intros Hl Hn. assert ((460 * fps) * (n' - n) <= 1000000 * (n' - n)) by (apply Z.mul_le_mono_nonneg_r; lia). lia.
Qed.

(** The lines [cvt_rb] blanks. *)
Definition cvt_lines (gw gh fps : Z) : Z := Z.max (460 * gh * fps / (1000000 - 460 * fps) + 1) (cvt_vsync gw gh + 9).

Lemma cvt_rb_eq gw gh fps : 1 <= gw <= 65535 -> 1 <= gh <= 65535 -> 1 <= fps -> 460 * fps < 1000000 ->
  let n := cvt_lines gw gh fps in n < 2 ^ 30 /\
  cvt_rb gw gh fps = Some (FbMode "custom (CVT-RB)" gw gh fps ((gw + 160) * (gh + n) * fps) 48 32 80 3 (cvt_vsync gw gh) (n - 3 - cvt_vsync gw gh) 1 0).
Proof.
  intros Hw Hh Hf Hlt n. unfold cvt_rb. rewrite (wrap_small 64 (460 * fps)), Z.geb_leb by (unfold fits; lia).
  destruct (Z.leb_spec 1000000 (460 * fps)); [lia|].
  assert (0 <= 460 * gh * fps <= 460 * 65535 * 2173) by (split; [apply Z.mul_nonneg_nonneg|apply Z.mul_le_mono_nonneg]; lia).
  rewrite (wrap_small 64 (460 * gh)), (wrap_small 64 (1000000 - 460 * fps)), (wrap_small 64 (460 * gh * fps)) by (unfold fits; lia).
  unfold cvt_lines in n. set (q := 460 * gh * fps / (1000000 - 460 * fps)) in *.
  assert (0 <= q < 2 ^ 29) as Hq.
  { split; [apply Z.div_pos; lia|]. pose proof (Z.mul_div_le (460 * gh * fps) (1000000 - 460 * fps) ltac:(lia)) as Hm. fold q in Hm.
    apply Z.nle_gt. intros Hq. assert (420 * 2 ^ 29 <= (1000000 - 460 * fps) * q) by (apply Z.mul_le_mono_nonneg; lia). lia. }
  pose proof (cvt_vsync_range gw gh) as Hv. set (vs := cvt_vsync gw gh) in *.
  rewrite (wrap_small 32 q), (wrap_small 32 (q + 1)), (wrap_small 32 (3 + vs + 6)), (wrap_small 32 (gw + 160)) by (unfold fits; lia).
  assert ((if q + 1 <? 3 + vs + 6 then 3 + vs + 6 else q + 1) = n) as -> by (unfold n; zcases).
  split; [lia|]. rewrite (wrap_small 32 (gh + n)), (wrap_small 32 (n - 3 - vs)) by (unfold fits; lia).
  assert (0 <= (gw + 160) * (gh + n) <= 65695 * (2 ^ 30 + 65535)) by (split; [apply Z.mul_nonneg_nonneg|apply Z.mul_le_mono_nonneg]; lia).
  assert (0 <= (gw + 160) * (gh + n) * fps <= 65695 * (2 ^ 30 + 65535) * 2173) by (split; [apply Z.mul_nonneg_nonneg|apply Z.mul_le_mono_nonneg]; lia).
  by rewrite (wrap_small 64 ((gw + 160) * (gh + n))), wrap_small by (unfold fits; lia).
Qed.

(** CVT reduced blanking.  A rate is refused exactly when 460 microseconds are the whole
    frame; otherwise the mode has the geometry and rate asked for, the standard's horizontal
    blank of 160 pixels and front porch of 3 lines, a back porch of at least 6, a vertical blank
    longer than 460 microseconds at the rate the clock really gives - and not a line more than
    that or the minimum porches need - and its clock is exactly the dots of a second. *)
Theorem cvt_rb_blank gw gh fps : 1 <= gw <= 65535 -> 1 <= gh <= 65535 -> 1 <= fps < 2 ^ 32 ->
  match cvt_rb gw gh fps with
  | None => 1000000 <= 460 * fps
  | Some m => 460 * fps < 1000000 /\ w m = gw /\ h m = gh /\ mfps m = fps /\
      htotal m = gw + 160 /\ vfp m = 3 /\ 4 <= vsync m <= 10 /\ 6 <= vbp m /\ clock_hz m = htotal m * vtotal m * fps /\
      lasts_460us fps (vtotal m) (vblank m) /\
      (vbp m = 6 \/ ~ lasts_460us fps (vtotal m - 1) (vblank m - 1))
  end.
Proof.
  intros Hw Hh Hf. destruct (Z.le_gt_cases 1000000 (460 * fps)) as [Hle|Hlt].
  { unfold cvt_rb. rewrite (wrap_small 64 (460 * fps)), Z.geb_leb by (unfold fits; lia). by destruct (Z.leb_spec 1000000 (460 * fps)); [|lia]. }
  destruct (cvt_rb_eq gw gh fps) as [_ ->]; [lia..|]. destruct (blank_lines gh fps) as [Hlong Hshort]; [lia..|].
  pose proof (cvt_vsync_range gw gh) as Hv. unfold htotal, vtotal, vblank, cvt_lines.
  set (q := 460 * gh * fps / (1000000 - 460 * fps)) in *. set (vs := cvt_vsync gw gh) in *.
  cbn [FbMode.w FbMode.h mfps FbMode.vsync vfp vbp clock_hz FbMode.hfp FbMode.hsync FbMode.hbp].
  set (n := Z.max (q + 1) (vs + 9)). replace (3 + vs + (n - 3 - vs)) with n by lia.
  split_and!; try lia.
  - apply (lasts_longer _ _ (q + 1)); lia || done.
  - destruct (Z.le_gt_cases n (vs + 9)); [left; lia|right]. assert (n = q + 1) as -> by lia.
    by replace (gh + (q + 1) - 1) with (gh + (q + 1 - 1)) by lia.
Qed.

(** ** What the driver makes of it *)

(** The driver's mode for the program's. *)
Definition kmode (m : mode) : soct_dp_mode :=
  Mode (w m) (hfp m) (hsync m) (hbp m) (h m) (vfp m) (vsync m) (vbp m) (hpos m) (vpos m) (mfps m) (clock_hz m).

(** Two ways of rounding a quotient to the nearest. *)
Lemma round_twice x d : 0 < d -> 0 <= x -> (2 * x / d + 1) / 2 = (x + d / 2) / d.
Proof.
  intros Hd Hx. pose proof (Z.div_mod (2 * x) d ltac:(lia)) as E. pose proof (Z.mod_pos_bound (2 * x) d Hd) as Hr.
  set (a := 2 * x / d) in *. set (r := (2 * x) mod d) in *.
  pose proof (Z.div_mod (a + 1) 2 ltac:(lia)). pose proof (Z.mod_pos_bound (a + 1) 2 ltac:(lia)).
  pose proof (Z.div_mod d 2 ltac:(lia)). pose proof (Z.mod_pos_bound d 2 ltac:(lia)).
  set (q := (a + 1) / 2) in *. set (k := d / 2) in *.
  assert (a = 2 * q - 1 \/ a = 2 * q) as [Ea|Ea] by lia; rewrite Ea in E; clear Ea; clearbody q k r; clearbody a;
    apply Z.div_unique_pos with (x + k - d * q); lia.
Qed.

Lemma pixclock_rounds c : 0 < c <= 1000000000 -> u64 (2000000000000 / c + 1) / 2 = DIV_ROUND_CLOSEST_ULL PS c.
Proof.
  intros Hc. unfold DIV_ROUND_CLOSEST_ULL, PS. pose proof (Z.div_mod c 2). pose proof (Z.mod_pos_bound c 2).
  assert (0 <= 2000000000000 / c <= 2000000000000) by (split; [apply Z.div_pos; lia|apply Z.div_le_upper_bound; lia]).
  rewrite (wrap_small 64 (2000000000000 / c + 1)), (wrap_small 64), (wrap_small 32 c) by (unfold fits; lia).
  change 2000000000000 with (2 * 1000000000000). apply round_twice; lia.
Qed.

(** The request carries what the driver's own var would. *)
Lemma var_of_request m cs v : 0 < clock_hz m <= 1000000000 -> mode_to_var m = Ret v ->
  soct_dp_fb_var_to_mode v = soct_dp_fb_var_to_mode (soct_dp_fb_fill_var cs (kmode m)).
Proof.
  intros Hc. unfold mode_to_var. destruct (Z.eqb_spec (clock_hz m) 0); [lia|]. intros [= <-].
  rewrite pixclock_rounds by done. reflexivity.
Qed.

(** The driver decodes the var of [m] to [m], its clock within half a percent, and a design with
    that one mode takes it for its own. *)
Definition decodes (m : mode) : Prop := exists v c, mode_to_var m = Ret v /\
  soct_dp_fb_var_to_mode v = Ret (Some (with_clock c (kmode m))) /\ 200 * Z.abs (c - clock_hz m) <= clock_hz m /\
  forall lim max_hz, soct_dp_validate_mode lim max_hz false (kmode m) (with_clock c (kmode m)) = (0, kmode m).

Lemma listed_decode : Forall decodes build_modes.
Proof.
  assert (exists l, build_modes = l) as [l E] by eauto. vm_compute in E. subst l.
  repeat constructor; (eexists _, _; split; [vm_compute; reflexivity|split; [vm_compute; reflexivity|split; [vm_compute; discriminate|intros; vm_compute; reflexivity]]]).
Qed.

(** C25. The driver gets the mode meant.  Every listed mode, and every computed one whose clock a
    design could make at up to 240 Hz, survives the picoseconds of fbdev: the driver decodes the
    request to the same timing and rate, with a clock within half a percent, and a design fixed
    to the mode recognises it as its own. *)
Theorem driver_decodes_request m :
  In m build_modes \/ (exists gw gh fps, 1 <= gw <= 65535 /\ 1 <= gh <= 65535 /\ 1 <= fps <= 240 /\
    cvt_rb gw gh fps = Some m /\ 1000000 <= clock_hz m <= 1000000000) -> decodes m.
Proof.
  intros [Hin|(gw & gh & fps & Hw & Hh & Hf & E & Hc)]; [by apply (proj1 (List.Forall_forall _ _) listed_decode)|].
  set (n := cvt_lines gw gh fps) in *. destruct (cvt_rb_eq gw gh fps) as [Hn E']; [lia..|]. fold n in Hn, E'.
  rewrite E in E'. injection E' as ->. pose proof (cvt_vsync_range gw gh). assert (9 < n) by (unfold n, cvt_lines; lia).
  cbn [clock_hz] in Hc. clear E. set (m := FbMode _ _ _ _ _ _ _ _ _ _ _ _ _).
  assert (mode_htotal (kmode m) = gw + 160 /\ mode_vtotal (kmode m) = gh + n) as [Eh Ev].
  { unfold mode_htotal, mode_vtotal. cbn. rewrite !wrap_small by (unfold fits; lia). lia. }
  assert (clock_hz m = (gw + 160) * (gh + n) * fps) as Ec by done.
  assert (0 < (gw + 160) * (gh + n) <= 65695 * (2 ^ 24)) as HT.
  { split; [apply Z.mul_pos_pos; lia|]. assert (gh + n <= 2 ^ 24); [|apply Z.mul_le_mono_nonneg; lia].
    assert ((gw + 160) * (gh + n) * fps >= 161 * (gh + n) * 1); [|lia].
    apply Z.le_ge, Z.mul_le_mono_nonneg; [lia|apply Z.mul_le_mono_nonneg_r; lia|lia..]. }
  assert (exists v, mode_to_var m = Ret v) as [v E].
  { unfold mode_to_var. rewrite Ec. destruct (Z.eqb_spec ((gw + 160) * (gh + n) * fps) 0); [lia|by eexists]. }
  assert (forall lim max_hz, exists c, soct_dp_fb_var_to_mode (soct_dp_fb_fill_var 0 (kmode m)) = Ret (Some (with_clock c (kmode m))) /\
    200 * Z.abs (c - clock_hz m) <= clock_hz m /\ soct_dp_validate_mode lim max_hz false (kmode m) (with_clock c (kmode m)) = (0, kmode m)) as Hk.
  { intros lim max_hz. apply var_roundtrip.
    - exact Hc.
    - rewrite Eh, Ev. lia.
    - rewrite Eh, Ev. cbn [DpMode.fps pixel_clock_hz kmode]. change (mfps m) with fps. rewrite Ec. split; [lia|]. lia.
    - cbn. split; [by right|by left].
    - cbn. lia.
    - cbn. lia. }
  destruct (Hk zcu104 0) as (c & E1 & E2 & _). exists v, c. rewrite (var_of_request m 0 v) by (done || lia). split_and!; try done.
  intros lim max_hz. destruct (Hk lim max_hz) as (c' & E1' & _ & E3). rewrite E1 in E1'. injection E1' as Ecc. by rewrite Ecc.
Qed.

(** ** A switch is confirmed *)

Section device.
Context {D : Type} {HD : Fbdev D}.

(** What [apply] does to the device: nothing; the request; or the request and then the old var.  It
    succeeds with the request alone only when told or confirmed, and with both only when not. *)
Lemma apply_confirms m yes tty key (s : fd D) v : mode_to_var m = Ret v ->
  wp (apply m yes tty key) (fun code s' => exists log, puts s' = puts s ++ log /\
    ((code = 1 /\ (log = [] \/ log = [v])) \/
     (code = 0 /\ log = [v] /\ yes || confirm_keep tty key = true) \/
     (exists old, (code = 0 \/ code = 1) /\ log = [v; old] /\ yes || confirm_keep tty key = false /\ (fbio_get (fdev s)).1 = Some old))) s.
Proof.
  intros Ev. unfold apply. apply wp_bind. unfold wp at 1, get_var. destruct (fbio_get (fdev s)) as [[old|] d] eqn:E1.
  2: { apply wp_ret. exists []. split; [by rewrite app_nil_r|]. left. by split; [|left]. }
  apply wp_bind. unfold wp at 1, lift. rewrite Ev. apply wp_bind. unfold wp at 1, put_var. cbn [fdev puts].
  destruct (fbio_put d FB_ACTIVATE_NOW v) as [[|] d1]; cbn [negb].
  2: { apply wp_ret. exists [v]. split; [done|]. left. by split; [|right]. }
  apply wp_bind. unfold wp at 1, get_var. cbn [fdev puts]. destruct (fbio_get d1) as [[now|] d2].
  2: { apply wp_ret. exists [v]. split; [done|]. left. by split; [|right]. }
  destruct (_ || (pixclock now =? 0)).
  { apply wp_ret. exists [v]. split; [done|]. left. by split; [|right]. }
  destruct (yes || confirm_keep tty key) eqn:Ek.
  { apply wp_ret. exists [v]. split; [done|]. right. left. done. }
  apply wp_bind. unfold wp at 1, put_var. cbn [fdev puts]. destruct (fbio_put d2 FB_ACTIVATE_NOW old) as [ok d3].
  apply wp_ret. exists [v; old]. split; [cbn; by rewrite <-app_assoc|]. right. right. exists old. destruct ok; cbn; split_and!; auto.
Qed.

Lemma choose_code args c : choose args = inr c -> c = 0 \/ c = 2.
Proof.
  unfold choose. generalize build_modes as l. intros l.
  repeat match goal with
    | |- inr _ = _ -> _ => intros H; injection H as <-; tauto
    | |- inl _ = _ -> _ => discriminate
    | |- match ?x with _ => _ end = _ -> _ => destruct x
    end.
Qed.

Lemma mode_to_var_undef m r : mode_to_var m = r -> (forall v, r <> Ret v) -> clock_hz m = 0.
Proof. unfold mode_to_var. destruct (Z.eqb_spec (clock_hz m) 0); [done|]. intros <- H. by destruct (H _ eq_refl). Qed.

End device.

(** The arguments of a custom mode lose their upper halves on the way into [cvt_rb]: a rate that
    loses everything makes a clock of zero, and the request divides by it. *)
Lemma custom_divides_by_zero {D} {HD : Fbdev D} tty key (s : fd D) cur : (fbio_get (fdev s)).1 = Some cur -> (fbio_get (fbio_get (fdev s)).2).1 <> None ->
  main (map chars_of ["--custom"; "640"; "481"; "4294967296"]%string) true tty key s = Undef.
Proof.
  intros H1 H2. unfold main. change (options _ _ _) with (Some (false, map chars_of ["--custom"; "640"; "481"; "4294967296"]%string)).
  cbn [negb]. unfold mbind at 1, prog_bind at 1, get_var at 1. destruct (fbio_get (fdev s)) as [c d]. cbn [fst snd] in *. subst c.
  assert (exists m, choose (map chars_of ["--custom"; "640"; "481"; "4294967296"]%string) = inl m /\ mode_to_var m = Undef) as (m & -> & Em).
  { exists (FbMode "custom (CVT-RB)" 640 481 0 0 48 32 80 3 10 6 1 0). split; by vm_compute. }
  unfold apply, mbind at 1, prog_bind at 1, get_var at 1. cbn [fdev]. destruct (fbio_get d) as [[old|] d2]; [|done].
  unfold mbind at 1, prog_bind at 1, lift. by rewrite Em.
Qed.

(** ** Examples *)

(** A framebuffer that takes any var. *)
#[local] Instance obliging : Fbdev var := {| fbio_get v := (Some v, v); fbio_put _ _ v := (true, v) |}.
Definition var0 : var := Var 1280 720 1280 720 0 0 24 13468 220 110 20 5 40 5 3 0.

Lemma cvt_rb_blank_witness : exists m, cvt_rb 1366 768 60 = Some m /\ clock_hz m = htotal m * vtotal m * 60 /\ lasts_460us 60 (vtotal m) (vblank m).
Proof.
  pose proof (cvt_rb_blank 1366 768 60 ltac:(lia) ltac:(lia) ltac:(lia)) as H.
  destruct (cvt_rb 1366 768 60) as [m|] eqn:E; [|exfalso; lia]. exists m. split; [done|].
  destruct H as (_ & _ & _ & _ & _ & _ & _ & _ & Hc & Hl & _). exact (conj Hc Hl).
Defined.

Lemma driver_decodes_request_witness : exists m, cvt_rb 1366 768 60 = Some m /\ decodes m.
Proof.
  destruct (cvt_rb 1366 768 60) as [m|] eqn:E; [|by vm_compute in E]. exists m. split; [done|].
  apply driver_decodes_request. right. exists 1366, 768, 60. split_and!; try lia; [exact E|..];
    vm_compute in E; injection E as <-; cbn; lia.
Defined.

