(* ===== verification/FbImg.v ===== *)
(** * The image viewer (binaries/linux/userspace/fbimg/main.c)

    An image scaled to fit, centred and letterboxed, written row by row through [pwrite]; the
    virtual terminal taken before and given back after; the progress bar drawn by a timer; the
    wait for a key or a signal.  The decoder and the framebuffer are arguments: what the viewer
    needs of the framebuffer is the class [FbDev]. *)
From Stdlib Require Import String Ascii.
From S2P Require Import Prelude.
#[local] Open Scope list_scope.
#[local] Abbreviation length := List.length.

(** [pwrite] on an open framebuffer: the answer and the device afterwards. *)
Class FbDev (S : Type) := { fb_pwrite : list Z -> Z -> S -> Z * S }.

(** ** Where the image goes *)

(** The fields of the two screen-info records that are used. *)
Record screen := Screen { xres : Z; yres : Z; bits_per_pixel : Z; line_length : Z }.
(** The decoded image: its size and its bytes, three per pixel. *)
Record image := Img { iw : Z; ih : Z; img : list Z }.
Record place := Place { dw : Z; dh : Z; ox : Z; oy : Z }.

(** The largest destination that keeps the aspect ratio, centred; [None] is a division by zero. *)
Definition fit (v : screen) (i : image) : option place :=
  let big := (u64 (iw i * yres v) >? u64 (ih i * xres v)) in
  if (if big then iw i =? 0 else ih i =? 0) then None else
  let dw := if big then xres v else u32 (u64 (iw i * yres v) / ih i) in
  let dh := if big then u32 (u64 (ih i * xres v) / iw i) else yres v in
  let dw := if dw =? 0 then 1 else dw in
  let dh := if dh =? 0 then 1 else dh in
  Some (Place dw dh (u32 (xres v - dw) / 2) (u32 (yres v - dh) / 2)).

(** ** A row *)

(** A byte of the image, and a byte stored into the row; out of range is undefined. *)
Definition px (l : list Z) (o : Z) : res Z := if (0 <=? o) && (o <? zlen l) then Ret (nth (Z.to_nat o) l 0) else Undef.
Definition put (row : list Z) (o v : Z) : res (list Z) :=
  if (0 <=? o) && (o <? zlen row) then Ret (<[Z.to_nat o := v]> row) else Undef.

Section draw.
Context (v : screen) (i : image) (g : place).

(** The offset of the image row that screen row [y] shows. *)
Definition src_row (y : Z) : Z := u64 (u64 (u64 (u64 (u32 (y - oy g) * ih i) / dh g) * iw i) * 3).

Definition draw_pixel (y x : Z) (row : list Z) : res (list Z) :=
  let o := u64 (src_row y + u64 (u64 (x * iw i) / dw g * 3)) in
  let d := u64 (u32 (ox g + x) * 3) in
  b ← px (img i) (o + 2); row ← put row d b;
  b ← px (img i) (o + 1); row ← put row (d + 1) b;
  b ← px (img i) o; put row (d + 2) b.

Fixpoint draw_pixels (n : nat) (y x : Z) (row : list Z) : res (list Z) :=
  match n with O => Ret row | S n => row ← draw_pixel y x row; draw_pixels n y (x + 1) row end.

Definition in_image (y : Z) : bool := (y >=? oy g) && (y <? u32 (oy g + dh g)).

Definition draw_row (y : Z) : res (list Z) :=
  let row := replicate (Z.to_nat (line_length v)) 0 in
  if in_image y then draw_pixels (Z.to_nat (dw g)) y 0 row else Ret row.

(** ** The rows *)

Section device.
Context {S : Type} {F : FbDev S}.

(** The loop from row [y] on, [n] rows to go: whether every row was taken, and the device. *)
Fixpoint draw_rows (n : nat) (y : Z) (s : S) : res (bool * S) :=
  match n with
  | O => Ret (true, s)
  | Datatypes.S n =>
      row ← draw_row y;
      let '(k, s) := fb_pwrite row (y * line_length v) s in
      if negb (k =? line_length v) then Ret (false, s) else draw_rows n (y + 1) s
  end.
End device.
End draw.

(** ** The program *)

(** What is done to the virtual terminal and the framebuffer, in order. *)
Inductive ev := Graphics | Draw | Wait | TextMode | CloseVt.

(** What the system answers before the first row: the arguments, the file, the decoder, the
    device, its screen info, the row buffer, and whether a virtual terminal opens. *)
Record setup := Setup {
  args_ok : bool; file_opens : bool; decoded : option image; dev_opens : bool;
  screen_info : option screen; row_alloc : bool; vt_opens : bool }.

Section program.
Context {S : Type} {F : FbDev S}.

(** The exit status, what happened, and the framebuffer. *)
Definition main (c : setup) (s : S) : res (Z * list ev * S) :=
  if negb (args_ok c) then Ret (2, [], s) else
  if negb (file_opens c) then Ret (1, [], s) else
  match decoded c with
  | None => Ret (1, [], s)
  | Some i =>
      if negb (dev_opens c) then Ret (1, [], s) else
      match screen_info c with
      | None => Ret (1, [], s)
      | Some v =>
          if negb (bits_per_pixel v =? 24) then Ret (1, [], s) else
          match fit v i with
          | None => Undef
          | Some g =>
              if negb (row_alloc c) then Ret (1, [], s) else
              let taken := if vt_opens c then [Graphics] else [] in
              '(ok, s) ← draw_rows v i g (Z.to_nat (yres v)) 0 s;
              if negb ok then Ret (1, taken ++ [Draw] ++ (if vt_opens c then [TextMode] else []), s)
              else Ret (0, taken ++ [Draw; Wait] ++ (if vt_opens c then [TextMode; CloseVt] else []), s)
          end
      end
  end.
End program.

(** ** Progress *)

(** [struct progress_src] without the file and the clock, and [g_pct]. *)
Record progress_src := Src { size : Z; consumed : Z; g_pct : Z }.

(** [n] bytes were read.  The division is C's, towards zero. *)
Definition src_read (n : Z) (s : progress_src) : progress_src :=
  let c := consumed s + n in
  if size s >? 0 then
    let pct := Z.quot (c * 100) (size s) in Src (size s) c (if pct >? 100 then 100 else pct)
  else Src (size s) c (g_pct s).
Definition src_skip (n : Z) (s : progress_src) : progress_src := Src (size s) (consumed s + n) (g_pct s).
Definition src_eof (feof : bool) (s : progress_src) : bool := feof || (consumed s >=? size s).

(** The line the timer draws: the bytes written, for frame [frame] of the spinner. *)
Definition spin : list Z := [124; 47; 45; 92].
Definition bar (pct : Z) : list Z := map (fun k => if k <? Z.quot pct 5 then 35 else 45) (seqZ 0 20).
Definition on_tick (pct frame : Z) : list Z :=
  [13; 91] ++ bar pct ++ [93; 32]
  ++ (if pct >=? 100 then [49] else [])
  ++ (if pct >=? 10 then [48 + Z.rem (Z.quot pct 10) 10] else [])
  ++ [48 + Z.rem pct 10; 37; 32; nth (Z.to_nat (frame .& 3)) spin 0].

(** ** The wait *)

(** Where the loop of [wait_dismiss] is: at the test of [quit], about to read, in [read], about
    to pause, in [pause], out of the loop.  [raw]: the terminal was put into raw mode. *)
Inductive wpc := Test | ToRead | InRead | ToPause | InPause | Left.
Record waiter := Waiter { at_ : wpc; quit : bool; key : bool; raw : bool }.

(** What can happen: the program goes on; a key is read; the input ends or breaks; a handled
    signal arrives, which a blocked call returns from. *)
Inductive wstep : waiter -> waiter -> Prop :=
| w_quit k r : wstep (Waiter Test true k r) (Waiter Left true k false)
| w_test k r : wstep (Waiter Test false k r) (Waiter ToRead false k r)
| w_read q k r : wstep (Waiter ToRead q k r) (Waiter InRead q k r)
| w_key q k r : wstep (Waiter InRead q k r) (Waiter Left q true false)
| w_eof q k r : wstep (Waiter InRead q k r) (Waiter ToPause q k r)
| w_pause q k r : wstep (Waiter ToPause q k r) (Waiter InPause q k r)
| w_signal pc q k r : pc <> Left ->
    wstep (Waiter pc q k r) (Waiter (match pc with InRead | InPause => Test | _ => pc end) true k r).

Definition wait_start (cooked : bool) : waiter := Waiter Test false false cooked.
