(* ===== verification/FbImgProofs.v ===== *)
(** * The image viewer shows its image

    The geometry of the letterbox, the rows against a reference picture, and, over any
    framebuffer that keeps what is written, the whole screen; the console framebuffer of
    [DpFb] is one.  Then the terminal, the progress line and the wait. *)
From Stdlib Require Import String Ascii.
From stdpp Require Import relations.
From S2P Require Import Prelude Mmio ClkWzrd DpMode DpFb DpFbProofs DpFbModes FbImg.
#[local] Open Scope list_scope.
#[local] Abbreviation length := List.length.

(** ** The letterbox *)

Section picture.
Context (v : screen) (i : image).
(** A screen of at least a pixel, whose lines are long enough; an image no larger than the
    decoder's limit, three bytes per pixel. *)
Hypothesis Hv : 0 < xres v < 2 ^ 32 /\ 0 < yres v < 2 ^ 32 /\ 3 * xres v <= line_length v.
Hypothesis Hi : 0 < iw i <= 2 ^ 24 /\ 0 < ih i <= 2 ^ 24 /\ zlen (img i) = iw i * ih i * 3.

(** One side fills the screen, the other keeps the aspect ratio rounded down, but not to zero. *)
Definition letterbox (g : place) : Prop :=
  (if iw i * yres v >? ih i * xres v then dw g = xres v /\ dh g = Z.max 1 (ih i * xres v / iw i)
   else dh g = yres v /\ dw g = Z.max 1 (iw i * yres v / ih i)) /\
  1 <= dw g <= xres v /\ 1 <= dh g <= yres v /\ ox g = (xres v - dw g) / 2 /\ oy g = (yres v - dh g) / 2.

Lemma fit_spec : exists g, fit v i = Some g /\ letterbox g.
Proof.
  unfold fit. rewrite !(wrap_small 64) by (unfold fits; nia). rewrite Z.gtb_ltb.
  destruct (Z.ltb_spec (ih i * xres v) (iw i * yres v)) as [Hb|Hb].
  - destruct (Z.eqb_spec (iw i) 0); [lia|]. pose proof (Z.div_mod (ih i * xres v) (iw i)). pose proof (Z.mod_pos_bound (ih i * xres v) (iw i)).
    set (q := ih i * xres v / iw i) in *. assert (0 <= q < yres v) by nia.
    rewrite (wrap_small 32 q) by (unfold fits; lia). destruct (Z.eqb_spec (xres v) 0); [lia|].
    set (dh' := if q =? 0 then 1 else q). assert (dh' = Z.max 1 q) as Ed by (unfold dh'; zcases).
    eexists. split; [reflexivity|]. unfold letterbox. cbn [dw dh ox oy]. rewrite Z.gtb_ltb. fold q.
    rewrite !(wrap_small 32) by (unfold fits; lia). destruct (Z.ltb_spec (ih i * xres v) (iw i * yres v)); [|lia]. split_and!; first [done|lia].
  - destruct (Z.eqb_spec (ih i) 0); [lia|]. pose proof (Z.div_mod (iw i * yres v) (ih i)). pose proof (Z.mod_pos_bound (iw i * yres v) (ih i)).
    set (q := iw i * yres v / ih i) in *. assert (0 <= q <= xres v) by nia.
    rewrite (wrap_small 32 q) by (unfold fits; lia). destruct (Z.eqb_spec (yres v) 0); [lia|].
    set (dw' := if q =? 0 then 1 else q). assert (dw' = Z.max 1 q) as Ed by (unfold dw'; zcases).
    eexists. split; [reflexivity|]. unfold letterbox. cbn [dw dh ox oy]. rewrite Z.gtb_ltb. fold q.
    rewrite !(wrap_small 32) by (unfold fits; lia). destruct (Z.ltb_spec (ih i * xres v) (iw i * yres v)); [lia|]. split_and!; first [done|lia].
Qed.

(** ** A row against the picture *)

(** Byte [p] of line [y]: the channel of the pixel of the image that lies under it, blue first;
    black beside the image. *)
Definition picture (g : place) (y p : Z) : Z :=
  let x := p / 3 in
  if (oy g <=? y) && (y <? oy g + dh g) && (ox g <=? x) && (x <? ox g + dw g) then
    nth (Z.to_nat (((y - oy g) * ih i / dh g * iw i + (x - ox g) * iw i / dw g) * 3 + (2 - p mod 3))) (img i) 0
  else 0.

Context (g : place) (Hg : letterbox g).

Lemma sides : 1 <= dw g /\ 0 <= ox g /\ ox g + dw g <= xres v /\ 1 <= dh g /\ 0 <= oy g /\ oy g + dh g <= yres v.
Proof.
  destruct Hg as (_ & H1 & H2 & -> & ->). pose proof (Z.div_mod (xres v - dw g) 2). pose proof (Z.mod_pos_bound (xres v - dw g) 2).
  pose proof (Z.div_mod (yres v - dh g) 2). pose proof (Z.mod_pos_bound (yres v - dh g) 2). lia.
Qed.

(** Scaling an index into [0, n) down from [0, d). *)
Lemma scaled k n d : 0 <= k < d -> 0 < n -> 0 <= k * n / d < n.
Proof. intros Hk Hn. split; [apply Z.div_pos; nia|]. apply Z.div_lt_upper_bound; nia. Qed.

Lemma px_ok o : 0 <= o < zlen (img i) -> px (img i) o = Ret (nth (Z.to_nat o) (img i) 0).
Proof. intros. unfold px. by zcases. Qed.

Lemma put_ok row o b : 0 <= o < zlen row -> put row o b = Ret (<[Z.to_nat o := b]> row).
Proof. intros. unfold put. by zcases. Qed.

Lemma nth_put (row : list Z) o b p : 0 <= o < zlen row -> 0 <= p -> nth (Z.to_nat p) (<[Z.to_nat o := b]> row) 0 = if p =? o then b else nth (Z.to_nat p) row 0.
Proof.
  intros Ho Hp. rewrite !nth_lookup. unfold zlen in Ho. destruct (Z.eqb_spec p o) as [->|].
  - by rewrite list_lookup_insert_eq by lia.
  - by rewrite list_lookup_insert_ne by lia.
Qed.

Lemma zlen_put (row : list Z) o (b : Z) : zlen (<[Z.to_nat o := b]> row) = zlen row.
Proof. unfold zlen. by rewrite length_insert. Qed.

(** The first [k] pixels of the line are in place, nothing else is. *)
Definition drawn (y k : Z) (row : list Z) : Prop :=
  zlen row = line_length v /\
  forall p, 0 <= p < line_length v -> nth (Z.to_nat p) row 0 = if p <? 3 * (ox g + k) then picture g y p else 0.

Lemma draw_pixel_spec y k row : oy g <= y < oy g + dh g -> 0 <= k < dw g -> drawn y k row ->
  exists row', draw_pixel i g y k row = Ret row' /\ drawn y (k + 1) row'.
Proof.
  intros Hy Hk [Hlen Hrow]. destruct sides as (S1 & S2 & S3 & S4 & S5 & S6). destruct Hv as (V1 & V2 & V3). destruct Hi as (I1 & I2 & I3).
  pose proof (scaled (y - oy g) (ih i) (dh g) ltac:(lia) ltac:(lia)) as Hr. pose proof (scaled k (iw i) (dw g) ltac:(lia) ltac:(lia)) as Hc.
  unfold draw_pixel, src_row. rewrite (wrap_small 32 (y - oy g)) by (unfold fits; lia).
  rewrite (wrap_small 64 ((y - oy g) * ih i)) by (unfold fits; nia). rewrite (wrap_small 64 (k * iw i)) by (unfold fits; nia).
  set (r := (y - oy g) * ih i / dh g) in *. set (c := k * iw i / dw g) in *.
  assert (0 <= r * iw i + c < iw i * ih i) as Ho by nia.
  rewrite (wrap_small 64 r) by (unfold fits; nia). rewrite (wrap_small 64 (r * iw i)), (wrap_small 64 (r * iw i * 3)), (wrap_small 64 (c * 3)) by (unfold fits; nia).
  rewrite (wrap_small 64 (r * iw i * 3 + c * 3)) by (unfold fits; nia).
  rewrite (wrap_small 32 (ox g + k)), (wrap_small 64 ((ox g + k) * 3)) by (unfold fits; lia).
  set (o := r * iw i * 3 + c * 3). set (d := (ox g + k) * 3).
  assert (0 <= o /\ o + 2 < zlen (img i)) as [Ho1 Ho2] by (unfold o; rewrite I3; lia).
  assert (0 <= d /\ d + 2 < line_length v) as [Hd1 Hd2] by (unfold d; lia).
  rewrite !px_ok by lia. cbn [mbind res_bind]. rewrite (put_ok row) by lia. cbn [mbind res_bind].
  rewrite put_ok by (rewrite zlen_put; lia). cbn [mbind res_bind]. rewrite put_ok by (rewrite !zlen_put; lia).
  eexists. split; [reflexivity|]. split; [by rewrite !zlen_put|]. intros p Hp.
  rewrite !nth_put by (rewrite ?zlen_put; lia). rewrite Hrow by lia.
  assert (forall j, 0 <= j < 3 -> picture g y (d + j) = nth (Z.to_nat (o + (2 - j))) (img i) 0) as Hpic.
  { intros j Hj. unfold picture. assert ((d + j) / 3 = ox g + k) as -> by (unfold d; symmetry; apply (Z.div_unique_pos _ _ _ j); lia).
    assert ((d + j) mod 3 = j) as -> by (unfold d; symmetry; apply (Z.mod_unique_pos _ _ (ox g + k)); lia).
    destruct (Z.leb_spec (oy g) y), (Z.ltb_spec y (oy g + dh g)), (Z.leb_spec (ox g) (ox g + k)), (Z.ltb_spec (ox g + k) (ox g + dw g)); cbn [andb]; try lia.
    replace (ox g + k - ox g) with k by lia. fold r c. f_equal. f_equal. unfold o. lia. }
  destruct (Z.eqb_spec p (d + 2)) as [->|]; [|destruct (Z.eqb_spec p (d + 1)) as [->|]; [|destruct (Z.eqb_spec p d) as [->|]]].
  - destruct (Z.ltb_spec (d + 2) (3 * (ox g + (k + 1)))); [|lia]. rewrite Hpic by lia. f_equal. lia.
  - destruct (Z.ltb_spec (d + 1) (3 * (ox g + (k + 1)))); [|lia]. rewrite Hpic by lia. f_equal.
  - destruct (Z.ltb_spec d (3 * (ox g + (k + 1)))); [|lia]. pose proof (Hpic 0 ltac:(lia)) as Hp0. rewrite Z.add_0_r, Z.sub_0_r in Hp0. by rewrite Hp0.
  - destruct (Z.ltb_spec p (3 * (ox g + k))), (Z.ltb_spec p (3 * (ox g + (k + 1)))); try lia; done.
Qed.

Lemma draw_pixels_spec y : oy g <= y < oy g + dh g -> forall n k row, Z.of_nat n + k = dw g -> 0 <= k -> drawn y k row ->
  exists row', draw_pixels i g n y k row = Ret row' /\ drawn y (dw g) row'.
Proof.
  intros Hy. induction n as [|n IH]; intros k row Hn Hk Hd; cbn [draw_pixels].
  - assert (k = dw g) as <- by lia. by exists row.
  - destruct (draw_pixel_spec y k row Hy ltac:(lia) Hd) as (row' & -> & Hd'). cbn [mbind res_bind]. apply IH; [lia|lia|done].
Qed.

(** Every row comes out, and is the picture's line. *)
Lemma draw_row_spec y : 0 <= y < yres v -> exists row, draw_row v i g y = Ret row /\ zlen row = line_length v /\
  forall p, 0 <= p < line_length v -> nth (Z.to_nat p) row 0 = picture g y p.
Proof.
  intros Hy. destruct sides as (S1 & S2 & S3 & S4 & S5 & S6). destruct Hv as (V1 & V2 & V3). unfold draw_row.
  assert (zlen (replicate (Z.to_nat (line_length v)) 0) = line_length v) as Hlen by (unfold zlen; rewrite length_replicate; lia).
  assert (forall p, nth (Z.to_nat p) (replicate (Z.to_nat (line_length v)) 0) 0 = 0) as Hz 
    by (intros p; rewrite nth_lookup; destruct (_ !! _) eqn:E; [by apply lookup_replicate_1 in E as [-> _]|done]).
  unfold in_image. rewrite wrap_small by (unfold fits; lia). rewrite Z.geb_leb.
  destruct (Z.leb_spec (oy g) y), (Z.ltb_spec y (oy g + dh g)); cbn [andb].
  - destruct (draw_pixels_spec y ltac:(lia) (Z.to_nat (dw g)) 0 (replicate (Z.to_nat (line_length v)) 0)) as (row & E & Hl & Hr); [lia|lia| |].
    + split; [done|]. intros p Hp. rewrite Hz. destruct (Z.ltb_spec p (3 * (ox g + 0))); [|done]. unfold picture.
      assert (p / 3 < ox g) by (apply Z.div_lt_upper_bound; lia). destruct (Z.leb_spec (ox g) (p / 3)); [lia|]. by rewrite andb_false_r.
    + exists row. split_and!; [done|done|]. intros p Hp. rewrite Hr by done. destruct (Z.ltb_spec p (3 * (ox g + dw g))); [done|]. unfold picture.
      assert (ox g + dw g <= p / 3) by (apply Z.div_le_lower_bound; lia). destruct (Z.ltb_spec (p / 3) (ox g + dw g)); [lia|]. by rewrite andb_false_r.
  - eexists. split_and!; [reflexivity|done|]. intros p Hp. rewrite Hz. unfold picture. destruct (Z.ltb_spec y (oy g + dh g)); [lia|]. by rewrite andb_false_r.
  - eexists. split_and!; [reflexivity|done|]. intros p Hp. rewrite Hz. unfold picture. destruct (Z.leb_spec (oy g) y); [lia|done].
  - lia.
Qed.
End picture.

(** ** Framebuffers *)

(** What the viewer relies on: a write inside the device is taken whole, and stored. *)
Class FbKeeps (S : Type) `{F : FbDev S} := {
  fb_byte : S -> Z -> Z;
  fb_ok : Z -> S -> Prop; (* works, and has that many bytes *)
  fb_keeps : forall n row off s, fb_ok n s -> 0 <= off -> 0 < zlen row -> off + zlen row <= n ->
    exists s', fb_pwrite row off s = (zlen row, s') /\ fb_ok n s' /\
      forall p, fb_byte s' p = if (off <=? p) && (p <? off + zlen row) then nth (Z.to_nat (p - off)) row 0 else fb_byte s p }.

Section rows.
Context {S : Type} `{HF : FbKeeps S} (v : screen) (i : image) (g : place).
Hypothesis Hv : 0 < xres v < 2 ^ 32 /\ 0 < yres v < 2 ^ 32 /\ 3 * xres v <= line_length v.
Hypothesis Hi : 0 < iw i <= 2 ^ 24 /\ 0 < ih i <= 2 ^ 24 /\ zlen (img i) = iw i * ih i * 3.
Hypothesis Hg : letterbox v i g.

(** The lines before [y] show the picture; everything else is as it was. *)
Definition painted (s0 : S) (y : Z) (s : S) : Prop :=
  forall p, fb_byte s p =
    if (0 <=? p) && (p <? y * line_length v) then picture i g (p / line_length v) (p mod line_length v) else fb_byte s0 p.

Lemma draw_rows_spec size s0 : yres v * line_length v <= size -> forall n y s, Z.of_nat n + y = yres v -> 0 <= y ->
  fb_ok size s -> painted s0 y s ->
  exists s', draw_rows v i g n y s = Ret (true, s') /\ fb_ok size s' /\ painted s0 (yres v) s'.
Proof.
  intros Hsize. destruct Hv as (V1 & V2 & V3). assert (0 < line_length v) as HL by lia.
  induction n as [|n IH]; intros y s Hn Hy Hok Hp; cbn [draw_rows].
  { exists s. assert (y = yres v) as <- by lia. done. }
  destruct (draw_row_spec v i Hv Hi g Hg y ltac:(lia)) as (row & -> & Hlen & Hrow). cbn [mbind res_bind].
  destruct (fb_keeps size row (y * line_length v) s Hok) as (s' & -> & Hok' & Hb); [nia|lia|rewrite Hlen; nia|].
  rewrite Hlen, Z.eqb_refl. cbn [negb]. apply IH; [lia|lia|done|]. intros p. rewrite Hb, Hlen, Hp.
  destruct (Z.leb_spec (y * line_length v) p), (Z.ltb_spec p (y * line_length v + line_length v)); cbn [andb].
  - destruct (Z.leb_spec 0 p); [|nia]. destruct (Z.ltb_spec p ((y + 1) * line_length v)); [|nia]. cbn [andb].
    assert (p / line_length v = y) as -> by (symmetry; apply (Z.div_unique_pos _ _ _ (p - y * line_length v)); lia).
    assert (p mod line_length v = p - y * line_length v) as -> by (symmetry; apply (Z.mod_unique_pos _ _ y); lia).
    apply Hrow. lia.
  - destruct (Z.leb_spec 0 p), (Z.ltb_spec p (y * line_length v)), (Z.ltb_spec p ((y + 1) * line_length v)); cbn [andb]; try nia; done.
  - destruct (Z.leb_spec 0 p), (Z.ltb_spec p (y * line_length v)), (Z.ltb_spec p ((y + 1) * line_length v)); cbn [andb]; try nia; done.
  - nia.
Qed.
End rows.

(** ** The console framebuffer is one *)

Section console.
Context (phys : Z) (s0 : fbs).

#[local] Instance console_dev : FbDev fbs :=
  {| fb_pwrite row off s := let '(n, _, s') := soct_dp_fb_write phys false row (zlen row) off s in (n, s') |}.

(** It works while its geometry is that of [s0], and its state comes from [s0] by a run of the
    coherence machine. *)
Definition console_ok (n : Z) (s : fbs) : Prop :=
  geo phys s /\ n = stride s0 * height s0 * frames s0 /\ n < 2 ^ 32 /\ same_geo s0 s /\ rtc (step phys) (World s0 [] []) (World s [] []).

#[local] Instance console_keeps : FbKeeps fbs.
Proof.
  refine {| fb_byte s p := virt s (phys + p); fb_ok := console_ok |}.
  intros n row off s (Hg & Hn & Hlt & Hsame & Hrun) Ho Hl Ht.
  pose proof Hsame as (Ew & Eh & Es & Ef). assert (stride s * height s * frames s = n) as En by (rewrite Es, Eh, Ef; lia).
  assert (smem_len s = n) as Esm by (unfold smem_len; rewrite En; apply wrap_small; unfold fits; destruct Hg as (? & ? & ? & -> & ? & ? & _); nia).
  destruct (write_run phys s Hg row off [] [] Ho Hl ltac:(lia) ltac:(lia)) as (s' & E & Hvirt & Hgeo & Hr).
  exists s'. unfold fb_pwrite, console_dev. rewrite E. split; [done|]. split.
  - destruct (same_geo_areas phys _ _ Hgeo) as (G & _). split_and!; [auto|done|done| |by etrans].
    destruct Hgeo as (? & ? & ? & ?). unfold same_geo. split_and!; congruence.
  - intros p. rewrite Hvirt. unfold memcpy.
    assert ((phys + off <=? phys + p) = (off <=? p)) as -> by (apply eq_true_iff_eq; rewrite !Z.leb_le; lia).
    assert ((phys + p <? phys + off + zlen row) = (p <? off + zlen row)) as -> by (apply eq_true_iff_eq; rewrite !Z.ltb_lt; lia).
    by replace (phys + p - (phys + off)) with (p - off) by lia.
Defined.

Lemma console_start : fresh phys (World s0 [] []) -> stride s0 * height s0 * frames s0 < 2 ^ 32 ->
  console_ok (stride s0 * height s0 * frames s0) s0.
Proof. intros (Hg & _) Hlt. by split_and!. Qed.
End console.

(** A viewer that gets everything it asks for. *)
Definition all_given (c : setup) (v : screen) (i : image) : Prop :=
  args_ok c = true /\ file_opens c = true /\ decoded c = Some i /\ dev_opens c = true /\ screen_info c = Some v /\
  bits_per_pixel v = 24 /\ row_alloc c = true.

Lemma main_given {S} {F : FbDev S} c v i g (s : S) : all_given c v i -> fit v i = Some g ->
  main c s = ('(ok, s) ← draw_rows v i g (Z.to_nat (yres v)) 0 s;
    let taken := if vt_opens c then [Graphics] else [] in
    if negb ok then Ret (1, taken ++ [Draw] ++ (if vt_opens c then [TextMode] else []), s)
    else Ret (0, taken ++ [Draw; Wait] ++ (if vt_opens c then [TextMode; CloseVt] else []), s)).
Proof. intros (E1 & E2 & E3 & E4 & E5 & E6 & E7) Eg. unfold main. by rewrite E1, E2, E3, E4, E5, E6, Eg, E7. Qed.

(** C37. The viewer on the console framebuffer: the whole visible frame becomes the image, scaled
    to fit with its aspect ratio, centred on black, byte for byte the reference picture; and from
    there the system comes to rest with the scanout fetching exactly that picture. *)
Theorem image_reaches_screen phys c v i s0 :
  all_given c v i -> 0 < iw i <= 2 ^ 24 /\ 0 < ih i <= 2 ^ 24 /\ zlen (img i) = iw i * ih i * 3 ->
  xres v = width s0 -> yres v = height s0 -> line_length v = stride s0 ->
  fresh phys (World s0 [] []) -> stride s0 * height s0 * frames s0 < 2 ^ 32 ->
  exists g s', letterbox v i g /\
    main (F := console_dev phys) c s0 = Ret (0, (if vt_opens c then [Graphics] else []) ++ [Draw; Wait] ++ (if vt_opens c then [TextMode; CloseVt] else []), s') /\
    (forall y p, 0 <= y < yres v -> 0 <= p < line_length v -> virt s' (phys + (y * line_length v + p)) = picture i g y p) /\
    exists w', rtc (step phys) (World s' [] []) w' /\
      forall y p, 0 <= y < yres v -> 0 <= p < line_length v -> dram (fb w') (phys + (y * line_length v + p)) = picture i g y p.
Proof.
  intros Hc Hi Ex Ey El Hf Hlt. pose proof Hf as ((Hp & Hw & Hh & Hst & Hs32 & Hfr & Hv32 & Hend) & _). unfold BYTES_PER_PIXEL in *. cbn [fb] in *.
  assert (0 < xres v < 2 ^ 32 /\ 0 < yres v < 2 ^ 32 /\ 3 * xres v <= line_length v) as Hv by (rewrite Ex, Ey, El; split_and!; first [lia|nia]).
  destruct (fit_spec v i Hv Hi) as (g & Eg & Hg). exists g.
  destruct (draw_rows_spec (HF := console_keeps phys s0) v i g Hv Hi Hg (stride s0 * height s0 * frames s0) s0 ltac:(rewrite Ey, El; nia)
    (Z.to_nat (yres v)) 0 s0 ltac:(lia) ltac:(lia) (console_start phys s0 Hf Hlt)) as (s' & E & (Hg' & _ & _ & (_ & Eh & Es & Efr) & Hrun) & Hpaint).
  { intros p. by destruct (0 <=? p) eqn:E0, (p <? 0 * line_length v) eqn:E1; cbn [andb]; try done; apply Z.leb_le in E0; apply Z.ltb_lt in E1; lia. }
  assert (forall y p, 0 <= y < yres v -> 0 <= p < line_length v -> 0 <= y * line_length v /\ y * line_length v + p < yres v * line_length v) as Hin.
  { intros y p Hy Hpp. pose proof (Z.mul_le_mono_nonneg_r (y + 1) (yres v) (line_length v)). split; [apply Z.mul_nonneg_nonneg; lia|lia]. }
  exists s'. assert (forall y p, 0 <= y < yres v -> 0 <= p < line_length v -> virt s' (phys + (y * line_length v + p)) = picture i g y p) as Hpic.
  { intros y p Hy Hpp. destruct (Hin y p Hy Hpp). specialize (Hpaint (y * line_length v + p)). cbn in Hpaint. rewrite Hpaint.
    destruct (Z.leb_spec 0 (y * line_length v + p)), (Z.ltb_spec (y * line_length v + p) (yres v * line_length v)); cbn [andb]; try lia.
    f_equal; [symmetry; apply (Z.div_unique_pos _ _ _ p); lia|symmetry; apply (Z.mod_unique_pos _ _ y); lia]. }
  split_and!; [done|rewrite (main_given c v i g s0 Hc Eg), E; reflexivity|exact Hpic|].
  destruct (finish phys (World s' [] [])) as (f' & Hr & Hvirt & Hd). exists (World f' [] []). split; [exact Hr|]. intros y p Hy Hpp.
  pose proof (steps_good phys _ _ Hr (steps_good phys _ _ Hrun (fresh_good phys _ Hf))) as Hgood.
  cbn [fb] in Hvirt |- *. rewrite <-Hpic, <-Hvirt by done. apply (good_rest phys (World f' [] []) Hgood); [done|done|constructor|].
  cbn [fb]. destruct (same_geo_areas phys s' f') as (_ & _ & _ & Hs); [exact (steps_geo phys _ _ Hr)|]. apply Hs. unfold on_screen. rewrite Es, Eh, Efr, <-El, <-Ey.
  destruct (Hin y p Hy Hpp). assert (yres v * line_length v <= line_length v * (yres v * frames s0)) by (destruct Hfr as [-> | ->]; lia). lia.
Qed.

(** ** The terminal *)

(** However the viewer ends, a terminal that opened and was silenced is set back to text after
    the last row, and the status says whether the picture was shown. *)
Lemma terminal_given_back {S} {F : FbDev S} c (s : S) st evs s' : main c s = Ret (st, evs, s') ->
  (st = 0 <-> In Wait evs) /\ (In Graphics evs -> vt_opens c = true) /\
  (vt_opens c = true -> In Draw evs -> exists a b, evs = a ++ TextMode :: b /\ In Graphics a /\ In Draw a /\ ~ In Graphics b /\ ~ In Draw b).
Proof.
  unfold main. intros H. repeat (case_match; [injection H as <- <- <-; by cbn; split_and!; [split; [lia|]|..]|]).
  destruct (decoded c) as [i|]; [|injection H as <- <- <-; by cbn; split_and!; [split; [lia|]|..]].
  destruct (negb (dev_opens c)); [injection H as <- <- <-; by cbn; split_and!; [split; [lia|]|..]|].
  destruct (screen_info c) as [v|]; [|injection H as <- <- <-; by cbn; split_and!; [split; [lia|]|..]].
  destruct (negb (bits_per_pixel v =? 24)); [injection H as <- <- <-; by cbn; split_and!; [split; [lia|]|..]|].
  destruct (fit v i) as [g|]; [|done].
  destruct (negb (row_alloc c)); [injection H as <- <- <-; by cbn; split_and!; [split; [lia|]|..]|].
  destruct (draw_rows _ _ _ _ _ _) as [[[|] s1]| |]; cbn [mbind res_bind negb] in H; try done;
    injection H as <- <- <-; destruct (vt_opens c); cbn; split_and!; try done; try (split; [done|intuition congruence]); try (split; [by auto|by auto]); try (intuition congruence).
  - intros _ _. exists [Graphics; Draw; Wait], [CloseVt]. split_and!; [done|cbn; auto|cbn; auto|cbn; intuition congruence..].
  - intros _ _. exists [Graphics; Draw], []. split_and!; [done|cbn; auto|cbn; auto|cbn; intuition congruence..].
Qed.

(** ** Progress *)

(** What the callbacks can do to the meter: reads and skips of the input. *)
Inductive metered : progress_src -> Prop :=
| metered_start n : metered (Src n 0 0)
| metered_read n s : 0 <= n -> metered s -> metered (src_read n s)
| metered_skip n s : 0 <= n -> metered s -> metered (src_skip n s).

Lemma metered_range s : metered s -> 0 <= consumed s /\ 0 <= g_pct s <= 100.
Proof.
  induction 1 as [n|n s Hn _ [IH1 IH2]|n s Hn _ [IH1 IH2]]; cbn; [lia| |lia]. unfold src_read. rewrite Z.gtb_ltb.
  destruct (Z.ltb_spec 0 (size s)); cbn; [|lia]. rewrite Z.gtb_ltb. rewrite Z.quot_div_nonneg by lia.
  pose proof (Z.div_pos ((consumed s + n) * 100) (size s)). zcases.
Qed.

(** So the progress line always fits its 40 bytes. *)
Lemma progress_fits s frame : metered s -> 28 <= zlen (on_tick (g_pct s) frame) <= 30.
Proof.
  intros H. destruct (metered_range s H) as [_ Hp]. unfold on_tick, zlen. rewrite !length_app. unfold bar. rewrite length_map, length_seqZ.
  destruct (g_pct s >=? 100), (g_pct s >=? 10); cbn; lia.
Qed.

(** ** The wait *)

(** The viewer leaves only for a key or a signal, with the terminal as it was found. *)
Lemma wait_ends cooked w : rtc wstep (wait_start cooked) w -> at_ w = Left -> (key w = true \/ quit w = true) /\ raw w = false.
Proof.
  intros H. remember (wait_start cooked) as w0 eqn:E0.
  assert (at_ w0 = Left -> (key w0 = true \/ quit w0 = true) /\ raw w0 = false) as H0 by (by rewrite E0).
  clear E0. induction H as [|a b d Hs _ IH]; [done|]. apply IH. destruct Hs; cbn; try done; auto. by destruct pc.
Qed.

(** A signal that arrives between the test of [quit] and the call that blocks is recorded and
    then slept through: the viewer blocks although it was told to leave, and only a second
    signal gets it out of [pause]. *)
Lemma signal_lost cooked : rtc wstep (wait_start cooked) (Waiter InPause true false cooked) /\
  forall w, wstep (Waiter InPause true false cooked) w -> w = Waiter Test true false cooked.
Proof.
  split.
  - eapply rtc_l; [apply w_test|]. eapply rtc_l; [by apply w_signal|]. eapply rtc_l; [apply w_read|]. eapply rtc_l; [apply w_eof|].
    apply rtc_once, w_pause.
  - intros w Hs. by inversion Hs.
Qed.

(** ** On a concrete screen *)

Definition ex_setup : setup := Setup true true (Some (Img 1 1 [10; 20; 30])) true (Some (Screen 8 2 24 24)) true true.
Definition ex_image : image := Img 1 1 [10; 20; 30].

Lemma image_reaches_screen_witness : exists s', main (F := console_dev 4096) ex_setup ex_fb = Ret (0, [Graphics; Draw; Wait; TextMode; CloseVt], s') /\
  virt s' (4096 + (24 + 9)) = 30.
Proof.
  destruct (image_reaches_screen 4096 ex_setup (Screen 8 2 24 24) ex_image ex_fb) as (g & s' & Hg & E & Hp & _).
  - unfold all_given. cbn. auto 10.
  - cbn [iw ih ex_image]. split_and!; [lia..|reflexivity].
  - reflexivity.
  - reflexivity.
  - reflexivity.
  - exact ex_fresh.
  - cbn. lia.
  - exists s'. split; [exact E|]. change (24 + 9) with (1 * line_length (Screen 8 2 24 24) + 9). rewrite Hp by (cbn; lia).
    destruct Hg as (H1 & _ & _ & H4 & H5). cbn in H1. destruct H1 as [Eh Ew]. rewrite Eh in H5. rewrite Ew in H4. unfold picture.
    rewrite Eh, Ew, H4, H5. reflexivity.
Defined.
