(* ===== verification/Doom.v ===== *)
(** * The game on the console's framebuffer (binaries/linux/userspace/doom/doomgeneric_soct.c)

    The platform layer under the engine: a frame of palette indices is compared with the last
    one, the rows that changed are expanded by two workers into a staging slab of whole lines
    and written to the framebuffer, into the hidden frame when there are two, which a pan then
    shows.  The framebuffer is a byte store behind [pwrite]; the engine's screen, its palette
    and its resolution are parameters. *)
From S2P Require Import Prelude.

Definition memory : Type := Z -> Z.
Definition store (p v : Z) (m : memory) : memory := fun q => if q =? p then v else m q.
Definition memcpy (dst src n : Z) (m : memory) : memory := fun p => if (dst <=? p) && (p <? dst + n) then m (src + (p - dst)) else m p.
(** [pwrite]: bytes of another store, all of them taken. *)
Definition pwrite (buf : memory) (from n off : Z) (m : memory) : memory :=
  fun p => if (off <=? p) && (p <? off + n) then buf (from + (p - off)) else m p.

(** The fields of the two fbdev records that are used. *)
Record fb_info := FbInfo { xres : Z; yres : Z; yres_virtual : Z; line_length : Z }.

(** [scale], [x0], [y0]. *)
Record layout := Layout { scale : Z; x0 : Z; y0 : Z }.

Record dg := Dg {
  framebuf : memory; prev : Z -> list Z; pat : Z -> list Z; snap : Z -> list Z;
  write_rows : list Z; expand_row : Z -> bool; was_changed : Z -> bool;
  back : Z; screen : memory; yoffset : Z }.

Definition set_framebuf m s := Dg m (prev s) (pat s) (snap s) (write_rows s) (expand_row s) (was_changed s) (back s) (screen s) (yoffset s).
Definition set_prev p s := Dg (framebuf s) p (pat s) (snap s) (write_rows s) (expand_row s) (was_changed s) (back s) (screen s) (yoffset s).
Definition set_screen m s := Dg (framebuf s) (prev s) (pat s) (snap s) (write_rows s) (expand_row s) (was_changed s) (back s) m (yoffset s).
Definition set_back b o s := Dg (framebuf s) (prev s) (pat s) (snap s) (write_rows s) (expand_row s) (was_changed s) b (screen s) o.

Definition colour : Type := Z * Z * Z.
Definition blue (c : colour) : Z := c.1.1.
Definition green (c : colour) : Z := c.1.2.
Definition red (c : colour) : Z := c.2.

Section doom.
(** DOOMGENERIC_RESX and DOOMGENERIC_RESY of the engine's build. *)
Context (RESX RESY : Z).

(** ** Set-up ([DG_Init]) *)

(** [None]: the screen is too small. *)
Definition make_layout (v : fb_info) : option layout :=
  if (xres v <? RESX) || (yres v <? RESY) then None else
  let scale := xres v / RESX in
  let scale := if yres v / RESY <? scale then yres v / RESY else scale in
  let scale := if scale >? 8 then 8 else scale in
  Some (Layout scale ((xres v - RESX * scale) / 2) ((yres v - RESY * scale) / 2)).

Context (v : fb_info) (g : layout).
Abbreviation LL := (line_length v).

(** [flip] before the mapping is tried, and after it failed. *)
Definition two_frames : bool := yres_virtual v >=? 2 * yres v.

(** The letterbox loop: slab-sized writes of black lines from line [y] on. *)
Fixpoint letterbox (fuel : nat) (y total : Z) (slab scr : memory) : memory :=
  match fuel with
  | O => scr
  | S fuel => if y <? total then
        let lines := total - y in
        let lines := if lines >? RESY * scale g then RESY * scale g else lines in
        letterbox fuel (y + RESY * scale g) total slab (pwrite slab 0 (lines * LL) (y * LL) scr)
      else scr
  end.

(** The state before the first frame, and [flip] and [fbmap].  [mapped]: what [mmap] answers. *)
Definition init (want_mmap mapped : bool) (old : memory) : dg * bool * bool :=
  let flip := negb want_mmap && two_frames in
  let total := yres v * (if flip then 2 else 1) in
  let scr := letterbox (Z.to_nat total) 0 total (fun _ => 0) old in
  let s := Dg (fun _ => 0) (fun _ => replicate (Z.to_nat RESX) 0) (fun _ => []) (fun _ => []) [] (fun _ => false) (fun _ => false)
              (if flip then 1 else 0) scr 0 in
  if negb want_mmap then (s, flip, false) else
  if mapped then (s, false, true) else (s, two_frames, false).

(** ** One frame *)

(** [pat[i]]: blue, green and red, [scale] times over. *)
Definition pattern (c : colour) : list Z := concat (replicate (Z.to_nat (scale g)) [blue c; green c; red c]).

(** [DG_DrawFrame] up to the start barrier; [colours] when the palette changed. *)
Definition draw_frame (flip : bool) (frame : list (list Z)) (colours : option (Z -> colour)) (s : dg) : dg :=
  let pat := match colours with Some c => fun i => pattern (c i) | None => pat s end in
  let force := match colours with Some _ => true | None => false end in
  let row y := nth (Z.to_nat y) frame [] in
  let changed y := force || negb (bool_decide (row y = prev s y)) in
  Dg (framebuf s) (prev s) pat (fun y => if changed y then row y else snap s y)
     (List.filter (fun y => changed y || (flip && was_changed s y)) (seqZ 0 RESY)) changed changed
     (back s) (screen s) (yoffset s).

(** The row's pixels from [dst] on, each [scale3] bytes. *)
Definition expand_line (pat : Z -> list Z) (row : list Z) (line : Z) (m : memory) : memory :=
  (foldl (fun '(m, dst) i =>
     (foldl (fun m b => store (dst + b) (nth (Z.to_nat b) (pat i) 0) m) m (seqZ 0 (scale g * 3)), dst + scale g * 3)) (m, line) row).1.
(** All the row's lines. *)
Definition expand_lines (pat : Z -> list Z) (row : list Z) (line : Z) (m : memory) : memory :=
  foldl (fun m r => memcpy (line + r * LL) line (RESX * (scale g * 3)) m) (expand_line pat row line m) (seqZ 1 (scale g - 1)).

Definition expand (fbmap : bool) (s : dg) (y : Z) : dg :=
  if negb (expand_row s y) then s else
  let row := snap s y in
  let s := set_prev (fun y' => if y' =? y then row else prev s y') s in
  if fbmap then set_screen (expand_lines (pat s) row ((y0 g + y * scale g) * LL + x0 g * 3) (screen s)) s
  else set_framebuf (expand_lines (pat s) row (y * scale g * LL + x0 g * 3) (framebuf s)) s.

(** [spawn_workers]: by the number of harts online. *)
Definition nworkers_of (ncpu : Z) : Z := if ncpu >=? 2 then 2 else 1.

(** A worker's share of [write_rows]. *)
Definition band_from (nworkers wi : Z) (s : dg) : Z := wi * (zlen (write_rows s) / nworkers).
Definition band_to (nworkers wi : Z) (s : dg) : Z :=
  if wi =? nworkers - 1 then zlen (write_rows s) else band_from nworkers wi s + zlen (write_rows s) / nworkers.
Definition band (nworkers wi : Z) (s : dg) : list Z :=
  take (Z.to_nat (band_to nworkers wi s - band_from nworkers wi s)) (drop (Z.to_nat (band_from nworkers wi s)) (write_rows s)).

(** Between the barriers: the worker's one write. *)
Definition band_write (fbmap : bool) (nworkers : Z) (s : dg) (wi : Z) : dg :=
  let from := band_from nworkers wi s in let to := band_to nworkers wi s in
  if negb fbmap && (from <? to) then
    let r0 := nth (Z.to_nat from) (write_rows s) 0 in
    let r1 := nth (Z.to_nat (to - 1)) (write_rows s) 0 in
    set_screen (pwrite (framebuf s) (r0 * scale g * LL) ((r1 - r0 + 1) * scale g * LL)
                  ((back s * yres v + y0 g + r0 * scale g) * LL) (screen s)) s
  else s.

(** The first worker, when every write has landed. *)
Definition pan (flip : bool) (s : dg) : dg := if flip then set_back (back s .^ 1) (back s * yres v) s else s.

(** [blit_band] of all workers for one frame: the expansions in the order [rows], then the writes
    in the order [ws], then the pan. *)
Definition blit (flip fbmap : bool) (nworkers : Z) (rows ws : list Z) (s : dg) : dg :=
  pan flip (foldl (band_write fbmap nworkers) (foldl (expand fbmap) s rows) ws).

(** One frame: the barriers order the phases, nothing orders the workers within one. *)
Inductive frame_step (flip fbmap : bool) (nworkers : Z) (frame : list (list Z)) (colours : option (Z -> colour)) : dg -> dg -> Prop :=
| FrameStep s rows ws :
    let s1 := draw_frame flip frame colours s in
    rows ≡ₚ flat_map (fun wi => band nworkers wi s1) (seqZ 0 nworkers) -> ws ≡ₚ seqZ 0 nworkers ->
    frame_step flip fbmap nworkers frame colours s (blit flip fbmap nworkers rows ws s1).
End doom.
