(* ===== verification/DoomProofs.v ===== *)
(** * The game on the console's framebuffer: proofs

    What an expansion and a write do to the two stores, then the invariant of the frames: the
    slab and the visible frame hold the last engine frame in its palette, and the hidden one
    is at most one frame behind. *)
From Stdlib Require Import Sorted.
From S2P Require Import Prelude Doom.

(** ** Runs of bytes *)

Lemma store_run (f : Z -> Z) dst n m p : 0 <= n ->
  foldl (fun m b => store (dst + b) (f b) m) m (seqZ 0 n) p = if (dst <=? p) && (p <? dst + n) then f (p - dst) else m p.
Proof.
  intros Hn. apply (foldl_seqZ_ind _ (fun k m' => m' p = if (dst <=? p) && (p <? dst + k) then f (p - dst) else m p) m 0 n Hn); [zcases|].
  intros k m' Hk E. unfold store. destruct (Z.eqb_spec p (dst + k)) as [->|].
  - replace (dst + k - dst) with k by lia. zcases.
  - rewrite E. zcases.
Qed.

Section doom.
Context (RESX RESY : Z) (v : fb_info) (g : layout).
Abbreviation LL := (line_length v).
Abbreviation SC := (scale g).
Abbreviation S3 := (scale g * 3).

(** The layout fits the screen: what [make_layout] gives when lines hold the visible pixels. *)
Definition layout_ok : Prop :=
  0 < RESX /\ 0 < RESY /\ 1 <= SC <= 8 /\ 0 <= x0 g /\ x0 g + RESX * SC <= xres v /\
  0 <= y0 g /\ y0 g + RESY * SC <= yres v /\ 3 * xres v <= LL.

Lemma make_layout_ok : 0 < RESX -> 0 < RESY -> 3 * xres v <= LL -> make_layout RESX RESY v = Some g -> layout_ok.
Proof.
  intros HX HY HL. unfold make_layout. destruct (Z.ltb_spec (xres v) RESX); [done|]. destruct (Z.ltb_spec (yres v) RESY); [done|]. cbn [orb].
  set (a := xres v / RESX). set (b := yres v / RESY).
  assert (1 <= a /\ RESX * a <= xres v) as [Ha Ha'] by (split; [apply Z.div_le_lower_bound; lia|apply Z.mul_div_le; lia]).
  assert (1 <= b /\ RESY * b <= yres v) as [Hb Hb'] by (split; [apply Z.div_le_lower_bound; lia|apply Z.mul_div_le; lia]).
  set (c := if b <? a then b else a). assert (1 <= c /\ c <= a /\ c <= b) as (Hc & Hca & Hcb) by (unfold c; zcases).
  set (d := if c >? 8 then 8 else c). assert (1 <= d <= 8 /\ d <= c) as [Hd Hdc] by (unfold d; zcases).
  intros [= E]. unfold layout_ok. rewrite <-E. cbn [scale x0 y0]. clear E.
  assert (RESX * d <= RESX * a) by (apply Z.mul_le_mono_nonneg_l; lia).
  assert (RESY * d <= RESY * b) by (apply Z.mul_le_mono_nonneg_l; lia).
  pose proof (Z.div_mod (xres v - RESX * d) 2). pose proof (Z.mod_pos_bound (xres v - RESX * d) 2).
  pose proof (Z.div_mod (yres v - RESY * d) 2). pose proof (Z.mod_pos_bound (yres v - RESY * d) 2). clearbody d. lia.
Qed.

Hypothesis Hok : layout_ok.

Lemma LL_pos : 0 < LL /\ 0 < SC * LL.
Proof.
  destruct Hok as (HX & HY & Hs & Hx & Hxr & _ & _ & HL). assert (0 < RESX * SC) by (apply Z.mul_pos_pos; lia).
  split; [lia|apply Z.mul_pos_pos; lia].
Qed.

(** ** One row *)

(** The pixels of a row, side by side. *)
Definition row_byte (pat : Z -> list Z) (row : list Z) (c : Z) : Z :=
  nth (Z.to_nat (c mod S3)) (pat (nth (Z.to_nat (c / S3)) row 0)) 0.

Lemma expand_line_spec pat row : forall line m p,
  expand_line g pat row line m p = if (line <=? p) && (p <? line + zlen row * S3) then row_byte pat row (p - line) else m p.
Proof.
  destruct Hok as (_ & _ & Hs & _). unfold expand_line.
  induction row as [|i row IH]; intros line m p; [unfold zlen; cbn; zcases|].
  cbn [foldl]. rewrite IH. unfold zlen. cbn [length]. rewrite Nat2Z.inj_succ. fold (zlen row). unfold Z.succ.
  pose proof (zlen_nonneg row). rewrite (store_run (fun b => nth (Z.to_nat b) (pat i) 0)) by lia. unfold row_byte.
  assert (0 <= zlen row * S3) by (apply Z.mul_nonneg_nonneg; lia).
  destruct (Z.leb_spec (line + S3) p); cbn [andb].
  - destruct (Z.ltb_spec p (line + S3 + zlen row * S3)); [|zcases].
    assert ((line <=? p) && (p <? line + (zlen row + 1) * S3) = true) as -> by (apply andb_true_iff; split; [apply Z.leb_le|apply Z.ltb_lt]; lia).
    replace (p - line) with (p - (line + S3) + 1 * S3) by lia. rewrite Z.mod_add, Z.div_add by lia.
    rewrite Z2Nat.inj_add by (try apply Z.div_pos; lia). by rewrite Nat.add_comm.
  - destruct (Z.leb_spec line p); cbn [andb]; [|done]. destruct (Z.ltb_spec p (line + S3)); [|lia].
    destruct (Z.ltb_spec p (line + (zlen row + 1) * S3)); [|lia].
    by rewrite (Z.div_small (p - line)), Z.mod_small by lia.
Qed.

(** Byte [q] of the [SC] whole lines a row takes, where the row has one. *)
Definition row_img (pat : Z -> list Z) (row : list Z) (q : Z) : option Z :=
  let c := q mod LL - 3 * x0 g in if (0 <=? c) && (c <? RESX * S3) then Some (row_byte pat row c) else None.

Lemma row_img_at pat row r q : 0 <= q < LL ->
  row_img pat row (r * LL + q) = if (3 * x0 g <=? q) && (q <? 3 * x0 g + RESX * S3) then Some (row_byte pat row (q - 3 * x0 g)) else None.
Proof.
  intros Hq. unfold row_img. rewrite Z.add_comm, Z.mod_add, Z.mod_small by lia. cbn zeta.
  destruct (Z.leb_spec 0 (q - 3 * x0 g)), (Z.leb_spec (3 * x0 g) q); try lia; cbn [andb]; [|done].
  destruct (Z.ltb_spec (q - 3 * x0 g) (RESX * S3)), (Z.ltb_spec q (3 * x0 g + RESX * S3)); lia || done.
Qed.

Definition in_lines (base p : Z) : bool := (base <=? p) && (p <? base + SC * LL).

Lemma expand_lines_spec pat row base m p : zlen row = RESX ->
  expand_lines RESX v g pat row (base + x0 g * 3) m p =
  if in_lines base p then match row_img pat row (p - base) with Some b => b | None => m p end else m p.
Proof.
  intros Hr. destruct Hok as (HX & HY & Hs & Hx & Hxr & _ & _ & HL). unfold expand_lines.
  assert (RESX * S3 = 3 * (RESX * SC)) as EW by lia.
  pose (part := fun k p => if (base <=? p) && (p <? base + k * LL) then match row_img pat row (p - base) with Some b => b | None => m p end else m p).
  enough (forall p, foldl (fun m r => memcpy (base + x0 g * 3 + r * LL) (base + x0 g * 3) (RESX * S3) m)
    (expand_line g pat row (base + x0 g * 3) m) (seqZ 1 (SC - 1)) p = part (1 + (SC - 1)) p) as H.
  { rewrite H. unfold part, in_lines. by replace (1 + (SC - 1)) with SC by lia. }
  assert (forall k p, 0 <= k -> (base + k * LL <= p < base + (k + 1) * LL -> p - base - k * LL < 3 * x0 g \/ 3 * x0 g + RESX * S3 <= p - base - k * LL) ->
    part k p = part (k + 1) p) as part_next.
  { intros k p' Hk Ht. unfold part. assert ((k + 1) * LL = k * LL + LL) as Ek by lia. assert (0 <= k * LL) by (apply Z.mul_nonneg_nonneg; lia).
    destruct (Z.leb_spec base p'); cbn [andb]; [|done]. destruct (Z.ltb_spec p' (base + k * LL)), (Z.ltb_spec p' (base + (k + 1) * LL)); try lia; try done.
    replace (p' - base) with (k * LL + (p' - base - k * LL)) by lia. rewrite row_img_at by lia.
    destruct (Z.leb_spec (3 * x0 g) (p' - base - k * LL)), (Z.ltb_spec (p' - base - k * LL) (3 * x0 g + RESX * S3)); cbn [andb]; lia || done. }
  apply (foldl_seqZ_ind _ (fun k m' => forall p, m' p = part k p)); [lia| |].
  - intros p'. rewrite expand_line_spec, Hr. unfold part.
    destruct (Z.leb_spec base p'), (Z.ltb_spec p' (base + 1 * LL)); cbn [andb]; [|zcases..].
    replace (p' - base) with (0 * LL + (p' - base)) at 1 by lia. rewrite row_img_at by lia.
    replace (p' - base - 3 * x0 g) with (p' - (base + x0 g * 3)) by lia. zcases.
  - intros k m' Hk IH p'. unfold memcpy. set (src := base + x0 g * 3) in *.
    set (t := p' - base - k * LL). assert (LL <= k * LL) by (rewrite <-(Z.mul_1_l LL) at 1; apply Z.mul_le_mono_nonneg_r; lia).
    assert ((k + 1) * LL = k * LL + LL) as Ek by lia.
    destruct (Z.leb_spec (src + k * LL) p'), (Z.ltb_spec p' (src + k * LL + RESX * S3)); cbn [andb].
    + rewrite IH. unfold part. replace (src + (p' - (src + k * LL))) with (base + t) by (unfold t; lia).
      replace (base + t - base) with (0 * LL + t) by lia. replace (p' - base) with (k * LL + t) by (unfold t; lia).
      rewrite !row_img_at by (unfold t, src in *; lia).
      destruct (Z.leb_spec (3 * x0 g) t), (Z.ltb_spec t (3 * x0 g + RESX * S3)); unfold t, src in *; try lia. cbn [andb]. zcases.
    + rewrite IH. apply part_next; [lia|]. intros _. right. unfold t, src in *. lia.
    + rewrite IH. apply part_next; [lia|]. intros _. left. unfold t, src in *. lia.
    + lia.
Qed.

(** [m] holds the row's lines, borders and all, from [base] on. *)
Definition drawn (m : memory) (base : Z) (pat : Z -> list Z) (row : list Z) : Prop :=
  forall q, 0 <= q < SC * LL -> m (base + q) = default 0 (row_img pat row q).
(** The borders are black there. *)
Definition dark_sides (m : memory) (base : Z) : Prop :=
  forall q pat row, 0 <= q < SC * LL -> row_img pat row q = None -> m (base + q) = 0.

Lemma drawn_dark m base pat row : drawn m base pat row -> dark_sides m base.
Proof.
  intros Hd q pat' row' Hq E. rewrite Hd by done. unfold row_img in *. by destruct (_ && _).
Qed.

Lemma drawn_ext m m' base base' pat row : (forall q, 0 <= q < SC * LL -> m' (base' + q) = m (base + q)) -> drawn m base pat row -> drawn m' base' pat row.
Proof. intros E Hd q Hq. by rewrite E, Hd. Qed.

Lemma expand_drawn pat row base m : zlen row = RESX -> dark_sides m base -> drawn (expand_lines RESX v g pat row (base + x0 g * 3) m) base pat row.
Proof.
  intros Hr Hd q Hq. rewrite expand_lines_spec by done. unfold in_lines.
  destruct (Z.leb_spec base (base + q)), (Z.ltb_spec (base + q) (base + SC * LL)); try lia. cbn [andb].
  replace (base + q - base) with q by lia. destruct (row_img pat row q) eqn:E; [done|]. by eapply Hd.
Qed.

Lemma expand_outside pat row base m p : zlen row = RESX -> in_lines base p = false -> expand_lines RESX v g pat row (base + x0 g * 3) m p = m p.
Proof. intros Hr E. rewrite expand_lines_spec by done. by rewrite E. Qed.

(** ** The expansions *)

Section phases.
Context (fbmap : bool).

(** Where the rows are expanded: the slab, or the mapped framebuffer. *)
Definition target (s : dg) : memory := if fbmap then screen s else framebuf s.
Definition base (y : Z) : Z := ((if fbmap then y0 g else 0) + y * SC) * LL.

Lemma bases_apart y y' q : y <> y' -> 0 <= q < SC * LL -> in_lines (base y) (base y' + q) = false.
Proof.
  destruct Hok as (HX & HY & Hs & Hx & Hxr & _ & _ & HL). intros Hne Hq. unfold in_lines, base.
  set (b := if fbmap then y0 g else 0).
  replace ((b + y * SC) * LL) with (b * LL + y * (SC * LL)) by lia. replace ((b + y' * SC) * LL) with (b * LL + y' * (SC * LL)) by lia.
  apply andb_false_iff. destruct (Z.lt_ge_cases y' y).
  - left. apply Z.leb_gt. assert ((y' + 1) * (SC * LL) <= y * (SC * LL)) by (apply Z.mul_le_mono_nonneg_r; lia). lia.
  - right. apply Z.ltb_ge. assert ((y + 1) * (SC * LL) <= y' * (SC * LL)) by (apply Z.mul_le_mono_nonneg_r; lia). lia.
Qed.

(** Everything an expansion leaves alone. *)
Definition same_frame (s s' : dg) : Prop :=
  pat s' = pat s /\ snap s' = snap s /\ write_rows s' = write_rows s /\ expand_row s' = expand_row s /\
  was_changed s' = was_changed s /\ back s' = back s /\ yoffset s' = yoffset s.

Lemma expand_step s y : (expand_row s y = true -> zlen (snap s y) = RESX) -> let s' := expand RESX v g fbmap s y in
  same_frame s s' /\ (if fbmap then framebuf s' = framebuf s else screen s' = screen s) /\
  (forall p, in_lines (base y) p = false -> target s' p = target s p) /\
  (forall y', y' <> y -> prev s' y' = prev s y') /\
  (if expand_row s y then (dark_sides (target s) (base y) -> drawn (target s') (base y) (pat s) (snap s y)) /\ prev s' y = snap s y else s' = s).
Proof.
  intros Hr s'. unfold s', expand. destruct (expand_row s y) eqn:E; cbn [negb]; [specialize (Hr eq_refl)|by destruct fbmap].
  unfold target, base. destruct fbmap; cbn [framebuf screen prev set_prev set_screen set_framebuf pat snap].
  - split; [done|]. split; [done|]. split_and!.
    + intros p Hp. by apply expand_outside.
    + intros y' Hy. by destruct (Z.eqb_spec y' y).
    + by apply expand_drawn.
    + by rewrite Z.eqb_refl.
  - rewrite Z.add_0_l. split; [done|]. split; [done|]. split_and!.
    + intros p Hp. by apply expand_outside.
    + intros y' Hy. by destruct (Z.eqb_spec y' y).
    + by apply expand_drawn.
    + by rewrite Z.eqb_refl.
Qed.

Lemma expansions rows : forall s, (forall y, In y rows -> expand_row s y = true -> zlen (snap s y) = RESX) ->
  let s' := foldl (expand RESX v g fbmap) s rows in
  same_frame s s' /\ (if fbmap then framebuf s' = framebuf s else screen s' = screen s) /\
  (forall p, (forall y, In y rows -> in_lines (base y) p = false) -> target s' p = target s p) /\
  forall y, dark_sides (target s) (base y) ->
    ((In y rows /\ expand_row s y = true) -> drawn (target s') (base y) (pat s) (snap s y) /\ prev s' y = snap s y) /\
    (~ (In y rows /\ expand_row s y = true) -> prev s' y = prev s y /\ forall q, 0 <= q < SC * LL -> target s' (base y + q) = target s (base y + q)).
Proof.
  induction rows as [|y0 rows IH]; intros s Hr; cbn [foldl].
  { split; [by split_and!|]. split; [by destruct fbmap|]. split; [done|]. intros y _. split; [by intros [[] _]|done]. }
  destruct (expand_step s y0 (Hr y0 (or_introl eq_refl))) as ((F1 & F2 & F3 & F4 & F5 & F6 & F7) & Fm & Fo & Fp & Fd).
  set (s1 := expand RESX v g fbmap s y0) in *.
  destruct (IH s1) as ((G1 & G2 & G3 & G4 & G5 & G6 & G7) & Gm & Go & Gd).
  { intros y Hy. rewrite F2, F4. apply Hr. by right. }
  split; [split_and!; congruence|]. split; [destruct fbmap; congruence|]. split.
  { intros p Hp. rewrite Go by (intros; apply Hp; by right). apply Fo, Hp. by left. }
  intros y Hdark. rewrite F1, F2, F4 in Gd.
  assert (dark_sides (target s1) (base y)) as Hdark1.
  { destruct (Z.eq_dec y y0) as [->|Hne].
    - destruct (expand_row s y0); [eapply drawn_dark, Fd, Hdark|by rewrite Fd].
    - intros q pat' row' Hq E. rewrite Fo by (apply bases_apart; auto). by eapply Hdark. }
  destruct (Gd y Hdark1) as [Gin Gout].
  assert (In y rows /\ expand_row s y = true \/ ~ (In y rows /\ expand_row s y = true)) as [Hc|Hc].
  { destruct (in_dec Z.eq_dec y rows), (expand_row s y); [by left|right; by intros [_ ?]|right; by intros [? _]..]. }
  { split; [intros _; by apply Gin|]. intros Hn. exfalso. apply Hn. split; [right|]; apply Hc. }
  destruct (Gout Hc) as [Gp Gt]. destruct (Z.eq_dec y y0) as [->|Hne]; [destruct (expand_row s y0) eqn:E|].
  - split; [intros _|intros Hn; exfalso; apply Hn; by split; [left|]].
    split; [|by rewrite Gp; apply Fd]. eapply drawn_ext; [exact Gt|by apply Fd].
  - split; [by intros [_ ?]|]. intros _. split; [by rewrite Gp, Fd|]. intros q Hq. by rewrite Gt, Fd.
  - split; [intros [[?|?] ?]; [congruence|]; exfalso; by apply Hc|]. intros _. rewrite Gp, Fp by done. split; [done|].
    intros q Hq. rewrite Gt by done. apply Fo, bases_apart; auto.
Qed.
End phases.

(** ** The shares and the writes *)

Lemma sorted_between (l : list Z) : StronglySorted Z.lt l -> forall n y, In y (take n l) ->
  nth 0 l 0 <= y <= nth (Nat.min n (length l) - 1) l 0.
Proof.
  induction 1 as [|x l Hl IH Hx]; intros [|n] y; cbn [take length]; [done..|]. intros [->|Hy]; cbn [nth Nat.min].
  - split; [lia|]. rewrite Nat.sub_succ, Nat.sub_0_r. destruct (Nat.min n (length l)) as [|k] eqn:Ek; [lia|].
    rewrite List.Forall_forall in Hx. apply Z.lt_le_incl, Hx, nth_In. lia.
  - specialize (IH n y Hy). rewrite List.Forall_forall in Hx.
    assert (In y l) as Hin by (rewrite <-(take_drop n l); apply in_app_iff; by left).
    destruct (Nat.min n (length l)) as [|k] eqn:Ek; [exfalso; destruct n, l; cbn in *; lia || done|].
    cbn in IH |- *. rewrite Nat.sub_0_r in *. pose proof (Hx y Hin). lia.
Qed.

Lemma sorted_drop (l : list Z) n : StronglySorted Z.lt l -> StronglySorted Z.lt (drop n l).
Proof. intros Hl. revert n. induction Hl as [|x l Hl IH Hx]; intros [|n]; cbn; [constructor..| |apply IH]. by constructor. Qed.

Definition rows_ok (l : list Z) : Prop := StronglySorted Z.lt l /\ forall y, In y l -> 0 <= y < RESY.

Lemma band_range nw wi s : 0 <= wi < nw -> 0 <= band_from nw wi s /\ band_to nw wi s <= zlen (write_rows s).
Proof.
  intros Hwi. unfold band_to, band_from. pose proof (Z.mul_div_le (zlen (write_rows s)) nw ltac:(lia)).
  pose proof (zlen_nonneg (write_rows s)). assert (0 <= zlen (write_rows s) / nw) by (apply Z.div_pos; lia).
  split; [apply Z.mul_nonneg_nonneg; lia|]. destruct (Z.eqb_spec wi (nw - 1)); [lia|].
  assert ((wi + 1) * (zlen (write_rows s) / nw) <= nw * (zlen (write_rows s) / nw)) by (apply Z.mul_le_mono_nonneg_r; lia). lia.
Qed.

(** A share lies between the two rows its write is computed from. *)
Lemma band_between nw wi s y : rows_ok (write_rows s) -> 0 <= wi < nw -> In y (band nw wi s) ->
  band_from nw wi s < band_to nw wi s /\
  nth (Z.to_nat (band_from nw wi s)) (write_rows s) 0 <= y <= nth (Z.to_nat (band_to nw wi s - 1)) (write_rows s) 0.
Proof.
  intros [Hs _] Hwi. unfold band. set (f := band_from nw wi s). set (t := band_to nw wi s). intros Hy.
  destruct (band_range nw wi s Hwi) as [Hf Ht]. fold f in Hf. fold t in Ht.
  destruct (Z.lt_ge_cases f t) as [Hlt|]; [|by replace (Z.to_nat (t - f)) with 0%nat in Hy by lia].
  split; [done|]. clearbody f t. pose proof (sorted_between _ (sorted_drop _ (Z.to_nat f) Hs) _ _ Hy) as Hb.
  rewrite length_drop, !nth_skipn in Hb. unfold zlen in Ht. rewrite Nat.add_0_r in Hb.
  replace (Z.to_nat f + _)%nat with (Z.to_nat (t - 1)) in Hb by lia. done.
Qed.

(** Every row is in one worker's share. *)
Lemma bands_cover nw s y : nw = 1 \/ nw = 2 -> In y (write_rows s) -> exists wi, 0 <= wi < nw /\ In y (band nw wi s).
Proof.
  intros Hnw Hy. unfold band, band_to, band_from. set (l := write_rows s) in *. pose proof (zlen_nonneg l). destruct Hnw as [-> | ->].
  - exists 0. split; [lia|]. change (0 =? 1 - 1) with true. cbn iota. rewrite Z.mul_0_l, take_ge; [done|]. rewrite length_drop. unfold zlen. lia.
  - set (k := zlen l / 2). assert (0 <= k) by (apply Z.div_pos; lia).
    rewrite <-(take_drop (Z.to_nat k) l) in Hy. apply in_app_iff in Hy as [Hy|Hy].
    + exists 0. split; [lia|]. change (0 =? 2 - 1) with false. cbn iota. rewrite Z.mul_0_l. by replace (0 + k - 0) with k by lia.
    + exists 1. split; [lia|]. change (1 =? 2 - 1) with true. cbn iota. rewrite Z.mul_1_l. rewrite take_ge; [done|].
      rewrite length_drop. unfold zlen. lia.
Qed.

Section writes.
Context (nw : Z).

(** Where the row [y] of the hidden (or only) frame is. *)
Definition back_base (s : dg) (y : Z) : Z := (back s * yres v + y0 g + y * SC) * LL.
Definition origin (s : dg) : Z := (back s * yres v + y0 g) * LL.

Lemma band_write_spec s wi : 0 <= wi < nw -> rows_ok (write_rows s) ->
  let s' := band_write v g false nw s wi in
  (exists scr, s' = set_screen scr s) /\
  (forall p, screen s' p = screen s p \/ (0 <= p - origin s < RESY * SC * LL /\ screen s' p = framebuf s (p - origin s))) /\
  (forall y q, In y (band nw wi s) -> 0 <= q < SC * LL -> screen s' (back_base s y + q) = framebuf s (y * SC * LL + q)).
Proof.
  intros Hwi Hrows s'. destruct Hok as (HX & HY & Hs & Hx & Hxr & Hy0 & Hyr & HL).
  unfold s', band_write. cbn [negb andb]. destruct (Z.ltb_spec (band_from nw wi s) (band_to nw wi s)) as [Hlt|Hge].
  2: { split; [by exists (screen s); destruct s|]. split; [by left|]. intros y q Hy. destruct (band_between nw wi s y Hrows Hwi Hy). lia. }
  destruct (band_range nw wi s Hwi) as [Hf Ht]. unfold zlen in Ht.
  set (r0 := nth (Z.to_nat (band_from nw wi s)) (write_rows s) 0). set (r1 := nth (Z.to_nat (band_to nw wi s - 1)) (write_rows s) 0).
  assert (0 <= r0 < RESY) by (apply Hrows, nth_In; lia). assert (0 <= r1 < RESY) by (apply Hrows, nth_In; lia).
  pose proof (proj2 LL_pos) as HH. set (H1 := SC * LL) in *.
  assert (forall p, pwrite (framebuf s) (r0 * SC * LL) ((r1 - r0 + 1) * SC * LL) ((back s * yres v + y0 g + r0 * SC) * LL) (screen s) p =
    if (r0 * H1 <=? p - origin s) && (p - origin s <? (r1 + 1) * H1) then framebuf s (p - origin s) else screen s p) as Hpw.
  { intros p. unfold pwrite. replace ((back s * yres v + y0 g + r0 * SC) * LL) with (origin s + r0 * H1) by (unfold origin, H1; lia).
    replace ((r1 - r0 + 1) * SC * LL) with ((r1 + 1) * H1 - r0 * H1) by (unfold H1; lia). replace (r0 * SC * LL) with (r0 * H1) by (unfold H1; lia).
    destruct (Z.leb_spec (origin s + r0 * H1) p), (Z.leb_spec (r0 * H1) (p - origin s)); try lia; cbn [andb]; [|done].
    destruct (Z.ltb_spec p (origin s + r0 * H1 + ((r1 + 1) * H1 - r0 * H1))), (Z.ltb_spec (p - origin s) ((r1 + 1) * H1)); try lia; try done.
    f_equal. lia. }
  assert (0 <= r0 * H1) by (apply Z.mul_nonneg_nonneg; lia).
  assert ((r1 + 1) * H1 <= RESY * H1) by (apply Z.mul_le_mono_nonneg_r; lia).
  split; [by eexists|]. cbn [screen set_screen]. split.
  - intros p. rewrite Hpw. destruct (Z.leb_spec (r0 * H1) (p - origin s)); cbn [andb]; [|by left].
    destruct (Z.ltb_spec (p - origin s) ((r1 + 1) * H1)); [|by left]. right. split; [|done]. unfold H1 in *. lia.
  - intros y q Hy Hq. destruct (band_between nw wi s y Hrows Hwi Hy) as [_ [Hy0' Hy1']]. fold r0 in Hy0'. fold r1 in Hy1'. rewrite Hpw.
    replace (back_base s y + q - origin s) with (y * H1 + q) by (unfold back_base, origin, H1; lia).
    assert (r0 * H1 <= y * H1) by (apply Z.mul_le_mono_nonneg_r; lia).
    assert ((y + 1) * H1 <= (r1 + 1) * H1) by (apply Z.mul_le_mono_nonneg_r; lia).
    replace (y * SC * LL) with (y * H1) by (unfold H1; lia). zcases.
Qed.

Lemma writes ws : forall s, (forall wi, In wi ws -> 0 <= wi < nw) -> rows_ok (write_rows s) ->
  let s' := foldl (band_write v g false nw) s ws in
  (exists scr, s' = set_screen scr s) /\
  (forall p, screen s' p = screen s p \/ (0 <= p - origin s < RESY * SC * LL /\ screen s' p = framebuf s (p - origin s))) /\
  (forall y q wi, In wi ws -> In y (band nw wi s) -> 0 <= q < SC * LL -> screen s' (back_base s y + q) = framebuf s (y * SC * LL + q)).
Proof.
  induction ws as [|wi ws IH]; intros s Hws Hrows; cbn [foldl].
  { split; [exists (screen s); by destruct s|]. split; [by left|]. by intros y q wi []. }
  destruct (band_write_spec s wi (Hws _ (or_introl eq_refl)) Hrows) as ([scr E] & Hany & Hin). set (s1 := band_write v g false nw s wi) in *.
  destruct (IH s1) as ([scr' E'] & Gany & Gin); [intros; apply Hws; by right|by rewrite E|].
  set (s2 := foldl _ s1 ws) in *. rewrite E in Gany, Gin. cbn [set_screen framebuf write_rows back] in Gany, Gin.
  change (origin (set_screen scr s)) with (origin s) in Gany. rewrite E in Hany, Hin.
  split; [exists scr'; by rewrite E', E|]. split.
  - intros p. destruct (Gany p) as [->|?]; [apply Hany|by right].
  - intros y q wi' [<-|Hwi'] Hy Hq; [|by apply (Gin y q wi')].
    destruct (Gany (back_base s y + q)) as [->|[_ ->]]; [by apply Hin|]. f_equal. unfold back_base, origin. lia.
Qed.
End writes.

(** ** The invariant of the frames *)

Definition row_of (E : list (list Z)) (y : Z) : list Z := nth (Z.to_nat y) E [].
Definition frame_ok (E : list (list Z)) : Prop := forall y, 0 <= y < RESY -> zlen (row_of E y) = RESX.

Section frames.
Context (flip fbmap : bool) (nw : Z).
Hypothesis Hnw : nw = 1 \/ nw = 2.
Hypothesis Hmode : fbmap = true -> flip = false.

(** Where the visible frame is. *)
Definition front_base (s : dg) (y : Z) : Z := (yoffset s + y0 g + y * SC) * LL.
(** Black above and below the game. *)
Definition dark_lines (m : memory) (f : Z) : Prop :=
  forall p, 0 <= p < yres v * LL -> p < y0 g * LL \/ (y0 g + RESY * SC) * LL <= p -> m (f * yres v * LL + p) = 0.

(** What holds before any frame. *)
Record ready (s : dg) : Prop := {
  rd_sides : forall y, 0 <= y < RESY -> dark_sides (target fbmap s) (base fbmap y);
  rd_frames : if flip then (back s = 0 \/ back s = 1) /\ yoffset s = (1 - back s) * yres v else back s = 0 /\ yoffset s = 0;
  rd_dark : dark_lines (screen s) 0 /\ (flip = true -> dark_lines (screen s) 1) }.

(** What holds once [E] was drawn in the palette [col]. *)
Record shown (E : list (list Z)) (col : Z -> colour) (s : dg) : Prop := {
  sh_ready : ready s;
  sh_pat : forall i, pat s i = pattern g (col i);
  sh_prev : forall y, 0 <= y < RESY -> prev s y = row_of E y;
  sh_target : forall y, 0 <= y < RESY -> drawn (target fbmap s) (base fbmap y) (pat s) (row_of E y);
  sh_front : forall y, 0 <= y < RESY -> drawn (screen s) (front_base s y) (pat s) (row_of E y);
  sh_hidden : flip = true -> forall y, 0 <= y < RESY -> was_changed s y = false -> drawn (screen s) (back_base s y) (pat s) (row_of E y) }.

(** The rows that may be left out: unchanged, and in the hidden frame already. *)
Definition skippable (E : list (list Z)) (col : Z -> colour) (colours : option (Z -> colour)) (s : dg) : Prop :=
  colours = Some col \/ (colours = None /\ exists E0, shown E0 col s).

Lemma seqZ_filter_ok (f : Z -> bool) : rows_ok (List.filter f (seqZ 0 RESY)).
Proof.
  split.
  - assert (forall n a, StronglySorted Z.lt (List.filter f (seqZ a (Z.of_nat n)))) as H.
    { induction n as [|n IH]; intros a; [constructor|]. rewrite seqZ_cons by lia. replace (Z.pred (Z.of_nat (S n))) with (Z.of_nat n) by lia.
      cbn [List.filter]. destruct (f a); [constructor; [apply IH|]|apply IH]. apply List.Forall_forall. intros y Hy.
      apply List.filter_In in Hy as [Hy _]. apply list_elem_of_In, elem_of_seqZ in Hy. lia. }
    replace RESY with (Z.of_nat (Z.to_nat RESY)) by (destruct Hok; lia). apply H.
  - intros y Hy. apply List.filter_In in Hy as [Hy _]. apply list_elem_of_In, elem_of_seqZ in Hy. lia.
Qed.

Section one_frame.
Context (E : list (list Z)) (colours : option (Z -> colour)) (col : Z -> colour) (s0 : dg).
Hypothesis HE : frame_ok E.
Hypothesis Hready : ready s0.
Hypothesis Hskip : skippable E col colours s0.
Let s1 := draw_frame RESY g flip E colours s0.

Lemma s1_pat i : pat s1 i = pattern g (col i).
Proof. unfold s1. destruct Hskip as [->|[-> [E0 H]]]; [done|]. apply H. Qed.

Lemma changed_snap y : expand_row s1 y = true -> snap s1 y = row_of E y.
Proof. unfold s1, draw_frame. cbn [expand_row snap]. by intros ->. Qed.

(** A row that is not expanded is the last frame's, in the last frame's colours. *)
Lemma unchanged y : expand_row s1 y = false -> exists E0, shown E0 col s0 /\ pat s1 = pat s0 /\ row_of E y = prev s0 y.
Proof.
  unfold s1, draw_frame. cbn [expand_row pat]. fold (row_of E y). destruct Hskip as [->|[-> [E0 H]]]; [done|]. cbn [orb].
  intros Hb%negb_false_iff%bool_decide_eq_true. by exists E0.
Qed.

Lemma in_write_rows y : 0 <= y < RESY -> In y (write_rows s1) <-> expand_row s1 y = true \/ (flip = true /\ was_changed s0 y = true).
Proof.
  intros Hy. unfold s1, draw_frame. cbn [write_rows expand_row]. rewrite List.filter_In, orb_true_iff, andb_true_iff.
  split; [by intros [_ ?]|]. intros H. split; [|done]. apply list_elem_of_In, elem_of_seqZ. lia.
Qed.

Lemma s1_rows_ok : rows_ok (write_rows s1).
Proof. apply seqZ_filter_ok. Qed.

Context (rows : list Z).
Hypothesis Hrows : rows ≡ₚ flat_map (fun wi => band nw wi s1) (seqZ 0 nw).
Let s2 := foldl (expand RESX v g fbmap) s1 rows.

Lemma in_band_rows wi y : In y (band nw wi s1) -> In y (write_rows s1).
Proof. unfold band. intros Hy. rewrite <-(take_drop (Z.to_nat (band_from nw wi s1)) (write_rows s1)). apply in_app_iff. right.
  rewrite <-(take_drop (Z.to_nat (band_to nw wi s1 - band_from nw wi s1)) (drop _ _)). apply in_app_iff. by left. Qed.

Lemma in_rows y : In y rows <-> In y (write_rows s1).
Proof.
  rewrite !list_elem_of_In || idtac. rewrite (Permutation_in' eq_refl Hrows), in_flat_map. split.
  - intros (wi & _ & Hy). by eapply in_band_rows.
  - intros Hy. destruct (bands_cover nw s1 y Hnw Hy) as (wi & Hwi & Hb). exists wi. split; [|done].
    apply list_elem_of_In, elem_of_seqZ. lia.
Qed.

(** After the expansions the slab (or the mapping) has the new frame. *)
Lemma expanded : (forall y, 0 <= y < RESY -> drawn (target fbmap s2) (base fbmap y) (pat s1) (row_of E y) /\ prev s2 y = row_of E y) /\
  same_frame s1 s2 /\ (if fbmap then framebuf s2 = framebuf s1 else screen s2 = screen s1) /\
  (forall p, (forall y, 0 <= y < RESY -> in_lines (base fbmap y) p = false) -> target fbmap s2 p = target fbmap s1 p).
Proof.
  destruct (expansions fbmap rows s1) as (Hsame & Hmem & Hout & Hy).
  { intros y Hy Ec. rewrite changed_snap by done. apply HE, s1_rows_ok, in_rows, Hy. }
  fold s2 in Hsame, Hmem, Hout, Hy. split_and!; [|done..|].
  - intros y Hr. destruct (Hy y) as [Hin Hnin]; [exact (rd_sides s0 Hready y Hr)|].
    destruct (expand_row s1 y) eqn:Ec.
    + destruct Hin as [Hd Hp]; [split; [|done]; apply in_rows, in_write_rows; auto|]. by rewrite (changed_snap y Ec) in Hd, Hp.
    + destruct Hnin as [Hp Hq]; [by intros [_ ?]|]. destruct (unchanged y Ec) as (E0 & Hs & Ep & Er).
      assert (row_of E y = row_of E0 y) as Er0 by (rewrite Er; by apply Hs).
      split; [|by rewrite Hp, Er]. rewrite Ep, Er0. eapply drawn_ext; [exact Hq|]. by apply Hs.
  - intros p Hp. apply Hout. intros y Hin. apply Hp. by apply s1_rows_ok, in_rows.
Qed.

Context (ws : list Z).
Hypothesis Hws : ws ≡ₚ seqZ 0 nw.
Let s3 := foldl (band_write v g fbmap nw) s2 ws.

Lemma window f b p : (f = 0 \/ f = 1) -> (b = 0 \/ b = 1) -> 0 <= p < yres v * LL ->
  0 <= f * yres v * LL + p - (b * yres v + y0 g) * LL < RESY * SC * LL -> f = b /\ y0 g * LL <= p < (y0 g + RESY * SC) * LL.
Proof.
  destruct Hok as (HX & HY & Hs & Hx & Hxr & Hy0 & Hyr & HL). destruct LL_pos as [HLL _].
  assert ((y0 g + RESY * SC) * LL <= yres v * LL) by (apply Z.mul_le_mono_nonneg_r; lia). assert (0 <= y0 g * LL) by (apply Z.mul_nonneg_nonneg; lia).
  intros [->| ->] [->| ->]; lia.
Qed.

Lemma game_lines y q : 0 <= y < RESY -> 0 <= q < SC * LL -> 0 <= (y0 g + y * SC) * LL + q < yres v * LL.
Proof.
  destruct Hok as (HX & HY & Hs & Hx & Hxr & Hy0 & Hyr & HL). destruct LL_pos as [HLL HH]. intros Hy Hq.
  assert (0 <= y * (SC * LL)) by (apply Z.mul_nonneg_nonneg; lia). assert (0 <= y0 g * LL) by (apply Z.mul_nonneg_nonneg; lia).
  assert ((y + 1) * (SC * LL) <= RESY * (SC * LL)) by (apply Z.mul_le_mono_nonneg_r; lia).
  assert ((y0 g + RESY * SC) * LL <= yres v * LL) by (apply Z.mul_le_mono_nonneg_r; lia). lia.
Qed.

(** The writes, whatever their order: fields, and the two memories. *)
Lemma written : (exists scr, s3 = set_screen scr s2) /\
  if fbmap then s3 = s2 else
    (forall p, screen s3 p = screen s0 p \/ (0 <= p - origin s0 < RESY * SC * LL /\ screen s3 p = framebuf s2 (p - origin s0))) /\
    (forall y q, In y (write_rows s1) -> 0 <= q < SC * LL -> screen s3 (back_base s0 y + q) = framebuf s2 (y * SC * LL + q)).
Proof.
  destruct expanded as (_ & (F1 & F2 & F3 & F4 & F5 & F6 & F7) & Hmem & _). unfold s3. destruct fbmap eqn:Em.
  { assert (forall l s, foldl (band_write v g true nw) s l = s) as Hid by (induction l; done).
    rewrite Hid. split; [|done]. exists (screen s2). by destruct s2. }
  destruct (writes nw ws s2) as (Hs & Hany & Hin).
  { intros wi Hwi. rewrite (Permutation_in' eq_refl Hws) in Hwi. apply list_elem_of_In, elem_of_seqZ in Hwi. lia. }
  { rewrite F3. apply s1_rows_ok. }
  split; [done|]. change (back s1) with (back s0) in F6. change (screen s1) with (screen s0) in Hmem.
  assert (origin s2 = origin s0) as Eo by (unfold origin; by rewrite F6). rewrite Hmem, Eo in Hany. split; [exact Hany|].
  intros y q Hy Hq. destruct (bands_cover nw s1 y Hnw Hy) as (wi & Hwi & Hb).
  specialize (Hin y q wi). unfold back_base in *. rewrite F6 in Hin. apply Hin; [|unfold band, band_to, band_from; by rewrite F3|done].
  rewrite (Permutation_in' eq_refl Hws). apply list_elem_of_In, elem_of_seqZ. lia.
Qed.

(** The frame that was drawn into has the whole picture. *)
Lemma back_drawn y : fbmap = false -> 0 <= y < RESY -> drawn (screen s3) (back_base s0 y) (pat s1) (row_of E y).
Proof.
  intros Em Hy q Hq. destruct written as [_ Hw]. destruct expanded as (Hexp & _). destruct (Hexp y Hy) as [Hd _].
  rewrite Em in Hw. destruct Hw as [Hany Hin].
  assert (framebuf s2 (y * SC * LL + q) = default 0 (row_img (pat s1) (row_of E y) q)) as Hslab.
  { specialize (Hd q Hq). unfold target, base in Hd. rewrite Em in Hd. by rewrite <-Hd. }
  destruct (Bool.bool_dec (expand_row s1 y || (flip && was_changed s0 y)) true) as [Hb|Hb].
  { rewrite Hin; [done| |done]. apply in_write_rows; [done|]. apply orb_true_iff in Hb as [?|?%andb_true_iff]; auto. }
  apply not_true_is_false, orb_false_iff in Hb as [Hc Hw]. destruct (unchanged y Hc) as (E0 & Hs & Ep & Er).
  destruct (Hany (back_base s0 y + q)) as [->|[_ ->]].
  2: { rewrite <-Hslab. f_equal. unfold back_base, origin. lia. }
  rewrite Ep, Er, (sh_prev _ _ _ Hs y Hy). destruct flip eqn:Ef.
  - by apply (sh_hidden _ _ _ Hs).
  - pose proof (rd_frames s0 Hready) as Hfr. rewrite Ef in Hfr. destruct Hfr as [Eb Eo].
    assert (back_base s0 y = front_base s0 y) as -> by (unfold back_base, front_base; rewrite Eb, Eo; lia). by apply (sh_front _ _ _ Hs).
Qed.

(** What is not drawn into is as it was: the borders above and below, and the visible frame of two. *)
Lemma dark_kept f : (f = 0 \/ f = 1) -> dark_lines (screen s0) f -> (fbmap = true -> f = 0) -> dark_lines (screen s3) f.
Proof.
  intros Hf Hd Hf0 p Hp Hout. rewrite <-(Hd p Hp Hout). destruct written as [_ Hw]. destruct expanded as (_ & _ & _ & Hout2).
  pose proof (rd_frames s0 Hready) as Hfr. destruct fbmap eqn:Em.
  - rewrite Hw. replace (f * yres v * LL + p) with p by (rewrite (Hf0 eq_refl); lia). apply (Hout2 p).
    intros y Hy. unfold in_lines, base. destruct LL_pos as [HLL HH].
    assert (0 <= y * (SC * LL)) by (apply Z.mul_nonneg_nonneg; lia). assert ((y + 1) * (SC * LL) <= RESY * (SC * LL)) by (apply Z.mul_le_mono_nonneg_r; lia).
    apply andb_false_iff. destruct Hout; [left; apply Z.leb_gt; lia|right; apply Z.ltb_ge; lia].
  - destruct Hw as [Hany _]. destruct (Hany (f * yres v * LL + p)) as [->|[Hr _]]; [done|]. exfalso.
    unfold origin in Hr. apply window in Hr as [_ ?]; [lia|done| |done]. destruct flip; tauto.
Qed.

Lemma front_kept p : flip = true -> 0 <= p < yres v * LL -> screen s3 (yoffset s0 * LL + p) = screen s0 (yoffset s0 * LL + p).
Proof.
  intros Ef Hp. destruct written as [_ Hw]. pose proof (rd_frames s0 Hready) as Hfr. rewrite Ef in Hfr. destruct Hfr as [Hb Ho].
  destruct fbmap; [by rewrite Hmode in Ef|]. destruct Hw as [Hany _]. destruct (Hany (yoffset s0 * LL + p)) as [->|[Hr _]]; [done|]. exfalso.
  rewrite Ho in Hr. unfold origin in Hr. apply window in Hr as [? _]; [lia|lia|done|done].
Qed.

Lemma frame_shown : shown E col (pan v flip s3).
Proof.
  destruct written as [[scr Es] Hw]. destruct expanded as (Hexp & (F1 & F2 & F3 & F4 & F5 & F6 & F7) & Hmem & _).
  pose proof (rd_frames s0 Hready) as Hfr. change (back s1) with (back s0) in F6. change (yoffset s1) with (yoffset s0) in F7.
  assert (target fbmap s3 = target fbmap s2) as Et by (unfold target; destruct fbmap; [by rewrite Hw|by rewrite Es]).
  assert (pat s3 = pat s1 /\ prev s3 = prev s2 /\ was_changed s3 = expand_row s1 /\ back s3 = back s0 /\ yoffset s3 = yoffset s0) as (P1 & P2 & P3 & P4 & P5).
  { rewrite Es. cbn. by rewrite F1, F5, F6, F7. }
  assert (dark_lines (screen s3) 0 /\ (flip = true -> dark_lines (screen s3) 1)) as Hdark.
  { destruct (rd_dark s0 Hready) as [D0 D1]. split; [apply dark_kept; auto|]. intros Ef. apply dark_kept; [auto|by apply D1|].
    intros Em. by rewrite Hmode in Ef. }
  assert (forall y, 0 <= y < RESY -> drawn (target fbmap s3) (base fbmap y) (pat s1) (row_of E y)) as Htgt by (intros; rewrite Et; by apply Hexp).
  assert (forall y, 0 <= y < RESY -> drawn (screen s3) (back_base s0 y) (pat s1) (row_of E y)) as Hback.
  { intros y Hy. destruct (Bool.bool_dec fbmap true) as [Em|Em%not_true_is_false]; [|by apply back_drawn].
    specialize (Htgt y Hy). unfold target, base in Htgt. rewrite Em in Htgt. rewrite (Hmode Em) in Hfr. destruct Hfr as [Eb _].
    unfold back_base. rewrite Eb. exact Htgt. }
  destruct (Bool.bool_dec flip true) as [Ef|Ef%not_true_is_false]; rewrite Ef in Hfr; destruct Hfr as [Hb Ho]; unfold pan; rewrite Ef.
  - split; cbn [set_back pat prev was_changed back yoffset screen]; rewrite ?P1, ?P2, ?P3.
    + split; [intros y Hy; eapply drawn_dark, Htgt, Hy| |exact Hdark]. rewrite Ef. cbn [set_back back yoffset]. rewrite P4.
      destruct Hb as [->| ->]; auto.
    + intros i. apply s1_pat.
    + intros y Hy. by apply Hexp.
    + exact Htgt.
    + intros y Hy. unfold front_base. cbn [yoffset set_back]. rewrite P4. by apply Hback.
    + intros _ y Hy Hc. destruct (unchanged y Hc) as (E0 & Hs & Ep & Er). rewrite Ep, Er, (sh_prev _ _ _ Hs y Hy).
      eapply drawn_ext; [|apply (sh_front _ _ _ Hs y Hy)]. intros q Hq. unfold back_base, front_base. cbn [back set_back]. rewrite P4.
      replace (back s0 .^ 1) with (1 - back s0) by (destruct Hb as [->| ->]; done). rewrite <-Ho.
      pose proof (front_kept ((y0 g + y * SC) * LL + q) Ef) as Hk.
      replace ((yoffset s0 + y0 g + y * SC) * LL + q) with (yoffset s0 * LL + ((y0 g + y * SC) * LL + q)) by lia. apply Hk.
      apply game_lines; done.
  - split; rewrite ?P1, ?P2, ?P3.
    + split; [intros y Hy; eapply drawn_dark, Htgt, Hy| |exact Hdark]. rewrite Ef, P4, P5. by split.
    + intros i. apply s1_pat.
    + intros y Hy. by apply Hexp.
    + exact Htgt.
    + intros y Hy. specialize (Hback y Hy). unfold front_base, back_base in *. rewrite P5, Ho. rewrite Hb in Hback. exact Hback.
    + by rewrite Ef.
Qed.
End one_frame.

(** ** Until the pan *)

(** However far the workers have got, and in whatever order, the visible frame of two is untouched. *)
Lemma front_untouched E colours s0 rows ws p : frame_ok E -> ready s0 -> flip = true -> fbmap = false ->
  (forall y, In y rows -> 0 <= y < RESY) -> (forall wi, In wi ws -> 0 <= wi < nw) -> 0 <= p < yres v * LL ->
  screen (foldl (band_write v g fbmap nw) (foldl (expand RESX v g fbmap) (draw_frame RESY g flip E colours s0) rows) ws) (yoffset s0 * LL + p) =
  screen s0 (yoffset s0 * LL + p).
Proof.
  intros HE Hready Ef Em Hrows Hws Hp. set (s1 := draw_frame RESY g flip E colours s0).
  destruct (expansions fbmap rows s1) as ((F1 & F2 & F3 & F4 & F5 & F6 & F7) & Hmem & _).
  { intros y Hy Ec. unfold s1, draw_frame in *. cbn [snap expand_row] in *. rewrite Ec. by apply HE, Hrows. }
  rewrite Em in *. set (s2 := foldl _ s1 rows) in *.
  destruct (writes nw ws s2 Hws) as (_ & Hany & _); [rewrite F3; apply seqZ_filter_ok|].
  rewrite Hmem in Hany. change (screen s1) with (screen s0) in Hany. destruct (Hany (yoffset s0 * LL + p)) as [->|[Hr _]]; [done|].
  exfalso. pose proof (rd_frames s0 Hready) as Hfr. rewrite Ef in Hfr. destruct Hfr as [Hb Ho].
  unfold origin in Hr. rewrite F6, Ho in Hr. change (back s1) with (back s0) in Hr. apply window in Hr as [? _]; [lia|lia|done|done].
Qed.

Lemma progress_yoffset E colours s rows ws :
  yoffset (foldl (band_write v g fbmap nw) (foldl (expand RESX v g fbmap) (draw_frame RESY g flip E colours s) rows) ws) = yoffset s.
Proof.
  change (yoffset s) with (yoffset (draw_frame RESY g flip E colours s)). generalize (draw_frame RESY g flip E colours s) as s1.
  induction rows as [|y rows IH]; intros s1; cbn [foldl].
  - revert s1. induction ws as [|wi ws IH]; intros s1; [done|]. cbn [foldl]. rewrite IH. unfold band_write. by destruct (_ && _).
  - rewrite IH. unfold expand. destruct (negb _); [done|]. by destruct fbmap.
Qed.

(** ** A whole game *)

Inductive plays : dg -> list (list (list Z) * option (Z -> colour)) -> dg -> Prop :=
| PlaysNil s : plays s [] s
| PlaysCons s E c s1 l s2 : frame_step RESX RESY v g flip fbmap nw E c s s1 -> plays s1 l s2 -> plays s ((E, c) :: l) s2.

Lemma plays_shown s l s' : plays s l s' -> forall E col, shown E col s -> Forall (fun f => frame_ok f.1) l ->
  shown (foldl (fun _ f => f.1) E l) (foldl (fun c f => default c f.2) col l) s'.
Proof.
  induction 1 as [s|s E1 c s1 l s2 Hst Hpl IH]; intros E col Hs Hl; [exact Hs|]. inversion Hl as [|? ? HE Hl']; subst. cbn [foldl fst snd] in *.
  apply IH; [|done]. destruct Hst as [s rows ws s1' Hrows Hws].
  apply (frame_shown E1 c (default col c) s HE (sh_ready _ _ _ Hs)); [|done|done]. destruct c as [c|]; [by left|right]. split; [done|by exists E].
Qed.
End frames.
End doom.

(** ** The picture *)

(** Byte [p] of a frame that shows [E]: a component of the colour of the pixel's index, black around. *)
Definition component (k : Z) (c : colour) : Z := if k =? 0 then blue c else if k =? 1 then green c else red c.
Definition frame_byte (RESX RESY : Z) (v : fb_info) (g : layout) (E : list (list Z)) (col : Z -> colour) (p : Z) : Z :=
  let line := p / line_length v - y0 g in
  let c := p mod line_length v - 3 * x0 g in
  if (0 <=? line) && (line <? RESY * scale g) && (0 <=? c) && (c <? RESX * (scale g * 3))
  then component (c mod 3) (col (nth (Z.to_nat (c / (scale g * 3))) (row_of E (line / scale g)) 0)) else 0.

Lemma scaled_pattern_nth g c n : 0 <= n < scale g * 3 -> nth (Z.to_nat n) (pattern g c) 0 = component (n mod 3) c.
Proof.
  assert (forall k m, (m < k * 3)%nat -> nth m (concat (replicate k [blue c; green c; red c])) 0 = component (Z.of_nat m mod 3) c) as H.
  { induction k as [|k IH]; intros m Hm; [lia|]. cbn [replicate concat]. destruct m as [|[|[|m]]]; [done..|]. cbn [nth app]. rewrite IH by lia.
    replace (Z.of_nat (S (S (S m)))) with (Z.of_nat m + 1 * 3) by lia. by rewrite Z.mod_add. }
  intros Hn. unfold pattern. rewrite H by lia. by rewrite Z2Nat.id by lia.
Qed.

Section game.
Context (RESX RESY : Z) (v : fb_info) (g : layout) (flip fbmap : bool).
Abbreviation LL := (line_length v).
Abbreviation SC := (scale g).
Hypothesis Hok : layout_ok RESX RESY v g.

Lemma shown_picture E col s : shown RESX RESY v g flip fbmap E col s ->
  forall p, 0 <= p < yres v * LL -> screen s (yoffset s * LL + p) = frame_byte RESX RESY v g E col p.
Proof.
  intros Hs p Hp. pose proof Hok as (HX & HY & Hsc & Hx & Hxr & Hy0 & Hyr & HL). destruct (LL_pos RESX RESY v g Hok) as [HLL HH].
  unfold frame_byte. pose proof (Z.div_mod p LL). pose proof (Z.mod_pos_bound p LL HLL). set (ln := p / LL - y0 g). set (r := p mod LL) in *.
  assert (p = (y0 g + ln) * LL + r) as Ep by (unfold ln; lia).
  destruct (Z.leb_spec 0 ln), (Z.ltb_spec ln (RESY * SC)); cbn [andb].
  1: { pose proof (Z.div_mod ln SC). pose proof (Z.mod_pos_bound ln SC). set (y := ln / SC) in *. set (j := ln mod SC) in *.
    assert (0 <= y < RESY) as Hy by (split; [apply Z.div_pos; lia|apply Z.div_lt_upper_bound; lia]).
    assert (0 <= j * LL) by (apply Z.mul_nonneg_nonneg; lia). assert ((j + 1) * LL <= SC * LL) by (apply Z.mul_le_mono_nonneg_r; lia).
    pose proof (sh_front _ _ _ _ _ _ _ _ _ Hs y Hy (j * LL + r) ltac:(lia)) as E1. unfold front_base in E1.
    replace (yoffset s * LL + p) with ((yoffset s + y0 g + y * SC) * LL + (j * LL + r)) by lia. rewrite E1, row_img_at by lia.
    destruct (Z.leb_spec (3 * x0 g) r), (Z.leb_spec 0 (r - 3 * x0 g)); try lia; cbn [andb]; [|done].
    destruct (Z.ltb_spec r (3 * x0 g + RESX * (SC * 3))), (Z.ltb_spec (r - 3 * x0 g) (RESX * (SC * 3))); try lia; cbn [default]; [|done].
    unfold row_byte. rewrite (sh_pat _ _ _ _ _ _ _ _ _ Hs), scaled_pattern_nth by (apply Z.mod_pos_bound; lia).
    by rewrite Z.mod_mod_divide by (by exists SC). }
  all: assert (p < y0 g * LL \/ (y0 g + RESY * SC) * LL <= p) as Hout by
    first [left; assert ((ln + 1) * LL <= 0 * LL) by (apply Z.mul_le_mono_nonneg_r; lia); lia|right; assert (RESY * SC * LL <= ln * LL) by (apply Z.mul_le_mono_nonneg_r; lia); lia].
  all: pose proof (sh_ready _ _ _ _ _ _ _ _ _ Hs) as Hr; destruct (rd_dark _ _ _ _ _ _ _ Hr) as [D0 D1];
    pose proof (rd_frames _ _ _ _ _ _ _ Hr) as Hf; destruct flip;
    [destruct Hf as [[Eb|Eb] Eo]; rewrite Eo, Eb; [apply (D1 eq_refl p Hp Hout)|apply (D0 p Hp Hout)]|destruct Hf as [_ Eo]; rewrite Eo; apply (D0 p Hp Hout)].
Qed.
End game.

(** ** From the start *)

Lemma letterbox_black RESY v g fuel : 0 < line_length v -> 0 < RESY * scale g -> forall y total scr, 0 <= y -> total - y <= Z.of_nat fuel -> forall p,
  letterbox RESY v g fuel y total (fun _ => 0) scr p = if (y * line_length v <=? p) && (p <? total * line_length v) then 0 else scr p.
Proof.
  intros HL HH. induction fuel as [|fuel IH]; intros y total scr Hy Hf p; cbn [letterbox].
  { destruct (Z.leb_spec (y * line_length v) p), (Z.ltb_spec p (total * line_length v)); cbn [andb]; try done.
    assert (total * line_length v <= y * line_length v) by (apply Z.mul_le_mono_nonneg_r; lia). lia. }
  destruct (Z.ltb_spec y total) as [Hlt|Hge].
  2: { destruct (Z.leb_spec (y * line_length v) p), (Z.ltb_spec p (total * line_length v)); cbn [andb]; try done.
    assert (total * line_length v <= y * line_length v) by (apply Z.mul_le_mono_nonneg_r; lia). lia. }
  rewrite IH by lia. set (n := if total - y >? RESY * scale g then RESY * scale g else total - y).
  assert (n = Z.min (total - y) (RESY * scale g)) as -> by (unfold n; zcases). unfold pwrite.
  assert ((y + RESY * scale g) * line_length v = y * line_length v + RESY * scale g * line_length v) as E by lia.
  assert (y * line_length v + Z.min (total - y) (RESY * scale g) * line_length v = Z.min (total * line_length v) ((y + RESY * scale g) * line_length v)) as ->.
  { destruct (Z.min_spec (total - y) (RESY * scale g)) as [[? ->]|[? ->]].
    - assert (total * line_length v <= (y + RESY * scale g) * line_length v) by (apply Z.mul_le_mono_nonneg_r; lia). lia.
    - assert ((y + RESY * scale g) * line_length v <= total * line_length v) by (apply Z.mul_le_mono_nonneg_r; lia). lia. }
  assert (0 < RESY * scale g * line_length v) by (apply Z.mul_pos_pos; lia).
  assert (y * line_length v < total * line_length v) by (apply Z.mul_lt_mono_pos_r; lia). zcases.
Qed.

(** The set-up leaves black frames, unless the mapping that was asked for failed on a framebuffer
    with two frames. *)
Lemma game_init_ready RESX RESY v g want_mmap mapped old s flip fbmap : layout_ok RESX RESY v g ->
  init RESX RESY v g want_mmap mapped old = (s, flip, fbmap) -> (want_mmap = true -> mapped = true \/ two_frames v = false) ->
  ready RESX RESY v g flip fbmap s /\ (fbmap = true -> flip = false).
Proof.
  intros Hok Hi Hm. destruct (LL_pos _ _ _ _ Hok) as [HLL HH]. pose proof Hok as (HX & HY & Hsc & Hx & Hxr & Hy0 & Hyr & HL).
  assert (0 < RESY * scale g) by (apply Z.mul_pos_pos; lia). unfold init in Hi.
  set (f0 := negb want_mmap && two_frames v) in *. set (total := yres v * (if f0 then 2 else 1)) in *.
  set (scr := letterbox _ _ _ _ _ _ _ _) in *.
  assert (forall p, 0 <= p < total * line_length v -> scr p = 0) as Hblack.
  { intros p Hp. unfold scr. rewrite letterbox_black by lia. zcases. }
  assert (flip = f0 /\ s = Dg (fun _ => 0) (fun _ => replicate (Z.to_nat RESX) 0) (fun _ => []) (fun _ => []) [] (fun _ => false) (fun _ => false) (if f0 then 1 else 0) scr 0 /\
    (fbmap = true -> f0 = false)) as (-> & -> & Hfb).
  { unfold f0. destruct want_mmap; cbn [negb andb] in *; [destruct mapped; injection Hi as <- <- <-; [done|]|by injection Hi as <- <- <-].
    destruct (Hm eq_refl) as [?|E]; [done|]. by rewrite E. }
  split; [|exact Hfb]. assert (yres v * line_length v <= total * line_length v) by (apply Z.mul_le_mono_nonneg_r; unfold total; destruct f0; lia). split.
  - intros y Hy q pat row Hq _. unfold target, base. destruct fbmap; [|done]. cbn [screen]. apply Hblack.
    pose proof (game_lines RESX RESY v g Hok y q Hy Hq). lia.
  - cbn [back yoffset]. destruct f0; [|done]. split; [by right|lia].
  - cbn [screen]. split; [intros p Hp _; rewrite !Z.mul_0_l; apply Hblack; lia|]. intros Ef p Hp _. apply Hblack. unfold total. rewrite Ef. lia.
Qed.

(** A mapping that fails on a framebuffer with two frames: only the first was blacked, and both are shown. *)
Lemma failed_mapping_keeps_garbage RESX RESY v g old p : layout_ok RESX RESY v g -> two_frames v = true ->
  yres v * line_length v <= p -> let '(s, flip, fbmap) := init RESX RESY v g true false old in flip = true /\ fbmap = false /\ screen s p = old p.
Proof.
  intros Hok Ht Hp. destruct (LL_pos _ _ _ _ Hok) as [HLL HH]. pose proof Hok as (HX & HY & Hsc & Hx & Hxr & Hy0 & Hyr & HL).
  assert (0 < RESY * scale g) by (apply Z.mul_pos_pos; lia). unfold init. cbn [negb andb].
  split; [done|]. split; [done|]. cbn [screen]. rewrite letterbox_black by lia. rewrite !Z.mul_1_r. zcases.
Qed.

Lemma nworkers_cases n : nworkers_of n = 1 \/ nworkers_of n = 2.
Proof. unfold nworkers_of. destruct (_ >=? _); auto. Qed.

Section claims.
Context (RESX RESY : Z) (v : fb_info) (g : layout) (want_mmap mapped : bool) (old : memory) (s0 : dg) (flip fbmap : bool) (ncpu : Z).
Abbreviation nw := (nworkers_of ncpu).
Hypothesis HX : 0 < RESX.
Hypothesis HY : 0 < RESY.
Hypothesis Hlines : 3 * xres v <= line_length v.
Hypothesis Hg : make_layout RESX RESY v = Some g.
Hypothesis Hi : init RESX RESY v g want_mmap mapped old = (s0, flip, fbmap).
Hypothesis Hmap : want_mmap = true -> mapped = true \/ two_frames v = false.
Context (E1 : list (list Z)) (c1 : Z -> colour) (l : list (list (list Z) * option (Z -> colour))) (s : dg).
Hypothesis Hframes : Forall (fun f => frame_ok RESX RESY f.1) ((E1, Some c1) :: l).
Hypothesis Hplays : plays RESX RESY v g flip fbmap nw s0 ((E1, Some c1) :: l) s.
Let E := foldl (fun _ f => f.1) E1 l.
Let col := foldl (fun c f => default c f.2) c1 l.

Lemma reached : layout_ok RESX RESY v g /\ (fbmap = true -> flip = false) /\ shown RESX RESY v g flip fbmap E col s.
Proof.
  pose proof (make_layout_ok _ _ _ _ HX HY Hlines Hg) as Hok. destruct (game_init_ready _ _ _ _ _ _ _ _ _ _ Hok Hi Hmap) as [Hr Hmode].
  split; [done|]. split; [done|]. inversion Hframes as [|? ? HE Hl']; subst. inversion Hplays as [|? ? ? s1 ? ? Hst Hpl]; subst.
  apply (plays_shown RESX RESY v g Hok flip fbmap nw (nworkers_cases ncpu) Hmode s1); [done| |done].
  inversion Hst as [? rows ws s1' Hrows Hws]; subst. apply (frame_shown RESX RESY v g Hok flip fbmap nw (nworkers_cases ncpu) Hmode E1 (Some c1)); try done. by left.
Qed.

(** C14. The screen shows the game.  From any screen of at least the game's size, however the
    framebuffer is reached - written in place, flipped or mapped - and whatever the order in which one or two
    workers expand and write their rows: after every frame of any sequence that starts with a palette,
    the visible frame shows exactly the last frame's indices in the last palette, scaled by the
    largest factor up to eight that fits and centred, on black.  (A mapping that fails on a framebuffer with
    two frames is excluded.) *)
Theorem game_on_screen p : 0 <= p < yres v * line_length v ->
  screen s (yoffset s * line_length v + p) = frame_byte RESX RESY v g E col p.
Proof. destruct reached as (Hok & _ & Hs). by apply (shown_picture RESX RESY v g flip fbmap Hok). Qed.

(** No tearing.  With two frames, while the next frame is expanded and written - any rows so far, by any
    workers, in any order - no byte of the visible frame changes; only the pan, which follows every write,
    exchanges the frames. *)
Theorem game_never_tears E' colours rows ws p : flip = true -> frame_ok RESX RESY E' ->
  (forall y, In y rows -> 0 <= y < RESY) -> (forall wi, In wi ws -> 0 <= wi < nw) -> 0 <= p < yres v * line_length v ->
  let s' := foldl (band_write v g fbmap nw) (foldl (expand RESX v g fbmap) (draw_frame RESY g flip E' colours s) rows) ws in
  screen s' (yoffset s' * line_length v + p) = frame_byte RESX RESY v g E col p.
Proof.
  intros Ef HE' Hrows Hws Hp s'. destruct reached as (Hok & Hmode & Hs).
  assert (fbmap = false) as Em by (destruct fbmap; [by rewrite Hmode in Ef|done]).
  rewrite <-(shown_picture RESX RESY v g flip fbmap Hok E col s Hs p Hp).
  assert (yoffset s' = yoffset s) as ->.
  { by apply progress_yoffset. }
  apply (front_untouched RESX RESY v g Hok flip fbmap nw); try done. apply (sh_ready _ _ _ _ _ _ _ _ _ Hs).
Qed.
End claims.

(** ** Examples *)

Definition v0 : fb_info := FbInfo 5 3 6 16.
Definition g0 : layout := Layout 2 0 0.
Definition E0 : list (list Z) := [[0; 1]].
Definition pal0 : Z -> colour := fun i => (10 * i, 10 * i + 1, 10 * i + 2).

Lemma frame0_ok : Forall (fun f => frame_ok 2 1 f.1) [(E0, Some pal0)].
Proof. repeat constructor. intros y Hy. cbn. by replace y with 0 by lia. Qed.

Lemma plays0 : exists s, plays 2 1 v0 g0 true false 2 (init 2 1 v0 g0 false false (fun _ => 7)).1.1 [(E0, Some pal0)] s.
Proof.
  eexists. eapply PlaysCons; [|apply PlaysNil]. by eapply FrameStep.
Qed.

Lemma game_on_screen_witness : exists s, screen s (yoffset s * 16 + 6) = 10.
Proof.
  destruct plays0 as [s Hs]. exists s.
  exact (game_on_screen 2 1 v0 g0 false false (fun _ => 7) _ true false 2 ltac:(lia) ltac:(lia) ltac:(cbn; lia) eq_refl eq_refl
    ltac:(discriminate) E0 pal0 [] s frame0_ok Hs 6 ltac:(cbn; lia)).
Defined.

Lemma game_never_tears_witness : exists s, let s' := foldl (expand 2 v0 g0 false) (draw_frame 1 g0 true [[1; 0]] None s) [0] in
  screen s' (yoffset s' * 16 + 6) = 10.
Proof.
  destruct plays0 as [s Hs]. exists s.
  exact (game_never_tears 2 1 v0 g0 false false (fun _ => 7) _ true false 2 ltac:(lia) ltac:(lia) ltac:(cbn; lia) eq_refl eq_refl
    ltac:(discriminate) E0 pal0 [] s frame0_ok Hs [[1; 0]] None [0] [] 6 eq_refl
    ltac:(intros y Hy; cbn; by replace y with 0 by lia) ltac:(intros y [<-|[]]; lia) ltac:(done) ltac:(cbn; lia)).
Defined.
