(* ===== verification/DoomKeys.v ===== *)
(** * The game's keyboard, its data file and its way out
      (binaries/linux/userspace/doom/soct_evdev.c, doomgeneric_soct.c)

    The keyboard is found, grabbed and read event by event; its key codes become neutral symbols
    and those the engine's keys, whose numbers are arguments.  Then the search for the game's
    data file with the arguments made from it, and the hand-over of the screen at the exit, which
    races with the worker that flips the frames. *)
From Stdlib Require Import String.
From stdpp Require Import relations.
From S2P Require Import Prelude.
#[local] Open Scope list_scope.
#[local] Abbreviation length := List.length.

(** ** Key codes (linux/input-event-codes.h) *)

Definition EV_KEY : Z := 1.
Definition KEY_ESC : Z := 1.
Definition KEY_1 : Z := 2.
Definition KEY_0 : Z := 11.
Definition KEY_MINUS : Z := 12.
Definition KEY_EQUAL : Z := 13.
Definition KEY_BACKSPACE : Z := 14.
Definition KEY_TAB : Z := 15.
Definition KEY_Q : Z := 16.
Definition KEY_P : Z := 25.
Definition KEY_LEFTBRACE : Z := 26.
Definition KEY_RIGHTBRACE : Z := 27.
Definition KEY_ENTER : Z := 28.
Definition KEY_LEFTCTRL : Z := 29.
Definition KEY_A : Z := 30.
Definition KEY_L : Z := 38.
Definition KEY_SEMICOLON : Z := 39.
Definition KEY_APOSTROPHE : Z := 40.
Definition KEY_LEFTSHIFT : Z := 42.
Definition KEY_Z : Z := 44.
Definition KEY_M : Z := 50.
Definition KEY_COMMA : Z := 51.
Definition KEY_DOT : Z := 52.
Definition KEY_SLASH : Z := 53.
Definition KEY_RIGHTSHIFT : Z := 54.
Definition KEY_LEFTALT : Z := 56.
Definition KEY_SPACE : Z := 57.
Definition KEY_F1 : Z := 59.
Definition KEY_F10 : Z := 68.
Definition KEY_F11 : Z := 87.
Definition KEY_F12 : Z := 88.
Definition KEY_KPENTER : Z := 96.
Definition KEY_RIGHTCTRL : Z := 97.
Definition KEY_RIGHTALT : Z := 100.
Definition KEY_UP : Z := 103.
Definition KEY_LEFT : Z := 105.
Definition KEY_RIGHT : Z := 106.
Definition KEY_DOWN : Z := 108.

(** ** Symbols (soct_evdev.h) *)

Definition SK_NONE : Z := 0.
Definition SK_UP : Z := -1.
Definition SK_DOWN : Z := -2.
Definition SK_LEFT : Z := -3.
Definition SK_RIGHT : Z := -4.
Definition SK_ENTER : Z := -5.
Definition SK_ESCAPE : Z := -6.
Definition SK_TAB : Z := -7.
Definition SK_BACKSPACE : Z := -8.
Definition SK_CTRL : Z := -9.
Definition SK_SHIFT : Z := -10.
Definition SK_ALT : Z := -11.
Definition SK_F1 : Z := -20.

Definition text (s : string) : list Z := map (fun a => Z.of_N (Ascii.N_of_ascii a)) (list_ascii_of_string s).
Definition at_ (s : list Z) (k : Z) : Z := nth (Z.to_nat k) s 0.
Definition within (lo hi c : Z) : bool := (lo <=? c) && (c <=? hi).

(** The keycode rows are contiguous in the order of the keycaps. *)
Definition map_code (code : Z) : Z :=
  if within KEY_1 KEY_0 code then at_ (text "1234567890") (code - KEY_1) else
  if within KEY_Q KEY_P code then at_ (text "qwertyuiop") (code - KEY_Q) else
  if within KEY_A KEY_L code then at_ (text "asdfghjkl") (code - KEY_A) else
  if within KEY_Z KEY_M code then at_ (text "zxcvbnm") (code - KEY_Z) else
  if within KEY_F1 KEY_F10 code then SK_F1 - (code - KEY_F1) else
  if code =? KEY_F11 then SK_F1 - 10 else
  if code =? KEY_F12 then SK_F1 - 11 else
  if code =? KEY_UP then SK_UP else
  if code =? KEY_DOWN then SK_DOWN else
  if code =? KEY_LEFT then SK_LEFT else
  if code =? KEY_RIGHT then SK_RIGHT else
  if (code =? KEY_ENTER) || (code =? KEY_KPENTER) then SK_ENTER else
  if code =? KEY_ESC then SK_ESCAPE else
  if code =? KEY_TAB then SK_TAB else
  if code =? KEY_BACKSPACE then SK_BACKSPACE else
  if (code =? KEY_LEFTCTRL) || (code =? KEY_RIGHTCTRL) then SK_CTRL else
  if (code =? KEY_LEFTSHIFT) || (code =? KEY_RIGHTSHIFT) then SK_SHIFT else
  if (code =? KEY_LEFTALT) || (code =? KEY_RIGHTALT) then SK_ALT else
  if code =? KEY_SPACE then 32 else
  if code =? KEY_MINUS then 45 else
  if code =? KEY_EQUAL then 61 else
  if code =? KEY_COMMA then 44 else
  if code =? KEY_DOT then 46 else
  if code =? KEY_SLASH then 47 else
  if code =? KEY_SEMICOLON then 59 else
  if code =? KEY_APOSTROPHE then 39 else
  if code =? KEY_LEFTBRACE then 91 else
  if code =? KEY_RIGHTBRACE then 93 else SK_NONE.

(** ** The device *)

(** [struct input_event] without its time. *)
Record input_event := Ev { etype : Z; ecode : Z; evalue : Z }.

(** What opens under /dev/input/event[i]: the bitmaps the two ioctls fill, or none. *)
Record input_dev := InputDev { ev_bits : list Z; key_bits : list Z; answers : bool }.
Definition has_bit (bits : list Z) (bit : Z) : bool := negb ((nth (Z.to_nat (bit / 8)) bits 0 .>> (bit mod 8)) .& 1 =? 0).
Definition is_keyboard (d : input_dev) : bool :=
  answers d && has_bit (ev_bits d) EV_KEY && has_bit (key_bits d) KEY_A && has_bit (key_bits d) KEY_ENTER.

(** What happens to the descriptors. *)
Inductive fdev := Open (i : Z) | Grab (i : Z) | Ungrab (i : Z) | Close (i : Z).

(** The scan from device [i] on: the keyboard's number, which is [kbd_fd], and what was done. *)
Fixpoint scan (devs : Z -> option input_dev) (n : nat) (i : Z) : option Z * list fdev :=
  match n with
  | O => (None, [])
  | S n =>
      match devs i with
      | None => scan devs n (i + 1)
      | Some d => if is_keyboard d then (Some i, [Open i; Grab i])
                  else let '(k, l) := scan devs n (i + 1) in (k, Open i :: Close i :: l)
      end
  end.
Definition soct_evdev_open (devs : Z -> option input_dev) : option Z * list fdev := scan devs 32 0.
Definition soct_evdev_close (kbd : option Z) : list fdev := match kbd with Some i => [Ungrab i; Close i] | None => [] end.

(** The queue behind an open keyboard: the answer and what is left. *)
Fixpoint poll_queue (q : list input_event) : option (Z * Z) * list input_event :=
  match q with
  | [] => (None, [])
  | e :: q =>
      if negb (etype e =? EV_KEY) || (evalue e >? 1) then poll_queue q else
      let s := map_code (ecode e) in
      if s =? SK_NONE then poll_queue q else (Some (evalue e, s), q)
  end.
Definition soct_evdev_poll (kbd : option Z) (q : list input_event) : option (Z * Z) * list input_event :=
  match kbd with None => (None, q) | Some _ => poll_queue q end.

(** ** The engine's keys *)

(** The numbers of doomkeys.h. *)
Record engine := Engine {
  e_up : Z; e_down : Z; e_left : Z; e_right : Z; e_enter : Z; e_escape : Z; e_tab : Z; e_backspace : Z;
  e_fire : Z; e_rshift : Z; e_lalt : Z; e_f1 : Z; e_f11 : Z; e_f12 : Z }.

Section keys.
Context (k : engine).

(** The key a symbol is; [None]: the next event is tried. *)
Definition engine_key (sym : Z) : option Z :=
  if sym >? 0 then Some (u8 sym) else
  if sym =? SK_UP then Some (e_up k) else
  if sym =? SK_DOWN then Some (e_down k) else
  if sym =? SK_LEFT then Some (e_left k) else
  if sym =? SK_RIGHT then Some (e_right k) else
  if sym =? SK_ENTER then Some (e_enter k) else
  if sym =? SK_ESCAPE then Some (e_escape k) else
  if sym =? SK_TAB then Some (e_tab k) else
  if sym =? SK_BACKSPACE then Some (e_backspace k) else
  if sym =? SK_CTRL then Some (e_fire k) else
  if sym =? SK_SHIFT then Some (e_rshift k) else
  if sym =? SK_ALT then Some (e_lalt k) else
  if (sym <=? SK_F1) && (sym >? SK_F1 - 12) then
    let n := SK_F1 - sym in Some (if n <? 10 then u8 (e_f1 k + n) else u8 (if n =? 10 then e_f11 k else e_f12 k))
  else None.

Fixpoint DG_GetKey (fuel : nat) (kbd : option Z) (q : list input_event) : res (option (Z * Z) * list input_event) :=
  match fuel with
  | O => Fuel
  | S fuel =>
      match soct_evdev_poll kbd q with
      | (None, q) => Ret (None, q)
      | (Some (pressed, sym), q) =>
          match engine_key sym with
          | Some key => Ret (Some (pressed, key), q)
          | None => DG_GetKey fuel kbd q
          end
      end
  end.

(** The engine's loop: keys until there is none. *)
Fixpoint keys (n : nat) (kbd : option Z) (q : list input_event) : res (list (Z * Z) * list input_event) :=
  match n with
  | O => Fuel
  | S n =>
      '(r, q) ← DG_GetKey 1 kbd q;
      match r with
      | None => Ret ([], q)
      | Some e => '(l, q) ← keys n kbd q; Ret (e :: l, q)
      end
  end.

End keys.

(** ** The data file *)

Definition wad_names : list (list Z) :=
  map text ["doom1.wad"; "doom.wad"; "doom2.wad"; "plutonia.wad"; "tnt.wad"; "freedoom1.wad"; "freedoom2.wad"]%string.

Section wad.
(** Which paths can be read. *)
Context (readable : list Z -> bool).

(** [snprintf] into 512 bytes. *)
Definition media_path (e name : list Z) : list Z := take 511 (text "/media/" ++ e ++ text "/" ++ name).

Fixpoint try_names (path : list Z -> list Z) (names : list (list Z)) : option (list Z) :=
  match names with
  | [] => None
  | n :: names => if readable (path n) then Some (path n) else try_names path names
  end.
Fixpoint try_media (entries : list (list Z)) : option (list Z) :=
  match entries with
  | [] => None
  | e :: entries =>
      if hd 0 e =? 46 then try_media entries else
      match try_names (media_path e) wad_names with Some p => Some p | None => try_media entries end
  end.
(** [media]: the entries of /media, when it opens. *)
Definition find_wad (media : option (list (list Z))) : option (list Z) :=
  match try_names (fun n => n) wad_names with
  | Some p => Some p
  | None => match media with Some entries => try_media entries | None => None end
  end.

(** The engine's arguments; [None] is exit status 1. *)
Definition game_args (media : option (list (list Z))) (allocs : bool) (argv : list (list Z)) : option (list (list Z)) :=
  if existsb (fun a => bool_decide (a = text "-iwad")) (tl argv) then Some argv else
  match find_wad media with
  | None => None
  | Some wad => if allocs then Some (argv ++ [text "-iwad"; wad]) else None
  end.
Definition want_mmap (argv : list (list Z)) : bool := existsb (fun a => bool_decide (a = text "-mmap")) (tl argv).
End wad.

(** ** The way out *)

(** The worker that owns the flip, at its last step of a frame; the exit, step by step. *)
Inductive wpc := WCheck | WPan | WDone.
Inductive mpc := MQuit | MPan | MText | MOut.
Record leaving := Leaving { worker : wpc; exit_at : mpc; quitting : bool; visible : Z }.

(** [back] is the frame the worker is about to show. *)
Inductive leave (back : Z) : leaving -> leaving -> Prop :=
| l_check q m s : leave back (Leaving WCheck m q s) (Leaving (if q : bool then WDone else WPan) m q s)
| l_flip q m s : leave back (Leaving WPan m q s) (Leaving WDone m q back)
| l_quit w q s : leave back (Leaving w MQuit q s) (Leaving w MPan true s)
| l_pan w q s : leave back (Leaving w MPan q s) (Leaving w MText q 0)
| l_text w q s : leave back (Leaving w MText q s) (Leaving w MOut q 0). (* fbcon pans to frame 0 *)

(** ** What the keyboard gives the engine *)

(** What an event is to the engine. *)
Definition means (k : engine) (e : input_event) : option (Z * Z) :=
  if (etype e =? EV_KEY) && (evalue e <=? 1) && negb (map_code (ecode e) =? SK_NONE)
  then key ← engine_key k (map_code (ecode e)); Some (evalue e, key) else None.

Lemma at_row s k : Forall (fun c => 0 < c < 256) s -> 0 <= k < zlen s -> 0 < at_ s k < 256.
Proof.
  intros Hs Hk. unfold at_. rewrite List.Forall_forall in Hs. apply Hs, nth_In. unfold zlen in Hk. lia.
Qed.

(** A symbol is none, a character, or one of the named ones. *)
Lemma map_code_range code : map_code code = SK_NONE \/ 0 < map_code code < 256 \/ -11 <= map_code code <= -1 \/ -31 <= map_code code <= -20.
Proof.
  unfold map_code, within.
  assert (forall s lo hi, Forall (fun c => 0 < c < 256) s -> zlen s = hi - lo + 1 -> (lo <=? code) && (code <=? hi) = true ->
    0 < at_ s (code - lo) < 256) as Hrow.
  { intros s lo hi Hs Hl Hc. apply andb_true_iff in Hc as [H1%Z.leb_le H2%Z.leb_le]. apply at_row; [done|lia]. }
  do 4 (destruct ((_ <=? code) && (code <=? _)) eqn:E;
    [right; left; refine (Hrow _ _ _ _ _ E); [apply (bool_decide_unpack _); by vm_compute|by vm_compute]|clear E]).
  destruct ((_ <=? code) && (code <=? _)) eqn:E.
  { apply andb_true_iff in E as [H1%Z.leb_le H2%Z.leb_le]. unfold SK_F1, KEY_F1, KEY_F10 in *. lia. }
  repeat match goal with |- context [if ?b then _ else _] => destruct b; [cbv; intuition congruence|] end. by left.
Qed.

Lemma symbols_known k code : map_code code <> SK_NONE -> exists key, engine_key k (map_code code) = Some key.
Proof.
  intros Hn. destruct (map_code_range code) as [|H]; [done|]. unfold engine_key. set (s := map_code code) in *.
  unfold SK_NONE, SK_UP, SK_DOWN, SK_LEFT, SK_RIGHT, SK_ENTER, SK_ESCAPE, SK_TAB, SK_BACKSPACE, SK_CTRL, SK_SHIFT, SK_ALT, SK_F1 in *.
  rewrite Z.gtb_ltb. destruct (Z.ltb_spec 0 s); [by eexists|].
  repeat match goal with |- context [if s =? ?v then _ else _] => destruct (Z.eqb_spec s v); [by eexists|] end.
  rewrite Z.gtb_ltb. destruct (Z.leb_spec s (-20)), (Z.ltb_spec (-20 - 12) s); cbn [andb]; [by eexists|lia..].
Qed.

(** So the engine never has to try a second event: one poll is one key. *)
Lemma poll_queue_spec k q :
  match poll_queue q with
  | (None, q') => omap (means k) q = [] /\ q' = []
  | (Some (p, s), q') => exists key, engine_key k s = Some key /\ omap (means k) q = (p, key) :: omap (means k) q' /\ (length q' < length q)%nat
  end.
Proof.
  induction q as [|e q IH]; [done|]. cbn [poll_queue].
  change (omap (means k) (e :: q)) with (match means k e with Some y => y :: omap (means k) q | None => omap (means k) q end).
  assert (means k e = if (etype e =? EV_KEY) && (evalue e <=? 1) && negb (map_code (ecode e) =? SK_NONE)
    then key ← engine_key k (map_code (ecode e)); Some (evalue e, key) else None) as -> by done.
  assert ((evalue e >? 1) = negb (evalue e <=? 1)) as -> by (rewrite Z.gtb_ltb, Z.leb_antisym; by destruct (1 <? evalue e)).
  assert (match poll_queue q with
    | (None, q') => omap (means k) q = [] /\ q' = []
    | (Some (p, s), q') => exists key, engine_key k s = Some key /\ omap (means k) q = (p, key) :: omap (means k) q' /\ (length q' < length (e :: q))%nat
    end) as Hskip.
  { destruct (poll_queue q) as [[[p s]|] q']; [|done]. destruct IH as (key & H1 & H2 & H3). exists key. cbn. split_and!; [done|done|lia]. }
  destruct (etype e =? EV_KEY); cbn [negb orb andb]; [|exact Hskip].
  destruct (evalue e <=? 1); cbn [negb andb]; [|exact Hskip].
  destruct (Z.eqb_spec (map_code (ecode e)) SK_NONE) as [|Hn]; cbn [negb]; [exact Hskip|].
  destruct (symbols_known k (ecode e) Hn) as [key E]. exists key. rewrite E. cbn. split_and!; [done|done|lia].
Qed.

(** C27. The keyboard loses nothing and invents nothing: read until it is empty, the queue gives
    the engine exactly its presses and releases of known keys, in order, as the engine's keys, and
    the queue is drained; autorepeats, other events and unknown keys are dropped. *)
Theorem keys_delivered k i q : keys k (S (length q)) (Some i) q = Ret (omap (means k) q, []).
Proof.
  assert (forall n q, (length q < n)%nat -> keys k n (Some i) q = Ret (omap (means k) q, [])) as H; [|apply H; lia].
  clear q. induction n as [|n IH]; intros q Hn; [lia|]. cbn [keys DG_GetKey soct_evdev_poll].
  pose proof (poll_queue_spec k q) as Hq. destruct (poll_queue q) as [[[p s]|] q'].
  - destruct Hq as (key & -> & -> & Hl). cbn [mbind res_bind]. rewrite IH by lia. done.
  - destruct Hq as [-> ->]. done.
Qed.

(** ** The scan *)

(** Every device opened is closed again or is the keyboard, which alone is grabbed. *)
Lemma scan_balanced devs n : forall i, let '(k, l) := scan devs n i in
  match k with
  | Some j => exists l', l = l' ++ [Open j; Grab j] /\ i <= j < i + Z.of_nat n /\ (exists d, devs j = Some d /\ is_keyboard d = true) /\
      (forall m d, i <= m < j -> devs m = Some d -> is_keyboard d = false) /\ Forall (fun e => match e with Grab _ | Ungrab _ => False | _ => True end) l' /\
      (forall m, In (Open m) l' <-> In (Close m) l')
  | None => (forall m d, i <= m < i + Z.of_nat n -> devs m = Some d -> is_keyboard d = false) /\ (forall m, In (Open m) l <-> In (Close m) l)
  end.
Proof.
  induction n as [|n IH]; intros i; cbn [scan]; [split; [lia|done]|].
  specialize (IH (i + 1)). destruct (devs i) as [d|] eqn:Ed; [destruct (is_keyboard d) eqn:Ek|].
  - exists []. split_and!; [done|lia|lia|by exists d|lia|constructor|done].
  - destruct (scan devs n (i + 1)) as [[j|] l].
    + destruct IH as (l' & -> & Hj & Hk & Hn & Hg & Ho). exists (Open i :: Close i :: l'). split_and!; [done|lia|lia|done| |by do 2 constructor|].
      * intros m d' Hm. destruct (decide (m = i)) as [->|]; [congruence|]. apply Hn. lia.
      * intros m. cbn. rewrite Ho. intuition congruence.
    + destruct IH as [Hn Ho]. split; [|intros m; cbn; rewrite Ho; intuition congruence].
      intros m d' Hm. destruct (decide (m = i)) as [->|]; [congruence|]. apply Hn. lia.
  - destruct (scan devs n (i + 1)) as [[j|] l].
    + destruct IH as (l' & -> & Hj & Hk & Hn & Hg & Ho). exists l'. split_and!; [done|lia|lia|done| |done|done].
      intros m d' Hm. destruct (decide (m = i)) as [->|]; [congruence|]. apply Hn. lia.
    + destruct IH as [Hn Ho]. split; [|done]. intros m d' Hm. destruct (decide (m = i)) as [->|]; [congruence|]. apply Hn. lia.
Qed.

(** ** The data file *)

(** The places that are tried, in order. *)
Definition places (media : option (list (list Z))) : list (list Z) :=
  wad_names ++ flat_map (fun e => map (media_path e) wad_names) (List.filter (fun e => negb (hd 0 e =? 46)) (default [] media)).

Lemma find_app {A} (f : A -> bool) a b : List.find f (a ++ b) = match List.find f a with Some x => Some x | None => List.find f b end.
Proof. induction a as [|x a IH]; cbn; [done|]. by destruct (f x). Qed.

Lemma try_names_find readable path names : try_names readable path names = List.find readable (map path names).
Proof. induction names as [|n names IH]; cbn; [done|]. by destruct (readable _). Qed.

(** The search finds the first of the places that can be read. *)
Lemma find_wad_first readable media : find_wad readable media = List.find readable (places media).
Proof.
  unfold find_wad, places. rewrite find_app, try_names_find, map_id. destruct (List.find readable wad_names); [done|].
  destruct media as [l|]; [|done]. change (default [] (Some l)) with l. induction l as [|e l IH]; cbn [try_media List.filter]; [done|].
  destruct (hd 0 e =? 46); cbn [negb flat_map]; [exact IH|]. rewrite find_app, try_names_find. destruct (List.find _ (map _ _)); [done|exact IH].
Qed.

(** ** The way out *)

(** A worker that has not looked yet when [quitting] is set leaves the console's frame alone. *)
Lemma exit_shows_console back w s s' : w <> WPan -> rtc (leave back) (Leaving w MPan true s) s' -> exit_at s' = MOut -> visible s' = 0.
Proof.
  intros Hw H. assert (forall a, rtc (leave back) a s' -> worker a <> WPan -> quitting a = true ->
    (match exit_at a with MText | MOut => visible a = 0 | _ => True end) -> exit_at a <> MQuit -> exit_at s' = MOut -> visible s' = 0) as Hinv.
  { clear. intros a H. induction H as [a|a b c Hs _ IH]; intros Hw Hq Hv Hm Ho; [by rewrite Ho in Hv|].
    apply IH; destruct Hs; cbn in *; subst; done. }
  by apply (Hinv _ H).
Qed.

(** One that has looked can still flip after the console took the screen back: the console is
    then hidden for good. *)
Lemma exit_hides_console back s : rtc (leave back) (Leaving WCheck MQuit false s) (Leaving WDone MOut true back).
Proof.
  eapply rtc_l; [apply l_check|]. eapply rtc_l; [apply l_quit|]. eapply rtc_l; [apply l_pan|]. eapply rtc_l; [apply l_text|].
  apply rtc_once, l_flip.
Qed.
