(* ===== verification/DoomInit.v ===== *)
(** * The game's start and end (binaries/linux/userspace/doom/doomgeneric_soct.c)

    [DG_Init] from the first open to the last worker, with what each step answers, and every way
    out of it: what it takes of the console (its graphics mode, its descriptor, the grabbed keyboard) and what
    [restore_console], which runs at the exit, gives back.  The layout and the letterbox are
    [Doom.make_layout] and [Doom.init], the keyboard is [DoomKeys.scan]. *)
From S2P Require Import Prelude Doom DoomKeys.
#[local] Open Scope list_scope.
#[local] Abbreviation length := List.length.

(** What the system answers. *)
Record answers := Answers {
  fb_ok : bool; info_ok : bool; bits_per_pixel : Z; screen_info : fb_info; memory_ok : bool; mmap_ok : bool;
  tty0_ok : bool; tty1_ok : bool; graphics_ok : bool; inputs : Z -> option input_dev;
  cpus : Z; create_ok : nat -> bool }.

(** What is done to the outside, in order. *)
Inductive act :=
| AOpenFb | AMap | ASignals | AAtExit
| AOpenTty (n : Z) | ASetMode (graphics : bool) | ACloseTty
| AKbd (e : fdev) | ASpawn (i : nat) | APan (yoffset : Z) | AExit (code : Z).

(** The variables of the file that the exit looks at. *)
Record game := Game { fb_fd : bool; vt_fd : option Z; kbd_fd : option Z; flip : bool; nworkers : nat; at_exit : bool }.
Definition game0 : game := Game false None None false O false.

Definition restore_console (s : game) : list act :=
  map AKbd (soct_evdev_close (kbd_fd s)) ++
  (if flip s && fb_fd s then [APan 0] else []) ++
  match vt_fd s with Some _ => [ASetMode false; ACloseTty] | None => [] end.

(** exit(code), also from [on_signal] and from the engine. *)
Definition exit_ (code : Z) (s : game) : list act := (if at_exit s then restore_console s else []) ++ [AExit code].

(** [spawn_workers]: whether all were created. *)
Fixpoint create (ok : nat -> bool) (i n : nat) : bool * list act :=
  match n with
  | O => (true, [])
  | S n => if ok i then let '(b, l) := create ok (S i) n in (b, ASpawn i :: l) else (false, [])
  end.
Definition spawn_workers (a : answers) : nat * bool * list act :=
  let n := if cpus a >=? 2 then 2%nat else 1%nat in
  let '(ok, l) := create (create_ok a) 0 n in (n, ok, l).

Section start.
Context (RESX RESY : Z) (want_mmap : bool) (a : answers).

Definition two_frames : bool := yres_virtual (screen_info a) >=? 2 * yres (screen_info a).

(** [flip] and whether the framebuffer is mapped. *)
Definition choose_path : bool * bool :=
  if negb want_mmap then (two_frames, false) else if mmap_ok a then (false, true) else (two_frames, false).

Definition open_tty : option Z * list act :=
  if tty0_ok a then (Some 0, [AOpenTty 0]) else if tty1_ok a then (Some 1, [AOpenTty 1]) else (None, []).

(** The state it leaves, whether it returned, and what it did; a failure ends in exit(1). *)
Definition DG_Init : game * bool * list act :=
  let fail s l := (s, false, l ++ exit_ 1 s) in
  if negb (fb_ok a) then fail game0 [] else
  let s := Game true None None false O false in
  let l := [AOpenFb] in
  if negb (info_ok a) then fail s l else
  if negb (bits_per_pixel a =? 24) then fail s l else
  match make_layout RESX RESY (screen_info a) with
  | None => fail s l
  | Some _ =>
      if negb (memory_ok a) then fail s l else
      let '(fl, mapped) := choose_path in
      let l := l ++ (if mapped then [AMap] else []) ++ [ASignals; AAtExit] in
      let '(tty, lt) := open_tty in
      let l := l ++ lt ++ match tty with Some _ => if graphics_ok a then [ASetMode true] else [] | None => [] end in
      let '(kbd, lk) := soct_evdev_open (inputs a) in
      let l := l ++ map AKbd lk in
      let '(n, ok, lw) := spawn_workers a in
      let s := Game true tty kbd fl n true in
      if ok then (s, true, l ++ lw) else fail s (l ++ lw)
  end.
End start.

(** ** What is given back *)

(** The console's mode after a list of acts, its descriptors open, and the keyboards grabbed. *)
Definition mode_after (l : list act) : bool := foldl (fun m x => match x with ASetMode g => g | _ => m end) false l.
Definition ttys_after (l : list act) : Z := foldl (fun n x => match x with AOpenTty _ => n + 1 | ACloseTty => n - 1 | _ => n end) 0 l.
Definition kbd_acts (l : list act) : list fdev := omap (fun x => match x with AKbd e => Some e | _ => None end) l.
Definition grabs_after (l : list act) : list Z :=
  foldl (fun g x => match x with Grab i => i :: g | Ungrab i => List.filter (fun j => negb (j =? i)) g | _ => g end) [] (kbd_acts l).
Definition ends_with (code : Z) (l : list act) : Prop := exists l', l = l' ++ [AExit code].

(** Acts that touch neither the console nor a keyboard. *)
Definition neutral (x : act) : bool := match x with AOpenTty _ | ASetMode _ | ACloseTty | AKbd _ => false | _ => true end.

Definition given_back (l : list act) : Prop := mode_after l = false /\ ttys_after l = 0 /\ grabs_after l = [].

Lemma mode_app l l' : mode_after (l ++ l') = foldl (fun m x => match x with ASetMode g => g | _ => m end) (mode_after l) l'.
Proof. apply foldl_app. Qed.

Lemma ttys_app l l' : ttys_after (l ++ l') = foldl (fun n x => match x with AOpenTty _ => n + 1 | ACloseTty => n - 1 | _ => n end) (ttys_after l) l'.
Proof. apply foldl_app. Qed.

Lemma kbd_app l l' : kbd_acts (l ++ l') = kbd_acts l ++ kbd_acts l'.
Proof. apply omap_app. Qed.

Lemma kbd_map l : kbd_acts (map AKbd l) = l.
Proof. unfold kbd_acts. induction l as [|x l IH]; [done|]. cbn in *. by rewrite IH. Qed.

(** The state of the outside: mode, descriptors, grabs. *)
Definition outside (l : list act) : bool * Z * list Z := (mode_after l, ttys_after l, grabs_after l).

Lemma outside_neutral l l' : Forall (fun x => neutral x = true) l' -> outside (l ++ l') = outside l.
Proof.
  intros H. unfold outside, grabs_after. rewrite mode_app, ttys_app, kbd_app.
  assert (kbd_acts l' = []) as ->.
  { unfold kbd_acts. induction H as [|x l' Hx _ IH]; [done|]. cbn. rewrite IH. by destruct x. }
  rewrite app_nil_r. generalize (mode_after l), (ttys_after l). induction H as [|x l' Hx _ IH]; intros m t; [done|].
  cbn. destruct x; try done; apply IH.
Qed.

Lemma outside_kbd l ks : (outside (l ++ map AKbd ks)).1 = (outside l).1.
Proof.
  unfold outside. cbn [fst]. rewrite mode_app, ttys_app. generalize (mode_after l), (ttys_after l).
  induction ks as [|k ks IH]; intros m t; [done|]. cbn. apply IH.
Qed.

Definition grab_step (g : list Z) (x : fdev) : list Z :=
  match x with Grab i => i :: g | Ungrab i => List.filter (fun j => negb (j =? i)) g | _ => g end.

Lemma grabs_kbd l ks : grabs_after (l ++ map AKbd ks) = foldl grab_step (grabs_after l) ks.
Proof. unfold grabs_after. rewrite kbd_app, kbd_map. apply foldl_app. Qed.

Lemma grabs_quiet ks : Forall (fun e => match e with Grab _ | Ungrab _ => False | _ => True end) ks -> forall g, foldl grab_step g ks = g.
Proof. induction 1 as [|k ks Hk _ IH]; intros g; [done|]. cbn. rewrite IH. by destruct k. Qed.

(** The scan grabs the keyboard it found and nothing else. *)
Lemma scan_quiet devs n : forall i, (scan devs n i).1 = None -> Forall (fun e => match e with Grab _ | Ungrab _ => False | _ => True end) (scan devs n i).2.
Proof.
  induction n as [|n IH]; intros i; cbn [scan]; [constructor|]. destruct (devs i) as [d|]; [destruct (is_keyboard d); [done|]|apply IH].
  specialize (IH (i + 1)). destruct (scan devs n (i + 1)) as [k l]. cbn in *. intros ->. do 2 (constructor; [done|]). by apply IH.
Qed.

Lemma scan_grabs devs g : let '(k, l) := soct_evdev_open devs in
  foldl grab_step g l = match k with Some j => j :: g | None => g end.
Proof.
  pose proof (scan_balanced devs 32 0) as H. pose proof (scan_quiet devs 32 0) as Q. unfold soct_evdev_open. destruct (scan devs 32 0) as [[j|] l]; cbn [fst snd] in Q.
  - destruct H as (l' & -> & _ & _ & _ & Hg & _). rewrite foldl_app, (grabs_quiet l' Hg). done.
  - by rewrite grabs_quiet by auto.
Qed.

Lemma close_grabs k : foldl grab_step (match k with Some j => [j] | None => [] end) (soct_evdev_close k) = [].
Proof. destruct k as [j|]; [|done]. cbn. by rewrite Z.eqb_refl. Qed.

(** What the way out finds: the console in graphics mode only behind an open descriptor, and the
    keyboard grabbed that the variable names. *)
Definition taken (s : game) (l : list act) : Prop :=
  at_exit s = true /\ (exists g, outside l = (g, match vt_fd s with Some _ => 1 | None => 0 end, match kbd_fd s with Some j => [j] | None => [] end) /\
    (vt_fd s = None -> g = false)).

Lemma exit_gives_back s l code : taken s l -> given_back (l ++ exit_ code s) /\ ends_with code (l ++ exit_ code s).
Proof.
  intros [Ha (g & Ho & Hg)]. split; [|exists (l ++ restore_console s); unfold exit_; by rewrite Ha, app_assoc].
  unfold exit_, restore_console. rewrite Ha. rewrite <-!app_assoc.
  pose proof (outside_kbd l (soct_evdev_close (kbd_fd s))) as E1. pose proof (grabs_kbd l (soct_evdev_close (kbd_fd s))) as E2.
  set (l1 := l ++ map AKbd _) in *. rewrite (app_assoc l). fold l1.
  assert (outside l1 = (g, match vt_fd s with Some _ => 1 | None => 0 end, [])) as O1.
  { unfold outside in *. injection Ho as M1 T1 G1. rewrite G1, close_grabs in E2. injection E1 as M2 T2. by rewrite M2, T2, E2, M1, T1. }
  set (l2 := l1 ++ if flip s && fb_fd s then [APan 0] else []).
  assert (outside l2 = outside l1) as O2 by (apply outside_neutral; destruct (_ && _); by repeat constructor).
  rewrite (app_assoc l1). fold l2. rewrite O1 in O2. unfold outside in O2. injection O2 as M2 T2 G2. clearbody l2. clear -M2 T2 G2 Hg.
  destruct (vt_fd s) as [n|].
  - unfold given_back. cbn [app]. unfold grabs_after in *. rewrite mode_app, ttys_app, kbd_app, foldl_app, M2, T2, G2. done.
  - cbn [app]. pose proof (outside_neutral l2 [AExit code] ltac:(by repeat constructor)) as O3. unfold outside in O3. injection O3 as M3 T3 G3.
    unfold given_back. rewrite M3, T3, G3, M2, T2, G2. by rewrite Hg.
Qed.

Lemma create_neutral ok n : forall i, Forall (fun x => neutral x = true) (create ok i n).2.
Proof.
  induction n as [|n IH]; intros i; cbn [create]; [constructor|]. destruct (ok i); [|constructor].
  specialize (IH (S i)). destruct (create ok (S i) n) as [b l]. cbn in *. by constructor.
Qed.

(** C34. The game gives the console back.  Whatever the system answers: when [DG_Init] fails, at any
    step, the program has ended with status 1 and the console is in text mode, its descriptor is closed and no
    keyboard is grabbed, although all three may have been taken by then; when it
    returns, what was taken is what [restore_console] gives back at any later exit, with any status,
    from the engine or from a signal.  In between the console is in graphics mode only behind an open
    descriptor, and exactly the keyboard that is read is grabbed. *)
Theorem console_given_back RESX RESY want_mmap a : let '(s, up, l) := DG_Init RESX RESY want_mmap a in
  if up : bool then taken s l /\ forall code, given_back (l ++ exit_ code s) /\ ends_with code (l ++ exit_ code s)
  else given_back l /\ ends_with 1 l.
Proof.
  unfold DG_Init. destruct (fb_ok a); cbn [negb]; [|split; [done|by exists []]].
  destruct (info_ok a); cbn [negb]; [|split; [done|by exists [AOpenFb]]].
  destruct (bits_per_pixel a =? 24); cbn [negb]; [|split; [done|by exists [AOpenFb]]].
  destruct (make_layout _ _ _) as [lay|]; [|split; [done|by exists [AOpenFb]]].
  destruct (memory_ok a); cbn [negb]; [|split; [done|by exists [AOpenFb]]].
  destruct (choose_path want_mmap a) as [fl mapped]. destruct (open_tty a) as [tty lt] eqn:Et.
  pose proof (scan_grabs (inputs a)) as Hk. destruct (soct_evdev_open (inputs a)) as [kbd lk].
  unfold spawn_workers. pose proof (create_neutral (create_ok a) (if cpus a >=? 2 then 2%nat else 1%nat) 0) as Hc.
  destruct (create (create_ok a) 0 _) as [ok lw]. cbn [snd] in Hc.
  set (s := Game true tty kbd fl _ true). set (l0 := ([AOpenFb] ++ (if mapped then [AMap] else []) ++ [ASignals; AAtExit])).
  set (l1 := l0 ++ lt ++ match tty with Some _ => if graphics_ok a then [ASetMode true] else [] | None => [] end).
  set (l := (l1 ++ map AKbd lk) ++ lw). assert (taken s l) as H.
  { split; [done|]. exists (mode_after l1).
    assert (outside l1 = (mode_after l1, match tty with Some _ => 1 | None => 0 end, []) /\ (tty = None -> mode_after l1 = false)) as [O1 M1].
    { unfold l1, l0, open_tty in *. destruct (tty0_ok a), (tty1_ok a); injection Et as <- <-; destruct mapped, (graphics_ok a); split; done. }
    unfold l. clearbody l1. rewrite outside_neutral by done. split; [|done]. unfold outside in *. injection O1 as T1 G1.
    pose proof (outside_kbd l1 lk) as E1. unfold outside in E1. injection E1 as M2 T2. rewrite grabs_kbd, M2, T2, T1, G1, Hk. by destruct kbd. }
  destruct ok; [split; [done|]; intros code|]; by apply exit_gives_back.
Qed.

(** No worker can be created: the console had been taken, and is given back. *)
Definition ex_answers (workers : bool) : answers :=
  Answers true true 24 (FbInfo 640 480 960 1920) true true false true true (fun _ => None) 2 (fun _ => workers).

Example no_worker : let '(_, up, l) := DG_Init 320 200 false (ex_answers false) in
  (up, l) = (false, [AOpenFb; ASignals; AAtExit; AOpenTty 1; ASetMode true; APan 0; ASetMode false; ACloseTty; AExit 1]).
Proof. reflexivity. Qed.
