(* ===== verification/SoctFb.v ===== *)
(** * The bare-metal display library (binaries/baremetal/soctfb)

    soctfb.c draws into a 24-bit frame, video.c keeps the two frame stores, pushes pixels
    past the caches and programs the frame fetch (VDMA) and the timing generator (VTC);
    soctfb_font.h has the glyphs, soct_xil.c the address window and the timing table.
    Memory is seen twice, as in [DpFb]: by the CPU ([cpu]) and by the frame fetch ([dram]),
    and a write to Flush64 copies one cache line.  The DisplayPort link (dp.c over the
    vendored driver) is not here. *)
From Stdlib Require Import String.
From S2P Require Import Prelude Mmio DpMode.
#[local] Open Scope list_scope.
#[local] Abbreviation length := List.length.

Definition memory : Type := Z -> Z.
(** A byte store. *)
Definition store8 (p v : Z) (m : memory) : memory := fun q => if q =? p then u8 v else m q.

(** ** Drawing *)

Record soctfb := Soctfb { width : Z; height : Z; pixels : Z }.

(** [for (v = 0; v < n; v++)]. *)
Definition loop {S} (n : Z) (body : S -> Z -> S) (s : S) : S := foldl body s (seqZ 0 n).

Definition px_at (fb : soctfb) (x y : Z) : Z := u64 (pixels fb + u64 (u64 (u64 (y * width fb) + x) * 3)).
Definition px_set (p rgb : Z) (m : memory) : memory :=
  store8 (p + 2) (rgb .>> 16) (store8 (p + 1) (rgb .>> 8) (store8 p rgb m)).

(** The clamped width and height; [None] is the answer 0. *)
Definition clip (fb : soctfb) (x y w h : Z) : option (Z * Z) :=
  if (x >=? width fb) || (y >=? height fb) then None else
  let w := if u32 (x + w) >? width fb then u32 (width fb - x) else w in
  let h := if u32 (y + h) >? height fb then u32 (height fb - y) else h in
  if (w =? 0) || (h =? 0) then None else Some (w, h).

Definition soctfb_pixel (fb : soctfb) (x y rgb : Z) (m : memory) : memory :=
  if (x <? width fb) && (y <? height fb) then px_set (px_at fb x y) rgb m else m.

(** One row: [w] pixels from [p] on, the colour of each by its column. *)
Definition draw_row (w p : Z) (colour : Z -> Z) (m : memory) : memory :=
  (loop w (fun '(m, p) c => (px_set p (colour c) m, u64 (p + 3))) (m, p)).1.

Definition soctfb_fill (fb : soctfb) (x y w h rgb : Z) (m : memory) : memory :=
  match clip fb x y w h with
  | None => m
  | Some (w, h) => loop h (fun m r => draw_row w (px_at fb x (u32 (y + r))) (fun _ => rgb) m) m
  end.

Definition soctfb_rect (fb : soctfb) (x y w h thickness rgb : Z) (m : memory) : memory :=
  if (u32 (thickness * 2) >=? w) || (u32 (thickness * 2) >=? h) then soctfb_fill fb x y w h rgb m else
  let m := soctfb_fill fb x y w thickness rgb m in
  let m := soctfb_fill fb x (u32 (y + h - thickness)) w thickness rgb m in
  let m := soctfb_fill fb x (u32 (y + thickness)) thickness (u32 (h - u32 (2 * thickness))) rgb m in
  soctfb_fill fb (u32 (x + w - thickness)) (u32 (y + thickness)) thickness (u32 (h - u32 (2 * thickness))) rgb m.

(** ** Text *)

Definition SOCTFB_GLYPH_W : Z := 8.
Definition SOCTFB_GLYPH_H : Z := 16.

Definition soctfb_font_digits : list (list Z) :=
  [ [0x3C; 0x66; 0x6E; 0x76; 0x66; 0x66; 0x3C; 0x00]; [0x18; 0x38; 0x18; 0x18; 0x18; 0x18; 0x7E; 0x00];
    [0x3C; 0x66; 0x06; 0x0C; 0x18; 0x30; 0x7E; 0x00]; [0x3C; 0x66; 0x06; 0x1C; 0x06; 0x66; 0x3C; 0x00];
    [0x0C; 0x1C; 0x3C; 0x6C; 0x7E; 0x0C; 0x0C; 0x00]; [0x7E; 0x60; 0x7C; 0x06; 0x06; 0x66; 0x3C; 0x00];
    [0x3C; 0x66; 0x60; 0x7C; 0x66; 0x66; 0x3C; 0x00]; [0x7E; 0x06; 0x0C; 0x18; 0x30; 0x30; 0x30; 0x00];
    [0x3C; 0x66; 0x66; 0x3C; 0x66; 0x66; 0x3C; 0x00]; [0x3C; 0x66; 0x66; 0x3E; 0x06; 0x0C; 0x38; 0x00] ].
Definition soctfb_font_upper : list (list Z) :=
  [ [0x18; 0x3C; 0x66; 0x66; 0x7E; 0x66; 0x66; 0x00]; [0x7C; 0x66; 0x66; 0x7C; 0x66; 0x66; 0x7C; 0x00];
    [0x3C; 0x66; 0x60; 0x60; 0x60; 0x66; 0x3C; 0x00]; [0x78; 0x6C; 0x66; 0x66; 0x66; 0x6C; 0x78; 0x00];
    [0x7E; 0x60; 0x60; 0x7C; 0x60; 0x60; 0x7E; 0x00]; [0x7E; 0x60; 0x60; 0x7C; 0x60; 0x60; 0x60; 0x00];
    [0x3C; 0x66; 0x60; 0x6E; 0x66; 0x66; 0x3E; 0x00]; [0x66; 0x66; 0x66; 0x7E; 0x66; 0x66; 0x66; 0x00];
    [0x3C; 0x18; 0x18; 0x18; 0x18; 0x18; 0x3C; 0x00]; [0x06; 0x06; 0x06; 0x06; 0x06; 0x66; 0x3C; 0x00];
    [0x66; 0x6C; 0x78; 0x70; 0x78; 0x6C; 0x66; 0x00]; [0x60; 0x60; 0x60; 0x60; 0x60; 0x60; 0x7E; 0x00];
    [0x63; 0x77; 0x7F; 0x6B; 0x63; 0x63; 0x63; 0x00]; [0x66; 0x76; 0x7E; 0x7E; 0x6E; 0x66; 0x66; 0x00];
    [0x3C; 0x66; 0x66; 0x66; 0x66; 0x66; 0x3C; 0x00]; [0x7C; 0x66; 0x66; 0x7C; 0x60; 0x60; 0x60; 0x00];
    [0x3C; 0x66; 0x66; 0x66; 0x6A; 0x6C; 0x36; 0x00]; [0x7C; 0x66; 0x66; 0x7C; 0x78; 0x6C; 0x66; 0x00];
    [0x3C; 0x66; 0x60; 0x3C; 0x06; 0x66; 0x3C; 0x00]; [0x7E; 0x18; 0x18; 0x18; 0x18; 0x18; 0x18; 0x00];
    [0x66; 0x66; 0x66; 0x66; 0x66; 0x66; 0x3C; 0x00]; [0x66; 0x66; 0x66; 0x66; 0x66; 0x3C; 0x18; 0x00];
    [0x63; 0x63; 0x63; 0x6B; 0x7F; 0x77; 0x63; 0x00]; [0x66; 0x66; 0x3C; 0x18; 0x3C; 0x66; 0x66; 0x00];
    [0x66; 0x66; 0x66; 0x3C; 0x18; 0x18; 0x18; 0x00]; [0x7E; 0x06; 0x0C; 0x18; 0x30; 0x60; 0x7E; 0x00] ].
Definition soctfb_font_punct : list (list Z) :=
  [ [0x00; 0x00; 0x00; 0x00; 0x00; 0x00; 0x00; 0x00]; [0x00; 0x00; 0x00; 0x00; 0x00; 0x18; 0x18; 0x00];
    [0x62; 0x64; 0x08; 0x10; 0x26; 0x46; 0x00; 0x00]; [0x00; 0x18; 0x18; 0x00; 0x18; 0x18; 0x00; 0x00];
    [0x00; 0x00; 0x00; 0x7E; 0x00; 0x00; 0x00; 0x00]; [0x00; 0x00; 0x00; 0x00; 0x00; 0x18; 0x18; 0x30];
    [0x02; 0x04; 0x08; 0x10; 0x20; 0x40; 0x00; 0x00] ].
Definition soctfb_font_box : list Z := [0x7E; 0x42; 0x42; 0x42; 0x42; 0x42; 0x7E; 0x00].

Definition at_ (l : list (list Z)) (i : Z) : list Z := nth (Z.to_nat i) l [].
Definition soctfb_glyph (c : Z) : list Z :=
  if (48 <=? c) && (c <=? 57) then at_ soctfb_font_digits (c - 48)
  else if (65 <=? c) && (c <=? 90) then at_ soctfb_font_upper (c - 65)
  else if (97 <=? c) && (c <=? 122) then at_ soctfb_font_upper (c - 97)
  else if c =? 32 then at_ soctfb_font_punct 0
  else if c =? 46 then at_ soctfb_font_punct 1
  else if c =? 37 then at_ soctfb_font_punct 2
  else if c =? 58 then at_ soctfb_font_punct 3
  else if c =? 45 then at_ soctfb_font_punct 4
  else if c =? 44 then at_ soctfb_font_punct 5
  else if c =? 47 then at_ soctfb_font_punct 6
  else soctfb_font_box.

(** Whether the glyph of [c] has a pixel at column [i], row [j]. *)
Definition glyph_bit (c i j : Z) : bool := tst (nth (Z.to_nat (j / 2)) (soctfb_glyph c) 0) (0x80 .>> i).

Definition draw_glyph (fb : soctfb) (x y c rgb : Z) (m : memory) : memory :=
  loop SOCTFB_GLYPH_H (fun m r =>
    loop SOCTFB_GLYPH_W (fun m i => if glyph_bit c i r then soctfb_pixel fb (u32 (x + i)) (u32 (y + r)) rgb m else m) m) m.

(** [s] is the string without its terminator; the answer is [x] after the last glyph. *)
Fixpoint soctfb_text (fb : soctfb) (x y : Z) (s : list Z) (rgb : Z) (m : memory) : Z * memory :=
  match s with
  | [] => (x, m)
  | c :: s => soctfb_text fb (u32 (x + SOCTFB_GLYPH_W)) y s rgb (draw_glyph fb x y c rgb m)
  end.

(** ** Images *)

(** [gray]: the bytes from the pointer on. *)
Definition grey (v : Z) : Z := v .| (v .<< 8) .| (v .<< 16).

Definition soctfb_blit_gray (fb : soctfb) (x y w h : Z) (gray : Z -> Z) (m : memory) : memory :=
  let src_w := w in
  match clip fb x y w h with
  | None => m
  | Some (w, h) =>
      loop h (fun m r => let src := r * src_w in
        draw_row w (px_at fb x (u32 (y + r))) (fun c => grey (gray (src + c))) m) m
  end.

Definition soctfb_blit_gray_scaled (fb : soctfb) (x y w h : Z) (gray : Z -> Z) (scale : Z) (m : memory) : memory :=
  let ow := u32 (w * scale) in let oh := u32 (h * scale) in
  if scale =? 0 then m else
  match clip fb x y ow oh with
  | None => m
  | Some (ow, oh) =>
      loop oh (fun m r => let src := r / scale * w in
        draw_row ow (px_at fb x (u32 (y + r))) (fun c => grey (gray (src + c / scale))) m) m
  end.

(** ** Frame stores and visibility (video.c) *)

Record video := Video {
  fb_width : Z; fb_height : Z; fb_draw : Z; s_stores : Z * Z; s_front : Z;
  s_incoherent : bool; cpu : memory; dram : memory }.

Definition set_draw p v := Video (fb_width v) (fb_height v) p (s_stores v) (s_front v) (s_incoherent v) (cpu v) (dram v).
Definition set_front f v := Video (fb_width v) (fb_height v) (fb_draw v) (s_stores v) f (s_incoherent v) (cpu v) (dram v).
Definition set_cpu m v := Video (fb_width v) (fb_height v) (fb_draw v) (s_stores v) (s_front v) (s_incoherent v) m (dram v).
Definition set_dram m v := Video (fb_width v) (fb_height v) (fb_draw v) (s_stores v) (s_front v) (s_incoherent v) (cpu v) m.

Definition fb_size (v : video) : Z := u64 (u64 (fb_width v * fb_height v) * 3).
Definition fb_store (v : video) (i : Z) : Z := if i .& 1 =? 0 then fst (s_stores v) else snd (s_stores v).
Definition fb_front (v : video) : Z := s_front v.
Definition fb_draw_into (buf : Z) (v : video) : video := set_draw buf v.

(** What the frame fetch reads. *)
Definition scanned (v : video) : memory := if s_incoherent v then dram v else cpu v.

(** One write to Flush64. *)
Definition flush_line (v : video) (a : Z) : video :=
  set_dram (fun p => if (a <=? p) && (p <? a + 64) then cpu v p else dram v p) v.

(** The lines [l2_flush_range] writes to the register, in order. *)
Fixpoint lines_from (fuel : nat) (a e : Z) : list Z :=
  match fuel with
  | O => []
  | S fuel => if a <? e then a :: lines_from fuel (u64 (a + 64)) e else []
  end.
Definition flush_lines (addr len : Z) : list Z :=
  lines_from (Z.to_nat (len / 64 + 3)) (addr .& cnot 64 63) (u64 (addr + len + 63) .& cnot 64 63).
Definition l2_flush_range (addr len : Z) (v : video) : video := foldl flush_line v (flush_lines addr len).

Definition fb_flush (addr len : Z) (v : video) : video :=
  if negb (s_incoherent v) then v else l2_flush_range addr len v.
Definition fb_flush_draw (v : video) : video := fb_flush (fb_draw v) (fb_size v) v.
Definition fb_flush_rect (x y w h : Z) (v : video) : video :=
  if negb (s_incoherent v) then v else
  let stride := u64 (fb_width v * 3) in
  loop h (fun v r => l2_flush_range (u64 (fb_draw v + u64 (u32 (y + r) * stride) + u64 (x * 3))) (u64 (w * 3)) v) v.

Definition memset (dst val n : Z) (m : memory) : memory := fun p => if (dst <=? p) && (p <? dst + n) then val else m p.
Definition memcpy (dst src n : Z) (m : memory) : memory := fun p => if (dst <=? p) && (p <? dst + n) then m (src + (p - dst)) else m p.

Definition fb_clear (v : video) : video := set_cpu (memset (fb_draw v) 0 (fb_size v) (cpu v)) v.
Definition fb_put_pixel (x y r g b : Z) (v : video) : video :=
  let px := u64 (fb_draw v + u32 (u32 (u32 (y * fb_width v) + x) * 3)) in
  set_cpu (store8 px b (store8 (px + 1) g (store8 (px + 2) r (cpu v)))) v.

(** [malloc]'s answers for the two stores; [None] aborts. *)
Definition fb_init (bufs : option Z * option Z) (w h : Z) (v : video) : option video :=
  let align buf := u64 (buf + 63) .& cnot 64 63 in
  match bufs with
  | (Some a, Some b) => Some (Video w h (align a) (align a, align b) 0 (s_incoherent v) (cpu v) (dram v))
  | _ => None
  end.

(** Black frames in both stores, flushed: what [soctfb_init] does between [fb_init] and the hardware. *)
Definition blackened (v : video) : video :=
  let v := fb_clear (fb_draw_into (fb_store v 0) v) in
  let v := set_cpu (memcpy (fb_store v 1) (fb_store v 0) (fb_size v) (cpu v)) v in
  fb_flush (fb_store v 1) (fb_size v) (fb_flush (fb_store v 0) (fb_size v) v).

Definition soctfb_flush (fb : soctfb) (x y w h : Z) (v : video) : video :=
  match clip fb x y w h with
  | None => v
  | Some (w, h) => fb_flush_rect x y w h (fb_draw_into (pixels fb) v)
  end.
Definition soctfb_flush_all (fb : soctfb) (v : video) : video := fb_flush (pixels fb) (fb_size v) v.
Definition soctfb_backbuffer (fb : soctfb) (v : video) : soctfb * video :=
  let v := fb_draw_into (fb_store v (fb_front v .^ 1)) v in (Soctfb (width fb) (height fb) (fb_draw v), v).

(** ** The frame fetch and the timing generator *)

Definition VDMA_PARK_PTR_RD_MASK : Z := 0x1F.
Definition VDMA_PARK_PTR_RDSTORE_SHIFT : Z := 16.
Definition VDMA_DMASR_FRMCNT_IRQ : Z := 0x1000.
Definition VTC_ISR : Z := 4.
Definition VTC_ISR_G_VBLANK : Z := 0x1000.

Definition vdma_reachable (buf len : Z) : bool := u64 (buf + len) <=? 0x100000000.

(** [XVidC_VideoTimingModes]: the refresh and the fields of XVidC_VideoTiming; the pixel clock, which
    the table leaves out, is written in front. *)
Definition XVidC_VideoTimingModes : list msa :=
  [ Msa (800 * 525 * 60) 60 640 16 96 48 800 0 480 10 2 33 525 0;
    Msa (1650 * 750 * 60) 60 1280 110 40 220 1650 1 720 5 5 20 750 1;
    Msa (2200 * 1125 * 60) 60 1920 88 44 148 2200 1 1080 4 5 36 1125 1 ].

(** The search of [soctfb_init] for the design's mode. *)
Definition find_mode (w h fps : Z) : option msa :=
  List.find (fun t => (HActive t =? w) && (VActive t =? h) && (FrameRate t =? fps)) XVidC_VideoTimingModes.

Definition XVidC_GetPixelClockHzByVmId (vm : Z) : option Z :=
  if vm >=? 3 then None else
  match nth_error XVidC_VideoTimingModes (Z.to_nat vm) with Some t => Some (u64 (u64 (HTotal t * F0PVTotal t) * FrameRate t)) | None => None end.

Definition timing_words (base : Z) (t : msa) : list (Z * Z) :=
  let hss := u32 (HActive t + HFrontPorch t) in
  let hbs := u32 (hss + HSyncWidth t) in
  let vss := u32 (VActive t + F0PVFrontPorch t) in
  let vbs := u32 (vss + F0PVSyncWidth t) in
  [ (base + VTC_GHSIZE, HTotal t);
    (base + VTC_GVSIZE, F0PVTotal t .| u32 (F0PVTotal t .<< 16));
    (base + VTC_GASIZE, HActive t .| u32 (VActive t .<< 16));
    (base + VTC_GASIZE_F1, u32 (VActive t .<< 16));
    (base + VTC_GHSYNC, hss .| u32 (hbs .<< 16));
    (base + VTC_GVSYNC, vss .| u32 (vbs .<< 16));
    (base + VTC_GVSYNC_F1, vss .| u32 (vbs .<< 16));
    (base + VTC_GFENC, 0);
    (base + VTC_GVBHOFF, HActive t .| u32 (HActive t .<< 16));
    (base + VTC_GVSHOFF, hss .| u32 (hss .<< 16));
    (base + VTC_GVBHOFF_F1, HActive t .| u32 (HActive t .<< 16));
    (base + VTC_GVSHOFF_F1, hss .| u32 (hss .<< 16));
    (base + VTC_GPOL, VTC_POL_BASE .| (if HSyncPolarity t =? 0 then 0 else VTC_POL_HSP) .| (if VSyncPolarity t =? 0 then 0 else VTC_POL_VSP));
    (base + VTC_CTL, VTC_CTL_ALLSS .| VTC_CTL_RU .| VTC_CTL_GE .| VTC_CTL_SW) ].

Section hardware.
Context {D : Type} {HD : Mmio D}.
Abbreviation drv := (prog (bus D * video)).

(** [true] when the program goes on, [false] when it aborts. *)
Fixpoint stores (l : list (Z * Z)) : drv unit := match l with [] => mret tt | (r, v) :: l => wr r v;; stores l end.

Definition vdma_status (base : Z) : drv Z := rd (base + VDMA_MM2S_DMASR).
Definition vdma_clear_frame_done (base : Z) : drv unit := wr (base + VDMA_MM2S_DMASR) VDMA_DMASR_FRMCNT_IRQ.
Definition vdma_take_frame_done (base : Z) : drv Z :=
  sr ← rd (base + VDMA_MM2S_DMASR);
  if negb (tst sr VDMA_DMASR_FRMCNT_IRQ) then mret 0 else
  wr (base + VDMA_MM2S_DMASR) VDMA_DMASR_FRMCNT_IRQ;; mret 1.

Definition vdma_park (base store : Z) : drv unit :=
  pp ← rd (base + VDMA_PARK_PTR);
  wr (base + VDMA_PARK_PTR) ((pp .& cnot 32 VDMA_PARK_PTR_RD_MASK) .| store).

Definition read_store (pp : Z) : Z := (pp .>> VDMA_PARK_PTR_RDSTORE_SHIFT) .& VDMA_PARK_PTR_RD_MASK.
(** The loop gives up after its 1002nd look. *)
Definition vdma_park_wait (base store : Z) : drv bool :=
  vdma_park base store;;
  cur ← poll_until 1001 (base + VDMA_PARK_PTR) (fun pp => read_store pp =? store);
  match cur with Some _ => mret true | None => _ ← rd (base + VDMA_PARK_PTR); mret false end.

Definition vdma_start_words (base fb0 fb1 w h : Z) : list (Z * Z) :=
  [ (base + VDMA_MM2S_START_ADDR1, u32 fb0); (base + VDMA_MM2S_START_ADDR1 + 4, u32 fb1); (base + VDMA_MM2S_START_ADDR1 + 8, u32 fb0);
    (base + VDMA_MM2S_HSIZE, u32 (w * 3)); (base + VDMA_MM2S_FRMDLY_STRIDE, u32 (w * 3)); (base + VDMA_MM2S_VSIZE, h) ].

Definition vdma_start (fuel : nat) (base fb0 fb1 : Z) : drv bool :=
  v ← get;
  if negb (vdma_reachable fb0 (fb_size v)) then mret false else
  if negb (vdma_reachable fb1 (fb_size v)) then mret false else
  wr (base + VDMA_MM2S_DMACR) VDMA_DMACR_RESET;;
  _ ← poll fuel (base + VDMA_MM2S_DMACR) (fun cr => negb (tst cr VDMA_DMACR_RESET));
  cr ← rd (base + VDMA_MM2S_DMACR);
  wr (base + VDMA_MM2S_DMACR) ((cr .| VDMA_DMACR_RS) .& cnot 32 VDMA_DMACR_CIRCULAR);;
  wr (base + VDMA_PARK_PTR) 0;;
  stores (vdma_start_words base fb0 fb1 (fb_width v) (fb_height v));;
  sr ← rd (base + VDMA_MM2S_DMASR);
  mret (negb (tst sr VDMA_DMASR_HALTED)).

Definition vtc_start (base : Z) (t : msa) : drv unit := stores (timing_words base t).
Definition vtc_clear_status (base : Z) : drv unit := wr (base + VTC_ISR) 0xFFFFFFFF.
Definition vtc_status (base : Z) : drv Z := rd (base + VTC_ISR).
Definition vtc_saw_vblank (base : Z) : drv bool := isr ← vtc_status base; mret (tst isr VTC_ISR_G_VBLANK).

Definition fb_flip (vdma_base : Z) : drv bool :=
  v ← get;
  let next := s_front v .^ 1 in
  ok ← vdma_park_wait vdma_base next;
  if negb ok then mret false else
  put (fun v => set_draw (fb_store v (next .^ 1)) (set_front next v));; mret true.

Definition soctfb_flip (vdma_base : Z) (fb : soctfb) : drv (option soctfb) :=
  ok ← fb_flip vdma_base;
  if negb ok then mret None else
  v ← get; mret (Some (Soctfb (width fb) (height fb) (fb_draw v))).

(** The middle of [soctfb_init], from the mode to the running pipeline: black frames, flushed,
    then the fetch, then the timing. *)
Definition bring_up (fuel : nat) (vdma_base vtc_base w h fps : Z) (bufs : option Z * option Z) : drv (option soctfb) :=
  match find_mode w h fps with
  | None => mret None
  | Some t =>
      v ← get;
      match fb_init bufs w h v with
      | None => mret None
      | Some v =>
          let v := blackened v in
          put (fun _ => v);;
          ok ← vdma_start fuel vdma_base (fb_store v 0) (fb_store v 1);
          if negb ok then mret None else
          vtc_start vtc_base t;;
          mret (Some (Soctfb w h (fb_draw v)))
      end
  end.
End hardware.

(** ** The PS window and the clock (soct_xil.c) *)

Record window := Window { s_ps_base : Z; s_window_base : Z; s_window_size : Z }.
Definition window0 : window := Window 0 0 0.
Definition SoctXil_SetPsWindow (ps_base window_base window_size : Z) : option window :=
  if window_size =? 0 then None else Some (Window ps_base window_base window_size).
(** [None] aborts. *)
Definition translate (s : window) (addr : Z) : option Z :=
  if s_window_size s =? 0 then None else
  if (addr >=? s_ps_base s) && (u64 (addr - s_ps_base s) <? s_window_size s) then Some (u64 (u64 (addr - s_ps_base s) + s_window_base s))
  else if addr <? 0x80000000 then Some addr else None.
Definition SoctXil_SetCpuFreqHz (hz : Z) : option Z := let s_cycles_per_us := hz / 1000000 in if s_cycles_per_us =? 0 then None else Some s_cycles_per_us.
