(* ===== verification/SoctFbProofs.v ===== *)
(** * The bare-metal display library: proofs

    Every drawing operation of [SoctFb] is a painting: the pixels it covers get its colour,
    every other byte of memory keeps its value ([paints]).  A flush then carries what was
    drawn to the frame fetch, and a flip exchanges the two frames. *)
From S2P Require Import Prelude Mmio DpMode SoctFb.
#[local] Open Scope list_scope.
#[local] Abbreviation length := List.length.

(** ** Loops *)

Lemma loop_0 {S} (body : S -> Z -> S) s : loop 0 body s = s.
Proof. done. Qed.

(** What holds before a loop and is kept by every round holds after it. *)
Lemma loop_ind {S} (body : S -> Z -> S) (P : Z -> S -> Prop) s n : 0 <= n ->
  P 0 s -> (forall k s', 0 <= k < n -> P k s' -> P (k + 1) (body s' k)) -> P n (loop n body s).
Proof. intros Hn H0 Hs. exact (foldl_seqZ_ind body P s 0 n Hn H0 Hs). Qed.

(** ** Paintings *)

Definition byte (k rgb : Z) : Z := u8 (rgb .>> (8 * k)).
Definition painting : Type := Z -> Z -> option Z.
Definition blank : painting := fun _ _ => None.
(** [g] over [f]. *)
Definition over (f g : painting) : painting := fun i j => match g i j with Some c => Some c | None => f i j end.
Definition in_box (x y w h i j : Z) : bool := bool_decide (x <= i < x + w /\ y <= j < y + h).
Definition box (x y w h : Z) (colour : Z -> Z -> Z) : painting := fun i j => if in_box x y w h i j then Some (colour (i - x) (j - y)) else None.

Section frame.
Context (fb : soctfb).
Abbreviation FW := (width fb).
Abbreviation FH := (height fb).
Abbreviation FB := (pixels fb).

(** The frame lies in the address space. *)
Definition frame_ok : Prop := fits 32 FW /\ fits 32 FH /\ 0 <= FB /\ FB + 3 * (FW * FH) < 2 ^ 64.
Definition px (x y : Z) : Z := FB + (y * FW + x) * 3.

(** From [m] to [m'] exactly the painting [f] was put on the frame. *)
Definition paints (m m' : memory) (f : painting) : Prop :=
  (forall x y k, 0 <= x < FW -> 0 <= y < FH -> 0 <= k < 3 ->
     m' (px x y + k) = match f x y with Some rgb => byte k rgb | None => m (px x y + k) end) /\
  (forall p, p < FB \/ FB + 3 * (FW * FH) <= p -> m' p = m p).

Lemma paints_refl m : paints m m blank.
Proof. done. Qed.

Lemma paints_trans m m1 m2 f g : paints m m1 f -> paints m1 m2 g -> paints m m2 (over f g).
Proof.
  intros [F1 F2] [G1 G2]. split.
  - intros x y k Hx Hy Hk. rewrite G1 by done. unfold over. destruct (g x y); [done|]. by apply F1.
  - intros p Hp. rewrite G2 by done. by apply F2.
Qed.

Lemma paints_ext m m' f g : (forall i j, 0 <= i < FW -> 0 <= j < FH -> f i j = g i j) -> paints m m' f -> paints m m' g.
Proof. intros E [F1 F2]. split; [|done]. intros x y k Hx Hy Hk. by rewrite <-E, F1. Qed.

Hypothesis Hok : frame_ok.

Lemma px_bounds x y : 0 <= x < FW -> 0 <= y < FH -> FB <= px x y /\ px x y + 3 <= FB + 3 * (FW * FH).
Proof.
  intros Hx Hy. unfold px. assert (0 <= y * FW) by (apply Z.mul_nonneg_nonneg; lia).
  assert ((y + 1) * FW <= FH * FW) by (apply Z.mul_le_mono_nonneg_r; lia). lia.
Qed.

Lemma px_at_eq x y : 0 <= x < FW -> 0 <= y < FH -> px_at fb x y = px x y.
Proof.
  intros Hx Hy. destruct Hok as (_ & _ & HB & Hend). pose proof (px_bounds x y Hx Hy) as Hp. unfold px in *. unfold px_at.
  assert (0 <= y * FW) by (apply Z.mul_nonneg_nonneg; lia).
  rewrite (wrap_small 64 (y * FW)), (wrap_small 64 (y * FW + x)), (wrap_small 64 ((y * FW + x) * 3)), wrap_small by (unfold fits; lia). done.
Qed.

(** Distinct pixels have distinct bytes. *)
Lemma px_inj x y k x' y' k' : 0 <= x < FW -> 0 <= x' < FW -> 0 <= k < 3 -> 0 <= k' < 3 ->
  px x y + k = px x' y' + k' -> x = x' /\ y = y' /\ k = k'.
Proof.
  unfold px. intros Hx Hx' Hk Hk' E. assert (k = k' /\ y * FW + x = y' * FW + x') as [-> E'] by lia.
  assert (y = y') as ->; [|lia].
  destruct (Z.lt_trichotomy y y') as [Hl|[->|Hl]]; [|done|]; exfalso.
  - assert ((y + 1) * FW <= y' * FW) by (apply Z.mul_le_mono_nonneg_r; lia). lia.
  - assert ((y' + 1) * FW <= y * FW) by (apply Z.mul_le_mono_nonneg_r; lia). lia.
Qed.

Lemma px_set_byte p rgb m q : px_set p rgb m q =
  if q =? p + 2 then byte 2 rgb else if q =? p + 1 then byte 1 rgb else if q =? p then byte 0 rgb else m q.
Proof. unfold px_set, store8, byte. by rewrite Z.shiftr_0_r. Qed.

Lemma px_set_other x y i j k rgb m : 0 <= x < FW -> 0 <= i < FW -> 0 <= k < 3 -> i <> x \/ j <> y ->
  px_set (px x y) rgb m (px i j + k) = m (px i j + k).
Proof.
  intros Hx Hi Hk Hne. rewrite px_set_byte.
  assert (forall k', 0 <= k' < 3 -> px i j + k <> px x y + k') as Hd.
  { intros k' Hk' E. destruct (px_inj i j k x y k' Hi Hx Hk Hk' E) as (? & ? & _). lia. }
  pose proof (Hd 2 ltac:(lia)). pose proof (Hd 1 ltac:(lia)). pose proof (Hd 0 ltac:(lia)). zcases.
Qed.

Lemma paints_pixel x y rgb m : 0 <= x < FW -> 0 <= y < FH ->
  paints m (px_set (px x y) rgb m) (fun i j => if (i =? x) && (j =? y) then Some rgb else None).
Proof.
  intros Hx Hy. split.
  - intros i j k Hi Hj Hk.
    destruct (Z.eqb_spec i x) as [->|]; [destruct (Z.eqb_spec j y) as [->|]|]; cbn [andb]; [|apply px_set_other; lia..].
    rewrite px_set_byte. assert (k = 0 \/ k = 1 \/ k = 2) as [->|[->| ->]] by lia; by zcases.
  - intros p Hp. pose proof (px_bounds x y Hx Hy). rewrite px_set_byte. zcases.
Qed.

(** ** Rows and boxes *)

Lemma paints_row x y w colour m : 0 <= x -> 0 <= w -> x + w <= FW -> 0 <= y < FH ->
  paints m (draw_row w (px x y) colour m) (box x y w 1 (fun c _ => colour c)).
Proof.
  intros Hx Hw HxW Hy. unfold draw_row. destruct Hok as (_ & _ & HB & Hend).
  pose (P := fun n (s : memory * Z) => s.2 = px x y + 3 * n /\ paints m s.1 (box x y n 1 (fun c _ => colour c))).
  enough (P w (loop w (fun '(m, p) c => (px_set p (colour c) m, u64 (p + 3))) (m, px x y))) as [_ Hp] by exact Hp.
  apply loop_ind; [done| |].
  - split; [cbn; lia|]. eapply paints_ext; [|apply paints_refl]. intros i j _ _. unfold box, in_box, blank.
    rewrite bool_decide_eq_false_2; [done|lia].
  - intros k [m1 p] Hk [E Hp]. cbn [fst snd] in E, Hp. subst p.
    assert (px x y + 3 * k = px (x + k) y) as E by (unfold px; lia). rewrite E.
    pose proof (px_bounds (x + k) y ltac:(lia) Hy) as Hb. split.
    + cbn [snd]. rewrite wrap_small by (unfold fits; lia). unfold px. lia.
    + cbn [fst]. eapply paints_ext; [|eapply paints_trans; [exact Hp|apply paints_pixel; lia]].
      intros i j _ _. unfold over, box, in_box.
      destruct (Z.eqb_spec i (x + k)) as [->|Hne]; [destruct (Z.eqb_spec j y) as [->|Hne]|]; cbn [andb].
      * rewrite bool_decide_eq_true_2 by lia. do 2 f_equal. lia.
      * repeat case_bool_decide; lia || done.
      * repeat case_bool_decide; lia || done.
Qed.

Lemma paints_rows x y w h colour m : 0 <= x -> 0 <= y -> 0 <= w -> x + w <= FW -> 0 <= h -> y + h <= FH ->
  paints m (loop h (fun m r => draw_row w (px_at fb x (u32 (y + r))) (fun c => colour c r) m) m) (box x y w h colour).
Proof.
  intros Hx Hy Hw HxW Hh HyH. destruct Hok as ([HW0 HW] & [HH0 HH] & _).
  destruct (Z.eq_dec w 0) as [->|].
  { eapply paints_ext; [|rewrite <-(loop_0 (fun m _ => m) m) at 2].
    2:{ apply (loop_ind _ (fun _ m' => paints m m' blank)); [done|apply paints_refl|]. intros k m' _ Hm'. exact Hm'. }
    intros i j _ _. unfold box, in_box, blank. rewrite bool_decide_eq_false_2; [done|lia]. }
  apply (loop_ind _ (fun n m' => paints m m' (box x y w n colour))); [done| |].
  - eapply paints_ext; [|apply paints_refl]. intros i j _ _. unfold box, in_box, blank. rewrite bool_decide_eq_false_2; [done|lia].
  - intros k m' Hk Hm'. rewrite wrap_small by (unfold fits; lia). rewrite px_at_eq by lia.
    eapply paints_ext; [|eapply paints_trans; [exact Hm'|apply paints_row; lia]].
    intros i j _ _. unfold over, box, in_box. repeat case_bool_decide; try lia; [|done|done].
    do 2 f_equal. lia.
Qed.

(** ** The operations *)

(** A box that does not wrap round the coordinates. *)
Definition box_ok (x y w h : Z) : Prop := 0 <= x /\ 0 <= y /\ 0 <= w /\ 0 <= h /\ x + w < 2 ^ 32 /\ y + h < 2 ^ 32.

(** What is left of a box when it is cut to the frame. *)
Lemma clip_cases x y w h : box_ok x y w h -> clip fb x y w h =
  if bool_decide (x < FW /\ y < FH /\ 0 < w /\ 0 < h) then Some (Z.min w (FW - x), Z.min h (FH - y)) else None.
Proof.
  intros (Hx & Hy & Hw & Hh & HxW & HyH). destruct Hok as ([HW0 HW] & [HH0 HH] & _).
  unfold clip. destruct (Z.geb_spec x FW); cbn [orb]; [rewrite bool_decide_eq_false_2; [done|lia]|].
  destruct (Z.geb_spec y FH); cbn [orb]; [rewrite bool_decide_eq_false_2; [done|lia]|].
  rewrite !(wrap_small 32 (x + w)), !(wrap_small 32 (y + h)), !(wrap_small 32 (FW - x)), !(wrap_small 32 (FH - y)) by (unfold fits; lia).
  set (w' := if x + w >? FW then FW - x else w). set (h' := if y + h >? FH then FH - y else h).
  assert (w' = Z.min w (FW - x)) as -> by (unfold w'; destruct (Z.gtb_spec (x + w) FW); lia).
  assert (h' = Z.min h (FH - y)) as -> by (unfold h'; destruct (Z.gtb_spec (y + h) FH); lia).
  case_bool_decide; destruct (Z.eqb_spec (Z.min w (FW - x)) 0), (Z.eqb_spec (Z.min h (FH - y)) 0); cbn [orb]; lia || done.
Qed.

Lemma clip_some x y w h w' h' : box_ok x y w h -> clip fb x y w h = Some (w', h') ->
  x < FW /\ y < FH /\ w' = Z.min w (FW - x) /\ h' = Z.min h (FH - y) /\ 0 < w' /\ 0 < h'.
Proof. intros Hb. rewrite clip_cases by done. case_bool_decide; [|done]. intros [= <- <-]. lia. Qed.
Lemma clip_none x y w h : box_ok x y w h -> clip fb x y w h = None -> ~ (x < FW /\ y < FH /\ 0 < w /\ 0 < h).
Proof. intros Hb. rewrite clip_cases by done. by case_bool_decide. Qed.

(** The shared body of fill and blits: what is drawn is the box, cut to the frame. *)
Lemma paints_clipped x y w h colour m : box_ok x y w h ->
  paints m (match clip fb x y w h with
            | None => m
            | Some (w, h) => loop h (fun m r => draw_row w (px_at fb x (u32 (y + r))) (fun c => colour c r) m) m
            end) (box x y w h colour).
Proof.
  intros Hb. pose proof Hb as (Hx & Hy & Hw & Hh & HxW & HyH). rewrite clip_cases by done. case_bool_decide.
  - eapply paints_ext; [|apply paints_rows; lia]. intros i j Hi Hj. unfold box, in_box. repeat case_bool_decide; lia || done.
  - eapply paints_ext; [|apply paints_refl]. intros i j Hi Hj. unfold box, in_box, blank. rewrite bool_decide_eq_false_2; [done|lia].
Qed.

Lemma paints_fill x y w h rgb m : box_ok x y w h ->
  paints m (soctfb_fill fb x y w h rgb m) (box x y w h (fun _ _ => rgb)).
Proof. apply paints_clipped. Qed.

Lemma paints_point x y rgb m : 0 <= x -> 0 <= y -> paints m (soctfb_pixel fb x y rgb m) (box x y 1 1 (fun _ _ => rgb)).
Proof.
  intros Hx Hy. unfold soctfb_pixel. destruct (Z.ltb_spec x FW), (Z.ltb_spec y FH); cbn [andb].
  - rewrite px_at_eq by lia. eapply paints_ext; [|apply paints_pixel; lia]. intros i j _ _. unfold box, in_box.
    destruct (Z.eqb_spec i x) as [->|]; [destruct (Z.eqb_spec j y) as [->|]|]; cbn [andb]; case_bool_decide; lia || done.
  - eapply paints_ext; [|apply paints_refl]. intros i j Hi Hj. unfold box, in_box, blank. rewrite bool_decide_eq_false_2; [done|lia].
  - eapply paints_ext; [|apply paints_refl]. intros i j Hi Hj. unfold box, in_box, blank. rewrite bool_decide_eq_false_2; [done|lia].
  - eapply paints_ext; [|apply paints_refl]. intros i j Hi Hj. unfold box, in_box, blank. rewrite bool_decide_eq_false_2; [done|lia].
Qed.

(** The outline: inside the box, not inside the box shrunk by the thickness. *)
Definition outline (x y w h t rgb : Z) : painting := fun i j =>
  if in_box x y w h i j && negb (in_box (x + t) (y + t) (w - 2 * t) (h - 2 * t) i j) then Some rgb else None.

Lemma paints_rect x y w h t rgb m : box_ok x y w h -> 0 <= t -> 2 * t < 2 ^ 32 ->
  paints m (soctfb_rect fb x y w h t rgb m) (outline x y w h t rgb).
Proof.
  intros (Hx & Hy & Hw & Hh & HxW & HyH) Ht Ht2. unfold soctfb_rect.
  rewrite (Z.mul_comm t 2), !(wrap_small 32 (2 * t)) by (unfold fits; lia).
  destruct (Z.geb_spec (2 * t) w); cbn [orb]; [|destruct (Z.geb_spec (2 * t) h)].
  - eapply paints_ext; [|apply paints_fill; unfold box_ok; lia]. intros i j _ _. unfold outline, box, in_box.
    repeat case_bool_decide; cbn [andb negb]; lia || done.
  - eapply paints_ext; [|apply paints_fill; unfold box_ok; lia]. intros i j _ _. unfold outline, box, in_box.
    repeat case_bool_decide; cbn [andb negb]; lia || done.
  - rewrite !wrap_small by (unfold fits; lia).
    eapply paints_ext; [|eapply paints_trans; [eapply paints_trans; [eapply paints_trans|]|]; apply paints_fill; unfold box_ok; lia].
    intros i j _ _. unfold over, outline, box, in_box. repeat case_bool_decide; cbn [andb negb]; lia || done.
Qed.

Definition glyph_at (x y c rgb : Z) : painting := fun i j =>
  if in_box x y SOCTFB_GLYPH_W SOCTFB_GLYPH_H i j && glyph_bit c (i - x) (j - y) then Some rgb else None.

Lemma paints_glyph x y c rgb m : 0 <= x -> 0 <= y -> x + 8 < 2 ^ 32 -> y + 16 < 2 ^ 32 ->
  paints m (draw_glyph fb x y c rgb m) (glyph_at x y c rgb).
Proof.
  intros Hx Hy HxW HyH. unfold draw_glyph.
  pose (part := fun (b : Z -> Z -> bool) i j => if b i j && glyph_bit c (i - x) (j - y) then Some rgb else @None Z).
  apply (loop_ind _ (fun n m' => paints m m' (part (in_box x y 8 n)))); [done| |].
  - eapply paints_ext; [|apply paints_refl]. intros i j _ _. unfold part, in_box, blank. rewrite bool_decide_eq_false_2; [done|lia].
  - intros r m1 Hr Hm1. unfold SOCTFB_GLYPH_H in Hr. rewrite wrap_small by (unfold fits; lia).
    eapply paints_ext; [|eapply paints_trans; [exact Hm1|
      apply (loop_ind _ (fun n m' => paints m1 m' (part (in_box x (y + r) n 1)))); [done| |]]].
    + intros i j _ _. unfold over, part, in_box, SOCTFB_GLYPH_W. repeat case_bool_decide; cbn [andb]; try lia; try done.
      all: by destruct (glyph_bit c (i - x) (j - y)).
    + eapply paints_ext; [|apply paints_refl]. intros i j _ _. unfold part, in_box, blank. rewrite bool_decide_eq_false_2; [done|lia].
    + intros k m2 Hk Hm2. unfold SOCTFB_GLYPH_W in Hk. rewrite wrap_small by (unfold fits; lia).
      destruct (glyph_bit c k r) eqn:Eb.
      * eapply paints_ext; [|eapply paints_trans; [exact Hm2|apply (paints_point (x + k) (y + r)); lia]].
        intros i j _ _. unfold over, part, box, in_box. repeat case_bool_decide; cbn [andb]; try lia; try done.
        replace (i - x) with k by lia. replace (j - y) with r by lia. by rewrite Eb.
      * eapply paints_ext; [|exact Hm2]. intros i j _ _. unfold part, in_box. repeat case_bool_decide; cbn [andb]; try lia; try done.
        replace (i - x) with k by lia. replace (j - y) with r by lia. by rewrite Eb.
Qed.

Fixpoint text_at (x y : Z) (s : list Z) (rgb : Z) : painting :=
  match s with [] => blank | c :: s => over (glyph_at x y c rgb) (text_at (x + SOCTFB_GLYPH_W) y s rgb) end.

Lemma paints_text y s rgb : forall x m, 0 <= x -> 0 <= y -> x + 8 * zlen s < 2 ^ 32 -> y + 16 < 2 ^ 32 ->
  let r := soctfb_text fb x y s rgb m in r.1 = x + 8 * zlen s /\ paints m r.2 (text_at x y s rgb).
Proof.
  induction s as [|c s IH]; intros x m Hx Hy HxW HyH; [unfold zlen; cbn; split; [lia|apply paints_refl]|].
  unfold zlen in *. cbn [length] in HxW. cbn [soctfb_text text_at]. change SOCTFB_GLYPH_W with 8. rewrite wrap_small by (unfold fits; lia).
  destruct (IH (x + 8) (draw_glyph fb x y c rgb m)) as [E Hp]; [lia|lia|lia|done|]. split; [cbn [length]; lia|].
  eapply paints_trans; [|exact Hp]. apply paints_glyph; lia.
Qed.
End frame.

(** ** Pictures *)

Inductive op :=
| Pixel (x y rgb : Z) | Fill (x y w h rgb : Z) | Rect (x y w h t rgb : Z) | Text (x y : Z) (s : list Z) (rgb : Z)
| Gray (x y w h : Z) (gray : Z -> Z) | Scaled (x y w h : Z) (gray : Z -> Z) (scale : Z).

Definition draw (fb : soctfb) (m : memory) (o : op) : memory :=
  match o with
  | Pixel x y rgb => soctfb_pixel fb x y rgb m
  | Fill x y w h rgb => soctfb_fill fb x y w h rgb m
  | Rect x y w h t rgb => soctfb_rect fb x y w h t rgb m
  | Text x y s rgb => (soctfb_text fb x y s rgb m).2
  | Gray x y w h gray => soctfb_blit_gray fb x y w h gray m
  | Scaled x y w h gray scale => soctfb_blit_gray_scaled fb x y w h gray scale m
  end.

(** What each is for. *)
Definition picture (o : op) : painting :=
  match o with
  | Pixel x y rgb => box x y 1 1 (fun _ _ => rgb)
  | Fill x y w h rgb => box x y w h (fun _ _ => rgb)
  | Rect x y w h t rgb => outline x y w h t rgb
  | Text x y s rgb => text_at x y s rgb
  | Gray x y w h gray => box x y w h (fun c r => grey (gray (r * w + c)))
  | Scaled x y w h gray scale => box x y (w * scale) (h * scale) (fun c r => grey (gray (r / scale * w + c / scale)))
  end.

(** Coordinates that do not wrap round 32 bits. *)
Definition op_ok (o : op) : Prop :=
  match o with
  | Pixel x y _ => 0 <= x /\ 0 <= y
  | Fill x y w h _ | Gray x y w h _ => box_ok x y w h
  | Rect x y w h t _ => box_ok x y w h /\ 0 <= t /\ 2 * t < 2 ^ 32
  | Text x y s _ => 0 <= x /\ 0 <= y /\ x + 8 * zlen s < 2 ^ 32 /\ y + 16 < 2 ^ 32
  | Scaled x y w h _ scale => box_ok x y (w * scale) (h * scale)
  end.

Lemma draw_paints fb o m : frame_ok fb -> op_ok o -> paints fb m (draw fb m o) (picture o).
Proof.
  intros Hf Ho. destruct o; cbn [draw picture op_ok] in *.
  - destruct Ho as [? ?]. by apply paints_point.
  - by apply paints_fill.
  - destruct Ho as (? & ? & ?). by apply paints_rect.
  - destruct Ho as (? & ? & ? & ?). by apply (paints_text fb Hf y s rgb x m).
  - by apply (paints_clipped fb Hf x y w h (fun c r => grey (gray (r * w + c)))).
  - unfold soctfb_blit_gray_scaled. pose proof Ho as (Hx & Hy & Hw & Hh & HxW & HyH).
    rewrite (wrap_small 32 (w * scale)), (wrap_small 32 (h * scale)) by (unfold fits; lia).
    destruct (Z.eqb_spec scale 0) as [->|].
    + eapply paints_ext; [|apply paints_refl]. intros i j _ _. unfold box, in_box, blank. rewrite bool_decide_eq_false_2; [done|lia].
    + by apply (paints_clipped fb Hf x y (w * scale) (h * scale) (fun c r => grey (gray (r / scale * w + c / scale)))).
Qed.

Definition pictures (l : list op) : painting := foldl (fun f o => over f (picture o)) blank l.

Lemma pictures_paint fb l : forall m m0 f, frame_ok fb -> Forall op_ok l -> paints fb m0 m f ->
  paints fb m0 (foldl (draw fb) m l) (foldl (fun f o => over f (picture o)) f l).
Proof.
  induction l as [|o l IH]; intros m m0 f Hf Hl Hm; [done|]. inversion Hl as [|? ? Ho Hl']; subst. cbn.
  apply IH; [done..|]. eapply paints_trans; [exact Hm|by apply draw_paints].
Qed.


(** ** Flushing *)

Definition covered (l : list Z) (p : Z) : bool := existsb (fun a => (a <=? p) && (p <? a + 64)) l.

(** Everything but DRAM. *)
Definition but_dram (v v' : video) : Prop :=
  fb_width v' = fb_width v /\ fb_height v' = fb_height v /\ fb_draw v' = fb_draw v /\ s_stores v' = s_stores v /\
  s_front v' = s_front v /\ s_incoherent v' = s_incoherent v /\ cpu v' = cpu v.

(** From [v] to [v'] DRAM took over the CPU's bytes, everywhere [P] holds at least. *)
Definition flushed (v v' : video) (P : Z -> Prop) : Prop :=
  but_dram v v' /\ (forall p, P p -> dram v' p = cpu v p) /\ (forall p, dram v' p = dram v p \/ dram v' p = cpu v p).

Lemma flushed_refl v : flushed v v (fun _ => False).
Proof. split; [by split_and!|]. split; [done|]. intros p. by left. Qed.

Lemma flushed_trans v v1 v2 P Q : flushed v v1 P -> flushed v1 v2 Q -> flushed v v2 (fun p => P p \/ Q p).
Proof.
  intros ((A1 & A2 & A3 & A4 & A5 & A6 & A7) & F1 & F2) ((B1 & B2 & B3 & B4 & B5 & B6 & B7) & G1 & G2).
  split; [split_and!; congruence|]. rewrite A7 in G1, G2. split.
  - intros p [Hp|Hp]; [|by apply G1]. destruct (G2 p) as [E|E]; [|done]. rewrite E. by apply F1.
  - intros p. destruct (G2 p) as [E|E]; [|by right]. rewrite E. apply F2.
Qed.

Lemma flushed_weaken v v' (P Q : Z -> Prop) : (forall p, Q p -> P p) -> flushed v v' P -> flushed v v' Q.
Proof. intros H (A & F1 & F2). split; [done|]. split; [intros; by apply F1, H|done]. Qed.

Lemma flush_list_flushed l : forall v, flushed v (foldl flush_line v l) (fun p => covered l p = true).
Proof.
  induction l as [|a l IH]; intros v; [eapply flushed_weaken; [|apply flushed_refl]; done|]. cbn [foldl].
  eapply flushed_weaken; [|eapply (flushed_trans _ _ _ (fun p => a <= p < a + 64)); [|apply IH]].
  - intros p Hp. cbn [covered existsb] in Hp. apply orb_true_iff in Hp as [Hp|Hp]; [left|by right].
    apply andb_true_iff in Hp as [H1%Z.leb_le H2%Z.ltb_lt]. lia.
  - split; [by split_and!|]. cbn. split; intros p.
    + intros [H1 H2]. destruct (Z.leb_spec a p); [|lia]. destruct (Z.ltb_spec p (a + 64)); [|lia]. done.
    + destruct ((a <=? p) && (p <? a + 64)); [by right|by left].
Qed.

Lemma lines_from_In fuel : forall b e k, 0 <= k < Z.of_nat fuel -> 0 <= b -> e + 64 <= 2 ^ 64 -> b + 64 * k < e ->
  In (b + 64 * k) (lines_from fuel b e).
Proof.
  induction fuel as [|fuel IH]; intros b e k Hk Hb He Hlt; [lia|]. cbn [lines_from].
  destruct (Z.ltb_spec b e); [|lia]. destruct (Z.eq_dec k 0) as [->|]; [left; lia|right].
  rewrite wrap_small by (unfold fits; lia). replace (b + 64 * k) with (b + 64 + 64 * (k - 1)) by lia. apply IH; lia.
Qed.

Lemma flush_lines_cover addr len p : 0 <= addr -> addr + len + 63 < 2 ^ 64 -> addr <= p < addr + len ->
  covered (flush_lines addr len) p = true.
Proof.
  intros Ha He Hp. unfold flush_lines. rewrite (wrap_small 64 (addr + len + 63)) by (unfold fits; lia).
  change 63 with (Z.ones 6) at 1 3. rewrite !align_down by (unfold fits; lia). change (2 ^ 6) with 64.
  set (b := addr - addr mod 64). set (e := addr + len + 63 - (addr + len + 63) mod 64).
  pose proof (Z.div_mod addr 64). pose proof (Z.mod_pos_bound addr 64). pose proof (Z.div_mod p 64). pose proof (Z.mod_pos_bound p 64).
  pose proof (Z.div_mod (addr + len + 63) 64). pose proof (Z.mod_pos_bound (addr + len + 63) 64).
  pose proof (Z.div_mod len 64). pose proof (Z.mod_pos_bound len 64).
  unfold covered. apply existsb_exists. exists (b + 64 * (p / 64 - addr / 64)). split.
  - apply lines_from_In; unfold b, e; lia.
  - apply andb_true_iff. unfold b. split; [apply Z.leb_le|apply Z.ltb_lt]; lia.
Qed.

Lemma range_flushed addr len v : 0 <= addr -> addr + len + 63 < 2 ^ 64 ->
  flushed v (l2_flush_range addr len v) (fun p => addr <= p < addr + len).
Proof. intros Ha He. eapply flushed_weaken; [|apply flush_list_flushed]. intros p Hp. by apply flush_lines_cover. Qed.

(** Rows of a rectangle of the frame drawn into. *)
Lemma rows_flushed fb x y w h v : frame_ok fb -> pixels fb + 3 * (width fb * height fb) + 63 < 2 ^ 64 -> s_incoherent v = true ->
  fb_width v = width fb -> fb_draw v = pixels fb -> 0 <= x -> 0 <= y -> 0 < w -> 0 <= h -> x + w <= width fb -> y + h <= height fb ->
  flushed v (fb_flush_rect x y w h v)
    (fun p => exists i j k, x <= i < x + w /\ y <= j < y + h /\ 0 <= k < 3 /\ p = px fb i j + k).
Proof.
  intros Hf Hend Hinc Hw1 Hd Hx Hy Hw Hh HxW HyH. unfold fb_flush_rect. rewrite Hinc. cbn [negb]. rewrite Hw1.
  destruct Hf as ([HW0 HW] & [HH0 HH] & HB & He).
  eapply flushed_weaken; [|apply (loop_ind _ (fun n v' => flushed v v'
    (fun p => exists i j k, x <= i < x + w /\ y <= j < y + n /\ 0 <= k < 3 /\ p = px fb i j + k))); [done| |]].
  - done.
  - eapply flushed_weaken; [|apply flushed_refl]. intros p (i & j & k & ? & ? & ?). lia.
  - intros r v' Hr Hv'. pose proof Hv' as ((_ & _ & E & _) & _). rewrite E, Hd. pose proof (px_bounds fb x (y + r) ltac:(lia) ltac:(lia)) as Hb.
    assert ((y + r + 1) * width fb <= height fb * width fb) by (apply Z.mul_le_mono_nonneg_r; lia).
    assert (0 <= (y + r) * width fb) by (apply Z.mul_nonneg_nonneg; lia).
    rewrite (wrap_small 64 (width fb * 3)), (wrap_small 32 (y + r)), (wrap_small 64 (w * 3)), (wrap_small 64 (x * 3)) by (unfold fits; lia).
    rewrite (wrap_small 64 ((y + r) * (width fb * 3))) by (unfold fits; lia).
    assert (pixels fb + (y + r) * (width fb * 3) + x * 3 = px fb x (y + r)) as -> by (unfold px; lia).
    rewrite wrap_small by (unfold fits; unfold px in *; lia).
    eapply flushed_weaken; [|eapply flushed_trans; [exact Hv'|apply range_flushed; [lia|unfold px in *; lia]]].
    intros p (i & j & k & Hi & Hj & Hk & ->). destruct (Z.eq_dec j (y + r)) as [->|].
    + right. unfold px in *. lia.
    + left. exists i, j, k. split_and!; lia || done.
Qed.

Lemma fb_flush_flushed addr len v : 0 <= addr -> addr + len + 63 < 2 ^ 64 ->
  flushed v (fb_flush addr len v) (fun p => s_incoherent v = true /\ addr <= p < addr + len).
Proof.
  intros Ha He. unfold fb_flush. destruct (s_incoherent v); cbn [negb].
  - eapply flushed_weaken; [|by apply range_flushed]. by intros p [_ Hp].
  - eapply flushed_weaken; [|apply flushed_refl]. by intros p [? _].
Qed.

(** What was flushed is what the frame fetch reads, whether it is coherent or not. *)
Lemma flushed_scanned v v' P p : flushed v v' P -> (s_incoherent v = true -> P p) -> scanned v' p = cpu v p.
Proof.
  intros ((_ & _ & _ & _ & _ & Ei & Ec) & F & _) HP. unfold scanned. rewrite Ei, Ec.
  destruct (s_incoherent v); [by apply F, HP|done].
Qed.

(** The frame with the picture on it is where [m] was. *)
Definition shows (fb : soctfb) (m m' : memory) (f : painting) (at_box : Z -> Z -> bool) : Prop :=
  forall i j k, 0 <= i < width fb -> 0 <= j < height fb -> 0 <= k < 3 -> at_box i j = true ->
    m' (px fb i j + k) = match f i j with Some rgb => byte k rgb | None => m (px fb i j + k) end.

(** Drawing reaches the screen.  After any drawing and a [soctfb_flush] of a box, the frame
    fetch reads in every pixel of the box exactly what was drawn there, for a coherent fetch and for
    one that bypasses the caches; the CPU's memory is as the drawing left it, and no byte of
    DRAM has become anything but what the CPU wrote. *)
Theorem drawn_is_scanned fb l x y w h v : frame_ok fb -> pixels fb + 3 * (width fb * height fb) + 63 < 2 ^ 64 ->
  fb_width v = width fb -> Forall op_ok l -> box_ok x y w h ->
  let v1 := set_cpu (foldl (draw fb) (cpu v) l) v in
  let v2 := soctfb_flush fb x y w h v1 in
  shows fb (cpu v) (scanned v2) (pictures l) (in_box x y w h) /\ cpu v2 = cpu v1 /\
  (forall p, dram v2 p = dram v p \/ dram v2 p = cpu v1 p).
Proof.
  intros Hf Hend Hw1 Hl Hb v1 v2. pose proof (pictures_paint fb l (cpu v) (cpu v) blank Hf Hl (paints_refl fb (cpu v))) as [Hp _].
  change (foldl _ blank l) with (pictures l) in Hp.
  enough (exists vd, scanned vd = scanned v1 /\ cpu vd = cpu v1 /\ dram vd = dram v1 /\ s_incoherent vd = s_incoherent v1 /\
    flushed vd v2 (fun p => s_incoherent vd = true /\ exists i j k, in_box x y w h i j = true /\ 0 <= i < width fb /\ 0 <= j < height fb /\ 0 <= k < 3 /\ p = px fb i j + k)) as (vd & Es & Ec & Ed & Ei & Hfl).
  { split; [|split].
    - intros i j k Hi Hj Hk Hin. rewrite (flushed_scanned _ _ _ _ Hfl), Ec; [by apply Hp|].
      intros Hinc. split; [done|]. by exists i, j, k.
    - destruct Hfl as ((_ & _ & _ & _ & _ & _ & E) & _). by rewrite E, Ec.
    - intros p. destruct Hfl as (_ & _ & F). specialize (F p). by rewrite Ed, Ec in F. }
  pose proof Hf as ([HW0 HW] & [HH0 HH] & HB & _). unfold v2, soctfb_flush.
  destruct Hb as (Hx & Hy & Hw & Hh & HxW & HyH).
  destruct (clip fb x y w h) as [[w' h']|] eqn:Ecl.
  - exists (fb_draw_into (pixels fb) v1). split_and!; [done..|].
    apply clip_some in Ecl as (Hx' & Hy' & -> & -> & Hw0 & Hh0); [|done..].
    destruct (s_incoherent v) eqn:Hinc.
    + eapply flushed_weaken; [|apply (rows_flushed fb); try done; lia].
      intros p (_ & i & j & k & Hin%bool_decide_eq_true & Hi & Hj & Hk & ->). exists i, j, k. split_and!; lia || done.
    + unfold fb_flush_rect. cbn [s_incoherent fb_draw_into set_draw v1 set_cpu]. rewrite Hinc. cbn [negb].
      eapply flushed_weaken; [|apply flushed_refl]. by intros p [? _].
  - exists v1. split_and!; [done..|]. apply clip_none in Ecl; [|done..].
    eapply flushed_weaken; [|apply flushed_refl]. intros p (_ & i & j & k & Hin%bool_decide_eq_true & Hi & Hj & _). lia.
Qed.

(** ** Flipping *)

Lemma store_back v i : fb_store v ((i .^ 1) .^ 1) = fb_store v i.
Proof. by rewrite Z.lxor_assoc, Z.lxor_0_r. Qed.

(** [fb_frame v i]: the frame on store [i]. *)
Definition fb_frame (v : video) (i : Z) : soctfb := Soctfb (fb_width v) (fb_height v) (fb_store v i).
Definition bytes_of (fb : soctfb) (p : Z) : Prop := pixels fb <= p < pixels fb + 3 * (width fb * height fb).

Lemma px_in fb i j k : 0 <= i < width fb -> 0 <= j < height fb -> 0 <= k < 3 -> bytes_of fb (px fb i j + k).
Proof. intros Hi Hj Hk. pose proof (px_bounds fb i j Hi Hj). unfold bytes_of. lia. Qed.

(** What the caches hold for the frame is in DRAM, if the fetch needs it there. *)
Definition clean (fb : soctfb) (v : video) : Prop := s_incoherent v = true -> forall p, bytes_of fb p -> dram v p = cpu v p.

(** Two disjoint frames; one is scanned and clean, the other is drawn on. *)
Record double_buffered (v : video) : Prop := {
  db_frames : forall i, frame_ok (fb_frame v i) /\ fb_store v i + 3 * (fb_width v * fb_height v) + 63 < 2 ^ 64;
  db_apart : forall p, ~ (bytes_of (fb_frame v (fb_front v)) p /\ bytes_of (fb_frame v (fb_front v .^ 1)) p);
  db_clean : clean (fb_frame v (fb_front v)) v }.

Lemma fb_size_eq v : double_buffered v -> fb_size v = 3 * (fb_width v * fb_height v).
Proof.
  intros [Hf _ _]. destruct (Hf 0) as [([HW0 HW] & [HH0 HH] & HB & He) _]. cbn in *. unfold fb_size.
  assert (0 <= fb_width v * fb_height v) by (apply Z.mul_nonneg_nonneg; lia).
  rewrite (wrap_small 64 (fb_width v * fb_height v)), wrap_small by (unfold fits; lia). lia.
Qed.

(** One frame of an animation, up to the flip. *)
Definition render (l : list op) (v : video) : video :=
  let fb := fb_frame v (fb_front v .^ 1) in soctfb_flush_all fb (set_cpu (foldl (draw fb) (cpu v) l) v).

(** Until the flip the screen shows the old frame; the other store is clean and has the picture. *)
Lemma render_ok l v : double_buffered v -> Forall op_ok l ->
  let fb := fb_frame v (fb_front v .^ 1) in
  let v' := render l v in
  (forall p, bytes_of (fb_frame v (fb_front v)) p -> scanned v' p = scanned v p) /\
  shows fb (cpu v) (scanned v') (pictures l) (fun _ _ => true) /\ clean fb v' /\ clean (fb_frame v (fb_front v)) v' /\
  (forall i, fb_frame v' i = fb_frame v i) /\ s_front v' = s_front v /\ fb_draw v' = fb_draw v /\ s_incoherent v' = s_incoherent v.
Proof.
  intros Hdb Hl fb v'. pose proof Hdb as [Hf Ha Hc]. destruct (Hf (fb_front v .^ 1)) as [Hok Hend].
  pose proof (pictures_paint fb l (cpu v) (cpu v) blank Hok Hl (paints_refl fb (cpu v))) as [Hp Hout].
  change (foldl _ blank l) with (pictures l) in Hp.
  set (v1 := set_cpu (foldl (draw fb) (cpu v) l) v) in *.
  assert (flushed v1 v' (fun p => s_incoherent v1 = true /\ bytes_of fb p)) as Hfl.
  { unfold v', render, soctfb_flush_all. change (fb_size _) with (fb_size v). rewrite fb_size_eq by done.
    apply fb_flush_flushed; [apply Hok|exact Hend]. }
  pose proof Hfl as ((E1 & E2 & E3 & E4 & E5 & E6 & E7) & Fin & Fany).
  assert (forall p, bytes_of (fb_frame v (fb_front v)) p -> cpu v1 p = cpu v p) as Hkeep.
  { intros p Hb. apply Hout. assert (~ bytes_of fb p) by (intros ?; by apply (Ha p)). unfold bytes_of, fb in *. cbn in *. lia. }
  split_and!; try done.
  - intros p Hb. unfold scanned. rewrite E6, E7. change (s_incoherent v1) with (s_incoherent v).
    destruct (s_incoherent v) eqn:Hi; [|by apply Hkeep]. destruct (Fany p) as [->| ->]; [done|]. rewrite Hkeep by done. symmetry. by apply Hc.
  - intros i j k Hi Hj Hk _. rewrite (flushed_scanned _ _ _ _ Hfl); [by apply Hp|]. intros Hinc. split; [done|].
    by apply px_in.
  - intros Hinc p Hb. rewrite E7. apply Fin. by rewrite <-E6.
  - intros Hinc p Hb. rewrite E7. destruct (Fany p) as [->| ->]; [|done]. rewrite Hkeep by done. apply Hc; [|done]. by rewrite <-Hinc, E6.
  - intros i. unfold fb_frame, fb_store. by rewrite E1, E2, E4.
Qed.

(** The stores exchanged: what was drawn on is scanned. *)
Definition exchange (v : video) : video := set_draw (fb_store v (fb_front v)) (set_front (fb_front v .^ 1) v).

Lemma exchange_ok v v1 : double_buffered v -> (forall i, fb_frame v1 i = fb_frame v i) -> s_front v1 = s_front v ->
  clean (fb_frame v (fb_front v .^ 1)) v1 -> double_buffered (exchange v1).
Proof.
  intros [Hf Ha _] Ef Efr Hc. split.
  - intros i. change (frame_ok (fb_frame v1 i) /\ fb_store v1 i + 3 * (fb_width v1 * fb_height v1) + 63 < 2 ^ 64).
    rewrite Ef. pose proof (Ef i) as E. injection E as -> -> ->. apply Hf.
  - intros p. change (~ (bytes_of (fb_frame v1 (s_front v1 .^ 1)) p /\ bytes_of (fb_frame v1 ((s_front v1 .^ 1) .^ 1)) p)).
    rewrite Efr, !Ef. unfold fb_frame at 2. rewrite store_back. intros [H1 H2]. by apply (Ha p).
  - change (clean (fb_frame v1 (s_front v1 .^ 1)) v1). by rewrite Efr, Ef.
Qed.

Section flip.
Context {D : Type} {HD : Mmio D}.

(** The register answered [p] holds of, last of all. *)
Definition answered (r : Z) (p : Z -> bool) (d : D) : Prop := exists d0 x, mmio_read d0 r = (x, d) /\ p (u32 x) = true.

Lemma wp_poll_until {X B} n r p (k : option Z -> prog (bus D * X) B) Q s0 s l x : did s0 s l x ->
  (forall o s1, did s0 s1 l x -> match o with Some _ => answered r p (dev s1.1) | None => True end -> wp (k o) Q s1) ->
  wp (v ← poll_until n r p; k v) Q s.
Proof.
  intros H Hk. apply wp_bind. revert s H. induction n as [|n IH]; intros s [H1 H2]; cbn; apply wp_bind; unfold wp at 1, rd;
    destruct (mmio_read (dev s.1) r) as [v d] eqn:E; destruct (p (u32 v)) eqn:Hp.
  1, 3: apply Hk; [split; [by rewrite <-H1|done]|]; by exists (dev s.1), v.
  - apply Hk; [split; [by rewrite <-H1|done]|done].
  - apply IH. split; [by rewrite <-H1|done].
Qed.

Lemma fb_flip_wp base (s : bus D * video) :
  let v := s.2 in let next := fb_front v .^ 1 in
  wp (fb_flip base) (fun ok s' =>
    (exists pp, wlog s'.1 = wlog s.1 ++ [(base + VDMA_PARK_PTR, (pp .& cnot 32 VDMA_PARK_PTR_RD_MASK) .| next)]) /\
    if ok : bool then answered (base + VDMA_PARK_PTR) (fun pp => read_store pp =? next) (dev s'.1) /\ s'.2 = exchange v else s'.2 = v) s.
Proof.
  intros v next. unfold fb_flip. apply wp_get. fold v. unfold fb_front in next. fold next.
  unfold vdma_park_wait, vdma_park. apply wp_bind, wp_bind.
  eapply wp_rd; [apply did_refl|]. intros pp s2 [Hlog2 Hv2]. unfold wp at 1, wr.
  eapply wp_poll_until; [split; cbn [fst snd wlog]; [by rewrite Hlog2, app_nil_r|exact Hv2]|].
  intros o s4 [Hlog4 Hv4] Ho. destruct o as [z|].
  - apply wp_ret. cbn [negb]. apply wp_put, wp_ret. cbn [fst snd]. rewrite Hv4. fold v.
    split; [by exists pp|]. split; [exact Ho|]. rewrite (store_back v (s_front v) : fb_store v (next .^ 1) = _). done.
  - eapply wp_rd; [split; [exact Hlog4|exact Hv4]|]. intros z s5 [Hlog5 Hv5]. do 2 apply wp_ret.
    split; [by exists pp|exact Hv5].
Qed.

Lemma soctfb_flip_wp base fb (s : bus D * video) :
  let v := s.2 in let next := fb_front v .^ 1 in
  wp (soctfb_flip base fb) (fun r s' =>
    (exists pp, wlog s'.1 = wlog s.1 ++ [(base + VDMA_PARK_PTR, (pp .& cnot 32 VDMA_PARK_PTR_RD_MASK) .| next)]) /\
    match r with
    | None => s'.2 = v
    | Some fb' => answered (base + VDMA_PARK_PTR) (fun pp => read_store pp =? next) (dev s'.1) /\
        s'.2 = exchange v /\ fb' = Soctfb (width fb) (height fb) (fb_store v (fb_front v))
    end) s.
Proof.
  intros v next. unfold soctfb_flip. apply wp_bind. eapply wp_mono; [apply fb_flip_wp|]. intros [] s' [Hlog H]; cbn [negb].
  - destruct H as [Ha E]. apply wp_get, wp_ret. rewrite E. by split_and!.
  - by apply wp_ret.
Qed.

(** C15. Flipping frames, for ever.  From two disjoint stores of which the scanned one is clean: any
    drawing on the other store, flushed, leaves every byte the screen shows as it was; the flip
    then asks the hardware for that store with one write, and if it answers in time, the scanned
    store holds the picture over its earlier content, the next frame is drawn on the store that was
    scanned, and the two are as at the start.  If it never answers, nothing is exchanged. *)
Theorem frames_alternate l base (s : bus D * video) : double_buffered s.2 -> Forall op_ok l ->
  let v := s.2 in
  let next := fb_front v .^ 1 in
  wp (put (render l);; soctfb_flip base (fb_frame v next))
     (fun r s' => let v' := s'.2 in
        (exists pp, wlog s'.1 = wlog s.1 ++ [(base + VDMA_PARK_PTR, (pp .& cnot 32 VDMA_PARK_PTR_RD_MASK) .| next)]) /\
        (forall p, bytes_of (fb_frame v (fb_front v)) p -> scanned v' p = scanned v p) /\
        shows (fb_frame v next) (cpu v) (scanned v') (pictures l) (fun _ _ => true) /\
        match r with
        | None => fb_front v' = fb_front v
        | Some fb' => answered (base + VDMA_PARK_PTR) (fun pp => read_store pp =? next) (dev s'.1) /\
            fb_front v' = next /\ fb' = fb_frame v (fb_front v) /\ fb' = fb_frame v' (fb_front v' .^ 1) /\ double_buffered v'
        end) s.
Proof.
  intros Hdb Hl v next. destruct (render_ok l v Hdb Hl) as (Hold & Hshow & Hc & Hc' & Ef & Efr & _ & Einc).
  set (v1 := render l v) in *. apply wp_bind. unfold wp at 1, put. eapply wp_mono; [apply soctfb_flip_wp|].
  cbn [fst snd]. fold v v1. unfold fb_front. rewrite Efr. fold (fb_front v). fold next.
  intros r s' [Hlog Hr]. cbn zeta. split; [exact Hlog|].
  destruct r as [fb'|]; [|by rewrite Hr].
  destruct Hr as (Ha & -> & ->). split; [exact Hold|]. split; [exact Hshow|]. split; [exact Ha|].
  assert (Soctfb (width (fb_frame v next)) (height (fb_frame v next)) (fb_store v1 (fb_front v)) = fb_frame v (fb_front v)) as ->.
  { pose proof (Ef (fb_front v)) as E. by injection E as _ _ ->. }
  assert (s_front (exchange v1) = next) as -> by (change (s_front v1 .^ 1 = next); by rewrite Efr).
  split; [done|]. split; [done|]. split; [|by apply (exchange_ok v)].
  change (fb_frame v (fb_front v) = fb_frame v1 (next .^ 1)). rewrite Ef. unfold fb_frame, next. by rewrite store_back.
Qed.
End flip.

(** ** Bring-up *)

(** What [malloc] promises of the two buffers of [fb_init]: apart, and a cache line below the end of the address space. *)
Definition malloc_ok (w h : Z) (bufs : option Z * option Z) : Prop :=
  let n := 3 * (w * h) + 64 in
  match bufs with
  | (Some a, Some b) => 0 <= a /\ 0 <= b /\ a + n < 2 ^ 64 - 64 /\ b + n < 2 ^ 64 - 64 /\ (a + n <= b \/ b + n <= a)
  | _ => True
  end.

(** Both frames black, to the CPU and on the screen. *)
Definition black_frames (v : video) : Prop := forall i p, bytes_of (fb_frame v i) p -> scanned v p = 0 /\ cpu v p = 0.

Lemma aligned_in a n : 0 <= a -> 0 <= n -> a + (n + 64) < 2 ^ 64 ->
  let b := u64 (a + 63) .& cnot 64 63 in a <= b /\ b + n < a + (n + 64) /\ b mod 64 = 0.
Proof.
  intros Ha Hn He b. unfold b. rewrite wrap_small by (unfold fits; lia). change (cnot 64 63) with (cnot 64 (Z.ones 6)).
  rewrite align_down by (unfold fits; lia). change (2 ^ 6) with 64.
  pose proof (Z.mod_pos_bound (a + 63) 64). split; [lia|]. split; [lia|].
  rewrite Zminus_mod_idemp_r, Z.sub_diag. done.
Qed.

Lemma find_mode_size w h fps t : find_mode w h fps = Some t -> 0 < w <= 1920 /\ 0 < h <= 1080.
Proof.
  unfold find_mode. intros [Hin Hb]%List.find_some. apply andb_true_iff in Hb as [[Ew%Z.eqb_eq Eh%Z.eqb_eq]%andb_true_iff _].
  subst w h. destruct Hin as [<-|[<-|[<-|[]]]]; cbn; lia.
Qed.

Lemma blackened_ok bufs w h v v0 : 0 < w <= 1920 -> 0 < h <= 1080 -> malloc_ok w h bufs -> fb_init bufs w h v = Some v0 ->
  let v' := blackened v0 in
  double_buffered v' /\ black_frames v' /\ s_front v' = 0 /\ fb_width v' = w /\ fb_height v' = h /\
  fb_draw v' = fb_store v' 0 /\ (forall i, fb_store v' i mod 64 = 0) /\ s_incoherent v' = s_incoherent v.
Proof.
  intros Hw Hh Hm Hi v'. destruct bufs as [[a|] [b|]]; try done. unfold fb_init in Hi. injection Hi as <-.
  destruct Hm as (Ha & Hb & Ha' & Hb' & Hap). assert (0 < w * h <= 1920 * 1080) as Hwh by nia.
  set (n := 3 * (w * h)) in *.
  destruct (aligned_in a n) as (A1 & A2 & A3); [lia..|]. destruct (aligned_in b n) as (B1 & B2 & B3); [lia..|].
  set (A := u64 (a + 63) .& cnot 64 63) in *. set (B := u64 (b + 63) .& cnot 64 63) in *.
  assert (forall m, fb_size (Video w h A (A, B) 0 (s_incoherent v) m (dram v)) = n) as Hs.
  { intros m. unfold fb_size. cbn [fb_width fb_height]. rewrite (wrap_small 64 (w * h)), wrap_small by (unfold fits; lia). lia. }
  set (m1 := memcpy B A n (memset A 0 n (cpu v))).
  set (v1 := Video w h A (A, B) 0 (s_incoherent v) m1 (dram v)).
  assert (v' = fb_flush B n (fb_flush A n v1)) as Ev by (unfold v1, m1; rewrite <-(Hs (cpu v)); reflexivity).
  assert (flushed v1 v' (fun p => s_incoherent v = true /\ A <= p < A + n \/ s_incoherent v = true /\ B <= p < B + n)) as Hfl.
  { rewrite Ev. pose proof (fb_flush_flushed A n v1 ltac:(lia) ltac:(lia)) as Hf1.
    eapply flushed_weaken; [|eapply flushed_trans; [exact Hf1|apply fb_flush_flushed; lia]].
    destruct Hf1 as ((_ & _ & _ & _ & _ & E & _) & _). intros p [Hp|Hp]; [by left|right]. by rewrite E. }
  clear Ev. clearbody v'. pose proof Hfl as ((E1 & E2 & E3 & E4 & E5 & E6 & E7) & Fin & Fany).
  assert (forall i, fb_store v' i = A \/ fb_store v' i = B) as Hst.
  { intros i. unfold fb_store. rewrite E4. cbn. destruct (_ =? 0); [by left|by right]. }
  assert (forall p, A <= p < A + n \/ B <= p < B + n -> m1 p = 0) as Hm0.
  { intros p Hp. unfold m1, memcpy, memset. zcases. }
  assert (black_frames v') as Hbl.
  { intros i p Hp. unfold bytes_of, fb_frame in Hp. cbn [pixels width height] in Hp. rewrite E1, E2 in Hp.
    assert (A <= p < A + n \/ B <= p < B + n) as Hp' by (destruct (Hst i) as [E|E]; rewrite E in Hp; unfold n, v1 in *; cbn in Hp; lia).
    rewrite E7. split; [|by apply Hm0]. rewrite (flushed_scanned _ _ _ _ Hfl); [by apply Hm0|]. cbn. intros Hi. destruct Hp'; [by left|by right]. }
  assert (fb_store v' (fb_front v') = A /\ fb_store v' (fb_front v' .^ 1) = B) as [EA EB] by (unfold fb_store, fb_front; by rewrite E4, E5).
  change (fb_width v' = w) in E1. change (fb_height v' = h) in E2. change (s_front v' = 0) in E5. change (fb_draw v' = A) in E3.
  change (s_incoherent v' = s_incoherent v) in E6.
  split; [split|split_and!; try done].
  - intros i. unfold frame_ok. cbn [width height pixels fb_frame]. rewrite E1, E2. fold n. unfold fits.
    destruct (Hst i) as [-> | ->]; split_and!; lia.
  - intros p. unfold bytes_of, fb_frame. cbn [width height pixels]. rewrite EA, EB, E1, E2. fold n. lia.
  - intros Hinc p Hp. destruct (Hbl _ _ Hp) as [Hs1 Hs2]. unfold scanned in Hs1. rewrite Hinc in Hs1. by rewrite Hs1, Hs2.
  - rewrite E3. symmetry. unfold fb_store. by rewrite E4.
  - intros i. by destruct (Hst i) as [-> | ->].
Qed.

Section bring_up.
Context {D : Type} {HD : Mmio D}.

(** Within [n] reads the register answers [p]. *)
Fixpoint answers (r : Z) (p : Z -> bool) (n : nat) (d : D) : Prop :=
  match n with O => False | S n => let '(x, d) := mmio_read d r in p (u32 x) = true \/ answers r p n d end.

Lemma wp_poll_answers {X B} n r p (k : Z -> prog (bus D * X) B) Q s0 s l x : did s0 s l x -> answers r p n (dev s.1) ->
  (forall v s1, did s0 s1 l x -> wp (k v) Q s1) -> wp (v ← poll n r p; k v) Q s.
Proof.
  intros H Ha Hk. apply wp_bind. revert s H Ha. induction n as [|n IH]; intros s [H1 H2] Ha; [done|].
  cbn in Ha |- *. apply wp_bind. unfold wp at 1, rd. destruct (mmio_read (dev s.1) r) as [v d].
  destruct (p (u32 v)) eqn:Hp; [apply Hk; split; [by rewrite <-H1|done]|].
  destruct Ha as [|Ha]; [congruence|]. apply IH; [split; [by rewrite <-H1|done]|done].
Qed.

Lemma wp_stores {B} ws (k : unit -> prog (bus D * video) B) Q s0 : forall s l x, did s0 s l x ->
  (forall s1, did s0 s1 (l ++ ws) x -> wp (k tt) Q s1) -> wp (u ← stores ws; k u) Q s.
Proof.
  intros s l x H Hk. apply wp_bind. revert s l H Hk. induction ws as [|[r v] ws IH]; intros s l H Hk; cbn [stores].
  - apply wp_ret, Hk. by rewrite app_nil_r.
  - eapply wp_wr; [exact H|]. intros s1 H1. eapply IH; [exact H1|]. intros s2. rewrite <-app_assoc. apply Hk.
Qed.

(** The words that start the fetch. *)
Definition fetch_words (base fb0 fb1 w h cr : Z) : list (Z * Z) :=
  [ (base + VDMA_MM2S_DMACR, VDMA_DMACR_RESET); (base + VDMA_MM2S_DMACR, (cr .| VDMA_DMACR_RS) .& cnot 32 VDMA_DMACR_CIRCULAR);
    (base + VDMA_PARK_PTR, 0) ] ++ vdma_start_words base fb0 fb1 w h.

Lemma wp_vdma_start {B} fuel base fb0 fb1 (k : bool -> prog (bus D * video) B) Q s0 s x :
  (forall d, answers (base + VDMA_MM2S_DMACR) (fun cr => negb (tst cr VDMA_DMACR_RESET)) fuel d) -> did s0 s [] x ->
  (forall ok s1, (if vdma_reachable fb0 (fb_size x) && vdma_reachable fb1 (fb_size x)
     then exists cr, did s0 s1 (fetch_words base fb0 fb1 (fb_width x) (fb_height x) cr) x else did s0 s1 [] x /\ ok = false) ->
     wp (k ok) Q s1) ->
  wp (ok ← vdma_start fuel base fb0 fb1; k ok) Q s.
Proof.
  intros Ha H Hk. apply wp_bind. unfold vdma_start. apply wp_get. destruct H as [Hl <-]. pose proof (conj Hl eq_refl : did s0 s [] s.2) as H.
  destruct (vdma_reachable fb0 _); cbn [negb andb] in *; [|by apply wp_ret, Hk].
  destruct (vdma_reachable fb1 _); cbn [negb]; [|by apply wp_ret, Hk].
  eapply wp_wr; [exact H|]. intros s1 H1. eapply wp_poll_answers; [exact H1|apply Ha|]. intros _ s2 H2.
  eapply wp_rd; [exact H2|]. intros cr s3 H3. eapply wp_wr; [exact H3|]. intros s4 H4. eapply wp_wr; [exact H4|]. intros s5 H5.
  eapply wp_stores; [exact H5|]. intros s6 H6. eapply wp_rd; [exact H6|]. intros sr s7 H7. apply wp_ret, Hk. by exists cr.
Qed.

(** Bring-up.  On any device whose reset ends, [soctfb_init]'s middle part returns.  A mode the
    table lacks, a failed allocation and a frame that the 32-bit fetch cannot reach stop it before
    a single register is written.  A frame comes back only after exactly the words of the fetch, for
    both stores with the first repeated, and of the mode's timing; then both frames are black to
    the CPU and on the screen, aligned and apart, the first is scanned and drawn on, and flipping can start. *)
Theorem bring_up_starts fuel vb tb w h fps bufs (s : bus D * video) : malloc_ok w h bufs ->
  (forall d, answers (vb + VDMA_MM2S_DMACR) (fun cr => negb (tst cr VDMA_DMACR_RESET)) fuel d) ->
  wp (bring_up fuel vb tb w h fps bufs) (fun r s' => let v := s'.2 in
    match r with
    | None => wlog s'.1 = wlog s.1 \/ exists cr, wlog s'.1 = wlog s.1 ++ fetch_words vb (fb_store v 0) (fb_store v 1) w h cr
    | Some fb => exists t cr, find_mode w h fps = Some t /\
        wlog s'.1 = wlog s.1 ++ fetch_words vb (fb_store v 0) (fb_store v 1) w h cr ++ timing_words tb t /\
        vdma_reachable (fb_store v 0) (fb_size v) = true /\ vdma_reachable (fb_store v 1) (fb_size v) = true /\
        double_buffered v /\ black_frames v /\ (forall i, fb_store v i mod 64 = 0) /\ fb_front v = 0 /\ fb = fb_frame v 0 /\
        s_incoherent v = s_incoherent s.2
    end) s.
Proof.
  intros Hm Ha. unfold bring_up. destruct (find_mode w h fps) as [t|] eqn:Et; [|apply wp_ret; by left].
  destruct (find_mode_size _ _ _ _ Et) as [Hw Hh]. apply wp_get.
  destruct (fb_init bufs w h s.2) as [v0|] eqn:Ei; [|apply wp_ret; by left].
  destruct (blackened_ok bufs w h s.2 v0 Hw Hh Hm Ei) as (Hdb & Hbl & Ef & Ew & Eh & Ed & Eal & Ein).
  set (v := blackened v0) in *. clearbody v.
  eapply wp_putd; [apply did_refl|]. intros s1 H1. cbn beta in H1. eapply wp_vdma_start; [exact Ha|exact H1|].
  intros ok s2 H2. destruct (vdma_reachable (fb_store v 0) _) eqn:R0, (vdma_reachable (fb_store v 1) _) eqn:R1; cbn [andb] in H2.
  2-4: destruct H2 as [[Hl Hv] ->]; apply wp_ret; left; by rewrite Hl, app_nil_r.
  destruct H2 as [cr [Hl Hv]]. rewrite Ew, Eh in Hl. destruct ok; cbn [negb].
  - unfold vtc_start. eapply wp_stores; [split; [exact Hl|exact Hv]|]. intros s3 [Hl3 Hv3]. apply wp_ret. cbn zeta. rewrite Hv3.
    exists t, cr. split_and!; try done. unfold fb_frame. by rewrite Ew, Eh, Ed.
  - apply wp_ret. cbn zeta. rewrite Hv. right. by exists cr.
Qed.
End bring_up.

(** ** The table, the clamp and the window *)

Definition mode_of (t : msa) : soct_dp_mode :=
  Mode (HActive t) (HFrontPorch t) (HSyncWidth t) (HBackPorch t) (VActive t) (F0PVFrontPorch t) (F0PVSyncWidth t) (F0PVBackPorch t)
       (HSyncPolarity t) (VSyncPolarity t) (FrameRate t) (PixelClockHz t).

(** The table's totals are the sums of their parts, its pixel clocks are the driver's for the same
    mode, and the timing generator gets the words the Linux driver writes. *)
Lemma timings_agree : Forall (fun t => msa_of (mode_of t) = t /\ timing_words vtc t = vtc_words (mode_of t)) XVidC_VideoTimingModes /\
  map Some (map PixelClockHz XVidC_VideoTimingModes) = map XVidC_GetPixelClockHzByVmId [0; 1; 2].
Proof. split; [|by vm_compute]. repeat constructor. Qed.

(** The sum in [clip] is 32 bits wide: a width that wraps it is not clamped. *)
Lemma clip_wraps p : clip (Soctfb 640 480 p) 600 0 (2 ^ 32 - 600) 1 = Some (2 ^ 32 - 600, 1).
Proof. done. Qed.

(** An address is translated into the window, or is a peripheral's and passes; nothing else does. *)
Lemma translate_safe ps base size s addr a : SoctXil_SetPsWindow ps base size = Some s -> 0 <= base -> 0 <= ps -> fits 64 addr ->
  base + size <= 2 ^ 64 -> translate s addr = Some a -> (base <= a < base + size /\ a - base = addr - ps) \/ (a = addr /\ addr < 0x80000000).
Proof.
  unfold SoctXil_SetPsWindow, translate. destruct (size =? 0) eqn:E; [done|]. intros [= <-] Hb Hp Ha Hs. cbn [s_window_size s_ps_base s_window_base].
  rewrite E. unfold fits in Ha. destruct (Z.geb_spec addr ps); cbn [andb].
  - rewrite (wrap_small 64 (addr - ps)) by (unfold fits; lia). destruct (Z.ltb_spec (addr - ps) size).
    + rewrite wrap_small by (unfold fits; lia). intros [= <-]. left. lia.
    + destruct (Z.ltb_spec addr 0x80000000); [|done]. intros [= <-]. by right.
  - destruct (Z.ltb_spec addr 0x80000000); [|done]. intros [= <-]. by right.
Qed.

(** ** Examples *)

Definition wfb : soctfb := Soctfb 4 2 0x1000.
Definition wops : list op := [Fill 0 0 3 1 0xFF0000; Rect 1 0 3 2 1 0x00FF00; Pixel 3 1 0xFF; Text 0 0 [72; 105] 0x10; Scaled 0 0 2 1 (fun i => i) 2].
Definition wvideo : video := Video 4 2 0x1000 (0x1000, 0x2000) 0 true (fun _ => 7) (fun _ => 7).

Lemma wfb_ok : frame_ok wfb /\ Forall op_ok wops.
Proof. split; [split_and!; done|]. repeat constructor; done. Qed.

Lemma wvideo_ok : double_buffered wvideo.
Proof.
  split.
  - intros i. unfold fb_frame, frame_ok, fb_store. cbn [width height pixels fb_width fb_height s_stores wvideo]. by destruct (_ =? 0).
  - intros p. change (~ (0x1000 <= p < 0x1018 /\ 0x2000 <= p < 0x2018)). lia.
  - done.
Qed.

(** A device that reads back the store it was asked for, and never holds a reset. *)
Definition echo : Mmio Z := {| mmio_read d r := (if r =? VDMA_PARK_PTR then d .<< 16 else 0, d); mmio_write d r v := if r =? VDMA_PARK_PTR then v .& 31 else d |}.


Lemma drawn_is_scanned_witness :
  let v2 := soctfb_flush wfb 1 0 2 2 (set_cpu (foldl (draw wfb) (cpu wvideo) wops) wvideo) in
  shows wfb (fun _ => 7) (scanned v2) (pictures wops) (in_box 1 0 2 2).
Proof.
  refine (proj1 (drawn_is_scanned wfb wops 1 0 2 2 wvideo (proj1 wfb_ok) _ eq_refl (proj2 wfb_ok) _)); [done|].
  by split_and!.
Defined.

Lemma frames_alternate_witness : exists r s',
  (put (render wops);; @soctfb_flip Z echo 0 (fb_frame wvideo 1)) (Bus 0 [], wvideo) = Ret (r, s') /\
  forall p, 0x1000 <= p < 0x1018 -> scanned s'.2 p = 7.
Proof.
  destruct (wp_run _ _ _ (@frames_alternate Z echo wops 0 (Bus 0 [], wvideo) wvideo_ok (proj2 wfb_ok))) as (r & s' & E & _ & H & _).
  exists r, s'. split; [exact E|]. intros p Hp. apply H. exact Hp.
Defined.

Lemma bring_up_starts_witness : exists r s',
  @bring_up Z echo 1 0 0x10000 640 480 60 (Some 0x80000000, Some 0x80200000) (Bus 0 [], wvideo) = Ret (r, s').
Proof.
  destruct (wp_run _ _ _ (@bring_up_starts Z echo 1 0 0x10000 640 480 60 (Some 0x80000000, Some 0x80200000) (Bus 0 [], wvideo)
    ltac:(cbn; lia) ltac:(intros d; by left))) as (r & s' & E & _).
  by exists r, s'.
Defined.
