(* ===== verification/SoctInit.v ===== *)
(** * The bare-metal display: from the device tree to a lit screen (baremetal/soctfb)

    [soctfb_init] whole: the look-ups of soctfb.c, the probe of the register window and the link
    of dp.c, around [SoctFb.bring_up].  The vendored DisplayPort and AV-buffer drivers are their
    answers ([dp_answers]); the stream they are asked for is part of the result.  [None] is
    abort() everywhere. *)
From Stdlib Require Import String.
From S2P Require Import Prelude Mmio Dtb DtbTree DtbQuery DtbCompat DpMode SoctFb SoctFbProofs.

#[local] Open Scope list_scope.
#[local] Abbreviation length := List.length.

Definition PS_DP_BASEADDR : Z := 0xFD4A0000.
Definition XDPPSU_MAIN_STREAM_HTOTAL : Z := 0x180.

(** ** Look-ups *)

Section tree.
Context (blob : list Z) (st : dtb_state).

Definition dt_require_compatible (compat : cptr) : res (option nat) := dtb_find_compatible blob st None (Some compat).

(** [val] has room for one pair. *)
Definition dt_require_reg (node : nat) : res (option (Z * Z)) :=
  reg ← dtb_find_prop blob st (Some node) (lit "reg");
  match reg with
  | None => Ret None
  | Some _ =>
      ac ← dtb_get_addr_cells_for blob st (Some node);
      sc ← dtb_get_size_cells_for blob st (Some node);
      pd ← deref_prop st reg;
      '(count, vals) ← dtb_read_prop_2 blob pd ac sc true;
      if 1 <? count then Undef else if count <? 1 then Ret None else
      match hd [] vals with [a; b] => Ret (Some (u64 a, u64 b)) | _ => Ret None end
  end.

Definition dt_require_u32 (node : nat) (name : cptr) : res (option Z) :=
  prop ← dtb_find_prop blob st (Some node) name;
  match prop with
  | None => Ret None
  | Some _ =>
      pd ← deref_prop st prop;
      '(count, vals) ← dtb_read_prop_1 blob pd 1 true;
      if 1 <? count then Undef else if count <? 1 then Ret None else Ret (Some (u64 (hd 0 vals)))
  end.

(** [fb_coherence_init]: whether the fetch is incoherent. *)
Definition fb_coherence_init (vdma_node : nat) : res (option bool) :=
  p ← dtb_find_prop blob st (Some vdma_node) (lit "soct,incoherent");
  match p with
  | None => Ret (Some false)
  | Some _ =>
      l2 ← dtb_find_compatible blob st None (Some (lit "sifive,inclusivecache0"));
      match l2 with
      | None => Ret None
      | Some l2 => r ← dt_require_reg l2; Ret (match r with Some _ => Some true | None => None end)
      end
  end.
End tree.

(** ** The hardware *)

(** What the vendored drivers answer: the AV buffer's two formats, the PHY, whether the monitor is
    there at each look, its capabilities, the main link and its training. *)
Record dp_answers := DpAnswers {
  live_ok : bool; output_ok : bool; tx_ok : bool; connected : nat -> bool; caps_ok : bool; main_ok : bool; train_ok : bool }.

(** [while (!XDpPsu_IsConnected(dp)) usleep(100000);]. *)
Fixpoint wait_monitor (fuel : nat) (c : nat -> bool) : res unit :=
  match fuel with O => Fuel | S fuel => if c O then Ret tt else wait_monitor fuel (fun i => c (S i)) end.

Definition dp_avbuf_select_live_video (k : dp_answers) : bool := live_ok k && output_ok k.
Definition dp_start_link (fuel : nat) (k : dp_answers) : res bool :=
  if negb (tx_ok k) then Ret false else
  wait_monitor fuel (connected k);;
  Ret (caps_ok k && main_ok k && train_ok k).

Section hardware.
Context {D : Type} {HD : Mmio D} (blob : list Z) (st : dtb_state) (k : dp_answers).
Abbreviation drv := (prog (bus D * video)).

(** A step that may abort. *)
Definition need {A B} (m : drv (option A)) (f : A -> drv (option B)) : drv (option B) :=
  o ← m; match o with None => mret None | Some a => f a end.
Definition look {A} (r : res (option A)) : drv (option A) := lift r.
Definition guard (b : bool) : drv (option unit) := mret (if b then Some tt else None).

(** The register of the PS through the window. *)
Definition Xil_In32 (w : window) (addr : Z) : drv (option Z) :=
  match translate w addr with None => mret None | Some a => v ← rd a; mret (Some v) end.
Definition Xil_Out32 (w : window) (addr v : Z) : drv (option unit) :=
  match translate w addr with None => mret None | Some a => wr a v;; mret (Some tt) end.

Definition probe : Z := 0xABC.
Definition dp_probe_ps_window (w : window) : drv (option unit) :=
  let htotal := PS_DP_BASEADDR + XDPPSU_MAIN_STREAM_HTOTAL in
  need (Xil_In32 w htotal) (fun initial =>
  need (Xil_Out32 w htotal probe) (fun _ =>
  need (Xil_In32 w htotal) (fun got =>
  need (Xil_Out32 w htotal initial) (fun _ =>
  guard (got =? probe))))).

Definition open_ps_window : drv (option window) :=
  need (look (dt_require_compatible blob st (lit "soct,zynqmp-ps-window"))) (fun win =>
  need (look (dt_require_reg blob st win)) (fun '(win_base, win_size) =>
  need (look (dt_require_u32 blob st win (lit "soct,ps-base"))) (fun ps_base =>
  need (mret (SoctXil_SetPsWindow ps_base win_base win_size)) (fun w =>
  need (dp_probe_ps_window w) (fun _ => mret (Some w)))))).

Definition set_incoherent (b : bool) : drv unit :=
  put (fun v => Video (fb_width v) (fb_height v) (fb_draw v) (s_stores v) (s_front v) b (cpu v) (dram v)).

(** The frame it hands out and the mode of the stream that was started. *)
Definition soctfb_init (fuel hpd : nat) (bufs : option Z * option Z) : drv (option (soctfb * msa)) :=
  need open_ps_window (fun _ =>
  need (look (dt_require_compatible blob st (lit "xlnx,axi-vdma-1.00.a"))) (fun vdma_node =>
  need (look (dt_require_reg blob st vdma_node)) (fun '(vdma_base, _) =>
  need (look (fb_coherence_init blob st vdma_node)) (fun incoherent =>
  set_incoherent incoherent;;
  need (look (dt_require_compatible blob st (lit "xlnx,v-tc-6.2"))) (fun vtc_node =>
  need (look (dt_require_reg blob st vtc_node)) (fun '(vtc_base, _) =>
  need (look (dtb_find blob st (lit "/soc/cbus_clock"))) (fun cbus =>
  need (look (dt_require_u32 blob st cbus (lit "clock-frequency"))) (fun hz =>
  need (mret (SoctXil_SetCpuFreqHz hz)) (fun _ =>
  need (look (dt_require_u32 blob st vtc_node (lit "soct,hactive"))) (fun w =>
  need (look (dt_require_u32 blob st vtc_node (lit "soct,vactive"))) (fun h =>
  need (look (dt_require_u32 blob st vtc_node (lit "soct,fps"))) (fun fps =>
  need (bring_up fuel vdma_base vtc_base (u32 w) (u32 h) (u32 fps) bufs) (fun fb =>
  need (guard (dp_avbuf_select_live_video k)) (fun _ =>
  up ← lift (dp_start_link hpd k);
  need (guard up) (fun _ =>
  mret (match find_mode (u32 w) (u32 h) (u32 fps) with Some t => Some (fb, t) | None => None end)))))))))))))))).
End hardware.

(** ** The probe *)

Section proofs.
Context {D : Type} {HD : Mmio D}.
Abbreviation state := (bus D * video)%type.

Lemma wp_look {A B} (r : res (option A)) a (f : A -> prog state (option B)) Q s :
  r = Ret (Some a) -> wp (f a) Q s -> wp (need (look r) f) Q s.
Proof. intros -> H. by apply wp_bind. Qed.

Lemma wp_pure {A B} (o : option A) (f : A -> prog state (option B)) Q s :
  (o = None -> Q None s) -> (forall a, o = Some a -> wp (f a) Q s) -> wp (need (mret o) f) Q s.
Proof. intros Hn Hs. apply wp_bind. apply wp_ret. destruct o; [by apply Hs|by apply wp_ret, Hn]. Qed.

Lemma wp_need {A B} (m : prog state (option A)) (f : A -> prog state (option B)) Q s :
  wp m (fun o s' => match o with None => Q None s' | Some a => wp (f a) Q s' end) s -> wp (need m f) Q s.
Proof. intros H. apply wp_bind. eapply wp_mono; [exact H|]. intros [a|] s' G; [exact G|by apply wp_ret]. Qed.

Definition htotal : Z := PS_DP_BASEADDR + XDPPSU_MAIN_STREAM_HTOTAL.

(** The probe reads and writes one register; it goes on exactly when the word comes back, and
    writes the first value again either way. *)
Lemma probe_ps_spec (w : window) s : wp (dp_probe_ps_window w) (fun o s' => s'.2 = s.2 /\
  match translate w htotal with
  | None => o = None /\ wlog s'.1 = wlog s.1
  | Some a => exists initial, wlog s'.1 = wlog s.1 ++ [(a, probe); (a, initial)]
  end) s.
Proof.
  unfold dp_probe_ps_window. fold htotal. apply wp_need. unfold Xil_In32, Xil_Out32. destruct (translate w htotal) as [a|] eqn:E; [|by apply wp_ret].
  pose proof (did_refl s) as H0. eapply wp_rd; [exact H0|]. intros i s1 H1. apply wp_ret. apply wp_need. eapply wp_wr; [exact H1|]. intros s2 H2. apply wp_ret.
  apply wp_need. eapply wp_rd; [exact H2|]. intros got s3 H3. apply wp_ret. apply wp_need. eapply wp_wr; [exact H3|]. intros s4 [H4 X4].
  apply wp_ret. unfold guard. apply wp_ret. split; [done|]. by exists i.
Qed.

(** A dead path, whose reads answer one word whatever is written, is found out; a live register
    passes and is left as it was. *)
Lemma probe_dead c (w : window) s : (forall d r, (mmio_read d r).1 = c) -> u32 c <> probe ->
  wp (dp_probe_ps_window w) (fun o _ => o = None) s.
Proof.
  intros Hc Hne. unfold dp_probe_ps_window. fold htotal.
  assert (forall A (f : Z -> prog state (option A)) Q a s, (forall s', wp (f (u32 c)) Q s') -> wp (v ← rd a; f v) Q s) as Hrd.
  { intros A f Q a s0 Hf. apply wp_bind. unfold wp at 1, rd. specialize (Hc (Mmio.dev s0.1) a). destruct (mmio_read _ _) as [v d]. cbn in Hc. subst v. apply Hf. }
  apply wp_need. unfold Xil_In32, Xil_Out32. destruct (translate w htotal) as [a|]; [|by apply wp_ret].
  apply Hrd. intros s1. apply wp_ret. apply wp_need, wp_bind. unfold wp at 1, wr. apply wp_ret.
  apply wp_need, Hrd. intros s2. apply wp_ret. apply wp_need, wp_bind. unfold wp at 1, wr. apply wp_ret.
  unfold guard. destruct (Z.eqb_spec (u32 c) probe); [done|by apply wp_ret].
Qed.

Lemma probe_live (w : window) a x s : translate w htotal = Some a -> fits 32 x -> (mmio_read (Mmio.dev s.1) a).1 = x ->
  (forall d v, fits 32 v -> (mmio_read (mmio_write d a v) a).1 = v) ->
  wp (dp_probe_ps_window w) (fun o s' => o = Some tt /\ (mmio_read (Mmio.dev s'.1) a).1 = x) s.
Proof.
  intros Ht Hx H0 Hw. unfold dp_probe_ps_window. fold htotal. apply wp_need. unfold Xil_In32, Xil_Out32. rewrite Ht.
  apply wp_bind. unfold wp at 1, rd. destruct (mmio_read (Mmio.dev s.1) a) as [v d]. cbn in H0. subst v. rewrite (wrap_small 32 x) by done. apply wp_ret.
  apply wp_need, wp_bind. unfold wp at 1, wr. apply wp_ret. apply wp_need, wp_bind. unfold wp at 1, rd. cbn [fst Mmio.dev].
  pose proof (Hw d probe ltac:(unfold fits, probe; lia)) as Hp. destruct (mmio_read (mmio_write d a probe) a) as [v d2]. cbn in Hp. subst v. apply wp_ret.
  apply wp_need, wp_bind. unfold wp at 1, wr. apply wp_ret. unfold guard. change (u32 probe) with probe. rewrite Z.eqb_refl. apply wp_ret.
  split; [done|]. by apply Hw.
Qed.

(** ** The whole *)

(** What a device tree says of a design with a display. *)
Record board := Board { b_win : Z * Z; b_ps : Z; b_vdma : Z; b_incoherent : bool; b_vtc : Z; b_hz : Z; b_w : Z; b_h : Z; b_fps : Z }.
Definition describes (blob : list Z) (st : dtb_state) (b : board) : Prop :=
  exists win vdma vtc cbus z1 z2,
    dt_require_compatible blob st (lit "soct,zynqmp-ps-window") = Ret (Some win) /\ dt_require_reg blob st win = Ret (Some (b_win b)) /\
    dt_require_u32 blob st win (lit "soct,ps-base") = Ret (Some (b_ps b)) /\
    dt_require_compatible blob st (lit "xlnx,axi-vdma-1.00.a") = Ret (Some vdma) /\ dt_require_reg blob st vdma = Ret (Some (b_vdma b, z1)) /\
    fb_coherence_init blob st vdma = Ret (Some (b_incoherent b)) /\
    dt_require_compatible blob st (lit "xlnx,v-tc-6.2") = Ret (Some vtc) /\ dt_require_reg blob st vtc = Ret (Some (b_vtc b, z2)) /\
    dtb_find blob st (lit "/soc/cbus_clock") = Ret (Some cbus) /\ dt_require_u32 blob st cbus (lit "clock-frequency") = Ret (Some (b_hz b)) /\
    dt_require_u32 blob st vtc (lit "soct,hactive") = Ret (Some (b_w b)) /\ dt_require_u32 blob st vtc (lit "soct,vactive") = Ret (Some (b_h b)) /\
    dt_require_u32 blob st vtc (lit "soct,fps") = Ret (Some (b_fps b)).

Lemma monitor_ends fuel : forall c, (exists i, (i < fuel)%nat /\ c i = true) -> wait_monitor fuel c = Ret tt.
Proof.
  induction fuel as [|fuel IH]; intros c (i & Hi & Hc); [lia|]. cbn. destruct (c O) eqn:E; [done|]. apply IH.
  destruct i as [|i]; [congruence|]. exists i. split; [lia|done].
Qed.

Lemma link_ends hpd k : (exists i, (i < hpd)%nat /\ connected k i = true) ->
  dp_start_link hpd k = Ret (tx_ok k && caps_ok k && main_ok k && train_ok k).
Proof. intros H. unfold dp_start_link. destruct (tx_ok k); cbn [negb]; [|done]. by rewrite monitor_ends. Qed.

(** The screen is lit: the stream's mode is the tree's, and the fetch and the timing generator got
    exactly their words, after the probe of the window. *)
Definition lit_up (b : board) (k : dp_answers) (s s' : state) (fb : soctfb) (t : msa) : Prop :=
  let v := s'.2 in
  find_mode (u32 (b_w b)) (u32 (b_h b)) (u32 (b_fps b)) = Some t /\
  (exists a initial cr, translate (Window (b_ps b) (b_win b).1 (b_win b).2) htotal = Some a /\
    wlog s'.1 = wlog s.1 ++ [(a, probe); (a, initial)] ++
      fetch_words (b_vdma b) (fb_store v 0) (fb_store v 1) (u32 (b_w b)) (u32 (b_h b)) cr ++ timing_words (b_vtc b) t) /\
  double_buffered v /\ black_frames v /\ s_incoherent v = b_incoherent b /\ fb = fb_frame v 0 /\ fb_front v = 0 /\
  live_ok k && output_ok k && (tx_ok k && caps_ok k && main_ok k && train_ok k) = true.

Lemma init_spec blob st k fuel hpd bufs b s : describes blob st b -> malloc_ok (u32 (b_w b)) (u32 (b_h b)) bufs ->
  (forall d, answers (b_vdma b + VDMA_MM2S_DMACR) (fun cr => negb (tst cr VDMA_DMACR_RESET)) fuel d) ->
  (exists i, (i < hpd)%nat /\ connected k i = true) ->
  wp (soctfb_init blob st k fuel hpd bufs) (fun r s' => match r with None => True | Some (fb, t) => lit_up b k s s' fb t end) s.
Proof.
  intros (win & vdma & vtc & cbus & z1 & z2 & T1 & T2 & T3 & T4 & T5 & T6 & T7 & T8 & T9 & T10 & T11 & T12 & T13) Hm Ha Hc.
  unfold soctfb_init. apply wp_need. unfold open_ps_window. eapply wp_look; [exact T1|]. eapply wp_look; [exact T2|].
  destruct (b_win b) as [wb ws] eqn:Ewin. eapply wp_look; [exact T3|]. apply wp_pure; [done|]. intros w Hw.
  assert (w = Window (b_ps b) wb ws) as ->.
  { unfold SoctXil_SetPsWindow in Hw. destruct (ws =? 0); [done|by injection Hw]. }
  apply wp_need. eapply wp_mono; [apply probe_ps_spec|]. intros [[]|] s1 [X1 L1]; [|done]. apply wp_ret.
  destruct (translate _ htotal) as [a|] eqn:Et; [|by destruct L1]. destruct L1 as [initial L1].
  eapply wp_look; [exact T4|]. eapply wp_look; [exact T5|]. cbn beta iota. eapply wp_look; [exact T6|].
  unfold set_incoherent. apply wp_put. set (s2 := (s1.1, _)). assert (wlog s2.1 = wlog s1.1) as L2 by done.
  eapply wp_look; [exact T7|]. eapply wp_look; [exact T8|]. cbn beta iota. eapply wp_look; [exact T9|]. eapply wp_look; [exact T10|].
  apply wp_pure; [done|]. intros _ _. eapply wp_look; [exact T11|]. eapply wp_look; [exact T12|]. eapply wp_look; [exact T13|].
  apply wp_need. eapply wp_mono; [by apply bring_up_starts|]. intros [fb|] s3; [|done]. cbn zeta.
  intros (t & cr & Em & L3 & _ & _ & Hdb & Hbl & _ & Hf & -> & Hin).
  unfold guard, dp_avbuf_select_live_video. apply wp_pure; [done|]. intros [] Hlive. destruct (live_ok k && output_ok k) eqn:El; [|done].
  eapply wp_lift; [by apply link_ends|]. apply wp_pure; [done|]. intros [] Hup.
  destruct (tx_ok k && caps_ok k && main_ok k && train_ok k) eqn:Eu; [|done]. rewrite Em. apply wp_ret.
  unfold lit_up. cbn zeta. rewrite Ewin. cbn [fst snd]. split; [done|]. split; [|by rewrite El, Eu].
  exists a, initial, cr. split; [done|]. rewrite L3, L2, L1, <-app_assoc. done.
Qed.
End proofs.


(** ** A design with a display *)

Definition fb_strings : list Z :=
  lit "compatible" ++ lit "reg" ++ lit "clock-frequency" ++ lit "soct,ps-base" ++ lit "soct,hactive" ++ lit "soct,vactive" ++ lit "soct,fps" ++ replicate 64 0.
Definition fb_node (nm compat : string) (base size : Z) (more : list item) : tree :=
  Tree (str nm) (IProp 0 (str "compatible") (lit compat) :: IProp 11 (str "reg") (be_bytes 0 ++ be_bytes base ++ be_bytes size) :: more).
Definition fb_tree : tree :=
  Tree [] [INode (Tree (str "memory@0") [IProp 11 (str "reg") (be_bytes 1 ++ be_bytes 3)]);
    INode (Tree (str "soc") [INode (Tree (str "cbus_clock") [IProp 15 (str "clock-frequency") (be_bytes 100000000)]);
      INode (fb_node "window@40000000" "soct,zynqmp-ps-window" 0x40000000 0x10000 [IProp 31 (str "soct,ps-base") (be_bytes 0xFD4A0000)]);
      INode (fb_node "dma@60000000" "xlnx,axi-vdma-1.00.a" 0x60000000 0x10000 []);
      INode (fb_node "v_tc@60010000" "xlnx,v-tc-6.2" 0x60010000 0x10000
        [IProp 44 (str "soct,hactive") (be_bytes 640); IProp 57 (str "soct,vactive") (be_bytes 480); IProp 70 (str "soct,fps") (be_bytes 60)])])].
Definition fb_blob : list Z := mk_blob fb_tree fb_strings.
Definition ex_board : board := Board (0x40000000, 0x10000) 0xFD4A0000 0x60000000 false 0x60010000 100000000 640 480 60.

Lemma ex_described : describes fb_blob (parsed fb_blob) ex_board.
Proof. exists 4%nat, 5%nat, 6%nat, 3%nat, 0x10000, 0x10000. split_and!; vm_compute; reflexivity. Qed.

(** One register that keeps what is written; everything else reads 0. *)
Definition one_register : Mmio Z := {|
  mmio_read d r := (if r =? 0x40000180 then d else 0, d);
  mmio_write d r v := if r =? 0x40000180 then v else d |}.
Definition all_well : dp_answers := DpAnswers true true true (fun i => (3 <? i)%nat) true true true.
Definition ex_video : video := Video 0 0 0 (0, 0) 0 true (fun _ => 7) (fun _ => 7).

Lemma ex_lit : match @soctfb_init Z one_register fb_blob (parsed fb_blob) all_well 1 10 (Some 0x80000000, Some 0x80200000) (Bus 1056 [], ex_video) with
  | Ret (Some (fb, t), s') => (width fb, height fb, HTotal t, Mmio.dev s'.1, length (wlog s'.1)) = (640, 480, 800, 1056, 25%nat)
  | _ => False
  end.
Proof. vm_compute. reflexivity. Qed.

