(* ===== verification/Teapot.v ===== *)
(** * The test picture and the teapot (baremetal/dp-test/render.c)

    What dp-test draws: a still pattern, and a mesh that is projected with single-precision floats
    and filled triangle by triangle with integers, through a depth buffer.  Signed arithmetic that
    leaves [int] is [Undef], as is a float out of the range of the integer it is converted to; the mesh of
    teapot_mesh.h and the C library's cosf and sinf are arguments.  The products in 64 bits cannot
    overflow and are plain. *)
From Stdlib Require Import SpecFloat.
From S2P Require Import Prelude SoctFb.
#[local] Open Scope list_scope.
#[local] Abbreviation length := List.length.

Definition TEAPOT_BOX : Z := 288.

(** [for (v in l)] with a body that may be undefined. *)
Fixpoint each {S X} (l : list X) (body : S -> X -> res S) (s : S) : res S :=
  match l with [] => Ret s | x :: l => s ← body s x; each l body s end.

(** ** The pattern *)

Definition bars : list (Z * Z * Z) :=
  [ (255, 255, 255); (255, 255, 0); (0, 255, 255); (0, 255, 0); (255, 0, 255); (255, 0, 0); (0, 0, 255); (0, 0, 0) ].

Definition background_color (v : video) (x y : Z) : Z * Z * Z :=
  if (x <? 4) || (x >=? u32 (fb_width v - 4)) || (y <? 4) || (y >=? u32 (fb_height v - 4)) then (255, 255, 255)
  else if y <? u32 (fb_height v * 3) / 4 then nth (Z.to_nat (u32 (x * 8) / fb_width v)) bars (0, 0, 0)
  else let g := u8 (u32 (x * 255) / u32 (fb_width v - 1)) in (g, g, g).

Definition pattern_draw (v : video) : video :=
  loop (fb_height v) (fun v y => loop (fb_width v) (fun v x =>
    let '(r, g, b) := background_color v x y in fb_put_pixel x y r g b v) v) v.

(** ** Projection *)

Definition teapot_bounds (v : video) : Z * Z * Z * Z :=
  (u32 (fb_width v / 2 - TEAPOT_BOX / 2), u32 (fb_height v / 2 - TEAPOT_BOX / 2), TEAPOT_BOX, TEAPOT_BOX).

Abbreviation float := spec_float.
Definition fadd : float -> float -> float := SFadd 24 128.
Definition fsub : float -> float -> float := SFsub 24 128.
Definition fmul : float -> float -> float := SFmul 24 128.
Definition fdiv : float -> float -> float := SFdiv 24 128.
Definition of_int (z : Z) : float := binary_normalize 24 128 z 0 false.
(** The literal n/d: both are exact, and the quotient rounds once. *)
Definition flit (n d : Z) : float := fdiv (of_int n) (of_int d).
(** Conversion to an integer type whose values are from [lo] to [hi]. *)
Definition to_int (lo hi : Z) (f : float) : res Z :=
  match f with
  | S754_zero _ => Ret 0
  | S754_finite s m e =>
      let a := if 0 <=? e then Zpos m * 2 ^ e else Zpos m / 2 ^ (- e) in
      let z := if s then - a else a in
      if (lo <=? z) && (z <=? hi) then Ret z else Undef
  | _ => Undef
  end.

(** A projected vertex: its place in the box and its depth. *)
Record vertex := Vertex { vx : Z; vy : Z; vz : Z }.

Section project.
Context (cosf sinf : float -> float).

Definition project (angle : float) (p : Z * Z * Z) : res vertex :=
  let '(px, py, pz) := p in
  let half := of_int (TEAPOT_BOX / 2) in
  let cs := cosf angle in let sn := sinf angle in
  let tc := cosf (flit 45 100) in let ts := sinf (flit 45 100) in
  let x := fmul (of_int px) (flit 1 16383) in
  let y := fmul (of_int py) (flit 1 16383) in
  let z := fmul (of_int pz) (flit 1 16383) in
  let rx := fadd (fmul x cs) (fmul z sn) in
  let rz := fadd (fmul (SFopp x) sn) (fmul z cs) in
  let ry := fsub (fmul y tc) (fmul rz ts) in
  let rz := fadd (fadd (fmul y ts) (fmul rz tc)) (flit 5 2) in
  let inv := fdiv (of_int 1) rz in
  a ← to_int (-32768) 32767 (fadd half (fmul (fmul (of_int 200) rx) inv));
  b ← to_int (-32768) 32767 (fsub half (fmul (fmul (of_int 200) ry) inv));
  c ← to_int 0 65535 (fmul (fsub rz (flit 14 10)) (fdiv (of_int 65535) (flit 22 10)));
  Ret (Vertex a b c).

Fixpoint project_all (angle : float) (l : list (Z * Z * Z)) : res (list vertex) :=
  match l with [] => Ret [] | p :: l => v ← project angle p; vs ← project_all angle l; Ret (v :: vs) end.
End project.

(** ** Triangles *)

Definition int (x : Z) : res Z := if (- 2 ^ 31 <=? x) && (x <? 2 ^ 31) then Ret x else Undef.
(** [p * q - r * s]. *)
Definition det (p q r s : Z) : res Z := a ← int (p * q); b ← int (r * s); int (a - b).

Record tri := Tri { ta : vertex; tb : vertex; tc : vertex }.

(** The triangle with its edge functions positive inside, and twice its area. *)
Definition winding (t : tri) : res (Z * tri) :=
  let 'Tri a b c := t in
  area ← det (vx b - vx a) (vy c - vy a) (vx c - vx a) (vy b - vy a);
  Ret (if area <? 0 then (- area, Tri a c b) else (area, t)).

Record bbox := Bbox { minx : Z; miny : Z; maxx : Z; maxy : Z }.
Definition bounds (t : tri) : bbox :=
  let 'Tri a b c := t in
  Bbox (Z.max 0 (Z.min (vx c) (Z.min (vx a) (vx b)))) (Z.max 0 (Z.min (vy c) (Z.min (vy a) (vy b))))
       (Z.min (TEAPOT_BOX - 1) (Z.max (vx c) (Z.max (vx a) (vx b)))) (Z.min (TEAPOT_BOX - 1) (Z.max (vy c) (Z.max (vy a) (vy b)))).

(** What is carried from pixel to pixel: the three edge functions, the depth, red and green. *)
Record walk := Walk { w0 : Z; w1 : Z; w2 : Z; zfp : Z; rfp : Z; gfp : Z }.
Definition step (d k : walk) : res walk :=
  a ← int (w0 k + w0 d); b ← int (w1 k + w1 d); c ← int (w2 k + w2 d);
  z ← int (zfp k + zfp d); r ← int (rfp k + rfp d); g ← int (gfp k + gfp d);
  Ret (Walk a b c z r g).

Definition crange : Z := 231 * 256.

(** The steps along a row and down a column. *)
Definition deltas (area : Z) (t : tri) : walk * walk :=
  let 'Tri a b c := t in
  let a12 := vy b - vy c in let b12 := vx c - vx b in
  let a20 := vy c - vy a in let b20 := vx a - vx c in
  let a01 := vy a - vy b in let b01 := vx b - vx a in
  let db := vz b - vz a in let dc := vz c - vz a in
  (Walk a12 a20 a01 (s32 (Z.quot ((db * a20 + dc * a01) * 256) area)) (s32 (Z.quot (crange * a12) area)) (s32 (Z.quot (crange * a20) area)),
   Walk b12 b20 b01 (s32 (Z.quot ((db * b20 + dc * b01) * 256) area)) (s32 (Z.quot (crange * b12) area)) (s32 (Z.quot (crange * b20) area))).

(** At the corner of the bounding box. *)
Definition corner (area : Z) (t : tri) (x y : Z) : res walk :=
  let 'Tri a b c := t in
  e0 ← det (vx b - x) (vy c - y) (vx c - x) (vy b - y);
  e1 ← det (vx c - x) (vy a - y) (vx a - x) (vy c - y);
  e2 ← det (vx a - x) (vy b - y) (vx b - x) (vy a - y);
  z ← int (vz a * 256 + s32 (Z.quot (((vz b - vz a) * e1 + (vz c - vz a) * e2) * 256) area));
  r ← int (24 * 256 + s32 (Z.quot (crange * e0) area));
  g ← int (24 * 256 + s32 (Z.quot (crange * e1) area));
  Ret (Walk e0 e1 e2 z r g).

(** ** Filling *)

(** The depth buffer by index, and memory. *)
Definition canvas : Type := (Z -> Z) * memory.

Definition FB_BYTE_B : Z := 0.
Definition FB_BYTE_G : Z := 1.
Definition FB_BYTE_R : Z := 2.

Definition set_depth (i z : Z) (d : Z -> Z) : Z -> Z := fun j => if j =? i then u16 z else d j.

(** One pixel: depth entry [i], colour at [p]. *)
Definition plot (i p : Z) (k : walk) (s : canvas) : canvas :=
  if 0 <=? (w0 k .| w1 k .| w2 k) then
    let zq := u32 (zfp k) .>> 8 in
    if zq <? s.1 i then
      let r := u8 (rfp k .>> 8) in let g := u8 (gfp k .>> 8) in
      (set_depth i zq s.1, store8 (p + FB_BYTE_B) (303 - r - g) (store8 (p + FB_BYTE_G) g (store8 (p + FB_BYTE_R) r s.2)))
    else s
  else s.

(** The pixels of a row. *)
Definition fill_row (d : walk) (i p : Z) (n : Z) (k : walk) (s : canvas) : res canvas :=
  r ← each (seqZ 0 n) (fun '(k, i, p, s) _ => let s := plot i p k s in k ← step d k; Ret (k, i + 1, u64 (p + 3), s)) (k, i, p, s);
  Ret r.2.

Section teapot.
(** [fb] and [width] as [teapot_render] hoists them, and the box's place on the screen. *)
Context (fb width x0scr y0scr : Z).

Definition at_px (x y : Z) : Z := u64 (fb + u64 (u64 (u64 (u64 (y0scr + y) * width) + u32 (x0scr + x)) * 3)).

Definition fill (area : Z) (t : tri) (s : canvas) : res canvas :=
  let bb := bounds t in
  if (minx bb >? maxx bb) || (miny bb >? maxy bb) then Ret s else
  let '(dx, dy) := deltas area t in
  k ← corner area t (minx bb) (miny bb);
  r ← each (seqZ (miny bb) (maxy bb - miny bb + 1)) (fun '(k, s) y =>
        s ← fill_row dx (y * TEAPOT_BOX + minx bb) (at_px (minx bb) y) (maxx bb - minx bb + 1) k s;
        k ← step dy k; Ret (k, s)) (k, s);
  Ret r.2.

Definition draw_face (s : canvas) (t : tri) : res canvas :=
  '(area, t) ← winding t;
  if area <? 4 then Ret s else fill area t s.

Definition clear_box (m : memory) : memory :=
  loop TEAPOT_BOX (fun m y => memset (at_px 0 y) 0 (TEAPOT_BOX * 3) m) m.
End teapot.

Definition corner_of (vs : list vertex) (i : Z) : res vertex := of_opt (nth_error vs (Z.to_nat i)).
Definition face_of (vs : list vertex) (f : Z * Z * Z) : res tri :=
  let '(ia, ib, ic) := f in a ← corner_of vs ia; b ← corner_of vs ib; c ← corner_of vs ic; Ret (Tri a b c).

Section render.
Context (cosf sinf : float -> float) (verts faces : list (Z * Z * Z)).

(** The depth buffer is fresh in every frame. *)
Definition teapot_render (angle : float) (v : video) : res video :=
  let half := TEAPOT_BOX / 2 in
  let x0scr := Z.quot (s32 (fb_width v)) 2 - half in let y0scr := Z.quot (s32 (fb_height v)) 2 - half in
  vs ← project_all cosf sinf angle verts;
  let m := clear_box (fb_draw v) (fb_width v) x0scr y0scr (cpu v) in
  s ← each faces (fun s f => t ← face_of vs f; draw_face (fb_draw v) (fb_width v) x0scr y0scr s t) ((fun _ => 0xFFFF), m);
  Ret (set_cpu s.2 v).
End render.
