(* ===== verification/TeapotProofs.v ===== *)
(** * The teapot: proofs

    [teapot_render] steps edge functions and fixed-point planes from pixel to pixel.  Here every
    value it carries has a closed form in the pixel's coordinates ([carried]), which stays in 32
    bits ([step_x], [step_y]); so a triangle puts exactly [shade] on the canvas, and the depth buffer
    leaves the nearest triangle's colour. *)
From S2P Require Import Prelude Mmio SoctFb SoctFbProofs Teapot.
#[local] Open Scope list_scope.
#[local] Abbreviation length := List.length.

(** ** Edge functions *)

Definition cross (a b : vertex) (x y : Z) : Z := (vx a - x) * (vy b - y) - (vx b - x) * (vy a - y).
Definition e0 (t : tri) : Z -> Z -> Z := cross (tb t) (tc t).
Definition e1 (t : tri) : Z -> Z -> Z := cross (tc t) (ta t).
Definition e2 (t : tri) : Z -> Z -> Z := cross (ta t) (tb t).
(** Twice the signed area. *)
Definition area2 (t : tri) : Z := (vx (tb t) - vx (ta t)) * (vy (tc t) - vy (ta t)) - (vx (tc t) - vx (ta t)) * (vy (tb t) - vy (ta t)).

Lemma edges_sum t x y : e0 t x y + e1 t x y + e2 t x y = area2 t.
Proof. unfold e0, e1, e2, cross, area2. ring. Qed.
Lemma edges_x t x y : e0 t x y * vx (ta t) + e1 t x y * vx (tb t) + e2 t x y * vx (tc t) = area2 t * x.
Proof. unfold e0, e1, e2, cross, area2. ring. Qed.
Lemma edges_y t x y : e0 t x y * vy (ta t) + e1 t x y * vy (tb t) + e2 t x y * vy (tc t) = area2 t * y.
Proof. unfold e0, e1, e2, cross, area2. ring. Qed.

(** A convex combination lies between the least and the greatest. *)
Lemma convex p q r a b c A x lo hi : 0 <= p -> 0 <= q -> 0 <= r -> p + q + r = A -> 0 < A -> p * a + q * b + r * c = A * x ->
  lo <= a <= hi -> lo <= b <= hi -> lo <= c <= hi -> lo <= x <= hi.
Proof. intros Hp Hq Hr <- HA E Ha Hb Hc. split; nia. Qed.

(** A triangle in a box of [W] by [H] has at most its area. *)
Lemma in_a_box W H u1 v1 u2 v2 u3 v3 : 0 <= u1 <= W -> 0 <= u2 <= W -> 0 <= u3 <= W -> 0 <= v1 <= H -> 0 <= v2 <= H -> 0 <= v3 <= H ->
  Z.abs (u1 * (v2 - v3) + u2 * (v3 - v1) + u3 * (v1 - v2)) <= W * H.
Proof.
  intros H1 H2 H3 K1 K2 K3.
  assert (forall u d, 0 <= u <= W -> W * Z.min 0 d <= u * d <= W * Z.max 0 d) as B.
  { intros u d Hu. destruct (Z.le_gt_cases 0 d).
    - rewrite Z.min_l, Z.max_r by lia. nia.
    - rewrite Z.min_r, Z.max_l by lia. nia. }
  pose proof (B u1 (v2 - v3) H1). pose proof (B u2 (v3 - v1) H2). pose proof (B u3 (v1 - v2) H3).
  assert (Z.max 0 (v2 - v3) + Z.max 0 (v3 - v1) + Z.max 0 (v1 - v2) <= H) as U by lia.
  assert (- H <= Z.min 0 (v2 - v3) + Z.min 0 (v3 - v1) + Z.min 0 (v1 - v2)) as L by lia.
  apply (Z.mul_le_mono_nonneg_l _ _ W) in U; [|lia]. apply (Z.mul_le_mono_nonneg_l _ _ W) in L; [|lia].
  rewrite !Z.mul_add_distr_l in U, L. apply Z.abs_le. lia.
Qed.

(** ** Planes in fixed point *)

(** A plane from its value at a corner and its two slopes, each divided by [A] on its own. *)
Definition fixed (A : Z) (N : Z -> Z -> Z) (mx my x y : Z) : Z :=
  Z.quot (N mx my) A + (x - mx) * Z.quot (N (mx + 1) my - N mx my) A + (y - my) * Z.quot (N mx (my + 1) - N mx my) A.
Definition affine (N : Z -> Z -> Z) : Prop :=
  forall x y i j, N (x + i) (y + j) = N x y + i * (N (x + 1) y - N x y) + j * (N x (y + 1) - N x y).

Lemma quot_near n A : 0 < A -> Z.abs (A * Z.quot n A - n) <= A.
Proof.
  intros HA. pose proof (Z.quot_rem n A ltac:(lia)) as E. pose proof (Z.rem_bound_abs n A ltac:(lia)).
  replace (A * Z.quot n A - n) with (- Z.rem n A) by lia. lia.
Qed.

Lemma quot_bound n A B : 0 < A -> 0 <= B -> Z.abs n <= A * B -> Z.abs (Z.quot n A) <= B.
Proof.
  intros HA HB Hn. destruct (Z.le_gt_cases (Z.abs (Z.quot n A)) B) as [|Hgt]; [done|exfalso].
  pose proof (Z.quot_rem n A ltac:(lia)) as E. pose proof (Z.rem_bound_abs n A ltac:(lia)).
  assert (A * (B + 1) <= A * Z.abs (Z.quot n A)) by (apply Z.mul_le_mono_nonneg_l; lia).
  assert (Z.abs (A * Z.quot n A) = A * Z.abs (Z.quot n A)) by (rewrite Z.abs_mul; lia).
  pose proof (Z.quot_abs n A ltac:(lia)) as Q. rewrite (Z.abs_eq A) in Q by lia.
  pose proof (Z.mul_quot_le (Z.abs n) A ltac:(lia) ltac:(lia)). rewrite Q in *. lia.
Qed.

(** Every division loses less than one unit, and the slope's once per step. *)
Lemma fixed_drift A N mx my x y : affine N -> 0 < A -> mx <= x -> my <= y ->
  Z.abs (A * fixed A N mx my x y - N x y) <= A * (1 + (x - mx) + (y - my)).
Proof.
  intros Haff HA Hx Hy. pose proof (Haff mx my (x - mx) (y - my)) as E.
  replace (mx + (x - mx)) with x in E by lia. replace (my + (y - my)) with y in E by lia.
  unfold fixed. set (i := x - mx) in *. set (j := y - my) in *.
  set (nx := N (mx + 1) my - N mx my) in *. set (ny := N mx (my + 1) - N mx my) in *. set (n0 := N mx my) in *.
  pose proof (quot_near n0 A HA). pose proof (quot_near nx A HA) as Hqx. pose proof (quot_near ny A HA) as Hqy.
  assert (Z.abs (i * (A * Z.quot nx A - nx)) <= i * A) by (rewrite Z.abs_mul, (Z.abs_eq i) by lia; apply Z.mul_le_mono_nonneg_l; lia).
  assert (Z.abs (j * (A * Z.quot ny A - ny)) <= j * A) by (rewrite Z.abs_mul, (Z.abs_eq j) by lia; apply Z.mul_le_mono_nonneg_l; lia).
  rewrite E. replace (A * (Z.quot n0 A + i * Z.quot nx A + j * Z.quot ny A) - (n0 + i * nx + j * ny))
    with ((A * Z.quot n0 A - n0) + i * (A * Z.quot nx A - nx) + j * (A * Z.quot ny A - ny)) by ring. lia.
Qed.

Lemma fixed_bound A N mx my x y B : affine N -> 0 < A -> mx <= x -> my <= y -> 0 <= B -> Z.abs (N x y) <= A * B ->
  Z.abs (fixed A N mx my x y) <= B + (1 + (x - mx) + (y - my)).
Proof.
  intros Haff HA Hx Hy HB Hn. pose proof (fixed_drift A N mx my x y Haff HA Hx Hy) as D.
  set (f := fixed A N mx my x y) in *. set (e := 1 + (x - mx) + (y - my)) in *.
  destruct (Z.le_gt_cases (Z.abs f) (B + e)) as [|Hgt]; [done|exfalso].
  assert (A * (B + e + 1) <= A * Z.abs f) by (apply Z.mul_le_mono_nonneg_l; lia).
  assert (Z.abs (A * f) = A * Z.abs f) by (rewrite Z.abs_mul; lia). lia.
Qed.

Lemma fixed_x A N mx my x y : fixed A N mx my (x + 1) y = fixed A N mx my x y + Z.quot (N (mx + 1) my - N mx my) A.
Proof. unfold fixed. ring. Qed.
Lemma fixed_y A N mx my x y : fixed A N mx my x (y + 1) = fixed A N mx my x y + Z.quot (N mx (my + 1) - N mx my) A.
Proof. unfold fixed. ring. Qed.
Lemma fixed_corner A N mx my : fixed A N mx my mx my = Z.quot (N mx my) A.
Proof. unfold fixed. ring. Qed.

(** ** One triangle *)

Definition inset (v : vertex) : Prop := 0 <= vx v < TEAPOT_BOX /\ 0 <= vy v < TEAPOT_BOX /\ 0 <= vz v < 2 ^ 16.
Definition inset3 (t : tri) : Prop := inset (ta t) /\ inset (tb t) /\ inset (tc t).
(** The sides of the bounding box, in pixels. *)
Definition cols (t : tri) : Z := maxx (bounds t) - minx (bounds t) + 1.
Definition rows (t : tri) : Z := maxy (bounds t) - miny (bounds t) + 1.
(** The depth does not change so fast that its plane leaves 32 bits inside the bounding box. *)
Definition gentle (t : tri) : Prop :=
  (Z.abs (vz (tb t) - vz (ta t)) + Z.abs (vz (tc t) - vz (ta t))) * (cols t * rows t) <= 2 ^ 21 * Z.abs (area2 t).

(** What is carried to the pixel (x, y). *)
Definition znum (t : tri) (x y : Z) : Z := ((vz (tb t) - vz (ta t)) * e1 t x y + (vz (tc t) - vz (ta t)) * e2 t x y) * 256.
Definition rnum (t : tri) (x y : Z) : Z := crange * e0 t x y.
Definition gnum (t : tri) (x y : Z) : Z := crange * e1 t x y.
Definition plane (t : tri) (N : Z -> Z -> Z) : Z -> Z -> Z := fixed (area2 t) N (minx (bounds t)) (miny (bounds t)).
Definition carried (t : tri) (x y : Z) : walk :=
  Walk (e0 t x y) (e1 t x y) (e2 t x y) (vz (ta t) * 256 + plane t (znum t) x y)
       (24 * 256 + plane t (rnum t) x y) (24 * 256 + plane t (gnum t) x y).

Lemma affine_z t : affine (znum t).
Proof. intros x y i j. unfold znum, e1, e2, cross. ring. Qed.
Lemma affine_r t : affine (rnum t).
Proof. intros x y i j. unfold rnum, e0, cross. ring. Qed.
Lemma affine_g t : affine (gnum t).
Proof. intros x y i j. unfold gnum, e1, cross. ring. Qed.

Lemma int_ok x : - 2 ^ 31 <= x < 2 ^ 31 -> int x = Ret x.
Proof. intros H. unfold int. destruct (Z.leb_spec (- 2 ^ 31) x), (Z.ltb_spec x (2 ^ 31)); cbn [andb]; lia || done. Qed.

Lemma sgn_small x : - 2 ^ 31 <= x < 2 ^ 31 -> s32 x = x.
Proof.
  intros H. unfold sgn, wrap. change (32 - 1) with 31. destruct (Z.lt_ge_cases x 0).
  - replace (x mod 2 ^ 32) with (x + 2 ^ 32) by (apply Z.mod_unique_pos with (-1); lia). zcases.
  - rewrite Z.mod_small by lia. zcases.
Qed.

(** One axis of the bounding box. *)
Lemma clamp3 n a b c : 0 <= a < n -> 0 <= b < n -> 0 <= c < n ->
  let lo := Z.max 0 (Z.min c (Z.min a b)) in let hi := Z.min (n - 1) (Z.max c (Z.max a b)) in
  (0 <= lo /\ lo <= hi < n) /\ (lo <= a <= hi /\ lo <= b <= hi /\ lo <= c <= hi).
Proof. cbn zeta. lia. Qed.

Section one.
Context (t : tri) (Hin : inset3 t) (Ha : 4 <= area2 t) (Hg : gentle t).
Abbreviation A := (area2 t).
Abbreviation mx := (minx (bounds t)).
Abbreviation my := (miny (bounds t)).

(** The bounding box is not clipped. *)
Lemma bounds_eq : (0 <= mx /\ mx <= maxx (bounds t) < TEAPOT_BOX) /\ (0 <= my /\ my <= maxy (bounds t) < TEAPOT_BOX) /\
  (mx <= vx (ta t) <= maxx (bounds t) /\ mx <= vx (tb t) <= maxx (bounds t) /\ mx <= vx (tc t) <= maxx (bounds t)) /\
  (my <= vy (ta t) <= maxy (bounds t) /\ my <= vy (tb t) <= maxy (bounds t) /\ my <= vy (tc t) <= maxy (bounds t)).
Proof using Hin.
  clear Ha Hg. destruct t as [a b c]. destruct Hin as ((A1 & A2 & _) & (B1 & B2 & _) & (C1 & C2 & _)). cbn [ta tb tc] in *.
  destruct (clamp3 _ _ _ _ A1 B1 C1) as [H1 H2], (clamp3 _ _ _ _ A2 B2 C2) as [H3 H4].
  exact (conj H1 (conj H3 (conj H2 H4))).
Qed.

(** One column and one row past the bounding box: the last additions of a row and of the triangle. *)
Definition near_box (x y : Z) : Prop := mx <= x <= maxx (bounds t) + 1 /\ my <= y <= maxy (bounds t) + 1.

Lemma edges_bounded x y : near_box x y ->
  Z.abs (e0 t x y) <= cols t * rows t /\ Z.abs (e1 t x y) <= cols t * rows t /\ Z.abs (e2 t x y) <= cols t * rows t.
Proof using Hin.
  clear Ha Hg.
  intros [Hx Hy]. destruct bounds_eq as (_ & _ & (A1 & B1 & C1) & (A2 & B2 & C2)). unfold cols, rows.
  set (W := maxx (bounds t) - mx + 1). set (H := maxy (bounds t) - my + 1).
  assert (forall p q, mx <= vx p <= maxx (bounds t) -> my <= vy p <= maxy (bounds t) -> mx <= vx q <= maxx (bounds t) ->
    my <= vy q <= maxy (bounds t) -> Z.abs (cross p q x y) <= W * H) as K.
  { intros p q P1 P2 Q1 Q2.
    pose proof (in_a_box W H (vx p - mx) (vy p - my) (vx q - mx) (vy q - my) (x - mx) (y - my)
      ltac:(lia) ltac:(lia) ltac:(lia) ltac:(lia) ltac:(lia) ltac:(lia)) as B.
    replace (cross p q x y) with ((vx p - mx) * (vy q - my - (y - my)) + (vx q - mx) * (y - my - (vy p - my)) + (x - mx) * (vy p - my - (vy q - my)))
      by (unfold cross; ring). exact B. }
  split_and!; by apply K.
Qed.

Lemma box_small : 1 <= cols t <= 288 /\ 1 <= rows t <= 288 /\ 1 <= cols t * rows t <= 82944.
Proof using Hin.
  clear Ha Hg. destruct bounds_eq as (H1 & H2 & _). unfold cols, rows, TEAPOT_BOX in *. split; [lia|]. split; [lia|]. nia.
Qed.

(** The numerators near the box. *)
Lemma znum_bounded x y : near_box x y -> Z.abs (znum t x y) <= A * 2 ^ 29.
Proof.
  intros H. destruct (edges_bounded x y H) as (_ & E1 & E2). unfold gentle in Hg. rewrite (Z.abs_eq A) in Hg by lia.
  unfold znum. set (db := vz (tb t) - vz (ta t)) in *. set (dc := vz (tc t) - vz (ta t)) in *. set (B := cols t * rows t) in *.
  assert (Z.abs (db * e1 t x y) <= Z.abs db * B) by (rewrite Z.abs_mul; apply Z.mul_le_mono_nonneg_l; lia).
  assert (Z.abs (dc * e2 t x y) <= Z.abs dc * B) by (rewrite Z.abs_mul; apply Z.mul_le_mono_nonneg_l; lia).
  rewrite Z.mul_add_distr_r in Hg. lia.
Qed.
Lemma colour_bounded e : Z.abs e <= cols t * rows t -> Z.abs (crange * e) <= A * (crange * 20736).
Proof. intros H. pose proof box_small. unfold crange. lia. Qed.

(** A plane whose numerator is bounded near the box stays in 32 bits there, as do its slopes. *)
Lemma plane_fits N B c x y : affine N -> (forall x y, near_box x y -> Z.abs (N x y) <= A * B) -> 0 <= B -> B + 600 + Z.abs c < 2 ^ 31 ->
  near_box x y -> - 2 ^ 31 <= c + plane t N x y < 2 ^ 31.
Proof.
  intros Haff HN HB Hc H. pose proof H as [Hx Hy]. destruct bounds_eq as (H1 & H2 & _).
  pose proof (fixed_bound A N mx my x y B Haff ltac:(lia) ltac:(lia) ltac:(lia) HB (HN x y H)) as K.
  unfold plane, TEAPOT_BOX in *. lia.
Qed.

Lemma slope_fits n B : Z.abs n <= A * B -> 0 <= B < 2 ^ 31 -> s32 (Z.quot n A) = Z.quot n A.
Proof. intros Hn HB. apply sgn_small. pose proof (quot_bound n A B ltac:(lia) ltac:(lia) Hn). lia. Qed.

Lemma near_corner : near_box mx my /\ near_box (mx + 1) my /\ near_box mx (my + 1).
Proof using Hin. clear Ha Hg. pose proof bounds_eq. unfold near_box. lia. Qed.

Lemma edge_slopes x y :
  (Z.abs (e0 t (x + 1) y - e0 t x y) <= 288 /\ Z.abs (e1 t (x + 1) y - e1 t x y) <= 288) /\
  (Z.abs (e0 t x (y + 1) - e0 t x y) <= 288 /\ Z.abs (e1 t x (y + 1) - e1 t x y) <= 288).
Proof using Hin.
  clear Ha Hg.
  pose proof bounds_eq as ([? ?] & [? ?] & (X1 & X2 & X3) & (Y1 & Y2 & Y3)). unfold TEAPOT_BOX in *.
  assert (forall p q, cross p q (x + 1) y - cross p q x y = vy p - vy q /\ cross p q x (y + 1) - cross p q x y = vx q - vx p) as K
    by (intros p q; unfold cross; split; ring).
  unfold e0, e1. destruct (K (tb t) (tc t)) as [-> ->], (K (tc t) (ta t)) as [-> ->]. lia.
Qed.

(** The words of [deltas] are the slopes. *)
Lemma deltas_eq : deltas A t =
  (Walk (e0 t 1 0 - e0 t 0 0) (e1 t 1 0 - e1 t 0 0) (e2 t 1 0 - e2 t 0 0) (Z.quot (znum t (mx + 1) my - znum t mx my) A)
        (Z.quot (rnum t (mx + 1) my - rnum t mx my) A) (Z.quot (gnum t (mx + 1) my - gnum t mx my) A),
   Walk (e0 t 0 1 - e0 t 0 0) (e1 t 0 1 - e1 t 0 0) (e2 t 0 1 - e2 t 0 0) (Z.quot (znum t mx (my + 1) - znum t mx my) A)
        (Z.quot (rnum t mx (my + 1) - rnum t mx my) A) (Z.quot (gnum t mx (my + 1) - gnum t mx my) A)).
Proof.
  destruct near_corner as (N0 & N1 & N2).
  pose proof (znum_bounded _ _ N0). pose proof (znum_bounded _ _ N1). pose proof (znum_bounded _ _ N2).
  destruct (edge_slopes mx my) as ([S1 S2] & S3 & S4).
  assert (forall n n' B, n = n' -> Z.abs n' <= A * B -> 0 <= B < 2 ^ 31 -> s32 (Z.quot n A) = Z.quot n' A) as K.
  { intros n n' B -> Hn HB. by apply (slope_fits _ B). }
  assert (forall u v, Z.abs (u - v) <= 288 -> Z.abs (crange * u - crange * v) <= A * (crange * 72)) as Kc.
  { intros u v Hd. rewrite <-Z.mul_sub_distr_l. unfold crange. lia. }
  transitivity (deltas A (Tri (ta t) (tb t) (tc t))); [by destruct t|]. unfold deltas.
  f_equal; f_equal; try (unfold e0, e1, e2, cross; ring).
  all: lazymatch goal with
    | |- context [znum] => apply (K _ _ (2 ^ 30)); [unfold znum, e1, e2, cross; ring|lia|lia]
    | |- _ => apply (K _ _ (crange * 72)); [unfold rnum, gnum, e0, e1, cross; ring|by apply Kc|unfold crange; lia]
    end.
Qed.

(** What is carried stays in 32 bits. *)
Lemma carried_fits x y : near_box x y -> let k := carried t x y in
  Forall (fun v => - 2 ^ 31 <= v < 2 ^ 31) [w0 k; w1 k; w2 k; zfp k; rfp k; gfp k].
Proof.
  intros H k. pose proof box_small. destruct (edges_bounded x y H) as (B0 & B1 & B2).
  assert (0 <= vz (ta t) < 2 ^ 16) as Hz by apply Hin.
  repeat constructor; subst k; cbn [carried w0 w1 w2 zfp rfp gfp]; try lia.
  all: first [apply (plane_fits _ (2 ^ 29)); [apply affine_z|by apply znum_bounded|lia|lia|done]
    | apply (plane_fits _ (crange * 20736)); [first [apply affine_r|apply affine_g]| |unfold crange; lia|unfold crange; lia|done]].
  all: intros x' y' H'; destruct (edges_bounded x' y' H') as (C0 & C1 & _); by apply colour_bounded.
Qed.

(** A step that lands on the closed form. *)
Lemma step_carried d x y x' y' : near_box x' y' ->
  (forall f, In f [w0; w1; w2; zfp; rfp; gfp] -> f (carried t x y) + f d = f (carried t x' y')) ->
  step d (carried t x y) = Ret (carried t x' y').
Proof.
  intros H He. pose proof (carried_fits x' y' H) as F. cbn zeta in F. rewrite !Forall_cons in F. destruct F as (F0 & F1 & F2 & F3 & F4 & F5 & _).
  unfold step. rewrite (He w0), (He w1), (He w2), (He zfp), (He rfp), (He gfp) by (cbn; tauto).
  rewrite (int_ok _ F0), (int_ok _ F1), (int_ok _ F2), (int_ok _ F3), (int_ok _ F4), (int_ok _ F5). reflexivity.
Qed.

Lemma step_x x y : near_box (x + 1) y -> step (deltas A t).1 (carried t x y) = Ret (carried t (x + 1) y).
Proof.
  intros H. apply step_carried; [done|]. rewrite deltas_eq.
  intros f [<-|[<-|[<-|[<-|[<-|[<-|[]]]]]]]; cbn [fst w0 w1 w2 zfp rfp gfp carried]; unfold plane; rewrite ?fixed_x; unfold e0, e1, e2, cross; ring.
Qed.
Lemma step_y x y : near_box x (y + 1) -> step (deltas A t).2 (carried t x y) = Ret (carried t x (y + 1)).
Proof.
  intros H. apply step_carried; [done|]. rewrite deltas_eq.
  intros f [<-|[<-|[<-|[<-|[<-|[<-|[]]]]]]]; cbn [snd w0 w1 w2 zfp rfp gfp carried]; unfold plane; rewrite ?fixed_y; unfold e0, e1, e2, cross; ring.
Qed.

Lemma det_ok p q r s B : Z.abs (p * q) <= B -> Z.abs (r * s) <= B -> 2 * B < 2 ^ 31 -> det p q r s = Ret (p * q - r * s).
Proof. intros H1 H2 HB. unfold det. rewrite !int_ok by lia. cbn. by rewrite int_ok by lia. Qed.

Lemma corner_ok : corner A t mx my = Ret (carried t mx my).
Proof.
  pose proof (carried_fits mx my (proj1 near_corner)) as F. cbn zeta in F. rewrite !Forall_cons in F. destruct F as (_ & _ & _ & F3 & F4 & F5 & _).
  pose proof (znum_bounded _ _ (proj1 near_corner)) as Hz. destruct (edges_bounded _ _ (proj1 near_corner)) as (B0 & B1 & _).
  apply colour_bounded in B0, B1.
  pose proof bounds_eq as ([? ?] & [? ?] & (X1 & X2 & X3) & (Y1 & Y2 & Y3)). unfold TEAPOT_BOX in *.
  assert (forall u v, 0 <= u < 288 -> 0 <= v < 288 -> Z.abs (u * v) <= 288 * 288) as K by (intros; nia).
  transitivity (corner A (Tri (ta t) (tb t) (tc t)) mx my); [by destruct t|]. unfold corner.
  rewrite !(det_ok _ _ _ _ (288 * 288)) by first [lia | apply K; lia]. cbn [mbind res_bind].
  change ((vx (tb t) - mx) * (vy (tc t) - my) - (vx (tc t) - mx) * (vy (tb t) - my)) with (e0 t mx my).
  change ((vx (tc t) - mx) * (vy (ta t) - my) - (vx (ta t) - mx) * (vy (tc t) - my)) with (e1 t mx my).
  change ((vx (ta t) - mx) * (vy (tb t) - my) - (vx (tb t) - mx) * (vy (ta t) - my)) with (e2 t mx my).
  change (((vz (tb t) - vz (ta t)) * e1 t mx my + (vz (tc t) - vz (ta t)) * e2 t mx my) * 256) with (znum t mx my).
  cbn [carried zfp rfp gfp] in F3, F4, F5. unfold plane in F3, F4, F5. rewrite fixed_corner in F3, F4, F5.
  rewrite (slope_fits (znum t mx my) (2 ^ 29)), (slope_fits (crange * e0 t mx my) (crange * 20736)), (slope_fits (crange * e1 t mx my) (crange * 20736))
    by first [done | unfold crange; lia].
  change (crange * e0 t mx my) with (rnum t mx my). change (crange * e1 t mx my) with (gnum t mx my).
  rewrite (int_ok _ F3), (int_ok _ F4), (int_ok _ F5). cbn. unfold carried, plane. by rewrite !fixed_corner.
Qed.
End one.

(** ** What a triangle puts on the canvas *)

(** The three bytes of a pixel as a colour number. *)
Definition colour (k : walk) : Z :=
  let r := u8 (rfp k .>> 8) in let g := u8 (gfp k .>> 8) in r * 65536 + g * 256 + u8 (303 - r - g).
(** A covered pixel's depth and colour. *)
Definition frag (k : walk) : option (Z * Z) :=
  if 0 <=? (w0 k .| w1 k .| w2 k) then Some (u32 (zfp k) .>> 8, colour k) else None.

Definition oriented (t : tri) : tri := if area2 t <? 0 then Tri (ta t) (tc t) (tb t) else t.
Definition shade (t : tri) (x y : Z) : option (Z * Z) :=
  if Z.abs (area2 t) <? 4 then None else frag (carried (oriented t) x y).

Definition nearer (old : Z * Z) (new : option (Z * Z)) : Z * Z :=
  match new with Some n => if n.1 <? old.1 then n else old | None => old end.

(** A canvas as a picture of the box: each pixel's depth and colour. *)
Definition pic : Type := Z -> Z -> Z * Z.
Definition boxed (x y : Z) : Prop := 0 <= x < TEAPOT_BOX /\ 0 <= y < TEAPOT_BOX.

Lemma byte_small k c : 0 <= k < 3 -> byte k c = c / 2 ^ (8 * k) mod 256.
Proof. intros Hk. unfold byte, wrap. rewrite Z.shiftr_div_pow2 by lia. done. Qed.

Lemma rgb_bytes r g b : 0 <= r < 256 -> 0 <= g < 256 -> 0 <= b < 256 ->
  let c := r * 65536 + g * 256 + b in byte 2 c = r /\ byte 1 c = g /\ byte 0 c = b.
Proof.
  intros Hr Hg Hb c. rewrite !byte_small by lia. change (2 ^ (8 * 2)) with 65536. change (2 ^ (8 * 1)) with 256. change (2 ^ (8 * 0)) with 1.
  unfold c. split; [|split].
  - replace (_ / 65536) with r by (apply Z.div_unique with (g * 256 + b); lia). by apply Z.mod_small.
  - replace (_ / 256) with (r * 256 + g) by (apply Z.div_unique with b; lia). symmetry. apply Z.mod_unique with r; lia.
  - rewrite Z.div_1_r. symmetry. apply Z.mod_unique with (r * 256 + g); lia.
Qed.

Lemma colour_bytes k : byte 2 (colour k) = u8 (rfp k .>> 8) /\ byte 1 (colour k) = u8 (gfp k .>> 8) /\
  byte 0 (colour k) = u8 (303 - u8 (rfp k .>> 8) - u8 (gfp k .>> 8)).
Proof. apply rgb_bytes; apply (wrap_fits 8); lia. Qed.

(** ** Either winding *)

(** The corners of the triangle are in the box, and if it is filled its depth is gentle. *)
Definition tame (t : tri) : Prop := inset3 t /\ (4 <= Z.abs (area2 t) -> gentle t).

Lemma bounds_swap a b c : bounds (Tri a c b) = bounds (Tri a b c).
Proof. unfold bounds. f_equal; lia. Qed.

Lemma area_swap t : area2 (Tri (ta t) (tc t) (tb t)) = - area2 t.
Proof. unfold area2. cbn [ta tb tc]. ring. Qed.

Lemma area_oriented t : area2 (oriented t) = Z.abs (area2 t).
Proof. unfold oriented. destruct (Z.ltb_spec (area2 t) 0); [rewrite area_swap|]; lia. Qed.

Lemma oriented_tame t : tame t -> inset3 (oriented t) /\ (4 <= Z.abs (area2 t) -> gentle (oriented t)).
Proof.
  intros [Hin Hg]. unfold oriented. destruct (area2 t <? 0); [|done]. destruct Hin as (? & ? & ?). split; [by split_and!|].
  intros Ha. specialize (Hg Ha). unfold gentle, cols, rows in *. rewrite area_swap, Z.abs_opp. cbn [ta tb tc].
  rewrite bounds_swap. destruct t as [a b c]. cbn [ta tb tc] in *. by rewrite (Z.add_comm (Z.abs (vz c - vz a))).
Qed.

Lemma winding_ok t : inset3 t -> winding t = Ret (Z.abs (area2 t), oriented t).
Proof.
  intros Hin. unfold winding. destruct t as [a b c] eqn:Et. destruct Hin as ((A1 & A2 & _) & (B1 & B2 & _) & (C1 & C2 & _)).
  cbn [ta tb tc] in *. unfold TEAPOT_BOX in *.
  assert (forall u v, -288 <= u <= 288 -> -288 <= v <= 288 -> Z.abs (u * v) <= 288 * 288) as K by (intros; nia).
  rewrite (det_ok _ _ _ _ (288 * 288)) by first [lia | apply K; lia]. cbn [mbind res_bind].
  change ((vx b - vx a) * (vy c - vy a) - (vx c - vx a) * (vy b - vy a)) with (area2 (Tri a b c)). unfold oriented. cbn [ta tb tc].
  destruct (Z.ltb_spec (area2 (Tri a b c)) 0); [rewrite Z.abs_neq|rewrite Z.abs_eq]; lia || done.
Qed.

(** A covered pixel is in the bounding box. *)
Lemma covered_in_bounds t x y : inset3 t -> 4 <= area2 t -> frag (carried t x y) <> None ->
  minx (bounds t) <= x <= maxx (bounds t) /\ miny (bounds t) <= y <= maxy (bounds t).
Proof.
  intros Hin Ha. unfold frag. destruct (Z.leb_spec 0 (w0 (carried t x y) .| w1 (carried t x y) .| w2 (carried t x y))) as [Hc|]; [|done].
  intros _. cbn [carried w0 w1 w2] in Hc. apply Z.lor_nonneg in Hc as [[H0 H1]%Z.lor_nonneg H2].
  destruct (bounds_eq t Hin) as (_ & _ & (A1 & B1 & C1) & (A2 & B2 & C2)). pose proof (edges_sum t x y) as E.
  split; [eapply (convex _ _ _ _ _ _ _ _ _ _ H0 H1 H2 E); [lia|apply edges_x|done..]|].
  eapply (convex _ _ _ _ _ _ _ _ _ _ H0 H1 H2 E); [lia|apply edges_y|done..].
Qed.

(** What holds before a loop and is kept by every round, which returns, holds after it. *)
Lemma each_seqZ {S} (body : S -> Z -> res S) (P : Z -> S -> Prop) s a n : 0 <= n -> P a s ->
  (forall k s, a <= k < a + n -> P k s -> exists s', body s k = Ret s' /\ P (k + 1) s') ->
  exists s', each (seqZ a n) body s = Ret s' /\ P (a + n) s'.
Proof.
  intros Hn. revert a s. pattern n. apply natlike_ind; [|clear n Hn; intros n Hn IH|done].
  - intros a s H _. exists s. by rewrite Z.add_0_r.
  - intros a s H Hs. rewrite seqZ_cons by lia. rewrite Z.pred_succ. destruct (Hs a s ltac:(lia) H) as (s1 & E & H1). cbn [each].
    rewrite E. cbn. destruct (IH (Z.succ a) s1 H1) as (s2 & E2 & H2).
    + intros k s' Hk. apply Hs. lia.
    + exists s2. split; [done|]. by replace (a + Z.succ n) with (Z.succ a + n) by lia.
Qed.

Section canvas.
Context (fb : soctfb) (Hf : frame_ok fb) (x0 y0 : Z) (Hx0 : 0 <= x0) (Hx1 : x0 + TEAPOT_BOX <= width fb)
  (Hy0 : 0 <= y0) (Hy1 : y0 + TEAPOT_BOX <= height fb) (m0 : memory).

Abbreviation bx x y := (px fb (x0 + x) (y0 + y)).

Record holds (f : pic) (s : canvas) : Prop := {
  h_depth : forall x y, boxed x y -> s.1 (y * TEAPOT_BOX + x) = (f x y).1 /\ 0 <= (f x y).1 < 2 ^ 16;
  h_pixel : forall x y k, boxed x y -> 0 <= k < 3 -> s.2 (bx x y + k) = byte k (f x y).2;
  h_rest : forall p, (forall x y k, boxed x y -> 0 <= k < 3 -> p <> bx x y + k) -> s.2 p = m0 p }.

Lemma pic_ext f g s : (forall x y, boxed x y -> f x y = g x y) -> holds f s -> holds g s.
Proof. intros E [H1 H2 H3]. split; [intros; rewrite <-E by done; auto..|done]. Qed.

(** [f] with what [new] has at the pixels of [P]. *)
Definition put_on (f new : pic) (P : Z -> Z -> bool) : pic := fun x y => if P x y then new x y else f x y.

Lemma depth_inj x y x' y' : boxed x y -> boxed x' y' -> y * TEAPOT_BOX + x = y' * TEAPOT_BOX + x' -> x = x' /\ y = y'.
Proof. unfold boxed, TEAPOT_BOX. lia. Qed.

Lemma box_inj x y k x' y' k' : boxed x y -> boxed x' y' -> 0 <= k < 3 -> 0 <= k' < 3 ->
  bx x y + k = bx x' y' + k' -> x = x' /\ y = y' /\ k = k'.
Proof.
  intros [Bx By] [Bx' By'] Hk Hk' E. apply px_inj in E; [lia|lia..].
Qed.

(** One pixel. *)
Lemma plot_ok x y k f s : boxed x y -> holds f s ->
  holds (put_on f (fun x y => nearer (f x y) (frag k)) (fun i j => (i =? x) && (j =? y))) (plot (y * TEAPOT_BOX + x) (bx x y) k s).
Proof.
  intros B H. pose proof H as [H1 H2 H3]. destruct (H1 x y B) as [Ed [Hd0 Hd1]].
  unfold plot, frag. destruct (0 <=? _) eqn:Ec; [|eapply pic_ext; [|exact H]; intros i j _; unfold put_on; by destruct (_ && _)].
  set (zq := u32 (zfp k) .>> 8). rewrite Ed. destruct (Z.ltb_spec zq (f x y).1) as [Hz|Hz].
  2:{ eapply pic_ext; [|exact H]. intros i j _. unfold put_on, nearer. cbn [fst].
      destruct (Z.eqb_spec i x) as [->|]; [destruct (Z.eqb_spec j y) as [->|]|]; cbn [andb]; [|done..].
      by rewrite (proj2 (Z.ltb_ge _ _) Hz). }
  assert (0 <= zq) as Hq by (apply Z.shiftr_nonneg, wrap_range; lia).
  destruct (colour_bytes k) as (C2 & C1 & C0). match goal with |- holds _ ?c => set (s' := c) end.
  assert (forall i j n, boxed i j -> 0 <= n < 3 -> i <> x \/ j <> y -> s'.2 (bx i j + n) = byte n (f i j).2) as Hkeep.
  { intros i j n Bi Hn Hne. rewrite <-(H2 i j n Bi Hn). unfold s', store8, FB_BYTE_B, FB_BYTE_G, FB_BYTE_R. cbn [snd].
    assert (forall n', 0 <= n' < 3 -> bx i j + n <> bx x y + n') as Hd by (intros n' Hn' (? & ? & _)%box_inj; lia || done).
    pose proof (Hd 0 ltac:(lia)). pose proof (Hd 1 ltac:(lia)). pose proof (Hd 2 ltac:(lia)). zcases. }
  split.
  - intros i j Bi. unfold s', set_depth, put_on. cbn [fst]. destruct (Z.eqb_spec (j * TEAPOT_BOX + i) (y * TEAPOT_BOX + x)) as [E|E].
    + destruct (depth_inj _ _ _ _ Bi B E) as [-> ->]. rewrite !Z.eqb_refl. cbn [andb nearer fst].
      rewrite (proj2 (Z.ltb_lt _ _) Hz). cbn [fst]. rewrite wrap_small by (unfold fits; lia). lia.
    + destruct (Z.eqb_spec i x) as [->|]; [destruct (Z.eqb_spec j y) as [->|]|]; cbn [andb]; [done|by apply H1..].
  - intros i j n Bi Hn. unfold put_on.
    destruct (Z.eqb_spec i x) as [->|Hi]; [destruct (Z.eqb_spec j y) as [->|Hj]|]; cbn [andb].
    + unfold s', store8, FB_BYTE_B, FB_BYTE_G, FB_BYTE_R. cbn [nearer fst]. rewrite (proj2 (Z.ltb_lt _ _) Hz). cbn [snd].
      assert (n = 0 \/ n = 1 \/ n = 2) as [->|[->| ->]] by lia; cbn [snd]; zcases; rewrite ?wrap_wrap; congruence.
    + apply Hkeep; [done..|lia].
    + apply Hkeep; [done..|lia].
  - intros p Hp. unfold s', store8, FB_BYTE_B, FB_BYTE_G, FB_BYTE_R. cbn [snd].
    pose proof (Hp x y 0 B ltac:(lia)). pose proof (Hp x y 1 B ltac:(lia)). pose proof (Hp x y 2 B ltac:(lia)). zcases. by apply H3.
Qed.

Definition with_tri (t : tri) (f : pic) (P : Z -> Z -> bool) : pic := put_on f (fun x y => nearer (f x y) (frag (carried t x y))) P.

Section filling.
Context (t : tri) (Hin : inset3 t) (Ha : 4 <= area2 t) (Hg : gentle t).
Abbreviation A := (area2 t).
Abbreviation mx := (minx (bounds t)).
Abbreviation my := (miny (bounds t)).
Abbreviation with_t := (with_tri t).

Lemma in_bounds x y : mx <= x <= maxx (bounds t) -> my <= y <= maxy (bounds t) -> boxed x y /\ near_box t x y /\ near_box t (x + 1) y /\ near_box t x (y + 1).
Proof. intros Hx Hy. pose proof (bounds_eq t Hin). unfold boxed, near_box. lia. Qed.

(** A row of the bounding box. *)
Lemma fill_row_ok y f s : my <= y <= maxy (bounds t) -> holds f s ->
  exists s', fill_row (deltas A t).1 (y * TEAPOT_BOX + mx) (bx mx y) (cols t) (carried t mx y) s = Ret s' /\
    holds (with_t f (fun i j => (mx <=? i) && (i <=? maxx (bounds t)) && (j =? y))) s'.
Proof.
  intros Hy H. pose proof (box_small t Hin) as [Hc _].
  destruct (each_seqZ (fun '(k, i, p, s) (_ : Z) => let s := plot i p k s in k ← step (deltas A t).1 k; Ret (k, i + 1, u64 (p + 3), s))
    (fun n '(k, i, p, s') => k = carried t (mx + n) y /\ i = y * TEAPOT_BOX + (mx + n) /\ p = bx (mx + n) y /\
       holds (with_t f (fun i j => (mx <=? i) && (i <? mx + n) && (j =? y))) s')
    (carried t mx y, y * TEAPOT_BOX + mx, bx mx y, s) 0 (cols t)) as ([[[k i] p] s'] & E & _ & _ & _ & H'); [lia| | |].
  - rewrite Z.add_0_r. split_and!; [done..|]. eapply pic_ext; [|exact H]. intros i j _. unfold with_tri, put_on.
    destruct (Z.leb_spec mx i), (Z.ltb_spec i mx); cbn [andb]; lia || done.
  - intros n [[[k i] p] s1] Hn (-> & -> & -> & H1).
    destruct (in_bounds (mx + n) y) as (B & _ & N1 & _); [unfold cols in *; lia|lia|].
    rewrite (step_x t Hin Ha Hg (mx + n) y N1). cbn [mbind res_bind].
    eexists. split; [reflexivity|]. rewrite (Z.add_assoc mx n 1). split_and!; [done|lia| |].
    + destruct Hf as (_ & _ & HB & He). pose proof (px_bounds fb (x0 + (mx + n)) (y0 + y) ltac:(unfold boxed in B; lia) ltac:(unfold boxed in B; lia)) as Hb.
      unfold px in *. rewrite wrap_small by (unfold fits; lia). lia.
    + eapply pic_ext; [|apply (plot_ok (mx + n) y (carried t (mx + n) y) _ _ B H1)]. intros i j _. unfold with_tri, put_on.
      destruct (Z.eqb_spec i (mx + n)) as [->|]; [destruct (Z.eqb_spec j y) as [->|]|]; zcases; done.
  - exists s'. split; [exact (f_equal (fun r => r ≫= (fun r => Ret r.2)) E)|]. eapply pic_ext; [|exact H']. intros i' j _. unfold with_tri, put_on, cols.
    zcases; done.
Qed.

Lemma at_px_eq x y : boxed x y -> at_px (pixels fb) (width fb) x0 y0 x y = bx x y.
Proof.
  intros B. unfold boxed in B. pose proof Hf as ([? ?] & [? ?] & _). rewrite <-(px_at_eq fb Hf) by lia. unfold at_px, px_at.
  by rewrite (wrap_small 32 (x0 + x)), (wrap_small 64 (y0 + y)) by (unfold fits; lia).
Qed.

(** A whole triangle: its fragments at the pixels of its bounding box. *)
Lemma fill_ok f s : holds f s ->
  exists s', fill (pixels fb) (width fb) x0 y0 A t s = Ret s' /\
    holds (with_t f (fun i j => (mx <=? i) && (i <=? maxx (bounds t)) && ((my <=? j) && (j <=? maxy (bounds t))))) s'.
Proof.
  intros H. destruct (bounds_eq t Hin) as ([X0 X1] & [Y0 Y1] & (X2 & _) & (Y2 & _)). pose proof (box_small t Hin) as (Hc & Hr & _).
  unfold fill. destruct (Z.gtb_spec mx (maxx (bounds t))); [lia|]. destruct (Z.gtb_spec my (maxy (bounds t))); [lia|]. cbn [orb].
  pose proof (step_y t Hin Ha Hg) as Hsy. pose proof fill_row_ok as Hrow. destruct (deltas A t) as [dx dy]. cbn [fst snd] in *.
  rewrite (corner_ok t Hin Ha Hg). cbn [mbind res_bind].
  destruct (each_seqZ (fun '(k, s) y => s ← fill_row dx (y * TEAPOT_BOX + mx) (at_px (pixels fb) (width fb) x0 y0 mx y) (maxx (bounds t) - mx + 1) k s;
        k ← step dy k; Ret (k, s))
    (fun y '(k, s') => k = carried t mx y /\ holds (with_t f (fun i j => (mx <=? i) && (i <=? maxx (bounds t)) && ((my <=? j) && (j <? y)))) s')
    (carried t mx my, s) my (rows t)) as ([k s'] & E & _ & H'); [lia| | |].
  - split; [done|]. eapply pic_ext; [|exact H]. intros i j _. unfold with_tri, put_on.
    destruct (Z.leb_spec my j), (Z.ltb_spec j my); cbn [andb]; rewrite ?andb_false_r; lia || done.
  - intros y [k s1] Hy (-> & Hs1). destruct (in_bounds mx y) as (B & _ & _ & N1); [lia|unfold rows in *; lia|].
    rewrite (at_px_eq _ _ B). destruct (Hrow y _ _ ltac:(unfold rows in *; lia) Hs1) as (s2 & E & Hs2). unfold cols in E. rewrite E. cbn [mbind res_bind].
    rewrite (Hsy mx y N1). cbn [mbind res_bind]. eexists. split; [reflexivity|]. split; [done|].
    eapply pic_ext; [|exact Hs2]. intros i j _. unfold with_tri, put_on.
    destruct (Z.eqb_spec j y) as [->|]; zcases; done.
  - exists s'. split; [exact (f_equal (fun r => r ≫= (fun r => Ret r.2)) E)|]. eapply pic_ext; [|exact H']. intros i j _. unfold with_tri, put_on, rows.
    zcases; done.
Qed.
End filling.

(** A face, however it is wound. *)
Lemma draw_face_ok t f s : tame t -> holds f s ->
  exists s', draw_face (pixels fb) (width fb) x0 y0 s t = Ret s' /\ holds (fun x y => nearer (f x y) (shade t x y)) s'.
Proof.
  intros Ht H. destruct (oriented_tame t Ht) as [Hin Hg]. unfold draw_face. rewrite winding_ok by apply Ht. cbn [mbind res_bind].
  unfold shade. destruct (Z.ltb_spec (Z.abs (area2 t)) 4) as [|Ha]; [by exists s|]. specialize (Hg Ha).
  pose proof (area_oriented t) as E. rewrite <-E in Ha |- *.
  destruct (fill_ok (oriented t) Hin Ha Hg f s H) as (s' & Es & H'). exists s'. split; [done|].
  eapply pic_ext; [|exact H']. intros x y _. unfold with_tri, put_on.
  pose proof (covered_in_bounds (oriented t) x y Hin Ha) as Hb. destruct (frag _); [|by destruct (_ && _)].
  destruct Hb as [? ?]; [done|]. zcases; done.
Qed.

(** The picture of a list of faces. *)
Definition nearest (ts : list tri) (x y : Z) : Z * Z := foldl nearer (0xFFFF, 0) (map (fun t => shade t x y) ts).

Lemma faces_ok vs fs ts : Forall2 (fun f t => face_of vs f = Ret t) fs ts -> Forall tame ts -> forall f s, holds f s ->
  exists s', each fs (fun s f => t ← face_of vs f; draw_face (pixels fb) (width fb) x0 y0 s t) s = Ret s' /\
    holds (fun x y => foldl nearer (f x y) (map (fun t => shade t x y) ts)) s'.
Proof.
  induction 1 as [|f0 t fs ts Ef _ IH]; intros Hts f s H; [by exists s|]. apply Forall_cons in Hts as [Ht Hts].
  cbn [each]. rewrite Ef. destruct (draw_face_ok t f s Ht H) as (s1 & E1 & H1). cbn [mbind res_bind].
  unfold mbind, res_bind. unfold draw_face in *. rewrite E1. exact (IH Hts _ _ H1).
Qed.

Lemma clear_ok m : m = m0 -> holds (fun _ _ => (0xFFFF, 0)) ((fun _ => 0xFFFF), clear_box (pixels fb) (width fb) x0 y0 m).
Proof.
  intros ->. unfold clear_box.
  pose (P := fun n (m : memory) => (forall x y k, boxed x y -> y < n -> 0 <= k < 3 -> m (bx x y + k) = 0) /\
    (forall p, (forall x y k, boxed x y -> 0 <= k < 3 -> p <> bx x y + k) -> m p = m0 p)).
  enough (P TEAPOT_BOX (loop TEAPOT_BOX (fun m y => memset (at_px (pixels fb) (width fb) x0 y0 0 y) 0 (TEAPOT_BOX * 3) m) m0)) as [H1 H2].
  { split; cbn [fst snd]; [intros; lia| |done]. intros x y k B Hk. rewrite H1 by (done || apply B). unfold byte. by rewrite Z.shiftr_0_l. }
  apply loop_ind; [done| |].
  - split; [|done]. intros x y k [_ B] Hn. lia.
  - intros n m Hn [H1 H2]. assert (boxed 0 n) as B by (unfold boxed, TEAPOT_BOX in *; lia). rewrite (at_px_eq _ _ B). unfold memset. split.
    + intros x y k Bx Hy Hk. destruct (Z.eq_dec y n) as [->|]; [|zcases; apply H1; (done || lia)].
      unfold boxed, TEAPOT_BOX, px in *. zcases.
    + intros p Hp. destruct (Z.leb_spec (bx 0 n) p); cbn [andb]; [|by apply H2]. destruct (Z.ltb_spec p (bx 0 n + TEAPOT_BOX * 3)); [|by apply H2].
      exfalso. apply (Hp ((p - bx 0 n) / 3) n ((p - bx 0 n) mod 3)).
      * unfold boxed, TEAPOT_BOX in *. split; [|lia]. split; [apply Z.div_pos|apply Z.div_lt_upper_bound]; lia.
      * apply Z.mod_pos_bound. lia.
      * pose proof (Z.div_mod (p - bx 0 n) 3). unfold px in *. lia.
Qed.
End canvas.

(** ** The frame *)

(** [c] is the colour of the nearest of the faces that cover the pixel, of the first if several are
    as near; black if none is nearer than the far plane. *)
Definition seen (ts : list tri) (x y c : Z) : Prop :=
  (exists i t z, ts !! i = Some t /\ shade t x y = Some (z, c) /\ z < 0xFFFF /\
     forall j t' z' c', ts !! j = Some t' -> shade t' x y = Some (z', c') -> z <= z' /\ ((j < i)%nat -> z < z')) \/
  (c = 0 /\ forall j t z c', ts !! j = Some t -> shade t x y = Some (z, c') -> 0xFFFF <= z).

Lemma nearest_snoc ts t x y : nearest (ts ++ [t]) x y = nearer (nearest ts x y) (shade t x y).
Proof. unfold nearest. by rewrite map_app, foldl_app. Qed.

Lemma lookup_snoc_cases {A} (l : list A) a j b : (l ++ [a]) !! j = Some b -> l !! j = Some b \/ j = length l /\ b = a.
Proof.
  intros [H|[Hl [? ->]%list_lookup_singleton_Some]]%lookup_app_Some; [by left|right]. split; [lia|done].
Qed.

Lemma nearest_seen ts x y : seen ts x y (nearest ts x y).2.
Proof.
  enough ((nearest ts x y).1 <= 0xFFFF /\ (forall j t z c, ts !! j = Some t -> shade t x y = Some (z, c) -> (nearest ts x y).1 <= z) /\
    (nearest ts x y = (0xFFFF, 0) \/ exists i t, ts !! i = Some t /\ shade t x y = Some (nearest ts x y) /\ (nearest ts x y).1 < 0xFFFF /\
       forall j t' z' c', ts !! j = Some t' -> shade t' x y = Some (z', c') -> (j < i)%nat -> (nearest ts x y).1 < z')) as (_ & Hle & [E|(i & t & Hi & Hs & Hz & Hf)]).
  - right. rewrite E in *. split; [done|]. intros j t z c Hj Hs. exact (Hle j t z c Hj Hs).
  - left. exists i, t, (nearest ts x y).1. rewrite <-surjective_pairing. split_and!; [done..|]. intros j t' z' c' Hj Hs'. split; [by eapply Hle|by eapply Hf].
  - induction ts as [|t ts IH] using rev_ind; [by split_and!; [..|left]|]. destruct IH as (H1 & H2 & H3). rewrite nearest_snoc.
    unfold nearer. destruct (shade t x y) as [[z c]|] eqn:Es; [destruct (Z.ltb_spec z (nearest ts x y).1) as [Hz|Hz]|]; cbn [fst].
    + rewrite (proj2 (Z.ltb_lt _ _) Hz). cbn [fst]. split; [lia|]. split.
      * intros j t' z' c' [Hj|[_ ->]]%lookup_snoc_cases Hs; [specialize (H2 _ _ _ _ Hj Hs); lia|rewrite Es in Hs; injection Hs as <- <-; lia].
      * right. exists (length ts), t. split_and!; [by apply list_lookup_middle|done|cbn; lia|].
        intros j t' z' c' [Hj|[-> _]]%lookup_snoc_cases Hs Hlt; [specialize (H2 _ _ _ _ Hj Hs); cbn; lia|lia].
    + rewrite (proj2 (Z.ltb_ge _ _) Hz). split; [done|]. split.
      * intros j t' z' c' [Hj|[_ ->]]%lookup_snoc_cases Hs; [by eapply H2|rewrite Es in Hs; injection Hs as <- <-; lia].
      * destruct H3 as [H3|(i & t0 & Hi & Hs0 & Hlt & Hf)]; [by left|right]. exists i, t0. split_and!; [by apply lookup_app_l_Some|done..|].
        intros j t' z' c' [Hj|[-> _]]%lookup_snoc_cases Hs Hji; [by eapply Hf|]. apply lookup_lt_Some in Hi. lia.
    + split; [done|]. split.
      * intros j t' z' c' [Hj|[_ ->]]%lookup_snoc_cases Hs; [by eapply H2|congruence].
      * destruct H3 as [H3|(i & t0 & Hi & Hs0 & Hlt & Hf)]; [by left|right]. exists i, t0. split_and!; [by apply lookup_app_l_Some|done..|].
        intros j t' z' c' [Hj|[_ ->]]%lookup_snoc_cases Hs Hji; [by eapply Hf|congruence].
Qed.

(** The frame drawn into, and the teapot's picture in its middle. *)
Definition draw_frame (v : video) : soctfb := Soctfb (fb_width v) (fb_height v) (fb_draw v).
Definition teapot_picture (v : video) (ts : list tri) : painting :=
  let '(x, y, w, h) := teapot_bounds v in fun i j => if in_box x y w h i j then Some (nearest ts (i - x) (j - y)).2 else None.

Definition fits_screen (v : video) : Prop := TEAPOT_BOX <= fb_width v < 2 ^ 31 /\ TEAPOT_BOX <= fb_height v < 2 ^ 31.

Lemma centre w : TEAPOT_BOX <= w < 2 ^ 31 -> let x := w / 2 - TEAPOT_BOX / 2 in
  Z.quot (s32 w) 2 - TEAPOT_BOX / 2 = x /\ u32 x = x /\ 0 <= x /\ x + TEAPOT_BOX <= w.
Proof.
  unfold TEAPOT_BOX. intros H. change (288 / 2) with 144. rewrite sgn_small, Z.quot_div_nonneg by lia. pose proof (Z.div_mod w 2). pose proof (Z.mod_pos_bound w 2).
  cbn zeta. split; [done|]. split; [apply wrap_small; unfold fits; lia|lia].
Qed.

Lemma render_paints cosf sinf verts faces angle v vs ts : frame_ok (draw_frame v) -> fits_screen v ->
  project_all cosf sinf angle verts = Ret vs -> Forall2 (fun f t => face_of vs f = Ret t) faces ts -> Forall tame ts ->
  exists m, teapot_render cosf sinf verts faces angle v = Ret (set_cpu m v) /\ paints (draw_frame v) (cpu v) m (teapot_picture v ts).
Proof.
  intros Hf [Hw Hh] Hp Hfs Hts. destruct (centre _ Hw) as (Ex & Ux & X0 & X1), (centre _ Hh) as (Ey & Uy & Y0 & Y1).
  unfold teapot_render. rewrite Hp. cbn [mbind res_bind]. rewrite Ex, Ey. unfold teapot_picture, teapot_bounds. rewrite Ux, Uy.
  set (x0 := fb_width v / 2 - TEAPOT_BOX / 2) in *. set (y0 := fb_height v / 2 - TEAPOT_BOX / 2) in *.
  pose proof (clear_ok (draw_frame v) Hf x0 y0 X0 X1 Y0 Y1 (cpu v) (cpu v) eq_refl) as H0.
  destruct (faces_ok (draw_frame v) Hf x0 y0 X0 X1 Y0 Y1 (cpu v) vs faces ts Hfs Hts _ _ H0) as (s & E & [_ H2 H3]).
  cbn [draw_frame pixels width height] in E. exists s.2. split; [exact (f_equal (fun r => r ≫= (fun s => Ret (set_cpu s.2 v))) E)|].
  split.
  - intros i j k Hi Hj Hk. cbn beta. unfold in_box. case_bool_decide as Hb.
    + pose proof (H2 (i - x0) (j - y0) k ltac:(unfold boxed; lia) Hk) as E2. by rewrite !Zplus_minus in E2.
    + apply H3. intros x y k' B Hk' Epx. apply px_inj in Epx; [unfold boxed in B; lia|cbn in *; unfold boxed in B; lia..].
  - intros p Hp'. apply H3. intros x y k B Hk ->. unfold boxed in B.
    pose proof (px_bounds (draw_frame v) (x0 + x) (y0 + y) ltac:(cbn; lia) ltac:(cbn; lia)). lia.
Qed.

(** C17. The stepped rasterizer draws the scene.  For every mesh, angle and library cosine whose
    projected faces lie in the box with a gentle depth: the frame's arithmetic stays in its types,
    and afterwards every pixel of the box in the middle of the screen has the colour of the nearest
    face that covers it - the closed form of its edges and planes there - or is black, and no other
    byte of memory has changed. *)
Theorem teapot_pixels cosf sinf verts faces angle v vs ts : frame_ok (draw_frame v) -> fits_screen v ->
  project_all cosf sinf angle verts = Ret vs -> Forall2 (fun f t => face_of vs f = Ret t) faces ts -> Forall tame ts ->
  exists m, teapot_render cosf sinf verts faces angle v = Ret (set_cpu m v) /\ paints (draw_frame v) (cpu v) m (teapot_picture v ts) /\
    forall x y, seen ts x y (nearest ts x y).2.
Proof.
  intros Hf Hs Hp Hfs Hts. destruct (render_paints cosf sinf verts faces angle v vs ts Hf Hs Hp Hfs Hts) as (m & E & Hm).
  exists m. split_and!; [done..|]. intros x y. apply nearest_seen.
Qed.

(** ** How exact the shading is *)

(** In the closed triangle: the edge functions do not differ in sign. *)
Definition covers (t : tri) (x y : Z) : Prop :=
  (0 <= e0 t x y /\ 0 <= e1 t x y /\ 0 <= e2 t x y) \/ (e0 t x y <= 0 /\ e1 t x y <= 0 /\ e2 t x y <= 0).

Lemma edges_swap t x y : e0 (Tri (ta t) (tc t) (tb t)) x y = - e0 t x y /\ e1 (Tri (ta t) (tc t) (tb t)) x y = - e2 t x y /\
  e2 (Tri (ta t) (tc t) (tb t)) x y = - e1 t x y.
Proof. unfold e0, e1, e2, cross. cbn [ta tb tc]. split_and!; ring. Qed.

Lemma covers_oriented t x y : 4 <= Z.abs (area2 t) ->
  covers t x y <-> 0 <= e0 (oriented t) x y /\ 0 <= e1 (oriented t) x y /\ 0 <= e2 (oriented t) x y.
Proof.
  intros Ha. pose proof (edges_sum t x y). unfold covers, oriented. destruct (Z.ltb_spec (area2 t) 0); [|lia].
  destruct (edges_swap t x y) as (-> & -> & ->). lia.
Qed.

Lemma shade_covers t x y : 4 <= Z.abs (area2 t) -> shade t x y <> None <-> covers t x y.
Proof.
  intros Ha. rewrite covers_oriented by done. unfold shade, frag. destruct (Z.ltb_spec (Z.abs (area2 t)) 4); [lia|]. cbn [carried w0 w1 w2].
  pose proof (Z.lor_nonneg (e0 (oriented t) x y .| e1 (oriented t) x y) (e2 (oriented t) x y)) as L2.
  pose proof (Z.lor_nonneg (e0 (oriented t) x y) (e1 (oriented t) x y)) as L1.
  destruct (Z.leb_spec 0 (e0 (oriented t) x y .| e1 (oriented t) x y .| e2 (oriented t) x y)); [split; [tauto|done]|].
  split; [done|]. intros (? & ? & ?). assert (~ 0 <= e0 (oriented t) x y .| e1 (oriented t) x y .| e2 (oriented t) x y) by lia. tauto.
Qed.

Lemma oriented_box t : bounds (oriented t) = bounds t /\ (1 <= vz (ta t) -> 1 <= vz (tb t) -> 1 <= vz (tc t) ->
  1 <= vz (ta (oriented t)) /\ 1 <= vz (tb (oriented t)) /\ 1 <= vz (tc (oriented t))).
Proof. unfold oriented. destruct (_ <? 0); [split; [rewrite bounds_swap; by destruct t|done]|done]. Qed.

(** A fixed-point value [f] near [N], with eight bits cut off. *)
Lemma cut_near A f N d : 0 < A -> Z.abs (A * f - N) <= A * d -> d <= 253 -> Z.abs (256 * (A * (f .>> 8)) - N) <= 512 * A.
Proof.
  intros HA Hd H. rewrite Z.shiftr_div_pow2 by done. change (2 ^ 8) with 256. pose proof (Z.div_mod f 256). pose proof (Z.mod_pos_bound f 256).
  set (q := f / 256) in *. set (r := f mod 256) in *. assert (A * f = 256 * (A * q) + A * r) by nia. nia.
Qed.

Lemma cut_below f M d : f <= 256 * M + d -> d <= 253 -> f .>> 8 <= M.
Proof.
  intros H Hd. rewrite Z.shiftr_div_pow2 by done. change (2 ^ 8) with 256. apply Z.lt_succ_r, Z.div_lt_upper_bound; lia.
Qed.

Lemma high_byte f : 0 <= f < 2 ^ 16 -> u8 (f .>> 8) = f .>> 8 /\ 0 <= f .>> 8 < 256.
Proof.
  intros Hf. rewrite Z.shiftr_div_pow2 by done. change (2 ^ 8) with 256. pose proof (Z.div_mod f 256). pose proof (Z.mod_pos_bound f 256).
  split; [apply wrap_small; unfold fits; lia|lia].
Qed.

(** The farthest corner. *)
Definition farthest (t : tri) : Z := Z.max (vz (ta t)) (Z.max (vz (tb t)) (vz (tc t))).
Lemma farthest_oriented t : inset3 t -> (vz (ta (oriented t)) <= farthest t /\ vz (tb (oriented t)) <= farthest t /\ vz (tc (oriented t)) <= farthest t) /\
  farthest t < 2 ^ 16.
Proof.
  intros ((_ & _ & A3) & (_ & _ & B3) & (_ & _ & C3)). unfold farthest, oriented. destruct (_ <? 0); cbn [ta tb tc]; lia.
Qed.

(** A weighted mean of values between bounds. *)
Lemma weighted p q r a b c A lo hi : 0 <= p -> 0 <= q -> 0 <= r -> p + q + r = A -> lo <= a <= hi -> lo <= b <= hi -> lo <= c <= hi ->
  A * lo <= p * a + q * b + r * c <= A * hi.
Proof.
  intros Hp Hq Hr <- [] [] []. rewrite !Z.mul_add_distr_r.
  split; repeat apply Z.add_le_mono; by apply Z.mul_le_mono_nonneg_l.
Qed.

(** Between bounds that [A] scales. *)
Lemma between A f N d lo hi : 0 < A -> Z.abs (A * f - N) <= A * d -> A * lo <= N <= A * hi -> lo - d <= f <= hi + d.
Proof. intros HA Hd [Hl Hh]. split; nia. Qed.

(** What a covered pixel gets, against the exact planes. *)
Lemma shade_accurate t x y : tame t -> 4 <= Z.abs (area2 t) ->
  (shade t x y <> None <-> covers t x y) /\
  (covers t x y -> cols t + rows t <= 254 -> 1 <= vz (ta t) -> 1 <= vz (tb t) -> 1 <= vz (tc t) ->
   let o := oriented t in let A := Z.abs (area2 t) in
   exists z r g, shade t x y = Some (z, r * 65536 + g * 256 + u8 (303 - r - g)) /\
     Z.abs (A * z - (e0 o x y * vz (ta o) + e1 o x y * vz (tb o) + e2 o x y * vz (tc o))) <= 2 * A /\
     Z.abs (A * r - (A * 24 + 231 * e0 o x y)) <= 2 * A /\ Z.abs (A * g - (A * 24 + 231 * e1 o x y)) <= 2 * A /\
     z <= farthest t /\ 0 <= r < 256 /\ 0 <= g < 256).
Proof.
  intros Ht Ha. split; [by apply shade_covers|]. intros Hc Hs Za Zb Zc o A. destruct (oriented_tame t Ht) as [Hin _].
  pose proof (proj2 (shade_covers t x y Ha) Hc) as Hsh. apply covers_oriented in Hc as (C0 & C1 & C2); [|done].
  destruct (oriented_box t) as [Eb Hz]. destruct (Hz Za Zb Zc) as (Za' & Zb' & Zc'). pose proof (area_oriented t : area2 o = A) as EA.
  change (4 <= A) in Ha. change (inset3 o) in Hin. change (bounds o = bounds t) in Eb.
  change (1 <= vz (ta o)) in Za'. change (1 <= vz (tb o)) in Zb'. change (1 <= vz (tc o)) in Zc'.
  change (0 <= e0 o x y) in C0. change (0 <= e1 o x y) in C1. change (0 <= e2 o x y) in C2.
  assert (frag (carried o x y) <> None) as Hfr by (unfold shade in Hsh; destruct (_ <? 4) in Hsh; done).
  destruct (covered_in_bounds o x y Hin ltac:(lia) Hfr) as [Bx By]. pose proof (edges_sum o x y) as Es.
  unfold cols, rows in Hs. rewrite <-Eb in Hs. rewrite EA in Es.
  pose (d := 1 + (x - minx (bounds o)) + (y - miny (bounds o))). assert (d <= 253) as Hd by (unfold d; lia).
  assert (forall N, affine N -> Z.abs (A * plane o N x y - N x y) <= A * d) as Hn.
  { intros N Haff. unfold plane. rewrite EA. apply fixed_drift; [done|lia..]. }
  pose proof (Hn _ (affine_z o)) as Dz. pose proof (Hn _ (affine_r o)) as Dr. pose proof (Hn _ (affine_g o)) as Dg.
  set (k := carried o x y) in *. destruct Hin as ((_ & _ & A3) & (_ & _ & B3) & (_ & _ & C3)).
  assert (Z.abs (A * zfp k - 256 * (e0 o x y * vz (ta o) + e1 o x y * vz (tb o) + e2 o x y * vz (tc o))) <= A * d) as Kz.
  { etransitivity; [|exact Dz]. apply Z.eq_le_incl. f_equal. assert (e0 o x y = A - e1 o x y - e2 o x y) as -> by lia.
    change (zfp k) with (vz (ta o) * 256 + plane o (znum o) x y). unfold znum at 3. ring. }
  assert (Z.abs (A * rfp k - 256 * (A * 24 + 231 * e0 o x y)) <= A * d) as Kr.
  { etransitivity; [|exact Dr]. apply Z.eq_le_incl. f_equal. change (rfp k) with (24 * 256 + plane o (rnum o) x y). unfold rnum at 3, crange. ring. }
  assert (Z.abs (A * gfp k - 256 * (A * 24 + 231 * e1 o x y)) <= A * d) as Kg.
  { etransitivity; [|exact Dg]. apply Z.eq_le_incl. f_equal. change (gfp k) with (24 * 256 + plane o (gnum o) x y). unfold gnum at 3, crange. ring. }
  assert (0 < A) as HA by lia. pose (M := farthest t).
  destruct (farthest_oriented t (proj1 Ht)) as [(M1 & M2 & M3) M4]. change (vz (ta o) <= M) in M1. change (vz (tb o) <= M) in M2.
  change (vz (tc o) <= M) in M3. change (M < 2 ^ 16) in M4.
  pose proof (weighted _ _ _ (vz (ta o)) (vz (tb o)) (vz (tc o)) A 1 M C0 C1 C2 Es ltac:(lia) ltac:(lia) ltac:(lia)) as Bw.
  pose proof (between A (zfp k) _ d 256 (256 * M) HA Kz ltac:(lia)) as Bz.
  pose proof (between A (rfp k) _ d (256 * 24) (256 * 255) HA Kr ltac:(lia)) as Br.
  pose proof (between A (gfp k) _ d (256 * 24) (256 * 255) HA Kg ltac:(lia)) as Bg.
  destruct (high_byte (rfp k)) as [Er Hr]; [clear - Br Hd; lia|]. destruct (high_byte (gfp k)) as [Eg Hg]; [clear - Bg Hd; lia|].
  exists (zfp k .>> 8), (rfp k .>> 8), (gfp k .>> 8).
  pose proof (cut_near A (zfp k) _ d HA Kz Hd) as H. pose proof (cut_near A (rfp k) _ d HA Kr Hd) as H0. pose proof (cut_near A (gfp k) _ d HA Kg Hd) as H1.
  pose proof (cut_below (zfp k) M d (proj2 Bz) Hd) as Hm.
  split; [|clear - Hr Hg Hm HA H H0 H1; split_and!; [lia..|exact Hm|lia|lia|lia|lia]].
  assert (u32 (zfp k) = zfp k) as E32 by (clear - Bz M4 Hd; apply wrap_small; unfold fits; lia).
  unfold shade. rewrite (proj2 (Z.ltb_ge (Z.abs (area2 t)) 4) Ha). change (oriented t) with o. fold k. unfold frag in *. destruct (0 <=? _); [|done].
  unfold colour. by rewrite Er, Eg, E32.
Qed.

Section drawn.
Context (fb : soctfb) (Hf : frame_ok fb) (x0 y0 : Z) (Hx0 : 0 <= x0) (Hx1 : x0 + TEAPOT_BOX <= width fb)
  (Hy0 : 0 <= y0) (Hy1 : y0 + TEAPOT_BOX <= height fb) (m : memory).

End drawn.

(** ** Examples *)

(** A face of the shipped mesh, seen from the front: its blue corner should be (24, 24, 255).  Green loses
    one unit to the divisions, blue becomes 303 - 24 - 23 = 256, and the byte is 0. *)
Definition front_face : tri := Tri (Vertex 156 137 45585) (Vertex 157 138 45536) (Vertex 153 139 46476).
Lemma blue_corner_wraps : exists z, shade front_face 153 139 = Some (z, 24 * 65536 + 23 * 256 + 0).
Proof. by exists 46475. Qed.

(** The guard on the area does not keep the depth in range: a sliver of twice the area 4 in the box whose
    corners are near and far overflows an [int]. *)
Definition sliver : tri := Tri (Vertex 0 0 0) (Vertex 286 287 65535) (Vertex 282 283 0).
Lemma sliver_overflows : inset3 sliver /\ area2 sliver = 4 /\ draw_face 0 640 0 0 (fun _ => 0xFFFF, fun _ => 0) sliver = Undef.
Proof. split; [|split; by vm_compute]. unfold inset3, inset, TEAPOT_BOX. cbn. lia. Qed.

Definition tv : video := Video 640 480 0x80000000 (0x80000000, 0x80200000) 0 true (fun _ => 7) (fun _ => 7).
Definition unit_cos (f : float) : float := of_int 1.
Definition unit_sin (f : float) : float := of_int 0.
Definition wmesh : list (Z * Z * Z) := [(-8000, -8000, 0); (8000, -8000, 0); (0, 8000, 4000); (2000, 8000, -4000)].
Definition wfaces : list (Z * Z * Z) := [(0, 1, 2); (3, 1, 0)].
Definition wvertices : list vertex := [Vertex 104 183 32767; Vertex 183 183 32767; Vertex 144 108 40040; Vertex 154 100 25494].
Definition wtris : list tri :=
  [Tri (Vertex 104 183 32767) (Vertex 183 183 32767) (Vertex 144 108 40040); Tri (Vertex 154 100 25494) (Vertex 183 183 32767) (Vertex 104 183 32767)].

Lemma wmesh_projected : project_all unit_cos unit_sin (of_int 0) wmesh = Ret wvertices.
Proof. vm_compute. reflexivity. Qed.
Lemma wmesh_tame : Forall tame wtris.
Proof.
  unfold wtris, tame, inset3, inset, gentle, TEAPOT_BOX. repeat constructor; cbn [ta tb tc vx vy vz]; try lia; vm_compute; discriminate.
Qed.
Lemma tv_ok : frame_ok (draw_frame tv) /\ fits_screen tv.
Proof. unfold frame_ok, fits_screen, fits, draw_frame, TEAPOT_BOX. cbn. lia. Qed.

Lemma teapot_pixels_witness :
  exists m, teapot_render unit_cos unit_sin wmesh wfaces (of_int 0) tv = Ret (set_cpu m tv) /\
    paints (draw_frame tv) (fun _ => 7) m (teapot_picture tv wtris).
Proof.
  destruct (teapot_pixels unit_cos unit_sin wmesh wfaces (of_int 0) tv wvertices wtris (proj1 tv_ok) (proj2 tv_ok) wmesh_projected
    ltac:(repeat constructor) wmesh_tame) as (m & E & H & _).
  exact (ex_intro _ m (conj E H)).
Defined.

Lemma front_tame : tame front_face /\ covers front_face 153 139.
Proof.
  split; [unfold tame, inset3, inset, gentle, TEAPOT_BOX; repeat constructor; cbn [ta tb tc vx vy vz front_face]; try lia; vm_compute; discriminate|].
  vm_compute. first [left; split_and!; discriminate | right; split_and!; discriminate].
Qed.
