(* ===== verification/DpTest.v ===== *)
(** * The display test (baremetal/dp-test/main.c and diag.c)

    [main] over the library of SoctFb and SoctInit and the renderer of Teapot: bring-up with the
    pattern on both frames, the checks, the experiment, and the animation, in the default build (live
    rendering, two frames, the experiment on, no idle probe).  What depends on time is an argument: how often a
    loop samples before its deadline, when a flip falls due, how long a frame took.  The vendored
    DisplayPort driver is its answers; its re-starts are part of the result.  [None] is abort();
    reports leave no trace. *)
From Stdlib Require Import String SpecFloat.
From S2P Require Import Prelude Mmio Dtb DtbTree DtbQuery DtbCompat DpMode SoctFb SoctFbProofs SoctInit Teapot.
#[local] Open Scope list_scope.
#[local] Abbreviation length := List.length.

Definition VIDSTAT_LOCKED : Z := 1.
Definition VIDSTAT_UNDERFLOW : Z := 2.
Definition XDPPSU_SOFT_RESET : Z := 0x1C.
Definition XDPPSU_ENABLE_MAIN_STREAM : Z := 0x84.
Definition XDPPSU_PHY_STATUS : Z := 0x280.
Definition XDPPSU_INTR_STATUS : Z := 0x3A0.

(** The handles main hands around. *)
Record handles := Handles { h_win : window; h_vdma : Z; h_vtc : Z; h_vidstat : Z }.

(** The program's own restarts of the vendored driver. *)
Inductive restart := Restream | Retrain.

(** [s_frames] and the counters of [anim_tick]. *)
Record health := Health { s_frames : Z; s_lockdrops : Z; s_underflows : Z; s_dead_reports : Z }.
Definition health0 : health := Health 0 0 0 0.

(** What the world adds to one frame: the microseconds it took, and for a report the microseconds
    since the last one, the sink's answers (DPCD 0x205, or a failed read) and the samples of the lock. *)
Record pace := Pace { p_us : Z; p_report_us : Z; p_sink : option Z; p_sink2 : option Z; p_samples : nat; p_monitor : nat -> bool }.

(** And to the experiment. *)
Record ramps := Ramps { r_stress : bool; r_pressure : list nat; r_flips : list (Z * list bool); r_sink : option Z }.

(** ** Rotation *)

(** The float nearest 6.2831853. *)
Definition full_turn : float := S754_finite false 13176795 (-21).
Definition next_angle (angle : float) (us : Z) : float :=
  let angle := fadd angle (fmul (flit 7 10000000) (of_int us)) in
  if SFltb full_turn angle then fsub angle full_turn else angle.

Section program.
Context {D : Type} {HD : Mmio D} (k : dp_answers) (hpd : nat) (h : handles).
Abbreviation drv := (prog (bus D * video)).

(** ** Instrumentation *)

Fixpoint watch_lock (n : nat) (prev edges low : Z) : drv (Z * Z) :=
  match n with
  | O => mret (edges, low)
  | S n => v ← rd (h_vidstat h);
      let v := v .& VIDSTAT_LOCKED in
      watch_lock n v (if negb (prev =? 0) && (v =? 0) then edges + 1 else edges) (if v =? 0 then low + 1 else low)
  end.
Definition probe_lock (n : nat) : drv (Z * Z) := v ← rd (h_vidstat h); watch_lock n (v .& VIDSTAT_LOCKED) 0 0.

(** [-1] when the read over the AUX channel fails. *)
Definition dp_sink_status (aux : option Z) : drv (option Z) :=
  match aux with
  | None => mret (Some (-1))
  | Some st3 =>
      need (Xil_In32 (h_win h) (PS_DP_BASEADDR + XDPPSU_ENABLE_MAIN_STREAM)) (fun _ =>
      need (Xil_In32 (h_win h) (PS_DP_BASEADDR + XDPPSU_INTR_STATUS)) (fun _ => mret (Some (st3 .& 1))))
  end.

(** The driver's registers that dp.c writes itself. *)
Definition dp_start_stream : drv (option unit) :=
  need (Xil_Out32 (h_win h) (PS_DP_BASEADDR + XDPPSU_SOFT_RESET) 1) (fun _ =>
  Xil_Out32 (h_win h) (PS_DP_BASEADDR + XDPPSU_SOFT_RESET) 0).

Fixpoint count_frames (n : nat) (frames : Z) : drv Z :=
  match n with O => mret frames | S n => f ← vdma_take_frame_done (h_vdma h); count_frames n (frames + f) end.
Fixpoint sample_status (n : nat) : drv (list Z) :=
  match n with O => mret [] | S n => f ← rd (h_vidstat h); l ← sample_status n; mret (f :: l) end.

(** What it reports: the three status words after 100 ms, the interrupt events, the frames of a second. *)
Definition verify_pipeline : drv (option (Z * Z * Z * Z * Z)) :=
  flags ← rd (h_vidstat h);
  vtc_clear_status (h_vtc h);; vdma_clear_frame_done (h_vdma h);;
  isr ← vtc_status (h_vtc h); sr ← vdma_status (h_vdma h);
  vblank ← vtc_saw_vblank (h_vtc h);
  need (Xil_Out32 (h_win h) (PS_DP_BASEADDR + XDPPSU_INTR_STATUS) 0xFFFFFFFF) (fun _ =>
  need (Xil_In32 (h_win h) (PS_DP_BASEADDR + XDPPSU_INTR_STATUS)) (fun intr =>
  need (Xil_In32 (h_win h) (PS_DP_BASEADDR + XDPPSU_ENABLE_MAIN_STREAM)) (fun _ =>
  frames ← count_frames 100 0;
  _ ← sample_status 20;
  mret (Some (flags, isr, sr, intr, frames))))).

(** ** The experiment *)

(** A flip that may abort. *)
Definition flip : drv (option unit) := ok ← fb_flip (h_vdma h); guard ok.

Fixpoint press (n : nat) : drv unit :=
  match n with O => mret tt | S n => rd (h_vidstat h);; vdma_take_frame_done (h_vdma h);; press n end.
Definition probe_pressure (n : nat) : drv unit :=
  rd (h_vidstat h);; vdma_clear_frame_done (h_vdma h);; press n.

Fixpoint flips_due (null_only : bool) (fps : Z) (due : list bool) : drv (option unit) :=
  match due with
  | [] => mret (Some tt)
  | d :: due =>
      need (if negb (fps =? 0) && d then
              (if null_only then v ← get; vdma_park (h_vdma h) (fb_front v);; mret (Some tt) else flip)
            else mret (Some tt)) (fun _ =>
      rd (h_vidstat h);; flips_due null_only fps due)
  end.
Definition probe_flips (null_only : bool) (r : Z * list bool) : drv (option unit) := rd (h_vidstat h);; flips_due null_only r.1 r.2.

Fixpoint each_ramp {A} (l : list A) (f : A -> drv (option unit)) : drv (option unit) :=
  match l with [] => mret (Some tt) | a :: l => need (f a) (fun _ => each_ramp l f) end.

(** The pressure phase touches only the program's own buffer. *)
Definition run_experiment (r : ramps) : drv (option unit) :=
  need (guard (r_stress r)) (fun _ =>
  need (each_ramp (r_pressure r) (fun n => probe_pressure n;; mret (Some tt))) (fun _ =>
  need (each_ramp (r_flips r) (probe_flips false)) (fun _ =>
  need (each_ramp (r_flips r) (probe_flips true)) (fun _ =>
  need (dp_sink_status (r_sink r)) (fun _ => mret (Some tt)))))).

(** ** The animation *)

Definition anim_tick (x : pace) (a : health) : drv (option (health * list restart)) :=
  flags ← rd (h_vidstat h);
  let drops := if tst flags VIDSTAT_LOCKED then s_lockdrops a else u64 (s_lockdrops a + 1) in
  let under := if tst flags VIDSTAT_UNDERFLOW then u64 (s_underflows a + 1) else s_underflows a in
  let frames := u64 (s_frames a + 1) in
  if negb (frames mod 256 =? 0) then mret (Some (Health frames drops under (s_dead_reports a), [])) else
  if p_report_us x =? 0 then undef else
  need (dp_sink_status (p_sink x)) (fun rx =>
  probe_lock (p_samples x);;
  let dead := if rx =? 1 then 0 else s_dead_reports a + 1 in
  let a := Health frames 0 0 dead in
  if dead =? 2 then
    need dp_start_stream (fun _ => need (dp_sink_status (p_sink2 x)) (fun _ => mret (Some (a, [Restream]))))
  else if dead =? 4 then
    up ← lift (dp_start_link hpd (DpAnswers (live_ok k) (output_ok k) (tx_ok k) (p_monitor x) (caps_ok k) (main_ok k) (train_ok k)));
    need (guard up) (fun _ => need dp_start_stream (fun _ => need (dp_sink_status (p_sink2 x)) (fun _ => mret (Some (a, [Retrain])))))
  else mret (Some (a, []))).

(** With two frames: the hidden one first, then the other. *)
Definition anim_blank_and_baseline (n : nat) (aux : option Z) : drv (option unit) :=
  put (fun v => fb_flush_draw (fb_clear (fb_draw_into (fb_store v (fb_front v .^ 1)) v)));;
  need flip (fun _ =>
  put (fun v => fb_flush_draw (fb_clear v));;
  probe_lock n;;
  need (dp_sink_status aux) (fun _ => mret (Some tt))).

Section scene.
Context (cosf sinf : float -> float) (verts faces : list (Z * Z * Z)).

(** One frame, up to the flip. *)
Definition render_frame (angle : float) : drv unit :=
  v ← get;
  v ← lift (teapot_render cosf sinf verts faces angle v);
  put (fun _ => let '(x, y, w, h) := teapot_bounds v in fb_flush_rect x y w h v).

(** [for (;;)], for as many frames as [l] has. *)
Fixpoint anim_loop (l : list pace) (angle : float) (a : health) : drv (option (health * list restart)) :=
  match l with
  | [] => mret (Some (a, []))
  | x :: l =>
      render_frame angle;;
      need flip (fun _ =>
      need (anim_tick x a) (fun '(a, r) =>
      need (anim_loop l (next_angle angle (p_us x)) a) (fun '(a, rs) => mret (Some (a, r ++ rs)))))
  end.

Definition anim_live (n : nat) (aux : option Z) (l : list pace) : drv (option (health * list restart)) :=
  need (anim_blank_and_baseline n aux) (fun _ => anim_loop l (of_int 0) health0).
End scene.
End program.

(** ** Bring-up *)

Section main.
Context {D : Type} {HD : Mmio D} (blob : list Z) (st : dtb_state) (k : dp_answers).
Abbreviation drv := (prog (bus D * video)).

Definition teapot_init (ok : bool) : drv (option unit) := guard ok.

(** Both frames with the pattern, visible. *)
Definition patterned (v : video) : video :=
  let v := pattern_draw v in
  let v := set_cpu (memcpy (fb_store v 1) (fb_store v 0) (fb_size v) (cpu v)) v in
  fb_flush (fb_store v 1) (fb_size v) (fb_flush (fb_store v 0) (fb_size v) v).

(** [main] up to the running stream. *)
Definition dp_start (fuel hpd : nat) (bufs : option Z * option Z) (tea : bool) : drv (option handles) :=
  need (open_ps_window blob st) (fun win =>
  need (look (dt_require_compatible blob st (lit "xlnx,axi-vdma-1.00.a"))) (fun vdma_node =>
  need (look (dt_require_reg blob st vdma_node)) (fun '(vdma_base, _) =>
  need (look (fb_coherence_init blob st vdma_node)) (fun incoherent =>
  set_incoherent incoherent;;
  need (look (dt_require_compatible blob st (lit "xlnx,v-tc-6.2"))) (fun vtc_node =>
  need (look (dt_require_reg blob st vtc_node)) (fun '(vtc_base, _) =>
  need (look (dt_require_compatible blob st (lit "soct,video-status"))) (fun vidstat_node =>
  need (look (dt_require_reg blob st vidstat_node)) (fun '(vidstat_base, _) =>
  need (look (dtb_find blob st (lit "/soc/cbus_clock"))) (fun cbus =>
  need (look (dt_require_u32 blob st cbus (lit "clock-frequency"))) (fun hz =>
  need (mret (SoctXil_SetCpuFreqHz hz)) (fun _ =>
  need (look (dt_require_u32 blob st vtc_node (lit "soct,hactive"))) (fun w =>
  need (look (dt_require_u32 blob st vtc_node (lit "soct,vactive"))) (fun ht =>
  need (look (dt_require_u32 blob st vtc_node (lit "soct,fps"))) (fun fps =>
  need (mret (find_mode (u32 w) (u32 ht) (u32 fps))) (fun t =>
  v ← get;
  need (mret (fb_init bufs (u32 w) (u32 ht) v)) (fun v =>
  put (fun _ => v);;
  need (teapot_init tea) (fun _ =>
  put patterned;;
  v ← get;
  ok ← vdma_start fuel vdma_base (fb_store v 0) (fb_store v 1);
  need (guard ok) (fun _ =>
  vtc_start vtc_base t;;
  need (guard (dp_avbuf_select_live_video k)) (fun _ =>
  up ← lift (dp_start_link hpd k);
  need (guard up) (fun _ =>
  let h := Handles win vdma_base vtc_base vidstat_base in
  need (dp_start_stream h) (fun _ => mret (Some h)))))))))))))))))))))).

(** The rest of [main]. *)
Definition dp_run (hpd : nat) (h : handles) (cosf sinf : float -> float) (verts faces : list (Z * Z * Z)) (aux : option Z) (n : nat)
    (r : ramps) (l : list pace) : drv (option (health * list restart)) :=
  need (verify_pipeline h) (fun _ =>
  need (dp_sink_status h aux) (fun _ =>
  probe_lock h n;;
  need (run_experiment h r) (fun _ => anim_live k hpd h cosf sinf verts faces n aux l))).
End main.
