(* ===== verification/DpTestProofs.v ===== *)
(** * The display test: proofs

    [dp_test_animates] follows the program from the device tree to the n-th frame on the screen.
    The animation's invariant is [ready]: the scanned frame is black with the teapot in its box, and
    the other is black and written back outside the box, so that clearing, drawing and
    flushing the box alone is enough. *)
From Stdlib Require Import String SpecFloat.
From S2P Require Import Prelude Mmio Dtb DtbTree DtbQuery DtbCompat DpMode SoctFb SoctFbProofs SoctInit Teapot TeapotProofs DpTest.
#[local] Open Scope list_scope.
#[local] Abbreviation length := List.length.

(** ** Frames *)

Lemma byte_0 k : byte k 0 = 0.
Proof. unfold byte. by rewrite Z.shiftr_0_l. Qed.

(** The other frame is clean too. *)
Definition steady (v : video) : Prop := double_buffered v /\ clean (fb_frame v (fb_front v .^ 1)) v.

(** The same stores on the same screen. *)
Definition same_screen (v v' : video) : Prop := fb_width v' = fb_width v /\ fb_height v' = fb_height v.

Lemma exchange_frame v i : fb_frame (exchange v) i = fb_frame v i.
Proof. done. Qed.
Lemma exchange_front v : fb_front (exchange v) = fb_front v .^ 1.
Proof. done. Qed.
Lemma front_back v : fb_frame v ((fb_front v .^ 1) .^ 1) = fb_frame v (fb_front v).
Proof. unfold fb_frame. by rewrite store_back. Qed.

Lemma exchange_steady v : steady v -> steady (exchange v).
Proof.
  intros [Hdb Hc]. split; [by apply (exchange_ok v)|].
  rewrite exchange_front, exchange_frame, front_back. apply Hdb.
Qed.

(** What is on the screen: [f] on black. *)
Definition shown (v : video) (f : painting) : Prop := forall i j k, 0 <= i < fb_width v -> 0 <= j < fb_height v -> 0 <= k < 3 ->
  scanned v (px (fb_frame v (fb_front v)) i j + k) = byte k (default 0 (f i j)).

Lemma scanned_front v p : double_buffered v -> bytes_of (fb_frame v (fb_front v)) p -> scanned v p = cpu v p.
Proof. intros Hdb Hp. unfold scanned. destruct (s_incoherent v) eqn:E; [|done]. by apply (db_clean v Hdb). Qed.

Definition in_teapot (v : video) (i j : Z) : bool := let '(x, y, w, h) := teapot_bounds v in in_box x y w h i j.

Record ready (v : video) (ts : list tri) : Prop := {
  r_db : double_buffered v;
  r_fits : fits_screen v;
  r_draw : fb_draw v = fb_store v (fb_front v .^ 1);
  r_front : forall i j k, 0 <= i < fb_width v -> 0 <= j < fb_height v -> 0 <= k < 3 ->
    cpu v (px (fb_frame v (fb_front v)) i j + k) = byte k (default 0 (teapot_picture v ts i j));
  r_back : forall i j k, 0 <= i < fb_width v -> 0 <= j < fb_height v -> 0 <= k < 3 -> in_teapot v i j = false ->
    let p := px (fb_frame v (fb_front v .^ 1)) i j + k in cpu v p = 0 /\ (s_incoherent v = true -> dram v p = cpu v p) }.

Lemma ready_shown v ts : ready v ts -> shown v (teapot_picture v ts).
Proof.
  intros H i j k Hi Hj Hk. rewrite scanned_front; [by apply (r_front v ts H)|apply H|]. by apply px_in.
Qed.

(** Every byte of a frame belongs to a pixel. *)
Lemma byte_of_px fb p : 0 < width fb -> bytes_of fb p -> exists i j k, 0 <= i < width fb /\ 0 <= j < height fb /\ 0 <= k < 3 /\ p = px fb i j + k.
Proof.
  intros Hw Hp. unfold bytes_of in Hp. set (q := p - pixels fb) in *.
  exists ((q / 3) mod width fb), (q / 3 / width fb), (q mod 3).
  pose proof (Z.div_mod q 3). pose proof (Z.mod_pos_bound q 3). pose proof (Z.div_mod (q / 3) (width fb)).
  pose proof (Z.mod_pos_bound (q / 3) (width fb)). unfold px.
  split; [lia|]. split; [|split; [lia|lia]]. split; [apply Z.div_pos; lia|]. apply Z.div_lt_upper_bound; [lia|]. nia.
Qed.

(** A box of the drawn frame, flushed if the fetch needs it. *)
Lemma rect_flushed fb x y w h v : frame_ok fb -> pixels fb + 3 * (width fb * height fb) + 63 < 2 ^ 64 ->
  fb_width v = width fb -> fb_draw v = pixels fb -> 0 <= x -> 0 <= y -> 0 < w -> 0 <= h -> x + w <= width fb -> y + h <= height fb ->
  flushed v (fb_flush_rect x y w h v) (fun p => s_incoherent v = true /\ exists i j k, in_box x y w h i j = true /\ 0 <= k < 3 /\ p = px fb i j + k).
Proof.
  intros Hf He Hw Hd Hx Hy Hw0 Hh HxW HyH. destruct (s_incoherent v) eqn:E.
  - eapply flushed_weaken; [|by apply (rows_flushed fb)]. intros p (_ & i & j & k & Hb%bool_decide_eq_true & Hk & ->).
    exists i, j, k. split_and!; lia || done.
  - unfold fb_flush_rect. rewrite E. cbn [negb]. eapply flushed_weaken; [|apply flushed_refl]. by intros p [? _].
Qed.

Lemma fits_box v : fits_screen v -> exists x y, teapot_bounds v = (x, y, TEAPOT_BOX, TEAPOT_BOX) /\
  0 <= x /\ x + TEAPOT_BOX <= fb_width v /\ 0 <= y /\ y + TEAPOT_BOX <= fb_height v.
Proof.
  intros [Hw Hh]. destruct (centre _ Hw) as (_ & Ux & X0 & X1), (centre _ Hh) as (_ & Uy & Y0 & Y1).
  unfold teapot_bounds. rewrite Ux, Uy. eexists _, _. split; [reflexivity|]. done.
Qed.

(** Drawing on the hidden frame and flushing any part of memory leaves the screen alone. *)
Lemma hidden_ok v m v2 P : double_buffered v -> (forall p, ~ bytes_of (fb_frame v (fb_front v .^ 1)) p -> m p = cpu v p) ->
  flushed (set_cpu m v) v2 P ->
  (forall p, bytes_of (fb_frame v (fb_front v)) p -> scanned v2 p = scanned v p) /\ clean (fb_frame v (fb_front v)) v2 /\
  (forall i, fb_frame v2 i = fb_frame v i) /\ s_front v2 = s_front v /\ fb_draw v2 = fb_draw v /\ s_incoherent v2 = s_incoherent v /\
  cpu v2 = m /\ same_screen v v2.
Proof.
  intros Hdb Hm ((E1 & E2 & E3 & E4 & E5 & E6 & E7) & _ & Fany). pose proof Hdb as [_ Ha Hc].
  change (s_incoherent v2 = s_incoherent v) in E6. change (cpu v2 = m) in E7. cbn [cpu dram set_cpu] in Fany.
  assert (forall p, bytes_of (fb_frame v (fb_front v)) p -> m p = cpu v p) as Hkeep.
  { intros p Hp. apply Hm. intros Hp'. by apply (Ha p). }
  split_and!; try done.
  - intros p Hp. unfold scanned. rewrite E6, E7. destruct (s_incoherent v) eqn:Ei; [|by apply Hkeep].
    destruct (Fany p) as [->| ->]; [done|]. rewrite Hkeep by done. symmetry. by apply Hc.
  - intros Hi p Hp. rewrite E7. destruct (Fany p) as [->| ->]; [|done]. rewrite Hkeep by done. apply Hc; [congruence|done].
  - intros i. unfold fb_frame, fb_store. by rewrite E1, E2, E4.
Qed.

Lemma picture_same v v' ts : same_screen v v' -> teapot_picture v' ts = teapot_picture v ts /\ in_teapot v' = in_teapot v.
Proof. intros [E1 E2]. unfold teapot_picture, in_teapot, teapot_bounds. by rewrite E1, E2. Qed.

Lemma picture_outside v ts i j : in_teapot v i j = false -> teapot_picture v ts i j = None.
Proof. unfold in_teapot, teapot_picture. destruct (teapot_bounds v) as [[[x y] w] h]. by intros ->. Qed.

(** One frame of the animation: what is drawn in the box of the hidden frame and flushed there is the
    whole of what the flip will show, and until then the screen stays as it was. *)
Lemma frame_ok_step v ts ts' m : ready v ts -> paints (draw_frame v) (cpu v) m (teapot_picture v ts') ->
  let v1 := set_cpu m v in
  let v2 := let '(x, y, w, h) := teapot_bounds v1 in fb_flush_rect x y w h v1 in
  (forall p, bytes_of (fb_frame v (fb_front v)) p -> scanned v2 p = scanned v p) /\ same_screen v v2 /\ fb_front v2 = fb_front v /\
  ready (exchange v2) ts'.
Proof.
  intros H [Hp Hout] v1 v2. pose proof (r_db v ts H) as Hdb. pose proof Hdb as [Hf _ _]. destruct (Hf (fb_front v .^ 1)) as [Hok Hend].
  set (B := fb_frame v (fb_front v .^ 1)) in *. assert (draw_frame v = B) as EB by (unfold draw_frame, B, fb_frame; by rewrite (r_draw v ts H)).
  rewrite EB in Hp, Hout. destruct (fits_box v (r_fits v ts H)) as (x & y & Eb & X0 & X1 & Y0 & Y1).
  assert (flushed v1 v2 (fun p => s_incoherent v1 = true /\ exists i j k, in_teapot v i j = true /\ 0 <= k < 3 /\ p = px B i j + k)) as Hfl.
  { unfold v2, in_teapot. change (teapot_bounds v1) with (teapot_bounds v). rewrite Eb. apply rect_flushed; try done.
    change (fb_draw v = fb_store v (fb_front v .^ 1)). apply H. }
  destruct (hidden_ok v m v2 _ Hdb ltac:(intros p Hn; apply Hout; unfold bytes_of in Hn; cbn in *; lia) Hfl) as (S1 & S2 & S3 & S4 & S5 & S6 & S7 & S8).
  split; [exact S1|]. split; [exact S8|]. split; [exact S4|].
  destruct (picture_same v (exchange v2) ts' S8) as [Epic Ein].
  assert (clean B v2) as HcB.
  { intros Hi p Hb. rewrite S7. destruct Hfl as (_ & Fin & Fany). destruct (Fany p) as [E|E]; [|by rewrite E].
    destruct (byte_of_px B p) as (i & j & k & Hi' & Hj' & Hk & ->); [destruct (r_fits v ts H); cbn; unfold TEAPOT_BOX in *; lia|done|].
    destruct (in_teapot v i j) eqn:Et.
    - rewrite Fin; [done|]. split; [change (s_incoherent v = true); congruence|]. by exists i, j, k.
    - assert (dram v (px B i j + k) = cpu v (px B i j + k)) as Hd by (apply (r_back v ts H i j k); done || congruence).
      rewrite E. change (dram v1) with (dram v). rewrite Hd, Hp by done. by rewrite (picture_outside v ts' i j Et). }
  assert (fb_frame v2 (fb_front v2 .^ 1) = B) as EB2 by (rewrite S3; unfold fb_front; by rewrite S4).
  destruct S8 as [W2 H2]. split.
  - by apply (exchange_ok v).
  - unfold fits_screen. change (fb_width (exchange v2)) with (fb_width v2). change (fb_height (exchange v2)) with (fb_height v2).
    rewrite W2, H2. apply H.
  - change (fb_store v2 (fb_front v2) = fb_store v2 ((fb_front v2 .^ 1) .^ 1)). by rewrite store_back.
  - change (fb_width (exchange v2)) with (fb_width v2). change (fb_height (exchange v2)) with (fb_height v2). rewrite W2, H2, Epic.
    intros i j k Hi Hj Hk. rewrite exchange_front, exchange_frame, EB2. change (cpu (exchange v2)) with (cpu v2). rewrite S7, Hp by done.
    destruct (teapot_picture v ts' i j) eqn:Et; [done|]. cbn. rewrite byte_0.
    apply (r_back v ts H i j k Hi Hj Hk). unfold teapot_picture, in_teapot in *. destruct (teapot_bounds v) as [[[bx by_] bw] bh]. by destruct (in_box _ _ _ _ _ _).
  - change (fb_width (exchange v2)) with (fb_width v2). change (fb_height (exchange v2)) with (fb_height v2). rewrite W2, H2, Ein.
    intros i j k Hi Hj Hk Ht. rewrite exchange_front, exchange_frame, front_back, S3. unfold fb_front. rewrite S4. fold (fb_front v).
    change (cpu (exchange v2)) with (cpu v2). change (dram (exchange v2)) with (dram v2). change (s_incoherent (exchange v2)) with (s_incoherent v2). cbn zeta.
    assert (bytes_of (fb_frame v (fb_front v)) (px (fb_frame v (fb_front v)) i j + k)) as Hb by (by apply px_in).
    split; [|intros Hi'; by apply S2]. rewrite S7, Hout.
    + by rewrite (r_front v ts H), (picture_outside v ts i j Ht), byte_0 by done.
    + assert (~ bytes_of B (px (fb_frame v (fb_front v)) i j + k)) as Hn by (intros Hn; eapply (db_apart v Hdb); by split).
      unfold bytes_of in Hn. lia.
Qed.

(** ** Blank frames *)

Lemma db_same v v2 : double_buffered v -> (forall i, fb_frame v2 i = fb_frame v i) -> s_front v2 = s_front v ->
  clean (fb_frame v (fb_front v)) v2 -> double_buffered v2.
Proof.
  intros [Hf Ha _] Ef Es Hc. split.
  - intros i. rewrite Ef. pose proof (Ef i) as E. injection E as -> -> ->. apply Hf.
  - intros p. rewrite !Ef. unfold fb_front. rewrite Es. apply Ha.
  - rewrite Ef. unfold fb_front. by rewrite Es.
Qed.

Lemma blank_hidden v : double_buffered v -> fb_draw v = fb_store v (fb_front v .^ 1) -> let v2 := fb_flush_draw (fb_clear v) in
  double_buffered v2 /\ (forall i, fb_frame v2 i = fb_frame v i) /\ s_front v2 = s_front v /\ fb_draw v2 = fb_draw v /\ same_screen v v2 /\
  (forall p, bytes_of (fb_frame v (fb_front v .^ 1)) p -> cpu v2 p = 0) /\
  (forall p, ~ bytes_of (fb_frame v (fb_front v .^ 1)) p -> cpu v2 p = cpu v p) /\ clean (fb_frame v (fb_front v .^ 1)) v2.
Proof.
  intros Hdb Hd v2. pose proof (fb_size_eq v Hdb) as Es. destruct (db_frames v Hdb (fb_front v .^ 1)) as [[_ [_ [HB He]]] Hend].
  set (B := fb_frame v (fb_front v .^ 1)) in *. cbn [pixels width height fb_frame B] in HB, He.
  set (m := memset (fb_draw v) 0 (fb_size v) (cpu v)).
  assert (forall p, m p = if bool_decide (bytes_of B p) then 0 else cpu v p) as Em.
  { intros p. unfold m, memset, bytes_of, B. rewrite Es, Hd. cbn [pixels width height fb_frame]. case_bool_decide; zcases. }
  assert (flushed (set_cpu m v) v2 (fun p => s_incoherent v = true /\ bytes_of B p)) as Hfl.
  { unfold v2, fb_flush_draw. change (fb_clear v) with (set_cpu m v). change (fb_size (set_cpu m v)) with (fb_size v). rewrite Es.
    change (fb_draw (set_cpu m v)) with (fb_draw v). rewrite Hd. exact (fb_flush_flushed (fb_store v (fb_front v .^ 1)) _ (set_cpu m v) HB Hend). }
  destruct (hidden_ok v m v2 _ Hdb ltac:(intros p Hp; rewrite Em; by rewrite bool_decide_eq_false_2) Hfl) as (S1 & S2 & S3 & S4 & S5 & S6 & S7 & S8).
  split; [by apply (db_same v)|]. split_and!; try done; rewrite ?S7.
  - intros p Hp. by rewrite Em, bool_decide_eq_true_2.
  - intros p Hp. by rewrite Em, bool_decide_eq_false_2.
  - intros Hi p Hp. rewrite S7. destruct Hfl as (_ & Fin & _). apply Fin. split; [congruence|done].
Qed.

Lemma blank_ready v v1 : double_buffered v -> fits_screen v -> fb_draw v = fb_store v (fb_front v .^ 1) ->
  v1 = fb_flush_draw (fb_clear v) -> ready (fb_flush_draw (fb_clear (exchange v1))) [] /\ same_screen v (fb_flush_draw (fb_clear (exchange v1))).
Proof.
  intros Hdb Hfit Hd ->. destruct (blank_hidden v Hdb Hd) as (D1 & F1 & E1 & _ & S1 & Z1 & _ & C1). cbn zeta in *.
  set (v1 := fb_flush_draw (fb_clear v)) in *. clearbody v1.
  assert (double_buffered (exchange v1)) as Hdx by (by apply (exchange_ok v v1)).
  destruct (blank_hidden (exchange v1) Hdx) as (D2 & F2 & E2 & P2 & S2 & Z2 & K2 & C2); [by symmetry; apply (store_back v1)|]. cbn zeta in *.
  set (v3 := fb_flush_draw (fb_clear (exchange v1))) in *. clearbody v3.
  assert (same_screen v v3) as S3 by (destruct S1 as [? ?], S2 as [X1 X2]; unfold same_screen; split; etransitivity; [exact X1|done|exact X2|done]).
  split; [|exact S3]. split; [done| | | |].
  - unfold fits_screen. destruct S3 as [-> ->]. exact Hfit.
  - rewrite P2. change (fb_draw (exchange v1)) with (fb_store v1 (fb_front v1)). unfold fb_front in *. rewrite E2.
    transitivity (fb_store (exchange v1) (s_front (exchange v1) .^ 1)); [symmetry; apply (store_back v1)|].
    pose proof (F2 (s_front (exchange v1) .^ 1)) as E. by injection E.
  - intros i j k Hi Hj Hk. pose proof (byte_0 k) as E0.
    assert (default 0 (teapot_picture v3 [] i j) = 0) as ->
      by (unfold teapot_picture; destruct (teapot_bounds v3) as [[[? ?] ?] ?]; by destruct (in_box _ _ _ _ _ _)).
    rewrite E0. unfold fb_front. rewrite E2, F2. rewrite exchange_frame. change (s_front (exchange v1)) with (s_front v1 .^ 1). rewrite F1.
    assert (bytes_of (fb_frame v (s_front v1 .^ 1)) (px (fb_frame v (s_front v1 .^ 1)) i j + k)) as Hb.
    { destruct S3 as [W H]. apply px_in; cbn; lia. }
    rewrite K2; [apply Z1; unfold fb_front; by rewrite <-E1|]. intros Hb'. eapply (db_apart _ Hdx). split; [|exact Hb'].
    rewrite exchange_frame, exchange_front. unfold fb_front. by rewrite F1.
  - intros i j k Hi Hj Hk _. cbn zeta. unfold fb_front. rewrite E2, F2.
    assert (bytes_of (fb_frame (exchange v1) (fb_front (exchange v1) .^ 1)) (px (fb_frame (exchange v1) (fb_front (exchange v1) .^ 1)) i j + k)) as Hb.
    { pose proof (F2 0) as E. injection E as _ W H. apply px_in; [change (0 <= i < fb_width (exchange v1))|change (0 <= j < fb_height (exchange v1))|done]; destruct S2 as [X1 X2]; lia. }
    split; [by apply Z2|]. intros Hi'. by apply C2.
Qed.

(** ** The pattern *)

Definition rgb (c : Z * Z * Z) : Z := let '(r, g, b) := c in r * 65536 + g * 256 + b.
Definition pattern (v : video) : painting := fun i j => Some (rgb (background_color v i j)).

Lemma background_bytes v x y : let '(r, g, b) := background_color v x y in 0 <= r < 256 /\ 0 <= g < 256 /\ 0 <= b < 256.
Proof.
  unfold background_color. destruct (_ || _); [lia|]. destruct (_ <? _).
  - generalize (Z.to_nat (u32 (x * 8) / fb_width v)). intros n. do 8 (destruct n as [|n]; [cbn; lia|]). cbn. by destruct n; cbn; lia.
  - pose proof (wrap_fits 8 (u32 (x * 255) / u32 (fb_width v - 1)) ltac:(lia)) as H. unfold fits in H. change (2 ^ 8) with 256 in H. lia.
Qed.

Lemma paints_same fb m m1 m2 f : (forall p, m2 p = m1 p) -> paints fb m m1 f -> paints fb m m2 f.
Proof. intros E [H1 H2]. split; intros; rewrite E; auto. Qed.

(** The offsets of the frame fit in 32 bits, as [fb_put_pixel] computes them. *)
Lemma put_pixel_paints v x y r g b : frame_ok (draw_frame v) -> 3 * (fb_width v * fb_height v) < 2 ^ 32 -> 0 <= x < fb_width v -> 0 <= y < fb_height v ->
  0 <= r < 256 -> 0 <= g < 256 -> 0 <= b < 256 ->
  exists m, fb_put_pixel x y r g b v = set_cpu m v /\
    paints (draw_frame v) (cpu v) m (fun i j => if (i =? x) && (j =? y) then Some (rgb (r, g, b)) else None).
Proof.
  intros Hf H32 Hx Hy Hr Hg Hb. eexists. split; [reflexivity|]. eapply paints_same; [|by apply (paints_pixel (draw_frame v) x y)].
  pose proof (px_bounds (draw_frame v) x y Hx Hy) as Hp. destruct Hf as (_ & _ & HB & He). unfold px in *. cbn [pixels width height draw_frame] in *.
  assert (0 <= y * fb_width v) by (apply Z.mul_nonneg_nonneg; lia).
  rewrite (wrap_small 32 (y * fb_width v)), (wrap_small 32 (y * fb_width v + x)), (wrap_small 32 ((y * fb_width v + x) * 3)) by (unfold fits; lia).
  rewrite wrap_small by (unfold fits; lia). destruct (rgb_bytes r g b Hr Hg Hb) as (E2 & E1 & E0).
  intros p. rewrite px_set_byte. change (rgb (r, g, b)) with (r * 65536 + g * 256 + b). rewrite E2, E1, E0. unfold store8.
  rewrite !wrap_small by (unfold fits; lia). zcases.
Qed.

Lemma pattern_paints v : frame_ok (draw_frame v) -> 3 * (fb_width v * fb_height v) < 2 ^ 32 ->
  exists m, pattern_draw v = set_cpu m v /\ paints (draw_frame v) (cpu v) m (pattern v).
Proof.
  intros Hf H32. pose proof Hf as ([HW _] & [HH _] & _). cbn [width height draw_frame] in HW, HH.
  pose (part := fun (P : Z -> Z -> bool) => (fun i j => if P i j then pattern v i j else None) : painting).
  pose (I := fun (P : Z -> Z -> bool) (v' : video) => exists m, v' = set_cpu m v /\ paints (draw_frame v) (cpu v) m (part P)).
  enough (I (in_box 0 0 (fb_width v) (fb_height v)) (pattern_draw v)) as (m & E & Hp).
  { exists m. split; [done|]. eapply paints_ext; [|exact Hp]. intros i j Hi Hj. cbn in Hi, Hj. unfold part, in_box. by rewrite bool_decide_eq_true_2 by lia. }
  unfold pattern_draw. apply (loop_ind _ (fun n v' => I (in_box 0 0 (fb_width v) n) v')); [done| |].
  - exists (cpu v). split; [by destruct v|]. eapply paints_ext; [|apply paints_refl]. intros i j _ _. unfold part, in_box, blank.
    rewrite bool_decide_eq_false_2; [done|lia].
  - intros y v1 Hy (m1 & -> & P1).
    enough (I (fun i j => in_box 0 0 (fb_width v) y i j || in_box 0 y (fb_width v) 1 i j)
       (loop (fb_width v) (fun v x => let '(r, g, b) := background_color v x y in fb_put_pixel x y r g b v) (set_cpu m1 v))) as (m & E & Hp).
    { exists m. split; [exact E|]. eapply paints_ext; [|exact Hp]. intros i j _ _. unfold part, in_box. repeat case_bool_decide; cbn [orb]; lia || done. }
    apply (loop_ind _ (fun n v' => I (fun i j => in_box 0 0 (fb_width v) y i j || in_box 0 y n 1 i j) v')); [done| |].
    + exists m1. split; [done|]. eapply paints_ext; [|exact P1]. intros i j _ _. unfold part, in_box. repeat case_bool_decide; cbn [orb]; lia || done.
    + intros x v2 Hx (m2 & -> & P2). change (background_color (set_cpu m2 v) x y) with (background_color v x y).
      pose proof (background_bytes v x y) as Hb. destruct (background_color v x y) as [[r g] b] eqn:Ec. destruct Hb as (Hr & Hg & Hb).
      destruct (put_pixel_paints (set_cpu m2 v) x y r g b Hf H32 Hx Hy Hr Hg Hb) as (m & E & Hp). exists m. split; [by rewrite E|].
      eapply paints_ext; [|eapply paints_trans; [exact P2|exact Hp]]. intros i j _ _. unfold over, part, in_box, pattern.
      destruct (Z.eqb_spec i x) as [->|]; [destruct (Z.eqb_spec j y) as [->|]|]; cbn [andb]; repeat case_bool_decide; cbn [orb]; rewrite ?Ec; lia || done.
Qed.

(** What [fb_init] makes of two good allocations. *)
Lemma fb_init_ok bufs w h v v0 : 0 < w <= 1920 -> 0 < h <= 1080 -> malloc_ok w h bufs -> fb_init bufs w h v = Some v0 ->
  exists a b, v0 = Video w h a (a, b) 0 (s_incoherent v) (cpu v) (dram v) /\ 0 <= a /\ 0 <= b /\
    a + 3 * (w * h) + 63 < 2 ^ 64 /\ b + 3 * (w * h) + 63 < 2 ^ 64 /\ (a + 3 * (w * h) <= b \/ b + 3 * (w * h) <= a).
Proof.
  intros Hw Hh Hm Hi. destruct bufs as [[a|] [b|]]; try done. unfold fb_init in Hi. injection Hi as <-.
  destruct Hm as (Ha & Hb & Ha' & Hb' & Hap). assert (0 < w * h <= 1920 * 1080) as Hwh by nia. set (n := 3 * (w * h)) in *.
  destruct (aligned_in a n) as (A1 & A2 & _); [lia..|]. destruct (aligned_in b n) as (B1 & B2 & _); [lia..|].
  eexists _, _. split; [reflexivity|]. lia.
Qed.

Lemma patterned_ok bufs w h v v0 : TEAPOT_BOX <= w <= 1920 -> TEAPOT_BOX <= h <= 1080 -> malloc_ok w h bufs -> fb_init bufs w h v = Some v0 ->
  let v' := patterned v0 in
  steady v' /\ fits_screen v' /\ shown v' (pattern v') /\ fb_width v' = w /\ fb_height v' = h /\ s_front v' = 0 /\ s_incoherent v' = s_incoherent v.
Proof.
  intros Hw Hh Hm Hi v'. unfold TEAPOT_BOX in *. destruct (fb_init_ok bufs w h v v0 ltac:(lia) ltac:(lia) Hm Hi) as (a & b & -> & Ha & Hb & Ea & Eb & Hap).
  assert (0 < w * h <= 1920 * 1080) as Hwh by nia. set (n := 3 * (w * h)) in *.
  set (v0 := Video w h a (a, b) 0 (s_incoherent v) (cpu v) (dram v)) in *.
  assert (frame_ok (draw_frame v0)) as Hf0 by (unfold frame_ok, fits, draw_frame; cbn; lia).
  destruct (pattern_paints v0 Hf0 ltac:(cbn; lia)) as (m & Em & [Hp _]).
  assert (forall x, fb_size (set_cpu x v0) = n) as Hs.
  { intros x. unfold fb_size. cbn [fb_width fb_height set_cpu v0]. rewrite (wrap_small 64 (w * h)), wrap_small by (unfold fits; lia). lia. }
  set (m1 := memcpy b a n m). set (v1 := set_cpu m1 v0).
  assert (v' = fb_flush b n (fb_flush a n v1)) as Ev by (unfold v', patterned; rewrite Em, (Hs m); unfold v1, m1; rewrite <-(Hs (memcpy b a n m)); reflexivity).
  assert (flushed v1 v' (fun p => s_incoherent v = true /\ (a <= p < a + n \/ b <= p < b + n))) as Hfl.
  { rewrite Ev. pose proof (fb_flush_flushed a n v1 ltac:(lia) ltac:(lia)) as Hf1.
    eapply flushed_weaken; [|eapply flushed_trans; [exact Hf1|apply fb_flush_flushed; lia]].
    destruct Hf1 as ((_ & _ & _ & _ & _ & E & _) & _). intros p [Hi' [Hp'|Hp']]; [by left|right]. split; [by rewrite E|done]. }
  clear Ev. clearbody v'. pose proof Hfl as ((E1 & E2 & E3 & E4 & E5 & E6 & E7) & Fin & Fany).
  change (fb_width v' = w) in E1. change (fb_height v' = h) in E2. change (s_stores v' = (a, b)) in E4. change (s_front v' = 0) in E5.
  change (s_incoherent v' = s_incoherent v) in E6. change (cpu v' = m1) in E7.
  assert (fb_frame v' (fb_front v') = Soctfb w h a /\ fb_frame v' (fb_front v' .^ 1) = Soctfb w h b) as [Fa Fb]
    by (unfold fb_frame, fb_store, fb_front; by rewrite E1, E2, E4, E5).
  assert (forall i, fb_frame v' i = Soctfb w h a \/ fb_frame v' i = Soctfb w h b) as Fi
    by (intros i; unfold fb_frame, fb_store; rewrite E1, E2, E4; destruct (_ =? 0); [by left|by right]).
  assert (forall c, c = a \/ c = b -> clean (Soctfb w h c) v') as Hc.
  { intros c Hc Hi' p Hp'. rewrite E7. apply Fin. split; [congruence|]. unfold bytes_of in Hp'. cbn in Hp'. destruct Hc as [->| ->]; lia. }
  assert (double_buffered v') as Hdb.
  { split.
    - intros i. assert (fb_store v' i = pixels (fb_frame v' i)) as -> by done. rewrite E1, E2. destruct (Fi i) as [-> | ->]; unfold frame_ok, fits; cbn; lia.
    - intros p. rewrite Fa, Fb. unfold bytes_of. cbn. lia.
    - rewrite Fa. apply Hc. by left. }
  split; [split; [done|rewrite Fb; apply Hc; by right]|]. split; [unfold fits_screen, TEAPOT_BOX; lia|]. split; [|by split_and!].
  intros i j k Hi' Hj Hk. rewrite E1 in Hi'. rewrite E2 in Hj. pose proof (px_in (fb_frame v' (fb_front v')) i j k) as Hin. rewrite Fa in *.
  rewrite scanned_front by (done || rewrite Fa; by apply Hin). rewrite E7.
  assert (m1 (px (Soctfb w h a) i j + k) = m (px (Soctfb w h a) i j + k)) as ->.
  { unfold m1, memcpy. specialize (Hin Hi' Hj Hk). unfold bytes_of in Hin. cbn [pixels width height] in Hin. zcases. }
  change (Soctfb w h a) with (draw_frame v0). rewrite Hp by done. unfold pattern, background_color. rewrite E1, E2. done.
Qed.

(** ** What keeps the frames as they are *)

Section runs.
Context {D : Type} {HD : Mmio D}.
Abbreviation state := (bus D * video)%type.
Abbreviation quiet := (still (snd : state -> video)).

(** Returns, and keeps [I] whether it goes on or aborts. *)
Definition keeps {A} (I : video -> Prop) (m : prog state A) : Prop := forall s, I s.2 -> wp m (fun _ s' => I s'.2) s.

Lemma quiet_keeps {A} I (m : prog state A) : quiet m -> keeps I m.
Proof. intros Hm s H. eapply wp_mono; [apply Hm|]. by intros a s' ->. Qed.
Lemma keeps_need {A B} I (m : prog state (option A)) (f : A -> prog state (option B)) : keeps I m -> (forall a, keeps I (f a)) -> keeps I (need m f).
Proof. intros Hm Hf s H. apply wp_need. eapply wp_mono; [by apply Hm|]. intros [a|] s' H'; [by apply Hf|done]. Qed.
Lemma keeps_bind {A B} I (m : prog state A) (f : A -> prog state B) : keeps I m -> (forall a, keeps I (f a)) -> keeps I (x ← m; f x).
Proof. intros Hm Hf s H. apply wp_bind. eapply wp_mono; [by apply Hm|]. intros a s' H'. by apply Hf. Qed.

Lemma quiet_need {A B} (m : prog state (option A)) (f : A -> prog state (option B)) : quiet m -> (forall a, quiet (f a)) -> quiet (need m f).
Proof. intros Hm Hf. apply still_bind; [done|]. intros [a|]; [apply Hf|apply still_ret]. Qed.
Lemma quiet_lift {A} (r : res A) a : r = Ret a -> quiet (lift r : prog state A).
Proof. by intros -> s. Qed.

Ltac quiet := repeat (lazymatch goal with
  | |- still _ (need _ _) => apply quiet_need | |- still _ (mbind _ _) => apply still_bind
  | |- still _ (if _ then _ else _) => apply still_if | |- still _ (match ?x with None => _ | Some _ => _ end) => destruct x
  | |- forall _, _ => intro end); auto with still.

Lemma in32_quiet w a : quiet (Xil_In32 w a : prog state _).
Proof. unfold Xil_In32. quiet. Qed.
Lemma out32_quiet w a v : quiet (Xil_Out32 w a v : prog state _).
Proof. unfold Xil_Out32. quiet. Qed.
Lemma guard_quiet b : quiet (guard b : prog state _).
Proof. unfold guard. quiet. Qed.
Hint Resolve in32_quiet out32_quiet guard_quiet : still.

Context (k : dp_answers) (hpd : nat) (h : handles).

Lemma sink_quiet aux : quiet (dp_sink_status h aux : prog state _).
Proof. unfold dp_sink_status. quiet. Qed.
Lemma stream_quiet : quiet (dp_start_stream h : prog state _).
Proof. unfold dp_start_stream. quiet. Qed.
Lemma lock_quiet n : quiet (probe_lock h n : prog state _).
Proof.
  assert (forall n p e l, quiet (watch_lock h n p e l : prog state _)) as Hw by (clear n; induction n; intros p e l; cbn; quiet).
  unfold probe_lock. quiet.
Qed.
Lemma frame_done_quiet base : quiet (vdma_take_frame_done base : prog state _).
Proof. unfold vdma_take_frame_done. quiet. Qed.
Lemma clear_done_quiet base : quiet (vdma_clear_frame_done base : prog state _).
Proof. unfold vdma_clear_frame_done. quiet. Qed.
Lemma park_quiet base i : quiet (vdma_park base i : prog state _).
Proof. unfold vdma_park. quiet. Qed.
Hint Resolve sink_quiet stream_quiet lock_quiet frame_done_quiet clear_done_quiet park_quiet : still.

Lemma verify_quiet : quiet (verify_pipeline h : prog state _).
Proof.
  assert (forall n f, quiet (count_frames h n f : prog state _)) as Hc by (induction n; intros f; cbn; quiet).
  assert (forall n, quiet (sample_status h n : prog state _)) as Hs by (induction n; cbn; quiet).
  unfold verify_pipeline, vtc_saw_vblank, vtc_clear_status, vtc_status, vdma_status. quiet.
Qed.

(** A frame's report returns if time has passed and a monitor is there for a retraining. *)
Definition pace_ok (x : pace) : Prop := p_report_us x <> 0 /\ exists i, (i < hpd)%nat /\ p_monitor x i = true.
Lemma tick_quiet x a : pace_ok x -> quiet (anim_tick k hpd h x a : prog state _).
Proof.
  intros [Hus Hm]. unfold anim_tick. rewrite (proj2 (Z.eqb_neq _ _) Hus). quiet.
  eapply quiet_lift. by apply link_ends.
Qed.

(** ** Flips *)

Lemma flip_wp (s : state) : let v := s.2 in wp (flip h) (fun o s' => s'.2 = match o with Some _ => exchange v | None => v end) s.
Proof. intros v. unfold flip. apply wp_bind. eapply wp_mono; [apply fb_flip_wp|]. intros [] s' [_ H]; unfold guard; apply wp_ret; apply H. Qed.

(** Both frames as they were, exchanged or not. *)
Definition pattern_kept (v : video) : Prop := steady v /\ fits_screen v.
Lemma flip_kept : keeps pattern_kept (flip h).
Proof.
  intros s [H Hf]. eapply wp_mono; [apply flip_wp|]. intros [[]|] s' E; cbn in E; rewrite E; [split; [by apply exchange_steady|exact Hf]|done].
Qed.

Lemma experiment_kept r : keeps pattern_kept (run_experiment h r).
Proof.
  assert (forall null fps due, keeps pattern_kept (flips_due h null fps due)) as Hdue.
  { induction due as [|d due IH]; cbn; [by apply quiet_keeps; quiet|]. apply keeps_need; [|intros _; apply keeps_bind; [apply quiet_keeps; quiet|done]].
    destruct (_ && _); [destruct null|]; [apply quiet_keeps; quiet; by intros s|apply flip_kept|apply quiet_keeps; quiet]. }
  assert (forall null x, keeps pattern_kept (probe_flips h null x)) as Hp by (intros null x; apply keeps_bind; [apply quiet_keeps; quiet|intros _; apply Hdue]).
  assert (forall A (l : list A) f, (forall a, keeps pattern_kept (f a)) -> keeps pattern_kept (each_ramp l f : prog state _)) as Hr.
  { intros A l f Hf. induction l as [|a l IH]; cbn; [by apply quiet_keeps; quiet|]. apply keeps_need; [apply Hf|by intros _]. }
  assert (forall n, quiet (press h n : prog state _)) as Hpr by (induction n; cbn; quiet).
  unfold run_experiment. apply keeps_need; [apply quiet_keeps; quiet|intros _].
  apply keeps_need; [apply Hr; intros n; apply quiet_keeps; unfold probe_pressure; quiet|intros _].
  apply keeps_need; [by apply Hr|intros _]. apply keeps_need; [by apply Hr|intros _]. apply quiet_keeps. quiet.
Qed.

(** ** The animation *)

Section scene.
Context (cosf sinf : float -> float) (verts faces : list (Z * Z * Z)) (scene : float -> list tri).

(** At this angle the mesh projects to the faces of the scene, which can be drawn. *)
Definition drawable (angle : float) : Prop := exists vs, project_all cosf sinf angle verts = Ret vs /\
  Forall2 (fun f t => face_of vs f = Ret t) faces (scene angle) /\ Forall tame (scene angle).

(** The angles of a run. *)
Fixpoint angles (angle : float) (l : list pace) : list float :=
  match l with [] => [] | x :: l => angle :: angles (next_angle angle (p_us x)) l end.
(** The faces of the last frame. *)
Definition last_scene (ts : list tri) (l : list float) : list tri := foldl (fun _ a => scene a) ts l.

(** Until the flip the screen stays as it was. *)
Lemma render_frame_wp angle ts (s : state) : drawable angle -> ready s.2 ts ->
  wp (render_frame cosf sinf verts faces angle) (fun _ s' => (forall p, bytes_of (fb_frame s.2 (fb_front s.2)) p -> scanned s'.2 p = scanned s.2 p) /\
    same_screen s.2 s'.2 /\ ready (exchange s'.2) (scene angle)) s.
Proof.
  intros (vs & Hp & Hfs & Hts) H. unfold render_frame. apply wp_get. set (v := s.2) in *.
  assert (frame_ok (draw_frame v)) as Hf by (unfold draw_frame; rewrite (r_draw v ts H); apply (db_frames v (r_db v ts H))).
  destruct (render_paints cosf sinf verts faces angle v vs _ Hf (r_fits v ts H) Hp Hfs Hts) as (m & E & Hm).
  eapply wp_lift; [exact E|]. destruct (frame_ok_step v ts _ m H Hm) as (H1 & H2 & _ & H3). exact (conj H1 (conj H2 H3)).
Qed.

Lemma blank_wp n aux (s : state) : pattern_kept s.2 ->
  wp (anim_blank_and_baseline h n aux) (fun o s' => match o with Some _ => ready s'.2 [] | None => True end) s.
Proof.
  intros [[Hdb _] Hfit]. unfold anim_blank_and_baseline. apply wp_put. set (v := fb_draw_into (fb_store s.2 (fb_front s.2 .^ 1)) s.2).
  assert (double_buffered v) as Hdv by (destruct Hdb; by split).
  apply wp_need. eapply wp_mono; [apply flip_wp|]. intros [[]|] s1 E; [|done]. cbn zeta in E. cbn [snd] in E.
  apply wp_put. rewrite E. destruct (blank_ready v _ Hdv Hfit eq_refl eq_refl) as [Hr _].
  eapply wp_still; [apply lock_quiet|]. intros _ s2 E2. cbn [snd] in E2. apply wp_need. eapply wp_mono; [apply sink_quiet|].
  intros [z|] s3 E3; [|done]. apply wp_ret. rewrite E3, E2. exact Hr.
Qed.

Lemma loop_wp l : forall angle a ts (s : state), Forall pace_ok l -> Forall drawable (angles angle l) -> ready s.2 ts ->
  wp (anim_loop k hpd h cosf sinf verts faces l angle a)
     (fun o s' => match o with Some _ => ready s'.2 (last_scene ts (angles angle l)) | None => True end) s.
Proof.
  induction l as [|x l IH]; intros angle a ts s Hl Ha H; [exact H|]. apply Forall_cons in Hl as [Hx Hl]. cbn in Ha. apply Forall_cons in Ha as [Hd Ha].
  cbn [anim_loop angles last_scene foldl]. apply wp_bind. eapply wp_mono; [by eapply render_frame_wp|]. intros _ s1 (_ & _ & H1).
  apply wp_need. eapply wp_mono; [apply flip_wp|]. intros [[]|] s2 E2; [|done]. cbn zeta in E2.
  apply wp_need. eapply wp_mono; [by apply tick_quiet|]. intros [[a' r]|] s3 E3; [|done]. cbn beta in E3.
  apply wp_need. eapply wp_mono; [apply (IH _ a' (scene angle) s3 Hl Ha); rewrite E3, E2; exact H1|].
  intros [[a2 rs]|] s4 H4; [|done]. exact H4.
Qed.

Lemma run_wp aux n r l (s : state) : Forall pace_ok l -> Forall drawable (angles (of_int 0) l) -> pattern_kept s.2 ->
  wp (dp_run k hpd h cosf sinf verts faces aux n r l)
     (fun o s' => match o with Some _ => ready s'.2 (last_scene [] (angles (of_int 0) l)) | None => True end) s.
Proof.
  intros Hl Ha H. unfold dp_run. apply wp_need. eapply wp_mono; [apply verify_quiet|]. intros [z|] s1 E1; [|done].
  apply wp_need. eapply wp_mono; [apply sink_quiet|]. intros [z1|] s2 E2; [|done].
  eapply wp_still; [apply lock_quiet|]. intros _ s3 E3. apply wp_need.
  eapply wp_mono; [apply experiment_kept; by rewrite E3, E2, E1|]. intros [[]|] s4 H4; [|done].
  unfold anim_live. apply wp_need. eapply wp_mono; [by apply blank_wp|]. intros [[]|] s5 H5; [|done]. by apply loop_wp.
Qed.
End scene.
End runs.

(** ** From the tree to the pattern *)

(** What a device tree says of a design this program can run on. *)
Definition describes_test (blob : list Z) (st : dtb_state) (b : board) (vidstat : Z) : Prop :=
  describes blob st b /\ exists node z, dt_require_compatible blob st (lit "soct,video-status") = Ret (Some node) /\
    dt_require_reg blob st node = Ret (Some (vidstat, z)).

Lemma find_mode_box w h fps t : find_mode w h fps = Some t -> TEAPOT_BOX <= w <= 1920 /\ TEAPOT_BOX <= h <= 1080.
Proof.
  unfold find_mode, TEAPOT_BOX. intros [Hin Hb]%List.find_some. apply andb_true_iff in Hb as [[Ew%Z.eqb_eq Eh%Z.eqb_eq]%andb_true_iff _].
  subst w h. destruct Hin as [<-|[<-|[<-|[]]]]; cbn; lia.
Qed.

Section start.
Context {D : Type} {HD : Mmio D}.
Abbreviation state := (bus D * video)%type.

(** The pattern is on both frames and on the screen. *)
Definition started (b : board) (vidstat : Z) (h : handles) (v : video) : Prop :=
  pattern_kept v /\ shown v (pattern v) /\ fb_width v = u32 (b_w b) /\ fb_height v = u32 (b_h b) /\ s_incoherent v = b_incoherent b /\
  h_vdma h = b_vdma b /\ h_vtc h = b_vtc b /\ h_vidstat h = vidstat.

Lemma window_wp blob st b (s : state) : describes blob st b -> wp (open_ps_window blob st) (fun _ s' => s'.2 = s.2) s.
Proof.
  intros (win & _ & _ & _ & _ & _ & T1 & T2 & T3 & _). unfold open_ps_window. eapply wp_look; [exact T1|]. eapply wp_look; [exact T2|].
  destruct (b_win b) as [wb ws]. eapply wp_look; [exact T3|]. apply wp_pure; [done|]. intros w _.
  apply wp_need. eapply wp_mono; [apply probe_ps_spec|]. intros [[]|] s1 [E _]; [by apply wp_ret|done].
Qed.

Lemma start_wp blob st k fuel hpd bufs tea b vidstat (s : state) : describes_test blob st b vidstat -> malloc_ok (u32 (b_w b)) (u32 (b_h b)) bufs ->
  (forall d, answers (b_vdma b + VDMA_MM2S_DMACR) (fun cr => negb (tst cr VDMA_DMACR_RESET)) fuel d) ->
  (exists i, (i < hpd)%nat /\ connected k i = true) ->
  wp (dp_start blob st k fuel hpd bufs tea) (fun o s' => match o with Some h => started b vidstat h s'.2 | None => True end) s.
Proof.
  intros [Hb (vn & vz & T14 & T15)] Hm Ha Hc. pose proof Hb as (win & vdma & vtc & cbus & z1 & z2 & T1 & T2 & T3 & T4 & T5 & T6 & T7 & T8 & T9 & T10 & T11 & T12 & T13).
  unfold dp_start. apply wp_need. eapply wp_mono; [by eapply window_wp|]. intros [w|] s1 E1; [|done].
  eapply wp_look; [exact T4|]. eapply wp_look; [exact T5|]. cbn beta iota. eapply wp_look; [exact T6|].
  unfold set_incoherent. apply wp_put. set (s2 := (s1.1, _)).
  eapply wp_look; [exact T7|]. eapply wp_look; [exact T8|]. cbn beta iota. eapply wp_look; [exact T14|]. eapply wp_look; [exact T15|]. cbn beta iota.
  eapply wp_look; [exact T9|]. eapply wp_look; [exact T10|]. apply wp_pure; [done|]. intros _ _.
  eapply wp_look; [exact T11|]. eapply wp_look; [exact T12|]. eapply wp_look; [exact T13|]. apply wp_pure; [done|]. intros t Et.
  destruct (find_mode_box _ _ _ _ Et) as [Hw Hh]. apply wp_get. apply wp_pure; [done|]. intros v0 Ei. apply wp_put.
  unfold teapot_init, guard. apply wp_pure; [done|]. intros _ _. apply wp_put. cbn [fst snd].
  destruct (patterned_ok bufs _ _ _ v0 Hw Hh Hm Ei) as (Hs & Hf & Hp & Ew & Eh & _ & Einc). set (v := patterned v0) in *. clearbody v.
  apply wp_get. eapply wp_vdma_start; [exact Ha|apply did_refl|]. cbn [snd]. intros ok s3 H3.
  assert (s3.2 = v) as E3 by (destruct (_ && _) in H3; [destruct H3 as [cr [_ E]]|destruct H3 as [[_ E] _]]; exact E).
  apply wp_pure; [done|]. intros _ _. unfold vtc_start. eapply wp_stores; [apply did_refl|]. intros s4 [_ E4].
  apply wp_pure; [done|]. intros _ _. eapply wp_lift; [by apply link_ends|]. apply wp_pure; [done|]. intros _ _.
  apply wp_need. eapply wp_mono; [apply stream_quiet|]. intros [[]|] s5 E5; [|done]. apply wp_ret. rewrite E5, E4, E3.
  split; [by split|]. split_and!; done.
Qed.
End start.

(** C18. From the tree to the spinning teapot.  For every parsed tree that describes a design with a
    display, whatever the registers and the vendored drivers answer, as long as the fetch's reset ends
    and a monitor comes: bring-up returns, and when it has not aborted, the test pattern is on the
    screen, through the caches or past them.  From there, for every cosine under which the mesh is
    drawable at the angles of the run, however long the checks, the experiment and each frame
    take: the program returns from its n-th frame, and when it has not aborted, the screen shows black with
    the nearest faces of that frame's scene in the box - although only the box is cleared, drawn and
    flushed. *)
Theorem dp_test_animates {D} {HD : Mmio D} blob st k fuel hpd bufs tea b vidstat (s : bus D * video) :
  describes_test blob st b vidstat -> malloc_ok (u32 (b_w b)) (u32 (b_h b)) bufs ->
  (forall d, answers (b_vdma b + VDMA_MM2S_DMACR) (fun cr => negb (tst cr VDMA_DMACR_RESET)) fuel d) ->
  (exists i, (i < hpd)%nat /\ connected k i = true) ->
  exists o s1, dp_start blob st k fuel hpd bufs tea s = Ret (o, s1) /\ match o with None => True | Some h =>
    started b vidstat h s1.2 /\
    forall cosf sinf verts faces scene aux n r l, Forall (pace_ok hpd) l ->
      Forall (drawable cosf sinf verts faces scene) (angles (of_int 0) l) ->
      exists o2 s2, dp_run k hpd h cosf sinf verts faces aux n r l s1 = Ret (o2, s2) /\
        match o2 with None => True | Some _ => shown s2.2 (teapot_picture s2.2 (last_scene scene [] (angles (of_int 0) l))) end
  end.
Proof.
  intros Hb Hm Ha Hc. destruct (wp_run _ _ _ (start_wp blob st k fuel hpd bufs tea b vidstat s Hb Hm Ha Hc)) as (o & s1 & E & H).
  exists o, s1. split; [exact E|]. destruct o as [h|]; [|done]. split; [exact H|]. intros cosf sinf verts faces scene aux n r l Hl Hd.
  destruct (wp_run _ _ _ (run_wp k hpd h cosf sinf verts faces scene aux n r l s1 Hl Hd (proj1 H))) as (o2 & s2 & E2 & H2).
  exists o2, s2. split; [exact E2|]. destruct o2; [|done]. by apply ready_shown.
Qed.

(** ** A design that runs it *)

Definition test_strings : list Z := fb_strings.
Definition test_tree : tree :=
  Tree [] [INode (Tree (str "memory@0") [IProp 11 (str "reg") (be_bytes 1 ++ be_bytes 3)]);
    INode (Tree (str "soc") [INode (Tree (str "cbus_clock") [IProp 15 (str "clock-frequency") (be_bytes 100000000)]);
      INode (fb_node "window@40000000" "soct,zynqmp-ps-window" 0x40000000 0x10000 [IProp 31 (str "soct,ps-base") (be_bytes 0xFD4A0000)]);
      INode (fb_node "dma@60000000" "xlnx,axi-vdma-1.00.a" 0x60000000 0x10000 []);
      INode (fb_node "gpio@60020000" "soct,video-status" 0x60020000 0x10000 []);
      INode (fb_node "v_tc@60010000" "xlnx,v-tc-6.2" 0x60010000 0x10000
        [IProp 44 (str "soct,hactive") (be_bytes 640); IProp 57 (str "soct,vactive") (be_bytes 480); IProp 70 (str "soct,fps") (be_bytes 60)])])].
Definition test_blob : list Z := mk_blob test_tree test_strings.

Lemma test_described : describes_test test_blob (parsed test_blob) ex_board 0x60020000.
Proof.
  split; [exists 4%nat, 5%nat, 7%nat, 3%nat, 0x10000, 0x10000|exists 6%nat, 0x10000]; split_and!; vm_compute; reflexivity.
Qed.

(** The register of the probe keeps what is written; the park pointer reads back the store asked for. *)
Definition bench : Mmio (Z * Z) := {|
  mmio_read d r := (if r =? 0x40000180 then d.1 else if r =? 0x60000000 + VDMA_PARK_PTR then d.2 .<< 16 else 0, d);
  mmio_write d r v := if r =? 0x40000180 then (v, d.2) else if r =? 0x60000000 + VDMA_PARK_PTR then (d.1, v .& 31) else d |}.
Definition wpace : pace := Pace 20000 5000000 (Some 1) None 3 (fun _ => true).
Definition wscene (_ : float) : list tri := wtris.

Lemma wdrawable a : drawable unit_cos unit_sin wmesh wfaces wscene a.
Proof. exists wvertices. split; [vm_compute; reflexivity|]. split; [repeat constructor|exact wmesh_tame]. Qed.

Lemma wpace_ok : pace_ok 10 wpace.
Proof. split; [done|]. exists O. split; [lia|done]. Qed.

Lemma dp_test_animates_witness : exists o s1,
  @dp_start _ bench test_blob (parsed test_blob) all_well 1 10 (Some 0x80000000, Some 0x80200000) true (Bus (1056, 0) [], ex_video) = Ret (o, s1) /\
  match o with None => True | Some h => shown s1.2 (pattern s1.2) /\ exists o2 s2,
    @dp_run _ bench all_well 10 h unit_cos unit_sin wmesh wfaces (Some 1) 3 (Ramps true [1%nat] [(60, [true; true])] (Some 1)) [wpace; wpace] s1 = Ret (o2, s2) end.
Proof.
  destruct (@dp_test_animates _ bench test_blob (parsed test_blob) all_well 1 10 (Some 0x80000000, Some 0x80200000) true ex_board 0x60020000
    (Bus (1056, 0) [], ex_video) test_described) as (o & s1 & E & H).
  - change (malloc_ok 640 480 (Some 0x80000000, Some 0x80200000)). cbn. lia.
  - intros d. by left.
  - exists 4%nat. split; [lia|done].
  - exists o, s1. split; [exact E|]. destruct o as [h|]; [|done]. destruct H as [(_ & Hp & _) H]. split; [exact Hp|].
    destruct (H unit_cos unit_sin wmesh wfaces wscene (Some 1) 3%nat (Ramps true [1%nat] [(60, [true; true])] (Some 1)) [wpace; wpace]) as (o2 & s2 & E2 & _).
    + exact (Forall_cons_2 _ _ _ wpace_ok (Forall_cons_2 _ _ _ wpace_ok (Forall_nil_2 _))).
    + apply Forall_forall. intros a _. apply wdrawable.
    + by exists o2, s2.
Defined.

(** Two frames on the bench, from black frames: all five flips are answered, and the second store is shown. *)
Lemma bench_runs :
  match @dp_run _ bench all_well 10 (Handles (Window 0xFD4A0000 0x40000000 0x10000) 0x60000000 0x60010000 0x60020000) unit_cos unit_sin wmesh wfaces
    (Some 1) 3 (Ramps true [1%nat] [(60, [true; true])] (Some 1)) [wpace; wpace]
    (Bus (1056, 0) [], Video 640 480 0x80000000 (0x80000000, 0x80200000) 0 true (fun _ => 0) (fun _ => 0)) with
  | Ret (Some (a, _), s) => (s_frames a, s_front s.2) = (2, 1)
  | _ => False
  end.
Proof. vm_compute. reflexivity. Qed.
